(* ===== verification/_CoqProject ===== *)
-Q . S2P
Prelude.v
Text.v
Net.v
Runq.v
Ticket.v
B64.v
EventLog.v
Dzp.v
Ir.v
IrVerify.v
IrSafety.v
Mcap.v
Ocap.v
Sched.v
SchedSafe.v
SchedHarts.v
Difc.v
Sig.v
Pkg.v
PkgOps.v
PkgSafe.v
Intent.v
PkgCodec.v
PkgDisk.v
PkgCrash.v
Boot.v
Service.v
Cairn.v
Ledger.v
Daemon.v
LedgerInv.v
Client.v
LedgerSafe.v
DaemonSafe.v
LedgerSpec.v
LedgerMission.v
Sessions.v
PkgService.v
PkgDemo.v
CairnLog.v
Frames.v
Paging.v
Loader.v
LoaderTables.v
LoaderImage.v
LoaderSafe.v
LoaderSpace.v
Isolation.v
Launch.v
MarzIo.v
Marz.v
MarzSafe.v
MarzFrames.v
MarzWire.v
MarzResume.v
Operator.v
KHost.v
Egress.v
EgressSafe.v
EgressDemo.v
Identity.v
HostCaps.v
Contract.v
Provenance.v
Runtime.v
Personality.v
Actors.v
Placement.v
Smp.v
SmpSafe.v
SmpFair.v
ApSlots.v
ApRun.v
