(* ===== verification/Prelude.v ===== *)
(** * Dezh: a verification library for the Dezh OS prototype

    Dezh is a capability operating system written in Rust: pure logic in
    [src/dezh-core] and [src/dezh-kernel], a RISC-V kernel with its daemons in
    [src/dezh-boot], host-side prototypes in [src/spikes].  This library
    translates that code into executable Rocq definitions that keep the names of
    the source, and proves what makes each part correct.  A definition follows
    its function branch by branch: early returns, error values and the order of
    the effects included.

    ** How the system is put together

    The console operator acts through commands.  A command is gated by object
    capabilities ([ocap]), by the operator's information-flow taint ([difc]) and
    by the intents that bound a run ([pkg]); then it works on one of two
    daemons or on the kernel itself.  The block daemon ([virtio-blk]) owns the
    disk: it keeps the Cairn ledger and serves sectors to the package store.  The
    egress daemon ([marz]) owns the NIC.  Programs run as processes with page
    tables of their own ([proc/loader], [mm]) under the scheduler ([sched]), or
    inside the Dezh-IR engine ([ir]) with the capabilities of their package's
    manifest ([mcap], [dzp], [sig]).

    ** Files

    Foundations.
    - [Prelude]: results and panics, machine integers, bit sets, little-endian
      codecs, slices, reachability, tactics and the hint databases [dezh],
      [zbits].  [Text]: Rust strings and UTF-8.

    Pure components ([src/dezh-core/src], [src/dezh-kernel/src/lib.rs]).
    - [Net] (net.rs), [Runq] (runq.rs), [Ticket] (sync.rs), [B64] (b64.rs),
      [Dzp] (dzp.rs), [Difc] (difc.rs), [Ocap] (ocap.rs), [Cairn] (cairn.rs).
    - [Ir] (ir.rs), with its verifier in [IrVerify] and the safety of execution
      in [IrSafety]; [Mcap] (mcap.rs and the authority algebra of dezh-kernel);
      [Sig] (sig.rs); [Boot] (the boot contract of dezh-kernel).
    - [EventLog] (dezh-boot/src/audit.rs).

    Kernel ([src/dezh-boot/src]).
    - [Sched] (sched.rs, dev/plic.rs): the task table, one step per critical
      section; [SchedSafe] and [SchedHarts] its invariants; [Service]
      (service.rs).
    - [Smp] (smp.rs): bring-up of the secondary harts and the parallel round,
      one step per shared access; [SmpSafe] its exactness, [SmpFair] its
      termination.  [ApSlots], [ApRun] (smp.rs): the private address spaces of
      tasks on secondary harts, their trap handler and dispatch.
    - [Frames] (mm/frames.rs, mm/bump.rs), [Paging] (mm/paging.rs), [Loader]
      (proc/loader.rs, dev/virtio.rs); [LoaderTables], [LoaderImage],
      [LoaderSafe], [LoaderSpace], [Launch] and [Isolation] prove what a launch
      builds and that processes are isolated.
    - [Pkg], [PkgOps], [Intent] (pkg.rs): the package store, its commands and the
      intents; [PkgSafe], [PkgCodec], [PkgDisk], [PkgCrash] their theorems.
    - [Operator] (difc.rs, ocap/device.rs, ocap/ns.rs, cairn/console.rs) and
      [Egress] (net/marz.rs): the console's gates and the egress commands, a
      daemon left asleep and resumed later included ([MarzResume]); [EgressSafe]
      and [EgressDemo] their theorems.
    - [KHost] (main.rs): the host the kernel gives a Dezh-IR guest, over the
      ledger and the operator's namespace handles, and what a manifest lets a
      guest do through it.

    Daemons.
    - [Ledger], [Daemon] (virtio-blk/src/main.rs): every request of the block
      daemon; [Client] (vblk.rs, abi.rs): the console's side of it; [LedgerInv],
      [LedgerSafe], [LedgerSpec], [LedgerMission], [DaemonSafe], [Sessions],
      [PkgService], [PkgDemo]: their theorems, together with the package store.
    - [MarzIo], [Marz] (marz/src/main.rs): the egress daemon on its two grants;
      [MarzSafe], [MarzFrames], [MarzWire], [MarzResume]: its theorems.

    Spikes ([src/spikes]).
    - [CairnLog] (dezh-cairn): the content-addressed object store over its log.
    - [Identity] (dezh-identity): principals, scopes, grants with their
      delegation chain, invocation records.
    - [HostCaps] (dezh-host): the capability table and host functions a
      WebAssembly guest calls.  [Contract] (dezh-ir): the gate on a module's
      imports and exports.
    - [Provenance], [Runtime] (dezh-runtime): guests that write refs of
      [CairnLog] under grants of [Identity], behind the gate of [Contract];
      [Personality] (dezh-linux): the same store as files for legacy programs.
    - [Actors] (dezh-ipc): actors, channels and transferred grants.  [Placement]
      (dezh-scheduler): scoring of resources in binary64 arithmetic.

    ** Interfaces

    [Pkg.SectorService] is what the package store sees of the disk and
    [PkgCrash] proves the store against its laws; [PkgService] discharges them
    with the block daemon of [Daemon] reached through [Client], for clients that
    are launched and answered ([Client.ClientFate] has the others, which the
    kernel takes for success).  [PkgSafe] watches the requests made to any
    service at all.  [Ir]'s host is a class with the laws its trait documents,
    and [KHost] is the kernel's instance.  [Egress] runs the daemon of [Marz]
    on the window the kernel staged and records the effect through [Client].

    ** What the theorems show

    - Storage: the ledger's invariant survives every request and device failure
      ([DaemonSafe]); commits, reads and rollbacks refine an abstract history
      ([LedgerSpec], [LedgerMission]); installs are atomic across crashes
      ([PkgCrash]); the object store's log recovers a whole operation
      ([CairnLog]).
    - Authority: only verified packages run, within the authority their manifest,
      publisher and intent allow ([PkgSafe], [Mcap], [KHost], [Sig], [Intent]);
      the image run is the one read from the slot whose entry has its checksum
      ([PkgSafe]); revocation
      reaches every derived handle ([Ocap]); no task gains a capability bit
      ([SchedSafe]); no frame and no secret leaves without authority
      ([EgressSafe]).
    - Isolation: a process reaches its own frames, its granted devices, the
      shared code and at most the stack the kernel has open ([Isolation],
      [Launch], [Paging]), for images [LoaderImage.elf_ok] accepts, a test the
      loader leaves to its build; a task on a secondary hart reaches its own
      stack ([ApSlots]); two harts never run one task when the console keeps the
      conditions [SchedHarts.careful] lists.
    - Parallel harts: a round whose reports all arrive counts exactly, under
      every interleaving ([SmpSafe]); every slot of a batch runs once ([ApRun]).
    - Progress and bounds: the ticket lock and the round robin starve nobody
      ([Ticket], [SchedSafe]), a parallel round returns under every fair schedule
      ([SmpFair]), the egress daemon ends for every NIC ([MarzSafe]), the
      interpreter's panics are characterised exactly ([IrSafety]).
    - Codecs: packages, envelopes, records, base64 and checksums ([Dzp], [Sig],
      [Cairn], [B64], [Net]).
    - Spikes: the object store's log recovers; a WebAssembly guest sees and
      changes only what its capabilities allow, by comparing runs ([HostCaps]);
      an accepted guest links, and fails only in its own start-up ([Runtime]); every write of a guest or of a legacy
      program is on record under a grant that covers it ([Runtime],
      [Personality]); grants travel between actors only by delegation, and
      messages arrive once and in order ([Actors]); a placement is a maximum
      ([Placement]).
    - Where the code does not do what its text says, a theorem shows the run.

    ** Modelling choices, bounds and fuel

    An integer of width [w] is a [Z] in [0 .. 2^w); wrap-around is written with
    [wrap] and checked arithmetic takes a flag for the build profile (overflow
    checks on or off), so the theorems cover both.  A panic is the [Panic] of
    [outcome].  Loops that are not structural take fuel: [Ir.run_fuel] returns
    [None] when it runs out, and every theorem about a result is stated for the
    fuel that suffices; what a guest that may never halt has done is stated after
    every number of turns ([Ir.turns]) or host calls ([Runtime.rt_run]); the retry loops of [Marz] take their own counters'
    bounds and [MarzSafe] shows they never run out; [CairnLog.replay_log] takes
    one turn per byte of the log, more than its 48-byte frames can need; the
    UTF-8 decoder takes one turn per byte.  Harts, threads and devices
    interleave between atomic accesses or critical sections; memory orderings are
    taken as sequentially consistent.  The sizes of a parallel round (work, locked
    work, spin limit) are arguments of [Smp], so that runs can be evaluated; its
    theorems hold for all values up to 2^32, those of the source included, and
    [SmpFair.round_bound] is the number of fair stretches that is enough.

    Third-party code is a parameter: Ed25519 and BLAKE3 (only what is documented
    of them is assumed, a digest's length and that a valid signature was made by
    the key's owner), the WebAssembly compiler, linker and module start-up of
    [Contract] and [Runtime], the disk as a device whose commands may fail, the NIC as
    an environment that answers registers and rewrites its window as it likes.
    The Sv39 walk and the NIC's reading of its rings are models of the hardware
    the code is written for.

    ** Not modelled

    - Assembly and register save and restore, the timer, TLB flushes, clocks.
    - The virtqueue handshake of the block driver (it is the device parameter).
    - The baked user tasks and the demos that run them (utasks.rs, demos), and
      how far tasks of different harts overlap in time ([AP_LIVE]).
    - The console's line editing, dispatch and printed text (console, apps.rs,
      uart.rs): commands are modelled from their handlers on, and their output
      as the values it prints.
    - The x86 port, the benchmarks and the bundled guest programs: start-up glue
      and small clients with fixed requests.
    - Device DMA beyond the windows granted: there is no IOMMU, so it is part of
      the environment of [Isolation]. *)

From stdpp Require Import base option list numbers.
From Stdlib Require Import ZArith Lia Btauto.

#[global] Open Scope Z_scope.

Declare Scope dezh_scope.
Delimit Scope dezh_scope with dezh.
#[global] Open Scope dezh_scope.

(** ** Results and panics

    [result] is Rust's [Result]; [outcome] is a computation that may also
    panic (an index out of bounds, a checked overflow, a division overflow):
    on the kernels every profile aborts on a panic. *)

Inductive result (E A : Type) : Type :=
| Ok (a : A)
| Err (e : E).
Arguments Ok {E A} a.
Arguments Err {E A} e.

Inductive outcome (E A : Type) : Type :=
| Ret (a : A)
| Trap (e : E)
| Panic.
Arguments Ret {E A} a.
Arguments Trap {E A} e.
Arguments Panic {E A}.

#[export] Instance result_ret E : MRet (result E) := fun A a => Ok a.
#[export] Instance result_bind E : MBind (result E) := fun A B f m =>
  match m with Ok a => f a | Err e => Err e end.
#[export] Instance outcome_ret E : MRet (outcome E) := fun A a => Ret a.
#[export] Instance outcome_bind E : MBind (outcome E) := fun A B f m =>
  match m with Ret a => f a | Trap e => Trap e | Panic => Panic end.

#[export] Instance result_eq_dec `{EqDecision E, EqDecision A} : EqDecision (result E A).
Proof. solve_decision. Defined.
#[export] Instance outcome_eq_dec `{EqDecision E, EqDecision A} : EqDecision (outcome E A).
Proof. solve_decision. Defined.

(** [o.ok_or(e)] *)
Definition ok_or {E A} (o : option A) (e : E) : result E A :=
  match o with Some a => Ok a | None => Err e end.

Definition is_ok {E A} (r : result E A) : bool :=
  match r with Ok _ => true | Err _ => false end.

(** ** Machine integers

    A w-bit unsigned value is a [Z] in [0 .. 2^w - 1].  [wrap] is the
    truncating cast, [unot] is Rust's [!], and [band_not] is [a & !b]. *)

Definition fits (w x : Z) : Prop := 0 <= x < 2 ^ w.
Definition fitsb (w x : Z) : bool := (0 <=? x) && (x <? 2 ^ w).
Definition wrap (w x : Z) : Z := x mod 2 ^ w.
Definition unot (w x : Z) : Z := Z.lxor (Z.ones w) x.

(** The two's complement reading of a 64-bit pattern and its inverse. *)
Definition to_i64 (u : Z) : Z := if u <? 2 ^ 63 then u else u - 2 ^ 64.
Definition fits_i64 (x : Z) : Prop := - 2 ^ 63 <= x < 2 ^ 63.
Definition wrap_i64 (x : Z) : Z := to_i64 (wrap 64 x).

Notation "x '&' y" := (Z.land x y) (at level 40, left associativity) : dezh_scope.
Notation "x '.|' y" := (Z.lor x y) (at level 50, left associativity) : dezh_scope.

Lemma fitsb_spec w x : fitsb w x = true <-> fits w x.
Proof. unfold fitsb, fits. rewrite andb_true_iff, Z.leb_le, Z.ltb_lt. tauto. Qed.

Lemma wrap_fits w x : 0 <= w -> fits w (wrap w x).
Proof. intros. unfold fits, wrap. apply Z.mod_pos_bound, Z.pow_pos_nonneg; lia. Qed.

Lemma wrap_small w x : fits w x -> wrap w x = x.
Proof. apply Z.mod_small. Qed.

Lemma fits_mono w1 w2 x : 0 <= w1 <= w2 -> fits w1 x -> fits w2 x.
Proof.
  intros Hw [H0 H1]. split; [done|].
  eapply Z.lt_le_trans; [done|]. apply Z.pow_le_mono_r; lia.
Qed.

Create HintDb dezh discriminated.
#[export] Hint Resolve wrap_fits wrap_small : dezh.

(** Bits above the width of a value in range are zero. *)
Lemma fits_testbit_high w x i : fits w x -> 0 <= w <= i -> Z.testbit x i = false.
Proof.
  intros Hx Hi. rewrite <- (wrap_small w x Hx). apply Z.mod_pow2_bits_high. lia.
Qed.

Lemma fits_intro w x :
  0 <= w -> 0 <= x -> (forall i, w <= i -> Z.testbit x i = false) -> fits w x.
Proof.
  intros Hw Hx Hb. split; [done|].
  destruct (decide (x = 0)) as [->|Hne]; [apply Z.pow_pos_nonneg; lia|].
  apply Z.log2_lt_pow2; [lia|].
  destruct (Z.lt_ge_cases (Z.log2 x) w) as [|Hge]; [done|].
  specialize (Hb _ Hge). rewrite Z.bit_log2 in Hb; [discriminate|lia].
Qed.

Lemma land_fits_l w x y : 0 <= w -> fits w x -> 0 <= y -> fits w (x & y).
Proof.
  intros Hw Hx Hy. apply fits_intro; [done| apply Z.land_nonneg; destruct Hx; lia|].
  intros i Hi. rewrite Z.land_spec, (fits_testbit_high w x) by (done || lia). done.
Qed.

Lemma land_fits_r w x y : 0 <= w -> fits w y -> 0 <= x -> fits w (x & y).
Proof. intros. rewrite Z.land_comm. by apply land_fits_l. Qed.

Lemma lor_fits w x y : 0 <= w -> fits w x -> fits w y -> fits w (x .| y).
Proof.
  intros Hw Hx Hy. apply fits_intro; [done| apply Z.lor_nonneg; destruct Hx, Hy; lia|].
  intros i Hi. by rewrite Z.lor_spec, (fits_testbit_high w x), (fits_testbit_high w y) by (done || lia).
Qed.

(** [unot] restricted by [&] is set difference. *)
Lemma testbit_unot w x i :
  0 <= w -> 0 <= i -> Z.testbit (unot w x) i = xorb (i <? w) (Z.testbit x i).
Proof.
  intros Hw Hi. unfold unot. rewrite Z.lxor_spec, Z.testbit_ones_nonneg by lia. done.
Qed.

Lemma land_unot w x y : 0 <= w -> fits w x -> x & unot w y = Z.ldiff x y.
Proof.
  intros Hw Hx. apply Z.bits_inj'. intros i Hi.
  rewrite Z.land_spec, Z.ldiff_spec, testbit_unot by lia.
  destruct (Z.ltb_spec i w).
  - by rewrite xorb_true_l.
  - by rewrite (fits_testbit_high w x) by (done || lia).
Qed.

(** [zbits] proves an equation between bitwise expressions bit by bit. *)
Create Rewrite HintDb zbits.
#[export] Hint Rewrite Z.land_spec Z.lor_spec Z.lxor_spec Z.ldiff_spec Z.testbit_0_l : zbits.
Ltac zbits :=
  apply Z.bits_inj'; intros ?i ?Hi; autorewrite with zbits; btauto.

(** ** Capability sets as bit sets

    [subset_bits a b] is the order every authority check of the code decides
    with [a & !b == 0]. *)

Definition subset_bits (a b : Z) : Prop := Z.ldiff a b = 0.

Lemma subset_bits_spec a b :
  subset_bits a b <-> (forall i, 0 <= i -> Z.testbit a i = true -> Z.testbit b i = true).
Proof.
  unfold subset_bits. split.
  - intros H i Hi Ha. assert (Hz : Z.testbit (Z.ldiff a b) i = false) by (rewrite H; apply Z.testbit_0_l).
    rewrite Z.ldiff_spec, Ha in Hz. by destruct (Z.testbit b i).
  - intros H. apply Z.bits_inj'. intros i Hi. rewrite Z.ldiff_spec, Z.testbit_0_l.
    destruct (Z.testbit a i) eqn:Ha; [|done]. by rewrite (H i Hi Ha).
Qed.

#[export] Instance subset_bits_preorder : PreOrder subset_bits.
Proof.
  split.
  - intros a. apply subset_bits_spec. eauto.
  - intros a b c H1 H2. rewrite subset_bits_spec in *. eauto.
Qed.

Lemma subset_bits_antisym a b : subset_bits a b -> subset_bits b a -> a = b.
Proof.
  intros H1 H2. rewrite subset_bits_spec in *. apply Z.bits_inj'. intros i Hi.
  specialize (H1 i Hi); specialize (H2 i Hi).
  destruct (Z.testbit a i), (Z.testbit b i); try done; [by rewrite H1| by rewrite H2].
Qed.

Lemma subset_bits_land_l a b : subset_bits (a & b) a.
Proof. apply subset_bits_spec. intros i Hi. rewrite Z.land_spec, andb_true_iff. tauto. Qed.
Lemma subset_bits_land_r a b : subset_bits (a & b) b.
Proof. apply subset_bits_spec. intros i Hi. rewrite Z.land_spec, andb_true_iff. tauto. Qed.
Lemma subset_bits_lor_l a b : subset_bits a (a .| b).
Proof. apply subset_bits_spec. intros i Hi H. by rewrite Z.lor_spec, H. Qed.
Lemma subset_bits_lor_r a b : subset_bits b (a .| b).
Proof. apply subset_bits_spec. intros i Hi H. by rewrite Z.lor_spec, H, orb_true_r. Qed.
Lemma subset_bits_lor_lub a b c : subset_bits a c -> subset_bits b c -> subset_bits (a .| b) c.
Proof.
  intros H1 H2. rewrite subset_bits_spec in *. intros i Hi.
  rewrite Z.lor_spec, orb_true_iff. intros [?|?]; eauto.
Qed.
Lemma subset_bits_land_glb a b c : subset_bits c a -> subset_bits c b -> subset_bits c (a & b).
Proof.
  intros H1 H2. rewrite subset_bits_spec in *. intros i Hi H.
  rewrite Z.land_spec, H1, H2; done.
Qed.
Lemma subset_bits_land_eq a b : subset_bits a b <-> a & b = a.
Proof.
  split.
  - intros H. apply subset_bits_antisym; [apply subset_bits_land_l|].
    apply subset_bits_land_glb; done.
  - intros <-. apply subset_bits_land_r.
Qed.
Lemma subset_bits_fits w a b : 0 <= w -> subset_bits a b -> fits w b -> fits w a.
Proof.
  intros Hw Hs Hb. apply fits_intro; [done| |].
  - apply subset_bits_land_eq in Hs as <-. apply Z.land_nonneg. right. apply Hb.
  - intros i Hi. destruct (Z.testbit a i) eqn:E; [|done].
    rewrite <- (fits_testbit_high w b i Hb) by lia. symmetry.
    apply (proj1 (subset_bits_spec a b) Hs); [lia|done].
Qed.
#[export] Hint Resolve subset_bits_land_l subset_bits_land_r subset_bits_lor_l
  subset_bits_lor_r subset_bits_lor_lub subset_bits_land_glb : dezh.

(** A single bit is set in [a] iff masking with it is nonzero. *)
Lemma land_bit a k : 0 <= k -> a & 2 ^ k = if Z.testbit a k then 2 ^ k else 0.
Proof.
  intros Hk. apply Z.bits_inj'. intros i Hi. rewrite Z.land_spec, Z.pow2_bits_eqb by done.
  destruct (Z.eqb_spec k i) as [->|Hne].
  - destruct (Z.testbit a i); [by rewrite Z.pow2_bits_true| by rewrite Z.testbit_0_l].
  - rewrite andb_false_r. destruct (Z.testbit a k); [|by rewrite Z.testbit_0_l].
    by rewrite Z.pow2_bits_false.
Qed.

Lemma land_bit_nonzero a k : 0 <= k -> negb (a & 2 ^ k =? 0) = Z.testbit a k.
Proof.
  intros Hk. rewrite land_bit by done.
  assert (0 < 2 ^ k) by (apply Z.pow_pos_nonneg; lia).
  destruct (Z.testbit a k); [|done]. apply negb_true_iff, Z.eqb_neq. lia.
Qed.

(** ** Little-endian integers *)

Fixpoint le_bytes (n : nat) (v : Z) : list Z :=
  match n with
  | O => []
  | S n => wrap 8 v :: le_bytes n (Z.shiftr v 8)
  end.

Fixpoint le_val (bs : list Z) : Z :=
  match bs with
  | [] => 0
  | b :: bs => b .| Z.shiftl (le_val bs) 8
  end.

Definition bytes_ok (bs : list Z) : Prop := Forall (fits 8) bs.

Lemma length_le_bytes n v : length (le_bytes n v) = n.
Proof. revert v. induction n; simpl; auto. Qed.

Lemma le_bytes_ok n v : bytes_ok (le_bytes n v).
Proof. revert v. induction n; simpl; constructor; [apply wrap_fits; lia|apply IHn]. Qed.
#[export] Hint Resolve le_bytes_ok length_le_bytes : dezh.

Lemma wrap_testbit w x i : 0 <= w -> 0 <= i -> Z.testbit (wrap w x) i = (i <? w) && Z.testbit x i.
Proof.
  intros Hw Hi. unfold wrap. destruct (Z.ltb_spec i w).
  - by rewrite Z.mod_pow2_bits_low.
  - rewrite Z.mod_pow2_bits_high; done || lia.
Qed.

Lemma le_val_le_bytes_wrap n v : le_val (le_bytes n v) = wrap (8 * Z.of_nat n) v.
Proof.
  revert v. induction n as [|n IH]; intros v.
  - simpl. unfold wrap. by rewrite Z.mul_0_r, Z.mod_1_r.
  - cbn [le_bytes le_val]. rewrite IH. apply Z.bits_inj'. intros i Hi.
    rewrite Z.lor_spec, wrap_testbit, wrap_testbit, Z.shiftl_spec by lia.
    destruct (Z.ltb_spec i 8).
    + rewrite (Z.testbit_neg_r _ (i - 8)) by lia. rewrite orb_false_r.
      by destruct (Z.ltb_spec i (8 * Z.of_nat (S n))); [|lia].
    + rewrite wrap_testbit, Z.shiftr_spec by lia.
      replace (i - 8 + 8) with i by lia. simpl. f_equal.
      destruct (Z.ltb_spec (i - 8) (8 * Z.of_nat n)), (Z.ltb_spec i (8 * Z.of_nat (S n))); done || lia.
Qed.

Lemma le_val_le_bytes n v : fits (8 * Z.of_nat n) v -> le_val (le_bytes n v) = v.
Proof. intros. rewrite le_val_le_bytes_wrap. by apply wrap_small. Qed.

Lemma le_val_fits bs : bytes_ok bs -> fits (8 * Z.of_nat (length bs)) (le_val bs).
Proof.
  induction 1 as [|b bs Hb Hbs IH]; [done|]. cbn [le_val length].
  apply lor_fits; [lia|eapply fits_mono, Hb; lia|].
  destruct IH as [IH0 IH1]. rewrite Z.shiftl_mul_pow2 by lia.
  unfold fits. replace (8 * Z.of_nat (S (length bs))) with (8 * Z.of_nat (length bs) + 8) by lia.
  rewrite Z.pow_add_r by lia. change (2 ^ 8) with 256. lia.
Qed.

Lemma le_bytes_le_val bs : bytes_ok bs -> le_bytes (length bs) (le_val bs) = bs.
Proof.
  induction 1 as [|b bs Hb Hbs IH]; [done|]. cbn [le_bytes le_val length].
  assert (H0 : wrap 8 (b .| Z.shiftl (le_val bs) 8) = b).
  { apply Z.bits_inj'. intros i Hi. rewrite wrap_testbit, Z.lor_spec, Z.shiftl_spec by lia.
    destruct (Z.ltb_spec i 8).
    - by rewrite (Z.testbit_neg_r _ (i - 8)), orb_false_r by lia.
    - by rewrite (fits_testbit_high 8 b) by (done || lia). }
  assert (H1 : Z.shiftr (b .| Z.shiftl (le_val bs) 8) 8 = le_val bs).
  { apply Z.bits_inj'. intros i Hi. rewrite Z.shiftr_spec, Z.lor_spec, Z.shiftl_spec by lia.
    rewrite (fits_testbit_high 8 b) by (done || lia). cbn [orb]. f_equal. lia. }
  by rewrite H0, H1, IH.
Qed.

Definition bytes_okb (bs : list Z) : bool := forallb (fitsb 8) bs.

Lemma bytes_okb_spec bs : bytes_okb bs = true -> bytes_ok bs.
Proof.
  induction bs as [|b bs IH]; cbn; [constructor|]. rewrite andb_true_iff, fitsb_spec. intros [? ?].
  constructor; [done|by apply IH].
Qed.

(** ** Slices

    [slice l o n] is [&l[o .. o + n]] for an in-range window. *)

Definition slice {A} (l : list A) (o n : nat) : list A := take n (drop o l).

Lemma slice_app_here {A} (l1 l2 l3 : list A) o n :
  o = length l1 -> n = length l2 -> slice (l1 ++ l2 ++ l3) o n = l2.
Proof. intros -> ->. unfold slice. by rewrite drop_app_length, take_app_length. Qed.

Lemma length_slice {A} (l : list A) o n : (o + n <= length l)%nat -> length (slice l o n) = n.
Proof. intros. unfold slice. rewrite length_take, length_drop. lia. Qed.

(** [update_slice l o v] overwrites the window starting at [o] with [v]:
    [l[o .. o + v.len()].copy_from_slice(v)] for an in-range window. *)
Definition update_slice {A} (l : list A) (o : nat) (v : list A) : list A :=
  take o l ++ v ++ drop (o + length v) l.

Lemma length_update_slice {A} (l v : list A) o :
  (o + length v <= length l)%nat -> length (update_slice l o v) = length l.
Proof. intros. unfold update_slice. rewrite !length_app, length_take, length_drop. lia. Qed.

Lemma slice_update_same {A} (l v : list A) o :
  (o + length v <= length l)%nat -> slice (update_slice l o v) o (length v) = v.
Proof. intros. apply slice_app_here; [rewrite length_take; lia|done]. Qed.

Lemma lookup_update_slice {A} (l v : list A) o i :
  (o + length v <= length l)%nat ->
  update_slice l o v !! i =
  if decide (o <= i < o + length v)%nat then v !! (i - o)%nat else l !! i.
Proof.
  intros H. unfold update_slice. case_decide as Hi.
  - rewrite lookup_app_r by (rewrite length_take; lia).
    rewrite length_take, Nat.min_l by lia. by rewrite lookup_app_l by lia.
  - destruct (decide (i < o)%nat).
    + by rewrite lookup_app_l, lookup_take_lt by (rewrite ?length_take; lia).
    + rewrite lookup_app_r by (rewrite length_take; lia).
      rewrite length_take, Nat.min_l, lookup_app_r, lookup_drop by lia. f_equal. lia.
Qed.

(** ** Rust slice indexing

    An index or a range out of bounds panics, and so does [copy_from_slice]
    between slices of different lengths. *)

Definition zlen {A} (l : list A) : Z := Z.of_nat (length l).

Definition index {E A} (l : list A) (i : Z) : outcome E A :=
  if 0 <=? i then match l !! Z.to_nat i with Some x => Ret x | None => Panic end else Panic.

Definition range_ok {A} (l : list A) (a b : Z) : bool :=
  (0 <=? a) && (a <=? b) && (b <=? zlen l).

Definition sub {E A} (l : list A) (a b : Z) : outcome E (list A) :=
  if range_ok l a b then Ret (slice l (Z.to_nat a) (Z.to_nat (b - a))) else Panic.

Definition sub_copy {E A} (l : list A) (a b : Z) (v : list A) : outcome E (list A) :=
  if range_ok l a b && (b - a =? zlen v) then Ret (update_slice l (Z.to_nat a) v) else Panic.

(** [usize::checked_add] on the 64-bit targets. *)
Definition checked_add (a b : Z) : option Z := if a + b <? 2 ^ 64 then Some (a + b) else None.

(** Unsigned [+] and [-] at width [w]: with overflow checks they panic, without
    them they wrap. *)
Definition uadd {E} (w : Z) (checks : bool) (a b : Z) : outcome E Z :=
  if a + b <? 2 ^ w then Ret (a + b) else if checks then Panic else Ret (wrap w (a + b)).
Definition usub {E} (w : Z) (checks : bool) (a b : Z) : outcome E Z :=
  if b <=? a then Ret (a - b) else if checks then Panic else Ret (wrap w (a - b)).

Lemma uadd_small {E} w checks a b : a + b < 2 ^ w -> uadd (E:=E) w checks a b = Ret (a + b).
Proof. intros H. unfold uadd. by rewrite (proj2 (Z.ltb_lt _ _) H). Qed.
Lemma usub_small {E} w checks a b : b <= a -> usub (E:=E) w checks a b = Ret (a - b).
Proof. intros H. unfold usub. by rewrite (proj2 (Z.leb_le _ _) H). Qed.

Lemma Forall2_strengthen {A B} (P : A -> Prop) (Q R : A -> B -> Prop) l k :
  Forall P l -> Forall2 Q l k -> (forall x y, P x -> Q x y -> R x y) -> Forall2 R l k.
Proof.
  intros HP HQ HR. revert HP. induction HQ as [|x y l k Hxy _ IH]; intros HP; [constructor|].
  inversion HP as [|? ? Hx HP2]; subst. constructor; [by apply HR|by apply IH].
Qed.

Lemma zlen_app {A} (l k : list A) : zlen (l ++ k) = zlen l + zlen k.
Proof. unfold zlen. rewrite length_app. lia. Qed.
Lemma zlen_nonneg {A} (l : list A) : 0 <= zlen l.
Proof. unfold zlen. lia. Qed.

Lemma index_lookup {E A} (l : list A) i x :
  l !! Z.to_nat i = Some x -> 0 <= i -> index (E:=E) l i = Ret x.
Proof. intros Hl Hi. unfold index. by rewrite (proj2 (Z.leb_le _ _) Hi), Hl. Qed.

Lemma index_in_range {E A} (l : list A) i :
  0 <= i < zlen l -> exists x, index (E:=E) l i = Ret x /\ l !! Z.to_nat i = Some x.
Proof.
  unfold zlen. intros Hi. destruct (lookup_lt_is_Some_2 l (Z.to_nat i)) as [x Hx]; [lia|].
  exists x. split; [apply index_lookup; [done|lia]|done].
Qed.

Lemma sub_in_range {E A} (l : list A) a b :
  0 <= a <= b -> b <= zlen l -> sub (E:=E) l a b = Ret (slice l (Z.to_nat a) (Z.to_nat (b - a))).
Proof.
  intros Hab Hb. unfold sub, range_ok.
  by rewrite !(proj2 (Z.leb_le _ _)) by lia.
Qed.

Lemma sub_app {E A} (l1 l2 l3 : list A) a b :
  a = zlen l1 -> b = a + zlen l2 -> sub (E:=E) (l1 ++ l2 ++ l3) a b = Ret l2.
Proof.
  intros -> ->. unfold zlen. rewrite sub_in_range; [|lia|unfold zlen; rewrite !length_app; lia].
  f_equal. apply slice_app_here; lia.
Qed.

Lemma update_slice_app {A} (l1 l2 v : list A) :
  update_slice (l1 ++ l2) (length l1) v = (l1 ++ v) ++ drop (length v) l2.
Proof.
  unfold update_slice. rewrite take_app_length.
  rewrite drop_app_ge by lia. rewrite <- app_assoc. do 3 f_equal. lia.
Qed.

Lemma sub_copy_app {E A} (l1 l2 v : list A) a b :
  a = zlen l1 -> b = a + zlen v -> zlen v <= zlen l2 ->
  sub_copy (E:=E) (l1 ++ l2) a b v = Ret ((l1 ++ v) ++ drop (length v) l2).
Proof.
  unfold zlen. intros -> -> Hv. unfold sub_copy, range_ok, zlen. rewrite length_app.
  rewrite !(proj2 (Z.leb_le _ _)) by lia. rewrite (proj2 (Z.eqb_eq _ _)) by lia. cbn [andb].
  by rewrite Nat2Z.id, update_slice_app.
Qed.

(** ** Reachability

    The reflexive transitive closure used by the state-machine components. *)

Section Reach.
Context {S : Type} (step : S -> S -> Prop).

Inductive reach : S -> S -> Prop :=
| reach_refl s : reach s s
| reach_step s1 s2 s3 : reach s1 s2 -> step s2 s3 -> reach s1 s3.

Lemma reach_inv (P : S -> Prop) s0 s :
  P s0 -> (forall s1 s2, P s1 -> step s1 s2 -> P s2) -> reach s0 s -> P s.
Proof. intros H0 Hs Hr. induction Hr; eauto. Qed.

End Reach.
#[export] Hint Constructors reach : dezh.

(** ** Tactics shared by the components *)

(** Split on every boolean test and option in the goal or a hypothesis. *)
Ltac case_bool :=
  match goal with
  | H : context [ if ?b then _ else _ ] |- _ =>
      let E := fresh "E" in destruct b eqn:E; try discriminate
  | |- context [ if ?b then _ else _ ] => let E := fresh "E" in destruct b eqn:E; try discriminate
  end.

Ltac bool_to_prop :=
  repeat match goal with
  | H : (_ && _) = true |- _ => apply andb_true_iff in H; destruct H
  | H : (_ || _) = false |- _ => apply orb_false_iff in H; destruct H
  | H : negb _ = true |- _ => apply negb_true_iff in H
  | H : negb _ = false |- _ => apply negb_false_iff in H
  | H : (_ <? _) = true |- _ => apply Z.ltb_lt in H
  | H : (_ <? _) = false |- _ => apply Z.ltb_ge in H
  | H : (_ <=? _) = true |- _ => apply Z.leb_le in H
  | H : (_ <=? _) = false |- _ => apply Z.leb_gt in H
  | H : (_ =? _) = true |- _ => apply Z.eqb_eq in H
  | H : (_ =? _) = false |- _ => apply Z.eqb_neq in H
  end.

