(* ===== verification/Text.v ===== *)
(** * Rust strings

    The part of [core::str] the sources use.  A [str] is the list of its
    Unicode scalar values; [utf8_encode] is [str::as_bytes] and [utf8_decode]
    is [core::str::from_utf8].  Splitting, trimming and prefix tests cut at
    character boundaries, so they are functions on scalar values. *)

From Stdlib Require Import ZArith Lia Ascii String.
From stdpp Require Import base option strings numbers list.
From S2P Require Import Prelude.

Definition str := list Z.

(** A string literal of the source (all of them are ASCII). *)
Fixpoint lit (s : string) : str :=
  match s with
  | EmptyString => []
  | String a s => Z.of_N (N_of_ascii a) :: lit s
  end.

Definition str_eqb (a b : str) : bool := bool_decide (a = b).

Lemma str_eqb_eq a b : str_eqb a b = true <-> a = b.
Proof. apply bool_decide_eq_true. Qed.

(** ** UTF-8 *)

(** A Unicode scalar value: not a surrogate, at most U+10FFFF. *)
Definition scalarb (c : Z) : bool :=
  (0 <=? c) && (c <? 0x110000) && negb ((0xD800 <=? c) && (c <? 0xE000)).
Definition valid_str (s : str) : Prop := Forall (fun c => scalarb c = true) s.

Definition utf8_char (c : Z) : list Z :=
  if c <? 0x80 then [c]
  else if c <? 0x800 then [0xC0 + c / 64; 0x80 + c mod 64]
  else if c <? 0x10000 then [0xE0 + c / 4096; 0x80 + (c / 64) mod 64; 0x80 + c mod 64]
  else [0xF0 + c / 262144; 0x80 + (c / 4096) mod 64; 0x80 + (c / 64) mod 64; 0x80 + c mod 64].

Definition utf8_encode (s : str) : list Z := flat_map utf8_char s.

Definition contb (b : Z) : bool := (0x80 <=? b) && (b <? 0xC0).

(** One step of the decoder: the scalar value at the front and the rest.
    Overlong forms, surrogates and values past U+10FFFF are refused. *)
Definition utf8_next (bs : list Z) : option (Z * list Z) :=
  match bs with
  | [] => None
  | b0 :: r0 =>
    if b0 <? 0x80 then Some (b0, r0)
    else if (0xC2 <=? b0) && (b0 <? 0xE0) then
      match r0 with
      | b1 :: r1 => if contb b1 then Some ((b0 - 0xC0) * 64 + (b1 - 0x80), r1) else None
      | [] => None
      end
    else if (0xE0 <=? b0) && (b0 <? 0xF0) then
      match r0 with
      | b1 :: b2 :: r2 =>
        let c := (b0 - 0xE0) * 4096 + (b1 - 0x80) * 64 + (b2 - 0x80) in
        if contb b1 && contb b2 && (0x800 <=? c) && scalarb c then Some (c, r2) else None
      | _ => None
      end
    else if (0xF0 <=? b0) && (b0 <? 0xF5) then
      match r0 with
      | b1 :: b2 :: b3 :: r3 =>
        let c := (b0 - 0xF0) * 262144 + (b1 - 0x80) * 4096 + (b2 - 0x80) * 64 + (b3 - 0x80) in
        if contb b1 && contb b2 && contb b3 && (0x10000 <=? c) && scalarb c
        then Some (c, r3) else None
      | _ => None
      end
    else None
  end.

Fixpoint utf8_decode_fuel (n : nat) (bs : list Z) : option str :=
  match bs with
  | [] => Some []
  | _ :: _ =>
    match n with
    | O => None
    | S n => '(c, rest) ← utf8_next bs; s ← utf8_decode_fuel n rest; Some (c :: s)
    end
  end.

Definition utf8_decode (bs : list Z) : option str := utf8_decode_fuel (length bs) bs.

(** ** Searching and cutting *)

(** [char::is_whitespace]: the Unicode property White_Space. *)
Definition is_whitespace (c : Z) : bool :=
  ((9 <=? c) && (c <=? 13)) || (c =? 32) || (c =? 0x85) || (c =? 0xA0) || (c =? 0x1680)
  || ((0x2000 <=? c) && (c <=? 0x200A)) || (c =? 0x2028) || (c =? 0x2029)
  || (c =? 0x202F) || (c =? 0x205F) || (c =? 0x3000).

Fixpoint trim_start (s : str) : str :=
  match s with
  | [] => []
  | c :: r => if is_whitespace c then trim_start r else s
  end.

Definition trim (s : str) : str := reverse (trim_start (reverse (trim_start s))).

Definition starts_with (c : Z) (s : str) : bool :=
  match s with d :: _ => d =? c | [] => false end.

Definition ends_with (c : Z) (s : str) : bool := starts_with c (reverse s).

Definition strip_char_prefix (c : Z) (s : str) : option str :=
  match s with d :: r => if d =? c then Some r else None | [] => None end.

Definition strip_char_suffix (c : Z) (s : str) : option str :=
  reverse <$> strip_char_prefix c (reverse s).

Fixpoint strip_prefix (p s : str) : option str :=
  match p, s with
  | [], _ => Some s
  | a :: p, b :: s => if a =? b then strip_prefix p s else None
  | _ :: _, [] => None
  end.

(** [s.split_once(c)]: before and after the first [c]. *)
Fixpoint split_once (c : Z) (s : str) : option (str * str) :=
  match s with
  | [] => None
  | d :: r => if d =? c then Some ([], r)
              else '(a, b) ← split_once c r; Some (d :: a, b)
  end.

(** [s.split(c)] *)
Fixpoint split (c : Z) (s : str) : list str :=
  match s with
  | [] => [[]]
  | d :: r => if d =? c then [] :: split c r
              else match split c r with
                   | h :: t => (d :: h) :: t
                   | [] => [[d]]
                   end
  end.

(** [parts.join(c)] *)
Fixpoint join (c : Z) (parts : list str) : str :=
  match parts with
  | [] => []
  | [p] => p
  | p :: ps => p ++ c :: join c ps
  end.

(** [s.lines()]: lines end in LF or CR LF; a final line without LF keeps a
    trailing CR; an empty last piece is no line. *)
Definition strip_cr (s : str) : str := default s (strip_char_suffix 13 s).

Fixpoint lines_of (pieces : list str) : list str :=
  match pieces with
  | [] => []
  | [last] => match last with [] => [] | _ => [last] end
  | p :: ps => strip_cr p :: lines_of ps
  end.

Definition lines (s : str) : list str := lines_of (split 10 s).

(** ** Lemmas *)

Lemma scalarb_bounds c : scalarb c = true ->
  0 <= c < 0x110000 /\ (c < 0xD800 \/ 0xE000 <= c).
Proof. unfold scalarb. intros. bool_to_prop. lia. Qed.

Lemma contb_true b : 0x80 <= b < 0xC0 -> contb b = true.
Proof. intros. unfold contb. apply andb_true_iff. rewrite Z.leb_le, Z.ltb_lt. lia. Qed.

Lemma Zltb_true x y : x < y -> (x <? y) = true.
Proof. apply Z.ltb_lt. Qed.
Lemma Zltb_false x y : y <= x -> (x <? y) = false.
Proof. apply Z.ltb_ge. Qed.
Lemma Zleb_true x y : x <= y -> (x <=? y) = true.
Proof. apply Z.leb_le. Qed.
Lemma Zleb_false x y : y < x -> (x <=? y) = false.
Proof. apply Z.leb_gt. Qed.

Create Rewrite HintDb zcmp.
#[export] Hint Rewrite Zltb_true Zltb_false Zleb_true Zleb_false contb_true using lia : zcmp.
Ltac zcmp := repeat (progress autorewrite with zcmp; cbn [andb orb negb]).

Lemma utf8_next_char c rest :
  scalarb c = true -> utf8_next (utf8_char c ++ rest) = Some (c, rest).
Proof.
  intros Hs. pose proof (scalarb_bounds c Hs) as [Hb Hsur].
  assert (E6 : c = 64 * (c / 64) + c mod 64) by (apply Z.div_mod; lia).
  pose proof (Z.mod_pos_bound c 64 ltac:(lia)).
  assert (E12 : c / 64 = 64 * (c / 4096) + (c / 64) mod 64).
  { replace 4096 with (64 * 64) by lia. rewrite <- Z.div_div by lia. apply Z.div_mod; lia. }
  pose proof (Z.mod_pos_bound (c / 64) 64 ltac:(lia)).
  assert (E18 : c / 4096 = 64 * (c / 262144) + (c / 4096) mod 64).
  { replace 262144 with (4096 * 64) by lia. rewrite <- Z.div_div by lia. apply Z.div_mod; lia. }
  pose proof (Z.mod_pos_bound (c / 4096) 64 ltac:(lia)).
  unfold utf8_char.
  destruct (Z.ltb_spec c 0x80); [|destruct (Z.ltb_spec c 0x800); [|destruct (Z.ltb_spec c 0x10000)]];
    cbn [app utf8_next]; zcmp; try done.
  - f_equal. f_equal. lia.
  - match goal with |- context [scalarb ?x] => replace x with c by lia end.
    rewrite Hs. zcmp. done.
  - match goal with |- context [scalarb ?x] => replace x with c by lia end.
    rewrite Hs. zcmp. done.
Qed.

Lemma utf8_char_nonempty c : (0 < length (utf8_char c))%nat.
Proof. unfold utf8_char. repeat case_match; simpl; lia. Qed.

Lemma utf8_decode_fuel_encode s n :
  valid_str s -> (length (utf8_encode s) <= n)%nat ->
  utf8_decode_fuel n (utf8_encode s) = Some s.
Proof.
  intros Hs. revert n. induction Hs as [|c s Hc Hs IH]; intros n Hn; [by destruct n|].
  unfold utf8_encode in *. cbn [flat_map] in *. rewrite length_app in Hn.
  pose proof (utf8_char_nonempty c).
  destruct n as [|n]; [lia|].
  destruct (utf8_char c ++ flat_map utf8_char s) eqn:E.
  { apply (f_equal length) in E. rewrite length_app in E. simpl in E. lia. }
  cbn [utf8_decode_fuel]. rewrite <- E, utf8_next_char by done. cbn.
  rewrite IH by lia. done.
Qed.

(** Decoding what was encoded gives the string back. *)
Lemma utf8_decode_encode s : valid_str s -> utf8_decode (utf8_encode s) = Some s.
Proof. intros. by apply utf8_decode_fuel_encode. Qed.

Lemma utf8_encode_bytes s : valid_str s -> bytes_ok (utf8_encode s).
Proof.
  induction 1 as [|c s Hc Hs IH]; [constructor|].
  unfold utf8_encode. cbn [flat_map]. apply Forall_app. split; [|exact IH].
  apply scalarb_bounds in Hc as [Hc _]. unfold utf8_char, fits.
  assert (0 <= c mod 64 < 64) by (apply Z.mod_pos_bound; lia).
  assert (0 <= (c / 64) mod 64 < 64) by (apply Z.mod_pos_bound; lia).
  assert (0 <= (c / 4096) mod 64 < 64) by (apply Z.mod_pos_bound; lia).
  repeat case_match; bool_to_prop; repeat constructor; try lia;
    try (apply Z.add_nonneg_nonneg; [lia|apply Z.div_pos; lia]).
  - assert (c / 64 < 32) by (apply Z.div_lt_upper_bound; lia). lia.
  - assert (c / 4096 < 16) by (apply Z.div_lt_upper_bound; lia). lia.
  - assert (c / 262144 < 5) by (apply Z.div_lt_upper_bound; lia). lia.
Qed.

Lemma strip_prefix_spec p s r : strip_prefix p s = Some r <-> s = p ++ r.
Proof.
  revert s. induction p as [|a p IH]; intros s; simpl.
  - split; intros; simplify_eq; done.
  - destruct s as [|b s]; [done|]. destruct (Z.eqb_spec a b) as [->|Hne].
    + rewrite IH. split; [intros ->; done|intros; simplify_eq; done].
    + split; [done|intros; simplify_eq].
Qed.

Lemma split_once_spec c s a b : split_once c s = Some (a, b) -> s = a ++ c :: b /\ c ∉ a.
Proof.
  revert a b. induction s as [|d s IH]; intros a b; simpl; [done|].
  destruct (Z.eqb_spec d c) as [->|Hne].
  - intros; simplify_eq. split; [done|apply not_elem_of_nil].
  - destruct (split_once c s) as [[a' b']|]; simpl; intros; simplify_eq.
    destruct (IH a' b eq_refl) as [-> ?]. split; [done|]. by apply not_elem_of_cons.
Qed.

Lemma split_once_app c a b : c ∉ a -> split_once c (a ++ c :: b) = Some (a, b).
Proof.
  induction a as [|d a IH]; simpl; intros Hn.
  - by rewrite Z.eqb_refl.
  - apply not_elem_of_cons in Hn as [H1 H2].
    destruct (Z.eqb_spec d c); [congruence|]. by rewrite IH.
Qed.
