(* ===== verification/Net.v ===== *)
(** * The internet checksum (dezh-core/src/net.rs)

    The sum of the big-endian 16-bit words of a buffer read through an
    accessor, its carries folded and complemented.  The sum is a [u32] that
    overflows on very long buffers; the theorems give the bound below which it
    does not, what the folded value is, what a receiver's test accepts and what
    it always detects. *)

From Stdlib Require Import ZArith Lia.
From stdpp Require Import base option numbers list.
From S2P Require Import Prelude.

(** A loop that has run out of the fuel it was given. *)
Inductive stuck := OutOfFuel.

(** The two-bytes-at-a-time loop; it returns the final index and sum. *)
Fixpoint sum_words (fuel : nat) (checks : bool) (len : Z) (byte : Z -> outcome stuck Z) (i sum : Z)
  : outcome stuck (Z * Z) :=
  if i + 1 <? len then
    match fuel with
    | O => Trap OutOfFuel
    | S fuel =>
      hi ← byte i;
      lo ← byte (i + 1);
      sum ← uadd 32 checks sum (Z.shiftl hi 8 .| lo);
      sum_words fuel checks len byte (i + 2) sum
    end
  else Ret (i, sum).

(** [while sum >> 16 != 0] *)
Fixpoint fold_carries (fuel : nat) (checks : bool) (sum : Z) : outcome stuck Z :=
  if Z.shiftr sum 16 =? 0 then Ret sum else
  match fuel with
  | O => Trap OutOfFuel
  | S fuel => sum ← uadd 32 checks (sum & 0xffff) (Z.shiftr sum 16); fold_carries fuel checks sum
  end.

(** Two rounds always fold a [u32]. *)
Definition FOLD_FUEL : nat := 2.

Definition internet_checksum (checks : bool) (len : Z) (byte : Z -> outcome stuck Z) : outcome stuck Z :=
  '(i, sum) ← sum_words (Z.to_nat len) checks len byte 0 0;
  sum ← (if i <? len then b ← byte i; uadd 32 checks sum (Z.shiftl b 8) else Ret sum);
  sum ← fold_carries FOLD_FUEL checks sum;
  Ret (unot 16 (wrap 16 sum)).

Definition internet_checksum_bytes (checks : bool) (bytes : list Z) : outcome stuck Z :=
  internet_checksum checks (zlen bytes) (fun i => index bytes i).

(** ** Reference: the sum over the integers and its residue *)

Fixpoint word_sum (bs : list Z) : Z :=
  match bs with
  | a :: b :: r => 256 * a + b + word_sum r
  | [a] => 256 * a
  | [] => 0
  end.

(** The end-around-carry residue: congruent to [s] modulo 65535, zero only for
    zero. *)
Definition residue (s : Z) : Z := if s =? 0 then 0 else (s - 1) mod 65535 + 1.

Definition MAX_CHECKSUM_LEN : Z := 131074.

(** ** The words *)

Lemma word_lor a b : fits 8 a -> fits 8 b -> Z.shiftl a 8 .| b = 256 * a + b.
Proof.
  intros Ha Hb. pose proof (Z.add_lor_land (Z.shiftl a 8) b) as E. rewrite Z.shiftl_mul_pow2 in * by lia.
  replace (a * 2 ^ 8 & b) with 0 in E; [lia|]. symmetry. apply Z.bits_inj'. intros i Hi.
  rewrite Z.land_spec, Z.testbit_0_l. destruct (Z.ltb_spec i 8).
  - by rewrite Z.mul_pow2_bits_low.
  - by rewrite (fits_testbit_high 8 b), andb_false_r by (done || lia).
Qed.

Lemma pair_ind {A} (P : list A -> Prop) :
  P [] -> (forall a, P [a]) -> (forall a b r, P r -> P (a :: b :: r)) -> forall l, P l.
Proof.
  intros H0 H1 H2. fix IH 1. intros [|a [|b r]]; [done|apply H1|apply H2, IH].
Qed.

Lemma word_sum_bound bs : bytes_ok bs -> 0 <= word_sum bs <= 65535 * ((zlen bs + 1) / 2).
Proof.
  induction bs as [|a|a b r IH] using pair_ind; intros Hb.
  - by vm_compute.
  - apply Forall_cons in Hb as [[Ha0 Ha1] _]. change ((zlen [a] + 1) / 2) with 1. change (2 ^ 8) with 256 in Ha1.
    cbn [word_sum]. lia.
  - apply Forall_cons in Hb as [[Ha0 Ha1] Hb]. apply Forall_cons in Hb as [[Hb0 Hb1] Hr].
    specialize (IH Hr). change (2 ^ 8) with 256 in *. cbn [word_sum].
    replace (zlen (a :: b :: r) + 1) with (zlen r + 1 + 1 * 2) by (unfold zlen; cbn [length]; lia).
    rewrite Z.div_add by lia. lia.
Qed.

Lemma word_sum_fits bs : bytes_ok bs -> zlen bs <= MAX_CHECKSUM_LEN -> fits 32 (word_sum bs).
Proof.
  intros Hb Hl. pose proof (word_sum_bound bs Hb). unfold MAX_CHECKSUM_LEN in Hl. unfold fits.
  assert ((zlen bs + 1) / 2 < 65538) by (apply Z.div_lt_upper_bound; lia). lia.
Qed.

(** Words split at an even offset. *)
Lemma word_sum_app l r : Nat.even (length l) = true -> word_sum (l ++ r) = word_sum l + word_sum r.
Proof.
  induction l as [|a|a b l IH] using pair_ind; intros He; cbn in *; [done|done|].
  rewrite IH by done. lia.
Qed.

(** ** The loops *)

Lemma index_prefix {E A} (p r : list A) x i : i = zlen p -> index (E:=E) (p ++ x :: r) i = Ret x.
Proof.
  intros ->. apply index_lookup; [|apply zlen_nonneg]. unfold zlen. rewrite Nat2Z.id.
  by rewrite lookup_app_r, Nat.sub_diag by lia.
Qed.

(** The loop on a suffix, with the tail step. *)
Lemma sum_words_run checks fuel p bs sum :
  bytes_ok bs -> 0 <= sum -> sum + word_sum bs < 2 ^ 32 -> (length bs <= fuel)%nat ->
  ('(i, sum) ← sum_words fuel checks (zlen (p ++ bs)) (fun i => index (p ++ bs) i) (zlen p) sum;
   if i <? zlen (p ++ bs) then b ← index (p ++ bs) i; uadd 32 checks sum (Z.shiftl b 8) else Ret sum)
  = Ret (sum + word_sum bs).
Proof.
  revert fuel p sum. induction bs as [|a|a b r IH] using pair_ind; intros fuel p sum Hb H0 Hs Hf.
  - destruct fuel; cbn [sum_words]; rewrite app_nil_r, (proj2 (Z.ltb_ge _ _)) by lia; cbn;
      rewrite Z.ltb_irrefl; f_equal; cbn; lia.
  - assert (Hlt : (zlen p + 1 <? zlen (p ++ [a])) = false) by (apply Z.ltb_ge; rewrite zlen_app; unfold zlen; cbn [length]; lia).
    assert (Hlt2 : (zlen p <? zlen (p ++ [a])) = true) by (apply Z.ltb_lt; rewrite zlen_app; unfold zlen; cbn [length]; lia).
    destruct fuel; cbn [sum_words]; rewrite Hlt; cbn; rewrite Hlt2, index_prefix by done; cbn;
      rewrite Z.shiftl_mul_pow2 by lia; rewrite uadd_small; cbn in *; f_equal; lia.
  - apply Forall_cons in Hb as [Ha Hb]. apply Forall_cons in Hb as [Hb Hr]. cbn [word_sum] in *.
    pose proof (word_sum_bound r Hr) as [Hw0 _]. destruct fuel as [|fuel]; [cbn in Hf; lia|]. cbn [sum_words].
    rewrite (proj2 (Z.ltb_lt _ _)) by (rewrite zlen_app; unfold zlen; cbn [length]; lia).
    cbn beta. rewrite (index_prefix p (b :: r) a (zlen p)) by done. cbn [mbind outcome_bind].
    rewrite cons_middle, app_assoc, (index_prefix (p ++ [a]) r b) by (rewrite zlen_app; unfold zlen; cbn [length]; lia). cbn [mbind outcome_bind].
    rewrite word_lor by done. destruct Ha, Hb. rewrite uadd_small by lia. cbn [mbind outcome_bind].
    replace (zlen p + 2) with (zlen ((p ++ [a]) ++ [b])) by (rewrite !zlen_app; unfold zlen; cbn [length]; lia).
    rewrite cons_middle, app_assoc, IH; [f_equal; lia|done|lia|lia|cbn in Hf; lia].
Qed.

Lemma residue_small s : 0 <= s <= 65535 -> residue s = s.
Proof. intros Hs. unfold residue. destruct (Z.eqb_spec s 0); [lia|]. rewrite Z.mod_small; lia. Qed.

Lemma residue_range s : 0 <= s -> 0 <= residue s <= 65535 /\ (residue s = 0 <-> s = 0).
Proof.
  intros Hs. unfold residue. destruct (Z.eqb_spec s 0); [lia|].
  pose proof (Z.mod_pos_bound (s - 1) 65535). lia.
Qed.

(** One folding round keeps the residue. *)
Lemma residue_fold s : 0 <= s -> residue ((s & 0xffff) + Z.shiftr s 16) = residue s.
Proof.
  intros Hs. change 0xffff with (Z.ones 16). rewrite Z.land_ones, Z.shiftr_div_pow2 by lia.
  pose proof (Z.div_mod s (2 ^ 16)) as E. set (q := s / 2 ^ 16) in *. set (r := s mod 2 ^ 16) in *.
  assert (0 <= r < 2 ^ 16) by (apply Z.mod_pos_bound; lia). assert (0 <= q) by (apply Z.div_pos; lia).
  change (2 ^ 16) with 65536 in *. unfold residue.
  destruct (Z.eqb_spec s 0), (Z.eqb_spec (r + q) 0); [done|lia|lia|]. f_equal.
  replace (s - 1) with (r + q - 1 + q * 65535) by lia. by rewrite Z.mod_add.
Qed.

Lemma fold_carries_residue checks s : fits 32 s -> fold_carries FOLD_FUEL checks s = Ret (residue s).
Proof.
  intros [Hs0 Hs1].
  assert (step : forall k t, 0 <= t < 2 ^ 32 -> 65536 <= t ->
    fold_carries (S k) checks t = fold_carries k checks (t mod 65536 + t / 65536)).
  { intros k t Ht Hge. cbn [fold_carries]. change 0xffff with (Z.ones 16).
    rewrite Z.land_ones, Z.shiftr_div_pow2 by lia. change (2 ^ 16) with 65536.
    pose proof (Z.mod_pos_bound t 65536). assert (t / 65536 < 65536) by (apply Z.div_lt_upper_bound; lia).
    assert (1 <= t / 65536) by (apply Z.div_le_lower_bound; lia).
    rewrite (proj2 (Z.eqb_neq _ _)), uadd_small by lia. done. }
  assert (stop : forall k t, 0 <= t < 65536 -> fold_carries k checks t = Ret t).
  { intros k t Ht. destruct k; cbn [fold_carries]; rewrite Z.shiftr_div_pow2, Z.div_small by lia; done. }
  assert (keep : forall t, 0 <= t -> residue (t mod 65536 + t / 65536) = residue t).
  { intros t Ht. rewrite <- (residue_fold t) by done. change 0xffff with (Z.ones 16).
    by rewrite Z.land_ones, Z.shiftr_div_pow2 by lia. }
  unfold FOLD_FUEL. destruct (Z.lt_ge_cases s 65536); [rewrite stop, residue_small by lia; done|].
  rewrite step by lia. rewrite <- (keep s) by lia.
  pose proof (Z.mod_pos_bound s 65536). assert (s / 65536 < 65536) by (apply Z.div_lt_upper_bound; lia).
  assert (0 <= s / 65536) by (apply Z.div_pos; lia). set (t := s mod 65536 + s / 65536) in *.
  destruct (Z.lt_ge_cases t 65536); [rewrite stop, residue_small by lia; done|].
  rewrite step by lia. rewrite <- (keep t) by lia.
  assert (t / 65536 = 1) as -> by (symmetry; apply Z.div_unique with (t - 65536); lia).
  rewrite Z.mod_eq by lia. assert (t / 65536 = 1) as -> by (symmetry; apply Z.div_unique with (t - 65536); lia).
  by rewrite stop, residue_small by lia.
Qed.

Lemma unot16 s : 0 <= s <= 65535 -> unot 16 (wrap 16 s) = 65535 - s.
Proof.
  intros Hs. assert (Hf : fits 16 s) by (unfold fits; lia). rewrite wrap_small by done. unfold unot.
  change 65535 with (Z.ones 16). rewrite Z.sub_nocarry_ldiff.
  - apply Z.bits_inj'. intros i Hi. rewrite Z.lxor_spec, Z.ldiff_spec, Z.testbit_ones_nonneg by lia.
    destruct (Z.ltb_spec i 16); [by rewrite xorb_true_l|].
    by rewrite (fits_testbit_high 16 s) by (done || lia).
  - apply Z.bits_inj'. intros i Hi. rewrite Z.ldiff_spec, Z.testbit_ones_nonneg, Z.testbit_0_l by lia.
    destruct (Z.ltb_spec i 16); [apply andb_false_r|].
    by rewrite (fits_testbit_high 16 s) by (done || lia).
Qed.

Lemma checksum_value checks bs :
  bytes_ok bs -> zlen bs <= MAX_CHECKSUM_LEN ->
  internet_checksum_bytes checks bs = Ret (65535 - residue (word_sum bs)).
Proof.
  intros Hb Hl. pose proof (word_sum_fits bs Hb Hl) as Hf. pose proof Hf as [Hf0 Hf1].
  unfold internet_checksum_bytes, internet_checksum.
  pose proof (sum_words_run checks (Z.to_nat (zlen bs)) [] bs 0 Hb) as H. cbn [app] in H.
  change (zlen []) with 0 in H.
  specialize (H ltac:(lia) ltac:(lia) ltac:(unfold zlen; lia)).
  destruct (sum_words _ _ _ _ _ _) as [[i sum]| |]; cbn [mbind outcome_bind] in *; [|done..].
  rewrite H. cbn [mbind outcome_bind]. rewrite Z.add_0_l, fold_carries_residue by done. cbn [mbind outcome_bind].
  destruct (residue_range (word_sum bs) Hf0). by rewrite unot16.
Qed.

(** The receiver's test passes exactly on the buffers whose words sum to a
    nonzero multiple of 65535. *)
Lemma checksum_zero_iff checks bs :
  bytes_ok bs -> zlen bs <= MAX_CHECKSUM_LEN ->
  internet_checksum_bytes checks bs = Ret 0 <-> word_sum bs <> 0 /\ word_sum bs mod 65535 = 0.
Proof.
  intros Hb Hl. rewrite checksum_value by done. destruct (word_sum_bound bs Hb) as [H0 _].
  set (s := word_sum bs) in *. split.
  - intros [= H]. unfold residue in H. destruct (Z.eqb_spec s 0); [lia|]. split; [done|].
    assert (E : (s - 1) mod 65535 = 65534) by lia.
    replace s with (s - 1 + 1) by lia. by rewrite <- Z.add_mod_idemp_l, E by lia.
  - intros [Hne Hm]. f_equal. unfold residue. destruct (Z.eqb_spec s 0); [lia|].
    replace (s - 1) with (65534 + (s / 65535 - 1) * 65535)
      by (pose proof (Z.div_mod s 65535); lia).
    rewrite Z.mod_add by lia. done.
Qed.

(** ** The field a checksum is written into *)

Lemma word_sum_field l a b r :
  Nat.even (length l) = true -> word_sum (l ++ a :: b :: r) = word_sum l + (256 * a + b) + word_sum r.
Proof. intros. rewrite word_sum_app by done. cbn [word_sum]. lia. Qed.

(** Putting the Internet checksum of a packet with a zero field into that field makes the checksum of
    the whole packet zero, in debug and release builds, for packets up to 131074 bytes. *)
Theorem checksum_in_its_field_sums_to_zero checks l r c :
  bytes_ok l -> bytes_ok r -> Nat.even (length l) = true -> zlen l + 2 + zlen r <= MAX_CHECKSUM_LEN ->
  internet_checksum_bytes checks (l ++ 0 :: 0 :: r) = Ret c ->
  internet_checksum_bytes checks (l ++ Z.shiftr c 8 :: wrap 8 c :: r) = Ret 0.
Proof.
  intros Hl Hr He Hlen Hc.
  assert (zlen_field : forall a b, zlen (l ++ a :: b :: r) = zlen l + 2 + zlen r)
    by (intros; rewrite zlen_app; unfold zlen; cbn [length]; lia).
  assert (ok_field : forall a b, fits 8 a -> fits 8 b -> bytes_ok (l ++ a :: b :: r))
    by (intros; apply Forall_app; split; [done|]; apply Forall_cons; split; [done|]; by apply Forall_cons).
  rewrite checksum_value in Hc; [|apply ok_field; by vm_compute|by rewrite zlen_field].
  rewrite word_sum_field in Hc by done. injection Hc as Hc.
  destruct (word_sum_bound l Hl) as [Hl0 _], (word_sum_bound r Hr) as [Hr0 _].
  set (s := word_sum l + (256 * 0 + 0) + word_sum r) in *. destruct (residue_range s) as [Hres Hz]; [lia|].
  assert (Hhi : fits 8 (Z.shiftr c 8)).
  { rewrite Z.shiftr_div_pow2 by lia. split; [apply Z.div_pos; lia|apply Z.div_lt_upper_bound; lia]. }
  rewrite checksum_zero_iff; [|apply ok_field; [done|apply wrap_fits; lia]|by rewrite zlen_field].
  rewrite word_sum_field by done.
  assert (Ec : 256 * Z.shiftr c 8 + wrap 8 c = c).
  { rewrite Z.shiftr_div_pow2 by lia. unfold wrap. pose proof (Z.div_mod c (2 ^ 8)). lia. }
  rewrite Ec. replace (word_sum l + c + word_sum r) with (s + c) by lia. split; [lia|].
  unfold residue in *. destruct (Z.eqb_spec s 0) as [E|E]; [by rewrite E, <- Hc|].
  replace (s + c) with (((s - 1) / 65535 + 1) * 65535) by (pose proof (Z.div_mod (s - 1) 65535); lia).
  apply Z.mod_mul. lia.
Qed.

Lemma checksum_in_its_field_witness :
  internet_checksum_bytes true ([0x45; 0; 0; 0x73] ++ Z.shiftr 0xba8c 8 :: wrap 8 0xba8c :: [0]) = Ret 0.
Proof.
  apply (checksum_in_its_field_sums_to_zero true [0x45; 0; 0; 0x73] [0] 0xba8c);
    [by apply bytes_okb_spec|by apply bytes_okb_spec|done|by vm_compute|by vm_compute].
Defined.

(** The checksum detects every change of a single byte. *)
Theorem checksum_detects_a_changed_byte checks bs i x y :
  bytes_ok bs -> zlen bs <= MAX_CHECKSUM_LEN -> bs !! i = Some x -> fits 8 y -> y <> x ->
  internet_checksum_bytes checks bs = Ret 0 ->
  exists c, internet_checksum_bytes checks (<[i := y]> bs) = Ret c /\ c <> 0.
Proof.
  intros Hb Hl Hi Hy Hne Hz. assert (Hb2 : bytes_ok (<[i := y]> bs)) by by apply Forall_insert.
  assert (Hl2 : zlen (<[i := y]> bs) <= MAX_CHECKSUM_LEN) by (unfold zlen in *; by rewrite length_insert).
  exists (65535 - residue (word_sum (<[i := y]> bs))). split; [by apply checksum_value|]. intros Hc.
  assert (Hz2 : internet_checksum_bytes checks (<[i := y]> bs) = Ret 0) by (rewrite checksum_value by done; by f_equal).
  apply checksum_zero_iff in Hz as [_ Hz], Hz2 as [_ Hz2]; [|done..].
  assert (Hx : fits 8 x) by (eapply Forall_lookup_1; [exact Hb|exact Hi]).
  assert (Hd : exists w, (w = 1 \/ w = 256) /\ word_sum (<[i := y]> bs) = word_sum bs + w * (y - x)).
  { clear -Hi. revert i Hi. induction bs as [|a|a b r IH] using pair_ind; intros [|[|i]] Hi; try done;
      cbn in Hi.
    - injection Hi as ->. exists 256. cbn. lia.
    - injection Hi as ->. exists 256. cbn. lia.
    - injection Hi as ->. exists 1. cbn. lia.
    - destruct (IH i Hi) as (w & Hw & E). exists w. split; [done|].
      change (<[S (S i) := y]> (a :: b :: r)) with (a :: b :: <[i := y]> r). cbn [word_sum]. rewrite E. lia. }
  destruct Hd as (w & Hw & E). rewrite E in Hz2.
  apply Z.mod_divide in Hz as [k Hk], Hz2 as [k2 Hk2]; [|lia..].
  destruct Hx as [Hx0 Hx1], Hy as [Hy0 Hy1]. change (2 ^ 8) with 256 in *.
  assert (k2 = k \/ k2 < k \/ k < k2) as [->|[?|?]] by lia; destruct Hw as [-> | ->]; nia.
Qed.

Lemma checksum_detects_a_changed_byte_witness :
  exists c, internet_checksum_bytes true (<[1%nat := 0x46]> [0x45; 0; 0xba; 0xff]) = Ret c /\ c <> 0.
Proof.
  apply (checksum_detects_a_changed_byte true [0x45; 0; 0xba; 0xff] 1 0 0x46);
    [by apply bytes_okb_spec|by vm_compute|done|by vm_compute|done|by vm_compute].
Defined.
