(* ===== verification/Runq.v ===== *)
(** * The bounded run queue (dezh-core/src/runq.rs)

    A ring of [N] slots addressed by two counters that only grow.  The
    abstraction is the list of waiting handles; [push] and [pop] refine the
    bounded FIFO on that list for as long as the counters have not reached the
    end of [usize]. *)

From Stdlib Require Import ZArith Lia.
From stdpp Require Import base option numbers list.
From S2P Require Import Prelude.

Record RunQueue := mkRunQueue { q_buf : list Z; q_head : Z; q_tail : Z }.

Section Ring.
Context (N : Z) (checks : bool).

Definition rq_new : RunQueue := mkRunQueue (replicate (Z.to_nat N) 0) 0 0.

Definition rq_len (q : RunQueue) : outcome Empty_set Z := usub 64 checks (q_tail q) (q_head q).
Definition rq_is_empty (q : RunQueue) : bool := q_head q =? q_tail q.
Definition rq_is_full (q : RunQueue) : outcome Empty_set bool := n ← rq_len q; Ret (N <=? n).

(** [i % N] panics on a ring without slots. *)
Definition rq_slot (i : Z) : outcome Empty_set Z := if N =? 0 then Panic else Ret (i mod N).

Definition rq_push (value : Z) (q : RunQueue) : outcome Empty_set (bool * RunQueue) :=
  full ← rq_is_full q;
  if full : bool then Ret (false, q) else
  slot ← rq_slot (q_tail q);
  if zlen (q_buf q) <=? slot then Panic else
  tail ← uadd 64 checks (q_tail q) 1;
  Ret (true, mkRunQueue (<[Z.to_nat slot := value]> (q_buf q)) (q_head q) tail).

Definition rq_pop (q : RunQueue) : outcome Empty_set (option Z * RunQueue) :=
  if rq_is_empty q then Ret (None, q) else
  slot ← rq_slot (q_head q);
  value ← index (q_buf q) slot;
  head ← uadd 64 checks (q_head q) 1;
  Ret (Some value, mkRunQueue (q_buf q) head (q_tail q)).

(** ** The bounded FIFO it stands for *)

Inductive RqOp := RqPush (v : Z) | RqPop.
Inductive RqAns := Pushed (ok : bool) | Popped (v : option Z).

Definition rq_step (q : RunQueue) (o : RqOp) : outcome Empty_set (RqAns * RunQueue) :=
  match o with
  | RqPush v => '(b, q) ← rq_push v q; Ret (Pushed b, q)
  | RqPop => '(v, q) ← rq_pop q; Ret (Popped v, q)
  end.

Fixpoint rq_run (q : RunQueue) (os : list RqOp) : outcome Empty_set (list RqAns * RunQueue) :=
  match os with
  | [] => Ret ([], q)
  | o :: os => '(a, q) ← rq_step q o; '(rest, q) ← rq_run q os; Ret (a :: rest, q)
  end.

Definition fifo_step (l : list Z) (o : RqOp) : RqAns * list Z :=
  match o, l with
  | RqPush v, _ => if zlen l <? N then (Pushed true, l ++ [v]) else (Pushed false, l)
  | RqPop, [] => (Popped None, [])
  | RqPop, x :: l => (Popped (Some x), l)
  end.

Fixpoint fifo_run (l : list Z) (os : list RqOp) : list RqAns * list Z :=
  match os with
  | [] => ([], l)
  | o :: os => let '(a, l) := fifo_step l o in let '(rest, l) := fifo_run l os in (a :: rest, l)
  end.

(** The waiting handles, oldest first. *)
Definition waiting (q : RunQueue) : list Z :=
  (fun k => q_buf q !!! Z.to_nat ((q_head q + Z.of_nat k) mod N)) <$> seq 0 (Z.to_nat (q_tail q - q_head q)).

(** Well formed, after at most [m] pushes. *)
Record rq_ok (m : Z) (q : RunQueue) : Prop := {
  rq_buf_len : zlen (q_buf q) = N;
  rq_order : 0 <= q_head q <= q_tail q;
  rq_room : q_tail q - q_head q <= N;
  rq_count : q_tail q <= m }.

Lemma length_waiting m q : rq_ok m q -> zlen (waiting q) = q_tail q - q_head q.
Proof. intros []. unfold waiting, zlen. rewrite length_fmap, length_seq. lia. Qed.

Lemma rq_new_ok : 0 <= N -> rq_ok 0 rq_new /\ waiting rq_new = [].
Proof. intros. split; [|done]. split; cbn; try lia. unfold zlen. rewrite length_replicate. lia. Qed.

Lemma rq_slot_ok i : 0 < N -> rq_slot i = Ret (i mod N) /\ 0 <= i mod N < N.
Proof. intros. unfold rq_slot. rewrite (proj2 (Z.eqb_neq _ _)) by lia. split; [done|by apply Z.mod_pos_bound]. Qed.

(** Two positions of a window no longer than the ring share no slot. *)
Lemma slot_inj a b : a <= b < a + N -> a mod N = b mod N -> a = b.
Proof.
  intros Hab E. assert (N <> 0) by lia. pose proof (Z.div_mod a N) as Ea. pose proof (Z.div_mod b N) as Eb.
  rewrite E in Ea. assert (b - a = N * (b / N - a / N)) by lia.
  assert (b / N = a / N) by nia. lia.
Qed.

Lemma push_waiting m q v : rq_ok m q -> q_tail q - q_head q < N ->
  let q' := mkRunQueue (<[Z.to_nat (q_tail q mod N) := v]> (q_buf q)) (q_head q) (q_tail q + 1) in
  rq_ok (m + 1) q' /\ waiting q' = waiting q ++ [v].
Proof.
  intros [Hb Ho Hr Hm] Hlt q'. pose proof (Z.mod_pos_bound (q_tail q) N) as Ht. unfold zlen in Hb. split.
  { split; subst q'; cbn; try lia. unfold zlen. by rewrite length_insert. }
  unfold waiting, q'; cbn [q_buf q_head q_tail].
  replace (Z.to_nat (q_tail q + 1 - q_head q)) with (Z.to_nat (q_tail q - q_head q) + 1)%nat by lia.
  rewrite seq_app, fmap_app. f_equal.
  - apply list_fmap_ext. intros k k' Hk. apply lookup_seq in Hk as [-> Hk].
    rewrite list_lookup_total_insert_ne; [done|]. intros E.
    pose proof (Z.mod_pos_bound (q_head q + Z.of_nat (0 + k)) N).
    assert (E2 : (q_head q + Z.of_nat (0 + k)) mod N = q_tail q mod N) by lia.
    apply slot_inj in E2; lia.
  - cbn [seq fmap list_fmap]. f_equal.
    replace (q_head q + Z.of_nat (0 + Z.to_nat (q_tail q - q_head q))) with (q_tail q) by lia.
    apply list_lookup_total_insert_eq. lia.
Qed.

Lemma pop_waiting m q : rq_ok m q -> q_head q < q_tail q ->
  waiting q = q_buf q !!! Z.to_nat (q_head q mod N) :: waiting (mkRunQueue (q_buf q) (q_head q + 1) (q_tail q)).
Proof.
  intros [Hb Ho Hr Hm] Hlt. unfold waiting. cbn [q_buf q_head q_tail].
  replace (Z.to_nat (q_tail q - q_head q)) with (S (Z.to_nat (q_tail q - (q_head q + 1)))) by lia.
  cbn [seq fmap list_fmap]. f_equal; [do 3 f_equal; lia|].
  rewrite <- seq_shift. change (list_fmap _ _ ?f ?l) with (f <$> l). rewrite <- list_fmap_compose.
  apply list_fmap_ext. intros _ k _. cbn. do 3 f_equal. lia.
Qed.

(** ** Refinement *)

Lemma rq_step_refines m q o : rq_ok m q -> m + 1 < 2 ^ 64 ->
  exists q', rq_step q o = Ret (fst (fifo_step (waiting q) o), q') /\ rq_ok (m + 1) q' /\
    waiting q' = snd (fifo_step (waiting q) o).
Proof.
  intros Hq Hm. pose proof Hq as [Hb Ho Hr Hc]. pose proof (length_waiting m q Hq) as Hw.
  assert (Hweak : rq_ok (m + 1) q) by (split; try done; lia). destruct o as [v|]; cbn [rq_step fifo_step].
  - unfold rq_push, rq_is_full, rq_len. rewrite usub_small by lia. cbn [mbind outcome_bind]. rewrite Hw.
    destruct (Z.leb_spec N (q_tail q - q_head q)) as [Hge|Hlt].
    + rewrite (proj2 (Z.ltb_ge _ _)) by lia. by exists q.
    + rewrite (proj2 (Z.ltb_lt _ _)) by lia. destruct (rq_slot_ok (q_tail q)) as [-> Hs]; [lia|].
      cbn [mbind outcome_bind]. rewrite (proj2 (Z.leb_gt _ _)), uadd_small by lia. cbn.
      eexists. split; [done|]. by apply push_waiting.
  - unfold rq_pop, rq_is_empty. destruct (Z.eqb_spec (q_head q) (q_tail q)) as [E|Hne].
    + assert (waiting q = []) as -> by (destruct (waiting q); [done|unfold zlen in Hw; cbn in Hw; lia]). cbn.
      exists q. split; [done|]. split; [done|]. destruct (waiting q); [done|unfold zlen in Hw; cbn in Hw; lia].
    + destruct (rq_slot_ok (q_head q)) as [-> Hs]; [lia|]. cbn [mbind outcome_bind].
      rewrite (pop_waiting m q) by (done || lia). cbn [fst snd].
      erewrite index_lookup; [|apply list_lookup_lookup_total_lt; unfold zlen in Hb; lia|lia].
      cbn [mbind outcome_bind]. rewrite uadd_small by lia. cbn. eexists. split; [done|]. split; [|done].
      split; cbn; lia.
Qed.

Lemma rq_run_refines m q os : rq_ok m q -> m + zlen os < 2 ^ 64 ->
  exists q', rq_run q os = Ret (fst (fifo_run (waiting q) os), q') /\ waiting q' = snd (fifo_run (waiting q) os).
Proof.
  revert m q. induction os as [|o os IH]; intros m q Hq Hm; cbn [rq_run fifo_run].
  { by exists q. }
  assert (zlen (o :: os) = zlen os + 1) as E by (unfold zlen; cbn; lia). pose proof (zlen_nonneg os).
  destruct (rq_step_refines m q o Hq) as (q1 & E1 & Hq1 & Hw1); [lia|]. rewrite E1. cbn [mbind outcome_bind].
  destruct (fifo_step (waiting q) o) as [a l]. cbn [fst snd] in *. subst l.
  destruct (IH (m + 1) q1 Hq1) as (q2 & E2 & Hw2); [lia|]. rewrite E2. cbn [mbind outcome_bind].
  destruct (fifo_run (waiting q1) os). by exists q2.
Qed.
End Ring.

(** A pop leaves the bound on the pushes where it is; a push with room
    succeeds. *)
Lemma rq_pop_refines N checks m q : rq_ok N m q -> m < 2 ^ 64 ->
  exists q', rq_pop N checks q = Ret (head (waiting N q), q') /\ rq_ok N m q' /\ waiting N q' = tail (waiting N q).
Proof.
  intros Hq Hm. pose proof Hq as [Hb Ho Hr Hc]. pose proof (length_waiting N m q Hq) as Hw.
  unfold rq_pop, rq_is_empty. destruct (Z.eqb_spec (q_head q) (q_tail q)) as [E|Hne].
  - exists q. destruct (waiting N q) eqn:Ew; [done|]. unfold zlen in Hw. cbn in Hw. lia.
  - destruct (rq_slot_ok N (q_head q)) as [-> Hs]; [lia|]. cbn [mbind outcome_bind].
    rewrite (pop_waiting N m q) by (done || lia).
    erewrite index_lookup; [|apply list_lookup_lookup_total_lt; unfold zlen in Hb; lia|lia].
    cbn [mbind outcome_bind]. rewrite uadd_small by lia. cbn. eexists. split; [done|]. split; [|done]. split; cbn; lia.
Qed.

Lemma rq_push_refines N checks m q v : rq_ok N m q -> m + 1 < 2 ^ 64 -> zlen (waiting N q) < N ->
  exists q', rq_push N checks v q = Ret (true, q') /\ rq_ok N (m + 1) q' /\ waiting N q' = waiting N q ++ [v].
Proof.
  intros Hq Hm Hl. destruct (rq_step_refines N checks m q (RqPush v) Hq Hm) as (q' & E & Hq' & Hw'). exists q'.
  cbn [rq_step fifo_step] in *. rewrite (proj2 (Z.ltb_lt _ _) Hl) in *. cbn in *.
  destruct (rq_push N checks v q) as [[b q1]| |]; try done. cbn in E. injection E as -> ->. done.
Qed.

(** C32: Every sequence of pushes and pops on the run queue answers as a bounded first-in first-out list
    does, never panics and never loses or duplicates an entry, for every capacity, zero included. *)
Theorem run_queue_is_a_bounded_fifo N checks os : 0 <= N -> zlen os < 2 ^ 64 ->
  exists q, rq_run N checks (rq_new N) os = Ret (fst (fifo_run N [] os), q) /\ waiting N q = snd (fifo_run N [] os).
Proof.
  intros HN Hos. destruct (rq_new_ok N HN) as [Hok Hw].
  destruct (rq_run_refines N checks 0 (rq_new N) os Hok) as (q & E); [lia|]. rewrite Hw in E. by exists q.
Qed.

Lemma run_queue_is_a_bounded_fifo_witness :
  exists q, rq_run 2 true (rq_new 2) [RqPush 7; RqPush 8; RqPush 9; RqPop; RqPush 9; RqPop; RqPop; RqPop]
    = Ret ([Pushed true; Pushed true; Pushed false; Popped (Some 7); Pushed true; Popped (Some 8); Popped (Some 9); Popped None], q)
    /\ waiting 2 q = [].
Proof.
  apply (run_queue_is_a_bounded_fifo 2 true
    [RqPush 7; RqPush 8; RqPush 9; RqPop; RqPush 9; RqPop; RqPop; RqPop]); by vm_compute.
Defined.
