(* ===== verification/Ticket.v ===== *)
(** * The ticket lock (dezh-core/src/sync.rs)

    [Ticket] is two wrapping [u32] counters.  Any number of threads run
    [acquire] and [release] in a loop; a schedule says which thread performs
    its next atomic access.  The accesses interleave but are not reordered: the
    Acquire/Release pairs of the source are taken at their word.

    The abstraction is the queue of threads between the [fetch_add] of their
    [acquire] and the store of their [release].  It gives exclusion, first
    come first served order, and a bound on the wait under every fair
    schedule. *)

From Stdlib Require Import ZArith Lia.
From stdpp Require Import base option numbers list.
From S2P Require Import Prelude.

(** ** The lock and its threads *)

Record Ticket := mkTicket { t_next : Z; t_serving : Z }.

Definition ticket_new : Ticket := mkTicket 0 0.
Definition with_counters (next serving : Z) : Ticket := mkTicket next serving.
Definition counters (t : Ticket) : Z * Z := (t_next t, t_serving t).

(** Where a thread is: outside, spinning in [acquire] with its ticket, in the
    critical section, or inside [release] having loaded [serving]. *)
Inductive Place := Outside | Spinning (ticket : Z) | Holding (ticket : Z) | Releasing (served : Z).

Inductive Event := Took (i : nat) | Entered (i : nat) | Left (i : nat).

(** The atomic accesses of [acquire]: the [fetch_add], and one load of
    [serving] per turn of the spin loop. *)
Definition acquire_access (i : nat) (p : Place) (t : Ticket) : option (Place * Ticket * list Event) :=
  match p with
  | Outside => Some (Spinning (t_next t), mkTicket (wrap 32 (t_next t + 1)) (t_serving t), [Took i])
  | Spinning ticket =>
    if t_serving t =? ticket then Some (Holding ticket, t, [Entered i]) else Some (Spinning ticket, t, [])
  | _ => None
  end.

(** The accesses of [release]: a load of [serving], then a store of its
    wrapping successor. *)
Definition release_access (i : nat) (p : Place) (t : Ticket) : option (Place * Ticket * list Event) :=
  match p with
  | Holding _ => Some (Releasing (t_serving t), t, [])
  | Releasing served => Some (Outside, mkTicket (t_next t) (wrap 32 (served + 1)), [Left i])
  | _ => None
  end.

Record Machine := mkMachine { m_lock : Ticket; m_threads : list Place }.

Definition turn (i : nat) (m : Machine) : Machine * list Event :=
  match m_threads m !! i with
  | None => (m, [])
  | Some p =>
    match (match acquire_access i p (m_lock m) with Some r => Some r | None => release_access i p (m_lock m) end) with
    | Some (p', t', ev) => (mkMachine t' (<[i := p']> (m_threads m)), ev)
    | None => (m, [])
    end
  end.

Fixpoint turns (sched : list nat) (m : Machine) : Machine * list Event :=
  match sched with
  | [] => (m, [])
  | i :: sched => let '(m, ev) := turn i m in let '(m, rest) := turns sched m in (m, ev ++ rest)
  end.

Definition started (t : Ticket) (threads : nat) : Machine := mkMachine t (replicate threads Outside).

(** ** What is promised of a run *)

Definition took (ev : list Event) : list nat := omap (fun e => match e with Took i => Some i | _ => None end) ev.
Definition entered (ev : list Event) : list nat := omap (fun e => match e with Entered i => Some i | _ => None end) ev.
Definition departed (ev : list Event) : list nat := omap (fun e => match e with Left i => Some i | _ => None end) ev.

Definition inside (p : Place) : bool := match p with Holding _ | Releasing _ => true | _ => false end.

(** ** The abstract lock: a queue of threads and how far its head is

    The head of the queue is waiting (0), in the critical section (1) or in the
    middle of its release (2). *)

Inductive lock_step (i : nat) : list nat -> nat -> list Event -> list nat -> nat -> Prop :=
| lock_take qs ph : i ∉ qs -> lock_step i qs ph [Took i] (qs ++ [i]) ph
| lock_wait h qs ph : i ∈ qs -> i <> h -> lock_step i (h :: qs) ph [] (h :: qs) ph
| lock_enter qs : lock_step i (i :: qs) 0 [Entered i] (i :: qs) 1
| lock_load qs : lock_step i (i :: qs) 1 [] (i :: qs) 2
| lock_leave qs : lock_step i (i :: qs) 2 [Left i] qs 0.

(** ** The queue behind the counters *)

(** The place of the [k]-th thread of the queue when [s] is served. *)
Definition in_line (s : Z) (ph k : nat) : Place :=
  match k, ph with
  | O, 1%nat => Holding (wrap 32 s)
  | O, S _ => Releasing (wrap 32 s)
  | _, _ => Spinning (wrap 32 (s + Z.of_nat k))
  end.

Record queued (m : Machine) (s : Z) (qs : list nat) (ph : nat) : Prop := {
  qd_serving : t_serving (m_lock m) = wrap 32 s;
  qd_next : t_next (m_lock m) = wrap 32 (s + Z.of_nat (length qs));
  qd_nodup : NoDup qs;
  qd_phase : (ph <= 2)%nat /\ (qs = [] -> ph = 0%nat);
  qd_line : forall k i, qs !! k = Some i -> m_threads m !! i = Some (in_line s ph k);
  qd_out : forall i p, m_threads m !! i = Some p -> i ∉ qs -> p = Outside;
  qd_few : Z.of_nat (length (m_threads m)) <= 2 ^ 32 }.

Lemma ticket_wrap_succ a : wrap 32 (wrap 32 a + 1) = wrap 32 (a + 1).
Proof. unfold wrap. by rewrite Z.add_mod_idemp_l. Qed.

Lemma wrap_near s k : 0 <= k < 2 ^ 32 -> wrap 32 s = wrap 32 (s + k) -> k = 0.
Proof.
  unfold wrap. intros Hk E. assert ((s + k - s) mod 2 ^ 32 = 0) as H.
  { rewrite Zminus_mod, <- E, Z.sub_diag. done. }
  replace (s + k - s) with k in H by lia. by rewrite Z.mod_small in H.
Qed.

Lemma queue_length m s qs ph : queued m s qs ph -> (length qs <= length (m_threads m))%nat.
Proof.
  intros Hq. rewrite <- (length_seq (length (m_threads m)) 0). apply submseteq_length, NoDup_submseteq; [apply Hq|].
  intros i [k Hk]%list_elem_of_lookup. apply (qd_line _ _ _ _ Hq), lookup_lt_Some in Hk.
  apply elem_of_seq. lia.
Qed.

(** Only the head of the queue sees its own ticket served. *)
Lemma not_served m s qs ph k i : queued m s qs ph -> qs !! S k = Some i ->
  (t_serving (m_lock m) =? wrap 32 (s + Z.of_nat (S k))) = false.
Proof.
  intros Hq Hk. rewrite (qd_serving _ _ _ _ Hq). pose proof (queue_length _ _ _ _ Hq).
  apply lookup_lt_Some in Hk. pose proof (qd_few _ _ _ _ Hq). apply Z.eqb_neq. intros E.
  apply wrap_near in E; lia.
Qed.

Lemma started_queued c threads : Z.of_nat threads <= 2 ^ 32 ->
  queued (started (with_counters (wrap 32 c) (wrap 32 c)) threads) c [] 0.
Proof.
  intros Ht. split; cbn [started m_lock m_threads with_counters t_next t_serving];
    [done|by rewrite Z.add_0_r|constructor|lia|done| |by rewrite length_replicate].
  intros i p Hp _. by apply lookup_replicate in Hp as [-> _].
Qed.

(** Setting the place of the head leaves the rest of the line alone. *)
Lemma head_moves t m s qs ph ph' h :
  queued m s (h :: qs) ph -> (ph' <= 2)%nat -> t_serving t = wrap 32 s -> t_next t = t_next (m_lock m) ->
  queued (mkMachine t (<[h := in_line s ph' 0]> (m_threads m))) s (h :: qs) ph'.
Proof.
  intros [Hs Hn Hnd Hph Hl Ho Hf] Hp1 Ht1 Ht2. split; cbn [m_lock m_threads]; try done; [congruence| | |].
  - intros [|k] i Hi.
    + cbn in Hi. injection Hi as <-. apply list_lookup_insert_eq. eapply lookup_lt_Some, (Hl 0%nat h). done.
    + rewrite list_lookup_insert_ne; [by rewrite (Hl _ _ Hi)|]. intros <-.
      apply NoDup_cons in Hnd as [Hni _]. apply Hni. eapply list_elem_of_lookup_2. exact Hi.
  - intros i p Hi Hni. rewrite list_lookup_insert_ne in Hi; [by eapply Ho|]. intros <-. apply Hni. left.
  - by rewrite length_insert.
Qed.

Lemma head_leaves m s qs h served :
  queued m s (h :: qs) 2 -> served = wrap 32 s ->
  queued (mkMachine (mkTicket (t_next (m_lock m)) (wrap 32 (served + 1))) (<[h := Outside]> (m_threads m))) (s + 1) qs 0.
Proof.
  intros [Hs Hn Hnd Hph Hl Ho Hf] ->. apply NoDup_cons in Hnd as [Hni Hnd].
  split; cbn [m_lock m_threads t_serving t_next]; try done; [apply ticket_wrap_succ| |lia| | |].
  - rewrite Hn. f_equal. cbn [length]. lia.
  - intros k i Hi. rewrite list_lookup_insert_ne.
    + rewrite (Hl (S k) i Hi). cbn [in_line]. destruct k; cbn [in_line]; do 3 f_equal; lia.
    + intros <-. apply Hni. eapply list_elem_of_lookup_2. exact Hi.
  - intros i p Hi Hni2. apply list_lookup_insert_Some in Hi as [(<- & <- & _)|[Hne Hi]]; [done|].
    eapply Ho; [exact Hi|]. intros [?|?]%elem_of_cons; congruence || done.
  - by rewrite length_insert.
Qed.

Lemma newcomer m s qs ph i : queued m s qs ph -> i ∉ qs -> m_threads m !! i = Some Outside ->
  queued (mkMachine (mkTicket (wrap 32 (t_next (m_lock m) + 1)) (t_serving (m_lock m)))
            (<[i := Spinning (t_next (m_lock m))]> (m_threads m))) s (qs ++ [i]) ph.
Proof.
  intros [Hs Hn Hnd [Hp1 Hp2] Hl Ho Hf] Hni Hi. split; cbn [m_lock m_threads t_serving t_next]; try done.
  - rewrite Hn, ticket_wrap_succ. f_equal. rewrite length_app. cbn [length]. lia.
  - apply NoDup_app. split; [done|]. split; [|apply NoDup_singleton].
    intros x Hx ->%list_elem_of_singleton. done.
  - split; [done|]. by destruct qs.
  - intros k j Hj. apply lookup_app_Some in Hj as [Hj|[Hge Hj]].
    + rewrite list_lookup_insert_ne; [by apply Hl|]. intros <-. apply Hni. by eapply list_elem_of_lookup_2.
    + apply list_lookup_singleton_Some in Hj as [Hk <-]. assert (k = length qs) as -> by lia.
      rewrite list_lookup_insert_eq by (by eapply lookup_lt_Some). f_equal.
      destruct qs; [rewrite Hp2 by done|]; cbn [in_line]; by rewrite Hn.
  - intros j p Hj Hnj. apply not_elem_of_app in Hnj as [Hnj Hne]. apply not_elem_of_cons in Hne as [Hne _].
    rewrite list_lookup_insert_ne in Hj by done. by eapply Ho.
  - by rewrite length_insert.
Qed.

(** The lock implements the queue: every turn of a thread is a step of the
    abstract lock. *)
Lemma turn_refines m s qs ph i m' ev : queued m s qs ph -> (i < length (m_threads m))%nat -> turn i m = (m', ev) ->
  exists s' qs' ph', lock_step i qs ph ev qs' ph' /\ queued m' s' qs' ph'.
Proof.
  intros Hq Hi Ht. unfold turn in Ht. destruct (lookup_lt_is_Some_2 _ _ Hi) as [p Hp]. rewrite Hp in Ht.
  destruct (decide (i ∈ qs)) as [Hin|Hni].
  2: { pose proof (qd_out _ _ _ _ Hq i p Hp Hni) as ->. cbn in Ht. injection Ht as <- <-.
       exists s, (qs ++ [i]), ph. split; [by apply lock_take|by apply newcomer]. }
  destruct (qd_phase _ _ _ _ Hq) as [Hph _].
  apply list_elem_of_lookup in Hin as [[|k] Hk]; pose proof (qd_line _ _ _ _ Hq _ _ Hk) as E; rewrite Hp in E;
    injection E as ->; destruct qs as [|h qs]; try done.
  - injection Hk as ->. destruct ph as [|[|[|ph]]]; [| | |lia]; cbn [in_line acquire_access release_access] in Ht.
    + rewrite Z.add_0_r, (qd_serving _ _ _ _ Hq), Z.eqb_refl in Ht. injection Ht as <- <-.
      exists s, (i :: qs), 1%nat. split; [constructor|]. apply (head_moves _ _ _ _ 0 1); (done || apply Hq || lia).
    + injection Ht as <- <-. rewrite (qd_serving _ _ _ _ Hq).
      exists s, (i :: qs), 2%nat. split; [constructor|]. apply (head_moves _ _ _ _ 1 2); (done || apply Hq || lia).
    + injection Ht as <- <-. exists (s + 1), qs, 0%nat. split; [constructor|by apply head_leaves].
  - cbn [in_line acquire_access] in Ht. rewrite (not_served _ _ _ _ _ _ Hq Hk) in Ht. injection Ht as <- <-.
    exists s, (h :: qs), ph. split.
    + constructor; [by eapply list_elem_of_lookup_2|]. intros ->. pose proof (qd_nodup _ _ _ _ Hq) as Hnd.
      apply NoDup_cons in Hnd as [Hni _]. apply Hni. by eapply list_elem_of_lookup_2.
    + rewrite list_insert_id by done. by destruct m.
Qed.

Lemma turn_absent m i : (length (m_threads m) <= i)%nat -> turn i m = (m, []).
Proof. intros Hi. unfold turn. by rewrite lookup_ge_None_2. Qed.

Lemma turn_threads i m : length (m_threads (fst (turn i m))) = length (m_threads m).
Proof.
  unfold turn. destruct (m_threads m !! i) as [p|]; [|done].
  destruct p; cbn; try (destruct (_ =? _)); cbn; by rewrite ?length_insert.
Qed.

(** ** First come, first served; one at a time *)

(** The events so far, as the queue sees them: everyone who left, then the
    queue. *)
Definition history_ok (ev : list Event) (qs : list nat) (ph : nat) : Prop :=
  took ev = departed ev ++ qs /\ entered ev = departed ev ++ (if ph is 0%nat then [] else take 1 qs).

Lemma lock_step_history i qs ph ev qs' ph' log :
  lock_step i qs ph ev qs' ph' -> (qs = [] -> ph = 0%nat) -> history_ok log qs ph -> history_ok (log ++ ev) qs' ph'.
Proof.
  intros Hstep Hph [Ht He]. unfold history_ok, took, entered, departed in *. rewrite !omap_app, Ht, He.
  destruct Hstep as [qs ph Hni|h qs ph ? ?|qs|qs|qs]; cbn; rewrite ?app_nil_r, <- ?app_assoc; try done.
  split; [done|]. f_equal. destruct ph; [done|]. destruct qs; [by specialize (Hph eq_refl)|done].
Qed.

Lemma turns_refines sched m s qs ph log m' ev :
  queued m s qs ph -> history_ok log qs ph -> turns sched m = (m', ev) ->
  exists s' qs' ph', queued m' s' qs' ph' /\ history_ok (log ++ ev) qs' ph'.
Proof.
  revert m s qs ph log m' ev. induction sched as [|i sched IH]; intros m s qs ph log m' ev Hq Hh Ht; cbn in Ht.
  { injection Ht as <- <-. exists s, qs, ph. by rewrite app_nil_r. }
  destruct (turn i m) as [m1 ev1] eqn:E1. destruct (turns sched m1) as [m2 ev2] eqn:E2. injection Ht as <- <-.
  rewrite app_assoc. destruct (Nat.lt_ge_cases i (length (m_threads m))).
  - destruct (turn_refines _ _ _ _ _ _ _ Hq H E1) as (s1 & qs1 & ph1 & Hst & Hq1).
    eapply IH; [exact Hq1| |exact E2]. eapply lock_step_history; [exact Hst|apply Hq|done].
  - rewrite turn_absent in E1 by done. injection E1 as <- <-. rewrite app_nil_r. by eapply IH.
Qed.

Lemma inside_is_head m s qs ph i p : queued m s qs ph -> m_threads m !! i = Some p -> inside p = true ->
  qs !! 0%nat = Some i /\ ph <> 0%nat.
Proof.
  intros Hq Hp Hin. destruct (decide (i ∈ qs)) as [[k Hk]%list_elem_of_lookup|Hni].
  - rewrite (qd_line _ _ _ _ Hq _ _ Hk) in Hp. injection Hp as <-. by destruct k, ph as [|[|?]].
  - by rewrite (qd_out _ _ _ _ Hq _ _ Hp Hni) in Hin.
Qed.

(** C27: Under every interleaving of the atomic accesses of up to 2^32 threads, from any equal counters,
    at most one thread is inside the ticket lock, threads enter exactly in the order they drew tickets,
    and none leaves without having entered; the counters may wrap. *)
Theorem ticket_lock_serves_in_order c threads sched m ev :
  Z.of_nat threads <= 2 ^ 32 ->
  turns sched (started (with_counters (wrap 32 c) (wrap 32 c)) threads) = (m, ev) ->
  entered ev `prefix_of` took ev /\ departed ev `prefix_of` entered ev /\
  (length (entered ev) <= length (departed ev) + 1)%nat /\
  (forall i j p q, m_threads m !! i = Some p -> m_threads m !! j = Some q -> inside p = true -> inside q = true -> i = j).
Proof.
  intros Hn Ht. destruct (turns_refines _ _ _ _ _ [] _ _ (started_queued c threads Hn) ltac:(done) Ht)
    as (s & qs & ph & Hq & [E1 E2]). cbn [app] in *. rewrite E1, E2. split_and!.
  - apply prefix_app. destruct ph; [apply prefix_nil|]. exists (drop 1 qs). by rewrite take_drop.
  - by apply prefix_app_r.
  - rewrite length_app. destruct ph; cbn; [lia|]. rewrite length_take. lia.
  - intros i j p q Hi Hj Hpi Hpj. destruct (inside_is_head _ _ _ _ _ _ Hq Hi Hpi) as [Ei _].
    destruct (inside_is_head _ _ _ _ _ _ Hq Hj Hpj) as [Ej _]. congruence.
Qed.

Lemma ticket_lock_serves_in_order_witness :
  let r := turns [0; 1; 0; 1; 2; 0; 0; 2; 1; 1]%nat (started (with_counters (wrap 32 (2 ^ 32 - 1)) (wrap 32 (2 ^ 32 - 1))) 3) in
  entered r.2 = [0; 1]%nat /\ took r.2 = [0; 1; 2]%nat /\ departed r.2 = [0]%nat /\ entered r.2 `prefix_of` took r.2.
Proof.
  intros r. split; [by vm_compute|]. split; [by vm_compute|]. split; [by vm_compute|].
  apply (ticket_lock_serves_in_order (2 ^ 32 - 1) 3 [0; 1; 0; 1; 2; 0; 0; 2; 1; 1]%nat r.1 r.2); [lia|by vm_compute].
Defined.

(** ** Nobody waits for ever *)

(** Thread [i] waits, and [rank] turns of whoever is at the head bring it to
    the head, waiting. *)
Definition waits (i rank : nat) (m : Machine) : Prop := exists s qs ph k,
  queued m s qs ph /\ qs !! k = Some i /\ (k = 0%nat -> ph = 0%nat) /\ rank = (3 * k - ph)%nat.

Lemma turn_waits i rank j m m' ev s h qs ph k :
  queued m s (h :: qs) ph -> (h :: qs) !! k = Some i -> (k = 0%nat -> ph = 0%nat) -> rank = (3 * k - ph)%nat ->
  turn j m = (m', ev) ->
  Entered i ∈ ev \/
  (exists rank', waits i rank' m' /\ (rank' < rank)%nat) \/
  (j <> h /\ exists s' qs' k', queued m' s' (h :: qs') ph /\ (h :: qs') !! k' = Some i /\ k' = k).
Proof.
  intros Hq Hk Hw Hr Ht. pose proof Hq as Hq0. destruct (Nat.lt_ge_cases j (length (m_threads m))) as [Hj|Hj].
  2: { rewrite turn_absent in Ht by done. injection Ht as <- <-. right. right. split; [|by exists s, qs, k].
       intros ->. assert (E := qd_line _ _ _ _ Hq 0%nat h eq_refl). apply lookup_lt_Some in E. lia. }
  destruct (turn_refines _ _ _ _ _ _ _ Hq Hj Ht) as (s' & qs' & ph' & Hst & Hq').
  inversion Hst as [? ? Hni|? ? ? Hin Hne| | |]; subst; clear Hst.
  - right. right. split; [intros ->; apply Hni; left|]. exists s', (qs ++ [j]), k. split; [done|]. split; [|done].
    by apply (lookup_app_l_Some (h :: qs)).
  - right. right. split; [done|]. by exists s', qs, k.
  - destruct k; [left; injection Hk as ->; by left|]. right. left. exists (3 * S k - 1)%nat.
    split; [exists s', (h :: qs), 1%nat, (S k)|]; (done || lia).
  - destruct k; [by specialize (Hw eq_refl)|]. right. left. exists (3 * S k - 2)%nat.
    split; [exists s', (h :: qs), 2%nat, (S k)|]; (done || lia).
  - destruct k; [by specialize (Hw eq_refl)|]. right. left. exists (3 * k)%nat.
    split; [exists s', qs', 0%nat, k; split_and!; (done || lia)|lia].
Qed.

Lemma waits_head i rank m : waits i rank m -> exists h s qs ph k,
  queued m s (h :: qs) ph /\ (h :: qs) !! k = Some i /\ (k = 0%nat -> ph = 0%nat) /\ rank = (3 * k - ph)%nat.
Proof.
  intros (s & [|h qs] & ph & k & Hq & Hk & Hw & Hr); [done|]. by exists h, s, qs, ph, k.
Qed.

Lemma turns_wait i sched : forall rank m m' ev, waits i rank m -> turns sched m = (m', ev) ->
  Entered i ∈ ev \/ exists rank', waits i rank' m' /\ (rank' <= rank)%nat.
Proof.
  induction sched as [|j sched IH]; intros rank m m' ev Hw Ht; cbn in Ht.
  { injection Ht as <- <-. right. by exists rank. }
  destruct (turn j m) as [m1 ev1] eqn:E1. destruct (turns sched m1) as [m2 ev2] eqn:E2. injection Ht as <- <-.
  destruct (waits_head _ _ _ Hw) as (h & s & qs & ph & k & Hq & Hk & Hp & Hr).
  assert (Hstep : Entered i ∈ ev1 \/ exists r, waits i r m1 /\ (r <= rank)%nat).
  { destruct (turn_waits _ _ _ _ _ _ _ _ _ _ _ Hq Hk Hp Hr E1) as [?|[(r & ? & ?)|(_ & s' & qs' & k' & Hq' & Hk' & ->)]];
      [by left|right; exists r; split; [done|lia]|].
    right. exists rank. split; [|done]. by exists s', (h :: qs'), ph, k. }
  destruct Hstep as [?|(r & Hw1 & Hle)]; [left; apply elem_of_app; by left|].
  destruct (IH _ _ _ _ Hw1 E2) as [?|(r2 & Hw2 & Hle2)]; [left; apply elem_of_app; by right|].
  right. exists r2. split; [done|lia].
Qed.

(** A stretch of schedule that gives the head a turn makes progress. *)
Lemma head_turn_progress i sched : forall rank m m' ev h s qs ph k,
  queued m s (h :: qs) ph -> (h :: qs) !! k = Some i -> (k = 0%nat -> ph = 0%nat) -> rank = (3 * k - ph)%nat ->
  h ∈ sched -> turns sched m = (m', ev) ->
  Entered i ∈ ev \/ exists rank', waits i rank' m' /\ (rank' < rank)%nat.
Proof.
  induction sched as [|j sched IH]; intros rank m m' ev h s qs ph k Hq Hk Hp Hr Hin Ht; [by apply not_elem_of_nil in Hin|].
  cbn in Ht. destruct (turn j m) as [m1 ev1] eqn:E1. destruct (turns sched m1) as [m2 ev2] eqn:E2. injection Ht as <- <-.
  destruct (turn_waits _ _ _ _ _ _ _ _ _ _ _ Hq Hk Hp Hr E1) as [?|[(r & Hw & Hlt)|(Hne & s' & qs' & k' & Hq' & Hk' & ->)]].
  - left. apply elem_of_app. by left.
  - destruct (turns_wait _ _ _ _ _ _ Hw E2) as [?|(r2 & Hw2 & Hle2)]; [left; apply elem_of_app; by right|].
    right. exists r2. split; [done|lia].
  - apply elem_of_cons in Hin as [->|Hin]; [done|].
    destruct (IH rank m1 m2 ev2 h s' qs' ph k Hq' Hk' Hp Hr Hin E2) as [?|?]; [left; apply elem_of_app; by right|by right].
Qed.

Lemma turns_threads sched : forall m, length (m_threads (fst (turns sched m))) = length (m_threads m).
Proof.
  induction sched as [|i sched IH]; intros m; [done|]. cbn. pose proof (turn_threads i m) as H.
  destruct (turn i m) as [m1 ev1]. specialize (IH m1). destruct (turns sched m1). cbn in *. congruence.
Qed.

Lemma turns_app a b m : turns (a ++ b) m =
  let '(m1, e1) := turns a m in let '(m2, e2) := turns b m1 in (m2, e1 ++ e2).
Proof.
  revert m. induction a as [|i a IH]; intros m; cbn; [by destruct (turns b m)|].
  destruct (turn i m) as [m1 e1]. rewrite IH. destruct (turns a m1) as [m2 e2]. destruct (turns b m2). by rewrite app_assoc.
Qed.

Definition fair_round (threads : nat) (round : list nat) : Prop := forall j, (j < threads)%nat -> j ∈ round.

Lemma rounds_progress i : forall rounds rank m, waits i rank m ->
  Forall (fair_round (length (m_threads m))) rounds -> (rank < length rounds)%nat ->
  i ∈ entered (snd (turns (concat rounds) m)).
Proof.
  induction rounds as [|r rounds IH]; intros rank m Hw Hf Hlt; [cbn in Hlt; lia|].
  apply Forall_cons in Hf as [Hr Hf]. cbn [concat]. rewrite turns_app. pose proof (turns_threads r m) as Hlen.
  destruct (turns r m) as [m1 e1] eqn:E1. specialize (IH). cbn [fst] in Hlen.
  assert (Hsub : forall a b, i ∈ entered a \/ i ∈ entered b -> i ∈ entered (a ++ b))
    by (intros a b ?; unfold entered; rewrite omap_app; by apply elem_of_app).
  destruct (waits_head _ _ _ Hw) as (h & s & qs & ph & k & Hq & Hk & Hp & Hrk).
  assert (Hh : h ∈ r).
  { apply Hr. eapply lookup_lt_Some, (qd_line _ _ _ _ Hq 0%nat h). done. }
  destruct (turns (concat rounds) m1) as [m2 e2] eqn:E2. cbn [snd]. apply Hsub.
  destruct (head_turn_progress _ _ _ _ _ _ _ _ _ _ _ Hq Hk Hp Hrk Hh E1) as [Hent|(rank' & Hw' & Hlt')].
  - left. apply list_elem_of_omap. by exists (Entered i).
  - right. specialize (IH rank' m1 Hw'). rewrite E2, Hlen in IH. apply IH; [done|cbn in Hlt; lia].
Qed.

(** C31: A thread that spins on the ticket lock gets in: after any history, within 3n-2 rounds in which
    each of the n threads is scheduled at least once, in any order. *)
Theorem ticket_lock_starves_nobody c threads sched m ev i tk rounds :
  Z.of_nat threads <= 2 ^ 32 ->
  turns sched (started (with_counters (wrap 32 c) (wrap 32 c)) threads) = (m, ev) ->
  m_threads m !! i = Some (Spinning tk) ->
  Forall (fair_round threads) rounds -> (3 * threads - 2 <= length rounds)%nat ->
  i ∈ entered (snd (turns (concat rounds) m)).
Proof.
  intros Hn Ht Hi Hf Hlen. pose proof (turns_threads sched (started (with_counters (wrap 32 c) (wrap 32 c)) threads)) as HT.
  destruct (turns_refines _ _ _ _ _ [] _ _ (started_queued c threads Hn) ltac:(done) Ht) as (s & qs & ph & Hq & _).
  rewrite Ht in HT. cbn in HT. rewrite length_replicate in HT.
  assert (Hin : i ∈ qs) by (destruct (decide (i ∈ qs)) as [|Hni]; [done|by pose proof (qd_out _ _ _ _ Hq _ _ Hi Hni)]).
  apply list_elem_of_lookup in Hin as [k Hk]. pose proof (qd_line _ _ _ _ Hq _ _ Hk) as Hp. rewrite Hi in Hp.
  injection Hp as Hp. pose proof (queue_length _ _ _ _ Hq). apply lookup_lt_Some in Hk as Hkl.
  eapply rounds_progress; [|by rewrite HT|].
  - exists s, qs, ph, k. split; [exact Hq|]. split; [done|]. split; [|reflexivity]. intros ->. by destruct ph as [|[|?]].
  - lia.
Qed.

Lemma ticket_lock_starves_nobody_witness :
  let m := fst (turns [0; 1; 0]%nat (started (with_counters (wrap 32 7) (wrap 32 7)) 2)) in
  1%nat ∈ entered (snd (turns (concat (replicate 4 [1; 0]%nat)) m)).
Proof.
  intros m. apply (ticket_lock_starves_nobody 7 2 [0; 1; 0]%nat m [Took 0; Took 1; Entered 0] 1 8 (replicate 4 [1; 0]%nat));
    [lia|by vm_compute|by vm_compute| |cbn; lia].
  apply Forall_replicate. intros j Hj. destruct j as [|[|j]]; [right; left|left|lia].
Defined.
