(* ===== verification/B64.v ===== *)
(** * The base64 decoder of the upload path (dezh-core/src/b64.rs)

    [decode] keeps the last bits in a [u32] that is shifted for ever; the
    theorem gives, for every input and every output buffer, exactly when it
    accepts and what it has written: the big-endian number the characters
    spell, without its at most six leftover bits, which must be zero. *)

From Stdlib Require Import ZArith Lia Btauto.
From stdpp Require Import base option numbers list.
From S2P Require Import Prelude.

(** [val] *)
Definition b64_val (c : Z) : option Z :=
  if (65 <=? c) && (c <=? 90) then Some (c - 65)
  else if (97 <=? c) && (c <=? 122) then Some (c - 97 + 26)
  else if (48 <=? c) && (c <=? 57) then Some (c - 48 + 52)
  else if c =? 43 then Some 62
  else if c =? 47 then Some 63
  else None.

Record B64 := mkB64 { b_n : Z; b_acc : Z; b_bits : Z; b_padded : bool; b_out : list Z }.

(** One turn of the loop; a refusal keeps what the buffer holds by then. *)
Definition b64_char (s : B64) (c : Z) : result (list Z) B64 :=
  if c =? 61 then Ok (mkB64 (b_n s) (b_acc s) (b_bits s) true (b_out s)) else
  if b_padded s then Err (b_out s) else
  match b64_val c with
  | None => Err (b_out s)
  | Some v =>
    let acc := wrap 32 (Z.shiftl (b_acc s) 6) .| v in
    let bits := b_bits s + 6 in
    if 8 <=? bits then
      let bits := bits - 8 in
      if zlen (b_out s) <=? b_n s then Err (b_out s)
      else Ok (mkB64 (b_n s + 1) acc bits false (<[Z.to_nat (b_n s) := wrap 8 (Z.shiftr acc bits)]> (b_out s)))
    else Ok (mkB64 (b_n s) acc bits false (b_out s))
  end.

Fixpoint b64_loop (s : B64) (input : list Z) : result (list Z) B64 :=
  match input with [] => Ok s | c :: input => s ← b64_char s c; b64_loop s input end.

(** The answer and the buffer after the call. *)
Definition decode64 (input out : list Z) : option Z * list Z :=
  match b64_loop (mkB64 0 0 0 false out) input with
  | Err out => (None, out)
  | Ok s =>
    if (0 <? b_bits s) && negb ((b_acc s & (Z.shiftl 1 (b_bits s) - 1)) =? 0) then (None, b_out s)
    else (Some (b_n s), b_out s)
  end.

(** ** Reference: numbers in base 64 and base 256 *)

Definition spell (v0 : Z) (vs : list Z) : Z := fold_left (fun a v => 64 * a + v) vs v0.

Fixpoint be_bytes (n : nat) (x : Z) : list Z :=
  match n with O => [] | S n => be_bytes n (x / 256) ++ [x mod 256] end.

Lemma length_be_bytes n x : length (be_bytes n x) = n.
Proof. revert x. induction n as [|n IH]; intros x; cbn; [done|]. rewrite length_app, IH. cbn. lia. Qed.

Lemma b64_val_range c v : b64_val c = Some v -> 0 <= v < 64.
Proof. unfold b64_val. repeat case_match; naive_solver lia. Qed.

Lemma shift_or_value a v : 0 <= v < 64 -> Z.shiftl a 6 .| v = 64 * a + v.
Proof.
  intros Hv. pose proof (Z.add_lor_land (Z.shiftl a 6) v) as E. rewrite Z.shiftl_mul_pow2 in * by lia.
  replace (a * 2 ^ 6 & v) with 0 in E; [lia|]. symmetry. apply Z.bits_inj'. intros i Hi.
  rewrite Z.land_spec, Z.testbit_0_l. destruct (Z.ltb_spec i 6).
  - by rewrite Z.mul_pow2_bits_low.
  - rewrite (fits_testbit_high 6 v), andb_false_r; [done|unfold fits; lia|lia].
Qed.

(** The accumulator holds the low 32 bits of the number spelled so far. *)
Lemma acc_value a v : 0 <= v < 64 -> wrap 32 (Z.shiftl (wrap 32 a) 6) .| v = wrap 32 (64 * a + v).
Proof.
  intros Hv. rewrite <- (shift_or_value a v) by done. apply Z.bits_inj'. intros i Hi.
  assert (Hf : fits 32 v) by (unfold fits; lia).
  rewrite Z.lor_spec, !wrap_testbit, Z.lor_spec, !Z.shiftl_spec by lia.
  destruct (Z.ltb_spec i 32); cbn [andb]; [|by rewrite (fits_testbit_high 32 v) by (done || lia)].
  f_equal. destruct (Z.lt_ge_cases i 6); [by rewrite !Z.testbit_neg_r by lia|].
  rewrite wrap_testbit by lia. by destruct (Z.ltb_spec (i - 6) 32); [|lia].
Qed.

Lemma byte_of_acc x b : 0 <= b < 8 -> wrap 8 (Z.shiftr (wrap 32 x) b) = (x / 2 ^ b) mod 256.
Proof.
  intros Hb. rewrite <- Z.shiftr_div_pow2 by lia. change 256 with (2 ^ 8). fold (wrap 8 (Z.shiftr x b)).
  apply Z.bits_inj'. intros i Hi. rewrite !wrap_testbit, !Z.shiftr_spec, wrap_testbit by lia.
  destruct (Z.ltb_spec i 8); [|done]. cbn. by destruct (Z.ltb_spec (i + b) 32); [|lia].
Qed.

(** ** The loop *)

(** After spelling [x] with [k] characters into a buffer that held [out]. *)
Definition decoding (out : list Z) (k x : Z) (p : bool) (s : B64) : Prop :=
  let n := 6 * k / 8 in
  n <= zlen out /\
  s = mkB64 n (wrap 32 x) (6 * k mod 8) p (be_bytes (Z.to_nat n) (x / 2 ^ (6 * k mod 8)) ++ drop (Z.to_nat n) out).

Lemma insert_next {A} (l out : list A) n v :
  length l = n -> (n < length out)%nat -> <[n := v]> (l ++ drop n out) = (l ++ [v]) ++ drop (S n) out.
Proof.
  intros <- Hn. destruct (lookup_lt_is_Some_2 out (length l) Hn) as [x Hx]. rewrite (drop_S _ _ _ Hx).
  rewrite insert_app_r_alt, Nat.sub_diag by lia. cbn. by rewrite <- app_assoc.
Qed.

(** Six more bits: no new byte from a byte boundary, one otherwise. *)
Lemma six_more k : 0 <= k ->
  (6 * k mod 8 = 0 /\ 6 * (k + 1) / 8 = 6 * k / 8 /\ 6 * (k + 1) mod 8 = 6) \/
  (2 <= 6 * k mod 8 < 8 /\ 6 * (k + 1) / 8 = 6 * k / 8 + 1 /\ 6 * (k + 1) mod 8 = 6 * k mod 8 - 2).
Proof.
  intros Hk. pose proof (Z.div_mod (6 * k) 8). pose proof (Z.mod_pos_bound (6 * k) 8).
  pose proof (Z.div_mod (6 * (k + 1)) 8). pose proof (Z.mod_pos_bound (6 * (k + 1)) 8).
  assert (exists q, 6 * k mod 8 = 2 * q) as [q Hq].
  { exists (3 * k - 4 * (6 * k / 8)). lia. }
  lia.
Qed.

Lemma b64_char_value out k x s c v : 0 <= k -> 0 <= x -> decoding out k x false s -> b64_val c = Some v ->
  if 6 * (k + 1) / 8 <=? zlen out
  then exists s', b64_char s c = Ok s' /\ decoding out (k + 1) (64 * x + v) false s'
  else exists o, b64_char s c = Err o.
Proof.
  intros Hk Hx [Hn ->] Hv. pose proof (b64_val_range _ _ Hv) as Hr. unfold b64_char. cbn [b_padded b_n b_acc b_bits b_out].
  assert (Hne : (c =? 61) = false) by (apply Z.eqb_neq; intros ->; done). rewrite Hne, Hv, acc_value by done.
  set (n := 6 * k / 8) in *. assert (0 <= n) by (apply Z.div_pos; lia).
  assert (Hlen : zlen (be_bytes (Z.to_nat n) (x / 2 ^ (6 * k mod 8)) ++ drop (Z.to_nat n) out) = zlen out).
  { unfold zlen in *. rewrite length_app, length_be_bytes, length_drop. lia. }
  destruct (six_more k Hk) as [(Hb & En & Eb)|(Hb & En & Eb)]; fold n in En; rewrite En, ?Hb.
  - rewrite (proj2 (Z.leb_le n _)), (proj2 (Z.leb_gt 8 _)) by lia. eexists. split; [done|]. split; [lia|].
    rewrite En, Eb. f_equal. f_equal. f_equal. replace (2 ^ 6) with 64 by done. rewrite Z.div_1_r.
    apply Z.div_unique with v; lia.
  - rewrite (proj2 (Z.leb_le 8 _)), Hlen by lia. destruct (Z.leb_spec (n + 1) (zlen out)) as [Hle|Hgt].
    + rewrite (proj2 (Z.leb_gt _ _)) by lia. eexists. split; [done|]. split; [lia|]. rewrite En, Eb.
      replace (6 * k mod 8 + 6 - 8) with (6 * k mod 8 - 2) by lia. f_equal.
      unfold zlen in *. rewrite byte_of_acc, insert_next by (rewrite ?length_be_bytes; lia).
      replace (Z.to_nat (n + 1)) with (S (Z.to_nat n)) by lia. cbn [be_bytes]. do 3 f_equal.
      rewrite Z.div_div by lia. change 256 with (2 ^ 8). rewrite <- Z.pow_add_r by lia.
      replace (6 * k mod 8 - 2 + 8) with (6 + 6 * k mod 8) by lia. rewrite Z.pow_add_r, <- Z.div_div by lia.
      f_equal. apply Z.div_unique with v; [|change (2 ^ 6) with 64]; lia.
    + rewrite (proj2 (Z.leb_le _ _)) by lia. eexists. done.
Qed.

Definition PAD : Z := 61.

Lemma b64_chars out rest : forall cs vs k x s, mapM b64_val cs = Some vs -> 0 <= k -> 0 <= x ->
  decoding out k x false s ->
  if 6 * (k + zlen vs) / 8 <=? zlen out
  then exists s', b64_loop s (cs ++ rest) = b64_loop s' rest /\ decoding out (k + zlen vs) (spell x vs) false s'
  else exists o, b64_loop s (cs ++ rest) = Err o.
Proof.
  induction cs as [|c cs IH]; intros vs k x s Hm Hk Hx Hd.
  { injection Hm as <-. rewrite Z.add_0_r, (proj2 (Z.leb_le _ _)) by apply Hd. by exists s. }
  cbn in Hm. destruct (b64_val c) as [v|] eqn:Hv; [|done]. cbn in Hm.
  destruct (mapM b64_val cs) as [vs'|] eqn:Hm'; [|done]. injection Hm as <-.
  pose proof (b64_char_value out k x s c v Hk Hx Hd Hv) as Hc. pose proof (b64_val_range _ _ Hv).
  assert (E : k + zlen (v :: vs') = k + 1 + zlen vs') by (unfold zlen; cbn [length]; lia). rewrite E. cbn [app b64_loop].
  destruct (Z.leb_spec (6 * (k + 1) / 8) (zlen out)) as [Hle|Hgt].
  - destruct Hc as (s1 & -> & Hd1). cbn [mbind result_bind].
    apply (IH vs' (k + 1) (64 * x + v) s1 eq_refl); [lia|lia|done].
  - destruct Hc as (o & ->). cbn [mbind result_bind]. rewrite (proj2 (Z.leb_gt _ _)); [by exists o|].
    eapply Z.lt_le_trans; [exact Hgt|]. pose proof (zlen_nonneg vs'). apply Z.div_le_mono; lia.
Qed.

Lemma b64_pads m s : b64_loop s (replicate m PAD) =
  Ok (mkB64 (b_n s) (b_acc s) (b_bits s) (b_padded s || bool_decide (m <> 0%nat)) (b_out s)).
Proof.
  revert s. induction m as [|m IH]; intros s.
  - destruct s. cbn. by rewrite orb_false_r.
  - cbn [replicate b64_loop]. unfold b64_char. change (PAD =? 61) with true. cbn [mbind result_bind]. rewrite IH. cbn.
    by rewrite orb_true_r.
Qed.

Lemma b64_padded_rest rest s s' : b_padded s = true -> b64_loop s rest = Ok s' -> rest = replicate (length rest) PAD.
Proof.
  revert s. induction rest as [|c rest IH]; intros s Hp Hl; [done|]. cbn [b64_loop] in Hl. unfold b64_char in Hl.
  destruct (Z.eqb_spec c 61) as [->|Hne].
  - cbn [mbind result_bind] in Hl. cbn [length replicate]. f_equal. by eapply IH; [|exact Hl].
  - by rewrite Hp in Hl.
Qed.

Lemma split_text input : exists cs vs rest, input = cs ++ rest /\ mapM b64_val cs = Some vs /\
  (rest = [] \/ exists c r, rest = c :: r /\ b64_val c = None).
Proof.
  induction input as [|c input (cs & vs & rest & -> & Hm & Hr)]; [exists [], [], []; naive_solver|].
  destruct (b64_val c) as [v|] eqn:Hv.
  - exists (c :: cs), (v :: vs), rest. split; [done|]. split; [|done]. cbn. by rewrite Hv, Hm.
  - exists [], [], (c :: cs ++ rest). split; [done|]. split; [done|]. right. by exists c, (cs ++ rest).
Qed.

(** Characters, then padding. *)
Lemma b64_accepted out input s : b64_loop (mkB64 0 0 0 false out) input = Ok s ->
  exists cs vs m, input = cs ++ replicate m PAD /\ mapM b64_val cs = Some vs.
Proof.
  intros Hl. destruct (split_text input) as (cs & vs & rest & -> & Hm & Hr). exists cs, vs, (length rest).
  split; [|done]. f_equal. assert (Hd : decoding out 0 0 false (mkB64 0 0 0 false out)).
  { split; [apply zlen_nonneg|done]. }
  pose proof (b64_chars out rest cs vs 0 0 _ Hm ltac:(lia) ltac:(lia) Hd) as H.
  destruct (_ <=? _); [|destruct H as [o H]; congruence]. destruct H as (s1 & H & _ & Hs1). rewrite H in Hl.
  destruct Hr as [->|(c & r & -> & Hc)]; [done|]. cbn [b64_loop] in Hl. unfold b64_char in Hl.
  destruct (Z.eqb_spec c 61) as [->|Hne].
  - cbn [mbind result_bind] in Hl. cbn [length replicate]. f_equal. by eapply b64_padded_rest; [|exact Hl].
  - rewrite Hs1, Hc in Hl. done.
Qed.

Lemma decode64_text cs vs m out : mapM b64_val cs = Some vs ->
  let n := 6 * zlen vs / 8 in let r := 6 * zlen vs mod 8 in
  if n <=? zlen out
  then exists o, o = be_bytes (Z.to_nat n) (spell 0 vs / 2 ^ r) ++ drop (Z.to_nat n) out /\
    decode64 (cs ++ replicate m PAD) out = (if spell 0 vs mod 2 ^ r =? 0 then Some n else None, o)
  else exists o, decode64 (cs ++ replicate m PAD) out = (None, o).
Proof.
  intros Hm n r. assert (Hd : decoding out 0 0 false (mkB64 0 0 0 false out)).
  { split; [apply zlen_nonneg|done]. }
  pose proof (b64_chars out (replicate m PAD) cs vs 0 0 _ Hm ltac:(lia) ltac:(lia) Hd) as H.
  rewrite Z.add_0_l in H. fold n in H. destruct (n <=? zlen out).
  2: { destruct H as [o H]. exists o. unfold decode64. by rewrite H. }
  destruct H as (s1 & H & _ & Hs1). eexists. split; [done|]. unfold decode64. rewrite H, b64_pads, Hs1.
  cbn [b_bits b_acc b_n b_out]. fold n r. assert (Hr : 0 <= r < 8) by (apply Z.mod_pos_bound; lia).
  replace (wrap 32 (spell 0 vs) & (Z.shiftl 1 r - 1)) with (spell 0 vs mod 2 ^ r).
  - destruct (Z.ltb_spec 0 r) as [|]; [by destruct (_ =? 0)|].
    replace r with 0 by lia. by rewrite Z.mod_1_r.
  - rewrite Z.shiftl_1_l, <- Z.land_ones by lia. replace (2 ^ r - 1) with (Z.ones r) by (rewrite Z.ones_equiv; lia).
    apply Z.bits_inj'. intros i Hi. rewrite !Z.land_spec, wrap_testbit, Z.testbit_ones_nonneg by lia.
    destruct (Z.ltb_spec i r), (Z.ltb_spec i 32); try lia; btauto.
Qed.

(** The upload decoder accepts a line exactly when it is alphabet characters followed by padding whose
    leftover bits are zero and whose bytes fit, and then writes exactly the big-endian bytes the
    characters spell. *)
Theorem decode64_exact input out n out' :
  decode64 input out = (Some n, out') <->
  exists cs vs m, input = cs ++ replicate m PAD /\ mapM b64_val cs = Some vs /\
    n = 6 * zlen vs / 8 /\ n <= zlen out /\ spell 0 vs mod 2 ^ (6 * zlen vs mod 8) = 0 /\
    out' = be_bytes (Z.to_nat n) (spell 0 vs / 2 ^ (6 * zlen vs mod 8)) ++ drop (Z.to_nat n) out.
Proof.
  split.
  - intros Hd. assert (exists cs vs m, input = cs ++ replicate m PAD /\ mapM b64_val cs = Some vs) as (cs & vs & m & -> & Hm).
    { unfold decode64 in Hd. destruct (b64_loop _ _) as [s|o] eqn:Hl; [by eapply b64_accepted|done]. }
    exists cs, vs, m. split; [done|]. split; [done|]. pose proof (decode64_text cs vs m out Hm) as H. cbn zeta in H.
    destruct (Z.leb_spec (6 * zlen vs / 8) (zlen out)); [|destruct H as [o H]; congruence].
    destruct H as (o & Ho & H). rewrite H in Hd. destruct (Z.eqb_spec (spell 0 vs mod 2 ^ (6 * zlen vs mod 8)) 0); [|done].
    injection Hd as <- <-. done.
  - intros (cs & vs & m & -> & Hm & -> & Hn & Hz & ->). pose proof (decode64_text cs vs m out Hm) as H. cbn zeta in H.
    rewrite (proj2 (Z.leb_le _ _) Hn) in H. destruct H as (o & -> & ->). by rewrite Hz.
Qed.

(** A lone character is accepted and decodes to nothing. *)
Example b64_lone_character : decode64 [65] [9] = (Some 0, [9]).
Proof. reflexivity. Qed.
