(* ===== verification/EventLog.v ===== *)
(** * The event ledger (dezh-boot/src/audit.rs)

    A ring of the last 32 events, and the walk that explains denials.  The
    ring refines the unbounded log of everything recorded: it shows exactly the
    newest 32 entries of it, oldest first, and [why_denied] names the denials
    among them, newest first. *)

From Stdlib Require Import ZArith Lia String.
From stdpp Require Import base option strings numbers list.
From S2P Require Import Prelude Text.

Record EventEntry := mkEvent { ev_tick : Z; ev_actor : str; ev_action : str; ev_target : str; ev_result : str }.

Definition EMPTY_EVENT : EventEntry := mkEvent 0 [] [] [] [].
Definition EVENT_CAP : nat := 32.

Record EventRing := mkRing { EVENTS : list EventEntry; EVENT_NEXT : nat; EVENT_COUNT : nat }.

Definition ring_start : EventRing := mkRing (replicate EVENT_CAP EMPTY_EVENT) 0 0.

Definition record_event (e : EventEntry) (r : EventRing) : EventRing :=
  mkRing (<[EVENT_NEXT r := e]> (EVENTS r)) ((EVENT_NEXT r + 1) mod EVENT_CAP)
    (if (EVENT_COUNT r <? EVENT_CAP)%nat then (EVENT_COUNT r + 1)%nat else EVENT_COUNT r).

Definition events_from (r : EventRing) : nat := if (EVENT_COUNT r =? EVENT_CAP)%nat then EVENT_NEXT r else 0%nat.

Definition event_at (r : EventRing) (n : nat) : EventEntry :=
  default EMPTY_EVENT (EVENTS r !! ((events_from r + n) mod EVENT_CAP)%nat).

(** The rows [print_events] prints. *)
Definition print_events (r : EventRing) : list EventEntry := event_at r <$> seq 0 (EVENT_COUNT r).

Definition is_denial (result : str) : bool :=
  existsb (str_eqb result) [lit "DENIED"; lit "TRAP"; lit "fail"; lit "escaped"; lit "REVIEW_REQUIRED"; lit "CORRUPT"].

Inductive Boundary :=
| IntentCeiling | MissionAuthority | StorageCaps | ManifestGrants | KernelCaps | PolCaps | Containment | CapBoundary.

Definition has_prefix (p s : str) : bool := match strip_prefix p s with Some _ => true | None => false end.

Definition denial_boundary (action : str) : Boundary :=
  if has_prefix (lit "intent") action then IntentCeiling
  else if has_prefix (lit "sfar") action || has_prefix (lit "tbar") action then MissionAuthority
  else if has_prefix (lit "sand") action || has_prefix (lit "cairn") action then StorageCaps
  else if has_prefix (lit "pkg") action then ManifestGrants
  else if has_prefix (lit "cap") action || has_prefix (lit "mmio") action then KernelCaps
  else if has_prefix (lit "pol") action then PolCaps
  else if has_prefix (lit "redteam") action then Containment
  else CapBoundary.

(** The walk, newest first; [k] entries are left to look at. *)
Fixpoint denials_from (all : bool) (r : EventRing) (k : nat) : list (EventEntry * Boundary) :=
  match k with
  | O => []
  | S k =>
    let e := event_at r k in
    if negb (is_denial (ev_result e)) then denials_from all r k
    else (e, denial_boundary (ev_action e)) :: (if all then denials_from all r k else [])
  end.

Definition why_denied (arg : str) (r : EventRing) : list (EventEntry * Boundary) :=
  denials_from (str_eqb (trim arg) (lit "all")) r (EVENT_COUNT r).

(** ** The ring is a window on the log *)

Definition logged (log : list EventEntry) : EventRing := foldl (fun r e => record_event e r) ring_start log.

Definition newest (n : nat) {A} (l : list A) : list A := drop (length l - n) l.

Lemma logged_snoc log e : logged (log ++ [e]) = record_event e (logged log).
Proof. unfold logged. by rewrite foldl_app. Qed.

(** What the ring holds: position [k mod 32] has the [k]-th event, for the
    newest 32 of them. *)
Lemma logged_holds log :
  length (EVENTS (logged log)) = EVENT_CAP /\ EVENT_NEXT (logged log) = (length log mod EVENT_CAP)%nat /\
  EVENT_COUNT (logged log) = Nat.min (length log) EVENT_CAP /\
  forall k e, log !! k = Some e -> (length log <= k + EVENT_CAP)%nat ->
    EVENTS (logged log) !! (k mod EVENT_CAP)%nat = Some e.
Proof.
  induction log as [|x log (Hl & Hn & Hc & Hh)] using rev_ind; [done|].
  rewrite logged_snoc, length_app. cbn [length record_event EVENTS EVENT_NEXT EVENT_COUNT].
  assert (Hlt : (length log mod EVENT_CAP < EVENT_CAP)%nat) by by apply Nat.mod_upper_bound.
  split; [by rewrite length_insert|]. split; [|split].
  - rewrite Hn. by rewrite Nat.Div0.add_mod_idemp_l.
  - rewrite Hc. destruct (Nat.ltb_spec (Nat.min (length log) EVENT_CAP) EVENT_CAP); lia.
  - intros k e Hk Hw. rewrite Hn. apply lookup_app_Some in Hk as [Hk|[Hge Hk]].
    + pose proof (lookup_lt_Some _ _ _ Hk) as Hkl.
      rewrite list_lookup_insert_ne; [apply Hh; [done|lia]|]. intros E.
      assert (Hd : (length log = k + (length log - k))%nat) by lia. rewrite Hd in E.
      set (d := (length log - k)%nat) in *. assert (0 < d < EVENT_CAP)%nat by lia.
      pose proof (Nat.div_mod_eq k EVENT_CAP) as E1. pose proof (Nat.div_mod_eq (k + d) EVENT_CAP) as E2.
      rewrite E in E2. assert (EVENT_CAP * ((k + d) / EVENT_CAP) = EVENT_CAP * (k / EVENT_CAP) + d)%nat by lia.
      destruct (Nat.le_gt_cases ((k + d) / EVENT_CAP) (k / EVENT_CAP)); nia.
    + apply list_lookup_singleton_Some in Hk as [Hk <-]. assert (k = length log) as -> by lia.
      apply list_lookup_insert_eq. by rewrite Hl.
Qed.

Lemma event_at_logged log n e : newest EVENT_CAP log !! n = Some e -> event_at (logged log) n = e.
Proof.
  intros Hn. unfold newest in Hn. rewrite lookup_drop in Hn. destruct (logged_holds log) as (Hl & Hnx & Hc & Hh).
  unfold event_at, events_from. rewrite Hc, Hnx. pose proof (lookup_lt_Some _ _ _ Hn) as Hlt.
  destruct (Nat.eqb_spec (Nat.min (length log) EVENT_CAP) EVENT_CAP) as [E|E].
  - replace ((length log mod EVENT_CAP + n) mod EVENT_CAP)%nat with ((length log - EVENT_CAP + n) mod EVENT_CAP)%nat.
    + rewrite (Hh _ e Hn) by lia. done.
    + rewrite Nat.Div0.add_mod_idemp_l. replace (length log + n)%nat with (length log - EVENT_CAP + n + 1 * EVENT_CAP)%nat by lia.
      by rewrite Nat.Div0.mod_add.
  - replace (length log - EVENT_CAP + n)%nat with (0 + n)%nat in Hn by lia. rewrite (Hh _ e Hn) by (cbn; lia). done.
Qed.

Lemma ring_shows log : print_events (logged log) = newest EVENT_CAP log.
Proof.
  destruct (logged_holds log) as (_ & _ & Hc & _). unfold print_events. rewrite Hc.
  assert (Hlen : length (newest EVENT_CAP log) = Nat.min (length log) EVENT_CAP).
  { unfold newest. rewrite length_drop. lia. }
  apply list_eq. intros n. destruct (newest EVENT_CAP log !! n) as [e|] eqn:En.
  - rewrite list_lookup_fmap, lookup_seq_lt by (rewrite <- Hlen; by eapply lookup_lt_Some). cbn.
    f_equal. by apply event_at_logged.
  - apply lookup_ge_None in En. apply lookup_ge_None. rewrite length_fmap, length_seq. lia.
Qed.

Lemma denials_walk all r k :
  denials_from all r k =
  (if all then id else take 1) ((fun e => (e, denial_boundary (ev_action e))) <$>
     filter (fun e => is_denial (ev_result e) = true) (reverse (event_at r <$> seq 0 k))).
Proof.
  induction k as [|k IH]; [by destruct all|]. rewrite seq_S, fmap_app, reverse_app. cbn [fmap list_fmap reverse rev_append app denials_from].
  rewrite Nat.add_0_l. cbn [reverse]. change (reverse [event_at r k] ++ ?l) with (event_at r k :: l).
  rewrite filter_cons. destruct (is_denial (ev_result (event_at r k))) eqn:E; cbn [negb]; case_decide; try done.
  rewrite IH. by destruct all.
Qed.

(** After any history the event ring prints the last 32 events in order, and why-denied names the newest
    denial among them, or with all every one of them newest first, each with the boundary of its action. *)
Theorem ring_explains_the_latest_denials log arg :
  print_events (logged log) = newest EVENT_CAP log /\
  why_denied arg (logged log) =
    (if str_eqb (trim arg) (lit "all") then id else take 1)
      ((fun e => (e, denial_boundary (ev_action e))) <$>
         filter (fun e => is_denial (ev_result e) = true) (reverse (newest EVENT_CAP log))).
Proof.
  split; [apply ring_shows|]. unfold why_denied. rewrite denials_walk. f_equal. f_equal. f_equal. f_equal.
  apply ring_shows.
Qed.
