(* ===== verification/Dzp.v ===== *)
(** * The [.dzp] package format (dezh-core/src/dzp.rs)

    Header codec with its CRC-32, the [pack] encoder, the [parse] decoder
    with every refusal, and the manifest look-ups the kernel performs on an
    accepted package.  [parse] and [pack] run in [outcome]: an index out of
    bounds panics there as it does in the code. *)

From Stdlib Require Import ZArith Lia String.
From stdpp Require Import base option strings numbers list.
From S2P Require Import Prelude Text.

Definition DZP_MAGIC : list Z := [0x44; 0x5A; 0x50; 0x31].
Definition DZP_VERSION : Z := 1.
Definition HEADER_LEN : Z := 20.
Definition KIND_DEZH_IR : Z := 1.
Definition KIND_ELF_RISCV64 : Z := 2.

Inductive DzpError :=
| DzpTooShort
| DzpBadMagic
| DzpBadVersion
| DzpBadKind
| DzpTruncated
| DzpBadCrc
| ManifestNotUtf8.

#[export] Instance DzpError_eq_dec : EqDecision DzpError.
Proof. solve_decision. Defined.

Record Package := mkPackage {
  pkg_kind : Z;
  pkg_manifest : str;
  pkg_payload : list Z }.

Definition u16_at {E} (b : list Z) (o : Z) : outcome E Z :=
  b0 ← index b o; b1 ← index b (o + 1); mret (le_val [b0; b1]).

Definition u32_at {E} (b : list Z) (o : Z) : outcome E Z :=
  b0 ← index b o; b1 ← index b (o + 1); b2 ← index b (o + 2); b3 ← index b (o + 3);
  mret (le_val [b0; b1; b2; b3]).

(** ** CRC-32 *)

Definition CRC_POLY : Z := 0xEDB88320.

(** One turn of the inner loop: [mask = (crc & 1).wrapping_neg()] is all
    ones or zero. *)
Definition crc_bit (crc : Z) : Z :=
  let mask := wrap 32 (- (crc & 1)) in
  Z.lxor (Z.shiftr crc 1) (CRC_POLY & mask).

Definition crc_byte (crc byte : Z) : Z :=
  Nat.iter 8 crc_bit (Z.lxor crc byte).

Definition crc_part (crc : Z) (part : list Z) : Z := foldl crc_byte crc part.

Definition crc32 (parts : list (list Z)) : Z :=
  unot 32 (foldl crc_part 0xFFFFFFFF parts).

(** ** Encoding and decoding *)

Definition pack (kind : Z) (manifest : str) (payload out : list Z) : outcome Empty_set (list Z * Z) :=
  let m := utf8_encode manifest in
  let total := HEADER_LEN + zlen m + zlen payload in
  out ← sub_copy out 0 4 DZP_MAGIC;
  out ← sub_copy out 4 6 (le_bytes 2 DZP_VERSION);
  out ← sub_copy out 6 8 (le_bytes 2 kind);
  out ← sub_copy out 8 12 (le_bytes 4 (wrap 32 (zlen m)));
  out ← sub_copy out 12 16 (le_bytes 4 (wrap 32 (zlen payload)));
  out ← sub_copy out 16 20 (le_bytes 4 (crc32 [m; payload]));
  out ← sub_copy out HEADER_LEN (HEADER_LEN + zlen m) m;
  out ← sub_copy out (HEADER_LEN + zlen m) total payload;
  mret (out, total).

Definition parse (bytes : list Z) : outcome DzpError Package :=
  if zlen bytes <? HEADER_LEN then Trap DzpTooShort else
  magic ← sub bytes 0 4;
  if negb (bool_decide (magic = DZP_MAGIC)) then Trap DzpBadMagic else
  version ← u16_at bytes 4;
  if negb (version =? DZP_VERSION) then Trap DzpBadVersion else
  kind ← u16_at bytes 6;
  if negb (kind =? KIND_DEZH_IR) && negb (kind =? KIND_ELF_RISCV64) then Trap DzpBadKind else
  mlen ← u32_at bytes 8;
  plen ← u32_at bytes 12;
  match (t ← checked_add HEADER_LEN mlen; checked_add t plen) with
  | None => Trap DzpTruncated
  | Some total =>
    if negb (zlen bytes =? total) then Trap DzpTruncated else
    manifest_bytes ← sub bytes HEADER_LEN (HEADER_LEN + mlen);
    payload ← sub bytes (HEADER_LEN + mlen) (zlen bytes);
    crc ← u32_at bytes 16;
    if negb (crc =? crc32 [manifest_bytes; payload]) then Trap DzpBadCrc else
    match utf8_decode manifest_bytes with
    | None => Trap ManifestNotUtf8
    | Some manifest => mret (mkPackage kind manifest payload)
    end
  end.

(** ** Manifest look-ups *)

(** One manifest line as [key = value]: comments and lines without [=] are
    skipped. *)
Definition manifest_line (line : str) : option (str * str) :=
  let line := trim line in
  if starts_with 35 line then None
  else '(k, v) ← split_once 61 line; Some (trim k, trim v).

Fixpoint manifest_str_lines (ls : list str) (key : str) : option str :=
  match ls with
  | [] => None
  | line :: ls =>
    match manifest_line line with
    | None => manifest_str_lines ls key
    | Some (k, v) =>
      if str_eqb k key
      then inner ← strip_char_prefix 34 v; fst <$> split_once 34 inner
      else manifest_str_lines ls key
    end
  end.

Definition manifest_str (manifest key : str) : option str :=
  manifest_str_lines (lines manifest) key.

Fixpoint manifest_list_lines (ls : list str) (key : str) : str :=
  match ls with
  | [] => []
  | line :: ls =>
    match manifest_line line with
    | None => manifest_list_lines ls key
    | Some (k, v) =>
      if str_eqb k key
      then match strip_char_prefix 91 v ≫= strip_char_suffix 93 with
           | Some inner => inner
           | None => manifest_list_lines ls key
           end
      else manifest_list_lines ls key
    end
  end.

(** [ManifestList::next]: the next quoted item and the rest. *)
Definition manifest_next (rest : str) : option (str * str) :=
  '(_, after) ← split_once 34 rest; split_once 34 after.

(** The items a [for] loop over the iterator sees. *)
Fixpoint manifest_items (n : nat) (rest : str) : list str :=
  match n with
  | O => []
  | S n => match manifest_next rest with
           | None => []
           | Some (item, rest) => item :: manifest_items n rest
           end
  end.

Definition manifest_list (manifest key : str) : list str :=
  let rest := manifest_list_lines (lines manifest) key in
  manifest_items (length rest) rest.

(** ** The CRC *)

Lemma crc_bit_fits c : fits 32 c -> fits 32 (crc_bit c).
Proof.
  intros Hc. unfold crc_bit. apply fits_intro; [lia| |].
  - apply Z.lxor_nonneg. split; intros _.
    + apply Z.land_nonneg. left. unfold CRC_POLY. lia.
    + apply Z.shiftr_nonneg. by destruct Hc.
  - intros i Hi. rewrite Z.lxor_spec, Z.land_spec, Z.shiftr_spec by lia.
    rewrite (fits_testbit_high 32 c), (fits_testbit_high 32 CRC_POLY); done || lia.
Qed.

Lemma lxor_fits w x y : 0 <= w -> fits w x -> fits w y -> fits w (Z.lxor x y).
Proof.
  intros Hw Hx Hy. apply fits_intro; [done| |].
  - apply Z.lxor_nonneg. destruct Hx, Hy. lia.
  - intros i Hi. by rewrite Z.lxor_spec, (fits_testbit_high w x), (fits_testbit_high w y) by (done || lia).
Qed.

Lemma crc_byte_fits c b : fits 32 c -> fits 8 b -> fits 32 (crc_byte c b).
Proof.
  intros Hc Hb. unfold crc_byte.
  assert (H : fits 32 (Z.lxor c b)) by (apply lxor_fits; [lia|done|eapply fits_mono, Hb; lia]).
  revert H. generalize (Z.lxor c b). generalize 8%nat. intros n x Hx.
  induction n; simpl; [done|by apply crc_bit_fits].
Qed.

Lemma crc_part_fits p c : fits 32 c -> bytes_ok p -> fits 32 (crc_part c p).
Proof.
  intros Hc Hp. revert c Hc. induction Hp as [|b p Hb Hp IH]; intros c Hc; [done|].
  simpl. apply IH. by apply crc_byte_fits.
Qed.

Lemma unot_fits w x : 0 <= w -> fits w x -> fits w (unot w x).
Proof.
  intros. unfold unot. apply lxor_fits; [done| |done].
  rewrite Z.ones_equiv. assert (0 < 2 ^ w) by (apply Z.pow_pos_nonneg; lia). unfold fits. lia.
Qed.

Lemma crc32_fits parts : Forall bytes_ok parts -> fits 32 (crc32 parts).
Proof.
  intros Hp. unfold crc32. apply unot_fits; [lia|].
  assert (H : fits 32 0xFFFFFFFF) by done. revert H. generalize 0xFFFFFFFF.
  induction Hp as [|p ps Hp Hps IH]; intros c Hc; [done|].
  simpl. apply IH. by apply crc_part_fits.
Qed.

Lemma land_one c : c & 1 = if Z.testbit c 0 then 1 else 0.
Proof. exact (land_bit c 0 ltac:(lia)). Qed.

(** The polynomial's top bit is set, so the shifted-out bit can be read back
    from bit 31: one turn of the loop loses nothing. *)
Lemma crc_bit_top c : fits 32 c -> Z.testbit (crc_bit c) 31 = Z.testbit c 0.
Proof.
  intros Hc. unfold crc_bit. rewrite Z.lxor_spec, Z.land_spec, Z.shiftr_spec by lia.
  change (31 + 1) with 32. rewrite (fits_testbit_high 32 c 32), land_one by (done || lia).
  by destruct (Z.testbit c 0).
Qed.

Lemma crc_bit_inj a b : fits 32 a -> fits 32 b -> crc_bit a = crc_bit b -> a = b.
Proof.
  intros Ha Hb E.
  assert (E0 : Z.testbit a 0 = Z.testbit b 0) by (by rewrite <- !crc_bit_top, E).
  assert (Es : Z.shiftr a 1 = Z.shiftr b 1).
  { unfold crc_bit in E. rewrite !land_one, E0 in E.
    apply (f_equal (fun z => Z.lxor z (CRC_POLY & wrap 32 (- (if Z.testbit b 0 then 1 else 0))))) in E.
    by rewrite !Z.lxor_assoc, !Z.lxor_nilpotent, !Z.lxor_0_r in E. }
  apply Z.bits_inj'. intros i Hi. destruct (decide (i = 0)) as [->|Hne]; [done|].
  replace i with (i - 1 + 1) by lia. rewrite <- !Z.shiftr_spec by lia. by rewrite Es.
Qed.

Lemma crc_iter_fits n u : fits 32 u -> fits 32 (Nat.iter n crc_bit u).
Proof. induction n; simpl; intros; [done|]. apply crc_bit_fits; auto. Qed.

Lemma crc_iter_inj n u v : fits 32 u -> fits 32 v ->
  Nat.iter n crc_bit u = Nat.iter n crc_bit v -> u = v.
Proof.
  intros Hu Hv. induction n; simpl; [done|]. intros E.
  apply crc_bit_inj in E; auto using crc_iter_fits.
Qed.

Lemma lxor_cancel_r x y z : Z.lxor x z = Z.lxor y z -> x = y.
Proof.
  intros E. apply (f_equal (fun t => Z.lxor t z)) in E.
  by rewrite !Z.lxor_assoc, !Z.lxor_nilpotent, !Z.lxor_0_r in E.
Qed.

Lemma crc_byte_unfold c b : crc_byte c b = Nat.iter 8 crc_bit (Z.lxor c b).
Proof. reflexivity. Qed.

(** A byte step is injective in the running value and in the byte. *)
Lemma crc_byte_inj_state a b x : fits 32 a -> fits 32 b -> fits 8 x ->
  crc_byte a x = crc_byte b x -> a = b.
Proof.
  intros Ha Hb Hx E. assert (fits 32 x) by (eapply fits_mono, Hx; lia).
  rewrite !crc_byte_unfold in E. apply (crc_iter_inj 8) in E; [|apply lxor_fits; done || lia..]. by apply lxor_cancel_r in E.
Qed.

Lemma crc_byte_inj_byte a x y : fits 32 a -> fits 8 x -> fits 8 y ->
  crc_byte a x = crc_byte a y -> x = y.
Proof.
  intros Ha Hx Hy E.
  assert (fits 32 x) by (eapply fits_mono, Hx; lia).
  assert (fits 32 y) by (eapply fits_mono, Hy; lia).
  rewrite !crc_byte_unfold in E. apply (crc_iter_inj 8) in E; [|apply lxor_fits; done || lia..].
  rewrite !(Z.lxor_comm a) in E. by apply lxor_cancel_r in E.
Qed.

Lemma crc_part_inj p a b : bytes_ok p -> fits 32 a -> fits 32 b ->
  crc_part a p = crc_part b p -> a = b.
Proof.
  intros Hp. revert a b. induction Hp as [|x p Hx Hp IH]; intros a b Ha Hb E; [done|].
  simpl in E. apply IH in E; auto using crc_byte_fits. by apply crc_byte_inj_state in E.
Qed.

(** How the input is cut into parts does not matter. *)
Lemma crc_parts_concat parts c : foldl crc_part c parts = crc_part c (concat parts).
Proof.
  revert c. induction parts as [|p ps IH]; intros c; simpl; [done|].
  rewrite IH. unfold crc_part. by rewrite foldl_app.
Qed.

Lemma crc32_concat parts : crc32 parts = crc32 [concat parts].
Proof. unfold crc32. rewrite !crc_parts_concat. simpl. by rewrite app_nil_r. Qed.

Lemma unot_inj w x y : unot w x = unot w y -> x = y.
Proof. unfold unot. rewrite !(Z.lxor_comm (Z.ones w)). apply lxor_cancel_r. Qed.

(** Corrupting one byte (any of its bits) changes the CRC. *)
Lemma crc32_one_byte l x y r :
  bytes_ok l -> bytes_ok r -> fits 8 x -> fits 8 y ->
  crc32 [l ++ x :: r] = crc32 [l ++ y :: r] -> x = y.
Proof.
  intros Hl Hr Hx Hy E. unfold crc32 in E. apply unot_inj in E. simpl in E.
  unfold crc_part in E. rewrite !foldl_app in E. simpl in E.
  assert (Hs : fits 32 (crc_part 0xFFFFFFFF l)) by (by apply crc_part_fits).
  apply crc_part_inj in E; auto using crc_byte_fits.
  by apply crc_byte_inj_byte in E.
Qed.

(** ** Field access on a laid-out buffer *)

Lemma index_app_r {E A} (l1 l2 : list A) k :
  0 <= k -> index (E:=E) (l1 ++ l2) (zlen l1 + k) = index l2 k.
Proof.
  unfold zlen. intros Hk. unfold index. rewrite !(proj2 (Z.leb_le _ _)) by lia.
  rewrite lookup_app_r by lia.
  by replace (Z.to_nat (Z.of_nat (length l1) + k) - length l1)%nat with (Z.to_nat k) by lia.
Qed.

Lemma u16_at_app {E} (l1 l2 : list Z) v o :
  o = zlen l1 -> fits 16 v -> u16_at (E:=E) (l1 ++ le_bytes 2 v ++ l2) o = Ret v.
Proof.
  intros -> Hv. unfold u16_at. rewrite <- (Z.add_0_r (zlen l1)) at 1.
  rewrite !index_app_r by lia. exact (f_equal Ret (le_val_le_bytes 2 v Hv)).
Qed.

Lemma u32_at_app {E} (l1 l2 : list Z) v o :
  o = zlen l1 -> fits 32 v -> u32_at (E:=E) (l1 ++ le_bytes 4 v ++ l2) o = Ret v.
Proof.
  intros -> Hv. unfold u32_at. rewrite <- (Z.add_0_r (zlen l1)) at 1.
  rewrite !index_app_r by lia. exact (f_equal Ret (le_val_le_bytes 4 v Hv)).
Qed.

(** The bytes [pack] lays down. *)
Definition dzp_bytes (kind : Z) (m payload : list Z) : list Z :=
  DZP_MAGIC ++ le_bytes 2 DZP_VERSION ++ le_bytes 2 kind ++ le_bytes 4 (wrap 32 (zlen m)) ++
  le_bytes 4 (wrap 32 (zlen payload)) ++ le_bytes 4 (crc32 [m; payload]) ++ m ++ payload.

Lemma zlen_le_bytes n v : zlen (le_bytes n v) = Z.of_nat n.
Proof. unfold zlen. by rewrite length_le_bytes. Qed.

Lemma zlen_dzp_bytes kind m payload :
  zlen (dzp_bytes kind m payload) = HEADER_LEN + zlen m + zlen payload.
Proof.
  unfold dzp_bytes. rewrite !zlen_app, !zlen_le_bytes. change (zlen DZP_MAGIC) with 4.
  unfold HEADER_LEN. lia.
Qed.

(** [pack] writes exactly these bytes at the front of a large enough buffer. *)
Lemma pack_spec kind manifest payload out :
  let m := utf8_encode manifest in
  HEADER_LEN + zlen m + zlen payload <= zlen out ->
  pack kind manifest payload out =
    Ret (dzp_bytes kind m payload ++ drop (length (dzp_bytes kind m payload)) out,
         HEADER_LEN + zlen m + zlen payload).
Proof.
  intros m Hout. unfold pack. fold m. unfold HEADER_LEN, zlen in *.
  set (tl := drop (length (dzp_bytes kind m payload)) out). change out with ([] ++ out) at 1.
  repeat (rewrite sub_copy_app;
    [cbn [mbind outcome_bind]
    |unfold zlen; rewrite ?length_app, ?length_le_bytes; cbn [length DZP_MAGIC]; lia..
    |unfold zlen; rewrite ?length_drop, ?length_le_bytes; cbn [length DZP_MAGIC]; lia]).
  unfold mret, outcome_ret, tl, dzp_bytes. do 2 f_equal.
  rewrite !drop_drop, !length_le_bytes, <- !app_assoc, !length_app, !length_le_bytes.
  done.
Qed.

Lemma wrap32_zlen {A} (l : list A) : zlen l < 2 ^ 32 -> wrap 32 (zlen l) = zlen l.
Proof. intros. apply wrap_small. split; [apply zlen_nonneg|done]. Qed.

(** A package image with the header fields laid out in order. *)
Definition dzp_layout (kind ml pl c : Z) (rest : list Z) : list Z :=
  DZP_MAGIC ++ le_bytes 2 DZP_VERSION ++ le_bytes 2 kind ++ le_bytes 4 ml ++
  le_bytes 4 pl ++ le_bytes 4 c ++ rest.

Lemma dzp_layout_fields {E} kind ml pl c rest :
  fits 16 kind -> fits 32 ml -> fits 32 pl -> fits 32 c ->
  let b := dzp_layout kind ml pl c rest in
  sub (E:=E) b 0 4 = Ret DZP_MAGIC /\ u16_at (E:=E) b 4 = Ret DZP_VERSION /\
  u16_at (E:=E) b 6 = Ret kind /\ u32_at (E:=E) b 8 = Ret ml /\
  u32_at (E:=E) b 12 = Ret pl /\ u32_at (E:=E) b 16 = Ret c.
Proof.
  intros Hk Hm Hp Hc b. unfold b, dzp_layout. split_and!.
  - by apply (sub_app [] DZP_MAGIC).
  - by apply u16_at_app.
  - rewrite (app_assoc DZP_MAGIC). by apply u16_at_app.
  - rewrite (app_assoc DZP_MAGIC), (app_assoc (_ ++ _)). by apply u32_at_app.
  - rewrite (app_assoc DZP_MAGIC), 2!(app_assoc (_ ++ _)). by apply u32_at_app.
  - rewrite (app_assoc DZP_MAGIC), 3!(app_assoc (_ ++ _)). by apply u32_at_app.
Qed.

Lemma zlen_dzp_layout kind ml pl c rest :
  zlen (dzp_layout kind ml pl c rest) = HEADER_LEN + zlen rest.
Proof.
  unfold dzp_layout. rewrite !zlen_app, !zlen_le_bytes. change (zlen DZP_MAGIC) with 4.
  unfold HEADER_LEN. lia.
Qed.

Lemma dzp_layout_rest {E} kind ml pl c (x y z : list Z) a b :
  a = HEADER_LEN + zlen x -> b = a + zlen y ->
  sub (E:=E) (dzp_layout kind ml pl c (x ++ y ++ z)) a b = Ret y.
Proof.
  intros -> ->. unfold dzp_layout. rewrite !app_assoc, <- (app_assoc _ y z). apply sub_app; [|done].
  rewrite !zlen_app, !zlen_le_bytes. unfold HEADER_LEN. change (zlen DZP_MAGIC) with 4. lia.
Qed.

(** What [parse] computes on a well-formed header over arbitrary manifest
    bytes: only the kind, the CRC and the UTF-8 check are left to decide. *)
Lemma parse_laid_out kind m payload c :
  fits 16 kind -> zlen m < 2 ^ 32 -> zlen payload < 2 ^ 32 -> fits 32 c ->
  parse (dzp_layout kind (zlen m) (zlen payload) c (m ++ payload)) =
  if negb (kind =? KIND_DEZH_IR) && negb (kind =? KIND_ELF_RISCV64) then Trap DzpBadKind else
  if negb (c =? crc32 [m; payload]) then Trap DzpBadCrc else
  match utf8_decode m with
  | None => Trap ManifestNotUtf8
  | Some manifest => Ret (mkPackage kind manifest payload)
  end.
Proof.
  intros Hk Hm Hp Hc.
  pose proof (zlen_nonneg m) as Hm0. pose proof (zlen_nonneg payload) as Hp0.
  set (bytes := dzp_layout _ _ _ _ _).
  destruct (dzp_layout_fields (E:=DzpError) kind (zlen m) (zlen payload) c (m ++ payload))
    as (F0 & F4 & F6 & F8 & F12 & F16); try done.
  fold bytes in F0, F4, F6, F8, F12, F16.
  assert (Hlen : zlen bytes = HEADER_LEN + zlen m + zlen payload).
  { unfold bytes. rewrite zlen_dzp_layout, zlen_app. lia. }
  assert (Fm : sub (E:=DzpError) bytes HEADER_LEN (HEADER_LEN + zlen m) = Ret m).
  { unfold bytes. apply (dzp_layout_rest _ _ _ _ []); simpl; done. }
  assert (Fp : sub (E:=DzpError) bytes (HEADER_LEN + zlen m) (zlen bytes) = Ret payload).
  { rewrite Hlen. unfold bytes. rewrite <- (app_nil_r (m ++ payload)), <- app_assoc.
    by apply dzp_layout_rest. }
  assert (Hadd : (t ← checked_add HEADER_LEN (zlen m); checked_add t (zlen payload))
                 = Some (HEADER_LEN + zlen m + zlen payload)).
  { unfold checked_add. unfold HEADER_LEN in *. cbn -[Z.ltb Z.add].
    rewrite (proj2 (Z.ltb_lt _ _)) by lia. cbn -[Z.ltb Z.add].
    by rewrite (proj2 (Z.ltb_lt _ _)) by lia. }
  unfold parse. rewrite (proj2 (Z.ltb_ge _ _)) by (rewrite Hlen; unfold HEADER_LEN; lia).
  rewrite F0; cbn [mbind outcome_bind]. rewrite bool_decide_true by done; cbn [negb].
  rewrite F4; cbn [mbind outcome_bind]. rewrite Z.eqb_refl; cbn [negb].
  rewrite F6; cbn [mbind outcome_bind]. destruct (negb _ && negb _); [done|].
  rewrite F8; cbn [mbind outcome_bind]. rewrite F12; cbn [mbind outcome_bind].
  rewrite Hadd, Fm, Fp, F16, Hlen, Z.eqb_refl. done.
Qed.

Lemma dzp_bytes_layout kind m payload :
  zlen m < 2 ^ 32 -> zlen payload < 2 ^ 32 ->
  dzp_bytes kind m payload =
  dzp_layout kind (zlen m) (zlen payload) (crc32 [m; payload]) (m ++ payload).
Proof. intros. unfold dzp_bytes. by rewrite !wrap32_zlen. Qed.

(** The image [pack] produced, as the caller cuts it out of the buffer. *)
Definition packed (kind : Z) (manifest : str) (payload out : list Z) : outcome Empty_set (list Z) :=
  '(out, n) ← pack kind manifest payload out; sub out 0 n.

Lemma packed_spec kind manifest payload out :
  HEADER_LEN + zlen (utf8_encode manifest) + zlen payload <= zlen out ->
  packed kind manifest payload out = Ret (dzp_bytes kind (utf8_encode manifest) payload).
Proof.
  intros Hout. unfold packed. rewrite pack_spec by done. cbn [mbind outcome_bind].
  apply (sub_app [] (dzp_bytes _ _ _)); [done|]. by rewrite zlen_dzp_bytes.
Qed.

Definition known_kind (kind : Z) : bool := (kind =? KIND_DEZH_IR) || (kind =? KIND_ELF_RISCV64).
Lemma unknown_kind kind : negb (kind =? KIND_DEZH_IR) && negb (kind =? KIND_ELF_RISCV64) = negb (known_kind kind).
Proof. unfold known_kind. by rewrite negb_orb. Qed.

Section Roundtrip.
Context (kind : Z) (manifest : str) (payload out : list Z).
Hypothesis Hkind : fits 16 kind.
Hypothesis Hvalid : valid_str manifest.
Hypothesis Hpayload : bytes_ok payload.
Hypothesis Hm32 : zlen (utf8_encode manifest) < 2 ^ 32.
Hypothesis Hp32 : zlen payload < 2 ^ 32.
Hypothesis Hout : HEADER_LEN + zlen (utf8_encode manifest) + zlen payload <= zlen out.

Lemma body_bytes_ok : bytes_ok (utf8_encode manifest ++ payload).
Proof. apply Forall_app. split; [by apply utf8_encode_bytes|done]. Qed.

Lemma body_crc_fits : fits 32 (crc32 [utf8_encode manifest; payload]).
Proof. apply crc32_fits. repeat constructor; [by apply utf8_encode_bytes|done]. Qed.

(** C37: Packing a manifest and a payload, each shorter than 2^32 bytes, under any 16-bit kind into a
    large enough buffer and parsing the image gives them back when the kind is one of the two known
    ones, and fails with BadKind otherwise. *)
Theorem dzp_roundtrip :
  (image ← packed kind manifest payload out; Ret (parse image)) =
  Ret (if known_kind kind then Ret (mkPackage kind manifest payload) else Trap DzpBadKind).
Proof.
  rewrite packed_spec by done. cbn [mbind outcome_bind]. f_equal.
  rewrite dzp_bytes_layout, parse_laid_out by (done || apply body_crc_fits).
  rewrite unknown_kind. destruct (known_kind kind); cbn [negb]; [|done]. by rewrite Z.eqb_refl, utf8_decode_encode.
Qed.

(** C38: Changing any one byte of the manifest or payload (each shorter than 2^32 bytes) of an image
    packed under any 16-bit kind, in any way, makes parsing fail: with BadCrc when the kind is known,
    with BadKind otherwise. *)
Theorem dzp_one_byte_corruption_refused i x y :
  (utf8_encode manifest ++ payload) !! i = Some x -> fits 8 y -> y <> x ->
  (image ← packed kind manifest payload out;
   Ret (parse (<[(Z.to_nat HEADER_LEN + i)%nat := y]> image))) =
  Ret (Trap (if known_kind kind then DzpBadCrc else DzpBadKind)).
Proof.
  intros Hi Hy Hne. rewrite packed_spec by done. cbn [mbind outcome_bind]. f_equal.
  rewrite dzp_bytes_layout by done. set (m := utf8_encode manifest) in *.
  assert (Hins : <[(Z.to_nat HEADER_LEN + i)%nat := y]>
      (dzp_layout kind (zlen m) (zlen payload) (crc32 [m; payload]) (m ++ payload)) =
      dzp_layout kind (zlen m) (zlen payload) (crc32 [m; payload]) (<[i := y]> (m ++ payload))).
  { unfold dzp_layout. change (Z.to_nat HEADER_LEN) with 20%nat.
    repeat (rewrite insert_app_r_alt by (rewrite ?length_le_bytes; cbn; lia)).
    rewrite !length_le_bytes. cbn [length DZP_MAGIC]. do 7 f_equal. lia. }
  rewrite Hins. set (b := <[i := y]> (m ++ payload)).
  assert (Hb : b = take (length m) b ++ drop (length m) b) by (by rewrite take_drop).
  assert (Hlb : length b = (length m + length payload)%nat) by (unfold b; rewrite length_insert, length_app; done).
  assert (zlen m = zlen (take (length m) b)) as Em by (unfold zlen; rewrite length_take; lia).
  assert (zlen payload = zlen (drop (length m) b)) as Ep by (unfold zlen; rewrite length_drop; lia).
  rewrite Hb, Em, Ep. rewrite Em in Hm32. rewrite Ep in Hp32.
  rewrite parse_laid_out by (done || apply body_crc_fits).
  rewrite unknown_kind. destruct (known_kind kind); cbn [negb]; [|done]. destruct (Z.eqb_spec (crc32 [m; payload]) (crc32 [take (length m) b; drop (length m) b])) as [E|]; [|done].
  exfalso. apply Hne. rewrite (crc32_concat [m; _]), (crc32_concat [take _ _; _]) in E. simpl in E.
  rewrite !app_nil_r, take_drop in E. unfold b in E.
  rewrite insert_take_drop in E by (by eapply lookup_lt_Some).
  rewrite <- (take_drop_middle _ _ _ Hi) in E at 1.
  pose proof body_bytes_ok as Hok.
  apply crc32_one_byte in E; [done|by apply Forall_take|by apply Forall_drop| |done].
  exact (Forall_lookup_1 _ _ _ _ Hok Hi).
Qed.

End Roundtrip.

(** ** Every image *)

Lemma u16_at_range {E} b o : bytes_ok b -> 0 <= o -> o + 2 <= zlen b ->
  exists v, u16_at (E:=E) b o = Ret v /\ fits 16 v /\ slice b (Z.to_nat o) 2 = le_bytes 2 v.
Proof.
  intros Hb H0 H1.
  destruct (index_in_range (E:=E) b o) as (b0 & E0 & L0); [lia|].
  destruct (index_in_range (E:=E) b (o + 1)) as (b1 & E1 & L1); [lia|].
  assert (Hok : bytes_ok [b0; b1]) by (repeat (apply Forall_cons_2; [by eapply Forall_lookup_1|]); apply Forall_nil_2).
  exists (le_val [b0; b1]). unfold u16_at. rewrite E0; cbn [mbind outcome_bind].
  rewrite E1; cbn [mbind outcome_bind]. split; [done|]. split.
  - exact (le_val_fits _ Hok).
  - rewrite (le_bytes_le_val _ Hok : le_bytes 2 _ = _). unfold slice.
    rewrite (drop_S _ _ _ L0), (drop_S _ b1); [done|]. rewrite <- L1. f_equal. lia.
Qed.

Lemma u32_at_range {E} b o : bytes_ok b -> 0 <= o -> o + 4 <= zlen b ->
  exists v, u32_at (E:=E) b o = Ret v /\ fits 32 v /\ slice b (Z.to_nat o) 4 = le_bytes 4 v.
Proof.
  intros Hb H0 H1.
  destruct (index_in_range (E:=E) b o) as (b0 & E0 & L0); [lia|].
  destruct (index_in_range (E:=E) b (o + 1)) as (b1 & E1 & L1); [lia|].
  destruct (index_in_range (E:=E) b (o + 2)) as (b2 & E2 & L2); [lia|].
  destruct (index_in_range (E:=E) b (o + 3)) as (b3 & E3 & L3); [lia|].
  assert (Hok : bytes_ok [b0; b1; b2; b3]) by (repeat (apply Forall_cons_2; [by eapply Forall_lookup_1|]); apply Forall_nil_2).
  exists (le_val [b0; b1; b2; b3]). unfold u32_at. rewrite E0; cbn [mbind outcome_bind].
  rewrite E1; cbn [mbind outcome_bind]. rewrite E2; cbn [mbind outcome_bind].
  rewrite E3; cbn [mbind outcome_bind]. split; [done|]. split.
  - exact (le_val_fits _ Hok).
  - rewrite (le_bytes_le_val _ Hok : le_bytes 4 _ = _). unfold slice.
    rewrite (drop_S _ _ _ L0), (drop_S _ b1), (drop_S _ b2), (drop_S _ b3); [done|..];
      [rewrite <- L3|rewrite <- L2|rewrite <- L1]; f_equal; lia.
Qed.

(** An image is the concatenation of its header fields and its body. *)
Lemma dzp_image_split (b : list Z) : HEADER_LEN <= zlen b ->
  b = slice b 0 4 ++ slice b 4 2 ++ slice b 6 2 ++ slice b 8 4 ++ slice b 12 4 ++ slice b 16 4 ++ drop 20 b.
Proof.
  unfold HEADER_LEN, zlen. intros Hl.
  do 20 (destruct b as [|? b]; [simpl in Hl; lia|]). done.
Qed.

(** The decision [parse] takes on an arbitrary image: it never panics, and it
    accepts exactly the canonical encodings. *)
Lemma parse_cases b : bytes_ok b ->
  (exists e, parse b = Trap e) \/
  (exists kind m manifest payload,
     parse b = Ret (mkPackage kind manifest payload) /\ utf8_decode m = Some manifest /\
     b = dzp_bytes kind m payload).
Proof.
  intros Hb. unfold parse. destruct (Z.ltb_spec (zlen b) HEADER_LEN) as [|Hlen]; [eauto|].
  pose proof Hlen as Hlen'. unfold HEADER_LEN in Hlen'.
  destruct (u16_at_range (E:=DzpError) b 4 Hb) as (v & Ev & _ & Sv); [lia..|].
  destruct (u16_at_range (E:=DzpError) b 6 Hb) as (kind & Ek & _ & Sk); [lia..|].
  destruct (u32_at_range (E:=DzpError) b 8 Hb) as (ml & Em & Fm & Sm); [lia..|].
  destruct (u32_at_range (E:=DzpError) b 12 Hb) as (pl & Ep & Fp & Sp); [lia..|].
  destruct (u32_at_range (E:=DzpError) b 16 Hb) as (c & Ec & _ & Sc); [lia..|].
  rewrite (sub_in_range b 0 4) by lia. cbn [mbind outcome_bind].
  case_bool_decide as Hmg; cbn [negb]; [|eauto].
  rewrite Ev; cbn [mbind outcome_bind]. destruct (Z.eqb_spec v DZP_VERSION) as [->|]; cbn [negb]; [|eauto].
  rewrite Ek; cbn [mbind outcome_bind]. destruct (negb _ && negb _); [eauto|].
  rewrite Em; cbn [mbind outcome_bind]. rewrite Ep; cbn [mbind outcome_bind].
  unfold fits in Fm, Fp. unfold checked_add. unfold HEADER_LEN.
  rewrite (proj2 (Z.ltb_lt (20 + ml) _)) by lia. cbn [mbind option_bind].
  rewrite (proj2 (Z.ltb_lt _ _)) by lia.
  destruct (Z.eqb_spec (zlen b) (20 + ml + pl)) as [Hl|]; cbn [negb]; [|eauto].
  rewrite !sub_in_range by lia. cbn [mbind outcome_bind].
  rewrite Ec; cbn [mbind outcome_bind].
  set (m := slice b _ (Z.to_nat (20 + ml - 20))). set (p := slice b _ _).
  destruct (Z.eqb_spec c (crc32 [m; p])) as [->|]; cbn [negb]; [|eauto].
  destruct (utf8_decode m) as [s|] eqn:Es; [|eauto]. right. exists kind, m, s, p.
  split; [done|]. split; [done|].
  assert (Hm : zlen m = ml) by (unfold m, zlen in *; rewrite length_slice; lia).
  assert (Hp : zlen p = pl) by (unfold p, zlen in *; rewrite length_slice; lia).
  unfold dzp_bytes. rewrite Hm, Hp, (wrap_small 32 ml), (wrap_small 32 pl) by (unfold fits; lia).
  rewrite (dzp_image_split b) at 1 by done.
  change (slice b 0 4 = DZP_MAGIC) in Hmg. change (slice b 4 2 = le_bytes 2 DZP_VERSION) in Sv.
  change (slice b 6 2 = le_bytes 2 kind) in Sk. change (slice b 8 4 = le_bytes 4 ml) in Sm.
  change (slice b 12 4 = le_bytes 4 pl) in Sp. change (slice b 16 4 = le_bytes 4 (crc32 [m; p])) in Sc.
  rewrite Hmg, Sv, Sk, Sm, Sp, Sc.
  do 6 f_equal. unfold m, p, slice. replace (Z.to_nat (20 + ml)) with (20 + Z.to_nat ml)%nat by lia.
  rewrite <- drop_drop. replace (Z.to_nat (20 + ml - 20)) with (Z.to_nat ml) by lia.
  change (Z.to_nat 20) with 20%nat.
  rewrite (take_ge (drop (Z.to_nat ml) _)); [by rewrite take_drop|].
  rewrite !length_drop. unfold zlen in *. lia.
Qed.

(** The package parser never indexes out of bounds and never overflows, whatever bytes it is given. *)
Theorem dzp_parse_never_panics b : bytes_ok b -> parse b <> Panic.
Proof.
  intros Hb. destruct (parse_cases b Hb) as [[e ->]|(kind & m & s & p & -> & _)]; done.
Qed.

(** Every image the parser accepts is, byte for byte, the packed form of what it returns: there is one
    encoding of a package. *)
Theorem dzp_parse_canonical b kind manifest payload : bytes_ok b ->
  parse b = Ret (mkPackage kind manifest payload) ->
  exists m, utf8_decode m = Some manifest /\ b = dzp_bytes kind m payload.
Proof.
  intros Hb Hp. destruct (parse_cases b Hb) as [[e He]|(k & m & s & p & E & Hm & Eb)]; [congruence|].
  exists m. rewrite Hp in E. simplify_eq. done.
Qed.

(** ** A concrete package *)

Definition demo_manifest : str := lit "name=demo".
Definition demo_payload : list Z := [1; 2; 3].
Definition demo_out : list Z := replicate 64 0.

Lemma demo_manifest_valid : valid_str demo_manifest.
Proof. repeat constructor. Qed.

Lemma dzp_roundtrip_witness :
  (image ← packed KIND_DEZH_IR demo_manifest demo_payload demo_out; Ret (parse image)) =
  Ret (Ret (mkPackage KIND_DEZH_IR demo_manifest demo_payload)).
Proof.
  apply dzp_roundtrip; [done|apply demo_manifest_valid|by apply bytes_okb_spec|done..].
Defined.

Lemma dzp_one_byte_corruption_refused_witness :
  (image ← packed KIND_DEZH_IR demo_manifest demo_payload demo_out;
   Ret (parse (<[(Z.to_nat HEADER_LEN + 9)%nat := 7]> image))) = Ret (Trap DzpBadCrc).
Proof.
  apply (dzp_one_byte_corruption_refused KIND_DEZH_IR demo_manifest demo_payload demo_out) with (x := 1);
    [done|apply demo_manifest_valid|by apply bytes_okb_spec|done..].
Defined.

Lemma dzp_parse_never_panics_witness : parse [0x44; 0x5a; 0x50] <> Panic.
Proof. apply dzp_parse_never_panics. by apply bytes_okb_spec. Defined.

Definition demo_image : list Z := Eval vm_compute in dzp_bytes KIND_DEZH_IR (utf8_encode demo_manifest) demo_payload.

Lemma dzp_parse_canonical_witness :
  exists m, utf8_decode m = Some demo_manifest /\ demo_image = dzp_bytes KIND_DEZH_IR m demo_payload.
Proof.
  apply dzp_parse_canonical; [by apply bytes_okb_spec|vm_compute; reflexivity].
Defined.
