(* ===== verification/Ir.v ===== *)
(** * The Dezh-IR engine (dezh-core/src/ir.rs)

    The verifier, the stack machine with its capability-gated host calls, the
    assembler and the two demo programs.

    The machine runs in [IrM]: the operand stack, the linear memory and the
    host are threaded through, and they keep the changes made before a trap,
    as they do behind [&mut].  [oc] says whether overflow checks are compiled
    in (the dev profile) or not (the release profile).  [run] is an unbounded
    loop in the source; [run_fuel] bounds it and answers [None] when the bound
    is reached. *)

From Stdlib Require Import ZArith Lia String.
From stdpp Require Import base option strings numbers list.
From S2P Require Import Prelude Text Dzp.

(** ** Opcodes and limits *)

Definition HALT : Z := 0x00.
Definition PUSH : Z := 0x01.
Definition POP : Z := 0x02.
Definition DUP : Z := 0x03.
Definition SWAP : Z := 0x04.
Definition ADD : Z := 0x10.
Definition SUB : Z := 0x11.
Definition MUL : Z := 0x12.
Definition DIV : Z := 0x13.
Definition MOD : Z := 0x14.
Definition LT : Z := 0x18.
Definition GT : Z := 0x19.
Definition EQ : Z := 0x1a.
Definition LOAD8 : Z := 0x20.
Definition STORE8 : Z := 0x21.
Definition LOAD64 : Z := 0x22.
Definition STORE64 : Z := 0x23.
Definition JMP : Z := 0x30.
Definition JZ : Z := 0x31.
Definition JNZ : Z := 0x32.
Definition CALL : Z := 0x40.
Definition RET : Z := 0x41.
Definition HOSTCALL : Z := 0x50.

Definition HC_PRINT_NUM : Z := 0.
Definition HC_PRINT_STR : Z := 1.
Definition HC_CAIRN_PUT : Z := 2.
Definition HC_CAIRN_GET : Z := 3.

Definition CAP_PRINT : Z := 1.
Definition CAP_WRITE : Z := 2.
Definition CAP_READ : Z := 4.

Definition MEM_SIZE : Z := 256.
Definition STACK_SIZE : Z := 64.
Definition CALL_SIZE : Z := 16.
Definition MAX_PROG : Z := 4096.

Inductive IrTrap :=
| StackOverflow
| StackUnderflow
| CallOverflow
| CallUnderflow
| BadOpcode
| MemOob
| DivZero
| BadTarget
| IrTruncated
| TooLong
| MissingCapability
| NoDisk.

#[export] Instance IrTrap_eq_dec : EqDecision IrTrap.
Proof. solve_decision. Defined.

(** ** The kernel boundary *)

(** [trait Host].  [cairn_get] is handed the window of guest memory it may
    fill and returns its new contents. *)
Class Host (H : Type) := {
  can : H -> Z -> bool;
  print_num : H -> Z -> H;
  print_str : H -> list Z -> H;
  cairn_put : H -> list Z -> H * bool;
  cairn_get : H -> list Z -> H * list Z * option Z }.

(** What any Rust implementation of the trait satisfies: a slice keeps its
    length, holds bytes, and a count is a [usize]. *)
Class HostLaws (H : Type) `{Host H} := {
  cairn_get_len h buf h' buf' r : cairn_get h buf = (h', buf', r) -> length buf' = length buf;
  cairn_get_bytes h buf h' buf' r :
    bytes_ok buf -> cairn_get h buf = (h', buf', r) -> bytes_ok buf';
  cairn_get_count h buf h' buf' n : cairn_get h buf = (h', buf', Some n) -> fits 64 n }.

(** ** The verifier *)

Definition op_size (op : Z) : option Z :=
  if op =? PUSH then Some 9
  else if (op =? JMP) || (op =? JZ) || (op =? JNZ) || (op =? CALL) then Some 3
  else if op =? HOSTCALL then Some 2
  else if (op =? HALT) || (op =? POP) || (op =? DUP) || (op =? SWAP) || (op =? ADD)
       || (op =? SUB) || (op =? MUL) || (op =? DIV) || (op =? MOD) || (op =? LT)
       || (op =? GT) || (op =? EQ) || (op =? LOAD8) || (op =? STORE8) || (op =? LOAD64)
       || (op =? STORE64) || (op =? RET) then Some 1
  else None.

(** Pass 1 marks the instruction starts.  Running out of fuel is [Panic], so
    a proof that the verifier does not panic also shows the fuel suffices. *)
Fixpoint verify_starts (n : nat) (code : list Z) (pc : Z) (starts : list bool)
  : outcome IrTrap (list bool) :=
  if zlen code <=? pc then Ret starts else
  match n with
  | O => Panic
  | S n =>
    _ ← index starts pc;
    let starts := <[Z.to_nat pc := true]> starts in
    op ← index code pc;
    match op_size op with
    | None => Trap BadOpcode
    | Some size =>
      if zlen code <? pc + size then Trap IrTruncated
      else verify_starts n code (pc + size) starts
    end
  end.

(** Pass 2 checks every branch and call target. *)
Definition verify_target (code : list Z) (starts : list bool) (pc : Z) : outcome IrTrap unit :=
  t0 ← index code (pc + 1);
  t1 ← index code (pc + 2);
  let t := le_val [t0; t1] in
  if zlen code <=? t then Trap BadTarget else
  st ← index starts t;
  if negb st then Trap BadTarget else mret tt.

Fixpoint verify_targets (n : nat) (code : list Z) (pc : Z) (starts : list bool)
  : outcome IrTrap unit :=
  if zlen code <=? pc then Ret tt else
  match n with
  | O => Panic
  | S n =>
    op ← index code pc;
    _ ← (if (op =? JMP) || (op =? JZ) || (op =? JNZ) || (op =? CALL)
         then verify_target code starts pc else mret tt);
    match op_size op with
    | None => Panic
    | Some size => verify_targets n code (pc + size) starts
    end
  end.

Definition verify (code : list Z) : outcome IrTrap unit :=
  if MAX_PROG <? zlen code then Trap TooLong else
  starts ← verify_starts (length code) code 0 (replicate (Z.to_nat (MAX_PROG + 1)) false);
  _ ← index starts (zlen code);
  let starts := <[length code := true]> starts in
  verify_targets (length code) code 0 starts.

(** ** The machine *)

Record Vm := mkVm {
  stack : list Z;
  sp : Z;
  calls : list Z;
  csp : Z;
  mem : list Z }.

Definition vm0 : Vm :=
  mkVm (replicate (Z.to_nat STACK_SIZE) 0) 0 (replicate (Z.to_nat CALL_SIZE) 0) 0
       (replicate (Z.to_nat MEM_SIZE) 0).

Definition IrM (H A : Type) : Type := Vm * H -> outcome IrTrap A * (Vm * H).

#[export] Instance IrM_ret H : MRet (IrM H) := fun A a s => (Ret a, s).
#[export] Instance IrM_bind H : MBind (IrM H) := fun A B f m s =>
  match m s with
  | (Ret a, s) => f a s
  | (Trap e, s) => (Trap e, s)
  | (Panic, s) => (Panic, s)
  end.

Definition trap {H A} (e : IrTrap) : IrM H A := fun s => (Trap e, s).
Definition lift {H A} (o : outcome IrTrap A) : IrM H A := fun s => (o, s).
Definition get_vm {H} : IrM H Vm := fun s => (Ret s.1, s).
Definition get_host {H} : IrM H H := fun s => (Ret s.2, s).
Definition put_vm {H} (vm : Vm) : IrM H unit := fun s => (Ret tt, (vm, s.2)).
Definition put_host {H} (h : H) : IrM H unit := fun s => (Ret tt, (s.1, h)).
Definition guard {H} (b : bool) (e : IrTrap) : IrM H unit :=
  if b then mret tt else trap e.

Definition push {H} (v : Z) : IrM H unit :=
  vm ← get_vm;
  guard (sp vm <? STACK_SIZE) StackOverflow ;;
  _ ← lift (index (stack vm) (sp vm));
  put_vm (mkVm (<[Z.to_nat (sp vm) := v]> (stack vm)) (sp vm + 1) (calls vm) (csp vm) (mem vm)).

Definition pop {H} : IrM H Z :=
  vm ← get_vm;
  guard (negb (sp vm =? 0)) StackUnderflow ;;
  put_vm (mkVm (stack vm) (sp vm - 1) (calls vm) (csp vm) (mem vm)) ;;
  lift (index (stack vm) (sp vm - 1)).

(** [a + len] on [usize]: checked in the dev profile, wrapping otherwise. *)
Definition add_usize (oc : bool) (a b : Z) : outcome IrTrap Z :=
  if a + b <? 2 ^ 64 then Ret (a + b) else if oc then Panic else Ret (wrap 64 (a + b)).

Definition range (oc : bool) (addr len : Z) : outcome IrTrap (Z * Z) :=
  let a := wrap 64 addr in
  if addr <? 0 then Trap MemOob else
  e ← add_usize oc a len;
  if MEM_SIZE <? e then Trap MemOob else mret (a, e).

Definition set_mem {H} (a e : Z) (bs : list Z) : IrM H unit :=
  vm ← get_vm;
  m ← lift (sub_copy (mem vm) a e bs);
  put_vm (mkVm (stack vm) (sp vm) (calls vm) (csp vm) m).

Definition get_mem {H} (a e : Z) : IrM H (list Z) :=
  vm ← get_vm; lift (sub (mem vm) a e).

Definition b2z (b : bool) : Z := if b then 1 else 0.

(** [i64] division truncates and panics on [MIN / -1] in every profile. *)
Definition arith (op a b : Z) : outcome IrTrap Z :=
  if op =? ADD then Ret (wrap_i64 (a + b))
  else if op =? SUB then Ret (wrap_i64 (a - b))
  else if op =? MUL then Ret (wrap_i64 (a * b))
  else if b =? 0 then Trap DivZero
  else if (a =? - 2 ^ 63) && (b =? -1) then Panic
  else if op =? DIV then Ret (Z.quot a b) else Ret (Z.rem a b).

Definition target (code : list Z) (pc : Z) : outcome IrTrap Z :=
  if zlen code <? pc + 2 then Trap IrTruncated else
  b0 ← index code pc; b1 ← index code (pc + 1); mret (le_val [b0; b1]).

Definition hostcall `{Host H} (oc : bool) (f : Z) : IrM H unit :=
  if f =? HC_PRINT_NUM then
    h ← get_host; guard (can h CAP_PRINT) MissingCapability ;;
    v ← pop;
    h ← get_host; put_host (print_num h v)
  else if f =? HC_PRINT_STR then
    h ← get_host; guard (can h CAP_PRINT) MissingCapability ;;
    len ← pop; addr ← pop;
    '(a, e) ← lift (range oc addr (wrap 64 len));
    bs ← get_mem a e;
    h ← get_host; put_host (print_str h bs)
  else if f =? HC_CAIRN_PUT then
    h ← get_host; guard (can h CAP_WRITE) MissingCapability ;;
    len ← pop; addr ← pop;
    '(a, e) ← lift (range oc addr (wrap 64 len));
    bs ← get_mem a e;
    h ← get_host;
    let '(h, ok) := cairn_put h bs in
    put_host h ;; guard ok NoDisk
  else if f =? HC_CAIRN_GET then
    h ← get_host; guard (can h CAP_READ) MissingCapability ;;
    max ← pop; addr ← pop;
    '(a, e) ← lift (range oc addr (wrap 64 max));
    bs ← get_mem a e;
    h ← get_host;
    let '(h, bs, r) := cairn_get h bs in
    put_host h ;; set_mem a e bs ;;
    match r with
    | None => trap NoDisk
    | Some n => push (wrap_i64 n)
    end
  else trap BadOpcode.

(** One turn of the loop: [None] is [HALT], [Some pc] continues. *)
Definition step `{Host H} (oc : bool) (code : list Z) (pc : Z) : IrM H (option Z) :=
  op ← lift (index code pc);
  let pc := pc + 1 in
  if op =? HALT then mret None
  else if op =? PUSH then
    guard (negb (zlen code <? pc + 8)) IrTruncated ;;
    b ← lift (sub code pc (pc + 8));
    push (to_i64 (le_val b)) ;; mret (Some (pc + 8))
  else if op =? POP then pop ;; mret (Some pc)
  else if op =? DUP then v ← pop; push v ;; push v ;; mret (Some pc)
  else if op =? SWAP then a ← pop; b ← pop; push a ;; push b ;; mret (Some pc)
  else if (op =? ADD) || (op =? SUB) || (op =? MUL) || (op =? DIV) || (op =? MOD) then
    b ← pop; a ← pop; r ← lift (arith op a b); push r ;; mret (Some pc)
  else if (op =? LT) || (op =? GT) || (op =? EQ) then
    b ← pop; a ← pop;
    let r := if op =? LT then a <? b else if op =? GT then b <? a else a =? b in
    push (b2z r) ;; mret (Some pc)
  else if op =? LOAD8 then
    addr ← pop; '(a, _) ← lift (range oc addr 1);
    vm ← get_vm; v ← lift (index (mem vm) a); push v ;; mret (Some pc)
  else if op =? STORE8 then
    val ← pop; addr ← pop; '(a, _) ← lift (range oc addr 1);
    set_mem a (a + 1) [wrap 8 val] ;; mret (Some pc)
  else if op =? LOAD64 then
    addr ← pop; '(a, e) ← lift (range oc addr 8);
    b ← get_mem a e; push (to_i64 (le_val b)) ;; mret (Some pc)
  else if op =? STORE64 then
    val ← pop; addr ← pop; '(a, e) ← lift (range oc addr 8);
    set_mem a e (le_bytes 8 (wrap 64 val)) ;; mret (Some pc)
  else if op =? JMP then t ← lift (target code pc); mret (Some t)
  else if op =? JZ then
    t ← lift (target code pc); v ← pop;
    mret (Some (if v =? 0 then t else pc + 2))
  else if op =? JNZ then
    t ← lift (target code pc); v ← pop;
    mret (Some (if negb (v =? 0) then t else pc + 2))
  else if op =? CALL then
    t ← lift (target code pc);
    vm ← get_vm;
    guard (csp vm <? CALL_SIZE) CallOverflow ;;
    _ ← lift (index (calls vm) (csp vm));
    put_vm (mkVm (stack vm) (sp vm) (<[Z.to_nat (csp vm) := pc + 2]> (calls vm)) (csp vm + 1) (mem vm)) ;;
    mret (Some t)
  else if op =? RET then
    vm ← get_vm;
    guard (negb (csp vm =? 0)) CallUnderflow ;;
    put_vm (mkVm (stack vm) (sp vm) (calls vm) (csp vm - 1) (mem vm)) ;;
    r ← lift (index (calls vm) (csp vm - 1));
    mret (Some r)
  else if op =? HOSTCALL then
    guard (pc <? zlen code) IrTruncated ;;
    f ← lift (index code pc);
    hostcall oc f ;; mret (Some (pc + 1))
  else trap BadOpcode.

Fixpoint run_fuel `{Host H} (oc : bool) (n : nat) (code : list Z) (pc : Z) (s : Vm * H)
  : option (outcome IrTrap unit * (Vm * H)) :=
  if zlen code <=? pc then Some (Ret tt, s) else
  match n with
  | O => None
  | S n =>
    match step oc code pc s with
    | (Ret None, s) => Some (Ret tt, s)
    | (Ret (Some pc), s) => run_fuel oc n code pc s
    | (Trap e, s) => Some (Trap e, s)
    | (Panic, s) => Some (Panic, s)
    end
  end.

(** [run(code, host)] within [n] turns: the result and the host it leaves. *)
Definition run `{Host H} (oc : bool) (n : nat) (code : list Z) (h : H)
  : option (outcome IrTrap unit * H) :=
  '(r, s) ← run_fuel oc n code 0 (vm0, h); Some (r, s.2).

(** The state [n] turns into the loop, or where it ended if it ended before: a
    guest that never halts has these states too. *)
Fixpoint turns `{Host H} (oc : bool) (n : nat) (code : list Z) (pc : Z) (s : Vm * H) : Vm * H :=
  if zlen code <=? pc then s else
  match n with
  | O => s
  | S n =>
    match step oc code pc s with
    | (Ret (Some pc), s) => turns oc n code pc s
    | (_, s) => s
    end
  end.

(** ** The assembler *)

Record Asm := mkAsm { buf : list Z; alen : Z }.

Definition AsmM (A : Type) : Type := Asm -> outcome Empty_set (A * Asm).

#[export] Instance AsmM_ret : MRet AsmM := fun A a s => Ret (a, s).
#[export] Instance AsmM_bind : MBind AsmM := fun A B f m s =>
  match m s with
  | Ret (a, s) => f a s
  | Trap e => Trap e
  | Panic => Panic
  end.

Definition asm_here : AsmM Z := fun s => Ret (wrap 16 (alen s), s).

Definition asm_put (b : Z) : AsmM unit := fun s =>
  _ ← index (buf s) (alen s);
  Ret (tt, mkAsm (<[Z.to_nat (alen s) := b]> (buf s)) (alen s + 1)).

Fixpoint asm_puts (bs : list Z) : AsmM unit :=
  match bs with [] => mret tt | b :: bs => asm_put b ;; asm_puts bs end.

Definition asm_push (v : Z) : AsmM unit :=
  asm_put PUSH ;; asm_puts (le_bytes 8 (wrap 64 v)).

Definition asm_op (o : Z) : AsmM unit := asm_put o.

Definition asm_hostcall (f : Z) : AsmM unit := asm_put HOSTCALL ;; asm_put f.

Definition asm_jmp (t : Z) : AsmM unit := asm_put JMP ;; asm_puts (le_bytes 2 t).

Definition asm_jz_fwd : AsmM Z :=
  asm_put JZ ;; at_ ← (fun s => Ret (alen s, s)); asm_put 0 ;; asm_put 0 ;; mret at_.

Definition asm_patch (at_ t : Z) : AsmM unit := fun s =>
  b ← sub_copy (buf s) at_ (at_ + 2) (le_bytes 2 t);
  Ret (tt, mkAsm b (alen s)).

(** [Asm::new(buf)] followed by a body and [finish]. *)
Definition assemble (body : AsmM unit) (b : list Z) : outcome Empty_set (list Z) :=
  '(_, s) ← body (mkAsm b 0); sub (buf s) 0 (alen s).

Definition demo_sum_body : AsmM unit :=
  asm_push 0 ;; asm_push 0 ;; asm_op STORE64 ;;
  asm_push 8 ;; asm_push 1 ;; asm_op STORE64 ;;
  loop_start ← asm_here;
  asm_push 8 ;; asm_op LOAD64 ;; asm_push 6 ;; asm_op LT ;;
  jz ← asm_jz_fwd;
  asm_push 0 ;; asm_push 0 ;; asm_op LOAD64 ;; asm_push 8 ;; asm_op LOAD64 ;;
  asm_op ADD ;; asm_op STORE64 ;;
  asm_push 8 ;; asm_push 8 ;; asm_op LOAD64 ;; asm_push 1 ;; asm_op ADD ;; asm_op STORE64 ;;
  asm_jmp loop_start ;;
  end_ ← asm_here;
  asm_patch jz end_ ;;
  asm_push 0 ;; asm_op LOAD64 ;; asm_hostcall HC_PRINT_NUM ;; asm_op HALT.

Definition demo_sum (b : list Z) : outcome Empty_set (list Z) := assemble demo_sum_body b.

Fixpoint demo_cairn_stores (i : Z) (s : list Z) : AsmM unit :=
  match s with
  | [] => mret tt
  | byte :: s =>
    asm_push i ;; asm_push byte ;; asm_op STORE8 ;; demo_cairn_stores (i + 1) s
  end.

Definition demo_cairn_text : list Z := lit "ir-wrote-this-durably".

Definition demo_cairn_body : AsmM unit :=
  demo_cairn_stores 0 demo_cairn_text ;;
  asm_push 0 ;; asm_push (zlen demo_cairn_text) ;; asm_hostcall HC_CAIRN_PUT ;;
  asm_push 64 ;; asm_push 64 ;; asm_hostcall HC_CAIRN_GET ;;
  asm_push 64 ;; asm_op SWAP ;; asm_hostcall HC_PRINT_STR ;; asm_op HALT.

Definition demo_cairn (b : list Z) : outcome Empty_set (list Z) := assemble demo_cairn_body b.

(** ** A host for the examples: it logs every effect. *)

Inductive effect :=
| PrintedNum (v : Z)
| PrintedStr (s : list Z)
| Stored (s : list Z)
| Loaded (n : Z).

Record LogHost := mkLog { caps : Z; disk : option (list Z); effects : list effect }.

#[export] Instance log_host : Host LogHost := {
  can h c := negb (caps h & c =? 0);
  print_num h v := mkLog (caps h) (disk h) (effects h ++ [PrintedNum v]);
  print_str h s := mkLog (caps h) (disk h) (effects h ++ [PrintedStr s]);
  cairn_put h s :=
    match disk h with
    | None => (h, false)
    | Some _ => (mkLog (caps h) (Some s) (effects h ++ [Stored s]), true)
    end;
  cairn_get h b :=
    match disk h with
    | None => (h, b, None)
    | Some d => let n := (length d `min` length b)%nat in
                (mkLog (caps h) (disk h) (effects h ++ [Loaded (Z.of_nat n)]),
                 map (wrap 8) (take n d) ++ drop n b, Some (wrap 64 (Z.of_nat n)))
    end }.
