(* ===== verification/IrVerify.v ===== *)
(** * What the Dezh-IR verifier accepts

    [verify] accepts exactly the well-formed programs, always terminates and
    never panics. *)

From Stdlib Require Import ZArith Lia.
From stdpp Require Import base option numbers list.
From S2P Require Import Prelude Text Ir.

Section Wf.
Context (code : list Z).

Definition size_at (pc : Z) : option Z := op ← code !! Z.to_nat pc; op_size op.

(** Instruction boundaries: what a linear walk from 0 reaches. *)
Inductive boundary : Z -> Prop :=
| boundary_0 : boundary 0
| boundary_next pc size :
    boundary pc -> pc < zlen code -> size_at pc = Some size -> boundary (pc + size).

Definition is_branch (op : Z) : bool := (op =? JMP) || (op =? JZ) || (op =? JNZ) || (op =? CALL).

Definition target_at (pc : Z) : option Z :=
  b0 ← code !! Z.to_nat (pc + 1); b1 ← code !! Z.to_nat (pc + 2); Some (le_val [b0; b1]).

(** The instruction at [pc] is known and complete. *)
Definition complete_at (pc : Z) : Prop := exists size, size_at pc = Some size /\ pc + size <= zlen code.

(** Its branch target, if it has one, is the start of an instruction. *)
Definition targets_ok (pc : Z) : Prop :=
  forall op, code !! Z.to_nat pc = Some op -> is_branch op = true ->
  exists t, target_at pc = Some t /\ t < zlen code /\ boundary t.

Definition well_formed : Prop :=
  zlen code <= MAX_PROG /\
  forall pc, boundary pc -> pc < zlen code -> complete_at pc /\ targets_ok pc.

(** ** Boundaries *)

Lemma op_size_pos op size : op_size op = Some size -> 1 <= size.
Proof.
  unfold op_size.
  repeat match goal with |- context [if ?b then _ else _] => destruct b end; intros [=]; lia.
Qed.

Lemma op_size_branch op : is_branch op = true -> op_size op = Some 3.
Proof.
  unfold is_branch. rewrite !orb_true_iff, !Z.eqb_eq. intros [[[->| ->]| ->]| ->]; done.
Qed.

Lemma size_at_pos pc size : size_at pc = Some size -> 1 <= size.
Proof. unfold size_at. destruct (code !! _); simpl; [apply op_size_pos|done]. Qed.

Lemma boundary_nonneg pc : boundary pc -> 0 <= pc.
Proof. induction 1 as [|pc size H IH Hlt Hs]; [done|]. apply size_at_pos in Hs. lia. Qed.

(** No boundary lies inside an instruction. *)
Lemma boundary_gap n i j s : i + j <= n -> 0 <= n ->
  boundary i -> boundary j -> i < j -> size_at i = Some s -> i + s <= j.
Proof.
  intros Hn Hn0. revert i j s Hn. pattern n. apply Z_lt_induction; [|done]. clear n Hn0.
  intros n IH i j s Hn Hi Hj Hlt Hs. pose proof (boundary_nonneg i Hi).
  inversion Hj as [|k sz Hk Hkl Hsz]; subst; [lia|].
  pose proof (boundary_nonneg k Hk). pose proof (size_at_pos _ _ Hsz).
  destruct (Z.lt_trichotomy i k) as [Hik|[<-|Hki]].
  - assert (i + s <= k); [|lia]. eapply (IH (i + k)); eauto; lia.
  - rewrite Hs in Hsz. simplify_eq. lia.
  - assert (k + sz <= i); [|lia]. eapply (IH (k + i)); eauto; lia.
Qed.

Lemma boundary_step pc size i : boundary pc -> pc < zlen code -> size_at pc = Some size ->
  (boundary i /\ i < pc + size) <-> ((boundary i /\ i < pc) \/ i = pc).
Proof.
  intros Hb Hl Hs. pose proof (size_at_pos _ _ Hs). split.
  - intros [Hi Hlt]. destruct (Z.lt_trichotomy i pc) as [?|[->|Hgt]]; [by left|by right|].
    pose proof (boundary_nonneg _ Hi). pose proof (boundary_nonneg _ Hb).
    pose proof (boundary_gap (pc + i) pc i size ltac:(lia) ltac:(lia) Hb Hi Hgt Hs). lia.
  - intros [[? ?]| ->]; split; done || lia.
Qed.

(** ** Pass 1 *)

Definition marks (pc : Z) (starts : list bool) : Prop :=
  zlen starts = MAX_PROG + 1 /\
  forall i, 0 <= i <= MAX_PROG -> starts !! Z.to_nat i = Some true <-> (boundary i /\ i < pc).

Lemma marks_step pc size starts : pc < zlen code -> zlen code <= MAX_PROG ->
  boundary pc -> size_at pc = Some size -> marks pc starts ->
  marks (pc + size) (<[Z.to_nat pc := true]> starts).
Proof.
  intros Hl Hm Hb Hs [Hlen Hmk]. pose proof (boundary_nonneg _ Hb). split.
  - unfold zlen in *. by rewrite length_insert.
  - intros i Hi. rewrite boundary_step by done. rewrite <- (Hmk i Hi).
    destruct (decide (i = pc)) as [->|Hne].
    + rewrite list_lookup_insert_eq by (unfold zlen in *; lia). split; auto.
    + rewrite list_lookup_insert_ne by lia. split; [by left|intros [|]; done].
Qed.

Lemma marks_0 : marks 0 (replicate (Z.to_nat (MAX_PROG + 1)) false).
Proof.
  split; [done|]. intros i Hi. split.
  - rewrite lookup_replicate. intros [? _]. done.
  - intros [Hb Hlt]. apply boundary_nonneg in Hb. lia.
Qed.

Lemma index_starts {E} pc starts : marks pc starts -> forall i, 0 <= i <= MAX_PROG ->
  exists b, index (E:=E) starts i = Ret b /\ starts !! Z.to_nat i = Some b.
Proof. intros [Hlen _] i Hi. apply index_in_range. lia. Qed.

Definition complete_below (pc : Z) : Prop := forall i, boundary i -> i < pc -> complete_at i.

Lemma verify_starts_spec n pc starts :
  zlen code <= MAX_PROG -> boundary pc -> pc <= zlen code -> zlen code - pc <= Z.of_nat n ->
  marks pc starts -> complete_below pc ->
  (exists starts', verify_starts n code pc starts = Ret starts' /\
     marks (zlen code) starts' /\ complete_below (zlen code)) \/
  (exists e pc', verify_starts n code pc starts = Trap e /\ boundary pc' /\ pc' < zlen code /\
     ~ complete_at pc').
Proof.
  intros Hmax. revert pc starts. induction n as [|n IH]; intros pc starts Hb Hle Hn Hmk Hgood; simpl.
  { rewrite (proj2 (Z.leb_le _ _)) by lia. assert (pc = zlen code) as -> by lia. left. eauto. }
  destruct (Z.leb_spec (zlen code) pc) as [|Hlt].
  { assert (pc = zlen code) as -> by lia. left. eauto. }
  pose proof (boundary_nonneg _ Hb).
  destruct (index_starts (E:=IrTrap) pc starts Hmk pc) as (b & -> & _); [lia|]. cbn [mbind outcome_bind].
  destruct (index_in_range (E:=IrTrap) code pc) as (op & -> & Hop); [lia|]. cbn [mbind outcome_bind].
  assert (Hsz : size_at pc = op_size op) by (unfold size_at; by rewrite Hop).
  destruct (op_size op) as [size|] eqn:Es.
  - destruct (Z.ltb_spec (zlen code) (pc + size)) as [Hbig|Hfit].
    + right. exists IrTruncated, pc. split; [done|]. split; [done|]. split; [done|].
      intros (size' & E' & ?). rewrite Hsz in E'. simplify_eq. lia.
    + pose proof (op_size_pos _ _ Es). apply IH.
      * by apply boundary_next.
      * lia.
      * lia.
      * by apply marks_step.
      * intros i Hi Hilt. destruct (proj1 (boundary_step pc size i Hb Hlt Hsz) (conj Hi Hilt)) as [[? ?]| ->].
        -- by apply Hgood.
        -- exists size. done.
  - right. exists BadOpcode, pc. split; [done|]. split; [done|]. split; [done|].
    intros (size' & E' & ?). congruence.
Qed.

(** ** Pass 2 *)

Definition final_marks (starts : list bool) : Prop :=
  zlen starts = MAX_PROG + 1 /\
  forall i, 0 <= i < zlen code -> starts !! Z.to_nat i = Some true <-> boundary i.

Lemma final_marks_intro starts : zlen code <= MAX_PROG -> marks (zlen code) starts ->
  final_marks (<[length code := true]> starts).
Proof.
  intros Hmax [Hlen Hmk]. split; [unfold zlen in *; by rewrite length_insert|].
  intros i Hi. rewrite list_lookup_insert_ne by (unfold zlen in *; lia).
  rewrite Hmk by lia. split; [by intros [? _]|]. intros ?. split; [done|lia].
Qed.

Lemma le_val_two a b : fits 8 a -> fits 8 b -> 0 <= le_val [a; b].
Proof.
  intros Ha Hb. assert (H : bytes_ok [a; b]) by (apply Forall_cons; split; [done|apply Forall_cons; done]).
  exact (proj1 (le_val_fits _ H)).
Qed.

(** What pass 2 finds out about one branch instruction. *)
Lemma verify_targets_branch pc op starts :
  bytes_ok code -> zlen code <= MAX_PROG -> boundary pc -> final_marks starts ->
  complete_at pc -> code !! Z.to_nat pc = Some op -> is_branch op = true ->
  (verify_target code starts pc = Ret tt /\ targets_ok pc) \/
  (verify_target code starts pc = Trap BadTarget /\ ~ targets_ok pc).
Proof.
  intros Hok Hmax Hb [Hlen Hmk] (size & Hs & Hfit) Hop Hbr.
  pose proof (boundary_nonneg _ Hb).
  unfold size_at in Hs. rewrite Hop in Hs. cbn in Hs. rewrite op_size_branch in Hs by done. simplify_eq.
  destruct (index_in_range (E:=IrTrap) code (pc + 1)) as (t0 & E0 & L0); [lia|].
  destruct (index_in_range (E:=IrTrap) code (pc + 2)) as (t1 & E1 & L1); [lia|].
  assert (Ht : target_at pc = Some (le_val [t0; t1])).
  { unfold target_at. rewrite L0, L1. done. }
  assert (Hpos : 0 <= le_val [t0; t1]).
  { apply le_val_two; by eapply Forall_lookup_1. }
  unfold verify_target. rewrite E0; cbn [mbind outcome_bind]. rewrite E1; cbn [mbind outcome_bind].
  set (t := le_val [t0; t1]) in *.
  destruct (Z.leb_spec (zlen code) t) as [Hge|Hlt].
  { right. split; [done|]. intros Hto. destruct (Hto op Hop Hbr) as (t' & Et & ? & _).
    assert (t' = t) as -> by congruence. lia. }
  destruct (index_in_range (E:=IrTrap) starts t) as (st & Es & Ls); [lia|].
  rewrite Es; cbn [mbind outcome_bind]. destruct st; cbn [negb].
  - left. split; [done|]. intros op' Hop' _. exists t. split; [done|]. split; [done|].
    apply Hmk; [lia|done].
  - right. split; [done|]. intros Hto. destruct (Hto op Hop Hbr) as (t' & Et & ? & Hbt).
    assert (t' = t) as -> by congruence. apply (Hmk t) in Hbt; [|lia]. congruence.
Qed.

Lemma verify_targets_spec n pc starts :
  bytes_ok code -> zlen code <= MAX_PROG -> final_marks starts -> complete_below (zlen code) ->
  boundary pc -> pc <= zlen code -> zlen code - pc <= Z.of_nat n ->
  (forall i, boundary i -> i < pc -> targets_ok i) ->
  (verify_targets n code pc starts = Ret tt /\ forall i, boundary i -> i < zlen code -> targets_ok i) \/
  (exists pc', verify_targets n code pc starts = Trap BadTarget /\ boundary pc' /\ pc' < zlen code /\
     ~ targets_ok pc').
Proof.
  intros Hok Hmax Hmk Hgood. revert pc.
  induction n as [|n IH]; intros pc Hb Hle Hn Hbelow; simpl.
  { rewrite (proj2 (Z.leb_le _ _)) by lia. assert (pc = zlen code) as -> by lia. by left. }
  destruct (Z.leb_spec (zlen code) pc) as [|Hlt].
  { assert (pc = zlen code) as -> by lia. by left. }
  pose proof (boundary_nonneg _ Hb).
  destruct (index_in_range (E:=IrTrap) code pc) as (op & -> & Hop); [lia|]. cbn [mbind outcome_bind].
  pose proof (Hgood pc Hb Hlt) as Hc. destruct Hc as (size & Hs & Hfit).
  assert (Es : op_size op = Some size) by (unfold size_at in Hs; by rewrite Hop in Hs).
  pose proof (op_size_pos _ _ Es). rewrite Es.
  assert (Hrest : targets_ok pc -> (forall i, boundary i -> i < pc + size -> targets_ok i)).
  { intros Hpc i Hi Hilt. destruct (proj1 (boundary_step pc size i Hb Hlt Hs) (conj Hi Hilt)) as [[? ?]| ->];
      [by apply Hbelow|done]. }
  fold (is_branch op). destruct (is_branch op) eqn:Hbr.
  - destruct (verify_targets_branch pc op starts Hok Hmax Hb Hmk) as [[-> Hto]|[-> Hto]];
      [by exists size|done|done| |]; cbn [mbind outcome_bind].
    + apply IH; [by apply boundary_next|lia|lia|by apply Hrest].
    + right. exists pc. done.
  - cbn [mbind outcome_bind mret outcome_ret]. apply IH; [by apply boundary_next|lia|lia|].
    apply Hrest. intros op' Hop' Hbr'. congruence.
Qed.

(** ** The verifier *)

Lemma verify_decides : bytes_ok code ->
  (verify code = Ret tt /\ well_formed) \/ (exists e, verify code = Trap e /\ ~ well_formed).
Proof.
  intros Hok. unfold verify, well_formed.
  destruct (Z.ltb_spec MAX_PROG (zlen code)) as [Hbig|Hmax].
  { right. exists TooLong. split; [done|]. intros [? _]. lia. }
  destruct (verify_starts_spec (length code) 0 (replicate (Z.to_nat (MAX_PROG + 1)) false))
    as [(starts & -> & Hmk & Hgood)|(e & pc & -> & Hb & Hlt & Hbad)];
    [done|constructor|apply zlen_nonneg|unfold zlen; lia|apply marks_0| | |].
  { intros i Hi Hlt. apply boundary_nonneg in Hi. lia. }
  - cbn [mbind outcome_bind].
    destruct (index_starts (E:=IrTrap) _ _ Hmk (zlen code)) as (b & -> & _);
      [pose proof (zlen_nonneg code); lia|]. cbn [mbind outcome_bind].
    destruct (verify_targets_spec (length code) 0 (<[length code := true]> starts))
      as [[-> Hto]|(pc & -> & Hb & Hlt & Hbad)];
      [done|done|by apply final_marks_intro|done|constructor|apply zlen_nonneg|unfold zlen; lia| | |].
    + intros i Hi Hlt. apply boundary_nonneg in Hi. lia.
    + left. split; [done|]. split; [done|]. intros pc Hb Hlt. split; [by apply Hgood|by apply Hto].
    + right. eexists. split; [done|]. intros [_ Hwf]. by destruct (Hwf pc Hb Hlt).
  - right. eexists. split; [done|]. intros [_ Hwf]. by destruct (Hwf pc Hb Hlt).
Qed.

End Wf.

(** C26: The two-pass verifier accepts a program exactly when it is well formed: at most 4096 bytes, a
    whole instruction with a known opcode at every instruction boundary, and every branch or call target
    an instruction boundary before the end of the code; a target equal to the code's length is refused,
    although the first pass marks it as a boundary. *)
Theorem ir_verify_iff_well_formed code :
  bytes_ok code -> verify code = Ret tt <-> well_formed code.
Proof.
  intros Hok. destruct (verify_decides code Hok) as [[-> Hwf]|(e & -> & Hwf)]; split; done.
Qed.

(** The verifier terminates on every byte sequence without an out-of-bounds access: it returns Ok or a
    trap, never a panic. *)
Theorem ir_verify_never_panics code : bytes_ok code -> verify code <> Panic.
Proof.
  intros Hok. destruct (verify_decides code Hok) as [[-> Hwf]|(e & -> & Hwf)]; done.
Qed.

(** A loop that is not entered, and a jump into the middle of an instruction. *)
Definition branch_code : list Z := [JMP; 4; 0; HALT; HALT].
Definition midway_code : list Z := [JMP; 1; 0; HALT].

Lemma ir_verify_iff_well_formed_witness : well_formed branch_code /\ ~ well_formed midway_code.
Proof.
  split.
  - apply (ir_verify_iff_well_formed branch_code); [by apply bytes_okb_spec|reflexivity].
  - intros Hwf. apply ir_verify_iff_well_formed in Hwf; [by vm_compute in Hwf|by apply bytes_okb_spec].
Defined.

Lemma ir_verify_never_panics_witness : verify midway_code <> Panic.
Proof. apply ir_verify_never_panics. by apply bytes_okb_spec. Defined.
