(* ===== verification/IrSafety.v ===== *)
(** * Running a Dezh-IR program is safe

    Every step of the machine keeps the machine invariant, touches the host
    only through a capability the host grants, and keeps the program counter
    on an instruction boundary when the program was verified.  The steps that
    panic are characterised exactly. *)

From Stdlib Require Import ZArith Lia.
From stdpp Require Import base option numbers list.
From S2P Require Import Prelude Text Dzp Ir IrVerify.

(** ** The machine invariant *)

Record vm_ok (vm : Vm) : Prop := {
  vm_stack : zlen (stack vm) = STACK_SIZE;
  vm_sp : 0 <= sp vm <= STACK_SIZE;
  vm_calls : zlen (calls vm) = CALL_SIZE;
  vm_csp : 0 <= csp vm <= CALL_SIZE;
  vm_mem : zlen (mem vm) = MEM_SIZE;
  vm_vals : Forall fits_i64 (stack vm);
  vm_bytes : bytes_ok (mem vm) }.

(** What a host can be turned into by guest code: each effect needs the
    capability that guards it, in the state where it happens. *)
Inductive gated `{Host H} : H -> H -> Prop :=
| gated_refl h : gated h h
| gated_num h h' v : gated h h' -> can h' CAP_PRINT = true -> gated h (print_num h' v)
| gated_str h h' bs : gated h h' -> can h' CAP_PRINT = true -> gated h (print_str h' bs)
| gated_put h h' bs : gated h h' -> can h' CAP_WRITE = true -> gated h (cairn_put h' bs).1
| gated_get h h' bs : gated h h' -> can h' CAP_READ = true -> gated h (cairn_get h' bs).1.1.

Lemma fits_i64_to_i64 u : fits 64 u -> fits_i64 (to_i64 u).
Proof. unfold fits, fits_i64, to_i64. intros. destruct (Z.ltb_spec u (2 ^ 63)); lia. Qed.

Lemma fits_i64_wrap x : fits_i64 (wrap_i64 x).
Proof. apply fits_i64_to_i64, wrap_fits. lia. Qed.

Lemma fits_i64_byte b : fits 8 b -> fits_i64 b.
Proof. unfold fits, fits_i64. lia. Qed.
#[export] Hint Resolve fits_i64_wrap fits_i64_byte : dezh.

Lemma vm0_ok : vm_ok vm0.
Proof.
  split; try done; cbn.
  - repeat constructor; done.
  - repeat constructor; done.
Qed.

(** Compute through the state monad. *)
Ltac irm := unfold mbind, IrM_bind, mret, IrM_ret, get_vm, get_host, put_vm, put_host, guard, trap, lift;
  cbn [fst snd].

Section Safety.
Context `{HL : HostLaws H} (oc : bool) (code : list Z) (B : Z -> Prop).
Implicit Types J : H -> Prop.

(** The state guest code runs in: a sound machine whose pending return
    addresses satisfy [B], and a host that satisfies [J]. *)
Definition I J (s : Vm * H) : Prop :=
  vm_ok s.1 /\ (forall i r, i < csp s.1 -> 0 <= i -> calls s.1 !! Z.to_nat i = Some r -> B r) /\ J s.2.

(** A guest computation takes [I J] to [I J']; it returns what [Q] says,
    traps as [T] says and panics only if [K]. *)
Definition triple J J' {A} (m : IrM H A) (Q : A -> Prop) (T : IrTrap -> Prop) (K : Prop) : Prop :=
  forall s, I J s ->
  match m s with
  | (Ret a, s') => I J' s' /\ Q a
  | (Trap e, s') => I J' s' /\ T e
  | (Panic, s') => J' s'.2 /\ K
  end.

Lemma I_weaken J J' s : (forall h, J h -> J' h) -> I J s -> I J' s.
Proof. intros HJ (? & ? & ?). split; auto. Qed.

Lemma triple_ret J {A} (a : A) (Q : A -> Prop) T K : Q a -> triple J J (mret a) Q T K.
Proof. intros HQ s Hs. done. Qed.

Lemma triple_bind J J1 J2 {A C} (m : IrM H A) (f : A -> IrM H C) R Q (T : IrTrap -> Prop) (K : Prop) :
  triple J J1 m R T K -> (forall a, R a -> triple J1 J2 (f a) Q T K) -> (forall h, J1 h -> J2 h) ->
  triple J J2 (m ≫= f) Q T K.
Proof.
  intros Hm Hf HJ s Hs. unfold mbind, IrM_bind. specialize (Hm s Hs).
  destruct (m s) as [[a|e|] s']; destruct Hm as [Hs' Ha].
  - by apply (Hf a Ha s' Hs').
  - split; [|done]. by eapply I_weaken.
  - auto.
Qed.

Lemma triple_weaken J J' {A} (m : IrM H A) (Q Q' : A -> Prop) (T T' : IrTrap -> Prop) (K : Prop) :
  triple J J' m Q T K -> (forall a, Q a -> Q' a) -> (forall e, T e -> T' e) -> triple J J' m Q' T' K.
Proof.
  intros Hm HQ HT s Hs. generalize (Hm s Hs). destruct (m s) as [[a|e|] s']; intuition auto.
Qed.

Lemma triple_lift J {A} (o : outcome IrTrap A) (Q : A -> Prop) (T : IrTrap -> Prop) (K : Prop) :
  match o with Ret a => Q a | Trap e => T e | Panic => K end -> triple J J (lift o) Q T K.
Proof. intros Ho s Hs. unfold lift. destruct o; [done|done|]. split; [apply Hs|done]. Qed.

Lemma triple_trap J {A} e (Q : A -> Prop) (T : IrTrap -> Prop) K : T e -> triple J J (trap e) Q T K.
Proof. intros HT s Hs. done. Qed.

Lemma triple_guard J b e (T : IrTrap -> Prop) K :
  (b = false -> T e) -> triple J J (guard b e) (fun _ => b = true) T K.
Proof. intros HT s Hs. destruct b; simpl; auto. Qed.

Lemma triple_get_host J J' {A} (f : H -> IrM H A) Q T K :
  (forall h, J h -> triple (eq h) J' (f h) Q T K) -> triple J J' (get_host ≫= f) Q T K.
Proof.
  intros Hf [vm h] (Hvm & Hc & Hh). irm. apply (Hf h Hh (vm, h)). done.
Qed.

Lemma triple_put_host J J' h T K : J' h -> triple J J' (put_host h) (fun _ => True) T K.
Proof. intros Hh [vm h'] (Hvm & Hc & _). done. Qed.

Lemma triple_get_vm J J' {A} (f : Vm -> IrM H A) Q T K :
  (forall vm h, I J (vm, h) -> match f vm (vm, h) with
     | (Ret a, s') => I J' s' /\ Q a | (Trap e, s') => I J' s' /\ T e | (Panic, s') => J' s'.2 /\ K end) ->
  triple J J' (get_vm ≫= f) Q T K.
Proof. intros Hf [vm h] Hs. irm. by apply Hf. Qed.

(** The traps the operand and call stacks, the memory and the host raise. *)
Definition data_trap (e : IrTrap) : Prop :=
  e <> BadOpcode /\ e <> BadTarget /\ e <> IrTruncated /\ e <> TooLong.

Lemma data_trap_ok e : data_trap e <->
  (match e with BadOpcode | BadTarget | IrTruncated | TooLong => false | _ => true end) = true.
Proof. unfold data_trap. destruct e; intuition congruence. Qed.
Arguments data_trap : simpl never.
Arguments I : simpl never.

(** ** Stack and memory *)

Lemma triple_push J v K : fits_i64 v -> triple J J (push v) (fun _ => True) data_trap K.
Proof.
  intros Hv [vm h] (Hvm & Hc & Hg). unfold push. irm. cbn in *.
  destruct (Z.ltb_spec (sp vm) STACK_SIZE) as [Hlt|]; cbn; [|by rewrite data_trap_ok].
  destruct (index_in_range (E:=IrTrap) (stack vm) (sp vm)) as (x & -> & _).
  { destruct Hvm. lia. }
  cbn. split; [|done]. split; [|done]. destruct Hvm. split; cbn; try done.
  - unfold zlen in *. by rewrite length_insert.
  - lia.
  - by apply Forall_insert.
Qed.

Lemma triple_pop J K : triple J J pop fits_i64 data_trap K.
Proof.
  intros [vm h] (Hvm & Hc & Hg). unfold pop. irm. cbn in *.
  destruct (Z.eqb_spec (sp vm) 0) as [|Hne]; cbn; [by rewrite data_trap_ok|].
  destruct Hvm. destruct (index_in_range (E:=IrTrap) (stack vm) (sp vm - 1)) as (x & E & Hx); [lia|].
  rewrite E. split; [|by eapply Forall_lookup_1].
  split; [|done]. split; cbn; done || lia.
Qed.

Lemma range_bounds addr len : fits_i64 addr -> 0 <= len < 2 ^ 63 ->
  range oc addr len = Trap MemOob \/
  (range oc addr len = Ret (addr, addr + len) /\ 0 <= addr /\ addr + len <= MEM_SIZE).
Proof.
  intros Ha Hl. unfold fits_i64 in Ha. unfold range, add_usize.
  destruct (Z.ltb_spec addr 0); [by left|].
  rewrite wrap_small by (unfold fits; lia).
  destruct (Z.ltb_spec (addr + len) (2 ^ 64)); [|lia]. cbn.
  destruct (Z.ltb_spec MEM_SIZE (addr + len)); [by left|right]. auto.
Qed.

Lemma triple_range J addr len K : fits_i64 addr -> 0 <= len < 2 ^ 63 ->
  triple J J (lift (range oc addr len))
    (fun ae => 0 <= ae.1 /\ ae.2 = ae.1 + len /\ ae.2 <= MEM_SIZE) data_trap K.
Proof.
  intros Ha Hl. apply triple_lift.
  destruct (range_bounds addr len Ha Hl) as [->|(-> & ? & ?)]; [by rewrite data_trap_ok|done].
Qed.

Lemma slice_bytes l o n : bytes_ok l -> bytes_ok (slice l o n).
Proof. intros Hl. by apply Forall_take, Forall_drop. Qed.

Lemma triple_get_mem J a e K : 0 <= a <= e -> e <= MEM_SIZE ->
  triple J J (get_mem a e) (fun bs => bytes_ok bs /\ zlen bs = e - a) data_trap K.
Proof.
  intros Ha He s Hs. pose proof Hs as ([] & _). unfold get_mem. irm.
  rewrite sub_in_range by lia. split; [done|]. split; [by apply slice_bytes|].
  unfold zlen in *. rewrite length_slice; lia.
Qed.

Lemma triple_set_mem J a e bs K : 0 <= a -> e = a + zlen bs -> e <= MEM_SIZE -> bytes_ok bs ->
  triple J J (set_mem a e bs) (fun _ => True) data_trap K.
Proof.
  intros Ha -> He Hbs [vm h] (Hvm & Hc & Hg). destruct Hvm. unfold set_mem, sub_copy, range_ok. irm. cbn in *.
  pose proof (zlen_nonneg bs). rewrite !(proj2 (Z.leb_le _ _)) by lia.
  rewrite (proj2 (Z.eqb_eq _ _)) by lia. cbn. split; [|done]. split; [|done].
  split; cbn; try done.
  - unfold zlen in *. rewrite length_update_slice; lia.
  - unfold update_slice. repeat apply Forall_app_2; try done; by (apply Forall_take || apply Forall_drop).
Qed.

(** The window a host call works on: a length that came from the guest may be
    negative, and then the addition or the slice can panic. *)
Lemma triple_window J J' {A} addr len (f : Z -> Z -> list Z -> IrM H A) Q (T : IrTrap -> Prop) (K : Prop) :
  fits_i64 addr -> K -> (forall e, data_trap e -> T e) -> (forall h, J h -> J' h) ->
  (forall a e bs, 0 <= a -> e = a + zlen bs -> e <= MEM_SIZE -> bytes_ok bs ->
     triple J J' (f a e bs) Q T K) ->
  triple J J' ('(a, e) ← lift (range oc addr len); bs ← get_mem a e; f a e bs) Q T K.
Proof.
  intros Haddr HK HT HJ Hf.
  apply triple_bind with (J1 := J) (R := fun ae => 0 <= ae.1 /\ ae.2 <= MEM_SIZE); [| |done].
  - apply triple_lift. unfold range, fits_i64 in *. destruct (Z.ltb_spec addr 0); [by apply HT, data_trap_ok|].
    destruct (add_usize oc (wrap 64 addr) len) as [e| |] eqn:Ea; cbn; [| |done].
    + destruct (Z.ltb_spec MEM_SIZE e); [by apply HT, data_trap_ok|]. cbn. split; [|done].
      rewrite wrap_small by (unfold fits; lia). lia.
    + unfold add_usize in Ea. by repeat case_bool.
  - intros [a e] [Ha He]. cbn in *. destruct (Z.le_gt_cases a e).
    + apply triple_bind with (J1 := J) (R := fun bs => bytes_ok bs /\ zlen bs = e - a); [| |done].
      * eapply triple_weaken; [apply triple_get_mem; lia| |]; auto.
      * intros bs [Hbs Hlen]. apply Hf; lia || done.
    + intros s Hs. unfold get_mem. irm. unfold sub, range_ok.
      rewrite (proj2 (Z.leb_gt a e)) by lia. rewrite andb_false_r. split; [apply HJ, Hs|done].
Qed.

(** ** Host calls *)

Variable h0 : H.

Definition known_hostcall (f : Z) : bool :=
  (f =? HC_PRINT_NUM) || (f =? HC_PRINT_STR) || (f =? HC_CAIRN_PUT) || (f =? HC_CAIRN_GET).

Definition host_trap (f : Z) (e : IrTrap) : Prop :=
  data_trap e \/ (e = BadOpcode /\ known_hostcall f = false).

Lemma triple_cap cap f (K : Prop) (body : IrM H unit) :
  (forall h, gated h0 h -> can h cap = true ->
     triple (eq h) (gated h0) body (fun _ => True) (host_trap f) K) ->
  triple (gated h0) (gated h0) (h ← get_host; guard (can h cap) MissingCapability ;; body)
    (fun _ => True) (host_trap f) K.
Proof.
  intros Hb. apply triple_get_host. intros h Hh.
  apply triple_bind with (J1 := eq h) (R := fun _ => can h cap = true); [| |by intros ? <-].
  - apply triple_guard. intros _. left. by apply data_trap_ok.
  - intros _ Hcan. by apply Hb.
Qed.

Lemma triple_pop_then J J' {A} (f : Z -> IrM H A) Q (T : IrTrap -> Prop) K :
  (forall e, data_trap e -> T e) -> (forall h, J h -> J' h) ->
  (forall v, fits_i64 v -> triple J J' (f v) Q T K) -> triple J J' (v ← pop; f v) Q T K.
Proof.
  intros HT HJ Hf. eapply triple_bind; [|apply Hf|done].
  eapply triple_weaken; [apply triple_pop| |]; auto.
Qed.

Lemma host_trap_data f e : data_trap e -> host_trap f e.
Proof. by left. Qed.

Lemma triple_hostcall f (K : Prop) : K ->
  triple (gated h0) (gated h0) (hostcall oc f) (fun _ => True) (host_trap f) K.
Proof.
  intros HK. unfold hostcall.
  destruct (f =? HC_PRINT_NUM) eqn:E0; [|destruct (f =? HC_PRINT_STR) eqn:E1;
    [|destruct (f =? HC_CAIRN_PUT) eqn:E2; [|destruct (f =? HC_CAIRN_GET) eqn:E3]]].
  - apply triple_cap. intros h Hh Hc. apply triple_pop_then; [apply host_trap_data|by intros ? <-|].
    intros v _. apply triple_get_host. intros ? <-. apply triple_put_host. by constructor.
  - apply triple_cap. intros h Hh Hc.
    do 2 (apply triple_pop_then; [apply host_trap_data|by intros ? <-|]; intros ??).
    apply triple_window; [done|done|apply host_trap_data|by intros ? <-|]. intros a e bs _ _ _ _.
    apply triple_get_host. intros ? <-. apply triple_put_host. by constructor.
  - apply triple_cap. intros h Hh Hc.
    do 2 (apply triple_pop_then; [apply host_trap_data|by intros ? <-|]; intros ??).
    apply triple_window; [done|done|apply host_trap_data|by intros ? <-|]. intros a e bs _ _ _ _.
    apply triple_get_host. intros ? <-. destruct (cairn_put h bs) as [h' ok] eqn:Ep.
    apply triple_bind with (J1 := gated h0) (R := fun _ => True); [| |done].
    + apply triple_put_host. replace h' with (cairn_put h bs).1 by (by rewrite Ep). by constructor.
    + intros _ _. apply triple_weaken with (Q := fun _ => ok = true) (T := host_trap f); [|done|done].
      apply triple_guard. intros _. left. by apply data_trap_ok.
  - apply triple_cap. intros h Hh Hc.
    do 2 (apply triple_pop_then; [apply host_trap_data|by intros ? <-|]; intros ??).
    apply triple_window; [done|done|apply host_trap_data|by intros ? <-|]. intros a e bs Ha He Hle Hbs.
    apply triple_get_host. intros ? <-. destruct (cairn_get h bs) as [[h' bs'] r] eqn:Eg.
    apply triple_bind with (J1 := gated h0) (R := fun _ => True); [| |done].
    { apply triple_put_host. replace h' with (cairn_get h bs).1.1 by (by rewrite Eg). by constructor. }
    intros _ _. apply triple_bind with (J1 := gated h0) (R := fun _ => True); [| |done].
    { eapply triple_weaken; [eapply triple_set_mem| |apply host_trap_data]; auto.
      - unfold zlen in *. by rewrite (cairn_get_len _ _ _ _ _ Eg).
      - by eapply cairn_get_bytes. }
    intros _ _. destruct r as [n|].
    + eapply triple_weaken; [apply triple_push; apply fits_i64_wrap| |apply host_trap_data]; done.
    + apply triple_trap. left. by apply data_trap_ok.
  - apply triple_trap. right. split; [done|]. unfold known_hostcall. by rewrite E0, E1, E2, E3.
Qed.

(** ** One step *)

(** Why a step traps: the data it works on, an instruction that is cut off or
    unknown, or a host call with an unknown number. *)
Definition step_trap (pc op : Z) (e : IrTrap) : Prop :=
  data_trap e \/
  (e = IrTruncated /\ ~ complete_at code pc) \/
  (e = BadOpcode /\ (op_size op = None \/
     (op = HOSTCALL /\ exists f, code !! Z.to_nat (pc + 1) = Some f /\ known_hostcall f = false))).

(** The only instructions that can panic. *)
Definition panic_op (op : Z) : bool := (op =? DIV) || (op =? MOD) || (op =? HOSTCALL).

Definition goes_to_B (o : option Z) : Prop := match o with Some pc => B pc | None => True end.

Lemma step_trap_data pc op e : data_trap e -> step_trap pc op e.
Proof. by left. Qed.

Lemma triple_push_then J {A} v (m : IrM H A) Q (T : IrTrap -> Prop) K :
  fits_i64 v -> (forall e, data_trap e -> T e) -> triple J J m Q T K -> triple J J (push v ;; m) Q T K.
Proof.
  intros Hv HT Hm. apply triple_bind with (J1 := J) (R := fun _ => True); [|by intros|done].
  eapply triple_weaken; [by apply triple_push| |]; auto.
Qed.

Lemma triple_set_mem_then J {A} a e bs (m : IrM H A) Q (T : IrTrap -> Prop) K :
  0 <= a -> e = a + zlen bs -> e <= MEM_SIZE -> bytes_ok bs ->
  (forall e, data_trap e -> T e) -> triple J J m Q T K -> triple J J (set_mem a e bs ;; m) Q T K.
Proof.
  intros Ha He Hle Hbs HT Hm. apply triple_bind with (J1 := J) (R := fun _ => True); [|by intros|done].
  eapply triple_weaken; [by apply triple_set_mem| |]; auto.
Qed.

Lemma triple_range_then J {A} addr len (f : Z * Z -> IrM H A) Q (T : IrTrap -> Prop) K :
  fits_i64 addr -> 0 <= len < 2 ^ 63 -> (forall e, data_trap e -> T e) ->
  (forall a, 0 <= a -> a + len <= MEM_SIZE -> triple J J (f (a, a + len)) Q T K) ->
  triple J J (ae ← lift (range oc addr len); f ae) Q T K.
Proof.
  intros Ha Hl HT Hf. eapply triple_bind; [eapply triple_weaken; [by apply triple_range|done|done]| |done].
  intros [a e] (? & He & ?). cbn in *. subst e. by apply Hf.
Qed.

Section Step.
Variables pc op : Z.
Hypothesis Hcode : bytes_ok code.
Hypothesis Hpc : 0 <= pc < zlen code.
Hypothesis Hop : code !! Z.to_nat pc = Some op.
Hypothesis Hnext : forall size, op_size op = Some size -> pc + size <= zlen code -> B (pc + size).
Hypothesis Hjump : forall t, is_branch op = true -> target_at code pc = Some t -> B t.

Local Abbreviation G := (gated h0).
Local Abbreviation TS := (step_trap pc op).

Lemma truncated_trap size : op_size op = Some size -> zlen code < pc + size -> TS IrTruncated.
Proof.
  intros Hs Hlt. right; left. split; [done|]. intros (size' & Hs' & ?).
  unfold size_at in Hs'. rewrite Hop in Hs'. cbn in Hs'. simplify_eq. lia.
Qed.

(** The operand of a branch, and the room for it. *)
Lemma triple_target {A} (f : Z -> IrM H A) Q K : is_branch op = true ->
  (forall t, B t -> B (pc + 1 + 2) -> triple G G (f t) Q TS K) ->
  triple G G (t ← lift (target code (pc + 1)); f t) Q TS K.
Proof.
  intros Hbr Hf. pose proof (op_size_branch _ Hbr) as Hsz.
  apply triple_bind with (J1 := G) (R := fun t => B t /\ B (pc + 1 + 2));
    [|by intros t [? ?]; apply Hf|done].
  apply triple_lift. unfold target.
  destruct (Z.ltb_spec (zlen code) (pc + 1 + 2)); [by apply (truncated_trap 3); [|lia]|].
  destruct (index_in_range (E:=IrTrap) code (pc + 1)) as (b0 & -> & L0); [lia|].
  destruct (index_in_range (E:=IrTrap) code (pc + 1 + 1)) as (b1 & -> & L1); [lia|]. cbn.
  split; [|replace (pc + 1 + 2) with (pc + 3) by lia; apply Hnext; [done|lia]].
  apply Hjump; [done|]. unfold target_at.
  replace (pc + 2) with (pc + 1 + 1) by lia. by rewrite L0, L1.
Qed.

Lemma triple_goes J K pc' : B pc' -> triple J J (mret (Some pc')) goes_to_B TS K.
Proof. intros. by apply triple_ret. Qed.

Lemma triple_call K t : op = CALL -> B t -> B (pc + 1 + 2) ->
  triple G G (vm ← get_vm; guard (csp vm <? CALL_SIZE) CallOverflow ;;
    _ ← lift (index (calls vm) (csp vm));
    put_vm (mkVm (stack vm) (sp vm) (<[Z.to_nat (csp vm) := pc + 1 + 2]> (calls vm)) (csp vm + 1) (mem vm)) ;;
    mret (Some t)) goes_to_B TS K.
Proof.
  intros -> Ht Hr. apply triple_get_vm. intros vm h (Hvm & Hc & Hh). irm. cbn in *.
  destruct (Z.ltb_spec (csp vm) CALL_SIZE); [|split; [done|]; by apply step_trap_data, data_trap_ok].
  destruct Hvm. destruct (index_in_range (E:=IrTrap) (calls vm) (csp vm)) as (x & -> & _); [lia|].
  split; [|done]. split; [split; cbn; try done; [unfold zlen in *; by rewrite length_insert|lia]|].
  split; [|done]. cbn. intros i r Hi Hi0. destruct (decide (i = csp vm)) as [->|Hne].
  - rewrite list_lookup_insert_eq by (unfold zlen in *; lia). by intros [= <-].
  - rewrite list_lookup_insert_ne by lia. apply Hc; lia.
Qed.

Lemma triple_return K : op = RET ->
  triple G G (vm ← get_vm; guard (negb (csp vm =? 0)) CallUnderflow ;;
    put_vm (mkVm (stack vm) (sp vm) (calls vm) (csp vm - 1) (mem vm)) ;;
    r ← lift (index (calls vm) (csp vm - 1)); mret (Some r)) goes_to_B TS K.
Proof.
  intros ->. apply triple_get_vm. intros vm h (Hvm & Hc & Hh). irm. cbn in *.
  destruct (Z.eqb_spec (csp vm) 0); [split; [done|]; by apply step_trap_data, data_trap_ok|].
  destruct Hvm. destruct (index_in_range (E:=IrTrap) (calls vm) (csp vm - 1)) as (x & E & Lx); [lia|].
  cbn. rewrite E. split; [|cbn; eapply Hc, Lx; lia].
  split; [split; cbn; done || lia|]. split; [|done]. cbn. intros i r ???. apply (Hc i); done || lia.
Qed.

Lemma arith_fits o a b r : fits_i64 a -> fits_i64 b -> arith o a b = Ret r -> fits_i64 r.
Proof.
  intros Ha Hb. unfold arith.
  destruct (o =? ADD); [intros [= <-]; apply fits_i64_wrap|].
  destruct (o =? SUB); [intros [= <-]; apply fits_i64_wrap|].
  destruct (o =? MUL); [intros [= <-]; apply fits_i64_wrap|].
  destruct (Z.eqb_spec b 0) as [|Hb0]; [done|].
  destruct ((a =? _) && _) eqn:E4; [done|].
  assert (Hrem : fits_i64 (Z.rem a b)).
  { unfold fits_i64 in *. pose proof (Z.rem_bound_abs a b ltac:(done)).
    destruct (Z.abs_spec (Z.rem a b)) as [[? ?]|[? ?]], (Z.abs_spec b) as [[? ?]|[? ?]]; lia. }
  assert (Hquot : fits_i64 (Z.quot a b)).
  { unfold fits_i64 in *. apply andb_false_iff in E4. rewrite !Z.eqb_neq in E4.
    pose proof (Z.quot_abs a b ltac:(done)) as Habs. 
    destruct (decide (Z.abs b = 1)) as [Hb1|Hb1].
    - rewrite Hb1, Z.quot_1_r in Habs. assert (b = 1 \/ b = -1) as [-> | ->] by lia.
      + rewrite Z.quot_1_r. lia.
      + lia.
    - assert (Z.abs (Z.quot a b) < 2 ^ 63); [|lia]. rewrite <- Habs, Z.quot_div_nonneg by lia.
      apply Z.div_lt_upper_bound; nia. }
  destruct (o =? DIV); intros [= <-]; done.
Qed.

Lemma step_lookup : index (E:=IrTrap) code pc = Ret op.
Proof. apply index_lookup; [done|lia]. Qed.

Lemma B_next1 : op_size op = Some 1 -> B (pc + 1).
Proof. intros Hs. apply Hnext; [done|lia]. Qed.

Lemma triple_push_imm K : op = PUSH ->
  triple G G (guard (negb (zlen code <? pc + 1 + 8)) IrTruncated ;;
    b ← lift (sub code (pc + 1) (pc + 1 + 8)); push (to_i64 (le_val b)) ;; mret (Some (pc + 1 + 8)))
    goes_to_B TS K.
Proof.
  intros Eop. assert (Hs : op_size op = Some 9) by (by rewrite Eop).
  eapply triple_bind; [apply triple_guard|cbn beta|done].
  { intros E. bool_to_prop. apply (truncated_trap 9); [done|lia]. }
  intros _ E. bool_to_prop. rewrite sub_in_range by lia.
  apply triple_bind with (J1 := G) (R := fun b => bytes_ok b /\ length b = 8%nat); [| |done].
  { apply triple_lift. split; [by apply slice_bytes|]. unfold zlen in *. rewrite length_slice; lia. }
  intros b [Hb Hl]. apply triple_push_then; [|apply step_trap_data|].
  - apply fits_i64_to_i64. pose proof (le_val_fits b Hb) as Hf. by rewrite Hl in Hf.
  - apply triple_goes. replace (pc + 1 + 8) with (pc + 9) by lia. apply Hnext; [done|lia].
Qed.

Lemma triple_load8 K : op = LOAD8 ->
  triple G G (addr ← pop; '(a, _) ← lift (range oc addr 1);
    vm ← get_vm; v ← lift (index (mem vm) a); push v ;; mret (Some (pc + 1))) goes_to_B TS K.
Proof.
  intros Eop. apply triple_pop_then; [apply step_trap_data|done|]. intros addr Ha.
  apply triple_range_then; [done|lia|apply step_trap_data|]. intros a Ha0 Ha1.
  apply triple_get_vm. intros vm h Hs. pose proof Hs as ([] & _). cbn [fst] in *.
  destruct (index_in_range (E:=IrTrap) (mem vm) a) as (v & E & Lv); [lia|].
  assert (Hv : fits 8 v) by (by eapply Forall_lookup_1).
  unfold mbind at 1, IrM_bind at 1, lift at 1. rewrite E.
  apply (triple_push_then G v (mret (Some (pc + 1))) goes_to_B TS K); [by apply fits_i64_byte|apply step_trap_data| |done].
  apply triple_goes, B_next1. by rewrite Eop.
Qed.

Lemma triple_host K : op = HOSTCALL -> K ->
  triple G G (guard (pc + 1 <? zlen code) IrTruncated ;; f ← lift (index code (pc + 1));
    hostcall oc f ;; mret (Some (pc + 1 + 1))) goes_to_B TS K.
Proof.
  intros Eop HK. assert (Hs : op_size op = Some 2) by (by rewrite Eop).
  eapply triple_bind; [apply triple_guard|cbn beta|done].
  { intros E. bool_to_prop. apply (truncated_trap 2); [done|lia]. }
  intros _ E. bool_to_prop. destruct (index_in_range (E:=IrTrap) code (pc + 1)) as (f & -> & Lf); [lia|].
  apply triple_bind with (J1 := G) (R := eq f); [by apply triple_lift|intros ? <-|done].
  apply triple_bind with (J1 := G) (R := fun _ => True); [| |done].
  - eapply triple_weaken; [by apply triple_hostcall|done|].
    intros e [?|[-> ?]]; [by left|]. right; right. split; [done|]. right. eauto.
  - intros _ _. apply triple_goes. replace (pc + 1 + 1) with (pc + 2) by lia. apply Hnext; [done|lia].
Qed.

Lemma triple_step (K : Prop) : (panic_op op = true -> K) ->
  triple G G (step oc code pc) goes_to_B TS K.
Proof.
  intros HK. unfold step. apply triple_bind with (J1 := G) (R := eq op); [|intros ? <-|done].
  { apply triple_lift. by rewrite step_lookup. }
  pose proof (step_trap_data pc op) as HT. pose proof B_next1 as Hn1.
  destruct (Z.eqb_spec op HALT) as [|N0]; [by apply triple_ret|].
  destruct (Z.eqb_spec op PUSH) as [|N1]; [by apply triple_push_imm|].
  destruct (Z.eqb_spec op POP) as [Eo|N2].
  { apply triple_pop_then; [done|done|]. intros. by (apply triple_goes, Hn1; rewrite ?Eo). }
  destruct (Z.eqb_spec op DUP) as [Eo|N3].
  { apply triple_pop_then; [done|done|]. intros. do 2 (apply triple_push_then; [done|done|]).
    by (apply triple_goes, Hn1; rewrite ?Eo). }
  destruct (Z.eqb_spec op SWAP) as [Eo|N4].
  { do 2 (apply triple_pop_then; [done|done|]; intros). do 2 (apply triple_push_then; [done|done|]).
    by (apply triple_goes, Hn1; rewrite ?Eo). }
  destruct ((op =? ADD) || _ || _ || _ || _) eqn:Ea.
  { assert (Hs : op_size op = Some 1).
    { rewrite !orb_true_iff, !Z.eqb_eq in Ea. by destruct Ea as [[[[->| ->]| ->]| ->]| ->]. }
    apply triple_pop_then; [done|done|]; intros b Hb. apply triple_pop_then; [done|done|]; intros a Ha.
    apply triple_bind with (J1 := G) (R := fits_i64); [apply triple_lift| |done].
    - destruct (arith op a b) as [r|e|] eqn:Er; [by eapply arith_fits; [apply Ha|apply Hb|]| |].
      + apply HT, data_trap_ok. unfold arith in Er. by repeat case_bool; simplify_eq.
      + apply HK. unfold panic_op. unfold arith in Er. rewrite !orb_true_iff in *.
        repeat case_bool. intuition congruence.
    - intros r Hr. apply triple_push_then; [done|done|]. by (apply triple_goes, Hn1; rewrite ?Eo). }
  destruct ((op =? LT) || _ || _) eqn:Ec.
  { assert (Hs : op_size op = Some 1).
    { rewrite !orb_true_iff, !Z.eqb_eq in Ec. by destruct Ec as [[->| ->]| ->]. }
    do 2 (apply triple_pop_then; [done|done|]; intros ??). cbn zeta.
    apply triple_push_then; [|done|by (apply triple_goes, Hn1; rewrite ?Eo)].
    destruct (if op =? LT then _ else _); done. }
  destruct (Z.eqb_spec op LOAD8) as [|N5]; [by apply triple_load8|].
  destruct (Z.eqb_spec op STORE8) as [Eo|N6].
  { do 2 (apply triple_pop_then; [done|done|]; intros ??).
    apply triple_range_then; [done|lia|done|]. intros x Hx Hx1.
    apply triple_set_mem_then; try done; [|by (apply triple_goes, Hn1; rewrite ?Eo)].
    repeat constructor; apply wrap_fits; lia. }
  destruct (Z.eqb_spec op LOAD64) as [Eo|N7].
  { apply triple_pop_then; [done|done|]; intros ??.
    apply triple_range_then; [done|lia|done|]. intros x Hx Hx1.
    eapply triple_bind; [eapply triple_weaken; [apply triple_get_mem; lia|done|done]| |done].
    intros b [Hb Hl]. apply triple_push_then; [|done|by (apply triple_goes, Hn1; rewrite ?Eo)].
    apply fits_i64_to_i64. pose proof (le_val_fits b Hb) as Hf. unfold zlen in Hl.
    by replace (length b) with 8%nat in Hf by lia. }
  destruct (Z.eqb_spec op STORE64) as [Eo|N8].
  { do 2 (apply triple_pop_then; [done|done|]; intros ??).
    apply triple_range_then; [done|lia|done|]. intros x Hx Hx1.
    apply triple_set_mem_then; try done; [apply le_bytes_ok|by (apply triple_goes, Hn1; rewrite ?Eo)]. }
  destruct (Z.eqb_spec op JMP) as [Eo|N9].
  { apply triple_target; [by rewrite Eo|]. intros. by apply triple_goes. }
  destruct (Z.eqb_spec op JZ) as [Eo|N10].
  { apply triple_target; [by rewrite Eo|]. intros. apply triple_pop_then; [done|done|]. intros v _.
    apply triple_goes. by destruct (v =? 0). }
  destruct (Z.eqb_spec op JNZ) as [Eo|N11].
  { apply triple_target; [by rewrite Eo|]. intros. apply triple_pop_then; [done|done|]. intros v _.
    apply triple_goes. by destruct (v =? 0). }
  destruct (Z.eqb_spec op CALL) as [Eo|N12].
  { apply triple_target; [by rewrite Eo|]. intros. by apply triple_call. }
  destruct (Z.eqb_spec op RET) as [|N13]; [by apply triple_return|].
  destruct (Z.eqb_spec op HOSTCALL) as [|N14].
  { apply triple_host; [done|]. apply HK. unfold panic_op. rewrite e. done. }
  apply triple_trap. right; right. split; [done|]. left. unfold op_size.
  bool_to_prop. by repeat rewrite (proj2 (Z.eqb_neq op _)) by done.
Qed.

End Step.

(** ** Whole runs *)

(** [B] is closed under the control flow of [code]. *)
Definition closed_flow : Prop :=
  forall pc op, B pc -> 0 <= pc < zlen code -> code !! Z.to_nat pc = Some op ->
  (forall size, op_size op = Some size -> pc + size <= zlen code -> B (pc + size)) /\
  (forall t, is_branch op = true -> target_at code pc = Some t -> B t).

Lemma run_fuel_safe n pc s r s' :
  bytes_ok code -> closed_flow -> (forall pc, B pc -> 0 <= pc) -> B pc ->
  I (gated h0) s -> run_fuel oc n code pc s = Some (r, s') ->
  gated h0 s'.2 /\
  (forall e, r = Trap e -> exists pc op, B pc /\ pc < zlen code /\
     code !! Z.to_nat pc = Some op /\ step_trap pc op e).
Proof.
  intros Hok Hfl Hpos. revert pc s. induction n as [|n IH]; intros pc s HB Hs; simpl;
    destruct (Z.leb_spec (zlen code) pc) as [|Hlt]; intros Hr; simplify_eq; try by (split; [apply Hs|]).
  pose proof (Hpos pc HB). destruct (index_in_range (E:=IrTrap) code pc) as (op & _ & Hop); [lia|].
  destruct (Hfl pc op HB ltac:(lia) Hop) as [Hnext Hjump].
  pose proof (triple_step pc op Hok ltac:(lia) Hop Hnext Hjump True ltac:(done) s Hs) as Ht.
  destruct (step oc code pc s) as [[[pc'|]|e|] s1]; simplify_eq.
  - destruct Ht as [Hs1 HB1]. by apply (IH pc' s1).
  - split; [apply Ht|done].
  - destruct Ht as [Hs1 He]. split; [apply Hs1|]. intros ? [= <-]. by exists pc, op.
  - by split; [apply Ht|].
Qed.

(** The same at every moment of a run, whether it ends or not. *)
Lemma turns_safe n pc s :
  bytes_ok code -> closed_flow -> (forall pc, B pc -> 0 <= pc) -> B pc -> I (gated h0) s ->
  gated h0 (turns oc n code pc s).2.
Proof.
  intros Hok Hfl Hpos. revert pc s. induction n as [|n IH]; intros pc s HB Hs; simpl;
    destruct (Z.leb_spec (zlen code) pc) as [|Hlt]; try apply Hs.
  pose proof (Hpos pc HB). destruct (index_in_range (E:=IrTrap) code pc) as (op & _ & Hop); [lia|].
  destruct (Hfl pc op HB ltac:(lia) Hop) as [Hnext Hjump].
  pose proof (triple_step pc op Hok ltac:(lia) Hop Hnext Hjump True ltac:(done) s Hs) as Ht.
  destruct (step oc code pc s) as [[[pc'|]|e|] s1]; try apply Ht. destruct Ht as [Hs1 HB1]. by apply (IH pc' s1).
Qed.


End Safety.

(** ** When a step panics *)

Section Panics.
Context `{HL : HostLaws H} (oc : bool) (code : list Z).

Lemma I_true vm (h : H) : vm_ok vm -> I (fun _ => True) (fun _ => True) (vm, h).
Proof. done. Qed.

Definition top2 (vm : Vm) : option (Z * Z) :=
  if 2 <=? sp vm then
    b ← stack vm !! Z.to_nat (sp vm - 1); a ← stack vm !! Z.to_nat (sp vm - 2); Some (a, b)
  else None.

Definition hostcall_cap (f : Z) : option Z :=
  if (f =? HC_PRINT_STR) then Some CAP_PRINT
  else if f =? HC_CAIRN_PUT then Some CAP_WRITE
  else if f =? HC_CAIRN_GET then Some CAP_READ else None.

(** Division overflow, or a permitted host call on the window
    [addr .. addr + len] with a negative [len] that wraps back into range. *)
Definition panics_at (pc : Z) (s : Vm * H) : bool :=
  match code !! Z.to_nat pc, top2 s.1 with
  | Some op, Some (a, b) =>
    if (op =? DIV) || (op =? MOD) then (a =? - 2 ^ 63) && (b =? -1)
    else if op =? HOSTCALL then
      match f ← code !! Z.to_nat (pc + 1); hostcall_cap f with
      | Some c => can s.2 c && (b <? 0) && (0 <=? a + b) && (oc || (a + b <=? MEM_SIZE))
      | None => false
      end
    else false
  | _, _ => false
  end.

Definition popped2 (vm : Vm) : Vm := mkVm (stack vm) (sp vm - 2) (calls vm) (csp vm) (mem vm).

Lemma pop2 {A} vm h (f : Z -> Z -> IrM H A) : vm_ok vm ->
  (exists a b, top2 vm = Some (a, b) /\ fits_i64 a /\ fits_i64 b /\ vm_ok (popped2 vm) /\
     (b ← pop; a ← pop; f a b) (vm, h) = f a b (popped2 vm, h)) \/
  (top2 vm = None /\ ((b ← pop; a ← pop; f a b) (vm, h)).1 = Trap StackUnderflow).
Proof.
  intros []. unfold top2, pop, popped2. irm.
  destruct (Z.leb_spec 2 (sp vm)).
  - left. destruct (index_in_range (E:=IrTrap) (stack vm) (sp vm - 1)) as (b & Eb & Lb); [lia|].
    destruct (index_in_range (E:=IrTrap) (stack vm) (sp vm - 2)) as (a & Ea & La); [lia|].
    rewrite (proj2 (Z.eqb_neq (sp vm) 0)) by lia. cbn. rewrite Lb, Eb. cbn. rewrite La.
    rewrite (proj2 (Z.eqb_neq (sp vm - 1) 0)) by lia. cbn.
    replace (sp vm - 1 - 1) with (sp vm - 2) by lia. rewrite Ea.
    exists a, b. split; [done|]. split; [by eapply Forall_lookup_1|]. split; [by eapply Forall_lookup_1|].
    split; [|done]. split; cbn; done || lia.
  - right. split; [done|]. destruct (Z.eqb_spec (sp vm) 0) as [|Hne]; [done|]. cbn.
    destruct (index_in_range (E:=IrTrap) (stack vm) (sp vm - 1)) as (b & -> & Lb); [lia|].
    cbn. by rewrite (proj2 (Z.eqb_eq (sp vm - 1) 0)) by lia.
Qed.

(** The window of a host call, as the panic test sees it. *)
Lemma window_panics {A} addr len vm h (f : Z -> Z -> list Z -> IrM H A) :
  fits_i64 addr -> fits_i64 len -> vm_ok vm ->
  (forall a e bs, 0 <= a -> e = a + zlen bs -> e <= MEM_SIZE -> bytes_ok bs -> (f a e bs (vm, h)).1 <> Panic) ->
  (('(a, e) ← lift (range oc addr (wrap 64 len)); bs ← get_mem a e; f a e bs) (vm, h)).1 = Panic <->
  (len < 0 /\ 0 <= addr + len /\ (oc = true \/ addr + len <= MEM_SIZE)).
Proof.
  unfold fits_i64. intros Ha Hl [] Hf. unfold range, add_usize, get_mem. irm.
  destruct (Z.ltb_spec addr 0); cbn; [split; [done|lia]|].
  rewrite (wrap_small 64 addr) by (unfold fits; lia).
  destruct (Z.le_gt_cases 0 len) as [Hpos|Hneg].
  - rewrite wrap_small by (unfold fits; lia).
    rewrite (proj2 (Z.ltb_lt _ _)) by lia. cbn.
    destruct (Z.ltb_spec MEM_SIZE (addr + len)); cbn; [split; [done|lia]|].
    rewrite sub_in_range by lia. split; [|lia]. intros Hp. exfalso. revert Hp. apply Hf; [lia| |lia|].
    + unfold zlen in *. rewrite length_slice; lia.
    + by apply slice_bytes.
  - assert (Hw : wrap 64 len = len + 2 ^ 64).
    { unfold wrap. rewrite <- (Z.mod_add len 1) by lia. apply Z.mod_small. lia. }
    rewrite Hw. destruct (Z.ltb_spec (addr + (len + 2 ^ 64)) (2 ^ 64)); cbn.
    + rewrite (proj2 (Z.ltb_lt MEM_SIZE _)) by (unfold MEM_SIZE; lia). cbn. split; [done|lia].
    + destruct oc; [split; [intros _; lia|done]|]. cbn.
      assert (wrap 64 (addr + (len + 2 ^ 64)) = addr + len) as ->.
      { unfold wrap. rewrite Z.add_assoc, <- (Z.mul_1_l (2 ^ 64)) at 1. rewrite Z.mod_add by lia. apply Z.mod_small. lia. }
      destruct (Z.ltb_spec MEM_SIZE (addr + len)); cbn.
      * split; [done|]. intros (_ & _ & [?|?]); [done|lia].
      * unfold sub, range_ok. rewrite (proj2 (Z.leb_gt addr _)) by lia.
        rewrite andb_false_r. cbn. split; [intros _; lia|done].
Qed.

Lemma push_no_panic {A} v vm h (m : IrM H A) : vm_ok vm -> (forall s, (m s).1 <> Panic) ->
  ((push v ;; m) (vm, h)).1 <> Panic.
Proof.
  intros [] Hm. unfold push. irm. destruct (Z.ltb_spec (sp vm) STACK_SIZE); cbn; [|done].
  destruct (index_in_range (E:=IrTrap) (stack vm) (sp vm)) as (x & -> & _); [lia|]. apply Hm.
Qed.

Lemma arith_panics op a b : (op =? DIV) || (op =? MOD) = true ->
  arith op a b = Panic <-> (a =? - 2 ^ 63) && (b =? -1) = true.
Proof.
  intros Hop. unfold arith. rewrite orb_true_iff, !Z.eqb_eq in Hop. destruct Hop as [->| ->]; cbn;
    (destruct (Z.eqb_spec b 0) as [->|]; [by rewrite andb_false_r|]);
    by destruct ((a =? _) && _).
Qed.

Lemma step_div_panics pc op vm h : 0 <= pc -> code !! Z.to_nat pc = Some op ->
  (op =? DIV) || (op =? MOD) = true -> vm_ok vm ->
  (step oc code pc (vm, h)).1 = Panic <-> panics_at pc (vm, h) = true.
Proof.
  intros Hpc Hop Hdm Hvm. unfold panics_at. rewrite Hop, Hdm.
  assert (Hst : step oc code pc (vm, h) =
    (b ← pop; a ← pop; r ← lift (arith op a b); push r ;; mret (Some (pc + 1))) (vm, h)).
  { unfold step. unfold mbind at 1, IrM_bind at 1, lift at 1. rewrite (index_lookup _ _ op) by done.
    rewrite orb_true_iff, !Z.eqb_eq in Hdm. by destruct Hdm as [->| ->]. }
  rewrite Hst. destruct (pop2 vm h (fun a b => r ← lift (arith op a b); push r ;; mret (Some (pc + 1))) Hvm)
    as [(a & b & Et & _ & _ & Hvm' & ->)|[Et ->]]; cbn [fst]; rewrite Et; [|done].
  rewrite <- (arith_panics op a b Hdm). unfold mbind at 1, IrM_bind at 1, lift at 1.
  destruct (arith op a b); [|done..]. split; [|done]. intros Hp. exfalso. revert Hp.
  by apply push_no_panic.
Qed.

Lemma guarded_host {A} c e (m : IrM H A) vm h :
  (h ← get_host; guard (can h c) e ;; m) (vm, h) = if can h c then m (vm, h) else (Trap e, (vm, h)).
Proof. irm. by destruct (can h c). Qed.

Lemma hostcall_window_panics f c vm h : hostcall_cap f = Some c -> vm_ok vm ->
  (hostcall oc f (vm, h)).1 = Panic <->
  match top2 vm with
  | Some (a, b) => can h c && (b <? 0) && (0 <=? a + b) && (oc || (a + b <=? MEM_SIZE)) = true
  | None => False
  end.
Proof.
  intros Hf Hvm.
  assert (Hbody : exists g : Z -> Z -> list Z -> IrM H unit,
    hostcall oc f = (h ← get_host; guard (can h c) MissingCapability ;;
      len ← pop; addr ← pop; '(a, e) ← lift (range oc addr (wrap 64 len)); bs ← get_mem a e; g a e bs) /\
    forall a e bs, 0 <= a -> e = a + zlen bs -> e <= MEM_SIZE -> bytes_ok bs -> forall vm, vm_ok vm ->
      (g a e bs (vm, h)).1 <> Panic).
  { unfold hostcall_cap in Hf. unfold hostcall.
    destruct (Z.eqb_spec f HC_PRINT_STR) as [->|]; [|destruct (Z.eqb_spec f HC_CAIRN_PUT) as [->|];
      [|destruct (Z.eqb_spec f HC_CAIRN_GET) as [->|]; [|done]]]; injection Hf as <-; cbn;
      (eexists; split; [reflexivity|]); cbn; intros a e bs Ha He Hle Hbs vm' Hvm'; irm.
    - done.
    - by destruct (cairn_put h bs) as [h' []].
    - destruct (cairn_get h bs) as [[h' bs'] r] eqn:Eg. irm.
      assert (Hl : zlen bs' = zlen bs) by (unfold zlen; by rewrite (cairn_get_len _ _ _ _ _ Eg)).
      pose proof (triple_set_mem (fun _ => True) (fun _ => True) a e bs' False Ha ltac:(by rewrite Hl)
        Hle (cairn_get_bytes _ _ _ _ _ Hbs Eg) (vm', h') (I_true _ _ Hvm')) as Hset.
      destruct (set_mem a e bs' (vm', h')) as [[u|t|] [vm2 h2]]; [|done|by destruct Hset].
      destruct r as [cnt|]; [|done]. destruct Hset as [(Hvm2 & _) _].
      pose proof (triple_push (fun _ => True) (fun _ => True) (wrap_i64 cnt) False (fits_i64_wrap cnt)
        (vm2, h2) (I_true _ _ Hvm2)) as Hpush.
      destruct (push (wrap_i64 cnt) (vm2, h2)) as [[]]; [done|done|by destruct Hpush]. }
  destruct Hbody as (g & -> & Hg). rewrite guarded_host.
  destruct (can h c); cbn [fst]; [|by destruct (top2 vm) as [[]|]].
  destruct (pop2 vm h (fun addr len => '(a, e) ← lift (range oc addr (wrap 64 len));
    bs ← get_mem a e; g a e bs) Hvm) as [(a & b & -> & Ha & Hb & Hvm' & Hrun)|[-> Hrun]];
    rewrite Hrun; [|done].
  rewrite (window_panics a b (popped2 vm) h g Ha Hb Hvm') by (intros; by apply Hg).
  rewrite !andb_true_iff, orb_true_iff, Z.ltb_lt, !Z.leb_le. tauto.
Qed.

Lemma hostcall_other_no_panic f vm h : hostcall_cap f = None -> vm_ok vm -> (hostcall oc f (vm, h)).1 <> Panic.
Proof.
  unfold hostcall_cap, hostcall. intros Hf Hvm.
  destruct (f =? HC_PRINT_STR); [done|]. destruct (f =? HC_CAIRN_PUT); [done|].
  destruct (f =? HC_CAIRN_GET); [done|]. destruct (f =? HC_PRINT_NUM); [|done].
  irm. destruct (can h CAP_PRINT); cbn; [|done].
  pose proof (triple_pop (fun _ => True) (fun _ => True) False (vm, h) (I_true _ _ Hvm)) as Hp.
  destruct (pop (vm, h)) as [[]]; [done|done|by destruct Hp].
Qed.

Lemma step_hostcall_panics pc vm h : bytes_ok code -> 0 <= pc -> code !! Z.to_nat pc = Some HOSTCALL -> vm_ok vm ->
  (step oc code pc (vm, h)).1 = Panic <-> panics_at pc (vm, h) = true.
Proof.
  intros Hok Hpc Hop Hvm. unfold panics_at. rewrite Hop. cbn [fst snd].
  unfold step. unfold mbind at 1, IrM_bind at 1, lift at 1. rewrite (index_lookup _ _ HOSTCALL) by done. cbn -[top2].
  irm. destruct (Z.ltb_spec (pc + 1) (zlen code)) as [Hlt|Hge]; cbn -[top2].
  - destruct (index_in_range (E:=IrTrap) code (pc + 1)) as (f & -> & Lf); [lia|]. rewrite Lf. cbn -[top2].
    destruct (hostcall_cap f) as [c|] eqn:Ec.
    + pose proof (hostcall_window_panics f c vm h Ec Hvm) as Hw.
      destruct (top2 vm) as [[a b]|]; (rewrite <- Hw || idtac);
        destruct (hostcall oc f (vm, h)) as [[]]; cbn in *; intuition done.
    + pose proof (hostcall_other_no_panic f vm h Ec Hvm) as Hw.
      destruct (hostcall oc f (vm, h)) as [[]]; cbn in *; destruct (top2 vm) as [[]|]; done.
  - rewrite lookup_ge_None_2 by (unfold zlen in *; lia). cbn -[top2]. by destruct (top2 vm) as [[]|].
Qed.

Lemma step_panics_iff pc s : bytes_ok code -> 0 <= pc < zlen code -> vm_ok s.1 ->
  (step oc code pc s).1 = Panic <-> panics_at pc s = true.
Proof.
  intros Hok Hpc Hvm. destruct s as [vm h].
  destruct (index_in_range (E:=IrTrap) code pc) as (op & _ & Hop); [lia|].
  destruct ((op =? DIV) || (op =? MOD)) eqn:Hdm; [apply (step_div_panics pc op); done || lia|].
  destruct (Z.eqb_spec op HOSTCALL) as [->|Hne]; [apply step_hostcall_panics; done || lia|].
  unfold panics_at. rewrite Hop, Hdm, (proj2 (Z.eqb_neq op HOSTCALL) Hne).
  pose proof (triple_step oc code (fun _ => True) h pc op Hok Hpc Hop ltac:(done) ltac:(done) False) as Ht.
  unfold panic_op in Ht. rewrite Hdm, (proj2 (Z.eqb_neq op HOSTCALL) Hne) in Ht.
  specialize (Ht ltac:(done) (vm, h)).
  assert (Hi : I (fun _ => True) (gated h) (vm, h)) by (split; [done|split; [done|constructor]]).
  specialize (Ht Hi).
  destruct (step oc code pc (vm, h)) as [[]]; cbn; [..|by destruct Ht]; by destruct (top2 vm) as [[]|].
Qed.

End Panics.

(** ** What the engine guarantees *)

Lemma gated_powerless `{Host H} (h h' : H) : (forall c, can h c = false) -> gated h h' -> h' = h.
Proof.
  intros Hno Hg. induction Hg; [done|..]; specialize (IHHg Hno); subst; by rewrite Hno in *.
Qed.

Lemma any_flow code : bytes_ok code -> closed_flow code (fun pc => 0 <= pc).
Proof.
  intros Hok pc op Hpc _ _. split.
  - intros size Hs _. apply op_size_pos in Hs. lia.
  - intros t _. unfold target_at. destruct (code !! Z.to_nat (pc + 1)) as [b0|] eqn:E0; [|done].
    destruct (code !! Z.to_nat (pc + 2)) as [b1|] eqn:E1; [|done]. intros [= <-].
    apply le_val_two; by eapply Forall_lookup_1.
Qed.

Lemma verified_flow code : well_formed code -> closed_flow code (boundary code).
Proof.
  intros [_ Hwf] pc op Hb Hpc Hop. split.
  - intros size Hs _. apply boundary_next; [done|lia|]. unfold size_at. by rewrite Hop.
  - intros t Hbr Ht. destruct (Hwf pc Hb ltac:(lia)) as [_ Hto].
    destruct (Hto op Hop Hbr) as (t' & Ht' & _ & Hbt). congruence.
Qed.

Lemma I_start `{Host H} B (h : H) : I B (gated h) (vm0, h).
Proof.
  split; [apply vm0_ok|]. split; [|constructor]. cbn. intros. lia.
Qed.

Lemma run_inv `{Host H} oc n code (h : H) r h' : run oc n code h = Some (r, h') ->
  exists s, run_fuel oc n code 0 (vm0, h) = Some (r, s) /\ h' = s.2.
Proof.
  unfold run. destruct (run_fuel oc n code 0 (vm0, h)) as [[r' s]|]; [|done]. intros [= <- <-]. eauto.
Qed.

#[export] Instance log_host_laws : HostLaws LogHost.
Proof.
  split; cbn; intros h buf h' buf' *.
  - destruct (disk h); intros [= <- <- <-]; [|done].
    rewrite length_app, length_map, length_take, length_drop. lia.
  - intros Hb. destruct (disk h); intros [= <- <- <-]; [|done].
    apply Forall_app_2; [|by apply Forall_drop]. apply Forall_map, Forall_true. intros. by apply wrap_fits.
  - destruct (disk h); intros [= <- <- <-]. by apply wrap_fits.
Qed.

Lemma run_gated `{HostLaws H} oc n code (h : H) r h' :
  bytes_ok code -> run oc n code h = Some (r, h') -> gated h h'.
Proof.
  intros Hok Hr. destruct (run_inv _ _ _ _ _ _ Hr) as (s & Hf & ->).
  by destruct (run_fuel_safe oc code (fun pc => 0 <= pc) h n 0 (vm0, h) r s) as [Hg _];
    [done|by apply any_flow|done|done|apply I_start|done|].
Qed.

Lemma turns_gated `{HostLaws H} oc n code (h : H) : bytes_ok code -> gated h (turns oc n code 0 (vm0, h)).2.
Proof.
  intros Hok. by apply (turns_safe oc code (fun pc => 0 <= pc) h n 0 (vm0, h)); [|apply any_flow| | |apply I_start].
Qed.

(** A run that ends is where its last turn left it. *)
Lemma run_turns `{Host H} oc n code (h : H) r h' :
  run oc n code h = Some (r, h') -> h' = (turns oc n code 0 (vm0, h)).2.
Proof.
  intros Hr. destruct (run_inv _ _ _ _ _ _ Hr) as (s & Hf & ->). f_equal. clear Hr. revert Hf. generalize 0, (vm0, h).
  induction n as [|n IH]; intros pc s0; simpl; destruct (zlen code <=? pc); try congruence.
  destruct (step oc code pc s0) as [[[pc'|]|e|] s1]; try congruence. apply IH.
Qed.

(** Whatever bytes a program consists of, everything it does to the host goes through a host call whose
    capability the host grants; a host that grants nothing is left unchanged. *)
Theorem ir_host_effects_are_gated `{HostLaws H} oc n code (h : H) r h' :
  bytes_ok code -> run oc n code h = Some (r, h') ->
  gated h h' /\ ((forall c, can h c = false) -> h' = h).
Proof.
  intros Hok Hr. pose proof (run_gated _ _ _ _ _ _ Hok Hr). split; [done|].
  intros Hno. by apply gated_powerless.
Qed.

(** C33: A program the verifier accepts never traps with a truncated instruction, a bad target or an
    over-long program at run time, and traps with BadOpcode only at a HOSTCALL whose function id is
    unknown. *)
Theorem ir_verified_programs_stay_on_course `{HostLaws H} oc n code (h : H) e h' :
  bytes_ok code -> verify code = Ret tt -> run oc n code h = Some (Trap e, h') ->
  e <> IrTruncated /\ e <> BadTarget /\ e <> TooLong /\
  (e = BadOpcode -> exists pc f, boundary code pc /\ code !! Z.to_nat pc = Some HOSTCALL /\
     code !! Z.to_nat (pc + 1) = Some f /\ known_hostcall f = false).
Proof.
  intros Hok Hv Hr. destruct (run_inv _ _ _ _ _ _ Hr) as (s & Hf & ->).
  assert (Hwf : well_formed code) by (destruct (verify_decides code Hok) as [[_ ?]|(? & ? & _)]; [done|congruence]).
  destruct (run_fuel_safe oc code (boundary code) h n 0 (vm0, h) (Trap e) s) as [_ Ht];
    [done|by apply verified_flow|apply boundary_nonneg|constructor|apply I_start|done|].
  destruct (Ht e eq_refl) as (pc & op & Hb & Hlt & Hop & Hst).
  destruct (proj2 Hwf pc Hb Hlt) as [Hc _].
  destruct Hst as [(? & ? & ? & ?)|[[-> Hnc]|[-> Hbad]]]; [done|done|].
  do 3 (split; [done|]). intros _. destruct Hbad as [Hnone|[-> (f & Hf1 & Hf2)]]; [|by exists pc, f].
  destruct Hc as (size & Hs & _). unfold size_at in Hs. rewrite Hop in Hs. cbn in Hs. congruence.
Qed.

(** C34: One interpreter step from a sane machine panics exactly when it divides i64::MIN by -1 (DIV or
    MOD), or makes a host call the host allows on a window whose length is negative and whose end
    address + length is not (without overflow checks, only when that end is within the memory too);
    every other step returns or traps. *)
Theorem ir_step_panics_exactly `{HostLaws H} oc code pc (s : Vm * H) :
  bytes_ok code -> 0 <= pc < zlen code -> vm_ok s.1 ->
  ((step oc code pc s).1 = Panic <-> panics_at oc code pc s = true).
Proof. intros. by apply step_panics_iff. Qed.

(** ** Witnesses and the demo programs *)

Definition scratch : list Z := replicate 1024 0.

Definition print_host : LogHost := mkLog CAP_PRINT None [].

Definition asm_or_nil (o : outcome Empty_set (list Z)) : list Z :=
  match o with Ret c => c | _ => [] end.

Definition sum_code : list Z := Eval vm_compute in asm_or_nil (demo_sum scratch).

(** The assembler's demo program verifies, prints exactly 15 when it holds CAP_PRINT, and otherwise
    traps with MissingCapability and no effect. *)
Theorem ir_demo_sum_prints_15 oc :
  demo_sum scratch = Ret sum_code /\ verify sum_code = Ret tt /\
  run oc 200 sum_code print_host = Some (Ret tt, mkLog CAP_PRINT None [PrintedNum 15]) /\
  run oc 200 sum_code (mkLog 0 None []) = Some (Trap MissingCapability, mkLog 0 None []).
Proof. destruct oc; vm_compute; done. Qed.

(** A guest that may print halts the kernel: the length -1 from address 1
    passes the bound test. *)
Definition bad_len_code : list Z := Eval vm_compute in asm_or_nil
  (assemble (asm_push 1 ;; asm_push (-1) ;; asm_hostcall HC_PRINT_STR ;; asm_op HALT) scratch).
Definition min_div_code : list Z := Eval vm_compute in asm_or_nil
  (assemble (asm_push (- 2 ^ 63) ;; asm_push (-1) ;; asm_op DIV ;; asm_op HALT) scratch).

(** Two concrete verified programs stop the interpreter with a panic instead of a trap: PRINT_STR with a
    negative length under CAP_PRINT, and i64::MIN / -1 with no capability at all. *)
Theorem ir_verified_guest_can_panic oc :
  verify bad_len_code = Ret tt /\ verify min_div_code = Ret tt /\
  run oc 10 bad_len_code print_host = Some (Panic, print_host) /\
  run oc 10 min_div_code (mkLog 0 None []) = Some (Panic, mkLog 0 None []).
Proof. destruct oc; vm_compute; done. Qed.

Definition spin_code : list Z := [JMP; 0; 0].

(** A verified three-byte program never terminates: no amount of fuel finishes its run, and the
    interpreter has no step budget of its own. *)
Theorem ir_verified_guest_can_spin `{Host H} oc n (h : H) :
  verify spin_code = Ret tt /\ run oc n spin_code h = None.
Proof.
  split; [done|]. unfold run.
  assert (Hs : run_fuel oc n spin_code 0 (vm0, h) = None); [|by rewrite Hs].
  induction n as [|n IH]; [done|]. apply IH.
Qed.

Lemma ir_host_effects_are_gated_witness :
  gated print_host (mkLog CAP_PRINT None [PrintedNum 15]).
Proof.
  apply (ir_host_effects_are_gated true 200 sum_code print_host (Ret tt)).
  - by apply bytes_okb_spec.
  - vm_compute. reflexivity.
Defined.

Definition unknown_call_code : list Z := [HOSTCALL; 9].

Lemma ir_verified_programs_stay_on_course_witness :
  BadOpcode <> IrTruncated /\ BadOpcode <> BadTarget /\ BadOpcode <> TooLong /\
  (BadOpcode = BadOpcode -> exists pc f, boundary unknown_call_code pc /\
     unknown_call_code !! Z.to_nat pc = Some HOSTCALL /\
     unknown_call_code !! Z.to_nat (pc + 1) = Some f /\ known_hostcall f = false).
Proof.
  apply (ir_verified_programs_stay_on_course true 5 unknown_call_code print_host BadOpcode print_host).
  - by apply bytes_okb_spec.
  - reflexivity.
  - vm_compute. reflexivity.
Defined.

Definition min_div_vm : Vm :=
  mkVm (- 2 ^ 63 :: -1 :: replicate 62 0) 2 (replicate 16 0) 0 (replicate 256 0).

Lemma ir_step_panics_exactly_witness :
  (step true [DIV] 0 (min_div_vm, print_host)).1 = Panic /\
  ((step true [DIV] 0 (min_div_vm, print_host)).1 = Panic <->
   panics_at true [DIV] 0 (min_div_vm, print_host) = true).
Proof.
  split; [reflexivity|]. apply ir_step_panics_exactly.
  - by apply bytes_okb_spec.
  - split; [done|reflexivity].
  - split; cbn; try done.
    + repeat constructor; done.
    + by apply bytes_okb_spec.
Defined.
