(* ===== verification/Mcap.v ===== *)
(** * Manifest capabilities (dezh-core/src/mcap.rs) and the authority algebra

    What a manifest may ask for, what the installed app gets, the attenuation
    by a publisher's ceiling (dezh-core/src/sig.rs) and by an intent
    (dezh-kernel/src/lib.rs, [mod authority]). *)

From Stdlib Require Import ZArith Lia String.
From stdpp Require Import base option strings numbers list.
From S2P Require Import Prelude Text Dzp Ir IrVerify IrSafety.

Definition MCAP_PRINT : Z := 1.
Definition MCAP_IPC : Z := 2.
Definition MCAP_UPTIME : Z := 4.
Definition MCAP_CAIRN_READ : Z := 8.
Definition MCAP_CAIRN_WRITE : Z := 16.

Definition MCAP_TABLE : list (str * Z) :=
  [(lit "print", MCAP_PRINT); (lit "ipc", MCAP_IPC); (lit "uptime", MCAP_UPTIME);
   (lit "cairn-read", MCAP_CAIRN_READ); (lit "cairn-write", MCAP_CAIRN_WRITE)].

Definition MCAP_ALL : Z := MCAP_PRINT .| MCAP_IPC .| MCAP_UPTIME .| MCAP_CAIRN_READ .| MCAP_CAIRN_WRITE.

Definition TASK_PRINT : Z := 1.
Definition TASK_TIME : Z := 2.
Definition TASK_IPC : Z := 4.
Definition TASK_CAIRN_NS_BASE : Z := 8.

Definition CAIRN_NS_NAMES : list str :=
  [lit "note"; lit "lab"; lit "calc"; lit "vault"; lit "agent"].

(** [iter().position(..)] *)
Fixpoint position {A} (p : A -> bool) (l : list A) : option Z :=
  match l with
  | [] => None
  | x :: l => if p x then Some 0 else Z.succ <$> position p l
  end.

Definition cairn_ns_id (name : str) : option Z := position (fun n => str_eqb n name) CAIRN_NS_NAMES.

Definition task_ns_cap (ns : Z) : Z := Z.shiftl 1 (TASK_CAIRN_NS_BASE + ns).

Definition UNKNOWN_CAP : str := lit "unknown capability in manifest".

Definition mcap_lookup (cap : str) : option Z :=
  snd <$> find (fun e => str_eqb e.1 cap) MCAP_TABLE.

Fixpoint parse_mcaps_items (items : list str) (set : Z) : result str Z :=
  match items with
  | [] => Ok set
  | cap :: items =>
    match mcap_lookup cap with
    | Some bit => parse_mcaps_items items (set .| bit)
    | None => Err UNKNOWN_CAP
    end
  end.

Definition parse_mcaps (manifest : str) : result str Z :=
  parse_mcaps_items (manifest_list manifest (lit "caps")) 0.

(** What [mcap_names] writes. *)
Fixpoint mcap_names_from (table : list (str * Z)) (set : Z) (first : bool) : str :=
  match table with
  | [] => if first then lit "(none)" else []
  | (name, bit) :: table =>
    if negb (set & bit =? 0) then
      (if first then [] else lit " ") ++ name ++ mcap_names_from table set false
    else mcap_names_from table set first
  end.

Definition mcap_names (set : Z) : str := mcap_names_from MCAP_TABLE set true.

Definition ir_caps_from (mcaps : Z) : Z :=
  let c := 0 in
  let c := if negb (mcaps & MCAP_PRINT =? 0) then c .| CAP_PRINT else c in
  let c := if negb (mcaps & MCAP_CAIRN_READ =? 0) then c .| CAP_READ else c in
  if negb (mcaps & MCAP_CAIRN_WRITE =? 0) then c .| CAP_WRITE else c.

Definition task_caps_from (mcaps : Z) (name : str) : Z :=
  let c := 0 in
  let c := if negb (mcaps & MCAP_PRINT =? 0) then c .| TASK_PRINT else c in
  let c := if negb (mcaps & MCAP_IPC =? 0) then c .| TASK_IPC else c in
  let c := if negb (mcaps & MCAP_UPTIME =? 0) then c .| TASK_TIME else c in
  if negb (mcaps & (MCAP_CAIRN_READ .| MCAP_CAIRN_WRITE) =? 0) then
    match cairn_ns_id name with Some ns => c .| task_ns_cap ns | None => c end
  else c.

Definition app_cairn_ns (mcaps : Z) (name : str) : option Z :=
  if mcaps & (MCAP_CAIRN_READ .| MCAP_CAIRN_WRITE) =? 0 then None else cairn_ns_id name.

Definition cap_delta (old_caps new_caps : Z) : Z * Z * Z :=
  (new_caps & unot 32 old_caps, old_caps & unot 32 new_caps, old_caps & new_caps).

(** ** Attenuation (sig.rs) *)

Definition attenuate (requested_caps signer_ceiling : Z) : Z := requested_caps & signer_ceiling.
Definition beyond_ceiling (requested_caps signer_ceiling : Z) : Z := requested_caps & unot 32 signer_ceiling.

(** ** The intent algebra (dezh-kernel) *)

Module authority.
Definition derive (requested intent_ceiling : Z) : Z := requested & intent_ceiling.
Definition beyond_intent (requested intent_ceiling : Z) : Z := requested & unot 32 intent_ceiling.
Definition delegate (requested holder : Z) : Z := requested & holder.
Definition is_subset (a b : Z) : bool := a & unot 32 b =? 0.
End authority.

(** ** Namespaces *)

Lemma position_Some {A} (p : A -> bool) l i : position p l = Some i ->
  0 <= i /\ exists x, l !! Z.to_nat i = Some x /\ p x = true.
Proof.
  revert i. induction l as [|x l IH]; intros i; cbn; [done|]. destruct (p x) eqn:Hp.
  - intros [= <-]. split; [done|]. by exists x.
  - destruct (position p l) as [j|]; [|done]. intros [= <-].
    destruct (IH j eq_refl) as (? & y & Hy & ?). split; [lia|]. exists y.
    by replace (Z.to_nat (Z.succ j)) with (S (Z.to_nat j)) by lia.
Qed.

Lemma cairn_ns_id_name name ns : cairn_ns_id name = Some ns ->
  0 <= ns < 5 /\ CAIRN_NS_NAMES !! Z.to_nat ns = Some name.
Proof.
  intros Hp. apply position_Some in Hp as (Hns & x & Hx & He).
  apply str_eqb_eq in He as ->. apply lookup_lt_Some in Hx as Hl. cbn in Hl. split; [lia|done].
Qed.

(** Two apps with different names have different namespaces. *)
Lemma cairn_ns_id_inj n1 n2 ns : cairn_ns_id n1 = Some ns -> cairn_ns_id n2 = Some ns -> n1 = n2.
Proof.
  intros [_ H1]%cairn_ns_id_name [_ H2]%cairn_ns_id_name. congruence.
Qed.

(** ** Manifest to requested set *)

Lemma mcap_lookup_Some cap bit : mcap_lookup cap = Some bit -> (cap, bit) ∈ MCAP_TABLE.
Proof.
  unfold mcap_lookup. destruct (find _ _) as [[n b]|] eqn:Ef; [|done]. intros [= <-].
  apply find_some in Ef as [Hin He]. apply str_eqb_eq in He. cbn in He. subst n.
  by apply list_elem_of_In.
Qed.

Lemma mcap_table_bits cap bit : (cap, bit) ∈ MCAP_TABLE -> subset_bits bit MCAP_ALL.
Proof.
  intros Hin. repeat (apply elem_of_cons in Hin as [[= -> ->]|Hin]; [by vm_compute|]). by apply elem_of_nil in Hin.
Qed.

Lemma parse_mcaps_items_spec items set :
  match parse_mcaps_items items set with
  | Ok r => (forall cap, cap ∈ items -> is_Some (mcap_lookup cap)) /\
      forall i, 0 <= i -> Z.testbit r i = true <->
        Z.testbit set i = true \/ exists cap bit, cap ∈ items /\ mcap_lookup cap = Some bit /\ Z.testbit bit i = true
  | Err e => e = UNKNOWN_CAP /\ exists cap, cap ∈ items /\ mcap_lookup cap = None
  end.
Proof.
  revert set. induction items as [|c items IH]; intros set; cbn [parse_mcaps_items].
  { split; [intros ? H; by apply elem_of_nil in H|]. intros i Hi. split; [auto|].
    intros [?|(cap & bit & H & _)]; [done|by apply elem_of_nil in H]. }
  destruct (mcap_lookup c) as [b|] eqn:Ec; [|split; [done|exists c; by split; [apply elem_of_cons; left|]]].
  specialize (IH (set .| b)). destruct (parse_mcaps_items items (set .| b)) as [r|e].
  - destruct IH as [Hall Hbits]. split.
    + intros cap [-> |?]%elem_of_cons; [by exists b|by apply Hall].
    + intros i Hi. rewrite Hbits, Z.lor_spec, orb_true_iff by done. split.
      * intros [[?|?]|(cap & bit & ? & ? & ?)]; [by left| |].
        -- right. exists c, b. split; [by apply elem_of_cons; left|done].
        -- right. exists cap, bit. split; [by apply elem_of_cons; right|done].
      * intros [?|(cap & bit & [-> |?]%elem_of_cons & Hl & Hb)]; [by do 2 left|left; right; congruence|].
        right. by exists cap, bit.
  - destruct IH as [-> (cap & ? & ?)]. split; [done|]. exists cap. split; [by apply elem_of_cons; right|done].
Qed.

(** Parsing a manifest's capability list either fails because some listed name is unknown, or yields
    exactly the bits of the listed names, all of them legal. *)
Theorem parse_mcaps_grants_exactly_the_listed manifest :
  let items := manifest_list manifest (lit "caps") in
  match parse_mcaps manifest with
  | Ok set => subset_bits set MCAP_ALL /\ (forall cap, cap ∈ items -> is_Some (mcap_lookup cap)) /\
      forall i, 0 <= i -> Z.testbit set i = true <->
        exists cap bit, cap ∈ items /\ (cap, bit) ∈ MCAP_TABLE /\ mcap_lookup cap = Some bit /\ Z.testbit bit i = true
  | Err _ => exists cap, cap ∈ items /\ mcap_lookup cap = None
  end.
Proof.
  cbv zeta. unfold parse_mcaps. pose proof (parse_mcaps_items_spec (manifest_list manifest (lit "caps")) 0) as H.
  destruct (parse_mcaps_items _ 0) as [set|e]; [|by destruct H].
  destruct H as [Hall Hb].
  assert (Hiff : forall i, 0 <= i -> Z.testbit set i = true <-> exists cap bit,
    cap ∈ manifest_list manifest (lit "caps") /\ (cap, bit) ∈ MCAP_TABLE /\ mcap_lookup cap = Some bit /\ Z.testbit bit i = true).
  { intros i Hi. rewrite Hb, Z.testbit_0_l by done. split.
    - intros [?|(cap & bit & ? & ? & ?)]; [done|]. exists cap, bit. auto using mcap_lookup_Some.
    - intros (cap & bit & ? & _ & ? & ?). right. by exists cap, bit. }
  split; [|done]. apply subset_bits_spec. intros i Hi Hs. apply Hiff in Hs as (cap & bit & _ & Hin & _ & Ht); [|done].
  by eapply (proj1 (subset_bits_spec bit MCAP_ALL)); [eapply mcap_table_bits|..].
Qed.

(** ** Requested set to granted authority *)

Lemma mcap_bits m :
  negb (m & MCAP_PRINT =? 0) = Z.testbit m 0 /\ negb (m & MCAP_IPC =? 0) = Z.testbit m 1 /\
  negb (m & MCAP_UPTIME =? 0) = Z.testbit m 2 /\ negb (m & MCAP_CAIRN_READ =? 0) = Z.testbit m 3 /\
  negb (m & MCAP_CAIRN_WRITE =? 0) = Z.testbit m 4.
Proof.
  pose proof (land_bit_nonzero m) as H.
  exact (conj (H 0 ltac:(lia)) (conj (H 1 ltac:(lia)) (conj (H 2 ltac:(lia))
    (conj (H 3 ltac:(lia)) (H 4 ltac:(lia)))))).
Qed.

Lemma cairn_bits m :
  (m & (MCAP_CAIRN_READ .| MCAP_CAIRN_WRITE) =? 0) = negb (Z.testbit m 3 || Z.testbit m 4).
Proof.
  change MCAP_CAIRN_READ with (2 ^ 3). change MCAP_CAIRN_WRITE with (2 ^ 4).
  rewrite Z.land_lor_distr_r, !land_bit by lia.
  by destruct (Z.testbit m 3), (Z.testbit m 4).
Qed.

Lemma testbit_if (b : bool) c k i :
  0 <= k -> Z.testbit (if b then c .| 2 ^ k else c) i = Z.testbit c i || (b && (i =? k)).
Proof.
  intros Hk. destruct b; [|by rewrite orb_false_r]. rewrite Z.lor_spec. f_equal.
  destruct (Z.lt_ge_cases i 0).
  - rewrite Z.testbit_neg_r by done. symmetry. apply Z.eqb_neq. lia.
  - by rewrite Z.pow2_bits_eqb, Z.eqb_sym by done.
Qed.

Lemma task_caps_bits mcaps name i :
  Z.testbit (task_caps_from mcaps name) i =
  (Z.testbit mcaps 0 && (i =? 0)) || (Z.testbit mcaps 1 && (i =? 2)) || (Z.testbit mcaps 2 && (i =? 1)) ||
  match app_cairn_ns mcaps name with Some ns => i =? TASK_CAIRN_NS_BASE + ns | None => false end.
Proof.
  unfold task_caps_from, app_cairn_ns. rewrite cairn_bits, negb_involutive.
  destruct (mcap_bits mcaps) as (-> & -> & -> & _).
  set (c := if Z.testbit mcaps 2 then _ else _).
  assert (Hc : Z.testbit c i = (Z.testbit mcaps 0 && (i =? 0)) || (Z.testbit mcaps 1 && (i =? 2))
                || (Z.testbit mcaps 2 && (i =? 1))).
  { unfold c. change TASK_PRINT with (2 ^ 0). change TASK_TIME with (2 ^ 1). change TASK_IPC with (2 ^ 2).
    rewrite (testbit_if _ _ 1), (testbit_if _ _ 2), (testbit_if _ _ 0) by lia.
    by rewrite Z.testbit_0_l. }
  destruct (Z.testbit mcaps 3 || Z.testbit mcaps 4); cbn [negb]; [|by rewrite Hc, orb_false_r].
  destruct (cairn_ns_id name) as [ns|] eqn:Ens; [|by rewrite Hc, orb_false_r].
  apply cairn_ns_id_name in Ens as [Hns _]. rewrite Z.lor_spec, Hc. f_equal.
  unfold task_ns_cap. rewrite Z.shiftl_mul_pow2, Z.mul_1_l by (unfold TASK_CAIRN_NS_BASE; lia).
  pose proof (testbit_if true 0 (TASK_CAIRN_NS_BASE + ns) i) as H. unfold TASK_CAIRN_NS_BASE in *.
  rewrite Z.lor_0_l, Z.testbit_0_l in H. by rewrite H by lia.
Qed.

(** The live capability word of an app is exactly the translation of its manifest bits, and carries a
    namespace bit only for the namespace that has the app's own name, and only when storage was
    requested. *)
Theorem task_caps_are_exactly_the_manifest mcaps name :
  task_caps_from mcaps name =
    (if Z.testbit mcaps 0 then TASK_PRINT else 0) .| (if Z.testbit mcaps 1 then TASK_IPC else 0) .|
    (if Z.testbit mcaps 2 then TASK_TIME else 0) .|
    match app_cairn_ns mcaps name with Some ns => task_ns_cap ns | None => 0 end /\
  (forall ns, Z.testbit (task_caps_from mcaps name) (TASK_CAIRN_NS_BASE + ns) = true -> 0 <= ns ->
     CAIRN_NS_NAMES !! Z.to_nat ns = Some name /\ (Z.testbit mcaps 3 || Z.testbit mcaps 4) = true).
Proof.
  split.
  - unfold task_caps_from, app_cairn_ns. rewrite cairn_bits, negb_involutive.
    destruct (mcap_bits mcaps) as (-> & -> & -> & _).
    destruct (Z.testbit mcaps 0), (Z.testbit mcaps 1), (Z.testbit mcaps 2),
      (Z.testbit mcaps 3 || Z.testbit mcaps 4), (cairn_ns_id name) as [ns|]; cbn [negb];
      rewrite ?Z.lor_0_r, ?Z.lor_0_l; done || zbits.
  - intros ns Hb Hns. rewrite task_caps_bits in Hb. unfold TASK_CAIRN_NS_BASE in *.
    rewrite !(proj2 (Z.eqb_neq (8 + ns) _)), !andb_false_r in Hb by lia. cbn [orb negb] in Hb.
    unfold app_cairn_ns in Hb. rewrite cairn_bits in Hb.
    destruct (Z.testbit mcaps 3 || Z.testbit mcaps 4); [|done]. cbn [orb negb] in Hb.
    destruct (cairn_ns_id name) as [ns'|] eqn:E; [|done]. apply Z.eqb_eq in Hb.
    assert (ns' = ns) as -> by lia. split; [|done]. by apply cairn_ns_id_name.
Qed.

(** Two apps with different names never hold the same namespace capability, whatever their manifests ask
    for. *)
Theorem app_namespaces_are_isolated m1 m2 n1 n2 ns :
  n1 <> n2 -> 0 <= ns ->
  Z.testbit (task_caps_from m1 n1 & task_caps_from m2 n2) (TASK_CAIRN_NS_BASE + ns) = false.
Proof.
  intros Hne Hns. rewrite Z.land_spec, !task_caps_bits. unfold TASK_CAIRN_NS_BASE.
  rewrite !(proj2 (Z.eqb_neq (8 + ns) _)), !andb_false_r by lia. cbn [orb].
  unfold app_cairn_ns. do 2 (case_bool; [try by rewrite ?andb_false_r|]); [done..|].
  destruct (cairn_ns_id n1) as [a|] eqn:E1; [|done].
  destruct (cairn_ns_id n2) as [b|] eqn:E2; [|by rewrite andb_false_r].
  destruct (Z.eqb_spec (8 + ns) (8 + a)), (Z.eqb_spec (8 + ns) (8 + b)); try done.
  assert (a = b) as -> by lia. by destruct (Hne (cairn_ns_id_inj n1 n2 b E1 E2)).
Qed.

Lemma app_cairn_ns_mono a b name ns : subset_bits a b ->
  app_cairn_ns a name = Some ns -> app_cairn_ns b name = Some ns.
Proof.
  rewrite subset_bits_spec. intros Hab. unfold app_cairn_ns. rewrite !cairn_bits.
  pose proof (Hab 3 ltac:(lia)) as H3. pose proof (Hab 4 ltac:(lia)) as H4.
  destruct (Z.testbit a 3); [rewrite (H3 eq_refl); tauto|].
  destruct (Z.testbit a 4); [rewrite (H4 eq_refl), !orb_true_r; tauto|discriminate].
Qed.

Lemma task_caps_mono a b name : subset_bits a b -> subset_bits (task_caps_from a name) (task_caps_from b name).
Proof.
  intros Hab. apply subset_bits_spec. intros i Hi. rewrite !task_caps_bits, !orb_true_iff, !andb_true_iff.
  pose proof (proj1 (subset_bits_spec a b) Hab) as Hb. intros [[[[? ?]|[? ?]]|[? ?]]|Hns].
  - do 3 left. split; [apply Hb; [lia|done]|done].
  - left; left; right. split; [apply Hb; [lia|done]|done].
  - left; right. split; [apply Hb; [lia|done]|done].
  - right. destruct (app_cairn_ns a name) as [ns|] eqn:E; [|done].
    by rewrite (app_cairn_ns_mono a b name ns Hab E).
Qed.

(** What an installed app of a publisher with [ceiling] runs with. *)
Definition granted (manifest : str) (ceiling : Z) (name : str) : result str Z :=
  requested ← parse_mcaps manifest; Ok (task_caps_from (attenuate requested ceiling) name).

(** What an app runs with after its request was attenuated by the signer's ceiling is within both the
    ceiling and the request, and is the whole request when the ceiling covers it. *)
Theorem publisher_ceiling_bounds_the_grant manifest ceiling name caps :
  granted manifest ceiling name = Ok caps ->
  subset_bits caps (task_caps_from ceiling name) /\
  exists requested, parse_mcaps manifest = Ok requested /\
    subset_bits caps (task_caps_from requested name) /\
    (ceiling = requested .| ceiling -> caps = task_caps_from requested name).
Proof.
  unfold granted, attenuate. destruct (parse_mcaps manifest) as [req|e]; [|done]. cbn. intros [= <-].
  split; [apply task_caps_mono; auto with dezh|]. exists req. split; [done|].
  split; [apply task_caps_mono; auto with dezh|]. intros ->.
  f_equal. zbits.
Qed.

(** ** The algebra of intents *)

Lemma is_subset_spec a b : fits 32 a -> authority.is_subset a b = true <-> subset_bits a b.
Proof.
  intros Ha. unfold authority.is_subset. rewrite land_unot, Z.eqb_eq by done. done.
Qed.

(** The authority that reaches the end of a chain of delegations, each link
    asking for [requested] out of what its predecessor holds. *)
Definition delegation_chain (root : Z) (requests : list Z) : Z :=
  fold_left (fun holder requested => authority.delegate requested holder) requests root.

Lemma delegation_chain_bound root requests :
  subset_bits (delegation_chain root requests) root /\
  Forall (subset_bits (delegation_chain root requests)) requests.
Proof.
  revert root. induction requests as [|r rs IH]; intros root; cbn; [by split|].
  destruct (IH (authority.delegate r root)) as [H1 H2]. unfold authority.delegate in *.
  split; [by etrans; [apply H1|auto with dezh]|]. constructor; [|done].
  etrans; [apply H1|auto with dezh].
Qed.

(** Deriving under an intent ceiling splits a request into the part within the ceiling and the part
    beyond it, and no chain of delegations starting from the derived authority leaves the ceiling. *)
Theorem authority_only_attenuates requested ceiling requests :
  fits 32 requested -> fits 32 ceiling ->
  let derived := authority.derive requested ceiling in
  let dropped := authority.beyond_intent requested ceiling in
  authority.is_subset derived ceiling = true /\
  derived .| dropped = requested /\ derived & dropped = 0 /\
  (authority.is_subset requested ceiling = true <-> dropped = 0) /\
  authority.is_subset (delegation_chain derived requests) ceiling = true.
Proof.
  intros Hr Hc. cbv zeta. unfold authority.derive, authority.beyond_intent.
  assert (Hd : fits 32 (requested & ceiling)) by (apply land_fits_l; [done|done|apply Hc]).
  rewrite land_unot by done.
  destruct (delegation_chain_bound (requested & ceiling) requests) as [Hch _].
  split; [apply is_subset_spec; auto with dezh|]. split; [zbits|]. split; [zbits|]. split.
  - by rewrite is_subset_spec.
  - apply is_subset_spec; [by eapply subset_bits_fits|]. etrans; [apply Hch|auto with dezh].
Qed.

(** The install-time review's (added, removed, kept) partitions both capability sets, and added is empty
    exactly when the update asks for nothing new. *)
Theorem cap_delta_partitions old_caps new_caps : fits 32 old_caps -> fits 32 new_caps ->
  let '(added, removed, kept) := cap_delta old_caps new_caps in
  added .| kept = new_caps /\ removed .| kept = old_caps /\
  added & old_caps = 0 /\ removed & new_caps = 0 /\ added & kept = 0 /\ removed & kept = 0 /\
  (added = 0 <-> subset_bits new_caps old_caps).
Proof.
  intros Ho Hn. unfold cap_delta. rewrite !land_unot by done.
  do 6 (split; [zbits|]). done.
Qed.

(** ** From the manifest to the capabilities of the guest *)

Lemma ir_caps_bits m : ir_caps_from m =
  (if Z.testbit m 0 then CAP_PRINT else 0) .| (if Z.testbit m 3 then CAP_READ else 0) .|
  (if Z.testbit m 4 then CAP_WRITE else 0).
Proof.
  unfold ir_caps_from. destruct (mcap_bits m) as (-> & _ & _ & -> & ->).
  by destruct (Z.testbit m 0), (Z.testbit m 3), (Z.testbit m 4).
Qed.

Lemma parse_mcaps_bit manifest set i : parse_mcaps manifest = Ok set -> 0 <= i -> Z.testbit set i = true ->
  exists cap bit, cap ∈ manifest_list manifest (lit "caps") /\ mcap_lookup cap = Some bit /\ Z.testbit bit i = true.
Proof.
  unfold parse_mcaps. intros Hp Hi Hb.
  pose proof (parse_mcaps_items_spec (manifest_list manifest (lit "caps")) 0) as H. rewrite Hp in H.
  destruct H as [_ H]. apply H in Hb; [|done]. rewrite Z.testbit_0_l in Hb. by destruct Hb.
Qed.

Lemma mcap_lookup_bit cap bit i : mcap_lookup cap = Some bit -> 0 <= i -> Z.testbit bit i = true -> bit = 2 ^ i.
Proof.
  intros Hl Hi Ht. apply mcap_lookup_Some in Hl. unfold MCAP_TABLE in Hl.
  assert (Hk : exists k, 0 <= k /\ bit = 2 ^ k).
  { repeat (apply elem_of_cons in Hl as [[= -> ->]|Hl]; [|]); [by exists 0|by exists 1|by exists 2|by exists 3|by exists 4|].
    by apply elem_of_nil in Hl. }
  destruct Hk as (k & Hk & ->). rewrite Z.pow2_bits_eqb in Ht by done. by apply Z.eqb_eq in Ht as ->.
Qed.

(** ** Witnesses *)

Definition quoted_manifest : str :=
  lit "caps = [" ++ [34] ++ lit "print" ++ [34] ++ lit ", " ++ [34] ++ lit "cairn-read" ++ [34] ++ lit "]".

Lemma app_namespaces_are_isolated_witness :
  Z.testbit (task_caps_from 31 (lit "note") & task_caps_from 31 (lit "vault")) (TASK_CAIRN_NS_BASE + 3) = false.
Proof. apply app_namespaces_are_isolated; done. Defined.

Lemma publisher_ceiling_bounds_the_grant_witness :
  subset_bits TASK_PRINT (task_caps_from MCAP_PRINT (lit "note")).
Proof.
  apply (publisher_ceiling_bounds_the_grant quoted_manifest MCAP_PRINT (lit "note")).
  vm_compute. reflexivity.
Defined.

Lemma authority_only_attenuates_witness :
  authority.is_subset (authority.derive 27 10) 10 = true.
Proof. apply (authority_only_attenuates 27 10 []); done. Defined.

Lemma cap_delta_partitions_witness : cap_delta 3 6 = (4, 1, 2) /\ 4 .| 2 = 6.
Proof.
  split; [reflexivity|]. apply (cap_delta_partitions 3 6); done.
Defined.
