(* ===== verification/Ocap.v ===== *)
(** * Object capabilities with generations (dezh-core/src/ocap.rs)

    A handle names one object with rights and the generation it was minted
    at; revoking an object bumps its generation, modulo 2^32. *)

From Stdlib Require Import ZArith Lia.
From stdpp Require Import base option numbers list.
From S2P Require Import Prelude.

Definition R_READ : Z := 1.
Definition R_WRITE : Z := 2.
Definition R_APPEND : Z := 4.
Definition R_DELEGATE : Z := 8.
Definition GEN_NEVER : Z := 0.

Record Cap := mkCap { object : Z; rights : Z; generation : Z }.

#[export] Instance Cap_eq_dec : EqDecision Cap.
Proof. solve_decision. Defined.

Definition forged (object rights generation : Z) : Cap := mkCap object rights generation.

Inductive CapCheck := CapOk | Revoked | Denied | NoSuchObject.

#[export] Instance CapCheck_eq_dec : EqDecision CapCheck.
Proof. solve_decision. Defined.

(** [CapTable<N>]: the live generation of each of the [N] objects. *)
Abbreviation CapTable := (list Z).

Definition new (n : nat) : CapTable := replicate n 1.

(** The element read behind an [object < N] test. *)
Definition gen_at (t : CapTable) (o : Z) : Z := default GEN_NEVER (t !! Z.to_nat o).

Definition mint (t : CapTable) (o r : Z) : option Cap :=
  if zlen t <=? o then None else Some (mkCap o r (gen_at t o)).

Definition derive (parent : Cap) (mask : Z) : option Cap :=
  if rights parent & R_DELEGATE =? 0 then None
  else Some (mkCap (object parent) (rights parent & mask) (generation parent)).

Definition is_live (t : CapTable) (c : Cap) : bool :=
  (object c <? zlen t) && negb (generation c =? GEN_NEVER) && (generation c =? gen_at t (object c)).

Definition check (t : CapTable) (c : Cap) (want : Z) : CapCheck :=
  if zlen t <=? object c then NoSuchObject
  else if (generation c =? GEN_NEVER) || negb (generation c =? gen_at t (object c)) then Revoked
  else if negb (rights c & want =? want) then Denied
  else CapOk.

Definition revoke (t : CapTable) (o : Z) : CapTable :=
  if o <? zlen t then <[Z.to_nat o := wrap 32 (gen_at t o + 1)]> t else t.

Definition generation_of (t : CapTable) (o : Z) : Z :=
  if o <? zlen t then gen_at t o else GEN_NEVER.

(** ** The system: handles are minted, derived, forged and objects revoked in any order *)

Inductive event :=
| EMint (o r : Z)
| EDerive (i : nat) (mask : Z)
| EForge (o r g : Z)
| ERevoke (o : Z).

(** [roots] is a ghost: which minted handle each handle descends from, [None] for
    a forged handle and what is derived from one. *)
Record sys := mkSys { table : CapTable; handles : list Cap; roots : list (option nat) }.

Definition sys_step (s : sys) (e : event) : sys :=
  match e with
  | EMint o r =>
    match mint (table s) o r with
    | Some c => mkSys (table s) (handles s ++ [c]) (roots s ++ [Some (length (handles s))])
    | None => s
    end
  | EDerive i mask =>
    match handles s !! i ≫= (fun p => derive p mask), roots s !! i with
    | Some c, Some r => mkSys (table s) (handles s ++ [c]) (roots s ++ [r])
    | _, _ => s
    end
  | EForge o r g => mkSys (table s) (handles s ++ [forged o r g]) (roots s ++ [None])
  | ERevoke o => mkSys (revoke (table s) o) (handles s) (roots s)
  end.

Definition sys_run (s : sys) (es : list event) : sys := fold_left sys_step es s.

Definition start (n : nat) : sys := mkSys (new n) [] [].

(** Object numbers are [usize]. *)
Definition event_ok (e : event) : Prop :=
  match e with EMint o _ | EForge o _ _ | ERevoke o => 0 <= o | EDerive _ _ => True end.

Fixpoint revocations (o : Z) (es : list event) : Z :=
  match es with
  | [] => 0
  | ERevoke o' :: es => (if o' =? o then 1 else 0) + revocations o es
  | _ :: es => revocations o es
  end.

(** ** Generations *)

Lemma length_revoke t o : length (revoke t o) = length t.
Proof. unfold revoke. case_bool; [apply length_insert|done]. Qed.

Lemma zlen_revoke t o : zlen (revoke t o) = zlen t.
Proof. unfold zlen. by rewrite length_revoke. Qed.

Lemma gen_at_revoke t o o' : 0 <= o -> 0 <= o' < zlen t ->
  gen_at (revoke t o) o' = if o =? o' then wrap 32 (gen_at t o' + 1) else gen_at t o'.
Proof.
  intros Ho Ho'. unfold gen_at, revoke, zlen in *. destruct (Z.eqb_spec o o') as [->|Hne].
  - rewrite (proj2 (Z.ltb_lt o' _)) by lia. cbn iota. by rewrite list_lookup_insert_eq by lia.
  - case_bool; [|done]. by rewrite list_lookup_insert_ne by lia.
Qed.

Lemma wrap_succ x : wrap 32 (wrap 32 x + 1) = wrap 32 (x + 1).
Proof. unfold wrap. by rewrite Z.add_mod_idemp_l by done. Qed.

Lemma revocations_app o es1 es2 : revocations o (es1 ++ es2) = revocations o es1 + revocations o es2.
Proof. induction es1 as [|[] es IH]; cbn; rewrite ?IH; lia. Qed.

Lemma revocations_nonneg o es : 0 <= revocations o es.
Proof. induction es as [|[] es IH]; cbn; [lia|done|done|done|]. case_bool; lia. Qed.

Lemma sys_run_app s es1 es2 : sys_run s (es1 ++ es2) = sys_run (sys_run s es1) es2.
Proof. apply fold_left_app. Qed.

Lemma sys_run_cons s e es : sys_run s (e :: es) = sys_run (sys_step s e) es.
Proof. done. Qed.

Lemma sys_step_len s e : zlen (table (sys_step s e)) = zlen (table s).
Proof.
  destruct e; cbn; [by destruct (mint _ _ _)|by destruct (_ ≫= _), (roots s !! i)|done|apply zlen_revoke].
Qed.

Lemma sys_run_len s es : zlen (table (sys_run s es)) = zlen (table s).
Proof.
  revert s. induction es as [|e es IH]; intros s; [done|]. by rewrite sys_run_cons, IH, sys_step_len.
Qed.

Lemma sys_run_gen s es o g : Forall event_ok es -> 0 <= o < zlen (table s) ->
  gen_at (table s) o = wrap 32 g ->
  gen_at (table (sys_run s es)) o = wrap 32 (g + revocations o es).
Proof.
  intros Hes. revert s g. induction Hes as [|e es He Hes IH]; intros s g Ho Hg.
  { cbn. by rewrite Z.add_0_r. }
  rewrite sys_run_cons. destruct e as [o' r|i mask|o' r g'|o']; cbn [revocations].
  - apply IH; cbn; destruct (mint _ _ _); done.
  - apply IH; cbn; destruct (_ ≫= _), (roots s !! i); done.
  - by apply IH.
  - cbn [sys_step]. rewrite Z.add_assoc. apply IH; cbn; [by rewrite zlen_revoke|].
    rewrite gen_at_revoke, Hg by done. destruct (o' =? o); [apply wrap_succ|by rewrite Z.add_0_r].
Qed.

(** ** Handles keep their lineage *)

(** Every handle with a minted root is an attenuated copy of it, and a root was
    minted after some number of revocations of its object so far. *)
Definition lineage_ok (es : list event) (s : sys) : Prop :=
  length (roots s) = length (handles s) /\
  forall i c r, handles s !! i = Some c -> roots s !! i = Some (Some r) -> exists c0,
    handles s !! r = Some c0 /\ roots s !! r = Some (Some r) /\
    object c = object c0 /\ generation c = generation c0 /\ subset_bits (rights c) (rights c0) /\
    0 <= object c < zlen (table s) /\
    exists p, 0 <= p <= revocations (object c) es /\ generation c = wrap 32 (1 + p).

Lemma lineage_start n : lineage_ok [] (start n).
Proof. split; [done|]. intros i c r Hc. cbn in Hc. by rewrite lookup_nil in Hc. Qed.

(** Adding a handle to the system. *)
Lemma lineage_add es s e c o :
  lineage_ok es s -> (forall o, revocations o (es ++ [e]) = revocations o es) ->
  (forall r, o = Some r -> exists c0,
    (r = length (handles s) /\ c0 = c \/ (handles s !! r = Some c0 /\ roots s !! r = Some (Some r))) /\
    object c = object c0 /\ generation c = generation c0 /\ subset_bits (rights c) (rights c0) /\
    0 <= object c < zlen (table s) /\
    (exists p, 0 <= p <= revocations (object c) es /\ generation c = wrap 32 (1 + p))) ->
  lineage_ok (es ++ [e]) (mkSys (table s) (handles s ++ [c]) (roots s ++ [o])).
Proof.
  intros [Hlen Hok] Hrev Hr. split; cbn; [by rewrite !length_app, Hlen|].
  intros i c' r' Hi Hri. apply lookup_app_Some in Hi as [Hi|[Hi Hi']].
  - rewrite lookup_app_l in Hri by (apply lookup_lt_Some in Hi; lia).
    destruct (Hok i c' r' Hi Hri) as (c0 & H1 & H2 & H3). exists c0.
    rewrite !lookup_app_l by (eapply lookup_lt_Some; done). rewrite Hrev. done.
  - apply list_lookup_singleton_Some in Hi' as [Hi0 <-]. assert (i = length (handles s)) as -> by lia.
    rewrite lookup_app_r, Hlen, Nat.sub_diag in Hri by lia. injection Hri as ->.
    destruct (Hr r' eq_refl) as (c0 & Hc0 & H). exists c0. rewrite Hrev. destruct Hc0 as [[-> ->]|[Hc0 Hrr]].
    + rewrite !lookup_app_r, Hlen, Nat.sub_diag by lia. done.
    + rewrite !lookup_app_l by (eapply lookup_lt_Some; done). done.
Qed.

Lemma lineage_step n es e : event_ok e -> Forall event_ok es ->
  lineage_ok es (sys_run (start n) es) -> lineage_ok (es ++ [e]) (sys_run (start n) (es ++ [e])).
Proof.
  intros He Hes Hok. rewrite sys_run_app, sys_run_cons. change (sys_run ?s []) with s.
  set (s := sys_run (start n) es) in *. pose proof Hok as [Hlen Hall].
  assert (Hmono : forall e, lineage_ok es s -> lineage_ok (es ++ [e]) s).
  { intros e' _. split; [done|]. intros i c r Hi Hr.
    destruct (Hall i c r Hi Hr) as (c0 & H2 & H3 & H4 & H5 & H6 & H7 & p & Hp & Hg).
    exists c0. repeat (split; [done|]). exists p. rewrite revocations_app.
    pose proof (revocations_nonneg (object c) [e']). split; [lia|done]. }
  destruct e as [o r|i mask|o r g|o]; cbn [sys_step].
  - unfold mint. destruct (Z.leb_spec (zlen (table s)) o) as [|Hlt]; [by apply Hmono|].
    assert (Hob : 0 <= o < zlen (table (start n))) by (cbn in He; split; [done|]; by rewrite <- (sys_run_len _ es)).
    apply lineage_add; [done|intros; rewrite revocations_app; cbn; lia|]. intros ? [= <-].
    exists (mkCap o r (gen_at (table s) o)). split; [by left|]. do 3 (split; [done|]). split; [cbn in *; lia|].
    exists (revocations o es). split; [pose proof (revocations_nonneg o es); cbn; lia|]. cbn.
    apply sys_run_gen; [done..|]. unfold gen_at, start, new. cbn [table]. rewrite lookup_replicate_2; [done|].
    unfold zlen, start, new in Hob. cbn [table] in Hob. rewrite length_replicate in Hob. lia.
  - destruct (handles s !! i) as [pc|] eqn:Hi; cbn; [|by apply Hmono].
    unfold derive. destruct (rights pc & R_DELEGATE =? 0); [by apply Hmono|].
    destruct (roots s !! i) as [ro|] eqn:Hro; [|by apply Hmono].
    apply lineage_add; [done|intros; rewrite revocations_app; cbn; lia|]. intros r ->.
    destruct (Hall i pc r Hi Hro) as (c0 & H2 & H3 & H4 & H5 & H6 & H7 & Hp).
    exists c0. split; [by right|]. do 2 (split; [done|]). split; [|done].
    cbn. etrans; [apply subset_bits_land_l|done].
  - apply lineage_add; [done|intros; rewrite revocations_app; cbn; lia|done].
  - split; [done|]. cbn. intros i c r Hi Hr.
    destruct (Hall i c r Hi Hr) as (c0 & H2 & H3 & H4 & H5 & H6 & H7 & p & Hp & Hg).
    exists c0. rewrite zlen_revoke. repeat (split; [done|]). exists p. rewrite revocations_app.
    pose proof (revocations_nonneg (object c) [ERevoke o]). split; [lia|done].
Qed.

Lemma lineage_reachable n es : Forall event_ok es -> lineage_ok es (sys_run (start n) es).
Proof.
  induction es as [|e es IH] using rev_ind; intros Hes; [apply lineage_start|].
  apply Forall_app in Hes as [Hes He]. apply lineage_step; [by inversion He|done|by apply IH].
Qed.

(** Handles are only ever added. *)
Lemma handles_kept s es : exists cs rs,
  handles (sys_run s es) = handles s ++ cs /\ roots (sys_run s es) = roots s ++ rs.
Proof.
  revert s. induction es as [|e es IH]; intros s.
  { exists [], []. by rewrite !app_nil_r. }
  rewrite sys_run_cons.
  destruct (IH (sys_step s e)) as (cs & rs & -> & ->).
  destruct e; cbn; [destruct (mint _ _ _)|destruct (_ ≫= _), (roots s !! i)| |]; cbn;
    rewrite <- ?app_assoc; eauto.
Qed.

Lemma wrap32_differ p q : 0 <= p < q -> q < 2 ^ 32 -> wrap 32 (1 + p) <> wrap 32 (1 + q).
Proof.
  intros Hp Hq E. unfold wrap in E.
  assert (H : (1 + q - (1 + p)) mod 2 ^ 32 = 0) by (rewrite Zminus_mod, E, Z.sub_diag; done).
  replace (1 + q - (1 + p)) with (q - p) in H by lia. rewrite Z.mod_small in H; lia.
Qed.

(** C28: Along any run of mint, derive, forge and revoke events, with any number of forged handles
    around and fewer than 2^32 revocations of an object, a handle that descends by derivation from a
    root minted before a revocation of its object is dead after it, however and whenever it was derived. *)
Theorem revocation_kills_every_descendant n es1 o es2 i c r want :
  Forall event_ok (es1 ++ ERevoke o :: es2) ->
  revocations o (es1 ++ ERevoke o :: es2) < 2 ^ 32 ->
  let s1 := sys_run (start n) es1 in
  let s2 := sys_run s1 (ERevoke o :: es2) in
  handles s2 !! i = Some c -> object c = o -> roots s2 !! i = Some (Some r) ->
  (r < length (handles s1))%nat ->
  check (table s2) c want = Revoked /\ is_live (table s2) c = false.
Proof.
  intros Hok Hrev s1 s2 Hi Ho Hr Hlt.
  assert (E2 : s2 = sys_run (start n) (es1 ++ ERevoke o :: es2)) by (unfold s2, s1; by rewrite sys_run_app).
  pose proof (lineage_reachable n _ Hok) as [_ Hl2]. rewrite <- E2 in Hl2.
  destruct (Hl2 i c r Hi Hr) as (c0 & Hc0 & Hrr & Eo & Eg & _ & Hob & _).
  destruct (handles_kept s1 (ERevoke o :: es2)) as (cs & rs & Eh & Er). fold s2 in Eh, Er.
  apply Forall_app in Hok as Hok'. destruct Hok' as [Hok1 _].
  destruct (lineage_reachable n es1 Hok1) as [Hlen1 Hl1]. fold s1 in Hlen1, Hl1.
  rewrite Eh, lookup_app_l in Hc0 by done. rewrite Er, lookup_app_l in Hrr by lia.
  destruct (Hl1 r c0 r Hc0 Hrr) as (_ & _ & _ & _ & _ & _ & _ & p & Hp & Hg).
  assert (Hcur : gen_at (table s2) o = wrap 32 (1 + revocations o (es1 ++ ERevoke o :: es2))).
  { rewrite E2. assert (Hob' : 0 <= o < zlen (table (start n))).
    { rewrite E2, sys_run_len, Ho in Hob. done. }
    apply sys_run_gen; [done|done|]. unfold gen_at, start, new. cbn [table].
    rewrite lookup_replicate_2; [done|]. unfold zlen, start, new in Hob'. cbn [table] in Hob'.
    rewrite length_replicate in Hob'. lia. }
  assert (Hne : generation c <> gen_at (table s2) (object c)).
  { rewrite Ho, Hcur, Eg, Hg. apply wrap32_differ; [|done]. rewrite revocations_app in *. cbn in *.
    rewrite <- Eo, Ho in Hp. rewrite Z.eqb_refl in *. pose proof (revocations_nonneg o es2). lia. }
  apply Z.eqb_neq in Hne. unfold check, is_live. rewrite Hne, andb_false_r, orb_true_r.
  split; [|done]. by rewrite (proj2 (Z.leb_gt _ _)) by lia.
Qed.

Lemma iter_revoke_gen t o k : 0 <= o < zlen t -> fits 32 (gen_at t o) ->
  zlen (Nat.iter k (fun t => revoke t o) t) = zlen t /\
  gen_at (Nat.iter k (fun t => revoke t o) t) o = wrap 32 (gen_at t o + Z.of_nat k).
Proof.
  intros Ho Hf. induction k as [|k [IHl IHg]]; [by rewrite Z.add_0_r, wrap_small|].
  rewrite Nat.iter_succ. split; [by rewrite zlen_revoke|].
  rewrite gen_at_revoke by lia. rewrite Z.eqb_refl, IHg, wrap_succ. f_equal. lia.
Qed.

(** After k revocations of its object a minted handle is live exactly when k is a multiple of 2^32: the
    generation counter wraps, and a revoked handle comes back to life at the wrap-around and nowhere
    else. *)
Theorem revoked_handle_revives_only_at_wraparound t o r c k :
  mint t o r = Some c -> 0 <= o -> fits 32 (gen_at t o) -> gen_at t o <> GEN_NEVER ->
  is_live (Nat.iter k (fun t => revoke t o) t) c = (Z.of_nat k mod 2 ^ 32 =? 0).
Proof.
  unfold mint. destruct (Z.leb_spec (zlen t) o); [done|]. intros [= <-] Ho Hf Hn.
  destruct (iter_revoke_gen t o k) as [Hl Hg]; [lia|done|]. unfold is_live. cbn [object generation].
  rewrite Hl, Hg, (proj2 (Z.ltb_lt _ _)), (proj2 (Z.eqb_neq _ _) Hn) by lia. cbn [andb negb].
  rewrite <- (wrap_small 32 _ Hf) at 1. unfold wrap.
  destruct (Z.eqb_spec (Z.of_nat k mod 2 ^ 32) 0) as [E|E]; [apply Z.eqb_eq|apply Z.eqb_neq].
  - by rewrite Zplus_mod, E, Z.add_0_r, Z.mod_mod by done.
  - intros E'. apply E.
    replace (Z.of_nat k) with (gen_at t o + Z.of_nat k - gen_at t o) by lia.
    by rewrite Zminus_mod, <- E', Z.sub_diag.
Qed.

(** A capability check succeeds exactly for a live handle holding every wanted right; deriving a child
    never allows anything its parent did not, and revoking one object changes no check on another. *)
Theorem check_ok_iff_live_and_entitled t c want :
  (check t c want = CapOk <-> is_live t c = true /\ subset_bits want (rights c)) /\
  (forall mask child, derive c mask = Some child ->
     check t child want = CapOk -> check t c want = CapOk /\ subset_bits want mask) /\
  (forall o, 0 <= o -> 0 <= object c -> o <> object c -> check (revoke t o) c want = check t c want).
Proof.
  assert (Hiff : forall c, check t c want = CapOk <-> is_live t c = true /\ subset_bits want (rights c)).
  { intros c'. unfold check, is_live.
    destruct (Z.leb_spec (zlen t) (object c')), (Z.ltb_spec (object c') (zlen t)); try lia; cbn; [intuition congruence|].
    destruct (generation c' =? GEN_NEVER), (generation c' =? gen_at t (object c')); cbn; try intuition congruence.
    rewrite subset_bits_land_eq, Z.land_comm.
    destruct (Z.eqb_spec (want & rights c') want); cbn; intuition congruence. }
  split; [apply Hiff|]. split.
  - intros mask child. unfold derive. destruct (rights c & R_DELEGATE =? 0); [done|]. intros [= <-].
    rewrite !Hiff. cbn. intros [Hl Hs]. split; [split; [done|]|].
    + etrans; [apply Hs|apply subset_bits_land_l].
    + etrans; [apply Hs|apply subset_bits_land_r].
  - intros o Ho Hc Hne. unfold check. rewrite zlen_revoke.
    destruct (Z.leb_spec (zlen t) (object c)); [done|].
    by rewrite gen_at_revoke, (proj2 (Z.eqb_neq o (object c)) Hne) by lia.
Qed.

(** ** Witnesses *)

(** A child derived after the revocation is as dead as its parent, also with a forged handle about. *)
Definition late_child : sys :=
  sys_run (sys_run (start 4) [EMint 2 15]) [ERevoke 2; EForge 2 15 7; EDerive 0 1; EMint 2 1].

Lemma revocation_kills_every_descendant_witness :
  check (table late_child) (mkCap 2 1 1) R_READ = Revoked /\ is_live (table late_child) (mkCap 2 1 1) = false.
Proof.
  apply (revocation_kills_every_descendant 4 [EMint 2 15] 2 [EForge 2 15 7; EDerive 0 1; EMint 2 1] 2 (mkCap 2 1 1) 0 R_READ);
    [|done|done|done|done|vm_compute; lia].
  repeat (apply Forall_cons_2; [done|]). apply Forall_nil_2.
Defined.

Lemma revoked_handle_revives_only_at_wraparound_witness :
  is_live (Nat.iter 3 (fun t => revoke t 1) (new 2)) (mkCap 1 R_READ 1) = (Z.of_nat 3 mod 2 ^ 32 =? 0).
Proof. apply (revoked_handle_revives_only_at_wraparound (new 2) 1 R_READ); done. Defined.
