(* ===== verification/Sched.v ===== *)
(** * The scheduler and IPC (dezh-boot/src/sched.rs)

    The task table, the mailboxes, the system calls and the dispatcher, as one
    critical section of [SCHED_LOCK] after another.  The statics are one record
    [Sched], a row [Task] per slot.  Harts interleave between sections: a hart
    is on the console, inside the trap path with its claim, or in user mode.
    [step] is the transition relation of the whole machine.

    Not here: register save and restore, page tables and the timer (assembly
    and device state).  [satp] is kept, since it decides who may run a task;
    user memory is what a system call finds at the addresses in the frame.  The
    counters [sends], [receives] ... are not bounded. *)

From Stdlib Require Import ZArith Lia.
From stdpp Require Import base option numbers list.
From S2P Require Import Prelude Mcap.

Definition MAX_TASKS : nat := 4.
Definition MAX_HARTS : nat := 8.
Definition MAILBOX_DEPTH : nat := 4.
Definition FRAME_SLOTS : nat := 33.
Definition FIRST_FOREGROUND_TASK : nat := 1.
Definition F_SP : nat := 1.
Definition F_A0 : nat := 9.
Definition F_A1 : nat := 10.
Definition F_A2 : nat := 11.
Definition F_A3 : nat := 12.
Definition F_A4 : nat := 13.
Definition F_A7 : nat := 16.
Definition F_SEPC : nat := 31.
Definition F_HART : nat := 32.

Definition SYS_EXIT : Z := 0.
Definition SYS_PRINT : Z := 1.
Definition SYS_UPTIME : Z := 2.
Definition SYS_YIELD : Z := 3.
Definition SYS_NULL : Z := 4.
Definition SYS_REPORT : Z := 5.
Definition SYS_SEND : Z := 6.
Definition SYS_RECV : Z := 7.
Definition SYS_PRINTNUM : Z := 8.
Definition SYS_RECV_TIMEOUT : Z := 9.
Definition SYS_IRQ_WAIT : Z := 10.
Definition USIZE_MAX : Z := 2 ^ 64 - 1.
Definition SYS_REFUSED : Z := USIZE_MAX.

Definition PERS_NATIVE : Z := 0.
Definition PERS_LINUX : Z := 1.
Definition LINUX_WRITE : Z := 64.
Definition LINUX_EXIT : Z := 93.
Definition LINUX_EXIT_GROUP : Z := 94.
Definition LINUX_EBADF : Z := 2 ^ 64 - 9.
Definition LINUX_EACCES : Z := 2 ^ 64 - 13.
Definition LINUX_ENOSYS : Z := 2 ^ 64 - 38.

Definition STATUS_TIMEOUT : Z := 3.
Definition IPC_OP_TIMEOUT : Z := 2.

(** [typed_word] of dezh-boot/src/abi.rs, with the service as an argument. *)
Definition service_word (service op request_id status arg : Z) : Z :=
  Z.shiftl 0xd1 56 .| Z.shiftl (service & 0xff) 48 .| Z.shiftl (op & 0xff) 40 .| Z.shiftl (request_id & 0xffff) 24
  .| Z.shiftl (status & 0xff) 16 .| (arg & 0xffff).
Definition TIMEOUT_WORD : Z := service_word 0 IPC_OP_TIMEOUT 0 STATUS_TIMEOUT 0.

(** ** State *)

Inductive TaskState := Unused | Ready | Blocked | Done.
#[export] Instance TaskState_eq : EqDecision TaskState.
Proof. solve_decision. Defined.

Inductive TaskKind := KEmpty | KForeground | KDaemon | KLegacy.
#[export] Instance TaskKind_eq : EqDecision TaskKind.
Proof. solve_decision. Defined.

Record IpcMessage := mkMsg { m_from : Z; m_len : Z; m_grant : Z; m_sender_caps : Z; m_word : Z; m_buf : list Z }.
Definition EMPTY_IPC_MESSAGE : IpcMessage := mkMsg 0 0 0 0 0 (replicate 64 0).

Record Mailbox := mkMailbox { b_head : nat; b_tail : nat; b_count : nat; b_slots : list IpcMessage }.
Definition EMPTY_MAILBOX : Mailbox := mkMailbox 0 0 0 (replicate MAILBOX_DEPTH EMPTY_IPC_MESSAGE).

(** One slot of the tables.  [t_owned] is the number of frames of [TRES]. *)
Record Task := mkTask {
  t_state : TaskState; t_exit : Z; t_mbox : Mailbox; t_waiting : bool; t_deadline : Z; t_ptr : Z; t_rlen : Z;
  t_frame : list Z; t_irq_waiting : bool; t_caps : Z; t_pers : Z; t_satp : Z; t_kind : TaskKind; t_owned : Z }.

Definition EMPTY_TASK : Task :=
  mkTask Unused 0 EMPTY_MAILBOX false 0 0 0 (replicate FRAME_SLOTS 0) false 0 0 0 KEmpty 0.

Record IpcStats := mkStats { sends : Z; receives : Z; denied_sends : Z; timeouts : Z; queue_full : Z; max_depth : Z }.

(** Where a hart is: outside the scheduler, past the switch test of
    [secondary_serve], inside the trap path, or in user mode.  [CURRENT] is kept
    apart: a claim is what other harts see. *)
Inductive Place := Console | Serving | InTrap | InUser.
#[export] Instance Place_eq : EqDecision Place.
Proof. solve_decision. Defined.

Record Sched := mkSched {
  tasks : list Task; current : list (option nat); places : list Place; stats : IpcStats; ticks : Z; ext_irqs : Z;
  smp_on : bool }.

Definition with_tasks (ts : list Task) (s : Sched) : Sched :=
  mkSched ts (current s) (places s) (stats s) (ticks s) (ext_irqs s) (smp_on s).
Definition with_stats (f : IpcStats -> IpcStats) (s : Sched) : Sched :=
  mkSched (tasks s) (current s) (places s) (f (stats s)) (ticks s) (ext_irqs s) (smp_on s).
Definition upd_task (i : nat) (f : Task -> Task) (s : Sched) : Sched := with_tasks (alter f i (tasks s)) s.
Definition task (s : Sched) (i : nat) : Task := default EMPTY_TASK (tasks s !! i).

(** Field updates. *)
Definition set_state (v : TaskState) (t : Task) : Task :=
  mkTask v (t_exit t) (t_mbox t) (t_waiting t) (t_deadline t) (t_ptr t) (t_rlen t) (t_frame t) (t_irq_waiting t) (t_caps t)
    (t_pers t) (t_satp t) (t_kind t) (t_owned t).
Definition set_exit (v : Z) (t : Task) : Task :=
  mkTask (t_state t) v (t_mbox t) (t_waiting t) (t_deadline t) (t_ptr t) (t_rlen t) (t_frame t) (t_irq_waiting t) (t_caps t)
    (t_pers t) (t_satp t) (t_kind t) (t_owned t).
Definition set_mbox (v : Mailbox) (t : Task) : Task :=
  mkTask (t_state t) (t_exit t) v (t_waiting t) (t_deadline t) (t_ptr t) (t_rlen t) (t_frame t) (t_irq_waiting t) (t_caps t)
    (t_pers t) (t_satp t) (t_kind t) (t_owned t).
Definition set_wait (w : bool) (deadline ptr len : Z) (t : Task) : Task :=
  mkTask (t_state t) (t_exit t) (t_mbox t) w deadline ptr len (t_frame t) (t_irq_waiting t) (t_caps t)
    (t_pers t) (t_satp t) (t_kind t) (t_owned t).
Definition set_waiting (w : bool) (t : Task) : Task := set_wait w (t_deadline t) (t_ptr t) (t_rlen t) t.
Definition set_frame (v : list Z) (t : Task) : Task :=
  mkTask (t_state t) (t_exit t) (t_mbox t) (t_waiting t) (t_deadline t) (t_ptr t) (t_rlen t) v (t_irq_waiting t) (t_caps t)
    (t_pers t) (t_satp t) (t_kind t) (t_owned t).
Definition set_irq (v : bool) (t : Task) : Task :=
  mkTask (t_state t) (t_exit t) (t_mbox t) (t_waiting t) (t_deadline t) (t_ptr t) (t_rlen t) (t_frame t) v (t_caps t)
    (t_pers t) (t_satp t) (t_kind t) (t_owned t).
Definition set_caps (v : Z) (t : Task) : Task :=
  mkTask (t_state t) (t_exit t) (t_mbox t) (t_waiting t) (t_deadline t) (t_ptr t) (t_rlen t) (t_frame t) (t_irq_waiting t) v
    (t_pers t) (t_satp t) (t_kind t) (t_owned t).
Definition set_space (pers satp : Z) (kind : TaskKind) (owned : Z) (t : Task) : Task :=
  mkTask (t_state t) (t_exit t) (t_mbox t) (t_waiting t) (t_deadline t) (t_ptr t) (t_rlen t) (t_frame t) (t_irq_waiting t)
    (t_caps t) pers satp kind owned.

Definition reg (f : list Z) (r : nat) : Z := default 0 (f !! r).
Definition set_reg (r : nat) (v : Z) (t : Task) : Task := set_frame (<[r := v]> (t_frame t)) t.

(** ** Mailboxes *)

Definition clear_mailbox (t : Task) : Task := set_wait false 0 0 0 (set_mbox EMPTY_MAILBOX t).

(** What a system call makes visible. *)
Inductive Effect :=
| EPrint (bytes : list Z) | EPrintNum (v : Z) | EReport (ns : Z) | EWrite (ptr : Z) (bytes : list Z)
| EDenied (what : Z) | EExit (code : Z) | EKilled (addr : Z).

(** [recv_message_into] on the task's own row: the new row and the bytes copied
    to the address in a0. *)
Definition recv_message_into (t : Task) : option (Task * Effect) :=
  let b := t_mbox t in
  if (b_count b =? 0)%nat then None else
  let msg := default EMPTY_IPC_MESSAGE (b_slots b !! b_head b) in
  let f := t_frame t in
  let n := Z.min (m_len msg) (reg f F_A1) in
  let t1 := set_caps (t_caps t .| m_grant msg) t in
  let t2 := set_mbox (mkMailbox ((b_head b + 1) mod MAILBOX_DEPTH) (b_tail b) (b_count b - 1)
                        (<[b_head b := EMPTY_IPC_MESSAGE]> (b_slots b))) t1 in
  Some (set_reg F_A3 (m_sender_caps msg) (set_reg F_A2 (m_word msg) (set_reg F_A1 (m_from msg) (set_reg F_A0 n t2))),
        EWrite (reg f F_A0) (take (Z.to_nat n) (m_buf msg))).

Definition bump_receives (st : IpcStats) : IpcStats :=
  mkStats (sends st) (receives st + 1) (denied_sends st) (timeouts st) (queue_full st) (max_depth st).
Definition bump_timeouts (st : IpcStats) : IpcStats :=
  mkStats (sends st) (receives st) (denied_sends st) (timeouts st + 1) (queue_full st) (max_depth st).
Definition bump_denied (st : IpcStats) : IpcStats :=
  mkStats (sends st) (receives st) (denied_sends st + 1) (timeouts st) (queue_full st) (max_depth st).
Definition bump_full (st : IpcStats) : IpcStats :=
  mkStats (sends st) (receives st) (denied_sends st) (timeouts st) (queue_full st + 1) (max_depth st).
Definition bump_sends (depth : Z) (st : IpcStats) : IpcStats :=
  mkStats (sends st + 1) (receives st) (denied_sends st) (timeouts st) (queue_full st) (Z.max depth (max_depth st)).

(** ** Timeouts *)

Definition timed_out (f : list Z) : list Z :=
  <[F_A2 := TIMEOUT_WORD]> (<[F_A1 := USIZE_MAX]> (<[F_A0 := STATUS_TIMEOUT]> f)).

Definition expire_one (now : Z) (s : Sched) (i : nat) : Sched :=
  let t := task s i in
  if t_waiting t && bool_decide (t_state t = Blocked) && (t_deadline t <=? now) then
    if (0 <? b_count (t_mbox t))%nat then upd_task i (fun t => set_state Ready (set_waiting false t)) s
    else
      let f := timed_out (<[F_SEPC := wrap 64 (reg (t_frame t) F_SEPC + 4)]> (t_frame t)) in
      with_stats bump_timeouts (upd_task i (fun t => set_state Ready (set_frame f (set_wait false 0 0 0 t))) s)
  else s.

Definition task_ids : list nat := seq 0 MAX_TASKS.
Definition expire_recv_timeouts (s : Sched) : Sched := foldl (expire_one (ticks s)) s task_ids.

(** ** Choosing a task *)

Section Machine.
Variable BOOT_HART : nat.
Variable kernel_satp : Z.

Definition claimed_elsewhere (h i : nat) (s : Sched) : bool :=
  existsb (fun h' => negb (h' =? h)%nat && bool_decide (current s !! h' = Some (Some i))) (seq 0 MAX_HARTS).
Definition runnable_here (h i : nat) (s : Sched) : bool := (h =? BOOT_HART)%nat || negb (t_satp (task s i) =? kernel_satp).
Definition current_task (h : nat) (s : Sched) : option nat := default None (current s !! h).

Definition can_run (h i : nat) (s : Sched) : bool :=
  bool_decide (t_state (task s i) = Ready) && negb (claimed_elsewhere h i s) && runnable_here h i s.
Definition scan_order (start : nat) : list nat := (fun off => ((start + off) mod MAX_TASKS)%nat) <$> seq 0 MAX_TASKS.

(** [pick_next]: timeouts first, then round robin after the last task. *)
Definition pick_next (h : nat) (s : Sched) : Sched * option nat :=
  let s := expire_recv_timeouts s in
  let start := match current_task h s with None => 0%nat | Some cur => (cur + 1)%nat end in
  (s, find (fun i => can_run h i s) (scan_order start)).

Definition any_irq_waiting (s : Sched) : bool :=
  existsb (fun i => t_irq_waiting (task s i) && bool_decide (t_state (task s i) = Blocked)) task_ids.

Definition set_current (h : nat) (c : option nat) (s : Sched) : Sched :=
  mkSched (tasks s) (<[h := c]> (current s)) (places s) (stats s) (ticks s) (ext_irqs s) (smp_on s).
Definition set_place (h : nat) (p : Place) (s : Sched) : Sched :=
  mkSched (tasks s) (current s) (<[h := p]> (places s)) (stats s) (ticks s) (ext_irqs s) (smp_on s).

(** The claim, its stamp in the frame, and the way into user mode. *)
Definition enter (h i : nat) (s : Sched) : Sched :=
  set_place h InUser (upd_task i (set_reg F_HART (Z.of_nat h)) (set_current h (Some i) s)).
Definition leave (h : nat) (s : Sched) : Sched := set_place h Console (set_current h None s).

(** The last section of [schedule_or_return]; [None]: the backstop halts. *)
Definition dispatch (h : nat) (s : Sched) : option Sched :=
  let '(s, next) := pick_next h s in
  match next with
  | Some i =>
    if negb (h =? BOOT_HART)%nat && (t_satp (task s i) =? kernel_satp) then None
    else Some (enter h i s)
  | None => Some (leave h s)
  end.

(** The section [secondary_serve] and [run_processes] enter through. *)
Definition enter_next (h : nat) (s : Sched) : Sched :=
  let '(s, next) := pick_next h s in
  match next with Some i => enter h i s | None => set_place h Console s end.

(** The section of [run_scheduler_from]. *)
Definition run_scheduler_from (h first : nat) (s : Sched) : Sched := enter h first s.

(** ** Device interrupts *)

Definition wake_one (s : Sched) (i : nat) : Sched :=
  if t_irq_waiting (task s i)
  then upd_task i (fun t => let t := set_irq false t in if decide (t_state t = Blocked) then set_state Ready t else t) s
  else s.
Definition wake_irq_waiters (s : Sched) : Sched := foldl wake_one s task_ids.

(** [plic_handle] with the number it claims. *)
Definition plic_handle (irq : Z) (s : Sched) : Sched :=
  if irq =? 0 then s else
  wake_irq_waiters (mkSched (tasks s) (current s) (places s) (stats s) (ticks s) (ext_irqs s + 1) (smp_on s)).

(** ** System calls *)

Inductive Next := Resume | Reschedule | Halt.

Definition resume_with (cur : nat) (r : nat) (v : Z) (s : Sched) : Next * list Effect * Sched :=
  (Resume, [], upd_task cur (set_reg r v) s).

Definition read_user (mem : Z -> Z) (ptr len : Z) : list Z := (fun k => mem (ptr + Z.of_nat k)) <$> seq 0 (Z.to_nat len).

Definition finish (cur : nat) (code : Z) (e : Effect) (s : Sched) : Next * list Effect * Sched :=
  (Reschedule, [e], upd_task cur (fun t => set_exit code (set_state Done t)) s).

(** The enqueue of [SYS_SEND]. *)
Definition enqueue (m : IpcMessage) (t : Task) : Task :=
  let b := t_mbox t in
  let t := set_mbox (mkMailbox (b_head b) ((b_tail b + 1) mod MAILBOX_DEPTH) (b_count b + 1) (<[b_tail b := m]> (b_slots b))) t in
  if decide (t_state t = Blocked) then set_state Ready (set_waiting false t) else t.

Definition sys_send (cur : nat) (caps : Z) (mem : Z -> Z) (s : Sched) : Next * list Effect * Sched :=
  let f := t_frame (task s cur) in
  if caps & TASK_IPC =? 0 then
    (Resume, [EDenied SYS_SEND], upd_task cur (set_reg F_A0 SYS_REFUSED) (with_stats bump_denied s))
  else
  let to := reg f F_A0 in
  let len := Z.min (reg f F_A2) 64 in
  let dst := Z.to_nat to in
  if negb (to <? Z.of_nat MAX_TASKS) || bool_decide (t_state (task s dst) = Unused) || bool_decide (t_state (task s dst) = Done)
  then resume_with cur F_A0 SYS_REFUSED (with_stats bump_denied s)
  else
  let granted := reg f F_A3 & caps in
  let b := t_mbox (task s dst) in
  if (b_count b =? MAILBOX_DEPTH)%nat then resume_with cur F_A0 SYS_REFUSED (with_stats bump_full s) else
  let old := default EMPTY_IPC_MESSAGE (b_slots b !! b_tail b) in
  let buf := read_user mem (reg f F_A1) len ++ drop (Z.to_nat len) (m_buf old) in
  let m := mkMsg (Z.of_nat cur) len granted caps (reg f F_A4) buf in
  resume_with cur F_A0 0 (with_stats (bump_sends (Z.of_nat (b_count b) + 1)) (upd_task dst (enqueue m) s)).

(** Take a message, or park with [park]. *)
Definition receive_or (cur : nat) (s : Sched) (park : Next * list Effect * Sched) : Next * list Effect * Sched :=
  match recv_message_into (task s cur) with
  | Some (t, e) => (Resume, [e], with_stats bump_receives (upd_task cur (fun _ => t) s))
  | None => park
  end.

(** Park so that the ecall runs again. *)
Definition rewind (t : Task) : Task := set_state Blocked (set_reg F_SEPC (wrap 64 (reg (t_frame t) F_SEPC - 4)) t).

Definition sys_recv (cur : nat) (caps : Z) (s : Sched) : Next * list Effect * Sched :=
  if caps & TASK_IPC =? 0 then (Resume, [EDenied SYS_RECV], upd_task cur (set_reg F_A0 SYS_REFUSED) s) else
  receive_or cur s (Reschedule, [], upd_task cur rewind s).

Definition sys_recv_timeout (cur : nat) (caps : Z) (s : Sched) : Next * list Effect * Sched :=
  if caps & TASK_IPC =? 0 then (Resume, [EDenied SYS_RECV_TIMEOUT], upd_task cur (set_reg F_A0 SYS_REFUSED) s) else
  let f := t_frame (task s cur) in
  let timeout := reg f F_A2 in
  receive_or cur s
    (if timeout =? 0 then (Resume, [], with_stats bump_timeouts (upd_task cur (fun t => set_frame (timed_out (t_frame t)) t) s))
     else (Reschedule, [],
       upd_task cur (fun t => rewind (set_wait true (Z.min (ticks s + timeout) (2 ^ 64 - 1)) (reg f F_A0) (reg f F_A1) t)) s)).

Definition sys_irq_wait (cur : nat) (s : Sched) : Next * list Effect * Sched :=
  let prev := reg (t_frame (task s cur)) F_A0 in
  if negb (ext_irqs s =? prev) then resume_with cur F_A0 (ext_irqs s) s
  else (Reschedule, [], upd_task cur (fun t => rewind (set_irq true t)) s).

Definition linux_syscall (cur : nat) (caps : Z) (mem : Z -> Z) (s : Sched) : Next * list Effect * Sched :=
  let f := t_frame (task s cur) in
  let nr := reg f F_A7 in
  if nr =? LINUX_WRITE then
    let fd := reg f F_A0 in
    if (fd =? 1) || (fd =? 2) then
      if negb (caps & TASK_PRINT =? 0)
      then (Resume, [EPrint (read_user mem (reg f F_A1) (reg f F_A2))], upd_task cur (set_reg F_A0 (reg f F_A2)) s)
      else (Resume, [EDenied LINUX_WRITE], upd_task cur (set_reg F_A0 LINUX_EACCES) s)
    else resume_with cur F_A0 LINUX_EBADF s
  else if (nr =? LINUX_EXIT) || (nr =? LINUX_EXIT_GROUP) then finish cur (reg f F_A0) (EExit (reg f F_A0)) s
  else resume_with cur F_A0 LINUX_ENOSYS s.

Definition native_syscall (cur : nat) (caps : Z) (mem : Z -> Z) (s : Sched) : Next * list Effect * Sched :=
  let f := t_frame (task s cur) in
  let nr := reg f F_A7 in
  if nr =? SYS_YIELD then (Reschedule, [], upd_task cur (set_state Ready) s)
  else if nr =? SYS_EXIT then finish cur (reg f F_A0) (EExit (reg f F_A0)) s
  else if nr =? SYS_PRINT then
    if negb (caps & TASK_PRINT =? 0)
    then (Resume, [EPrint (read_user mem (reg f F_A0) (reg f F_A1))], upd_task cur (set_reg F_A0 0) s)
    else (Resume, [EDenied SYS_PRINT], upd_task cur (set_reg F_A0 SYS_REFUSED) s)
  else if nr =? SYS_UPTIME then
    resume_with cur F_A0 (if negb (caps & TASK_TIME =? 0) then ticks s else SYS_REFUSED) s
  else if nr =? SYS_NULL then (Resume, [], s)
  else if nr =? SYS_PRINTNUM then (Resume, [EPrintNum (reg f F_A0)], upd_task cur (set_reg F_A0 0) s)
  else if nr =? SYS_REPORT then
    let scaled := Z.min (reg f F_A0 * 100) (2 ^ 64 - 1) in
    (Resume, [EReport (if reg f F_A1 =? 0 then 0 else scaled / reg f F_A1)], upd_task cur (set_reg F_A0 0) s)
  else if nr =? SYS_SEND then sys_send cur caps mem s
  else if nr =? SYS_RECV then sys_recv cur caps s
  else if nr =? SYS_RECV_TIMEOUT then sys_recv_timeout cur caps s
  else if nr =? SYS_IRQ_WAIT then sys_irq_wait cur s
  else resume_with cur F_A0 SYS_REFUSED s.

(** ** Traps *)

Inductive Cause := CTimer | CExternal (irq : Z) | CFault (stval : Z) | CEcall | COther.

(** [utrap_handler] up to its [return]: what to do next. *)
Definition utrap_handler (h : nat) (c : Cause) (mem : Z -> Z) (s : Sched) : Next * list Effect * Sched :=
  if (MAX_HARTS <=? h)%nat then (Halt, [], s) else
  match current_task h s with
  | None => (Halt, [], s)
  | Some cur =>
    match c with
    | CTimer => (Reschedule, [], mkSched (tasks s) (current s) (places s) (stats s) (ticks s + 1) (ext_irqs s) (smp_on s))
    | CExternal irq => (Resume, [], plic_handle irq s)
    | CFault stval => finish cur SYS_REFUSED (EKilled stval) s
    | CEcall =>
      let s := upd_task cur (fun t => set_reg F_SEPC (wrap 64 (reg (t_frame t) F_SEPC + 4)) t) s in
      let caps := t_caps (task s cur) in
      if t_pers (task s cur) =? PERS_LINUX then linux_syscall cur caps mem s else native_syscall cur caps mem s
    | COther => (Halt, [], s)
    end
  end.

(** ** The table from the console *)

(** What [build_address_space] returns: entry point, root as a satp, frames. *)
Record Build := mkBuild { b_entry : Z; b_satp : Z; b_frames : Z }.
Record Spec := mkSpec { p_caps : Z; p_pers : Z; p_args : list Z }.
Definition USER_STACK_TOP : Z := 0x40700000.

(** [reclaim_task_resources_locked] on a row of the table. *)
Definition reclaim_row (t : Task) : Task :=
  if t_owned t =? 0 then set_space (t_pers t) 0 (t_kind t) (t_owned t) t
  else clear_mailbox (set_caps 0 (set_space PERS_NATIVE 0 KEmpty 0 t)).

Definition start_frame (entry sp : Z) (args : list Z) : list Z :=
  <[F_A3 := reg args 3]> (<[F_A2 := reg args 2]> (<[F_A1 := reg args 1]> (<[F_A0 := reg args 0]>
    (<[F_SP := sp]> (<[F_SEPC := entry]> (replicate FRAME_SLOTS 0)))))).

(** A row of [run_processes], complete in one section. *)
Definition process_row (p : Spec) (b : Build) (kind : TaskKind) (t : Task) : Task :=
  set_state Ready (set_space (p_pers p) (b_satp b) kind (b_frames b)
    (set_caps (p_caps p) (set_frame (start_frame (b_entry b) USER_STACK_TOP (p_args p)) t))).

Definition spawn_row (p : Spec) (b : option Build) (kind : TaskKind) (t : Task) : Task :=
  match b with
  | None => clear_mailbox (set_state Unused t)
  | Some b => set_state Ready (clear_mailbox (set_exit 0 (process_row p b kind t)))
  end.

(** The two sections of [spawn_process_at]; the build between them is outside
    the lock. *)
Definition spawn_reclaim (slot : nat) (s : Sched) : Sched := upd_task slot reclaim_row s.
Definition spawn_place (slot : nat) (p : Spec) (b : option Build) (kind : TaskKind) (s : Sched) : Sched :=
  upd_task slot (spawn_row p b kind) s.

Definition wipe_row (t : Task) : Task := clear_mailbox (set_state Unused (reclaim_row t)).

(** The first section of [run_processes], and the one of each process. *)
Definition wipe_table (s : Sched) : Sched := with_tasks (wipe_row <$> tasks s) s.
Definition place_process (slot : nat) (p : Spec) (b : Build) (s : Sched) : Sched :=
  upd_task slot (process_row p b KForeground) s.

Definition reclaim_done (t : Task) : Task := if decide (t_state t = Done) then reclaim_row t else t.
Definition from_slot (n : nat) (f : Task -> Task) (s : Sched) : Sched :=
  with_tasks (imap (fun i t => if (n <=? i)%nat then f t else t) (tasks s)) s.
Definition reclaim_all_done (s : Sched) : Sched := from_slot 0 reclaim_done s.
Definition reclaim_finished_foreground_tasks (s : Sched) : Sched := from_slot FIRST_FOREGROUND_TASK reclaim_done s.
Definition clear_foreground_tasks (s : Sched) : Sched :=
  from_slot FIRST_FOREGROUND_TASK (fun t => set_exit 0 (set_caps 0 (wipe_row t))) s.

(** [run_tasks]: the table is wiped, the baked tasks written and slot 0 claimed
    in one section. *)
Definition baked_row (entry caps pers sp : Z) (t : Task) : Task :=
  let f := <[F_SP := sp]> (<[F_SEPC := entry]> (replicate FRAME_SLOTS 0)) in
  set_state Ready (set_space pers kernel_satp KLegacy 0 (set_caps caps (set_frame f t))).
Definition run_tasks (h : nat) (stack_top : nat -> Z) (specs : list (Z * Z * Z)) (s : Sched) : Sched :=
  let s := wipe_table s in
  let fill s '(i, (entry, caps, pers)) := upd_task i (baked_row entry caps pers (stack_top i)) s in
  enter h 0 (foldl fill s (imap pair (take MAX_TASKS specs))).

(** [run_foreground_processes] up to its entry, as one run without another
    hart: the first slot that was launched. *)
Definition launch_foreground (specs : list (Spec * option Build)) (s : Sched) : Sched * option nat :=
  foldl (fun '(s, first) '(i, (p, b)) =>
           let slot := (FIRST_FOREGROUND_TASK + i)%nat in
           (spawn_place slot p b KForeground (spawn_reclaim slot s),
            match first, b with None, Some _ => Some slot | _, _ => first end))
    (clear_foreground_tasks s, None) (imap pair (take (MAX_TASKS - FIRST_FOREGROUND_TASK) specs)).

(** The switch of the merged scheduler. *)
Definition set_smp (b : bool) (s : Sched) : Sched :=
  mkSched (tasks s) (current s) (places s) (stats s) (ticks s) (ext_irqs s) b.
Definition secondary_claims_outstanding (s : Sched) : bool :=
  existsb (fun h => negb (h =? BOOT_HART)%nat && bool_decide (current_task h s <> None)) (seq 0 MAX_HARTS).

(** ** Queries *)

Definition task_is_live (slot : nat) (s : Sched) : bool :=
  bool_decide (t_state (task s slot) = Blocked) || bool_decide (t_state (task s slot) = Ready).
Definition task_owned_frames (slot : nat) (s : Sched) : Z := t_owned (task s slot).
Definition process_owned_frames (s : Sched) : Z := foldr Z.add 0 (t_owned <$> tasks s).
Definition owned_frames_by_kind (k : TaskKind) (s : Sched) : Z :=
  foldr Z.add 0 (t_owned <$> filter (fun t => t_kind t = k) (tasks s)).
Record TaskRow := mkRow { row_state : TaskState; row_kind : TaskKind; row_caps : Z; row_exit : Z }.
Definition task_row (slot : nat) (s : Sched) : TaskRow :=
  let t := task s slot in mkRow (t_state t) (t_kind t) (t_caps t) (t_exit t).
Definition foreground_exit_code (s : Sched) : Z := t_exit (task s FIRST_FOREGROUND_TASK).

(** The machine after boot. *)
Definition boot_sched : Sched :=
  mkSched (replicate MAX_TASKS EMPTY_TASK) (replicate MAX_HARTS None) (replicate MAX_HARTS Console)
    (mkStats 0 0 0 0 0 0) 0 0 false.

(** ** The machine

    A trap saves the user's 32 registers, whatever they hold, over the frame of
    the claimed task; slot 32 is the kernel's. *)
Definition save_regs (regs : list Z) (t : Task) : Task := set_frame (regs ++ drop 32 (t_frame t)) t.

(** The steps of the harts: everything but the console. *)
Inductive hart_step : Sched -> Sched -> Prop :=
| hs_resume h cur regs c mem effs s s' : places s !! h = Some InUser -> current s !! h = Some (Some cur) ->
    length regs = 32%nat -> utrap_handler h c mem (upd_task cur (save_regs regs) s) = (Resume, effs, s') -> hart_step s s'
| hs_trap h cur regs c mem effs s s' : places s !! h = Some InUser -> current s !! h = Some (Some cur) ->
    length regs = 32%nat -> utrap_handler h c mem (upd_task cur (save_regs regs) s) = (Reschedule, effs, s') ->
    hart_step s (set_place h InTrap s')
| hs_peek s : places s !! BOOT_HART = Some InTrap -> hart_step s (pick_next BOOT_HART s).1
| hs_idle irq s : places s !! BOOT_HART = Some InTrap -> hart_step s (plic_handle irq s)
| hs_dispatch h s s' : places s !! h = Some InTrap -> dispatch h s = Some s' -> hart_step s s'
| hs_serve h s : h <> BOOT_HART -> places s !! h = Some Console -> smp_on s = true -> hart_step s (set_place h Serving s)
| hs_take h s : places s !! h = Some Serving -> hart_step s (enter_next h s).

(** The sections of the console, which runs on the boot hart. *)
Inductive console_section : Sched -> Sched -> Prop :=
| cs_tick s : console_section s (mkSched (tasks s) (current s) (places s) (stats s) (ticks s + 1) (ext_irqs s) (smp_on s))
| cs_irq irq s : console_section s (plic_handle irq s)
| cs_smp b s : console_section s (set_smp b s)
| cs_reclaim slot s : console_section s (spawn_reclaim slot s)
| cs_spawn slot p b kind s : console_section s (spawn_place slot p b kind s)
| cs_wipe s : console_section s (wipe_table s)
| cs_place slot p b s : console_section s (place_process slot p b s)
| cs_clear s : console_section s (clear_foreground_tasks s)
| cs_done s : console_section s (reclaim_all_done s)
| cs_done_fg s : console_section s (reclaim_finished_foreground_tasks s)
| cs_enter s : console_section s (enter_next BOOT_HART s)
| cs_run_tasks top specs s : console_section s (run_tasks BOOT_HART top specs s)
| cs_run_from first s : (first < MAX_TASKS)%nat -> console_section s (run_scheduler_from BOOT_HART first s).

Inductive machine_step : Sched -> Sched -> Prop :=
| ms_hart s s' : hart_step s s' -> machine_step s s'
| ms_console s s' : places s !! BOOT_HART = Some Console -> console_section s s' -> machine_step s s'.
End Machine.
