(* ===== verification/SchedSafe.v ===== *)
(** * Safety of the scheduler

    Mailboxes refine a bounded queue; what a trap may do to a row of the task
    table is collected in one record of laws, [row_laws], so that each invariant
    of the machine is proved once per primitive row operation and not once per
    system call.  Invariants: no lost wakeup, authority is only passed on, harts
    exclude each other from a task, and the round robin starves nobody. *)

From Stdlib Require Import ZArith Lia.
From stdpp Require Import base option numbers list.
From S2P Require Import Prelude Mcap Sched.

Create HintDb sched.

(** ** Mailboxes are bounded queues *)

Record mailbox_ok (b : Mailbox) : Prop := {
  mo_slots : length (b_slots b) = MAILBOX_DEPTH;
  mo_head : (b_head b < MAILBOX_DEPTH)%nat;
  mo_count : (b_count b <= MAILBOX_DEPTH)%nat;
  mo_tail : b_tail b = ((b_head b + b_count b) mod MAILBOX_DEPTH)%nat }.

(** The messages a mailbox holds, oldest first. *)
Definition queue (b : Mailbox) : list IpcMessage :=
  (fun k => default EMPTY_IPC_MESSAGE (b_slots b !! ((b_head b + k) mod MAILBOX_DEPTH)%nat)) <$> seq 0 (b_count b).

Definition push (m : IpcMessage) (b : Mailbox) : Mailbox :=
  mkMailbox (b_head b) ((b_tail b + 1) mod MAILBOX_DEPTH) (b_count b + 1) (<[b_tail b := m]> (b_slots b)).
Definition pop (b : Mailbox) : Mailbox :=
  mkMailbox ((b_head b + 1) mod MAILBOX_DEPTH) (b_tail b) (b_count b - 1) (<[b_head b := EMPTY_IPC_MESSAGE]> (b_slots b)).

(** Case analysis over the four heads and the counts of a full ring. *)
Ltac ring_cases b :=
  destruct b as [hd tl ct sl]; intros [Hs Hh Hc Ht]; cbn [b_head b_tail b_count b_slots] in *; unfold MAILBOX_DEPTH in *;
  destruct sl as [|s0 [|s1 [|s2 [|s3 [|]]]]]; try discriminate;
  destruct hd as [|[|[|[|]]]]; try lia; destruct ct as [|[|[|[|[|]]]]]; try lia; subst tl.

Ltac ring_solve := first [reflexivity | constructor; first [reflexivity | vm_compute; lia]].

Lemma push_ok m b : mailbox_ok b -> (b_count b < MAILBOX_DEPTH)%nat ->
  mailbox_ok (push m b) /\ queue (push m b) = queue b ++ [m].
Proof. ring_cases b; intros Hlt; try lia; split; ring_solve. Qed.

Lemma pop_ok b : mailbox_ok b -> (0 < b_count b)%nat ->
  mailbox_ok (pop b) /\ queue b = default EMPTY_IPC_MESSAGE (b_slots b !! b_head b) :: queue (pop b).
Proof. ring_cases b; intros Hlt; try lia; split; ring_solve. Qed.

Lemma empty_mailbox_ok : mailbox_ok EMPTY_MAILBOX.
Proof. ring_solve. Qed.

Lemma length_queue_mailbox b : length (queue b) = b_count b.
Proof. unfold queue. rewrite length_fmap, length_seq. reflexivity. Qed.

(** ** Rows *)

Definition rows (P : nat -> Task -> Prop) (s : Sched) : Prop := forall j t, tasks s !! j = Some t -> P j t.

Lemma rows_tasks P s s' : tasks s' = tasks s -> rows P s -> rows P s'.
Proof. intros E H j t. rewrite E. apply H. Qed.

Lemma rows_stats P f s : rows P s -> rows P (with_stats f s).
Proof. apply rows_tasks. reflexivity. Qed.

Lemma rows_upd P i f s : rows P s -> (forall t, tasks s !! i = Some t -> P i t -> P i (f t)) -> rows P (upd_task i f s).
Proof.
  intros H Hf j t. unfold upd_task, with_tasks. cbn [tasks]. destruct (decide (i = j)) as [<-|Hn].
  - rewrite list_lookup_alter_eq. destruct (tasks s !! i) as [t0|] eqn:E; [|discriminate]. intros [= <-]. auto.
  - rewrite list_lookup_alter_ne by exact Hn. apply H.
Qed.

Lemma lookup_task s i t : tasks s !! i = Some t -> task s i = t.
Proof. unfold task. intros ->. reflexivity. Qed.

Lemma task_upd i f s : (i < length (tasks s))%nat -> task (upd_task i f s) i = f (task s i).
Proof.
  intros Hi. unfold task, upd_task, with_tasks. cbn [tasks]. rewrite list_lookup_alter_eq.
  destruct (lookup_lt_is_Some_2 _ _ Hi) as [t ->]. reflexivity.
Qed.
Lemma task_upd_ne i j f s : i <> j -> task (upd_task i f s) j = task s j.
Proof. intros Hn. unfold task, upd_task, with_tasks. cbn [tasks]. rewrite list_lookup_alter_ne by exact Hn. reflexivity. Qed.

(** What a trap of task [cur] may do to the table: laws of an indexed row
    predicate under the primitive operations of the handler. *)
Definition live (t : Task) : Prop := t_state t = Ready \/ t_state t = Blocked.
Definition woken (t : Task) : Task := let t := set_irq false t in if decide (t_state t = Blocked) then set_state Ready t else t.
Definition expired (t : Task) : Task :=
  if (0 <? b_count (t_mbox t))%nat then set_state Ready (set_waiting false t)
  else set_state Ready (set_frame (timed_out (<[F_SEPC := wrap 64 (reg (t_frame t) F_SEPC + 4)]> (t_frame t))) (set_wait false 0 0 0 t)).

(** The laws of the operations any hart applies to any row. *)
Record ambient_laws (P : nat -> Task -> Prop) : Prop := {
  al_wake j t : P j t -> P j (woken t);
  al_expire j t : t_state t = Blocked -> P j t -> P j (expired t) }.

Record row_laws (cur : nat) (P : nat -> Task -> Prop) : Prop := {
  rl_ambient : ambient_laws P;
  rl_reg r v t : (r < F_HART)%nat -> P cur t -> P cur (set_reg r v t);
  rl_done code t : P cur t -> P cur (set_exit code (set_state Done t));
  rl_yield t : P cur t -> P cur (set_state Ready t);
  rl_park w d p l t : b_count (t_mbox t) = 0%nat -> P cur t -> P cur (rewind (set_wait w d p l t));
  rl_irq t : P cur t -> P cur (rewind (set_irq true t));
  rl_recv t t' e : recv_message_into t = Some (t', e) -> P cur t -> P cur t';
  rl_send j x len w buf ct t : P cur ct -> live t -> b_count (t_mbox t) <> MAILBOX_DEPTH -> P j t ->
    P j (enqueue (mkMsg (Z.of_nat cur) len (x & t_caps ct) (t_caps ct) w buf) t) }.

(** *** The ambient operations *)

Lemma rows_wake_one P s i : ambient_laws P -> rows P s -> rows P (wake_one s i).
Proof.
  intros L H. unfold wake_one. destruct (t_irq_waiting (task s i)); [|exact H].
  apply rows_upd; [exact H|]. intros t _. apply (al_wake _ L).
Qed.

Lemma rows_fold {A} P (f : Sched -> A -> Sched) l s : (forall s a, rows P s -> rows P (f s a)) -> rows P s -> rows P (foldl f s l).
Proof. intros Hf. revert s. induction l as [|a l IH]; intros s H; [exact H|]. apply IH, Hf, H. Qed.

Lemma rows_plic P irq s : ambient_laws P -> rows P s -> rows P (plic_handle irq s).
Proof.
  intros L H. unfold plic_handle. destruct (irq =? 0); [exact H|].
  apply rows_fold; [intros s1 i; apply rows_wake_one, L|]. exact H.
Qed.

Lemma rows_expire_one P now s i : ambient_laws P -> rows P s -> rows P (expire_one now s i).
Proof.
  intros L H. unfold expire_one.
  destruct (t_waiting (task s i)); [|exact H]. case_bool_decide as Hb; [|exact H].
  destruct (t_deadline (task s i) <=? now); [|exact H]. cbn [andb].
  destruct (0 <? b_count (t_mbox (task s i)))%nat eqn:Ec.
  - apply rows_upd; [exact H|]. intros t Ht HP. rewrite (lookup_task _ _ _ Ht) in Ec, Hb.
    pose proof (al_expire _ L i t Hb HP) as HE. unfold expired in HE. rewrite Ec in HE. exact HE.
  - apply rows_stats, rows_upd; [exact H|]. intros t Ht HP.
    rewrite (lookup_task _ _ _ Ht) in *. pose proof (al_expire _ L i t Hb HP) as HE. unfold expired in HE.
    rewrite Ec in HE. exact HE.
Qed.

Lemma rows_expire P s : ambient_laws P -> rows P s -> rows P (expire_recv_timeouts s).
Proof. intros L. apply rows_fold. intros s1 i. apply rows_expire_one, L. Qed.

(** *** The handler *)

Section Handler.
Context (cur : nat) (P : nat -> Task -> Prop) (L : row_laws cur P).

Lemma rows_set_reg r v s : (r < F_HART)%nat -> rows P s -> rows P (upd_task cur (set_reg r v) s).
Proof. intros Hr H. apply rows_upd; [exact H|]. intros t _. apply (rl_reg _ _ L); exact Hr. Qed.

Lemma rows_finish code e s n effs s' : rows P s -> finish cur code e s = (n, effs, s') -> rows P s'.
Proof. intros H [= _ _ <-]. apply rows_upd; [exact H|]. intros t _. apply (rl_done _ _ L). Qed.

Lemma rows_linux caps mem s n effs s' : rows P s -> linux_syscall cur caps mem s = (n, effs, s') -> rows P s'.
Proof.
  intros H. unfold linux_syscall, resume_with. repeat case_match; try (apply rows_finish; exact H); intros [= _ _ <-];
  apply rows_set_reg; solve [exact H | unfold F_A0, F_HART; lia].
Qed.

Lemma rows_send mem s n effs s' : tasks s !! cur = Some (task s cur) -> rows P s ->
  sys_send cur (t_caps (task s cur)) mem s = (n, effs, s') -> rows P s'.
Proof.
  intros Hc H. unfold sys_send, resume_with.
  destruct (_ =? 0); [intros [= _ _ <-]; apply rows_set_reg; [unfold F_A0, F_HART; lia|]; apply rows_stats, H|].
  destruct (_ || _ || _) eqn:Ed; [intros [= _ _ <-]; apply rows_set_reg; [unfold F_A0, F_HART; lia|]; apply rows_stats, H|].
  apply orb_false_elim in Ed as [Ed Hd]. apply orb_false_elim in Ed as [_ Hu].
  apply bool_decide_eq_false in Hd, Hu.
  destruct (_ =? MAILBOX_DEPTH)%nat eqn:Ef; intros [= _ _ <-]; (apply rows_set_reg; [unfold F_A0, F_HART; lia|]); apply rows_stats; [exact H|].
  apply rows_upd; [exact H|]. intros t Ht HP. rewrite (lookup_task _ _ _ Ht) in *.
  apply Nat.eqb_neq in Ef. apply (rl_send _ _ L); [apply H, Hc| |exact Ef|exact HP].
  unfold live. destruct (t_state t); auto; contradiction.
Qed.

Lemma recv_none t : recv_message_into t = None -> b_count (t_mbox t) = 0%nat.
Proof. unfold recv_message_into. destruct (b_count (t_mbox t) =? 0)%nat eqn:E; [|discriminate]. intros _. apply Nat.eqb_eq, E. Qed.

Lemma set_wait_id t : set_wait (t_waiting t) (t_deadline t) (t_ptr t) (t_rlen t) t = t.
Proof. destruct t. reflexivity. Qed.

Lemma rows_receive s park n effs s' : tasks s !! cur = Some (task s cur) -> rows P s ->
  (b_count (t_mbox (task s cur)) = 0%nat -> park = (n, effs, s') -> rows P s') -> receive_or cur s park = (n, effs, s') -> rows P s'.
Proof.
  intros Hc H Hp. unfold receive_or. destruct (recv_message_into _) as [[t e]|] eqn:E.
  - intros [= _ _ <-]. apply rows_stats, rows_upd; [exact H|]. intros t0 Ht HP.
    rewrite (lookup_task _ _ _ Ht) in E. exact (rl_recv _ _ L _ _ _ E HP).
  - apply Hp. apply recv_none, E.
Qed.

Lemma rows_recv caps s n effs s' : tasks s !! cur = Some (task s cur) -> rows P s -> sys_recv cur caps s = (n, effs, s') -> rows P s'.
Proof.
  intros Hc H. unfold sys_recv. destruct (_ =? 0).
  { intros [= _ _ <-]. apply rows_set_reg; [unfold F_A0, F_HART; lia|exact H]. }
  apply rows_receive; [exact Hc|exact H|]. intros H0 [= _ _ <-]. apply rows_upd; [exact H|]. intros t Ht HP.
  rewrite (lookup_task _ _ _ Ht) in H0. rewrite <- (set_wait_id t). apply (rl_park _ _ L); [exact H0|exact HP].
Qed.

Lemma rows_recv_timeout caps s n effs s' : tasks s !! cur = Some (task s cur) -> rows P s ->
  sys_recv_timeout cur caps s = (n, effs, s') -> rows P s'.
Proof.
  intros Hc H. unfold sys_recv_timeout. destruct (_ =? 0).
  { intros [= _ _ <-]. apply rows_set_reg; [unfold F_A0, F_HART; lia|exact H]. }
  apply rows_receive; [exact Hc|exact H|]. intros H0. destruct (_ =? 0); intros [= _ _ <-].
  - apply rows_stats, rows_upd; [exact H|]. intros t _ HP.
    change (set_frame (timed_out (t_frame t)) t)
      with (set_reg F_A2 TIMEOUT_WORD (set_reg F_A1 USIZE_MAX (set_reg F_A0 STATUS_TIMEOUT t))).
    do 3 (apply (rl_reg _ _ L); [unfold F_A0, F_A1, F_A2, F_HART; lia|]). exact HP.
  - apply rows_upd; [exact H|]. intros t Ht HP. rewrite (lookup_task _ _ _ Ht) in H0. apply (rl_park _ _ L); [exact H0|exact HP].
Qed.

Lemma rows_irq_wait s n effs s' : rows P s -> sys_irq_wait cur s = (n, effs, s') -> rows P s'.
Proof.
  intros H. unfold sys_irq_wait, resume_with. destruct (negb _); intros [= _ _ <-].
  - apply rows_set_reg; [unfold F_A0, F_HART; lia|exact H].
  - apply rows_upd; [exact H|]. intros t _. apply (rl_irq _ _ L).
Qed.

Lemma rows_native mem s n effs s' : tasks s !! cur = Some (task s cur) -> rows P s ->
  native_syscall cur (t_caps (task s cur)) mem s = (n, effs, s') -> rows P s'.
Proof.
  intros Hc H. unfold native_syscall, resume_with.
  repeat (match goal with |- context [if ?b then _ else _] => destruct b end);
  first [ apply rows_finish; exact H | apply rows_send; assumption | apply rows_recv; assumption
        | apply rows_recv_timeout; assumption | apply rows_irq_wait; assumption | intros [= _ _ <-] ];
  first [ exact H | apply rows_set_reg; [unfold F_A0, F_HART; lia|exact H]
        | apply rows_upd; [exact H|]; intros t _; apply (rl_yield _ _ L) ].
Qed.

(** A trap of task [cur] keeps every predicate the laws are proved for. *)
Lemma rows_trap h c mem s n effs s' : current_task h s = Some cur -> (cur < length (tasks s))%nat -> rows P s ->
  utrap_handler h c mem s = (n, effs, s') -> rows P s'.
Proof.
  intros Hcur Hlt H. unfold utrap_handler. destruct (_ <=? h)%nat; [intros [= _ _ <-]; exact H|]. rewrite Hcur.
  destruct c as [|irq|stval| |]; try (intros [= _ _ <-]; exact H).
  - intros [= _ _ <-]. apply rows_plic; [apply (rl_ambient _ _ L)|exact H].
  - apply rows_finish, H.
  - set (s1 := upd_task _ _ s).
    assert (H1 : rows P s1) by (apply rows_upd; [exact H|]; intros t _; apply (rl_reg _ _ L); unfold F_SEPC, F_HART; lia).
    assert (Hc : tasks s1 !! cur = Some (task s1 cur)).
    { unfold task. destruct (tasks s1 !! cur) eqn:E; [reflexivity|]. apply lookup_ge_None_1 in E.
      subst s1. unfold upd_task, with_tasks in E. cbn [tasks] in E. rewrite length_alter in E. lia. }
    destruct (_ =? PERS_LINUX); [apply rows_linux, H1|apply rows_native; assumption].
Qed.
End Handler.

(** ** What a trap leaves alone *)

(** The part of the state a section without a dispatch keeps. *)
Record same_claims (s s' : Sched) : Prop := {
  sc_current : current s' = current s;
  sc_places : places s' = places s;
  sc_length : length (tasks s') = length (tasks s) }.

#[export] Instance same_claims_pre : PreOrder same_claims.
Proof. split; [repeat split|]. intros a b c [] []. split; congruence. Qed.

Lemma same_upd i f s : same_claims s (upd_task i f s).
Proof. repeat split. unfold upd_task, with_tasks. cbn [tasks]. apply length_alter. Qed.
Lemma same_stats f s : same_claims s (with_stats f s).
Proof. repeat split. Qed.
Lemma same_upd_l i f s s' : same_claims s s' -> same_claims s (upd_task i f s').
Proof. intros H. etransitivity; [exact H|apply same_upd]. Qed.
Lemma same_stats_l f s s' : same_claims s s' -> same_claims s (with_stats f s').
Proof. intros H. etransitivity; [exact H|apply same_stats]. Qed.
Lemma same_fold {A} (f : Sched -> A -> Sched) l s : (forall s a, same_claims s (f s a)) -> same_claims s (foldl f s l).
Proof. intros Hf. revert s. induction l as [|a l IH]; intros s; cbn; [reflexivity|]. etransitivity; [apply Hf|apply IH]. Qed.
#[export] Hint Resolve same_upd_l same_stats_l : sched.
#[export] Hint Extern 1 (same_claims ?s ?s) => reflexivity : sched.

Lemma same_plic irq s : same_claims s (plic_handle irq s).
Proof.
  unfold plic_handle. destruct (irq =? 0); [reflexivity|].
  transitivity (mkSched (tasks s) (current s) (places s) (stats s) (ticks s) (ext_irqs s + 1) (smp_on s)); [repeat split|].
  apply same_fold. intros s1 i. unfold wake_one. case_match; auto with sched.
Qed.

Lemma same_expire s : same_claims s (expire_recv_timeouts s).
Proof. apply same_fold. intros s1 i. unfold expire_one. repeat case_match; auto with sched. Qed.
#[export] Hint Resolve same_plic same_expire : sched.

Lemma same_trap h c mem s n effs s' : utrap_handler h c mem s = (n, effs, s') -> same_claims s s'.
Proof.
  unfold utrap_handler, linux_syscall, native_syscall, sys_send, sys_recv, sys_recv_timeout, sys_irq_wait, receive_or,
    finish, resume_with.
  destruct (MAX_HARTS <=? h)%nat; [intros [= _ _ <-]; reflexivity|].
  destruct (current_task h s) as [cur|]; [|intros [= _ _ <-]; reflexivity].
  destruct c; [intros [= _ _ <-]; repeat split| | | |intros [= _ _ <-]; reflexivity];
  repeat (match goal with |- context [if ?b then _ else _] => destruct b | |- context [match recv_message_into ?t with _ => _ end] => destruct (recv_message_into t) as [[? ?]|] end);
  intros [= _ _ <-]; auto 8 with sched.
Qed.

Lemma same_send cur caps mem s n effs s' : sys_send cur caps mem s = (n, effs, s') -> same_claims s s'.
Proof.
  unfold sys_send, resume_with. repeat (match goal with |- context [if ?b then _ else _] => destruct b end);
  intros [= _ _ <-]; auto 8 with sched.
Qed.

(** ** The shape of the state *)

Record shape (s : Sched) : Prop := {
  sh_tasks : length (tasks s) = MAX_TASKS;
  sh_current : length (current s) = MAX_HARTS;
  sh_places : length (places s) = MAX_HARTS;
  sh_claim h i : current s !! h = Some (Some i) -> (i < MAX_TASKS)%nat }.

Lemma shape_same s s' : same_claims s s' -> shape s -> shape s'.
Proof. intros [Hc Hp Hl] [? ? ? Hb]. constructor; try congruence. rewrite Hc. exact Hb. Qed.

Lemma shape_place h p s : shape s -> shape (set_place h p s).
Proof. intros []. constructor; cbn; try assumption. rewrite length_insert. assumption. Qed.

Lemma shape_claim h c s : (forall i, c = Some i -> (i < MAX_TASKS)%nat) -> shape s -> shape (set_current h c s).
Proof.
  intros Hc [? ? ? Hb]. constructor; cbn; try assumption; [rewrite length_insert; assumption|].
  intros h' i Hi. destruct (decide (h' = h)) as [->|Hn].
  - apply Hc. apply list_lookup_insert_Some in Hi as [(_ & E & _)|[? _]]; [exact E|congruence].
  - rewrite list_lookup_insert_ne in Hi by congruence. eauto.
Qed.

Lemma shape_enter h i s : (i < MAX_TASKS)%nat -> shape s -> shape (enter h i s).
Proof.
  intros Hi H. unfold enter. apply shape_place. apply (shape_same (set_current h (Some i) s)); [apply same_upd|].
  apply shape_claim; [|exact H]. intros j [= <-]. exact Hi.
Qed.

Lemma scan_bound start i : i ∈ scan_order start -> (i < MAX_TASKS)%nat.
Proof. unfold scan_order. rewrite list_elem_of_fmap. intros (off & -> & _). apply Nat.mod_upper_bound. discriminate. Qed.

(** The choice of [pick_next] once the timeouts are handled. *)
Definition chosen (BOOT_HART : nat) (kernel_satp : Z) (h : nat) (s : Sched) : option nat :=
  find (fun i => can_run BOOT_HART kernel_satp h i s)
    (scan_order (match current_task h s with None => 0%nat | Some cur => (cur + 1)%nat end)).

Section Claims.
Context (BOOT_HART : nat) (kernel_satp : Z).
Abbreviation chosen := (chosen BOOT_HART kernel_satp).
Abbreviation can_run := (can_run BOOT_HART kernel_satp).
Abbreviation pick_next := (pick_next BOOT_HART kernel_satp).

Lemma pick_next_eq h s : pick_next h s = (expire_recv_timeouts s, chosen h (expire_recv_timeouts s)).
Proof. reflexivity. Qed.

Lemma chosen_Some h s i : chosen h s = Some i -> (i < MAX_TASKS)%nat /\ can_run h i s = true.
Proof.
  unfold SchedSafe.chosen. intros Hf. apply find_some in Hf as [Hin Hr].
  split; [|exact Hr]. eapply scan_bound. apply list_elem_of_In, Hin.
Qed.

(** A dispatch never reaches the backstop: the filter already refused. *)
Lemma dispatch_eq h s : dispatch BOOT_HART kernel_satp h s =
  Some (let s := expire_recv_timeouts s in match chosen h s with Some i => enter h i s | None => leave h s end).
Proof.
  unfold dispatch. rewrite pick_next_eq. cbv zeta. destruct (chosen h _) as [i|] eqn:E; [|reflexivity].
  apply chosen_Some in E as [_ Hr]. apply andb_true_iff in Hr as [_ Hr]. unfold runnable_here in Hr.
  apply orb_true_iff in Hr as [->| ->%negb_true_iff]; [|rewrite andb_false_r]; reflexivity.
Qed.

Lemma enter_next_eq h s : enter_next BOOT_HART kernel_satp h s =
  (let s := expire_recv_timeouts s in match chosen h s with Some i => enter h i s | None => set_place h Console s end).
Proof. reflexivity. Qed.

Lemma shape_dispatch h s s' : shape s -> dispatch BOOT_HART kernel_satp h s = Some s' -> shape s'.
Proof.
  intros H. rewrite dispatch_eq. cbv zeta. intros E. apply (inj Some) in E as <-.
  apply (shape_same s _ (same_expire s)) in H.
  destruct (chosen h _) as [i|] eqn:E; [apply shape_enter; [apply (chosen_Some _ _ _ E)|exact H]|].
  apply shape_place, shape_claim; [discriminate|exact H].
Qed.

Lemma shape_enter_next h s : shape s -> shape (enter_next BOOT_HART kernel_satp h s).
Proof.
  intros H. rewrite enter_next_eq. cbv zeta. apply (shape_same s _ (same_expire s)) in H.
  destruct (chosen h _) as [i|] eqn:E; [apply shape_enter; [apply (chosen_Some _ _ _ E)|exact H]|].
  apply shape_place, H.
Qed.

Lemma shape_hart s s' : shape s -> hart_step BOOT_HART kernel_satp s s' -> shape s'.
Proof.
  intros H Hs. revert H.
  destruct Hs as [h cur regs c mem effs s1 s2 _ _ _ E|h cur regs c mem effs s1 s2 _ _ _ E|s1 _|irq s1 _|h s1 s2 _ E|h s1 _ _ _|h s1 _];
    intros H.
  - apply (shape_same s1); [|exact H]. etransitivity; [apply same_upd|exact (same_trap _ _ _ _ _ _ _ E)].
  - apply shape_place, (shape_same s1); [|exact H]. etransitivity; [apply same_upd|exact (same_trap _ _ _ _ _ _ _ E)].
  - apply (shape_same s1 _ (same_expire s1)), H.
  - apply (shape_same s1 _ (same_plic irq s1)), H.
  - exact (shape_dispatch _ _ _ H E).
  - apply shape_place, H.
  - apply shape_enter_next, H.
Qed.

(** ** Invariants of the rows across the machine *)

Record machine_laws (P : nat -> Task -> Prop) : Prop := {
  ml_trap cur : row_laws cur P;
  ml_save j regs t : length regs = 32%nat -> P j t -> P j (save_regs regs t);
  ml_stamp j h t : t_state t = Ready -> P j t -> P j (set_reg F_HART h t) }.

Lemma rows_enter P h i s : machine_laws P -> rows P s -> t_state (task s i) = Ready -> rows P (enter h i s).
Proof.
  intros L H Hr. unfold enter. apply (rows_tasks P (upd_task i (set_reg F_HART (Z.of_nat h)) (set_current h (Some i) s))); [reflexivity|].
  apply rows_upd; [exact H|]. intros t Ht. apply (ml_stamp _ L). rewrite <- (lookup_task _ _ _ Ht). exact Hr.
Qed.

Lemma can_run_ready h i s : can_run h i s = true -> t_state (task s i) = Ready.
Proof. intros H. apply andb_true_iff in H as [H _]. apply andb_true_iff in H as [H _]. apply bool_decide_eq_true in H. exact H. Qed.

Lemma rows_enter_next P h s : machine_laws P -> rows P s -> rows P (enter_next BOOT_HART kernel_satp h s).
Proof.
  intros L H. rewrite enter_next_eq. cbv zeta. apply (rows_expire P s) in H; [|apply (rl_ambient 0 _ (ml_trap _ L 0))].
  destruct (chosen h _) as [i|] eqn:E; [|exact H]. apply rows_enter; [exact L|exact H|].
  apply (can_run_ready h), (chosen_Some _ _ _ E).
Qed.

Lemma rows_dispatch P h s s' : machine_laws P -> rows P s -> dispatch BOOT_HART kernel_satp h s = Some s' -> rows P s'.
Proof.
  intros L H. rewrite dispatch_eq. cbv zeta. intros E. apply (inj Some) in E as <-.
  apply (rows_expire P s) in H; [|apply (rl_ambient 0 _ (ml_trap _ L 0))].
  destruct (chosen h _) as [i|] eqn:E; [|exact H]. apply rows_enter; [exact L|exact H|].
  apply (can_run_ready h), (chosen_Some _ _ _ E).
Qed.

(** A trap taken in user mode, from the saving of the registers on. *)
Lemma rows_user_trap P h cur regs c mem s n effs s' : machine_laws P -> shape s -> rows P s -> current s !! h = Some (Some cur) ->
  length regs = 32%nat -> utrap_handler h c mem (upd_task cur (save_regs regs) s) = (n, effs, s') -> rows P s'.
Proof.
  intros L Hs H Hc Hl E. eapply (rows_trap cur P (ml_trap _ L cur)); [| | |exact E].
  - unfold current_task. cbn [upd_task with_tasks current]. rewrite Hc. reflexivity.
  - rewrite (sc_length _ _ (same_upd _ _ _)), (sh_tasks _ Hs). exact (sh_claim _ Hs _ _ Hc).
  - apply rows_upd; [exact H|]. intros t _. apply (ml_save _ L), Hl.
Qed.

Lemma rows_hart P s s' : machine_laws P -> shape s -> rows P s -> hart_step BOOT_HART kernel_satp s s' -> rows P s'.
Proof.
  intros L Hs H St. revert Hs H.
  destruct St as [h cur regs c mem effs s1 s2 _ Hc Hl E|h cur regs c mem effs s1 s2 _ Hc Hl E|s1 _|irq s1 _|h s1 s2 _ E|h s1 _ _ _|h s1 _];
    intros Hs H.
  - exact (rows_user_trap P h cur regs c mem _ _ _ _ L Hs H Hc Hl E).
  - apply (rows_tasks P s2); [reflexivity|]. exact (rows_user_trap P h cur regs c mem _ _ _ _ L Hs H Hc Hl E).
  - apply rows_expire; [apply (rl_ambient 0 _ (ml_trap _ L 0))|exact H].
  - apply rows_plic; [apply (rl_ambient 0 _ (ml_trap _ L 0))|exact H].
  - exact (rows_dispatch P h _ _ L H E).
  - exact H.
  - apply rows_enter_next; assumption.
Qed.

(** The console's row operations. *)
Record console_laws (P : nat -> Task -> Prop) : Prop := {
  cl_machine : machine_laws P;
  cl_reclaim j t : P j t -> P j (reclaim_row t);
  cl_wipe j t : P j t -> P j (wipe_row t);
  cl_fg j t : P j t -> P j (set_exit 0 (set_caps 0 (wipe_row t)));
  cl_process j p b k t : P j t -> P j (process_row p b k t);
  cl_spawn j p b k t : P j t -> P j (spawn_row p b k t);
  cl_baked j e c p sp t : P j t -> P j (baked_row kernel_satp e c p sp t);
  cl_force j h t : P j t -> P j (set_reg F_HART h t) }.

Lemma rows_map P f s : (forall j t, P j t -> P j (f t)) -> rows P s -> rows P (with_tasks (f <$> tasks s) s).
Proof. intros Hf H j t. cbn [tasks with_tasks]. rewrite list_lookup_fmap, fmap_Some. intros (t0 & Ht & ->). apply Hf, H, Ht. Qed.

Lemma rows_from P n f s : (forall j t, P j t -> P j (f t)) -> rows P s -> rows P (from_slot n f s).
Proof.
  intros Hf H j t. unfold from_slot. cbn [tasks with_tasks]. rewrite list_lookup_imap, fmap_Some. intros (t0 & Ht & ->).
  destruct (n <=? j)%nat; [apply Hf|]; apply H, Ht.
Qed.

Lemma rows_done P j t : console_laws P -> P j t -> P j (reclaim_done t).
Proof. intros L H. unfold reclaim_done. case_decide; [apply (cl_reclaim _ L), H|exact H]. Qed.

Lemma rows_force P h i s : console_laws P -> rows P s -> rows P (enter h i s).
Proof.
  intros L H. unfold enter. apply (rows_tasks P (upd_task i (set_reg F_HART (Z.of_nat h)) (set_current h (Some i) s))); [reflexivity|].
  apply rows_upd; [exact H|]. intros t _. apply (cl_force _ L).
Qed.

Lemma rows_console P s s' : console_laws P -> rows P s -> console_section BOOT_HART kernel_satp s s' -> rows P s'.
Proof.
  intros L H St. revert H. pose proof (rl_ambient 0 _ (ml_trap _ (cl_machine _ L) 0)) as A.
  destruct St as [s|irq s|b s|slot s|slot p b k s|s|slot p b s|s|s|s|s|top specs s|first s _]; intros H; try exact H.
  - apply rows_plic; assumption.
  - apply rows_upd; [exact H|]. intros t _. apply (cl_reclaim _ L).
  - apply rows_upd; [exact H|]. intros t _. apply (cl_spawn _ L).
  - apply rows_map; [apply (cl_wipe _ L)|exact H].
  - apply rows_upd; [exact H|]. intros t _. apply (cl_process _ L).
  - apply rows_from; [apply (cl_fg _ L)|exact H].
  - apply rows_from; [intros j t; apply rows_done, L|exact H].
  - apply rows_from; [intros j t; apply rows_done, L|exact H].
  - apply rows_enter_next; [apply (cl_machine _ L)|exact H].
  - apply rows_force; [exact L|]. apply rows_fold.
    + intros s1 [i [[e c] q]] H1. apply rows_upd; [exact H1|]. intros t _. apply (cl_baked _ L).
    + apply rows_map; [apply (cl_wipe _ L)|exact H].
  - apply rows_force; assumption.
Qed.

Lemma same_map f s : same_claims s (with_tasks (f <$> tasks s) s).
Proof. repeat split. cbn. apply length_fmap. Qed.
Lemma same_from n f s : same_claims s (from_slot n f s).
Proof. repeat split. cbn. apply length_imap. Qed.

Lemma shape_console s s' : shape s -> console_section BOOT_HART kernel_satp s s' -> shape s'.
Proof.
  intros H St. revert H.
  destruct St as [s|irq s|b s|slot s|slot p b k s|s|slot p b s|s|s|s|s|top specs s|first s Hf]; intros H;
  try (apply (shape_same s); [solve [apply same_upd | apply same_map | apply same_from | apply same_plic | repeat split]|exact H]).
  - apply shape_enter_next, H.
  - apply shape_enter; [unfold MAX_TASKS; lia|]. apply (shape_same s); [|exact H]. etransitivity; [apply same_map|].
    apply same_fold. intros s1 [i [[e c] q]]. apply same_upd.
  - apply shape_enter; assumption.
Qed.

Lemma shape_step s s' : shape s -> machine_step BOOT_HART kernel_satp s s' -> shape s'.
Proof. intros H St. revert H. destruct St as [s1 s2 St|s1 s2 _ St]; intros H; [eapply shape_hart|eapply shape_console]; eassumption. Qed.

Lemma boot_shape : shape boot_sched.
Proof.
  constructor; try reflexivity. intros h i Hi. apply lookup_replicate_1 in Hi as [Hi _]. discriminate.
Qed.

(** Every row predicate with the laws that holds of the boot table is an
    invariant of the machine. *)
Theorem rows_invariant P s : console_laws P -> rows P boot_sched -> reach (machine_step BOOT_HART kernel_satp) boot_sched s -> rows P s.
Proof.
  intros L H0 Hr. apply (reach_inv (machine_step BOOT_HART kernel_satp) (fun s => shape s /\ rows P s) boot_sched s); [| |exact Hr].
  - split; [apply boot_shape|exact H0].
  - intros s1 s2 [Hs H] St. split; [exact (shape_step _ _ Hs St)|].
    revert Hs H. destruct St as [s1 s2 St|s1 s2 _ St]; intros Hs H.
    + exact (rows_hart _ _ _ (cl_machine _ L) Hs H St).
    + exact (rows_console _ _ _ L H St).
Qed.
End Claims.

(** ** No lost wakeup, attested messages *)

(** A message names a task and grants no more than the sender held. *)
Definition attested (m : IpcMessage) : Prop :=
  0 <= m_from m < Z.of_nat MAX_TASKS /\ (m_grant m & m_sender_caps m) = m_grant m.

Record row_ok (j : nat) (t : Task) : Prop := {
  ro_index : (j < MAX_TASKS)%nat;
  ro_frame : length (t_frame t) = FRAME_SLOTS;
  ro_mbox : mailbox_ok (t_mbox t);
  ro_mail : Forall attested (b_slots (t_mbox t));
  ro_parked : t_state t = Blocked -> b_count (t_mbox t) = 0%nat \/ t_irq_waiting t = true }.

Lemma empty_attested : attested EMPTY_IPC_MESSAGE.
Proof. split; [vm_compute; split; congruence|reflexivity]. Qed.

Lemma grant_attested cur len x c w buf : (cur < MAX_TASKS)%nat -> attested (mkMsg (Z.of_nat cur) len (x & c) c w buf).
Proof. intros Hc. split; cbn [m_from m_grant m_sender_caps]; [lia|]. rewrite <- Z.land_assoc, Z.land_diag. reflexivity. Qed.

Lemma recv_row t t' e : recv_message_into t = Some (t', e) -> (0 < b_count (t_mbox t))%nat /\ t_mbox t' = pop (t_mbox t) /\
  t_state t' = t_state t /\ t_irq_waiting t' = t_irq_waiting t /\ length (t_frame t') = length (t_frame t) /\
  t_caps t' = (t_caps t .| m_grant (default EMPTY_IPC_MESSAGE (b_slots (t_mbox t) !! b_head (t_mbox t)))).
Proof.
  unfold recv_message_into. destruct (b_count (t_mbox t) =? 0)%nat eqn:E; [discriminate|]. intros [= <- _].
  apply Nat.eqb_neq in E. split; [lia|]. cbn. rewrite !length_insert. repeat split.
Qed.

Lemma enqueue_row m t : t_mbox (enqueue m t) = push m (t_mbox t) /\ t_state (enqueue m t) <> Blocked /\
  length (t_frame (enqueue m t)) = length (t_frame t) /\ t_caps (enqueue m t) = t_caps t.
Proof. unfold enqueue. case_decide as Hd; cbn in *; repeat split; try discriminate. exact Hd. Qed.

Lemma mailbox_room b : mailbox_ok b -> b_count b <> MAILBOX_DEPTH -> (b_count b < MAILBOX_DEPTH)%nat.
Proof. intros [_ _ H _] Hn. lia. Qed.

Lemma row_ok_frame j f t : length f = FRAME_SLOTS -> row_ok j t -> row_ok j (set_frame f t).
Proof. intros Hf []. constructor; assumption. Qed.
Lemma row_ok_reg j r v t : row_ok j t -> row_ok j (set_reg r v t).
Proof. intros H. apply row_ok_frame; [|exact H]. rewrite length_insert. apply H. Qed.
Lemma row_ok_awake j st t : st <> Blocked -> row_ok j t -> row_ok j (set_state st t).
Proof. intros Hn []. constructor; try assumption. intros E. contradiction. Qed.
Lemma row_ok_wait j w d p l t : row_ok j t -> row_ok j (set_wait w d p l t).
Proof. intros []. constructor; assumption. Qed.
Lemma row_ok_clear j t : row_ok j t -> row_ok j (clear_mailbox t).
Proof.
  intros []. constructor; try assumption; [apply empty_mailbox_ok| |left; reflexivity].
  apply Forall_replicate, empty_attested.
Qed.
Lemma row_ok_space j pe sa k o t : row_ok j t -> row_ok j (set_space pe sa k o t).
Proof. intros []. constructor; assumption. Qed.
Lemma row_ok_caps j c t : row_ok j t -> row_ok j (set_caps c t).
Proof. intros []. constructor; assumption. Qed.
Lemma row_ok_exit j c t : row_ok j t -> row_ok j (set_exit c t).
Proof. intros []. constructor; assumption. Qed.
#[export] Hint Resolve row_ok_reg row_ok_wait row_ok_clear row_ok_space row_ok_caps row_ok_exit : sched.
#[export] Hint Extern 1 (row_ok _ (set_state ?st _)) => apply row_ok_awake; [discriminate|] : sched.

Lemma timed_out_length f : length (timed_out f) = length f.
Proof. unfold timed_out. rewrite !length_insert. reflexivity. Qed.

Lemma row_ok_ambient : ambient_laws row_ok.
Proof.
  constructor.
  - intros j t []. unfold woken. case_decide as Hd; constructor; try assumption; [discriminate|]. intros E. contradiction.
  - intros j t _ H. unfold expired. destruct (_ <? _)%nat; unfold set_waiting; auto with sched.
    apply row_ok_awake; [discriminate|]. apply row_ok_frame; [|auto with sched].
    rewrite timed_out_length, length_insert. apply H.
Qed.

Lemma row_ok_send cur j x len w buf ct t : row_ok cur ct -> b_count (t_mbox t) <> MAILBOX_DEPTH -> row_ok j t ->
  row_ok j (enqueue (mkMsg (Z.of_nat cur) len (x & t_caps ct) (t_caps ct) w buf) t).
Proof.
  intros Hc Hn H. set (m := mkMsg _ _ _ _ _ _). destruct (enqueue_row m t) as (Hm & Hb & Hf & _).
  destruct (push_ok m (t_mbox t) (ro_mbox _ _ H)) as [Hk _]; [apply mailbox_room; [apply H|exact Hn]|].
  constructor; rewrite ?Hm, ?Hf; try apply H; [exact Hk| |contradiction].
  apply Forall_insert; [apply H|]. apply grant_attested, Hc.
Qed.

Lemma row_ok_recv j t t' e : recv_message_into t = Some (t', e) -> row_ok j t -> row_ok j t'.
Proof.
  intros E H. apply recv_row in E as (Hp & Hm & Hs & Hi & Hf & _). destruct (pop_ok (t_mbox t) (ro_mbox _ _ H) Hp) as [Hk _].
  constructor; rewrite ?Hm, ?Hf, ?Hs, ?Hi; try apply H; [exact Hk| |].
  - apply Forall_insert; [apply H|apply empty_attested].
  - intros Hb. destruct (ro_parked _ _ H Hb) as [E|E]; [lia|right; exact E].
Qed.

Lemma row_ok_laws cur : row_laws cur row_ok.
Proof.
  constructor; eauto using row_ok_ambient, row_ok_send, row_ok_recv with sched.
  - intros w d p l t H0 H. unfold rewind. apply (row_ok_reg _ F_SEPC (wrap 64 (reg (t_frame t) F_SEPC - 4))) in H.
    destruct H. constructor; try assumption. left. exact H0.
  - intros t H. apply (row_ok_reg _ F_SEPC (wrap 64 (reg (t_frame t) F_SEPC - 4))) in H.
    destruct H. constructor; try assumption. right. reflexivity.
Qed.

Lemma save_regs_length regs t : length regs = 32%nat -> length (t_frame t) = FRAME_SLOTS -> length (regs ++ drop 32 (t_frame t)) = FRAME_SLOTS.
Proof. intros Hr Hf. rewrite length_app, length_drop, Hr, Hf. reflexivity. Qed.

Lemma row_ok_console satp : console_laws satp row_ok.
Proof.
  assert (W : forall j t, row_ok j t -> row_ok j (wipe_row t)).
  { intros j t H. unfold wipe_row, reclaim_row. destruct (_ =? 0); auto 7 with sched. }
  assert (F : forall e sp args, length (start_frame e sp args) = FRAME_SLOTS).
  { intros. unfold start_frame. rewrite !length_insert. reflexivity. }
  assert (R : forall j p b k t, row_ok j t -> row_ok j (process_row p b k t)).
  { intros j p b k t H. unfold process_row. pose proof (row_ok_frame j (start_frame (b_entry b) USER_STACK_TOP (p_args p)) t (F _ _ _) H).
    auto with sched. }
  constructor; auto with sched.
  - constructor; [apply row_ok_laws| |auto with sched]. intros j regs t Hl H. apply row_ok_frame; [|exact H].
    apply save_regs_length; [exact Hl|apply H].
  - intros j t H. unfold reclaim_row. destruct (_ =? 0); auto with sched.
  - intros j p [b|] k t H; cbn; auto 7 with sched.
  - intros j e c p sp t H. unfold baked_row. apply row_ok_awake; [discriminate|]. apply row_ok_space, row_ok_caps, row_ok_frame; [|exact H].
    rewrite !length_insert. reflexivity.
Qed.

Lemma row_ok_boot : rows row_ok boot_sched.
Proof.
  intros j t Hj. apply lookup_replicate in Hj as [-> Hl]. constructor; [exact Hl|reflexivity|apply empty_mailbox_ok| |discriminate].
  apply Forall_replicate, empty_attested.
Qed.

Lemma reachable_rows B satp s : reach (machine_step B satp) boot_sched s -> rows row_ok s.
Proof. apply rows_invariant; [apply row_ok_console|apply row_ok_boot]. Qed.

(** ** Authority is only passed on *)

(** Some task holds capability bit [b], or a queued message grants it. *)
Definition circulates (b : Z) (t : Task) : Prop :=
  Z.testbit (t_caps t) b = true \/ Exists (fun m => Z.testbit (m_grant m) b = true) (b_slots (t_mbox t)).
Definition held (s : Sched) (b : Z) : Prop := exists i t, tasks s !! i = Some t /\ circulates b t.

Definition within (H : Z -> Prop) (j : nat) (t : Task) : Prop := forall b, 0 <= b -> circulates b t -> H b.

Lemma within_same H j t t' : t_caps t' = t_caps t -> t_mbox t' = t_mbox t -> within H j t -> within H j t'.
Proof. intros Ec Em Hw b Hb. unfold circulates. rewrite Ec, Em. apply Hw, Hb. Qed.

Lemma circulates_insert b i m t t' : t_caps t' = t_caps t -> b_slots (t_mbox t') = <[i := m]> (b_slots (t_mbox t)) ->
  circulates b t' -> circulates b t \/ Z.testbit (m_grant m) b = true.
Proof.
  intros Ec Es. unfold circulates. rewrite Ec, Es. intros [H|H]; [auto|]. apply Exists_exists in H as (m' & Hin & Hm).
  apply list_elem_of_lookup in Hin as [k Hk]. apply list_lookup_insert_Some in Hk as [(_ & -> & _)|[_ Hk]]; [auto|].
  left. right. apply Exists_exists. exists m'. split; [|exact Hm]. apply list_elem_of_lookup. eauto.
Qed.

Lemma within_send H cur j x len w buf ct t : within H cur ct -> within H j t ->
  within H j (enqueue (mkMsg (Z.of_nat cur) len (x & t_caps ct) (t_caps ct) w buf) t).
Proof.
  intros Hc Hw b Hb Hh. set (m := mkMsg _ _ _ _ _ _) in Hh. destruct (enqueue_row m t) as (Em & _ & _ & Ec).
  apply (circulates_insert b (b_tail (t_mbox t)) m t) in Hh; [|exact Ec|rewrite Em; reflexivity].
  destruct Hh as [Hh|Hh]; [exact (Hw b Hb Hh)|]. cbn in Hh. rewrite Z.land_spec in Hh. apply andb_true_iff in Hh as [_ Hh].
  apply (Hc b Hb). left. exact Hh.
Qed.

Lemma within_recv H j t t' e : recv_message_into t = Some (t', e) -> within H j t -> within H j t'.
Proof.
  intros E Hw b Hb Hh. apply (Hw b Hb). apply recv_row in E as (Hp & Em & _ & _ & _ & Ec).
  destruct Hh as [Hh|Hh].
  - rewrite Ec, Z.lor_spec in Hh. apply orb_true_iff in Hh as [Hh|Hh]; [left; exact Hh|].
    destruct (b_slots (t_mbox t) !! b_head (t_mbox t)) as [m|] eqn:El; cbn in Hh; [|rewrite Z.bits_0 in Hh; discriminate].
    right. apply Exists_exists. exists m. split; [apply list_elem_of_lookup; eauto|exact Hh].
  - destruct (circulates_insert b (b_head (t_mbox t)) EMPTY_IPC_MESSAGE t (set_mbox (t_mbox t') t)) as [K|K];
      [reflexivity|cbn; rewrite Em; reflexivity|right; exact Hh|exact K|]. cbn in K. rewrite Z.bits_0 in K. discriminate.
Qed.

Lemma within_laws H : machine_laws (within H).
Proof.
  constructor; [|intros j regs t _; apply within_same; reflexivity|intros j h t _; apply within_same; reflexivity].
  intros cur. constructor; try (intros; eapply within_same; [| |eassumption]; reflexivity).
  - constructor.
    + intros j t. apply within_same; unfold woken; case_decide; reflexivity.
    + intros j t _. apply within_same; unfold expired; destruct (_ <? _)%nat; reflexivity.
  - intros t t' e E. apply (within_recv H _ _ _ _ E).
  - intros j x len w buf ct t Hc _ _. apply within_send, Hc.
Qed.

(** C14: Whatever the tasks do, no sequence of traps, interrupts and dispatches on any number of harts
    makes a capability bit appear that no task held and no queued message granted before. *)
Theorem authority_is_only_passed_on (BOOT_HART : nat) (kernel_satp : Z) (s s' : Sched) :
  shape s -> reach (hart_step BOOT_HART kernel_satp) s s' -> forall b, 0 <= b -> held s' b -> held s b.
Proof.
  intros Hs Hr b Hb (i & t & Hi & Hc).
  assert (Hx : shape s' /\ rows (within (held s)) s').
  { apply (reach_inv (hart_step BOOT_HART kernel_satp) (fun x => shape x /\ rows (within (held s)) x) s s'); [| |exact Hr].
    - split; [exact Hs|]. intros j u Hj c _ Hu. exists j, u. auto.
    - intros s1 s2 [H1 H2] St. split; [exact (shape_hart _ _ _ _ H1 St)|]. exact (rows_hart _ _ _ _ _ (within_laws _) H1 H2 St). }
  exact (proj2 Hx i t Hi b Hb Hc).
Qed.

(** ** Sending and receiving *)

Definition live_b (t : Task) : bool := bool_decide (t_state t = Ready) || bool_decide (t_state t = Blocked).

(** The task a send reaches: a slot in range, alive, with room; and the sender
    holds IPC. *)
Definition send_target (cur : nat) (s : Sched) : option nat :=
  let t := task s cur in
  let dst := Z.to_nat (reg (t_frame t) F_A0) in
  if negb (t_caps t & TASK_IPC =? 0) && (reg (t_frame t) F_A0 <? Z.of_nat MAX_TASKS) && live_b (task s dst)
     && (length (queue (t_mbox (task s dst))) <? MAILBOX_DEPTH)%nat
  then Some dst else None.

Definition mail (s : Sched) (i : nat) : list IpcMessage := queue (t_mbox (task s i)).

Lemma mail_set_reg i r v s j : (i < length (tasks s))%nat -> mail (upd_task i (set_reg r v) s) j = mail s j.
Proof.
  intros Hi. unfold mail. destruct (decide (i = j)) as [<-|Hn]; [rewrite task_upd by exact Hi; reflexivity|].
  rewrite task_upd_ne by exact Hn. reflexivity.
Qed.

Lemma read_user_length mem p len : length (read_user mem p len) = Z.to_nat len.
Proof. unfold read_user. rewrite length_fmap, length_seq. reflexivity. Qed.

Lemma live_b_used t : live_b t = negb (bool_decide (t_state t = Unused) || bool_decide (t_state t = Done)).
Proof. unfold live_b. destruct (t_state t); reflexivity. Qed.

(** The guards of [sys_send] are [send_target]. *)
Lemma send_guards cur mem s : shape s -> rows row_ok s -> 0 <= reg (t_frame (task s cur)) F_A0 ->
  match send_target cur s with
  | Some dst => (dst < MAX_TASKS)%nat /\ (b_count (t_mbox (task s dst)) < MAILBOX_DEPTH)%nat /\ exists buf,
      take (Z.to_nat (Z.min (reg (t_frame (task s cur)) F_A2) 64)) buf
        = read_user mem (reg (t_frame (task s cur)) F_A1) (Z.min (reg (t_frame (task s cur)) F_A2) 64) /\
      sys_send cur (t_caps (task s cur)) mem s = resume_with cur F_A0 0
        (with_stats (bump_sends (Z.of_nat (b_count (t_mbox (task s dst))) + 1)) (upd_task dst (enqueue (mkMsg (Z.of_nat cur)
           (Z.min (reg (t_frame (task s cur)) F_A2) 64) (reg (t_frame (task s cur)) F_A3 & t_caps (task s cur)) (t_caps (task s cur))
           (reg (t_frame (task s cur)) F_A4) buf)) s))
  | None => exists f effs, sys_send cur (t_caps (task s cur)) mem s = (Resume, effs, upd_task cur (set_reg F_A0 SYS_REFUSED) (with_stats f s))
  end.
Proof.
  intros Hs Hk H0. unfold send_target, sys_send, resume_with. rewrite live_b_used, length_queue_mailbox.
  destruct (t_caps (task s cur) & TASK_IPC =? 0) eqn:E1; cbn [negb andb]; [eauto|].
  set (to := reg (t_frame (task s cur)) F_A0) in *. set (dst := Z.to_nat to).
  destruct (to <? Z.of_nat MAX_TASKS) eqn:E2; cbn [negb andb orb]; [|eauto]. apply Z.ltb_lt in E2.
  destruct (_ || _) eqn:E3; cbn [negb andb]; [eauto|].
  assert (Hd : (dst < MAX_TASKS)%nat) by (unfold dst; lia).
  assert (Hm : mailbox_ok (t_mbox (task s dst))).
  { apply (ro_mbox dst). apply Hk. unfold task. destruct (tasks s !! dst) eqn:E; [reflexivity|]. apply lookup_ge_None_1 in E.
    rewrite (sh_tasks _ Hs) in E. lia. }
  destruct (b_count (t_mbox (task s dst)) =? MAILBOX_DEPTH)%nat eqn:E4.
  - apply Nat.eqb_eq in E4. rewrite E4, Nat.ltb_irrefl. eauto.
  - apply Nat.eqb_neq in E4. pose proof (mailbox_room _ Hm E4) as Hr. rewrite (proj2 (Nat.ltb_lt _ _) Hr).
    split; [exact Hd|]. split; [exact Hr|]. eexists. split; [|reflexivity].
    rewrite take_app_le by (rewrite read_user_length; lia). rewrite <- (read_user_length mem (reg (t_frame (task s cur)) F_A1)) at 1.
    rewrite firstn_all. reflexivity.
Qed.

(** A send reaches its target exactly when the sender holds IPC, the slot is in range and alive and its
    queue has room; it then appends one message with the sender's id, its attested capabilities, the
    requested grant cut to them, the word and the bytes at the given address, wakes the receiver, and
    leaves every other queue alone; refused, it changes no queue and no task state. *)
Theorem send_appends_an_attested_message (cur : nat) (mem : Z -> Z) (s : Sched) : shape s -> rows row_ok s -> (cur < MAX_TASKS)%nat ->
  0 <= reg (t_frame (task s cur)) F_A0 -> let f := t_frame (task s cur) in let caps := t_caps (task s cur) in
  let '(n, effs, s') := sys_send cur caps mem s in
  n = Resume /\
  match send_target cur s with
  | Some dst => exists m, mail s' dst = mail s dst ++ [m] /\ m_from m = Z.of_nat cur /\ m_sender_caps m = caps /\
      m_grant m = (reg f F_A3 & caps) /\ m_word m = reg f F_A4 /\ m_len m = Z.min (reg f F_A2) 64 /\
      take (Z.to_nat (m_len m)) (m_buf m) = read_user mem (reg f F_A1) (m_len m) /\
      t_state (task s' dst) <> Blocked /\ (forall j, j <> dst -> mail s' j = mail s j)
  | None => (forall j, mail s' j = mail s j) /\ forall j, t_state (task s' j) = t_state (task s j)
  end.
Proof.
  intros Hs Hk Hc H0. cbv zeta. pose proof (send_guards cur mem s Hs Hk H0) as G. destruct (send_target cur s) as [dst|].
  - destruct G as (Hd & Hr & buf & Hbuf & ->). unfold resume_with. split; [reflexivity|]. set (m := mkMsg _ _ _ _ _ _). exists m.
    assert (Ld : (dst < length (tasks s))%nat) by (rewrite (sh_tasks _ Hs); exact Hd).
    set (s1 := with_stats _ _). assert (L1 : (cur < length (tasks s1))%nat).
    { unfold s1. rewrite (sc_length _ _ (same_stats _ _)), (sc_length _ _ (same_upd _ _ _)), (sh_tasks _ Hs). exact Hc. }
    assert (T : forall j, task s1 j = task (upd_task dst (enqueue m) s) j) by reflexivity.
    destruct (enqueue_row m (task s dst)) as (Em & Eb & _).
    destruct (push_ok m (t_mbox (task s dst))) as [_ Q]; [|exact Hr|].
    { apply (ro_mbox dst), Hk. unfold task. destruct (lookup_lt_is_Some_2 _ _ Ld) as [t ->]. reflexivity. }
    repeat split; try reflexivity; try exact Hbuf.
    + rewrite mail_set_reg by exact L1. unfold mail. rewrite T, task_upd, Em by exact Ld. exact Q.
    + destruct (decide (cur = dst)) as [<-|Hn].
      * rewrite task_upd by exact L1. cbn. rewrite T, task_upd by exact Ld. exact Eb.
      * rewrite task_upd_ne, T, task_upd by auto. exact Eb.
    + intros j Hj. rewrite mail_set_reg by exact L1. unfold mail. rewrite T, task_upd_ne by congruence. reflexivity.
  - destruct G as (f & effs & ->). split; [reflexivity|]. split; intros j.
    + rewrite mail_set_reg by (rewrite (sc_length _ _ (same_stats f s)), (sh_tasks s Hs); exact Hc). reflexivity.
    + destruct (decide (cur = j)) as [<-|Hn]; [|rewrite task_upd_ne by exact Hn; reflexivity].
      rewrite task_upd by (rewrite (sc_length _ _ (same_stats f s)), (sh_tasks s Hs); exact Hc). reflexivity.
Qed.

(** A receive takes the oldest message of the caller's queue, puts its length cut to the buffer, sender,
    word and attested capabilities in the argument registers, writes exactly those bytes at the caller's
    address and adds the grant to its capabilities; on an empty queue it parks the caller; no other row
    changes. *)
Theorem recv_takes_the_oldest_message (cur : nat) (s : Sched) : shape s -> rows row_ok s -> (cur < MAX_TASKS)%nat ->
  (t_caps (task s cur) & TASK_IPC) <> 0 ->
  let f := t_frame (task s cur) in
  let '(n, effs, s') := sys_recv cur (t_caps (task s cur)) s in
  match mail s cur with
  | m :: rest => n = Resume /\ mail s' cur = rest /\ t_caps (task s' cur) = (t_caps (task s cur) .| m_grant m) /\
      (let f' := t_frame (task s' cur) in reg f' F_A0 = Z.min (m_len m) (reg f F_A1) /\ reg f' F_A1 = m_from m /\
         reg f' F_A2 = m_word m /\ reg f' F_A3 = m_sender_caps m /\
         effs = [EWrite (reg f F_A0) (take (Z.to_nat (reg f' F_A0)) (m_buf m))])
  | [] => n = Reschedule /\ effs = [] /\ mail s' cur = [] /\ t_state (task s' cur) = Blocked /\ t_caps (task s' cur) = t_caps (task s cur)
  end /\ forall j, j <> cur -> task s' j = task s j.
Proof.
  intros Hs Hk Hc Hi. cbv zeta. assert (Hl : (cur < length (tasks s))%nat) by (rewrite (sh_tasks _ Hs); exact Hc).
  assert (Hrow : row_ok cur (task s cur)).
  { apply Hk. unfold task. destruct (lookup_lt_is_Some_2 _ _ Hl) as [t ->]. reflexivity. }
  unfold sys_recv. apply Z.eqb_neq in Hi. rewrite Hi. unfold receive_or, recv_message_into.
  destruct (b_count (t_mbox (task s cur)) =? 0)%nat eqn:E.
  - apply Nat.eqb_eq in E. assert (Em : mail s cur = []) by (apply length_zero_iff_nil; unfold mail; rewrite length_queue_mailbox; exact E).
    rewrite Em. split; [|intros j Hj; apply task_upd_ne; congruence]. unfold mail. rewrite task_upd by exact Hl. cbn. repeat split. exact Em.
  - apply Nat.eqb_neq in E. destruct (pop_ok (t_mbox (task s cur)) (ro_mbox _ _ Hrow)) as [_ Q]; [lia|].
    unfold mail at 1. rewrite Q. set (m := default _ _). set (t' := set_reg F_A3 _ _). split.
    + change (task (with_stats bump_receives (upd_task cur (fun _ => t') s)) cur) with (task (upd_task cur (fun _ => t') s) cur).
      unfold mail. change (task (with_stats bump_receives (upd_task cur (fun _ => t') s)) cur) with (task (upd_task cur (fun _ => t') s) cur).
      rewrite task_upd by exact Hl. pose proof (ro_frame _ _ Hrow) as Hf. unfold FRAME_SLOTS in Hf.
      unfold t', reg, set_reg. cbn [t_frame set_frame t_caps set_caps set_mbox t_mbox].
      repeat split; unfold F_A0, F_A1, F_A2, F_A3; rewrite ?list_lookup_insert_ne by discriminate;
        rewrite list_lookup_insert_eq by (rewrite ?length_insert, Hf; lia); reflexivity.
    + intros j Hj. change (task (upd_task cur (fun _ => t') s) j = task s j). apply task_upd_ne. congruence.
Qed.

(** C13: In every reachable state of the machine, console included: a Blocked task has an empty mailbox
    unless it is parked on a device; no mailbox holds more than four messages; and every queued message
    names a task slot as its sender and grants no more than the capabilities the kernel attests for that
    sender. *)
Theorem no_wakeup_is_lost (BOOT_HART : nat) (kernel_satp : Z) (s : Sched) : reach (machine_step BOOT_HART kernel_satp) boot_sched s ->
  forall i t, tasks s !! i = Some t ->
  (t_state t = Blocked -> queue (t_mbox t) = [] \/ t_irq_waiting t = true) /\ (length (queue (t_mbox t)) <= MAILBOX_DEPTH)%nat /\
  Forall attested (queue (t_mbox t)).
Proof.
  intros Hr i t Hi. pose proof (reachable_rows _ _ _ Hr i t Hi) as R. split; [|split].
  - intros Hb. destruct (ro_parked _ _ R Hb) as [E|E]; [left|right; exact E].
    apply length_zero_iff_nil. rewrite length_queue_mailbox. exact E.
  - rewrite length_queue_mailbox. apply (mo_count _ (ro_mbox _ _ R)).
  - unfold queue. apply Forall_fmap, Forall_forall. intros k _. unfold compose. destruct (b_slots (t_mbox t) !! _) as [m|] eqn:E; cbn; [|apply empty_attested].
    exact (proj1 (Forall_lookup _ _) (ro_mail _ _ R) _ _ E).
Qed.

(** ** Round robin *)

(** How many candidates the scan from [start] looks at before [i]. *)
Definition rank (start i : nat) : nat := ((i + MAX_TASKS - start mod MAX_TASKS) mod MAX_TASKS)%nat.

Lemma scan_mod start : scan_order start = scan_order (start mod MAX_TASKS).
Proof. unfold scan_order. apply list_fmap_ext. intros _ off _. symmetry. apply Nat.Div0.add_mod_idemp_l. Qed.

Lemma rank_mod start i : rank start i = rank (start mod MAX_TASKS) i.
Proof. unfold rank. rewrite Nat.Div0.mod_mod. reflexivity. Qed.

Lemma scan_progress (f : nat -> bool) start i : (i < MAX_TASKS)%nat -> f i = true ->
  exists j, find f (scan_order start) = Some j /\ (j = i \/ (rank (j + 1) i < rank start i)%nat).
Proof.
  intros Hi Hf. rewrite scan_mod, rank_mod. pose proof (Nat.mod_upper_bound start MAX_TASKS ltac:(discriminate)) as Hr.
  set (r := (start mod MAX_TASKS)%nat) in *. clearbody r. unfold MAX_TASKS in Hi, Hr.
  destruct r as [|[|[|[|]]]]; try lia; destruct i as [|[|[|[|]]]]; try lia;
  (match goal with |- context [scan_order ?r] => let l := eval vm_compute in (scan_order r) in change (scan_order r) with l end);
  cbn [find]; rewrite Hf;
  repeat (match goal with |- context [if f ?x then _ else _] => destruct (f x) end);
  eexists; (split; [reflexivity|]); first [left; reflexivity | right; vm_compute; lia].
Qed.

(** Every dispatch of hart [h] while task [i] could run: [before k] is the state
    the k-th dispatch finds, [after k] the one it leaves.  Between them the hart
    only runs the task it chose. *)
Record turns (BOOT_HART : nat) (kernel_satp : Z) (h i : nat) (before after : nat -> Sched) : Prop := {
  tu_shape k : shape (before k);
  tu_can k : can_run BOOT_HART kernel_satp h i (expire_recv_timeouts (before k)) = true;
  tu_dispatch k : dispatch BOOT_HART kernel_satp h (before k) = Some (after k);
  tu_keep k : current_task h (before (S k)) = current_task h (after k) }.

Definition start_of (h : nat) (s : Sched) : nat := match current_task h s with None => 0%nat | Some cur => (cur + 1)%nat end.

Lemma turn_progress BOOT_HART kernel_satp h i before after k : turns BOOT_HART kernel_satp h i before after -> (h < MAX_HARTS)%nat -> (i < MAX_TASKS)%nat ->
  current_task h (after k) = Some i \/ (rank (start_of h (before (S k))) i < rank (start_of h (before k)) i)%nat.
Proof.
  intros [Hs Hc Hd Hk] Hh Hi. specialize (Hs k). specialize (Hc k). specialize (Hd k). specialize (Hk k).
  rewrite dispatch_eq in Hd. cbv zeta in Hd. apply (inj Some) in Hd.
  pose proof (same_expire (before k)) as [Ec _ _]. set (s1 := expire_recv_timeouts (before k)) in *. clearbody s1.
  destruct (scan_progress (fun j => can_run BOOT_HART kernel_satp h j s1) (start_of h s1) i Hi Hc) as (j & Hf & Hj).
  assert (Ech : chosen BOOT_HART kernel_satp h s1 = Some j) by exact Hf. rewrite Ech in Hd.
  assert (Ecu : current_task h (after k) = Some j).
  { rewrite <- Hd. unfold current_task. cbn. rewrite list_lookup_insert_eq; [reflexivity|]. rewrite Ec, (sh_current _ Hs). exact Hh. }
  destruct Hj as [->|Hj]; [left; exact Ecu|right]. unfold start_of at 1. rewrite Hk, Ecu.
  assert (Es : start_of h s1 = start_of h (before k)) by (unfold start_of, current_task; rewrite Ec; reflexivity).
  rewrite <- Es. exact Hj.
Qed.

(** C40: A task that could run on a hart each time that hart dispatches is chosen within MAX_TASKS
    dispatches, whatever the other tasks and harts do in between. *)
Theorem round_robin_serves_every_ready_task (BOOT_HART : nat) (kernel_satp : Z) (h i : nat) (before after : nat -> Sched) :
  turns BOOT_HART kernel_satp h i before after -> (h < MAX_HARTS)%nat -> (i < MAX_TASKS)%nat ->
  exists k, (k < MAX_TASKS)%nat /\ current_task h (after k) = Some i.
Proof.
  intros T Hh Hi.
  assert (G : forall n k, (rank (start_of h (before k)) i < n)%nat -> exists k', (k' < k + n)%nat /\ current_task h (after k') = Some i).
  { induction n as [|n IH]; intros k Hn; [lia|]. destruct (turn_progress _ _ _ _ _ _ k T Hh Hi) as [E|E]; [exists k; split; [lia|exact E]|].
    destruct (IH (S k)) as (k' & Hk' & E'); [lia|]. exists k'. split; [lia|exact E']. }
  destruct (G MAX_TASKS 0%nat) as (k & Hk & E); [|exists k; split; [lia|exact E]].
  apply Nat.mod_upper_bound. discriminate.
Qed.
