(* ===== verification/SchedHarts.v ===== *)
(** * Harts exclude each other

    The claim of a hart on a task, across every interleaving of the sections of
    all harts and of the console: two harts never stand in one task, the stamp
    in the frame names the hart that runs it, the address space under a hart is
    not reclaimed, and no trap path halts for want of a claim.  The console's
    sections are taken under conditions the source does not test ([careful]): rows
    it rewrites are claimed by no hart, a row reclaimed ahead of a spawn is not
    live, processes are placed in unused rows with a page table, [run_tasks] has a
    task to run, and a row entered by number is ready and unclaimed.  What happens
    where they do not hold is shown at the end. *)

From Stdlib Require Import ZArith Lia.
From stdpp Require Import base option numbers list.
From S2P Require Import Prelude Mcap Sched SchedSafe.

Section Harts.
Context (BOOT_HART : nat) (kernel_satp : Z).

Definition stamp (t : Task) : Z := reg (t_frame t) F_HART.

(** Hart [h] stands in task [i]. *)
Record standing (s : Sched) (h i : nat) : Prop := {
  st_place : places s !! h = Some InTrap \/ places s !! h = Some InUser;
  st_used : t_state (task s i) <> Unused;
  st_stamp : stamp (task s i) = Z.of_nat h;
  st_space : t_satp (task s i) <> 0;
  st_own : h <> BOOT_HART -> t_satp (task s i) <> kernel_satp }.

Record claims_base (s : Sched) : Prop := {
  cb_shape : shape s;
  cb_rows : rows row_ok s;
  cb_live i : live (task s i) -> t_satp (task s i) <> 0;
  cb_claim h i : current s !! h = Some (Some i) -> standing s h i;
  cb_place h : places s !! h = Some InTrap \/ places s !! h = Some InUser -> exists i, current s !! h = Some (Some i);
  cb_excl h1 h2 i : current s !! h1 = Some (Some i) -> current s !! h2 = Some (Some i) -> h1 = h2 }.

Definition users_ready (s : Sched) : Prop :=
  forall h i, places s !! h = Some InUser -> current s !! h = Some (Some i) -> t_state (task s i) = Ready.
Record claims_ok (s : Sched) : Prop := { co_base : claims_base s; co_users : users_ready s }.

(** ** Rows under a standing hart *)

(** What a section may do to a claimed row. *)
Record stable (t t' : Task) : Prop := {
  sb_satp : t_satp t' = t_satp t;
  sb_stamp : stamp t' = stamp t;
  sb_used : t_state t <> Unused -> t_state t' <> Unused }.

Lemma stable_refl t : stable t t.
Proof. repeat split. auto. Qed.

Lemma base_rows s s' : claims_base s -> same_claims s s' -> rows row_ok s' -> (forall i, live (task s' i) -> t_satp (task s' i) <> 0) ->
  (forall h i, current s !! h = Some (Some i) -> stable (task s i) (task s' i)) -> claims_base s'.
Proof.
  intros [Hsh _ _ Hc Hp He] Hsame Hr Hl Hst. pose proof Hsame as [Ec Ep _]. constructor; rewrite ?Ec, ?Ep; auto.
  - apply (shape_same s); assumption.
  - intros h i Hi. destruct (Hc h i Hi) as [Pl U S N O]. destruct (Hst h i Hi) as [Es Et Eu].
    constructor; rewrite ?Ep, ?Es, ?Et; auto.
Qed.

Lemma users_rows s s' : same_claims s s' -> users_ready s ->
  (forall h i, places s !! h = Some InUser -> current s !! h = Some (Some i) -> t_state (task s i) = Ready -> t_state (task s' i) = Ready) -> users_ready s'.
Proof. intros [Ec Ep _] Hu H h i. rewrite Ec, Ep. intros Hp Hi. apply (H h i Hp Hi). exact (Hu h i Hp Hi). Qed.

(** What the laws give of every row, relative to the state before. *)
Definition relates (s0 : Sched) (cur j : nat) (t : Task) : Prop :=
  stable (task s0 j) t /\ (live t -> live (task s0 j)) /\ (j <> cur -> t_state (task s0 j) = Ready -> t_state t = Ready).

Lemma relates_refl s cur : rows (relates s cur) s.
Proof. intros j t Hj. rewrite <- (lookup_task _ _ _ Hj). split; [apply stable_refl|]. split; auto. Qed.

Lemma stamp_reg r v t : (r < F_HART)%nat -> stamp (set_reg r v t) = stamp t.
Proof. intros Hr. unfold stamp, reg, set_reg. cbn [t_frame set_frame]. rewrite list_lookup_insert_ne by lia. reflexivity. Qed.

Lemma stamp_timed_out f t : stamp (set_frame (timed_out f) t) = default 0 (f !! F_HART).
Proof. unfold stamp, reg, timed_out. cbn [t_frame set_frame]. rewrite !list_lookup_insert_ne by discriminate. reflexivity. Qed.

Lemma relates_ambient s0 cur : ambient_laws (relates s0 cur).
Proof.
  constructor.
  - intros j t (S & Hl & Hr). unfold woken. case_decide as Hb.
    + split; [destruct S; split; auto; discriminate|]. split; [|auto]. intros _. apply Hl. right. exact Hb.
    + split; [destruct S; split; auto|]. split; [exact Hl|exact Hr].
  - intros j t Hb (S & Hl & Hr). assert (Hs : stable t (expired t)).
    { unfold expired. destruct (_ <? _)%nat; split; try reflexivity; try discriminate.
      change (stamp (set_state Ready ?x)) with (stamp x). rewrite stamp_timed_out. unfold stamp, reg.
      rewrite list_lookup_insert_ne by discriminate. reflexivity. }
    split; [|split].
    + destruct S as [S1 S2 S3], Hs as [T1 T2 T3]. split; [congruence|congruence|]. auto.
    + intros _. apply Hl. right. exact Hb.
    + intros _ _. unfold expired. destruct (_ <? _)%nat; reflexivity.
Qed.

Lemma stable_trans t1 t2 t3 : stable t1 t2 -> stable t2 t3 -> stable t1 t3.
Proof. intros [] []. split; [congruence|congruence|auto]. Qed.

Lemma relates_cur s0 cur t t' : live (task s0 cur) -> stable t t' -> relates s0 cur cur t -> relates s0 cur cur t'.
Proof. intros Hl S (S0 & _ & _). split; [exact (stable_trans _ _ _ S0 S)|]. split; [auto|]. intros Hn. contradiction. Qed.

Lemma relates_laws s0 cur : live (task s0 cur) -> row_laws cur (relates s0 cur).
Proof.
  intros Hl. constructor; [apply relates_ambient| | | | | | |].
  - intros r v t Hr. apply relates_cur; [exact Hl|]. split; [reflexivity|apply stamp_reg, Hr|auto].
  - intros code t. apply relates_cur; [exact Hl|]. split; [reflexivity|reflexivity|discriminate].
  - intros t. apply relates_cur; [exact Hl|]. split; [reflexivity|reflexivity|discriminate].
  - intros w d p l t _. apply relates_cur; [exact Hl|]. split; [reflexivity| |discriminate].
    unfold rewind. change (stamp (set_state Blocked ?x)) with (stamp x). rewrite stamp_reg by (unfold F_SEPC, F_HART; lia). reflexivity.
  - intros t. apply relates_cur; [exact Hl|]. split; [reflexivity| |discriminate].
    unfold rewind. change (stamp (set_state Blocked ?x)) with (stamp x). rewrite stamp_reg by (unfold F_SEPC, F_HART; lia). reflexivity.
  - intros t t' e E. apply relates_cur; [exact Hl|]. unfold recv_message_into in E. destruct (_ =? 0)%nat; [discriminate|].
    injection E as <- _. split; [reflexivity| |auto].
    rewrite !stamp_reg by (unfold F_A0, F_A1, F_A2, F_A3, F_HART; lia). reflexivity.
  - intros j x len w buf ct t _ Ht _ (S & Hj & Hr). unfold enqueue. specialize (Hj Ht). case_decide as Hb.
    + split; [destruct S; split; auto; discriminate|]. split; auto.
    + split; [destruct S; split; auto|]. split; auto.
Qed.

(** ** Steps of the harts *)

Lemma task_of_rows P s i : shape s -> rows P s -> (i < MAX_TASKS)%nat -> P i (task s i).
Proof.
  intros Hs H Hi. apply H. unfold task. destruct (tasks s !! i) eqn:E; [reflexivity|]. apply lookup_ge_None_1 in E.
  rewrite (sh_tasks _ Hs) in E. lia.
Qed.

Lemma task_out s i : shape s -> (MAX_TASKS <= i)%nat -> task s i = EMPTY_TASK.
Proof. intros Hs Hi. unfold task. rewrite lookup_ge_None_2; [reflexivity|]. rewrite (sh_tasks _ Hs). exact Hi. Qed.

(** Rows that relate to the old ones keep the base. *)
Lemma base_relates s s' cur : claims_base s -> same_claims s s' -> rows row_ok s' -> rows (relates s cur) s' -> claims_base s'.
Proof.
  intros H Hs Hk Hr. pose proof (shape_same _ _ Hs (cb_shape _ H)) as Hsh. apply (base_rows s); [exact H|exact Hs|exact Hk| |].
  - intros i Hl. destruct (decide (i < MAX_TASKS)%nat) as [Hi|Hi].
    + destruct (task_of_rows _ _ _ Hsh Hr Hi) as ([E _ _] & K & _). rewrite E. apply (cb_live _ H), K, Hl.
    + rewrite (task_out _ _ Hsh) in Hl by lia. destruct Hl; discriminate.
  - intros h i Hc. apply (task_of_rows _ _ _ Hsh Hr). exact (sh_claim _ (cb_shape _ H) _ _ Hc).
Qed.

Lemma ambient_ok s s' : claims_ok s -> same_claims s s' -> rows row_ok s' -> rows (relates s MAX_TASKS) s' -> claims_ok s'.
Proof.
  intros [Hb Hu] Hs Hk Hr. pose proof (shape_same _ _ Hs (cb_shape _ Hb)) as Hsh.
  split; [exact (base_relates _ _ _ Hb Hs Hk Hr)|]. apply (users_rows s); [exact Hs|exact Hu|]. intros h i _ Hc Hrd.
  pose proof (sh_claim _ (cb_shape _ Hb) _ _ Hc) as Hi. apply (task_of_rows _ _ _ Hsh Hr Hi); [lia|exact Hrd].
Qed.

Lemma expire_ok s : claims_ok s -> claims_ok (expire_recv_timeouts s).
Proof.
  intros H. apply (ambient_ok s); [exact H|apply same_expire| |].
  - apply rows_expire; [apply row_ok_ambient|apply H].
  - apply rows_expire; [apply relates_ambient|apply relates_refl].
Qed.
Lemma plic_ok irq s : claims_ok s -> claims_ok (plic_handle irq s).
Proof.
  intros H. apply (ambient_ok s); [exact H|apply same_plic| |].
  - apply rows_plic; [apply row_ok_ambient|apply H].
  - apply rows_plic; [apply relates_ambient|apply relates_refl].
Qed.

Lemma save_ok s h cur regs : claims_ok s -> current s !! h = Some (Some cur) -> length regs = 32%nat ->
  claims_ok (upd_task cur (save_regs regs) s).
Proof.
  intros H Hc Hl. apply (ambient_ok s); [exact H|apply same_upd| |].
  - apply rows_upd; [apply H|]. intros t _ Ht. apply row_ok_frame; [|exact Ht]. apply save_regs_length; [exact Hl|apply Ht].
  - apply rows_upd; [apply relates_refl|]. intros t Ht (S & K1 & K2). split; [|auto]. apply (stable_trans _ _ _ S).
    split; [reflexivity| |auto]. unfold stamp, reg. cbn [save_regs set_frame t_frame].
    rewrite lookup_app_r by (rewrite Hl; unfold F_HART; lia). rewrite lookup_drop, Hl. reflexivity.
Qed.

(** A trap that resumes its task leaves it runnable. *)
Definition ready_at (i : nat) (s : Sched) : Prop := t_state (task s i) = Ready.

Lemma ready_upd i j f s : (i < length (tasks s))%nat -> (forall t, t_state t = Ready -> t_state (f t) = Ready) -> ready_at i s -> ready_at i (upd_task j f s).
Proof.
  intros Hi Hf H. unfold ready_at. destruct (decide (j = i)) as [->|Hn]; [rewrite task_upd by exact Hi; auto|].
  rewrite task_upd_ne by exact Hn. exact H.
Qed.
Lemma ready_stats i f s : ready_at i s -> ready_at i (with_stats f s).
Proof. intros H. exact H. Qed.
Lemma ready_enqueue m t : t_state t = Ready -> t_state (enqueue m t) = Ready.
Proof. intros H. unfold enqueue. case_decide; [reflexivity|exact H]. Qed.
Lemma ready_recv t t' e : recv_message_into t = Some (t', e) -> t_state t = Ready -> t_state t' = Ready.
Proof. intros E H. apply recv_row in E as (_ & _ & -> & _). exact H. Qed.

Lemma resume_ready h c mem cur s effs s' : shape s -> current s !! h = Some (Some cur) -> ready_at cur s ->
  utrap_handler h c mem s = (Resume, effs, s') -> ready_at cur s'.
Proof.
  intros Hs Hc H. pose proof (sh_claim _ Hs _ _ Hc) as Hi. rewrite <- (sh_tasks _ Hs) in Hi.
  assert (Hct : current_task h s = Some cur) by (unfold current_task; rewrite Hc; reflexivity).
  unfold utrap_handler. destruct (_ <=? h)%nat; [discriminate|]. rewrite Hct.
  destruct c as [|irq|stval| |]; try discriminate.
  - intros [= _ <-]. assert (R : rows (relates s MAX_TASKS) (plic_handle irq s)) by (apply rows_plic; [apply relates_ambient|apply relates_refl]).
    pose proof (shape_same _ _ (same_plic irq s) Hs) as Hs'. rewrite (sh_tasks _ Hs) in Hi.
    apply (task_of_rows _ _ _ Hs' R Hi); [lia|exact H].
  - set (s1 := upd_task _ _ s). assert (H1 : ready_at cur s1) by (apply ready_upd; [exact Hi|auto|exact H]).
    assert (Hi1 : (cur < length (tasks s1))%nat) by (subst s1; rewrite (sc_length _ _ (same_upd _ _ _)); exact Hi).
    clearbody s1. unfold linux_syscall, native_syscall, sys_send, sys_recv, sys_recv_timeout, sys_irq_wait, receive_or, finish, resume_with.
    repeat (match goal with |- context [if ?b then _ else _] => destruct b | |- context [match recv_message_into ?t with _ => _ end] => destruct (recv_message_into t) as [[? ?]|] eqn:? end);
    try discriminate; intros [= _ <-];
    repeat first [ exact H1 | exact Hi1 | apply ready_stats | apply ready_upd | apply ready_enqueue | rewrite (sc_length _ _ (same_upd _ _ _))
      | rewrite (sc_length _ _ (same_stats _ _)) | intros ? ? | assumption | (eapply ready_recv; eassumption) ].
Qed.

(** The rows after a trap from user mode. *)
Lemma trap_rows_ok h cur c mem s n effs s' : claims_ok s -> current s !! h = Some (Some cur) -> places s !! h = Some InUser ->
  utrap_handler h c mem s = (n, effs, s') -> rows row_ok s' /\ rows (relates s cur) s'.
Proof.
  intros [Hb Hu] Hc Hp E. pose proof (cb_shape _ Hb) as Hs.
  assert (Hct : current_task h s = Some cur) by (unfold current_task; rewrite Hc; reflexivity).
  assert (Hi : (cur < length (tasks s))%nat) by (rewrite (sh_tasks _ Hs); exact (sh_claim _ Hs _ _ Hc)).
  split; (eapply rows_trap; [|exact Hct|exact Hi| |exact E]);
    [apply row_ok_laws|apply Hb|apply relates_laws; left; exact (Hu _ _ Hp Hc)|apply relates_refl].
Qed.

Lemma resume_ok h cur c mem s effs s' : claims_ok s -> current s !! h = Some (Some cur) -> places s !! h = Some InUser ->
  utrap_handler h c mem s = (Resume, effs, s') -> claims_ok s'.
Proof.
  intros H Hc Hp E. destruct (trap_rows_ok _ _ _ _ _ _ _ _ H Hc Hp E) as [Hk Hr]. destruct H as [Hb Hu].
  pose proof (same_trap _ _ _ _ _ _ _ E) as Hsame. pose proof (shape_same _ _ Hsame (cb_shape _ Hb)) as Hsh.
  split; [exact (base_relates _ _ _ Hb Hsame Hk Hr)|]. apply (users_rows s); [exact Hsame|exact Hu|]. intros h' i Hp' Hc' Hrd.
  destruct (decide (i = cur)) as [->|Hn].
  - exact (resume_ready _ _ _ _ _ _ _ (cb_shape _ Hb) Hc (Hu _ _ Hp Hc) E).
  - pose proof (sh_claim _ (cb_shape _ Hb) _ _ Hc') as Hi. apply (task_of_rows _ _ _ Hsh Hr Hi); [exact Hn|exact Hrd].
Qed.

Lemma place_lookup h p s h' q : places (set_place h p s) !! h' = Some q -> (h' = h /\ q = p) \/ (h' <> h /\ places s !! h' = Some q).
Proof. cbn. intros E. apply list_lookup_insert_Some in E as [(-> & -> & _)|[Hn E]]; [auto|right; auto]. Qed.

(** A claimed hart moves between user mode and the trap path. *)
Lemma base_trapped h i s : claims_base s -> current s !! h = Some (Some i) -> claims_base (set_place h InTrap s).
Proof.
  intros H Hc. destruct H as [Hs Hk Hl Hcl Hp He]. constructor; auto.
  - apply shape_place, Hs.
  - intros h' j Hj. destruct (Hcl h' j Hj) as [Pl U S N O]. constructor; auto. cbn. destruct (decide (h' = h)) as [->|Hn].
    + left. apply list_lookup_insert_eq. rewrite (sh_places _ Hs). destruct Pl as [Pl|Pl]; apply lookup_lt_Some in Pl; rewrite (sh_places _ Hs) in Pl; exact Pl.
    + rewrite list_lookup_insert_ne by congruence. exact Pl.
  - intros h' [E|E]; apply place_lookup in E as [[-> _]|[_ E]]; eauto.
Qed.

Lemma reschedule_ok h cur c mem s effs s' : claims_ok s -> current s !! h = Some (Some cur) -> places s !! h = Some InUser ->
  utrap_handler h c mem s = (Reschedule, effs, s') -> claims_ok (set_place h InTrap s').
Proof.
  intros H Hc Hp E. destruct (trap_rows_ok _ _ _ _ _ _ _ _ H Hc Hp E) as [Hk Hr]. destruct H as [Hb Hu].
  pose proof (same_trap _ _ _ _ _ _ _ E) as Hsame. pose proof (shape_same _ _ Hsame (cb_shape _ Hb)) as Hsh.
  split.
  - apply (base_trapped h cur); [exact (base_relates _ _ _ Hb Hsame Hk Hr)|]. rewrite (sc_current _ _ Hsame). exact Hc.
  - intros h' i Hp' Hc'. apply place_lookup in Hp' as [[_ ?]|[Hn Hp']]; [discriminate|]. cbn in Hc'.
    rewrite (sc_places _ _ Hsame) in Hp'. rewrite (sc_current _ _ Hsame) in Hc'. pose proof (Hu _ _ Hp' Hc') as Hrd.
    pose proof (sh_claim _ (cb_shape _ Hb) _ _ Hc') as Hi.
    apply (task_of_rows _ _ _ Hsh Hr Hi); [|exact Hrd]. intros ->. apply Hn. exact (cb_excl _ Hb _ _ _ Hc' Hc).
Qed.

(** Entering a task no other hart claims. *)
Record enterable (h i : nat) (s : Sched) : Prop := {
  en_index : (i < MAX_TASKS)%nat;
  en_ready : t_state (task s i) = Ready;
  en_free h' : h' <> h -> current s !! h' <> Some (Some i);
  en_space : h <> BOOT_HART -> t_satp (task s i) <> kernel_satp }.

Lemma current_enter h i s h' : (h < length (current s))%nat ->
  current (enter h i s) !! h' = (if decide (h' = h) then Some (Some i) else current s !! h').
Proof.
  intros Hh. cbn. case_decide as Hd; [subst; apply list_lookup_insert_eq, Hh|]. apply list_lookup_insert_ne. congruence.
Qed.
Lemma places_enter h i s h' : (h < length (places s))%nat ->
  places (enter h i s) !! h' = (if decide (h' = h) then Some InUser else places s !! h').
Proof.
  intros Hh. cbn. case_decide as Hd; [subst; apply list_lookup_insert_eq, Hh|]. apply list_lookup_insert_ne. congruence.
Qed.

Lemma task_enter h i s j : task (enter h i s) j = task (upd_task i (set_reg F_HART (Z.of_nat h)) s) j.
Proof. reflexivity. Qed.

Lemma row_enter h i s j : shape s -> rows row_ok s -> (i < MAX_TASKS)%nat ->
  t_state (task (enter h i s) j) = t_state (task s j) /\ t_satp (task (enter h i s) j) = t_satp (task s j) /\
  stamp (task (enter h i s) j) = (if decide (j = i) then Z.of_nat h else stamp (task s j)).
Proof.
  intros Hs Hk Hi. rewrite task_enter. case_decide as Hd.
  - subst j. rewrite task_upd by (rewrite (sh_tasks _ Hs); exact Hi). repeat split. unfold stamp, reg, set_reg. cbn [t_frame set_frame].
    rewrite list_lookup_insert_eq; [reflexivity|]. rewrite (ro_frame _ _ (task_of_rows _ _ _ Hs Hk Hi)). unfold F_HART, FRAME_SLOTS. lia.
  - rewrite task_upd_ne by congruence. auto.
Qed.

Lemma enter_ok h i s : (h < MAX_HARTS)%nat -> claims_ok s -> enterable h i s -> claims_ok (enter h i s).
Proof.
  intros Hh [Hb Hu] [Hi Hrd Hf Hsp]. pose proof (cb_shape _ Hb) as Hs. pose proof (cb_rows _ Hb) as Hk.
  assert (Hlc : (h < length (current s))%nat) by (rewrite (sh_current _ Hs); exact Hh).
  assert (Hlp : (h < length (places s))%nat) by (rewrite (sh_places _ Hs); exact Hh).
  assert (R := fun j => row_enter h i s j Hs Hk Hi). split; [constructor|].
  - apply shape_enter; assumption.
  - apply (rows_tasks row_ok (upd_task i (set_reg F_HART (Z.of_nat h)) s)); [reflexivity|]. apply rows_upd; [exact Hk|].
    intros t _. apply row_ok_reg.
  - intros j. unfold live. destruct (R j) as (-> & -> & _). apply (cb_live _ Hb).
  - intros h' j. rewrite current_enter by exact Hlc. destruct (R j) as (E1 & E2 & E3). destruct (decide (h' = h)) as [Hd|Hd].
    + intros K. assert (j = i) by congruence. subst j h'. constructor; rewrite ?E1, ?E2, ?E3, ?decide_True by reflexivity; [|congruence|reflexivity| |exact Hsp].
      * right. rewrite places_enter, decide_True by auto. reflexivity.
      * apply (cb_live _ Hb). left. exact Hrd.
    + intros Hj. destruct (cb_claim _ Hb _ _ Hj) as [Pl U S N O].
      assert (Hji : j <> i) by (intros ->; exact (Hf h' Hd Hj)).
      constructor; rewrite ?E1, ?E2, ?E3; auto; [|rewrite decide_False by exact Hji; exact S].
      rewrite places_enter, decide_False by auto. exact Pl.
  - intros h'. rewrite places_enter by exact Hlp. rewrite current_enter by exact Hlc. case_decide; [eauto|]. apply (cb_place _ Hb).
  - intros h1 h2 j. rewrite !current_enter by exact Hlc. repeat case_decide; subst; try congruence.
    + intros [= <-] K. exfalso. eapply Hf; eauto.
    + intros K [= <-]. exfalso. eapply Hf; eauto.
    + apply (cb_excl _ Hb).
  - intros h' j. rewrite places_enter by exact Hlp. rewrite current_enter by exact Hlc. destruct (R j) as (-> & _ & _).
    case_decide; [intros _ [= <-]; exact Hrd|]. apply Hu.
Qed.

Lemma chosen_enterable h s i : claims_base s -> chosen BOOT_HART kernel_satp h s = Some i -> enterable h i s.
Proof.
  intros Hb E. apply chosen_Some in E as [Hi Hr]. unfold can_run in Hr. apply andb_true_iff in Hr as [Hr Hh].
  apply andb_true_iff in Hr as [Hr Hc]. apply bool_decide_eq_true in Hr. apply negb_true_iff in Hc. constructor; [exact Hi|exact Hr| |].
  - intros h' Hn Hcl. assert (Hl : (h' < MAX_HARTS)%nat) by (rewrite <- (sh_current _ (cb_shape _ Hb)); apply lookup_lt_is_Some; eauto).
    assert (K : claimed_elsewhere h i s = true); [|congruence]. apply existsb_exists. exists h'. split; [apply in_seq; lia|].
    rewrite bool_decide_eq_true_2 by exact Hcl. apply Nat.eqb_neq in Hn. rewrite Hn. reflexivity.
  - intros Hn. unfold runnable_here in Hh. apply Nat.eqb_neq in Hn. rewrite Hn in Hh. apply negb_true_iff, Z.eqb_neq in Hh. exact Hh.
Qed.

(** Giving up a claim, or moving while holding none. *)
Lemma outside_ok h p s : claims_ok s -> (h < MAX_HARTS)%nat -> p <> InTrap -> p <> InUser -> claims_ok (set_place h p (set_current h None s)).
Proof.
  intros [[Hs Hk Hl Hc Hp He] Hu] Hh N1 N2.
  assert (Cu : forall h' j, current (set_place h p (set_current h None s)) !! h' = Some (Some j) -> h' <> h /\ current s !! h' = Some (Some j)).
  { intros h' j E. cbn in E. apply list_lookup_insert_Some in E as [(_ & ? & _)|[Hn E]]; [discriminate|]. split; [congruence|exact E]. }
  split; [constructor|].
  - apply shape_place, shape_claim; [discriminate|exact Hs].
  - exact Hk.
  - exact Hl.
  - intros h' j E. apply Cu in E as [Hn E]. destruct (Hc _ _ E) as [Pl U S N O]. constructor; auto. cbn.
    rewrite list_lookup_insert_ne by congruence. exact Pl.
  - intros h' [E|E]; apply place_lookup in E as [[-> K]|[Hn E]]; try congruence; cbn;
      rewrite list_lookup_insert_ne by congruence; apply Hp; auto.
  - intros h1 h2 j E1 E2. apply Cu in E1 as [_ E1]. apply Cu in E2 as [_ E2]. exact (He _ _ _ E1 E2).
  - intros h' j E1 E2. apply Cu in E2 as [_ E2]. apply place_lookup in E1 as [[_ ?]|[_ E1]]; [congruence|]. exact (Hu _ _ E1 E2).
Qed.

Lemma unclaimed h s p : claims_base s -> places s !! h = Some p -> p <> InTrap -> p <> InUser -> set_current h None s = s.
Proof.
  intros Hb Hp N1 N2. assert (E : current s !! h = Some None).
  { destruct (current s !! h) as [[i|]|] eqn:E; [|reflexivity|].
    - destruct (cb_claim _ Hb _ _ E) as [[K|K] _ _ _ _]; congruence.
    - apply lookup_ge_None_1 in E. apply lookup_lt_Some in Hp. pose proof (cb_shape _ Hb) as Hs.
      rewrite (sh_current _ Hs) in E. rewrite (sh_places _ Hs) in Hp. lia. }
  unfold set_current. rewrite list_insert_id by exact E. destruct s. reflexivity.
Qed.

Lemma move_ok h p q s : claims_ok s -> places s !! h = Some p -> p <> InTrap -> p <> InUser -> q <> InTrap -> q <> InUser ->
  claims_ok (set_place h q s).
Proof.
  intros H Hp N1 N2 M1 M2. rewrite <- (unclaimed h s p (co_base _ H) Hp N1 N2). apply outside_ok; [exact H| |exact M1|exact M2].
  rewrite <- (sh_places _ (cb_shape _ (co_base _ H))). apply lookup_lt_is_Some. eauto.
Qed.

Lemma enter_next_ok h p s : claims_ok s -> places s !! h = Some p -> p <> InTrap -> p <> InUser ->
  claims_ok (enter_next BOOT_HART kernel_satp h s).
Proof.
  intros H Hp N1 N2. rewrite enter_next_eq. cbv zeta. apply expire_ok in H.
  rewrite <- (sc_places _ _ (same_expire s)) in Hp. set (s1 := expire_recv_timeouts s) in *. clearbody s1.
  destruct (chosen _ _ h s1) as [i|] eqn:E.
  - apply enter_ok; [|exact H|exact (chosen_enterable _ _ _ (co_base _ H) E)].
    rewrite <- (sh_places _ (cb_shape _ (co_base _ H))). apply lookup_lt_is_Some. eauto.
  - exact (move_ok h p Console s1 H Hp N1 N2 ltac:(discriminate) ltac:(discriminate)).
Qed.

Lemma hart_ok s s' : claims_ok s -> hart_step BOOT_HART kernel_satp s s' -> claims_ok s'.
Proof.
  intros H St. revert H.
  destruct St as [h cur regs c mem effs s s' Hp Hc Hl E|h cur regs c mem effs s s' Hp Hc Hl E|s _|irq s _|h s s' Hp E|h s Hn Hp _|h s Hp]; intros H.
  - exact (resume_ok h cur c mem _ _ _ (save_ok s h cur regs H Hc Hl) Hc Hp E).
  - exact (reschedule_ok h cur c mem _ _ _ (save_ok s h cur regs H Hc Hl) Hc Hp E).
  - exact (expire_ok s H).
  - exact (plic_ok irq s H).
  - rewrite dispatch_eq in E. cbv zeta in E. apply (inj Some) in E as <-.
    assert (Hh : (h < MAX_HARTS)%nat).
    { rewrite <- (sh_places _ (cb_shape _ (co_base _ H))). apply lookup_lt_is_Some. eauto. }
    apply expire_ok in H. set (s1 := expire_recv_timeouts s) in *. clearbody s1. destruct (chosen _ _ h s1) as [i|] eqn:E.
    + apply enter_ok; [exact Hh|exact H|exact (chosen_enterable _ _ _ (co_base _ H) E)].
    + apply outside_ok; [exact H|exact Hh|discriminate|discriminate].
  - apply (move_ok h Console); [exact H|exact Hp|discriminate..].
  - apply (enter_next_ok h Serving); [exact H|exact Hp|discriminate..].
Qed.

(** ** Sections of the console *)

Definition free (i : nat) (s : Sched) : Prop := forall h, current s !! h <> Some (Some i).

(** The console's sections under the conditions on their rows that keep harts
    apart.  The source takes them without a test; its callers mean to run them while the
    secondaries are out of the table. *)
Inductive careful : Sched -> Sched -> Prop :=
| ca_tick s : careful s (mkSched (tasks s) (current s) (places s) (stats s) (ticks s + 1) (ext_irqs s) (smp_on s))
| ca_irq irq s : careful s (plic_handle irq s)
| ca_smp b s : careful s (set_smp b s)
| ca_reclaim slot s : free slot s -> ~ live (task s slot) -> careful s (spawn_reclaim slot s)
| ca_spawn slot p b kind s : free slot s -> (forall b', b = Some b' -> b_satp b' <> 0) -> careful s (spawn_place slot p b kind s)
| ca_wipe s : (forall i, free i s) -> careful s (wipe_table s)
| ca_place slot p b s : t_state (task s slot) = Unused -> b_satp b <> 0 -> careful s (place_process slot p b s)
| ca_clear s : (forall i, (FIRST_FOREGROUND_TASK <= i)%nat -> free i s) -> careful s (clear_foreground_tasks s)
| ca_done s : (forall i, t_state (task s i) = Done -> free i s) -> careful s (reclaim_all_done s)
| ca_done_fg s : (forall i, (FIRST_FOREGROUND_TASK <= i)%nat -> t_state (task s i) = Done -> free i s) ->
    careful s (reclaim_finished_foreground_tasks s)
| ca_enter s : careful s (enter_next BOOT_HART kernel_satp BOOT_HART s)
| ca_run_tasks top specs s : specs <> [] -> kernel_satp <> 0 -> (forall i, free i s) ->
    careful s (run_tasks kernel_satp BOOT_HART top specs s)
| ca_run_from first s : (first < MAX_TASKS)%nat -> t_state (task s first) = Ready -> free first s ->
    careful s (run_scheduler_from BOOT_HART first s).

Inductive careful_step : Sched -> Sched -> Prop :=
| cst_hart s s' : hart_step BOOT_HART kernel_satp s s' -> careful_step s s'
| cst_console s s' : places s !! BOOT_HART = Some Console -> careful s s' -> careful_step s s'.

Lemma rewrite_ok s s' : claims_ok s -> same_claims s s' -> rows row_ok s' -> (forall i, live (task s' i) -> t_satp (task s' i) <> 0) ->
  (forall h i, current s !! h = Some (Some i) -> task s' i = task s i) -> claims_ok s'.
Proof.
  intros [Hb Hu] Hs Hk Hl Ht. split.
  - apply (base_rows s); auto. intros h i Hc. rewrite (Ht h i Hc). apply stable_refl.
  - apply (users_rows s); auto. intros h i _ Hc Hr. rewrite (Ht h i Hc). exact Hr.
Qed.

Definition spaced (t : Task) : Prop := live t -> t_satp t <> 0.

Lemma upd_free_ok slot f s : claims_ok s -> free slot s -> (forall j t, row_ok j t -> row_ok j (f t)) -> spaced (f (task s slot)) ->
  claims_ok (upd_task slot f s).
Proof.
  intros H Hf Hk Hl. pose proof (cb_shape _ (co_base _ H)) as Hs. apply (rewrite_ok s); [exact H|apply same_upd| | |].
  - apply rows_upd; [apply H|]. intros t _. apply Hk.
  - intros i. destruct (decide (slot = i)) as [->|Hn]; [|rewrite task_upd_ne by exact Hn; apply H].
    destruct (decide (i < MAX_TASKS)%nat) as [Hi|Hi]; [rewrite task_upd by (rewrite (sh_tasks _ Hs); exact Hi); exact Hl|].
    rewrite (task_out (upd_task i f s)) by (try apply (shape_same s _ (same_upd _ _ _) Hs); lia). intros [?|?]; discriminate.
  - intros h i Hc. apply task_upd_ne. intros ->. exact (Hf h Hc).
Qed.

Lemma task_from n f s i : (i < length (tasks s))%nat -> task (from_slot n f s) i = if (n <=? i)%nat then f (task s i) else task s i.
Proof.
  intros Hi. unfold task, from_slot. cbn [tasks with_tasks]. rewrite list_lookup_imap.
  destruct (lookup_lt_is_Some_2 _ _ Hi) as [t ->]. cbn. destruct (n <=? i)%nat; reflexivity.
Qed.

Lemma from_free_ok n f s : claims_ok s -> (forall j t, row_ok j t -> row_ok j (f t)) -> (forall t, spaced t -> spaced (f t)) ->
  (forall h i, current s !! h = Some (Some i) -> (n <= i)%nat -> f (task s i) = task s i) -> claims_ok (from_slot n f s).
Proof.
  intros H Hk Hl Hf. pose proof (cb_shape _ (co_base _ H)) as Hs. apply (rewrite_ok s); [exact H|apply same_from| | |].
  - apply rows_from; [exact Hk|apply H].
  - intros i. destruct (decide (i < MAX_TASKS)%nat) as [Hi|Hi].
    + rewrite task_from by (rewrite (sh_tasks _ Hs); exact Hi). destruct (n <=? i)%nat; [apply Hl|]; exact (cb_live _ (co_base _ H) i).
    + rewrite (task_out (from_slot n f s)) by (try apply (shape_same s _ (same_from _ _ _) Hs); lia). intros [?|?]; discriminate.
  - intros h i Hc. rewrite task_from by (rewrite (sh_tasks _ Hs); exact (sh_claim _ Hs _ _ Hc)).
    destruct (n <=? i)%nat eqn:E; [|reflexivity]. apply Nat.leb_le in E. exact (Hf h i Hc E).
Qed.

Lemma wipe_from s : wipe_table s = from_slot 0 wipe_row s.
Proof.
  unfold wipe_table, from_slot. f_equal. apply list_eq. intros i. rewrite list_lookup_fmap, list_lookup_imap.
  destruct (tasks s !! i); reflexivity.
Qed.

Lemma spaced_wipe t : spaced (wipe_row t).
Proof. intros [E|E]; discriminate. Qed.
Lemma reclaim_state t : t_state (reclaim_row t) = t_state t.
Proof. unfold reclaim_row. destruct (_ =? 0); reflexivity. Qed.
Lemma spaced_done t : spaced t -> spaced (reclaim_done t).
Proof. unfold reclaim_done. case_decide as Hd; [|auto]. intros _ Hl. unfold live in Hl. rewrite reclaim_state, Hd in Hl. destruct Hl; discriminate. Qed.

Lemma done_free_ok n s : claims_ok s -> (forall i, (n <= i)%nat -> t_state (task s i) = Done -> free i s) -> claims_ok (from_slot n reclaim_done s).
Proof.
  intros H Hf. apply from_free_ok; [exact H|intros j t; apply (rows_done 0), row_ok_console|apply spaced_done|].
  intros h i Hc Hn. unfold reclaim_done. case_decide as Hd; [|reflexivity]. destruct (Hf i Hn Hd h Hc).
Qed.

Lemma wipe_ok s : claims_ok s -> (forall i, free i s) -> claims_ok (wipe_table s).
Proof.
  intros H Hf. rewrite wipe_from. apply from_free_ok; [exact H|apply (cl_wipe 0), row_ok_console|intros t _; apply spaced_wipe|].
  intros h i Hc _. destruct (Hf i h Hc).
Qed.

Lemma free_same s s' i : same_claims s s' -> free i s -> free i s'.
Proof. intros [E _ _] Hf h. rewrite E. apply Hf. Qed.

(** The table [run_tasks] writes before it claims slot 0. *)
Lemma fill_ok (fill : Sched -> nat * (Z * Z * Z) -> Sched) top l s :
  fill = (fun s '(i, (entry, caps, pers)) => upd_task i (baked_row kernel_satp entry caps pers (top i)) s) ->
  kernel_satp <> 0 -> claims_ok s -> (forall i, free i s) ->
  claims_ok (foldl fill s l) /\ (forall i, free i (foldl fill s l)) /\ (ready_at 0 s -> ready_at 0 (foldl fill s l)).
Proof.
  intros -> Hz. revert s. induction l as [|[i [[e c] q]] l IH]; intros s H Hf; [auto|]. cbn [foldl].
  set (s1 := upd_task i _ s). assert (H1 : claims_ok s1).
  { apply upd_free_ok; [exact H|apply Hf|intros j t; apply (cl_baked kernel_satp), row_ok_console|]. intros _. exact Hz. }
  destruct (IH s1 H1 (fun i => free_same _ _ i (same_upd _ _ s) (Hf i))) as (A & B & C). split; [exact A|split; [exact B|]].
  intros Hr. apply C. apply ready_upd; [|reflexivity|exact Hr]. rewrite (sh_tasks _ (cb_shape _ (co_base _ H))). unfold MAX_TASKS. lia.
Qed.

Lemma run_tasks_ok top specs s : (BOOT_HART < MAX_HARTS)%nat -> specs <> [] -> kernel_satp <> 0 -> claims_ok s -> (forall i, free i s) ->
  claims_ok (run_tasks kernel_satp BOOT_HART top specs s).
Proof.
  intros Hb Hne Hz H Hf. destruct specs as [|[[e c] q] specs]; [contradiction|]. unfold run_tasks.
  pose proof (wipe_ok s H Hf) as H0. assert (F0 : forall i, free i (wipe_table s)) by (intros i; exact (free_same s _ i (same_map _ s) (Hf i))).
  set (s0 := wipe_table s) in *. clearbody s0. unfold MAX_TASKS at 1. cbn [take]. rewrite imap_cons. cbn [foldl].
  set (s1 := upd_task 0 _ s0). assert (H1 : claims_ok s1).
  { apply upd_free_ok; [exact H0|apply F0|intros j t; apply (cl_baked kernel_satp), row_ok_console|]. intros _. exact Hz. }
  assert (R1 : ready_at 0 s1).
  { unfold ready_at, s1. rewrite task_upd; [reflexivity|]. rewrite (sh_tasks _ (cb_shape _ (co_base _ H0))). unfold MAX_TASKS. lia. }
  assert (F1 : forall i, free i s1) by (intros i; exact (free_same s0 _ i (same_upd _ _ s0) (F0 i))).
  destruct (fill_ok _ top (imap (pair ∘ S) (take 3 specs)) s1 eq_refl Hz H1 F1) as (A & B & C).
  apply enter_ok; [exact Hb|exact A|]. constructor; [unfold MAX_TASKS; lia|exact (C R1)| |contradiction].
  intros h' _. apply B.
Qed.

Lemma careful_ok s s' : claims_ok s -> places s !! BOOT_HART = Some Console -> careful s s' -> claims_ok s'.
Proof.
  intros H Hp St. revert H Hp.
  destruct St as [s|irq s|b s|slot s Hf Hn|slot p b kind s Hf Hb|s Hf|slot p b s Hu Hb|s Hf|s Hf|s Hf|s|top specs s Hne Hz Hf|first s Hi Hr Hf];
    intros H Hp;
    assert (HB : (BOOT_HART < MAX_HARTS)%nat) by (rewrite <- (sh_places _ (cb_shape _ (co_base _ H))); apply lookup_lt_is_Some; eauto).
  - apply (ambient_ok s); [exact H|repeat split|exact (cb_rows _ (co_base _ H))|exact (relates_refl s _)].
  - apply plic_ok, H.
  - apply (ambient_ok s); [exact H|repeat split|exact (cb_rows _ (co_base _ H))|exact (relates_refl s _)].
  - apply upd_free_ok; [exact H|exact Hf|apply (cl_reclaim 0), row_ok_console|]. intros Hl. unfold live in *. rewrite reclaim_state in Hl. contradiction.
  - apply upd_free_ok; [exact H|exact Hf|intros j t; apply (cl_spawn 0), row_ok_console|]. destruct b as [b|]; [intros _; exact (Hb b eq_refl)|].
    intros [E|E]; discriminate.
  - apply wipe_ok; assumption.
  - apply upd_free_ok; [exact H| |intros j t; apply (cl_process 0), row_ok_console|intros _; exact Hb].
    intros h Hc. exact (st_used _ _ _ (cb_claim _ (co_base _ H) _ _ Hc) Hu).
  - apply from_free_ok; [exact H|apply (cl_fg 0), row_ok_console|intros t _ [E|E]; discriminate|]. intros h i Hc Hn. destruct (Hf i Hn h Hc).
  - apply done_free_ok; [exact H|]. auto.
  - apply done_free_ok; [exact H|]. auto.
  - apply (enter_next_ok _ Console); [exact H|exact Hp|discriminate..].
  - apply run_tasks_ok; assumption.
  - apply enter_ok; [exact HB|exact H|]. constructor; [exact Hi|exact Hr| |contradiction]. intros h' _. apply Hf.
Qed.

Lemma boot_claims_ok : claims_ok boot_sched.
Proof.
  assert (N : forall h i, current boot_sched !! h <> Some (Some i)).
  { intros h i E. apply lookup_replicate_1 in E as [E _]. discriminate. }
  assert (C : forall h p, places boot_sched !! h = Some p -> p = Console) by (intros h p E; apply lookup_replicate_1 in E as [E _]; exact E).
  split; [constructor|].
  - apply boot_shape.
  - apply row_ok_boot.
  - intros i Hl. assert (E : t_state (task boot_sched i) = Unused).
    { unfold task. destruct (tasks boot_sched !! i) as [t|] eqn:E; [|reflexivity]. apply lookup_replicate_1 in E as [-> _]. reflexivity. }
    unfold live in Hl. rewrite E in Hl. destruct Hl; discriminate.
  - intros h i E. destruct (N _ _ E).
  - intros h [E|E]; apply C in E; discriminate.
  - intros h1 h2 i E. destruct (N _ _ E).
  - intros h i _ E. destruct (N _ _ E).
Qed.

Lemma careful_reach s : reach careful_step boot_sched s -> claims_ok s.
Proof.
  apply (reach_inv careful_step claims_ok); [apply boot_claims_ok|]. intros s1 s2 H St. revert H.
  destruct St as [s1 s2 St|s1 s2 Hp St]; intros H; [exact (hart_ok _ _ H St)|exact (careful_ok _ _ H Hp St)].
Qed.

(** The handler halts only on a trap it does not know. *)
Lemma trap_goes_on h cur c mem s : (h < MAX_HARTS)%nat -> current s !! h = Some (Some cur) -> c <> COther ->
  (utrap_handler h c mem s).1.1 <> Halt.
Proof.
  intros Hh Hc Hn. assert (Hct : current_task h s = Some cur) by (unfold current_task; rewrite Hc; reflexivity).
  unfold utrap_handler. apply Nat.leb_gt in Hh. rewrite Hh, Hct.
  unfold linux_syscall, native_syscall, sys_send, sys_recv, sys_recv_timeout, sys_irq_wait, receive_or, finish, resume_with.
  destruct c; try contradiction;
  repeat (match goal with |- context [if ?b then _ else _] => destruct b | |- context [match recv_message_into ?t with _ => _ end] => destruct (recv_message_into t) as [[? ?]|] end);
  discriminate.
Qed.

(** C12: In every interleaving of the lock sections of all harts and the console in which the console's
    sections keep these conditions, which the source does not test: rows it rewrites (spawn, wipe,
    clear, reclaim) are claimed by no hart; a row reclaimed ahead of a spawn is neither Ready nor
    Blocked; a process is placed only in an Unused row and, like a spawned one, with a non-null address
    space; run_tasks gets at least one task and a non-null kernel address space; and a row entered by
    number is in range, Ready and unclaimed. Then no two harts claim one task; a hart in user mode holds
    a claim on a Ready task whose frame is stamped with its id, whose address space is not reclaimed
    and, on a secondary, is not the kernel's; its next trap does not halt unless its cause is unknown;
    and a hart in the trap path always finds a dispatch decision. *)
Theorem harts_exclude_each_other (s : Sched) : reach careful_step boot_sched s ->
  (forall h1 h2 i, current s !! h1 = Some (Some i) -> current s !! h2 = Some (Some i) -> h1 = h2) /\
  (forall h, places s !! h = Some InUser -> exists i, current s !! h = Some (Some i) /\ t_state (task s i) = Ready /\
     stamp (task s i) = Z.of_nat h /\ t_satp (task s i) <> 0 /\ (h <> BOOT_HART -> t_satp (task s i) <> kernel_satp) /\
     forall c mem, c <> COther -> (utrap_handler h c mem s).1.1 <> Halt) /\
  (forall h, places s !! h = Some InTrap -> exists i, current s !! h = Some (Some i) /\ t_state (task s i) <> Unused /\
     t_satp (task s i) <> 0 /\ dispatch BOOT_HART kernel_satp h s <> None).
Proof.
  intros H%careful_reach. destruct H as [Hb Hu]. split; [exact (cb_excl _ Hb)|]. split; intros h Hp.
  - destruct (cb_place _ Hb h (or_intror Hp)) as [i Hi]. exists i. destruct (cb_claim _ Hb _ _ Hi) as [_ U S N O].
    repeat split; auto; [exact (Hu _ _ Hp Hi)|]. intros c mem. apply (trap_goes_on h i); [|exact Hi].
    rewrite <- (sh_places _ (cb_shape _ Hb)). apply lookup_lt_is_Some. eauto.
  - destruct (cb_place _ Hb h (or_introl Hp)) as [i Hi]. exists i. destruct (cb_claim _ Hb _ _ Hi) as [_ U S N O].
    repeat split; auto. rewrite dispatch_eq. discriminate.
Qed.
End Harts.

(** ** Runs

    Hart 0 boots; two loaded processes; hart 1 joins through the switch. *)

Definition demo_satp : Z := 0x8000000000080200.
Definition demo_build (n : Z) : Build := mkBuild 0x40000000 (0x8000000000080300 + n) 12.
Definition demo_spec : Spec := mkSpec TASK_PRINT PERS_NATIVE [7].

Definition win_open : Sched := wipe_table (set_smp true boot_sched).
Definition win_filled : Sched := place_process 1 demo_spec (demo_build 1) (place_process 0 demo_spec (demo_build 0) win_open).
Definition win_taken : Sched := enter_next 0 demo_satp 1 (set_place 1 Serving win_filled).
Definition win_running : Sched := enter_next 0 demo_satp 0 win_taken.

Lemma free_all s : Forall (fun c => c = None) (current s) -> forall i, free i s.
Proof. intros H i h E. rewrite Forall_lookup in H. discriminate (H _ _ E). Qed.

Lemma win_running_reach : reach (careful_step 0 demo_satp) boot_sched win_running.
Proof.
  apply reach_step with win_taken; [|apply cst_console; [reflexivity|apply ca_enter]].
  apply reach_step with (set_place 1 Serving win_filled); [|apply cst_hart, hs_take; reflexivity].
  apply reach_step with win_filled; [|apply cst_hart, hs_serve; [discriminate|reflexivity|reflexivity]].
  apply reach_step with (place_process 0 demo_spec (demo_build 0) win_open);
    [|apply cst_console; [reflexivity|apply ca_place; [reflexivity|discriminate]]].
  apply reach_step with win_open; [|apply cst_console; [reflexivity|apply ca_place; [reflexivity|discriminate]]].
  apply reach_step with (set_smp true boot_sched); [|apply cst_console; [reflexivity|apply ca_wipe, free_all; repeat constructor]].
  apply reach_step with boot_sched; [apply reach_refl|apply cst_console; [reflexivity|apply ca_smp]].
Qed.

Lemma harts_exclude_each_other_witness : places win_running !! 0%nat = Some InUser /\ places win_running !! 1%nat = Some InUser /\
  forall i, current win_running !! 0%nat = Some (Some i) -> current win_running !! 1%nat = Some (Some i) -> 0%nat = 1%nat.
Proof.
  split; [reflexivity|]. split; [reflexivity|]. intros i H0 H1.
  exact (proj1 (harts_exclude_each_other 0 demo_satp win_running win_running_reach) 0%nat 1%nat i H0 H1).
Defined.

(** A hart that read the switch before it was closed. *)
Definition late_joined : Sched := set_smp false (set_place 1 Serving (set_smp true boot_sched)).
Definition late_spawned : Sched := spawn_place 1 demo_spec (Some (demo_build 1)) KForeground late_joined.
Definition late_shared : Sched := run_scheduler_from 0 1 (enter_next 0 demo_satp 1 late_spawned).

(** join_secondaries can report that every hart handed its task back while a secondary that read the
    switch earlier is about to claim: it takes the task the console spawns next, and the console's named
    entry then puts two harts in user mode on one register frame. *)
Theorem join_misses_a_late_hart :
  reach (machine_step 0 demo_satp) boot_sched late_joined /\
  smp_on late_joined = false /\ secondary_claims_outstanding 0 late_joined = false /\
  reach (machine_step 0 demo_satp) late_joined late_shared /\
  current late_shared !! 0%nat = Some (Some 1%nat) /\ current late_shared !! 1%nat = Some (Some 1%nat) /\
  places late_shared !! 0%nat = Some InUser /\ places late_shared !! 1%nat = Some InUser.
Proof.
  split.
  { apply reach_step with (set_place 1 Serving (set_smp true boot_sched)); [|apply ms_console; [reflexivity|apply cs_smp]].
    apply reach_step with (set_smp true boot_sched); [|apply ms_hart, hs_serve; [discriminate|reflexivity|reflexivity]].
    apply reach_step with boot_sched; [apply reach_refl|apply ms_console; [reflexivity|apply cs_smp]]. }
  split; [reflexivity|]. split; [reflexivity|]. split; [|repeat split; reflexivity].
  apply reach_step with (enter_next 0 demo_satp 1 late_spawned); [|apply ms_console; [reflexivity|apply cs_run_from; unfold MAX_TASKS; lia]].
  apply reach_step with late_spawned; [|apply ms_hart, hs_take; reflexivity].
  apply reach_step with late_joined; [apply reach_refl|apply ms_console; [reflexivity|apply cs_spawn]].
Qed.

(** [run_processes] with a secondary: the boot hart's process ends first, the
    other hart's process ends, and before that hart dispatches, the closing
    section of [run_processes] reclaims the row. *)
Definition exit_regs : list Z := replicate 32 0.
Definition exited (h cur : nat) (s : Sched) : Sched :=
  set_place h InTrap (utrap_handler h CEcall (fun _ => 0) (upd_task cur (save_regs exit_regs) s)).2.
Definition boot_back : Sched := leave 0 (expire_recv_timeouts (exited 0 1 win_running)).
Definition other_exited : Sched := exited 1 0 boot_back.

(** run_processes frees the address space of a task that has exited on a secondary hart while that hart
    is still in the trap path under it. *)
Theorem run_processes_reclaims_under_a_hart :
  let s := reclaim_all_done other_exited in
  reach (machine_step 0 demo_satp) boot_sched s /\
  places s !! 1%nat = Some InTrap /\ current s !! 1%nat = Some (Some 0%nat) /\
  t_satp (task other_exited 0) = b_satp (demo_build 0) /\ t_satp (task s 0) = 0 /\ t_owned (task s 0) = 0.
Proof.
  cbv zeta. split; [|repeat split; vm_compute; reflexivity].
  apply reach_step with other_exited; [|apply ms_console; [reflexivity|apply cs_done]].
  apply reach_step with boot_back.
  2: { apply ms_hart. unfold other_exited, exited. eapply (hs_trap 0 demo_satp 1 0 exit_regs CEcall (fun _ => 0));
       [reflexivity|reflexivity|reflexivity|vm_compute; reflexivity]. }
  apply reach_step with (exited 0 1 win_running).
  2: { apply ms_hart, (hs_dispatch 0 demo_satp 0); [reflexivity|vm_compute; reflexivity]. }
  apply reach_step with win_running.
  2: { apply ms_hart. unfold exited. eapply (hs_trap 0 demo_satp 0 1 exit_regs CEcall (fun _ => 0));
       [reflexivity|reflexivity|reflexivity|vm_compute; reflexivity]. }
  apply reach_step with win_taken; [|apply ms_console; [reflexivity|apply cs_enter]].
  apply reach_step with (set_place 1 Serving win_filled); [|apply ms_hart, hs_take; reflexivity].
  apply reach_step with win_filled; [|apply ms_hart, hs_serve; [discriminate|reflexivity|reflexivity]].
  apply reach_step with (place_process 0 demo_spec (demo_build 0) win_open); [|apply ms_console; [reflexivity|apply cs_place]].
  apply reach_step with win_open; [|apply ms_console; [reflexivity|apply cs_place]].
  apply reach_step with (set_smp true boot_sched); [|apply ms_console; [reflexivity|apply cs_wipe]].
  apply reach_step with boot_sched; [apply reach_refl|apply ms_console; [reflexivity|apply cs_smp]].
Qed.

(** ** A receive, a send and a delivery

    Two processes with IPC on the boot hart: slot 0 parks in a receive, slot 1
    sends it a word and its print capability. *)

Definition ipc_spec (caps : Z) : Spec := mkSpec caps PERS_NATIVE [].
Definition call (nr : Z) (args : list (nat * Z)) : list Z := foldr (fun '(r, v) f => <[r := v]> f) (replicate 32 0) ((F_A7, nr) :: args).
Definition ipc_filled : Sched :=
  place_process 1 (ipc_spec (TASK_IPC .| TASK_PRINT)) (demo_build 1) (place_process 0 (ipc_spec TASK_IPC) (demo_build 0) win_open).
Definition ipc_entered : Sched := enter_next 0 demo_satp 0 ipc_filled.
Definition ipc_saved : Sched := upd_task 0 (save_regs (call SYS_RECV [(F_A0, 0x40001000); (F_A1, 64)])) ipc_entered.
Definition ipc_parked : Sched := set_place 0 InTrap (utrap_handler 0 CEcall (fun _ => 0) ipc_saved).2.
Definition ipc_other : Sched := enter 0 1 (expire_recv_timeouts ipc_parked).
Definition ipc_ready_to_send : Sched :=
  upd_task 1 (save_regs (call SYS_SEND [(F_A0, 0); (F_A1, 0x40002000); (F_A2, 2); (F_A3, 0xff); (F_A4, 99)])) ipc_other.
Definition ipc_sent : Sched := (sys_send 1 (t_caps (task ipc_ready_to_send 1)) (fun a => a mod 256) ipc_ready_to_send).2.

Lemma ipc_parked_reach : reach (machine_step 0 demo_satp) boot_sched ipc_parked.
Proof.
  apply reach_step with ipc_entered.
  2: { apply ms_hart. unfold ipc_parked. eapply (hs_trap 0 demo_satp 0 0 (call SYS_RECV [(F_A0, 0x40001000); (F_A1, 64)]) CEcall (fun _ => 0));
       [reflexivity|reflexivity|reflexivity|vm_compute; reflexivity]. }
  apply reach_step with ipc_filled; [|apply ms_console; [reflexivity|apply cs_enter]].
  apply reach_step with (place_process 0 (ipc_spec TASK_IPC) (demo_build 0) win_open); [|apply ms_console; [reflexivity|apply cs_place]].
  apply reach_step with win_open; [|apply ms_console; [reflexivity|apply cs_place]].
  apply reach_step with (set_smp true boot_sched); [|apply ms_console; [reflexivity|apply cs_wipe]].
  apply reach_step with boot_sched; [apply reach_refl|apply ms_console; [reflexivity|apply cs_smp]].
Qed.

Lemma no_wakeup_is_lost_witness : t_state (task ipc_parked 0) = Blocked /\
  (queue (t_mbox (task ipc_parked 0)) = [] \/ t_irq_waiting (task ipc_parked 0) = true).
Proof.
  split; [vm_compute; reflexivity|].
  apply (no_wakeup_is_lost 0 demo_satp ipc_parked ipc_parked_reach 0%nat (task ipc_parked 0)); vm_compute; reflexivity.
Defined.

Lemma ipc_parked_shape : shape ipc_parked.
Proof.
  apply (reach_inv (machine_step 0 demo_satp) shape boot_sched ipc_parked); [apply boot_shape| |apply ipc_parked_reach].
  intros s1 s2. apply shape_step.
Qed.

Lemma ipc_other_ok : shape ipc_other /\ rows row_ok ipc_other.
Proof.
  split.
  - apply shape_enter; [unfold MAX_TASKS; lia|]. apply (shape_same ipc_parked _ (same_expire _)), ipc_parked_shape.
  - apply (rows_force demo_satp); [apply row_ok_console|]. apply rows_expire; [apply row_ok_ambient|].
    exact (reachable_rows _ _ _ ipc_parked_reach).
Qed.

Lemma ipc_ready_ok : shape ipc_ready_to_send /\ rows row_ok ipc_ready_to_send.
Proof.
  destruct ipc_other_ok as [Hs Hk]. split; [exact (shape_same _ _ (same_upd _ _ _) Hs)|]. apply rows_upd; [exact Hk|].
  intros t _. apply (ml_save _ (cl_machine demo_satp _ (row_ok_console demo_satp))). reflexivity.
Qed.

Lemma send_appends_an_attested_message_witness : send_target 1 ipc_ready_to_send = Some 0%nat /\
  exists m, mail ipc_sent 0 = mail ipc_ready_to_send 0 ++ [m] /\ m_grant m = (TASK_IPC .| TASK_PRINT).
Proof.
  split; [vm_compute; reflexivity|].
  pose proof (send_appends_an_attested_message 1 (fun a => a mod 256) ipc_ready_to_send (proj1 ipc_ready_ok) (proj2 ipc_ready_ok)
    ltac:(unfold MAX_TASKS; lia) ltac:(vm_compute; discriminate)) as H. cbv zeta in H.
  assert (E : send_target 1 ipc_ready_to_send = Some 0%nat) by (vm_compute; reflexivity). rewrite E in H. unfold ipc_sent.
  destruct (sys_send _ _ _ _) as [[n effs] s']. destruct H as (_ & m & Hq & _ & _ & Hg & _). exists m. split; [exact Hq|].
  rewrite Hg. vm_compute. reflexivity.
Defined.

Lemma ipc_sent_ok : shape ipc_sent /\ rows row_ok ipc_sent.
Proof.
  destruct ipc_ready_ok as [Hs Hk]. unfold ipc_sent.
  destruct (sys_send 1 (t_caps (task ipc_ready_to_send 1)) (fun a => a mod 256) ipc_ready_to_send) as [[n effs] s'] eqn:E.
  cbn [snd]. split; [exact (shape_same _ _ (same_send _ _ _ _ _ _ _ E) Hs)|].
  eapply (rows_send 1 row_ok (row_ok_laws 1)); [|exact Hk|exact E]. vm_compute. reflexivity.
Qed.

Lemma recv_takes_the_oldest_message_witness : length (mail ipc_sent 0) = 1%nat /\
  t_caps (task (sys_recv 0 (t_caps (task ipc_sent 0)) ipc_sent).2 0) = (TASK_IPC .| TASK_PRINT).
Proof.
  split; [vm_compute; reflexivity|].
  pose proof (recv_takes_the_oldest_message 0 ipc_sent (proj1 ipc_sent_ok) (proj2 ipc_sent_ok) ltac:(unfold MAX_TASKS; lia)
    ltac:(vm_compute; discriminate)) as H. cbv zeta in H.
  destruct (sys_recv 0 (t_caps (task ipc_sent 0)) ipc_sent) as [[n effs] s'].
  destruct (mail ipc_sent 0) as [|m rest] eqn:Em; [vm_compute in Em; discriminate|].
  destruct H as [(_ & _ & Hc & _) _]. cbn [snd]. rewrite Hc. vm_compute in Em. injection Em as <- <-. vm_compute. reflexivity.
Defined.

Lemma authority_is_only_passed_on_witness : held ipc_parked 0 /\ held ipc_entered 0.
Proof.
  assert (H : held ipc_parked 0) by (exists 1%nat, (task ipc_parked 1); split; [vm_compute; reflexivity|left; vm_compute; reflexivity]).
  split; [exact H|]. apply (authority_is_only_passed_on 0 demo_satp ipc_entered ipc_parked); [| |lia|exact H].
  - apply shape_enter_next. constructor; try (vm_compute; reflexivity). intros h i E. exfalso.
    assert (F : Forall (fun c => c = None) (current ipc_filled)) by (repeat constructor).
    rewrite Forall_lookup in F. discriminate (F _ _ E).
  - apply reach_step with ipc_entered; [apply reach_refl|]. unfold ipc_parked.
    eapply (hs_trap 0 demo_satp 0 0 (call SYS_RECV [(F_A0, 0x40001000); (F_A1, 64)]) CEcall (fun _ => 0));
      [reflexivity|reflexivity|reflexivity|vm_compute; reflexivity].
Defined.

(** Two runnable processes on the boot hart take turns. *)
Definition turn_before (k : nat) : Sched := set_place 0 InTrap (enter 0 (if Nat.even k then 0 else 1) win_filled).
Definition turn_after (k : nat) : Sched := default win_filled (dispatch 0 demo_satp 0 (turn_before k)).

Lemma round_robin_witness : exists k, (k < MAX_TASKS)%nat /\ current_task 0 (turn_after k) = Some 1%nat.
Proof.
  apply (round_robin_serves_every_ready_task 0 demo_satp 0 1 turn_before turn_after); [|unfold MAX_HARTS; lia|unfold MAX_TASKS; lia].
  constructor; intros k; unfold turn_after, turn_before; rewrite ?Nat.even_succ, <- ?Nat.negb_even; destruct (Nat.even k); cbn [negb].
  1,2: apply shape_place, shape_enter; [unfold MAX_TASKS; lia|]; constructor; try (vm_compute; reflexivity);
    intros h i E; exfalso; assert (F : Forall (fun c => c = None) (current win_filled)) by (repeat constructor);
    rewrite Forall_lookup in F; discriminate (F _ _ E).
  all: vm_compute; reflexivity.
Defined.
