(* ===== verification/Difc.v ===== *)
(** * Information-flow labels (dezh-core/src/difc.rs)

    Secrecy only rises as an actor reads, integrity only falls until it is
    endorsed again. *)

From Stdlib Require Import ZArith Lia.
From stdpp Require Import base option numbers list.
From S2P Require Import Prelude.

Definition PUBLIC : Z := 0.
Definition can_flow (src sink : Z) : bool := src & unot 32 sink =? 0.
Definition TRUSTED : Z := unot 32 0.
Definition UNTRUSTED : Z := 0.
Definition integrity_ok (data sink_requires : Z) : bool := sink_requires & unot 32 data =? 0.

Record Taint := mkTaint { secrecy : Z; integrity : Z }.

Definition taint_new : Taint := mkTaint PUBLIC TRUSTED.
Definition observe (t : Taint) (object : Z) : Taint := mkTaint (secrecy t .| object) (integrity t).
Definition observe_input (t : Taint) (object : Z) : Taint := mkTaint (secrecy t) (integrity t & object).
Definition may_endorse_to (t : Taint) (sink_requires : Z) : bool := integrity_ok (integrity t) sink_requires.
Definition endorse (t : Taint) : Taint := mkTaint (secrecy t) TRUSTED.
Definition may_flow_to (t : Taint) (sink : Z) : bool := can_flow (secrecy t) sink.

(** ** What an actor did *)

Inductive action := Read (label : Z) | Input (label : Z) | Endorse.

Definition act (t : Taint) (a : action) : Taint :=
  match a with Read l => observe t l | Input i => observe_input t i | Endorse => endorse t end.

Definition acts (l : list action) : Taint := fold_left act l taint_new.

Definition action_ok (a : action) : Prop :=
  match a with Read l | Input l => fits 32 l | Endorse => True end.

Fixpoint reads (l : list action) : list Z :=
  match l with [] => [] | Read x :: l => x :: reads l | _ :: l => reads l end.

(** The inputs consumed since the last endorsement. *)
Fixpoint inputs_since_endorse (l : list action) (acc : list Z) : list Z :=
  match l with
  | [] => acc
  | Read _ :: l => inputs_since_endorse l acc
  | Input x :: l => inputs_since_endorse l (x :: acc)
  | Endorse :: l => inputs_since_endorse l []
  end.

Lemma can_flow_spec src sink : fits 32 src -> can_flow src sink = true <-> subset_bits src sink.
Proof. intros. unfold can_flow. rewrite land_unot, Z.eqb_eq by done. done. Qed.

Lemma subset_bits_lor_iff a b c : subset_bits (a .| b) c <-> subset_bits a c /\ subset_bits b c.
Proof.
  split; [|intros [? ?]; by apply subset_bits_lor_lub].
  intros H. split; (etrans; [|apply H]); auto with dezh.
Qed.

Lemma subset_bits_land_iff a b c : subset_bits c (a & b) <-> subset_bits c a /\ subset_bits c b.
Proof.
  split; [|intros [? ?]; by apply subset_bits_land_glb].
  intros H. split; (etrans; [apply H|]); auto with dezh.
Qed.

Lemma acts_from l t : Forall action_ok l -> fits 32 (secrecy t) -> fits 32 (integrity t) ->
  let t' := fold_left act l t in
  fits 32 (secrecy t') /\ fits 32 (integrity t') /\
  (forall sink, subset_bits (secrecy t') sink <->
     subset_bits (secrecy t) sink /\ Forall (fun x => subset_bits x sink) (reads l)).
Proof.
  intros Hl. revert t. induction Hl as [|a l Ha Hl IH]; intros t Hs Hi; cbv zeta.
  { split; [done|]. split; [done|]. intros sink. cbn. rewrite Forall_nil. tauto. }
  cbn [fold_left]. destruct a as [x|x|]; cbn [act reads] in *.
  - destruct (IH (observe t x)) as (H1 & H2 & H3); cbn; [by apply lor_fits|done|].
    split; [done|]. split; [done|]. intros sink. rewrite H3. cbn.
    rewrite subset_bits_lor_iff, Forall_cons. tauto.
  - apply (IH (observe_input t x)); cbn; [done|]. apply land_fits_l; [done|done|apply Ha].
  - apply (IH (endorse t)); done.
Qed.

Lemma acts_integrity l t acc req :
  (subset_bits req (integrity t) <-> Forall (subset_bits req) acc) -> subset_bits req TRUSTED ->
  subset_bits req (integrity (fold_left act l t)) <-> Forall (subset_bits req) (inputs_since_endorse l acc).
Proof.
  intros Hacc Htop. revert t acc Hacc. induction l as [|[x|x|] l IH]; intros t acc Hacc; cbn.
  - done.
  - by apply IH.
  - apply IH. cbn. rewrite subset_bits_land_iff, Forall_cons, Hacc. tauto.
  - apply IH. cbn. rewrite Forall_nil. tauto.
Qed.

Lemma subset_trusted req : fits 32 req -> subset_bits req TRUSTED.
Proof.
  intros Hr. apply subset_bits_land_eq. unfold TRUSTED, unot. rewrite Z.lxor_0_r, Z.land_ones by done.
  by apply Z.mod_small.
Qed.

(** C35: The two-word taint of an actor decides exactly what its whole history of reads, inputs and
    endorsements decides: a flow is allowed iff every label read may flow there, an endorsed write iff
    every input since the last endorsement is trusted enough. *)
Theorem taint_is_sound_and_precise l sink req :
  Forall action_ok l -> fits 32 sink -> fits 32 req ->
  (may_flow_to (acts l) sink = true <-> Forall (fun x => can_flow x sink = true) (reads l)) /\
  (may_endorse_to (acts l) req = true <->
     Forall (fun x => integrity_ok x req = true) (inputs_since_endorse l [])).
Proof.
  intros Hl Hsink Hreq. destruct (acts_from l taint_new Hl) as (Hs & Hi & Hf); [done..|].
  fold (acts l) in *. split.
  - unfold may_flow_to. rewrite can_flow_spec, Hf by done. cbn.
    assert (Hz : subset_bits PUBLIC sink) by done. split.
    + intros [_ H]. clear Hf Hs Hi. induction Hl as [|a l Ha Hl IH]; [constructor|].
      destruct a; cbn in *; [|by apply IH..]. apply Forall_cons in H as [? ?]. constructor; [by apply can_flow_spec|by apply IH].
    + intros H. split; [done|]. clear Hf Hs Hi. induction Hl as [|a l Ha Hl IH]; [constructor|].
      destruct a; cbn in *; [|by apply IH..]. apply Forall_cons in H as [? ?]. constructor; [by apply can_flow_spec|by apply IH].
  - unfold may_endorse_to, integrity_ok. rewrite land_unot, Z.eqb_eq by done.
    change (Z.ldiff req ?x = 0) with (subset_bits req x).
    rewrite (acts_integrity l taint_new [] req); [|split; [constructor|by intros; apply subset_trusted]|by apply subset_trusted].
    apply Forall_iff. intros x. by rewrite land_unot, Z.eqb_eq by done.
Qed.

(** Read a secret, then talk to a public sink. *)
Lemma taint_is_sound_and_precise_witness :
  may_flow_to (acts [Read 1; Input 2; Endorse; Read 2]) 3 = true /\
  (may_flow_to (acts [Read 1]) PUBLIC = true <-> Forall (fun x => can_flow x PUBLIC = true) [1]).
Proof.
  split; [reflexivity|]. apply (taint_is_sound_and_precise [Read 1] PUBLIC 0); by repeat constructor.
Defined.
