(* ===== verification/Sig.v ===== *)
(** * Signed packages (dezh-core/src/sig.rs and the trust store of pkg.rs)

    The signed envelope around a package, the message the signature covers, the
    publisher trust store and the decision the signing path takes.  Ed25519 is
    a parameter; what is assumed of it is that a signature that verifies was
    made by the key's owner over that very message.  The theorems show that the
    envelope codec round-trips, and that an accepted envelope was signed for
    exactly its package bytes and counter by a trusted, unrevoked key whose
    ceiling bounds what is granted. *)

From Stdlib Require Import ZArith Lia String.
From stdpp Require Import base option strings numbers list.
From S2P Require Import Prelude Text Dzp Ir IrVerify IrSafety Mcap.

Definition SIG_MAGIC : list Z := [0x44; 0x5A; 0x53; 0x49; 0x47; 0x31].
Definition PK_LEN : Z := 32.
Definition SIG_LEN : Z := 64.
Definition SIG_CONTEXT_LEN : Z := 14.

(** The answer, and the buffer after the call. *)
Definition signed_context (out : list Z) (counter : Z) : outcome Empty_set (option Z * list Z) :=
  if zlen out <? SIG_CONTEXT_LEN then Ret (None, out) else
  out ← sub_copy out 0 6 SIG_MAGIC;
  out ← sub_copy out 6 14 (le_bytes 8 counter);
  Ret (Some SIG_CONTEXT_LEN, out).

(** ** The envelope *)

Definition ENV_MAGIC : list Z := [0x44; 0x5A; 0x53; 0x50].
Definition ENV_VERSION : Z := 1.
Definition ENV_HEADER_LEN : Z := 116.

Inductive EnvError := EnvTooShort | EnvBadMagic | EnvBadVersion | EnvTruncated.

Record SignedEnvelope := mkEnvelope {
  signer_pk : list Z; signature : list Z; env_counter : Z; inner_offset : Z; inner_len : Z }.

Definition is_signed (bytes : list Z) : bool :=
  (4 <=? zlen bytes) && bool_decide (slice bytes 0 4 = ENV_MAGIC).

Definition u64le {E} (b : list Z) (o : Z) : outcome E Z := w ← sub b o (o + 8); Ret (le_val w).

Definition parse_envelope (bytes : list Z) : outcome EnvError SignedEnvelope :=
  if zlen bytes <? ENV_HEADER_LEN then Trap EnvTooShort else
  magic ← sub bytes 0 4;
  if negb (bool_decide (magic = ENV_MAGIC)) then Trap EnvBadMagic else
  version ← u16_at bytes 4;
  if negb (version =? ENV_VERSION) then Trap EnvBadVersion else
  inner_len ← u32_at bytes 112;
  match checked_add ENV_HEADER_LEN inner_len with
  | None => Trap EnvTruncated
  | Some total =>
    if negb (zlen bytes =? total) then Trap EnvTruncated else
    signer_pk ← sub bytes 8 40;
    signature ← sub bytes 40 104;
    counter ← u64le bytes 104;
    Ret (mkEnvelope signer_pk signature counter ENV_HEADER_LEN inner_len)
  end.

Definition pack_envelope (out signer_pk signature : list Z) (counter : Z) (inner : list Z)
  : outcome Empty_set (option Z * list Z) :=
  let total := ENV_HEADER_LEN + zlen inner in
  if zlen out <? total then Ret (None, out) else
  out ← sub_copy out 0 4 ENV_MAGIC;
  out ← sub_copy out 4 6 (le_bytes 2 ENV_VERSION);
  out ← sub_copy out 6 8 (le_bytes 2 0);
  out ← sub_copy out 8 40 signer_pk;
  out ← sub_copy out 40 104 signature;
  out ← sub_copy out 104 112 (le_bytes 8 counter);
  out ← sub_copy out 112 116 (le_bytes 4 (wrap 32 (zlen inner)));
  out ← sub_copy out ENV_HEADER_LEN total inner;
  Ret (Some total, out).

(** ** The trust store and the decision *)

Record TrustedKey := mkKey { tk_used : bool; tk_pk : list Z; tk_ceiling : Z; tk_revoked : bool }.

Definition EMPTY_KEY : TrustedKey := mkKey false (replicate 32 0) 0 false.
Definition MAX_TRUSTED_KEYS : nat := 4.

Inductive SigVerdict :=
| SigNotSigned | SigBadEnvelope (e : EnvError) | SigUntrusted | SigRevoked | SigInvalid | SigBadInner (e : DzpError)
| SigGranted (granted beyond : Z).

Definition no_error {E F A} (m : outcome Empty_set A) (k : A -> outcome E F) : outcome E F :=
  match m with Ret a => k a | Trap e => match e with end | Panic => Panic end.

Section Crypto.
(** [PublicKey::verify] of the ed25519-compact crate, and the publisher key the
    build generates. *)
Context (ed25519_verify : list Z -> list Z -> list Z -> bool) (demo_signer_pk : list Z).

Definition trust_init (init : bool) (store : list TrustedKey) : bool * list TrustedKey :=
  if init then (true, store) else
  (true, <[0%nat := mkKey true demo_signer_pk (MCAP_PRINT .| MCAP_CAIRN_READ .| MCAP_CAIRN_WRITE) false]> store).

Fixpoint find_key (pk : list Z) (store : list TrustedKey) (i : nat) : option nat :=
  match store with
  | [] => None
  | k :: store => if tk_used k && bool_decide (tk_pk k = pk) then Some i else find_key pk store (S i)
  end.
Definition trust_lookup (pk : list Z) (store : list TrustedKey) : option nat := find_key pk store 0.

Definition verify_envelope_sig (env : list Z) (e : SignedEnvelope) : outcome Empty_set bool :=
  if zlen env <? inner_offset e + inner_len e then Ret false else
  inner ← sub env (inner_offset e) (inner_offset e + inner_len e);
  let buf := replicate (Z.to_nat 2048) 0 in
  if zlen buf <? zlen inner + SIG_CONTEXT_LEN then Ret false else
  buf ← sub_copy buf 0 (zlen inner) inner;
  tail ← sub buf (zlen inner) (zlen buf);
  r ← signed_context tail (env_counter e);
  match r with
  | (None, _) => Ret false
  | (Some cn, tail) =>
    buf ← sub_copy buf (zlen inner) (zlen buf) tail;
    msg ← sub buf 0 (zlen inner + cn);
    Ret (ed25519_verify (signer_pk e) (signature e) msg)
  end.

(** The install decision of [sig_demo], up to the grant it computes. *)
Definition sig_gate (store : list TrustedKey) (env : list Z) : outcome Empty_set SigVerdict :=
  if negb (is_signed env) then Ret SigNotSigned else
  match parse_envelope env with
  | Panic => Panic
  | Trap e => Ret (SigBadEnvelope e)
  | Ret e =>
    match trust_lookup (signer_pk e) store with
    | None => Ret SigUntrusted
    | Some ki =>
      k ← index store (Z.of_nat ki);
      if tk_revoked k then Ret SigRevoked else
      valid ← verify_envelope_sig env e;
      if negb valid then Ret SigInvalid else
      inner ← sub env (inner_offset e) (inner_offset e + inner_len e);
      match Dzp.parse inner with
      | Panic => Panic
      | Trap er => Ret (SigBadInner er)
      | Ret pkg =>
        let requested := match parse_mcaps (pkg_manifest pkg) with Ok m => m | Err _ => 0 end in
        Ret (SigGranted (attenuate requested (tk_ceiling k)) (beyond_ceiling requested (tk_ceiling k)))
      end
    end
  end.

(** ** The codec *)

Definition context_bytes (counter : Z) : list Z := SIG_MAGIC ++ le_bytes 8 counter.

Lemma zlen_context c : zlen (context_bytes c) = SIG_CONTEXT_LEN.
Proof. unfold context_bytes. by rewrite zlen_app, zlen_le_bytes. Qed.

Lemma signed_context_spec out c : SIG_CONTEXT_LEN <= zlen out ->
  signed_context out c = Ret (Some SIG_CONTEXT_LEN, context_bytes c ++ drop 14 out).
Proof.
  intros Hl. unfold signed_context. rewrite (proj2 (Z.ltb_ge _ _)) by done. unfold SIG_CONTEXT_LEN in Hl.
  change out with ([] ++ out) at 1. rewrite sub_copy_app by (done || (unfold zlen in *; cbn [length SIG_MAGIC]; lia)). cbn [mbind outcome_bind app].
  rewrite sub_copy_app; [|done|done|]. 2: { rewrite zlen_le_bytes. unfold zlen in *. rewrite length_drop. cbn. lia. }
  cbn [mbind outcome_bind]. rewrite drop_drop. done.
Qed.

Lemma sub_tail {E} (l1 l2 : list Z) : sub (E:=E) (l1 ++ l2) (zlen l1) (zlen (l1 ++ l2)) = Ret l2.
Proof.
  pose proof (sub_app (E:=E) l1 l2 [] (zlen l1) (zlen (l1 ++ l2)) eq_refl) as H. rewrite app_nil_r in H.
  apply H. apply zlen_app.
Qed.

(** The message determines the package and the counter. *)
Lemma signed_message_injective i1 i2 c1 c2 : fits 64 c1 -> fits 64 c2 ->
  i1 ++ context_bytes c1 = i2 ++ context_bytes c2 -> i1 = i2 /\ c1 = c2.
Proof.
  intros H1 H2 E. apply app_inj_2 in E as [-> E]; [|done]. split; [done|].
  unfold context_bytes in E. apply app_inv_head in E.
  by rewrite <- (le_val_le_bytes 8 c1 H1), <- (le_val_le_bytes 8 c2 H2), E.
Qed.

(** The bytes of an envelope; the two flag bytes are written as zero and never
    read. *)
Definition env_bytes (flags pk sg : list Z) (counter : Z) (inner : list Z) : list Z :=
  ENV_MAGIC ++ le_bytes 2 ENV_VERSION ++ flags ++ pk ++ sg ++ le_bytes 8 counter ++
  le_bytes 4 (wrap 32 (zlen inner)) ++ inner.

Lemma pack_envelope_spec out pk sg c inner :
  zlen pk = PK_LEN -> zlen sg = SIG_LEN -> ENV_HEADER_LEN + zlen inner <= zlen out ->
  pack_envelope out pk sg c inner =
    Ret (Some (ENV_HEADER_LEN + zlen inner), env_bytes [0; 0] pk sg c inner ++ drop (116 + length inner) out).
Proof.
  unfold PK_LEN, SIG_LEN, ENV_HEADER_LEN, zlen. intros Hpk Hsg Hout. unfold pack_envelope, ENV_HEADER_LEN, zlen.
  rewrite (proj2 (Z.ltb_ge _ _)) by lia. change out with ([] ++ out) at 1.
  repeat (rewrite sub_copy_app;
    [cbn [mbind outcome_bind]
    |unfold zlen; rewrite ?length_app, ?length_le_bytes; cbn [length ENV_MAGIC]; lia..
    |unfold zlen; rewrite ?length_drop, ?length_le_bytes; cbn [length ENV_MAGIC]; lia]).
  unfold env_bytes. do 2 f_equal. rewrite !drop_drop, !length_le_bytes, <- !app_assoc. cbn [app length ENV_MAGIC].
  replace (4 + (2 + (2 + (length pk + (length sg + (8 + (4 + length inner)))))))%nat with (116 + length inner)%nat by lia.
  done.
Qed.

(** The scratch buffer holds the package bytes of the envelope followed by the
    context, and that is what the signature is checked against. *)
Lemma verify_envelope_run env e inner :
  inner_offset e + inner_len e <= zlen env ->
  sub (E:=Empty_set) env (inner_offset e) (inner_offset e + inner_len e) = Ret inner ->
  zlen inner + SIG_CONTEXT_LEN <= 2048 ->
  verify_envelope_sig env e = Ret (ed25519_verify (signer_pk e) (signature e) (inner ++ context_bytes (env_counter e))).
Proof.
  intros Hlen Hsub Hfit. unfold verify_envelope_sig. rewrite (proj2 (Z.ltb_ge _ _)), Hsub by lia.
  cbn [mbind outcome_bind]. unfold SIG_CONTEXT_LEN in Hfit. set (buf := replicate (Z.to_nat 2048) 0).
  assert (Hb : zlen buf = 2048) by (unfold zlen, buf; rewrite length_replicate; lia).
  clearbody buf. rewrite Hb, (proj2 (Z.ltb_ge _ _)) by (unfold SIG_CONTEXT_LEN; lia).
  change buf with ([] ++ buf) at 1. rewrite sub_copy_app; [|done|lia|lia]. cbn [mbind outcome_bind app].
  assert (Htail : zlen (drop (length inner) buf) = 2048 - zlen inner) by (unfold zlen in *; rewrite length_drop; lia).
  rewrite sub_tail. cbn [mbind outcome_bind]. rewrite signed_context_spec by (rewrite Htail; unfold SIG_CONTEXT_LEN; lia).
  cbn [mbind outcome_bind].
  assert (Hnew : zlen (context_bytes (env_counter e) ++ drop 14 (drop (length inner) buf)) = 2048 - zlen inner).
  { rewrite zlen_app, zlen_context. unfold zlen in *. rewrite !length_drop in *. unfold SIG_CONTEXT_LEN. lia. }
  rewrite sub_copy_app; [|done|rewrite zlen_app; lia|lia]. cbn [mbind outcome_bind].
  rewrite <- !app_assoc, (app_assoc inner).
  rewrite <- (app_nil_l ((inner ++ context_bytes (env_counter e)) ++ _)), sub_app; [done|done|].
  rewrite zlen_app, zlen_context. lia.
Qed.

Section Parsed.
Context (flags pk sg inner : list Z) (counter : Z).
Context (Hflags : length flags = 2%nat) (Hpk : zlen pk = PK_LEN) (Hsg : zlen sg = SIG_LEN).
Context (Hc : fits 64 counter) (Hin : zlen inner < 2 ^ 32).

Lemma zlen_env_bytes : zlen (env_bytes flags pk sg counter inner) = ENV_HEADER_LEN + zlen inner.
Proof.
  unfold PK_LEN, SIG_LEN in *. unfold env_bytes. rewrite !zlen_app, !zlen_le_bytes, Hpk, Hsg.
  replace (zlen flags) with 2 by (unfold zlen; lia). change (zlen ENV_MAGIC) with 4. unfold ENV_HEADER_LEN. lia.
Qed.

Lemma sub_env {E} a b c x y : env_bytes flags pk sg counter inner = x ++ c ++ y ->
  a = zlen x -> b = a + zlen c -> sub (E:=E) (env_bytes flags pk sg counter inner) a b = Ret c.
Proof. intros -> Ha Hb. by apply sub_app. Qed.

Lemma parse_env_bytes : parse_envelope (env_bytes flags pk sg counter inner) =
  Ret (mkEnvelope pk sg counter ENV_HEADER_LEN (zlen inner)).
Proof.
  assert (H2 : zlen flags = 2) by (unfold zlen; lia). unfold PK_LEN, SIG_LEN in *.
  unfold parse_envelope. rewrite zlen_env_bytes. pose proof (zlen_nonneg inner).
  rewrite (proj2 (Z.ltb_ge _ _)) by (unfold ENV_HEADER_LEN; lia).
  erewrite (sub_env 0 4 ENV_MAGIC []); [|reflexivity|done|done]. cbn [mbind outcome_bind]. rewrite bool_decide_true by done.
  cbn [negb]. replace (u16_at (env_bytes flags pk sg counter inner) 4) with (@Ret EnvError Z ENV_VERSION)
    by (unfold env_bytes; by rewrite u16_at_app).
  cbn [mbind outcome_bind]. change (ENV_VERSION =? ENV_VERSION) with true. cbn [negb].
  assert (E4 : env_bytes flags pk sg counter inner =
    (ENV_MAGIC ++ le_bytes 2 ENV_VERSION ++ flags ++ pk ++ sg ++ le_bytes 8 counter) ++ le_bytes 4 (zlen inner) ++ inner).
  { unfold env_bytes. rewrite wrap32_zlen by done. by rewrite <- !app_assoc. }
  replace (u32_at (env_bytes flags pk sg counter inner) 112) with (@Ret EnvError Z (zlen inner)).
  2: { rewrite E4, u32_at_app; [done|rewrite !zlen_app, !zlen_le_bytes, Hpk, Hsg, H2; done|split; lia]. }
  cbn [mbind outcome_bind]. unfold checked_add, ENV_HEADER_LEN in *. rewrite (proj2 (Z.ltb_lt _ _)) by lia.
  rewrite Z.eqb_refl. cbn [negb].
  erewrite (sub_env 8 40 pk (ENV_MAGIC ++ le_bytes 2 ENV_VERSION ++ flags));
    [|unfold env_bytes; rewrite <- !app_assoc; reflexivity|rewrite !zlen_app, zlen_le_bytes, H2; done|lia].
  cbn [mbind outcome_bind].
  erewrite (sub_env 40 104 sg (ENV_MAGIC ++ le_bytes 2 ENV_VERSION ++ flags ++ pk));
    [|unfold env_bytes; rewrite <- !app_assoc; reflexivity|rewrite !zlen_app, zlen_le_bytes, H2, Hpk; done|lia].
  cbn [mbind outcome_bind]. unfold u64le.
  erewrite (sub_env 104 (104 + 8) (le_bytes 8 counter) (ENV_MAGIC ++ le_bytes 2 ENV_VERSION ++ flags ++ pk ++ sg));
    [|unfold env_bytes; rewrite <- !app_assoc; reflexivity|rewrite !zlen_app, zlen_le_bytes, H2, Hpk, Hsg; done|done].
  cbn [mbind outcome_bind]. by rewrite (le_val_le_bytes 8).
Qed.

Lemma verify_env_bytes : zlen inner + SIG_CONTEXT_LEN <= 2048 ->
  verify_envelope_sig (env_bytes flags pk sg counter inner) (mkEnvelope pk sg counter ENV_HEADER_LEN (zlen inner)) =
  Ret (ed25519_verify pk sg (inner ++ context_bytes counter)).
Proof.
  intros Hfit. apply (verify_envelope_run _ (mkEnvelope pk sg counter ENV_HEADER_LEN (zlen inner)));
    [cbn [inner_offset inner_len]; rewrite zlen_env_bytes; lia| |done].
  apply (sub_env _ _ inner (ENV_MAGIC ++ le_bytes 2 ENV_VERSION ++ flags ++ pk ++ sg ++ le_bytes 8 counter ++
    le_bytes 4 (wrap 32 (zlen inner))) []); [unfold env_bytes; by rewrite app_nil_r, <- !app_assoc| |done].
  rewrite !zlen_app, !zlen_le_bytes, Hpk, Hsg. unfold zlen. rewrite Hflags. done.
Qed.
End Parsed.

(** Packing a signed envelope and parsing it gives back key, signature, counter and inner package, and
    the signature check is made over the inner package followed by the counter's context. *)
Theorem signed_envelope_roundtrip out pk sg c inner n out' :
  zlen pk = PK_LEN -> zlen sg = SIG_LEN -> fits 64 c -> zlen inner < 2 ^ 32 ->
  pack_envelope out pk sg c inner = Ret (Some n, out') ->
  exists env rest, out' = env ++ rest /\ zlen env = n /\
    parse_envelope env = Ret (mkEnvelope pk sg c ENV_HEADER_LEN (zlen inner)) /\
    sub (E:=Empty_set) env ENV_HEADER_LEN n = Ret inner /\
    (zlen inner + SIG_CONTEXT_LEN <= 2048 ->
     verify_envelope_sig env (mkEnvelope pk sg c ENV_HEADER_LEN (zlen inner)) =
       Ret (ed25519_verify pk sg (inner ++ context_bytes c))).
Proof.
  intros Hpk Hsg Hc Hin Hp. destruct (Z.ltb_spec (zlen out) (ENV_HEADER_LEN + zlen inner)) as [Hlt|Hge].
  { unfold pack_envelope in Hp. by rewrite (proj2 (Z.ltb_lt _ _)) in Hp. }
  rewrite pack_envelope_spec in Hp by done. injection Hp as <- <-.
  exists (env_bytes [0; 0] pk sg c inner). eexists. split; [reflexivity|].
  split; [by apply zlen_env_bytes|]. split; [by apply parse_env_bytes|]. split.
  - erewrite (sub_env [0; 0] pk sg inner c ENV_HEADER_LEN _ inner (ENV_MAGIC ++ le_bytes 2 ENV_VERSION ++ [0; 0] ++ pk ++ sg ++ le_bytes 8 c ++
      le_bytes 4 (wrap 32 (zlen inner))) []); [done| | |done].
    + unfold env_bytes. by rewrite app_nil_r, <- !app_assoc.
    + rewrite !zlen_app, !zlen_le_bytes, Hpk, Hsg. done.
  - intros Hfit. by apply verify_env_bytes.
Qed.

(** ** What an accepted envelope proves *)

Lemma find_key_spec pk store i j : find_key pk store i = Some j ->
  exists k, store !! (j - i)%nat = Some k /\ (i <= j)%nat /\ tk_used k = true /\ tk_pk k = pk.
Proof.
  revert i. induction store as [|k store IH]; intros i Hf; [done|]. cbn in Hf.
  destruct (tk_used k && bool_decide (tk_pk k = pk)) eqn:E.
  - injection Hf as <-. exists k. rewrite Nat.sub_diag. apply andb_true_iff in E as [? ?%bool_decide_eq_true]. done.
  - destruct (IH _ Hf) as (k' & Hk & Hle & ? & ?). exists k'. split; [|by split; [lia|]].
    by replace (j - i)%nat with (S (j - S i))%nat by lia.
Qed.

Lemma verify_envelope_message env e :
  verify_envelope_sig env e = Ret true ->
  exists inner, sub (E:=Empty_set) env (inner_offset e) (inner_offset e + inner_len e) = Ret inner /\
    ed25519_verify (signer_pk e) (signature e) (inner ++ context_bytes (env_counter e)) = true.
Proof.
  intros Hv. pose proof Hv as Hv0. unfold verify_envelope_sig in Hv.
  destruct (Z.ltb_spec (zlen env) (inner_offset e + inner_len e)); [done|].
  destruct (sub (E:=Empty_set) env _ _) as [inner| |] eqn:Hs; cbn [mbind outcome_bind] in Hv; [|done..].
  exists inner. split; [done|].
  destruct (Z.ltb_spec (zlen (replicate (Z.to_nat 2048) 0)) (zlen inner + SIG_CONTEXT_LEN)) as [|Hfit]; [done|].
  unfold zlen at 2 in Hfit. rewrite length_replicate in Hfit.
  rewrite (verify_envelope_run env e inner) in Hv0 by (done || lia). congruence.
Qed.

Lemma parse_envelope_offsets env e : parse_envelope env = Ret e ->
  inner_offset e = ENV_HEADER_LEN /\ inner_offset e + inner_len e = zlen env.
Proof.
  intros Hp. unfold parse_envelope in Hp. destruct (zlen env <? _); [done|].
  destruct (sub env 0 4); cbn [mbind outcome_bind] in Hp; [|done..]. destruct (negb _) in Hp; [done|].
  destruct (u16_at env 4); cbn [mbind outcome_bind] in Hp; [|done..]. destruct (negb _) in Hp; [done|].
  destruct (u32_at env 112) as [n| |]; cbn [mbind outcome_bind] in Hp; [|done..].
  unfold checked_add in Hp. destruct (_ <? 2 ^ 64); [|done].
  destruct (Z.eqb_spec (zlen env) (ENV_HEADER_LEN + n)); cbn [negb] in Hp; [|done].
  destruct (sub env 8 40); cbn [mbind outcome_bind] in Hp; [|done..].
  destruct (sub env 40 104); cbn [mbind outcome_bind] in Hp; [|done..].
  destruct (u64le env 104); cbn [mbind outcome_bind] in Hp; [|done..]. by injection Hp as <-.
Qed.

(** An envelope the signing gate grants was signed by a trusted, unrevoked key over exactly its inner
    package and counter, its package parses, and the grant stays within that key's ceiling. *)
Theorem accepted_envelope_was_signed (signed : list Z -> list Z -> Prop) store env granted beyond :
  (forall pk sg msg, ed25519_verify pk sg msg = true -> signed pk msg) ->
  sig_gate store env = Ret (SigGranted granted beyond) ->
  exists k inner counter pkg, k ∈ store /\ tk_used k = true /\ tk_revoked k = false /\
    signed (tk_pk k) (inner ++ context_bytes counter) /\
    sub (E:=Empty_set) env ENV_HEADER_LEN (zlen env) = Ret inner /\ Dzp.parse inner = Ret pkg /\
    subset_bits granted (tk_ceiling k) /\
    (forall inner' counter', fits 64 counter -> fits 64 counter' ->
       inner ++ context_bytes counter = inner' ++ context_bytes counter' -> inner = inner' /\ counter = counter').
Proof.
  intros Hsound Hg. unfold sig_gate in Hg. destruct (is_signed env); cbn [negb] in Hg; [|done].
  destruct (parse_envelope env) as [e| |] eqn:Hp; [|done..].
  assert (He : inner_offset e = ENV_HEADER_LEN /\ inner_offset e + inner_len e = zlen env).
  { by apply parse_envelope_offsets. }
  destruct He as [He1 He2]. destruct (trust_lookup (signer_pk e) store) as [ki|] eqn:Hk; [|done].
  apply find_key_spec in Hk as (k & Hk & _ & Hu & Hpk). rewrite Nat.sub_0_r in Hk.
  rewrite (index_lookup _ _ k) in Hg by (rewrite ?Nat2Z.id; done || lia). cbn [mbind outcome_bind] in Hg.
  destruct (tk_revoked k) eqn:Hr; [done|].
  destruct (verify_envelope_sig env e) as [[]| |] eqn:Hv; cbn [mbind outcome_bind negb] in Hg; [|done..].
  destruct (verify_envelope_message env e Hv) as (inner & Hs & Hver). rewrite Hs in Hg. cbn [mbind outcome_bind] in Hg.
  destruct (Dzp.parse inner) as [pkg| |] eqn:Hd; [|done..]. injection Hg as <- <-.
  exists k, inner, (env_counter e), pkg. rewrite <- Hpk in Hver. rewrite He2, He1 in Hs.
  split; [by eapply list_elem_of_lookup_2|]. split; [done|]. split; [done|]. split; [by eapply Hsound|].
  split; [done|]. split; [done|]. split; [apply subset_bits_land_r|]. intros. by apply signed_message_injective.
Qed.
End Crypto.

(** ** Witnesses: a verifier that accepts one message *)

Definition demo_pk : list Z := replicate 32 5.
Definition demo_sg : list Z := replicate 64 7.
Definition demo_msg : list Z := demo_image ++ context_bytes 3.
Definition demo_verifier (pk sg msg : list Z) : bool := bool_decide (pk = demo_pk /\ sg = demo_sg /\ msg = demo_msg).
Definition demo_env : list Z := Eval vm_compute in env_bytes [0; 0] demo_pk demo_sg 3 demo_image.
Definition demo_store : list TrustedKey := [EMPTY_KEY; mkKey true demo_pk 9 false].

Lemma signed_envelope_roundtrip_witness :
  exists env rest, pack_envelope (replicate 200 0) demo_pk demo_sg 3 demo_image = Ret (Some 148, env ++ rest) /\
    parse_envelope env = Ret (mkEnvelope demo_pk demo_sg 3 ENV_HEADER_LEN (zlen demo_image)).
Proof.
  destruct (signed_envelope_roundtrip demo_verifier (replicate 200 0) demo_pk demo_sg 3 demo_image 148
    (demo_env ++ replicate 52 0)) as (env & rest & E & _ & Hp & _); [done|done|by vm_compute|by vm_compute|by vm_compute|].
  exists env, rest. split; [|exact Hp]. rewrite <- E. by vm_compute.
Defined.

Lemma accepted_envelope_was_signed_witness :
  sig_gate demo_verifier demo_store demo_env = Ret (SigGranted 0 0) /\
  exists k inner counter pkg, k ∈ demo_store /\ tk_used k = true /\ tk_revoked k = false /\
    (tk_pk k = demo_pk /\ inner ++ context_bytes counter = demo_msg) /\
    sub (E:=Empty_set) demo_env ENV_HEADER_LEN (zlen demo_env) = Ret inner /\ Dzp.parse inner = Ret pkg /\
    subset_bits 0 (tk_ceiling k).
Proof.
  assert (Hg : sig_gate demo_verifier demo_store demo_env = Ret (SigGranted 0 0)) by by vm_compute.
  split; [exact Hg|].
  destruct (accepted_envelope_was_signed demo_verifier (fun pk msg => pk = demo_pk /\ msg = demo_msg) demo_store demo_env 0 0)
    as (k & inner & c & pkg & H1 & H2 & H3 & H4 & H5 & H6 & H7 & _); [|exact Hg|].
  - intros pk sg msg H. unfold demo_verifier in H. apply bool_decide_eq_true in H. tauto.
  - exists k, inner, c, pkg. exact (conj H1 (conj H2 (conj H3 (conj H4 (conj H5 (conj H6 H7)))))).
Defined.
