(* ===== verification/Pkg.v ===== *)
(** * The package store (dezh-boot/src/pkg.rs)

    Packages live in eight slots of the disk: a registry entry of 128 bytes, an
    active blob, the previous version's blob and a staging blob.  Every change
    goes through a journal record, and every sector access through the block
    service, a class here ([SectorService]) because the store only sees the
    status of a request and the data window.

    The module's statics are the fields of [Kern]; an operation is a state
    transformer that returns what the console reports, or nothing when the code
    panics or waits for input that never comes. *)

From Stdlib Require Import ZArith Lia String.
From stdpp Require Import base option strings numbers list.
From S2P Require Import Prelude Text B64 Dzp Ir Mcap.

(** ** Layout *)

Definition SECTOR_SIZE : nat := 512.
Definition STAGE_SIZE : Z := 64 * 1024.
Definition ARENA_SIZE : Z := 128 * 1024.
Definition MAX_PKGS : nat := 8.
Definition NAME_MAX : Z := 24.
Definition VER_MAX : Z := 12.
Definition ENTRY_SIZE : nat := 128.
Definition REGISTRY_SIZE : nat := 1024.
Definition JOURNAL_SECTORS : nat := 8.
Definition JOURNAL_SIZE : nat := 4096.

Definition STATE_EMPTY : Z := 0.
Definition STATE_ACTIVE : Z := 1.
Definition STATE_REMOVED : Z := 2.
Definition STATE_CORRUPT : Z := 3.
Definition STATE_PENDING_INSTALL : Z := 4.
Definition STATE_PENDING_REMOVE : Z := 5.
Definition STATE_QUARANTINED : Z := 6.

Definition PKG_STORE_MARKER_SECTOR : Z := 24.
Definition PKG_REGISTRY_SECTOR : Z := 25.
Definition PKG_REGISTRY_SECTORS_USED : nat := 2.
Definition PKG_JOURNAL_SECTOR : Z := 32.
Definition PKG_BLOB_FIRST_SECTOR : Z := 64.
Definition PKG_PREVIOUS_FIRST_SECTOR : Z := 576.
Definition PKG_STAGE_FIRST_SECTOR : Z := 1088.
Definition PKG_SLOT_SECTORS : nat := 64.
Definition PKG_MAX_RAW_BYTES : Z := 64 * 512.

Definition REG_MAGIC : list Z := [0x44; 0x50; 0x4B; 0x47].
Definition JOURNAL_MAGIC : list Z := [0x44; 0x50; 0x4A; 0x30].
Definition JOURNAL_VERSION : Z := 1.
Definition JOURNAL_OP_INSTALL : Z := 1.
Definition JOURNAL_OP_REMOVE : Z := 2.
Definition JOURNAL_OP_REPLACE : Z := 3.
Definition JOURNAL_OP_ROLLBACK : Z := 4.
Definition JOURNAL_PHASE_STARTED : Z := 1.
Definition JOURNAL_PHASE_BLOB_WRITTEN : Z := 2.
Definition JOURNAL_PHASE_REGISTRY_PENDING : Z := 3.

Definition ENTRY_FLAG_PINNED : Z := 1.
Definition ENTRY_FLAG_PREVIOUS_VALID : Z := 2.

(** Requests of the block service (abi.rs). *)
Definition BLK_REQ_PKG_STORE_INIT : Z := 35.
Definition BLK_REQ_PKG_REGISTRY_READ : Z := 36.
Definition BLK_REQ_PKG_REGISTRY_WRITE : Z := 37.
Definition BLK_REQ_PKG_BLOB_READ : Z := 38.
Definition BLK_REQ_PKG_BLOB_WRITE : Z := 39.
Definition BLK_REQ_PKG_JOURNAL_READ : Z := 40.
Definition BLK_REQ_PKG_JOURNAL_WRITE : Z := 41.
Definition SERVICE_OK : Z := 0.

(** ** Byte arrays

    An array is a list of bytes; [put] overwrites a window that the layout
    keeps inside it. *)

Definition byte_at (l : list Z) (o : nat) : Z := default 0 (l !! o).
Definition put (l : list Z) (o : nat) (v : list Z) : list Z := update_slice l o v.
Definition put_u16 (l : list Z) (o : nat) (v : Z) : list Z := put l o (le_bytes 2 v).
Definition put_u32 (l : list Z) (o : nat) (v : Z) : list Z := put l o (le_bytes 4 (wrap 32 v)).
Definition get_u16 (l : list Z) (o : nat) : Z := le_val (slice l o 2).
Definition get_u32 (l : list Z) (o : nat) : Z := le_val (slice l o 4).

Definition checksum (buf : list Z) : Z := crc32 [buf].

Definition slot_blob_sector (slot : nat) : Z := PKG_BLOB_FIRST_SECTOR + Z.of_nat (slot * PKG_SLOT_SECTORS).
Definition previous_blob_sector (slot : nat) : Z := PKG_PREVIOUS_FIRST_SECTOR + Z.of_nat (slot * PKG_SLOT_SECTORS).
Definition stage_blob_sector (slot : nat) : Z := PKG_STAGE_FIRST_SECTOR + Z.of_nat (slot * PKG_SLOT_SECTORS).

Definition div_ceil (n : Z) : Z := (n + 511) / 512.

(** [name.len()] *)
Definition slen (s : str) : Z := zlen (utf8_encode s).

(** ** Records *)

(** A name or version field is the byte prefix its length selects; the rest of
    the array is zero. *)
Record PkgEntry := mkPkg {
  pe_used : bool; pe_slot : nat; pe_name : list Z; pe_version : list Z; pe_kind : Z; pe_mcaps : Z;
  pe_raw_len : Z; pe_raw_crc : Z; pe_off : Z; pe_len : Z }.

Definition EMPTY_PKG : PkgEntry := mkPkg false 0 [] [] 0 0 0 0 0 0.

Record JournalRecord := mkJournal {
  j_op : Z; j_phase : Z; j_slot : nat; j_old_state : Z; j_new_state : Z; j_mcaps : Z; j_raw_len : Z; j_raw_crc : Z;
  j_blob_start : Z; j_blob_count : Z; j_before_crc : Z; j_after_crc : Z; j_name : list Z; j_version : list Z }.

Inductive JournalFault := BadMagic | BadVersion | ChecksumMismatch | FieldOutOfRange.
Inductive JournalState := JEmpty | JValid (rec : JournalRecord) | JCorrupt (why : JournalFault).

(** [core::str::from_utf8(..).unwrap_or("<bad>")] *)
Definition text_or (dflt : str) (bs : list Z) : str := default dflt (utf8_decode bs).
Definition pe_name_str (e : PkgEntry) : str := text_or (lit "<bad>") (pe_name e).
Definition pe_version_str (e : PkgEntry) : str := text_or (lit "<bad>") (pe_version e).
Definition j_name_str (r : JournalRecord) : str := text_or (lit "<bad>") (j_name r).
Definition j_version_str (r : JournalRecord) : str := text_or (lit "<bad>") (j_version r).

(** ** Registry entries *)

Definition entry_off (slot : nat) : nat := slot * ENTRY_SIZE.
Definition entry_state (reg : list Z) (slot : nat) : Z := byte_at reg (entry_off slot).

Definition text_field (reg : list Z) (len off : nat) (max : Z) : str :=
  let n := byte_at reg len in
  if (n =? 0) || (max <? n) then [] else text_or [] (slice reg off (Z.to_nat n)).

Definition entry_name (reg : list Z) (slot : nat) : str :=
  text_field reg (entry_off slot + 32) (entry_off slot + 40) NAME_MAX.
Definition entry_version (reg : list Z) (slot : nat) : str :=
  text_field reg (entry_off slot + 33) (entry_off slot + 64) VER_MAX.
Definition entry_flags (reg : list Z) (slot : nat) : Z := get_u32 reg (entry_off slot + 28).
Definition set_flags (reg : list Z) (slot : nat) (flags : Z) : list Z := put_u32 reg (entry_off slot + 28) flags.
Definition entry_is_pinned (reg : list Z) (slot : nat) : bool := negb (entry_flags reg slot & ENTRY_FLAG_PINNED =? 0).
Definition entry_previous_valid (reg : list Z) (slot : nat) : bool :=
  negb (entry_flags reg slot & ENTRY_FLAG_PREVIOUS_VALID =? 0).
Definition entry_previous_version (reg : list Z) (slot : nat) : str :=
  text_field reg (entry_off slot + 80) (entry_off slot + 104) VER_MAX.

Definition with_state (reg : list Z) (slot : nat) (state : Z) : list Z := put reg (entry_off slot) [state].
Definition without_slot (reg : list Z) (slot : nat) : list Z := put reg (entry_off slot) (replicate ENTRY_SIZE 0).

Definition encode_entry (reg : list Z) (slot : nat) (state : Z) (name version : str) (kind mcaps raw_len raw_crc : Z)
  : list Z :=
  let e := entry_off slot in
  let reg := without_slot reg slot in
  let reg := put reg e [state] in
  let reg := put reg (e + 1) REG_MAGIC in
  let reg := put reg (e + 5) [Z.of_nat slot] in
  let reg := put_u16 reg (e + 6) kind in
  let reg := put_u32 reg (e + 8) mcaps in
  let reg := put_u32 reg (e + 12) raw_len in
  let reg := put_u32 reg (e + 16) raw_crc in
  let reg := put_u32 reg (e + 20) (slot_blob_sector slot) in
  let reg := put_u32 reg (e + 24) (Z.of_nat PKG_SLOT_SECTORS) in
  let reg := put reg (e + 32) [wrap 8 (slen name)] in
  let reg := put reg (e + 33) [wrap 8 (slen version)] in
  let reg := put reg (e + 40) (utf8_encode name) in
  put reg (e + 64) (utf8_encode version).

Definition encode_previous (reg : list Z) (slot : nat) (version : str) (kind mcaps raw_len raw_crc : Z) : list Z :=
  let e := entry_off slot in
  let reg := put_u32 reg (e + 28) (get_u32 reg (e + 28) .| ENTRY_FLAG_PREVIOUS_VALID) in
  let reg := put reg (e + 80) [wrap 8 (slen version)] in
  let reg := put_u16 reg (e + 82) kind in
  let reg := put_u32 reg (e + 84) mcaps in
  let reg := put_u32 reg (e + 88) raw_len in
  let reg := put_u32 reg (e + 92) raw_crc in
  let reg := put_u32 reg (e + 96) (previous_blob_sector slot) in
  let reg := put_u32 reg (e + 100) (Z.of_nat PKG_SLOT_SECTORS) in
  let reg := put reg (e + 104) (replicate 12 0) in
  put reg (e + 104) (utf8_encode version).

Definition slots : list nat := seq 0 MAX_PKGS.

(** [registry_slot_for]: the slot that has the name, or the first removed one,
    or the first empty one. *)
Fixpoint slot_for (reg : list Z) (name : str) (todo : list nat) (removed empty : option nat) : option nat :=
  match todo with
  | [] => match removed with Some s => Some s | None => empty end
  | slot :: todo =>
    let state := entry_state reg slot in
    if negb (state =? STATE_EMPTY) && str_eqb (entry_name reg slot) name then Some slot else
    let removed := if (state =? STATE_REMOVED) && bool_decide (removed = None) then Some slot else removed in
    let empty := if (state =? STATE_EMPTY) && bool_decide (empty = None) then Some slot else empty in
    slot_for reg name todo removed empty
  end.
Definition registry_slot_for (reg : list Z) (name : str) : option nat := slot_for reg name slots None None.

Definition find_registry_slot (reg : list Z) (name : str) : option nat :=
  find (fun slot => negb (entry_state reg slot =? STATE_EMPTY) && str_eqb (entry_name reg slot) name) slots.

Definition quarantine_pending (reg : list Z) : list Z :=
  foldl (fun reg slot =>
    let state := entry_state reg slot in
    if (state =? STATE_PENDING_INSTALL) || (state =? STATE_PENDING_REMOVE)
    then with_state reg slot STATE_QUARANTINED else reg) reg slots.

Definition rollback_slot (reg : list Z) (rec : JournalRecord) : list Z :=
  if j_old_state rec =? STATE_EMPTY then without_slot reg (j_slot rec)
  else with_state reg (j_slot rec) (j_old_state rec).

(** ** The journal *)

Definition decode_journal (raw : list Z) : JournalState :=
  if forallb (Z.eqb 0) raw then JEmpty else
  if negb (bool_decide (slice raw 0 4 = JOURNAL_MAGIC)) then JCorrupt BadMagic else
  if negb (byte_at raw 4 =? JOURNAL_VERSION) then JCorrupt BadVersion else
  let stored := get_u32 raw 52 in
  let tmp := put_u32 raw 52 0 in
  if negb (checksum tmp =? stored) then JCorrupt ChecksumMismatch else
  let slot := get_u32 raw 12 in
  let name_len := byte_at raw 56 in
  let version_len := byte_at raw 57 in
  if (Z.of_nat MAX_PKGS <=? slot) || (NAME_MAX <? name_len) || (VER_MAX <? version_len)
  then JCorrupt FieldOutOfRange else
  JValid (mkJournal (byte_at raw 5) (byte_at raw 6) (Z.to_nat slot) (byte_at raw 16) (byte_at raw 17)
    (get_u32 raw 24) (get_u32 raw 28) (get_u32 raw 32) (get_u32 raw 36) (get_u32 raw 40) (get_u32 raw 44)
    (get_u32 raw 48) (slice raw 64 (Z.to_nat name_len)) (slice raw 88 (Z.to_nat version_len))).

Definition journal_body (rec : JournalRecord) : list Z :=
  let raw := replicate JOURNAL_SIZE 0 in
  let raw := put raw 0 JOURNAL_MAGIC in
  let raw := put raw 4 [JOURNAL_VERSION] in
  let raw := put raw 5 [j_op rec] in
  let raw := put raw 6 [j_phase rec] in
  let raw := put_u32 raw 8 1 in
  let raw := put_u32 raw 12 (Z.of_nat (j_slot rec)) in
  let raw := put raw 16 [j_old_state rec] in
  let raw := put raw 17 [j_new_state rec] in
  let raw := put_u32 raw 24 (j_mcaps rec) in
  let raw := put_u32 raw 28 (j_raw_len rec) in
  let raw := put_u32 raw 32 (j_raw_crc rec) in
  let raw := put_u32 raw 36 (j_blob_start rec) in
  let raw := put_u32 raw 40 (j_blob_count rec) in
  let raw := put_u32 raw 44 (j_before_crc rec) in
  let raw := put_u32 raw 48 (j_after_crc rec) in
  let raw := put raw 56 [zlen (j_name rec)] in
  let raw := put raw 57 [zlen (j_version rec)] in
  let raw := put raw 64 (j_name rec) in
  put raw 88 (j_version rec).

Definition encode_journal (rec : JournalRecord) : list Z :=
  let raw := journal_body rec in put_u32 raw 52 (checksum raw).

(** [journal_record]; copying a name or version longer than its field panics. *)
Definition journal_record (op phase : Z) (slot : nat) (old_state new_state : Z) (name version : str)
    (mcaps raw_len raw_crc before_crc after_crc : Z) : option JournalRecord :=
  if (NAME_MAX <? slen name) || (VER_MAX <? slen version) then None else
  Some (mkJournal op phase slot old_state new_state mcaps raw_len raw_crc (slot_blob_sector slot) (div_ceil raw_len)
    before_crc after_crc (utf8_encode name) (utf8_encode version)).

Definition with_phase (rec : JournalRecord) (phase after_crc : Z) : JournalRecord :=
  mkJournal (j_op rec) phase (j_slot rec) (j_old_state rec) (j_new_state rec) (j_mcaps rec) (j_raw_len rec)
    (j_raw_crc rec) (j_blob_start rec) (j_blob_count rec) (j_before_crc rec) after_crc (j_name rec) (j_version rec).

(** ** What a package image says *)

(** [verify_payload]: [Trap] is a refusal. *)
Definition verify_payload (pkg : Package) : outcome unit unit :=
  if pkg_kind pkg =? KIND_DEZH_IR then
    match Ir.verify (pkg_payload pkg) with Ret _ => Ret tt | Trap _ => Trap tt | Panic => Panic end
  else if pkg_kind pkg =? KIND_ELF_RISCV64 then
    let p := pkg_payload pkg in
    if (20 <? zlen p) && bool_decide (slice p 0 4 = [0x7f; 0x45; 0x4c; 0x46]) && (get_u16 p 18 =? 243)
    then Ret tt else Trap tt
  else Trap tt.

Definition manifest_version (pkg : Package) : str := default (lit "0.0.0") (manifest_str (pkg_manifest pkg) (lit "version")).

(** ** The block service and the module's state *)

Class SectorService (W : Type) := {
  sv_request : Z -> Z -> option (list Z) -> W -> Z * W;
  sv_window : W -> list Z }.

(** An entry of the event log (audit.rs keeps the last 32 of them). *)
Record Audited := mkAudited { au_actor : str; au_action : str; au_target : str; au_result : str }.

Record Kern (W : Type) := mkKern {
  k_stage : list Z; k_arena : list Z; k_used : Z; k_pkgs : list PkgEntry; k_loaded : bool; k_degraded : bool;
  k_reg : list Z; k_audit : list Audited; k_world : W }.
Arguments mkKern {W}.
Arguments k_stage {W}.
Arguments k_arena {W}.
Arguments k_used {W}.
Arguments k_pkgs {W}.
Arguments k_loaded {W}.
Arguments k_degraded {W}.
Arguments k_reg {W}.
Arguments k_audit {W}.
Arguments k_world {W}.

(** The statics at boot. *)
Definition boot {W} (w : W) : Kern W :=
  mkKern (replicate (Z.to_nat STAGE_SIZE) 0) (replicate (Z.to_nat ARENA_SIZE) 0) 0 (replicate MAX_PKGS EMPTY_PKG)
    false false (replicate REGISTRY_SIZE 0) [] w.

Definition KM (W A : Type) : Type := Kern W -> option (A * Kern W).
#[export] Instance KM_ret W : MRet (KM W) := fun A a k => Some (a, k).
#[export] Instance KM_bind W : MBind (KM W) := fun A B f m k =>
  match m k with Some (a, k) => f a k | None => None end.

(** What the console is told. *)
Inductive Reply :=
| StoreUnavailable | UploadAborted | UploadBad | SizeRejected | ImageRejected (e : DzpError) | NoName | LengthRejected
| CapsRejected (why : str) | PayloadRejected | RegistryFull | SlotBlocked (state : Z) | AlreadyInstalled | AlreadyActive
| NoSuchPackage | NotActive (state : Z) | Pinned | NameMismatch | ReviewRequired (added : Z) | NoPrevious
| JournalFailed | BlobFailed | VerifyFailed | PendingFailed | PromoteFailed | CommitFailed
| JournalBusy | WipeFailed (slot : nat) | NothingToDo | Usage | Recovered | NotRecovered
| ArenaFull | Done.

Section Store.
Context {W : Type} `{SectorService W}.

Definition gets {A} (f : Kern W -> A) : KM W A := fun k => Some (f k, k).
Definition panic {A} : KM W A := fun _ => None.
Definition lift {A} (o : option A) : KM W A := match o with Some a => mret a | None => panic end.
Definition outcome_of {E A} (o : outcome E A) : KM W (result E A) :=
  match o with Ret a => mret (Ok a) | Trap e => mret (Err e) | Panic => panic end.

Definition set_stage (st : list Z) : KM W unit := fun k => Some (tt,
  mkKern st (k_arena k) (k_used k) (k_pkgs k) (k_loaded k) (k_degraded k) (k_reg k) (k_audit k) (k_world k)).
Definition set_arena (a : list Z) (used : Z) : KM W unit := fun k => Some (tt,
  mkKern (k_stage k) a used (k_pkgs k) (k_loaded k) (k_degraded k) (k_reg k) (k_audit k) (k_world k)).
Definition set_pkgs (p : list PkgEntry) : KM W unit := fun k => Some (tt,
  mkKern (k_stage k) (k_arena k) (k_used k) p (k_loaded k) (k_degraded k) (k_reg k) (k_audit k) (k_world k)).
Definition set_loaded (b : bool) : KM W unit := fun k => Some (tt,
  mkKern (k_stage k) (k_arena k) (k_used k) (k_pkgs k) b (k_degraded k) (k_reg k) (k_audit k) (k_world k)).
Definition put_degraded (b : bool) : KM W unit := fun k => Some (tt,
  mkKern (k_stage k) (k_arena k) (k_used k) (k_pkgs k) (k_loaded k) b (k_reg k) (k_audit k) (k_world k)).
Definition set_reg (r : list Z) : KM W unit := fun k => Some (tt,
  mkKern (k_stage k) (k_arena k) (k_used k) (k_pkgs k) (k_loaded k) (k_degraded k) r (k_audit k) (k_world k)).
Definition set_world (w : W) : KM W unit := fun k => Some (tt,
  mkKern (k_stage k) (k_arena k) (k_used k) (k_pkgs k) (k_loaded k) (k_degraded k) (k_reg k) (k_audit k) w).
Definition audit (actor action target result : string) : KM W unit := fun k => Some (tt,
  mkKern (k_stage k) (k_arena k) (k_used k) (k_pkgs k) (k_loaded k) (k_degraded k) (k_reg k)
    (k_audit k ++ [mkAudited (lit actor) (lit action) (lit target) (lit result)]) (k_world k)).

(** [a && b] and [!a || !b] on fallible steps: the second runs only when the
    first succeeded. *)
Definition and_then (a b : KM W bool) : KM W bool := ok ← a; if ok : bool then b else mret false.

Definition modify_pkgs (f : list PkgEntry -> list PkgEntry) : KM W unit := p ← gets k_pkgs; set_pkgs (f p).

Definition clear_runtime_registry : KM W unit :=
  set_pkgs (replicate MAX_PKGS EMPTY_PKG) ;; a ← gets k_arena; set_arena a 0.
Definition invalidate_loaded : KM W unit := set_loaded false.
Definition set_degraded (v : bool) : KM W unit :=
  put_degraded v ;; if v then set_loaded false ;; clear_runtime_registry else mret tt.

Definition set_entry_flags (slot : nat) (flags : Z) : KM W unit :=
  reg ← gets k_reg; set_reg (set_flags reg slot flags).
Definition set_entry_state (slot : nat) (state : Z) : KM W unit :=
  reg ← gets k_reg; set_reg (with_state reg slot state).
Definition clear_registry_slot (slot : nat) : KM W unit :=
  reg ← gets k_reg; set_reg (without_slot reg slot).

(** Every caller has made the journal record before, so the lengths fit. *)
Definition encode_registry_entry (slot : nat) (state : Z) (name version : str) (kind mcaps raw_len raw_crc : Z)
  : KM W unit :=
  reg ← gets k_reg; set_reg (encode_entry reg slot state name version kind mcaps raw_len raw_crc).
Definition encode_previous_metadata (slot : nat) (version : str) (kind mcaps raw_len raw_crc : Z) : KM W unit :=
  reg ← gets k_reg; set_reg (encode_previous reg slot version kind mcaps raw_len raw_crc).

(** *** Sectors *)

Definition sector_status (req sector : Z) (input : option (list Z)) : KM W Z :=
  w ← gets k_world;
  let '(st, w) := sv_request req sector input w in
  set_world w ;; mret st.

Definition read_sector (req sector : Z) : KM W (option (list Z)) :=
  st ← sector_status req sector None;
  if negb (st =? SERVICE_OK) then mret None else
  w ← gets k_world; mret (Some (sv_window w)).

Definition write_sector (req sector : Z) (data : list Z) : KM W bool :=
  st ← sector_status req sector (Some data); mret (st =? SERVICE_OK).

(** Consecutive sectors read into one array. *)
Fixpoint read_sectors (req sector : Z) (n : nat) : KM W (option (list Z)) :=
  match n with
  | O => mret (Some [])
  | S n =>
    s ← read_sector req sector;
    match s with
    | None => mret None
    | Some s => rest ← read_sectors req (sector + 1) n;
      mret (match rest with Some rest => Some (s ++ rest) | None => None end)
    end
  end.

(** An array written to consecutive sectors, the last piece possibly short. *)
Fixpoint write_sectors (req sector : Z) (n : nat) (raw : list Z) : KM W bool :=
  match n with
  | O => mret true
  | S n =>
    and_then (write_sector req sector (take SECTOR_SIZE raw))
      (write_sectors req (sector + 1) n (drop SECTOR_SIZE raw))
  end.

Definition read_registry : KM W bool :=
  tmp ← read_sectors BLK_REQ_PKG_REGISTRY_READ PKG_REGISTRY_SECTOR PKG_REGISTRY_SECTORS_USED;
  match tmp with Some tmp => set_reg tmp ;; mret true | None => mret false end.

Definition write_registry : KM W bool :=
  reg ← gets k_reg;
  write_sectors BLK_REQ_PKG_REGISTRY_WRITE PKG_REGISTRY_SECTOR PKG_REGISTRY_SECTORS_USED reg.

Definition init_store_marker : KM W bool :=
  st ← sector_status BLK_REQ_PKG_STORE_INIT PKG_STORE_MARKER_SECTOR None; mret (st =? SERVICE_OK).

Definition read_journal_raw : KM W (option (list Z)) :=
  read_sectors BLK_REQ_PKG_JOURNAL_READ PKG_JOURNAL_SECTOR JOURNAL_SECTORS.

Definition write_journal_raw (raw : list Z) : KM W bool :=
  write_sectors BLK_REQ_PKG_JOURNAL_WRITE PKG_JOURNAL_SECTOR JOURNAL_SECTORS raw.

Definition clear_journal : KM W bool := write_journal_raw (replicate JOURNAL_SIZE 0).

Definition write_journal (rec : JournalRecord) : KM W bool := write_journal_raw (encode_journal rec).

(** The commit sequence every transaction ends with. *)
Definition commit_store : KM W bool :=
  and_then write_registry (and_then init_store_marker clear_journal).

(** *** Blobs *)

Definition write_blob_at (base : Z) (raw : list Z) : KM W bool :=
  write_sectors BLK_REQ_PKG_BLOB_WRITE base (Z.to_nat (div_ceil (zlen raw))) raw.
Definition write_blob (slot : nat) (raw : list Z) : KM W bool := write_blob_at (slot_blob_sector slot) raw.
Definition write_stage_blob (slot : nat) (raw : list Z) : KM W bool := write_blob_at (stage_blob_sector slot) raw.

Definition zero_blob_area (base : Z) : KM W bool :=
  write_sectors BLK_REQ_PKG_BLOB_WRITE base PKG_SLOT_SECTORS (replicate (PKG_SLOT_SECTORS * SECTOR_SIZE) 0).
Definition zero_blob_slot (slot : nat) : KM W bool := zero_blob_area (slot_blob_sector slot).

(** Each sector lands in [STAGE] as it is read. *)
Fixpoint read_blob_sectors (n : nat) (sector : Z) (start raw_len : nat) : KM W bool :=
  match n with
  | O => mret true
  | S n =>
    s ← read_sector BLK_REQ_PKG_BLOB_READ sector;
    match s with
    | None => mret false
    | Some tmp =>
      let fin := Nat.min (start + SECTOR_SIZE) raw_len in
      stage ← gets k_stage;
      set_stage (put stage start (take (fin - start) tmp)) ;;
      read_blob_sectors n (sector + 1) (start + SECTOR_SIZE) raw_len
    end
  end.

Definition read_blob_area_into_stage (base raw_len : Z) : KM W bool :=
  if (STAGE_SIZE <? raw_len) || (PKG_MAX_RAW_BYTES <? raw_len) then mret false else
  read_blob_sectors (Z.to_nat (div_ceil raw_len)) base 0 (Z.to_nat raw_len).
Definition read_blob_into_stage (slot : nat) (raw_len : Z) : KM W bool :=
  read_blob_area_into_stage (slot_blob_sector slot) raw_len.
Definition read_previous_blob_into_stage (slot : nat) (raw_len : Z) : KM W bool :=
  read_blob_area_into_stage (previous_blob_sector slot) raw_len.

(** [&STAGE[..n]] *)
Definition staged_bytes (n : Z) : KM W (list Z) :=
  stage ← gets k_stage; if zlen stage <? n then panic else mret (take (Z.to_nat n) stage).

Definition copy_blob_area (from to raw_len : Z) : KM W bool :=
  if (raw_len =? 0) || (PKG_MAX_RAW_BYTES <? raw_len) then mret false else
  ok ← read_blob_area_into_stage from raw_len;
  if negb ok then mret false else
  bytes ← staged_bytes raw_len;
  write_blob_at to bytes.

(** Does the image [bytes] carry the package [rec] describes? *)
Definition image_matches (rec : JournalRecord) (bytes : list Z) : KM W bool :=
  if negb (checksum bytes =? j_raw_crc rec) then mret false else
  p ← outcome_of (Dzp.parse bytes);
  match p with
  | Err _ => mret false
  | Ok pkg =>
    v ← outcome_of (verify_payload pkg);
    if negb (is_ok v) then mret false else
    match manifest_str (pkg_manifest pkg) (lit "name") with
    | None => mret false
    | Some name =>
      match parse_mcaps (pkg_manifest pkg) with
      | Err _ => mret false
      | Ok mcaps =>
        mret (str_eqb name (j_name_str rec) && str_eqb (manifest_version pkg) (j_version_str rec) && (mcaps =? j_mcaps rec))
      end
    end
  end.

Definition verify_blob_record_at (base : Z) (rec : JournalRecord) : KM W bool :=
  if (j_raw_len rec =? 0) || (PKG_MAX_RAW_BYTES <? j_raw_len rec) || negb (j_blob_count rec =? div_ceil (j_raw_len rec))
  then mret false else
  ok ← read_blob_area_into_stage base (j_raw_len rec);
  if negb ok then mret false else
  bytes ← staged_bytes (j_raw_len rec);
  image_matches rec bytes.
Definition verify_slot_blob (rec : JournalRecord) : KM W bool := verify_blob_record_at (slot_blob_sector (j_slot rec)) rec.
Definition verify_stage_blob (rec : JournalRecord) : KM W bool := verify_blob_record_at (stage_blob_sector (j_slot rec)) rec.

(** *** Recovery *)

Definition quarantine_pending_slots : KM W unit := reg ← gets k_reg; set_reg (quarantine_pending reg).
Definition rollback_slot_to_old_state (rec : JournalRecord) : KM W unit := reg ← gets k_reg; set_reg (rollback_slot reg rec).

(** The recovery action for a valid record; [false] leaves the store degraded. *)
Definition recover_record (rec : JournalRecord) : KM W bool :=
  let op := j_op rec in
  let slot := j_slot rec in
  if (op =? JOURNAL_OP_INSTALL) || (op =? JOURNAL_OP_REPLACE) then
    if (j_phase rec =? JOURNAL_PHASE_STARTED) || (j_phase rec =? JOURNAL_PHASE_BLOB_WRITTEN) then
      rollback_slot_to_old_state rec ;;
      audit "installer" "pkg.recover" "package" "ROLLED_BACK" ;; mret true
    else if j_phase rec =? JOURNAL_PHASE_REGISTRY_PENDING then
      reg ← gets k_reg;
      let pending := entry_state reg slot =? STATE_PENDING_INSTALL in
      update ← (if (op =? JOURNAL_OP_REPLACE) && pending
                then and_then (verify_stage_blob rec)
                       (copy_blob_area (stage_blob_sector slot) (slot_blob_sector slot) (j_raw_len rec))
                else mret false);
      install ← (if update : bool then mret true
                 else if (op =? JOURNAL_OP_INSTALL) && pending then verify_slot_blob rec else mret false);
      if install : bool then
        set_entry_state slot STATE_ACTIVE ;;
        audit "installer" "pkg.recover" "package" "COMMITTED" ;; mret true
      else
        set_entry_state slot STATE_QUARANTINED ;;
        audit "installer" "pkg.recover" "package" "QUARANTINED" ;; mret true
    else set_degraded true ;; mret false
  else if op =? JOURNAL_OP_ROLLBACK then
    ok ← (if j_phase rec =? JOURNAL_PHASE_REGISTRY_PENDING then
            and_then (read_previous_blob_into_stage slot (j_raw_len rec))
              (bytes ← staged_bytes (j_raw_len rec);
               if checksum bytes =? j_raw_crc rec then write_blob_at (slot_blob_sector slot) bytes else mret false)
          else mret false);
    if ok : bool then
      set_entry_state slot STATE_ACTIVE ;;
      audit "installer" "pkg.recover" "package" "ROLLED_BACK" ;; mret true
    else set_degraded true ;; mret false
  else if op =? JOURNAL_OP_REMOVE then
    set_entry_state slot STATE_REMOVED ;;
    audit "installer" "pkg.recover" "package" "REMOVED" ;; mret true
  else set_degraded true ;; mret false.

Definition recover_from_journal (manual : bool) : KM W bool :=
  raw ← read_journal_raw;
  match raw with
  | None => set_degraded true ;; mret false
  | Some raw =>
    match decode_journal raw with
    | JEmpty => set_degraded false ;; mret true
    | JCorrupt _ =>
      if negb manual then
        set_degraded true ;; audit "installer" "pkg.recover" "journal" "CORRUPT" ;; mret false
      else
        quarantine_pending_slots ;;
        ok ← commit_store;
        if negb ok then set_degraded true ;; mret false else
        set_degraded false ;; invalidate_loaded ;;
        audit "installer" "pkg.recover" "journal" "QUARANTINED" ;; mret true
    | JValid rec =>
      ok ← and_then (recover_record rec) commit_store;
      if negb ok then set_degraded true ;; mret false else
      set_degraded false ;; invalidate_loaded ;; mret true
    end
  end.

(** *** Loading *)

(** The registry's copy of a package in the runtime table; its payload goes to
    the arena. *)
Definition install_runtime_entry (slot : nat) (name version : str) (kind mcaps raw_len raw_crc : Z) (payload : list Z)
  : KM W bool :=
  used ← gets k_used;
  if ARENA_SIZE <? used + zlen payload then mret false else
  if (NAME_MAX <? slen name) || (VER_MAX <? slen version) then panic else
  arena ← gets k_arena;
  set_arena (put arena (Z.to_nat used) payload) (used + zlen payload) ;;
  pkgs ← gets k_pkgs;
  set_pkgs (<[slot := mkPkg true slot (utf8_encode name) (utf8_encode version) kind mcaps raw_len raw_crc used
               (zlen payload)]> pkgs) ;;
  mret true.

Definition mark_corrupt (slot : nat) : KM W unit :=
  reg ← gets k_reg;
  if entry_state reg slot =? STATE_ACTIVE then
    set_reg (with_state reg slot STATE_CORRUPT) ;; _ ← write_registry; mret tt
  else mret tt.

(** The checks of [load_slot] on the bytes of a blob; [true] when the package
    was put in the runtime table. *)
Definition load_image (slot : nat) (raw_len raw_crc : Z) (bytes : list Z) : KM W bool :=
  if negb (checksum bytes =? raw_crc) then mret false else
  p ← outcome_of (Dzp.parse bytes);
  match p with
  | Err _ => mret false
  | Ok pkg =>
    v ← outcome_of (verify_payload pkg);
    if negb (is_ok v) then mret false else
    match manifest_str (pkg_manifest pkg) (lit "name") with
    | None => mret false
    | Some name =>
      match parse_mcaps (pkg_manifest pkg) with
      | Err _ => mret false
      | Ok mcaps =>
        if (NAME_MAX <? slen name) || (VER_MAX <? slen (manifest_version pkg)) then mret false else
        install_runtime_entry slot name (manifest_version pkg) (pkg_kind pkg) mcaps raw_len raw_crc (pkg_payload pkg)
      end
    end
  end.

Definition load_slot (slot : nat) : KM W unit :=
  reg ← gets k_reg;
  let e := entry_off slot in
  if negb (entry_state reg slot =? STATE_ACTIVE) then mret tt else
  if negb (bool_decide (slice reg (e + 1) 4 = REG_MAGIC)) then mark_corrupt slot else
  let raw_len := get_u32 reg (e + 12) in
  let raw_crc := get_u32 reg (e + 16) in
  if (raw_len =? 0) || (PKG_MAX_RAW_BYTES <? raw_len) then mark_corrupt slot else
  ok ← read_blob_into_stage slot raw_len;
  if negb ok then mark_corrupt slot else
  bytes ← staged_bytes raw_len;
  ok ← load_image slot raw_len raw_crc bytes;
  if negb ok then mark_corrupt slot else mret tt.

Fixpoint load_slots (todo : list nat) : KM W unit :=
  match todo with [] => mret tt | slot :: todo => load_slot slot ;; load_slots todo end.

Definition ensure_loaded : KM W bool :=
  loaded ← gets k_loaded;
  degraded ← gets k_degraded;
  if loaded && negb degraded then mret true else
  ok ← and_then read_registry (and_then (recover_from_journal false) read_registry);
  if negb ok then mret false else
  clear_runtime_registry ;; load_slots slots ;; set_loaded true ;; mret true.

(** *** The upload protocol *)

(** [read_raw_line] on the characters the console receives: the line, whether a
    line feed is to be skipped next, and the characters left. *)
Fixpoint read_raw_line (skip : bool) (buf : list Z) (chars : list Z) : option (list Z * bool * list Z) :=
  match chars with
  | [] => None
  | c :: chars =>
    if c =? 10 then if skip then read_raw_line false buf chars else Some (buf, false, chars)
    else if c =? 13 then Some (buf, true, chars)
    else if (33 <=? c) && (c <=? 126) && (zlen buf <? 120) then read_raw_line false (buf ++ [c]) chars
    else read_raw_line false buf chars
  end.

Fixpoint receive_lines (fuel : nat) (skip : bool) (staged : Z) (chars : list Z) : KM W (option Z) :=
  match fuel with
  | O => panic
  | S fuel =>
    match read_raw_line skip [] chars with
    | None => panic
    | Some (text, skip, chars) =>
      if bool_decide (text = [46]) then mret (Some staged)
      else if bool_decide (text = [33]) then mret None
      else if bool_decide (text = []) then receive_lines fuel skip staged chars
      else
        stage ← gets k_stage;
        let '(r, out) := decode64 text (drop (Z.to_nat staged) stage) in
        set_stage (take (Z.to_nat staged) stage ++ out) ;;
        match r with
        | Some k => receive_lines fuel skip (staged + k) chars
        | None => mret None
        end
    end
  end.

(** Every turn of the loop consumes a character. *)
Definition receive_raw_into_stage (chars : list Z) : KM W (option Z) := receive_lines (S (length chars)) false 0 chars.

(** *** Install *)

(** The transaction of [pkg_recv] from the first journal write on.  The name,
    version and payload are borrowed from [STAGE], which the read-back overwrites;
    they are values here.  The two differ only when the service answers the
    read-back with another image of the same length, checksum, name, version and
    capabilities: then the source encodes whatever text lies at the old places.
    With exact reads, as in [PkgCrash], the bytes are those just written; for any
    answers, as in [PkgSafe], nothing is run from what is encoded here, because
    the transaction ends by invalidating the table and a run reads registry and
    blob again. *)
Definition install_transaction (slot : nat) (old_state : Z) (name version : str) (mcaps : Z) (bytes : list Z)
    (pkg : Package) : KM W Reply :=
  reg ← gets k_reg;
  let raw_crc := checksum bytes in
  rec ← lift (journal_record JOURNAL_OP_INSTALL JOURNAL_PHASE_STARTED slot old_state STATE_ACTIVE name version mcaps
                (zlen bytes) raw_crc (checksum reg) 0);
  ok ← write_journal rec;
  if negb ok then mret JournalFailed else
  audit "installer" "pkg.tx.start" "package" "OK" ;;
  ok ← write_blob slot bytes;
  if negb ok then mret BlobFailed else
  let rec := with_phase rec JOURNAL_PHASE_BLOB_WRITTEN 0 in
  ok ← write_journal rec;
  if negb ok then mret JournalFailed else
  ok ← verify_slot_blob rec;
  if negb ok then mret VerifyFailed else
  audit "installer" "pkg.blob.verify" "package" "OK" ;;
  encode_registry_entry slot STATE_PENDING_INSTALL name version (pkg_kind pkg) mcaps (zlen bytes) raw_crc ;;
  reg ← gets k_reg;
  let rec := with_phase rec JOURNAL_PHASE_REGISTRY_PENDING (checksum reg) in
  ok ← and_then (write_journal rec) write_registry;
  if negb ok then mret PendingFailed else
  audit "installer" "pkg.registry.pending" "package" "OK" ;;
  set_entry_state slot STATE_ACTIVE ;;
  ok ← commit_store;
  if negb ok then mret CommitFailed else
  audit "installer" "pkg.tx.commit" "package" "OK" ;;
  modify_pkgs (fun pkgs => <[slot := EMPTY_PKG]> pkgs) ;;
  ok ← install_runtime_entry slot name version (pkg_kind pkg) mcaps (zlen bytes) raw_crc (pkg_payload pkg);
  invalidate_loaded ;;
  mret (if ok : bool then Done else ArenaFull).

Definition pkg_recv (chars : list Z) : KM W Reply :=
  ok ← ensure_loaded;
  if negb ok then mret StoreUnavailable else
  r ← receive_raw_into_stage chars;
  match r with
  | None => mret UploadAborted
  | Some staged =>
    if (staged =? 0) || (PKG_MAX_RAW_BYTES <? staged) then mret SizeRejected else
    bytes ← staged_bytes staged;
    p ← outcome_of (Dzp.parse bytes);
    match p with
    | Err e => mret (ImageRejected e)
    | Ok pkg =>
      match manifest_str (pkg_manifest pkg) (lit "name") with
      | None => mret NoName
      | Some name =>
        let version := manifest_version pkg in
        if (slen name =? 0) || (NAME_MAX <? slen name) || (VER_MAX <? slen version) then mret LengthRejected else
        match parse_mcaps (pkg_manifest pkg) with
        | Err e => mret (CapsRejected e)
        | Ok mcaps =>
          v ← outcome_of (verify_payload pkg);
          if negb (is_ok v) then mret PayloadRejected else
          reg ← gets k_reg;
          match registry_slot_for reg name with
          | None => mret RegistryFull
          | Some slot =>
            let old_state := entry_state reg slot in
            if (old_state =? STATE_CORRUPT) || (old_state =? STATE_QUARANTINED) then mret (SlotBlocked old_state)
            else if (old_state =? STATE_ACTIVE) && str_eqb (entry_version reg slot) version
                    && (get_u32 reg (entry_off slot + 16) =? checksum bytes) then mret AlreadyInstalled
            else if old_state =? STATE_ACTIVE then mret AlreadyActive
            else install_transaction slot old_state name version mcaps bytes pkg
          end
        end
      end
    end
  end.
End Store.
