(* ===== verification/PkgOps.v ===== *)
(** * The package commands (dezh-boot/src/pkg.rs)

    Every console command that works on the package store, over the operations
    of [Pkg], and the launch decision of a package run. *)

From Stdlib Require Import ZArith Lia String.
From stdpp Require Import base option strings numbers list.
From S2P Require Import Prelude Text B64 Dzp Ir Mcap Pkg.

(** What a run hands to the engine: an IR program with its host's authority, or
    a process with its task capabilities. *)
Inductive Launch :=
| LaunchIr (code : list Z) (caps : Z) (ns : option Z) (intent derived : Z)
| LaunchElf (image : list Z) (caps : Z)
| LaunchUnknown.

(** A row of [pkg-list] and [pkg-info]. *)
Record Row := mkRow {
  row_slot : nat; row_state : Z; row_name : str; row_version : str; row_kind : Z; row_raw_len : Z; row_raw_crc : Z;
  row_caps : Z }.

(** The [split_whitespace] words of an argument. *)
Fixpoint words_from (cur : str) (s : str) : list str :=
  match s with
  | [] => if bool_decide (cur = []) then [] else [cur]
  | c :: s =>
    if is_whitespace c then (if bool_decide (cur = []) then words_from [] s else cur :: words_from [] s)
    else words_from (cur ++ [c]) s
  end.
Definition split_whitespace (s : str) : list str := words_from [] s.

Section Commands.
Context {W : Type} `{SectorService W}.

Definition find_runtime_pkg (name : str) (pkgs : list PkgEntry) : option nat :=
  find (fun i => match pkgs !! i with Some e => pe_used e && str_eqb (pe_name_str e) name | None => false end) slots.

(** [PkgEntry::payload] *)
Definition payload (arena : list Z) (e : PkgEntry) : list Z := slice arena (Z.to_nat (pe_off e)) (Z.to_nat (pe_len e)).

(** *** Run *)

(** [run_loaded_entry] up to the engine it starts. *)
Definition run_loaded_entry (i : nat) (eff_mcaps ahd_id : Z) : KM W Launch :=
  pkgs ← gets k_pkgs;
  arena ← gets k_arena;
  entry ← lift (pkgs !! i);
  audit "installer" "pkg.run" "package" "start" ;;
  mret (if pe_kind entry =? KIND_DEZH_IR then
          LaunchIr (payload arena entry) (ir_caps_from eff_mcaps) (app_cairn_ns eff_mcaps (pe_name_str entry)) ahd_id eff_mcaps
        else if pe_kind entry =? KIND_ELF_RISCV64 then
          LaunchElf (payload arena entry) (task_caps_from eff_mcaps (pe_name_str entry))
        else LaunchUnknown).

Definition pkg_run (arg : str) : KM W (Reply + Launch) :=
  ok ← ensure_loaded;
  if negb ok then audit "kernel" "pkg.run" "package" "DENIED" ;; mret (inl StoreUnavailable) else
  pkgs ← gets k_pkgs;
  match find_runtime_pkg (trim arg) pkgs with
  | None =>
    audit "kernel" "pkg.run" "package" "DENIED" ;;
    reg ← gets k_reg;
    mret (inl (match find_registry_slot reg (trim arg) with
               | Some slot => NotActive (entry_state reg slot)
               | None => NoSuchPackage
               end))
  | Some i =>
    e ← lift (pkgs !! i);
    l ← run_loaded_entry i (pe_mcaps e) 0;
    mret (inr l)
  end.

(** *** Remove *)

(** [PKGS[slot].used = false] *)
Definition retired (e : PkgEntry) : PkgEntry :=
  mkPkg false (pe_slot e) (pe_name e) (pe_version e) (pe_kind e) (pe_mcaps e) (pe_raw_len e) (pe_raw_crc e) (pe_off e)
    (pe_len e).

Definition pkg_remove (arg : str) : KM W Reply :=
  ok ← ensure_loaded;
  if negb ok then mret StoreUnavailable else
  reg ← gets k_reg;
  match find_registry_slot reg (trim arg) with
  | None => mret NoSuchPackage
  | Some slot =>
    let state := entry_state reg slot in
    if negb (state =? STATE_ACTIVE) then mret (NotActive state) else
    let e := entry_off slot in
    rec ← lift (journal_record JOURNAL_OP_REMOVE JOURNAL_PHASE_STARTED slot STATE_ACTIVE STATE_REMOVED
                  (entry_name reg slot) (entry_version reg slot) (get_u32 reg (e + 8)) (get_u32 reg (e + 12))
                  (get_u32 reg (e + 16)) (checksum reg) 0);
    ok ← write_journal rec;
    if negb ok then mret JournalFailed else
    set_entry_state slot STATE_PENDING_REMOVE ;;
    modify_pkgs (alter retired slot) ;;
    ok ← write_registry;
    if negb ok then mret PendingFailed else
    set_entry_state slot STATE_REMOVED ;;
    ok ← commit_store;
    if negb ok then mret CommitFailed else
    invalidate_loaded ;;
    audit "installer" "pkg.remove" "package" "OK" ;;
    mret Done
  end.

Definition pkg_retire (arg : str) : KM W Reply := pkg_remove arg.

(** *** Update *)

Definition update_transaction (slot : nat) (old_version : str) (old_kind old_caps old_raw_len old_raw_crc before_crc : Z)
    (name version : str) (new_kind new_caps : Z) (bytes : list Z) : KM W Reply :=
  let staged := zlen bytes in
  let raw_crc := checksum bytes in
  rec ← lift (journal_record JOURNAL_OP_REPLACE JOURNAL_PHASE_STARTED slot STATE_ACTIVE STATE_ACTIVE name version new_caps
                staged raw_crc before_crc 0);
  ok ← write_journal rec;
  if negb ok then mret JournalFailed else
  ok ← write_stage_blob slot bytes;
  if negb ok then mret BlobFailed else
  let rec := with_phase rec JOURNAL_PHASE_BLOB_WRITTEN 0 in
  ok ← and_then (write_journal rec) (verify_stage_blob rec);
  if negb ok then mret VerifyFailed else
  ok ← copy_blob_area (slot_blob_sector slot) (previous_blob_sector slot) old_raw_len;
  if negb ok then mret BlobFailed else
  encode_registry_entry slot STATE_PENDING_INSTALL name version new_kind new_caps staged raw_crc ;;
  encode_previous_metadata slot old_version old_kind old_caps old_raw_len old_raw_crc ;;
  reg ← gets k_reg;
  let rec := with_phase rec JOURNAL_PHASE_REGISTRY_PENDING (checksum reg) in
  ok ← and_then (write_journal rec) write_registry;
  if negb ok then mret PendingFailed else
  ok ← copy_blob_area (stage_blob_sector slot) (slot_blob_sector slot) staged;
  if negb ok then mret PromoteFailed else
  set_entry_state slot STATE_ACTIVE ;;
  ok ← commit_store;
  if negb ok then mret CommitFailed else
  invalidate_loaded ;;
  audit "installer" "pkg.update" "package" "OK" ;;
  mret Done.

(** The checks on an uploaded image [bytes] for the Active slot of [target]. *)
Definition update_image (target : str) (allow_new_caps : bool) (slot : nat) (reg : list Z) (bytes : list Z) : KM W Reply :=
  let e := entry_off slot in
  let old_caps := get_u32 reg (e + 8) in
  let old_raw_crc := get_u32 reg (e + 16) in
  p ← outcome_of (Dzp.parse bytes);
  match p with
  | Err er => mret (ImageRejected er)
  | Ok pkg =>
    match manifest_str (pkg_manifest pkg) (lit "name") with
    | None => mret NoName
    | Some name =>
      let version := manifest_version pkg in
      if negb (str_eqb name target) then mret NameMismatch else
      if (NAME_MAX <? slen name) || (VER_MAX <? slen version) then mret LengthRejected else
      match parse_mcaps (pkg_manifest pkg) with
      | Err er => mret (CapsRejected er)
      | Ok new_caps =>
        v ← outcome_of (verify_payload pkg);
        if negb (is_ok v) then mret PayloadRejected else
        if str_eqb (entry_version reg slot) version && (old_raw_crc =? checksum bytes) then mret AlreadyInstalled else
        let '(added, removed, unchanged) := cap_delta old_caps new_caps in
        if negb (added =? 0) && negb allow_new_caps then
          audit "installer" "pkg.update" "package" "REVIEW_REQUIRED" ;; mret (ReviewRequired added)
        else
          update_transaction slot (entry_version reg slot) (get_u16 reg (e + 6)) old_caps (get_u32 reg (e + 12)) old_raw_crc
            (checksum reg) name version (pkg_kind pkg) new_caps bytes
      end
    end
  end.

Definition pkg_update (arg : str) (chars : list Z) : KM W Reply :=
  match split_whitespace arg with
  | [] => mret Usage
  | target :: parts =>
    let allow_new_caps := existsb (str_eqb (lit "--allow-new-caps")) parts in
    ok ← ensure_loaded;
    if negb ok then mret StoreUnavailable else
    reg ← gets k_reg;
    match find_registry_slot reg target with
    | None => mret NoSuchPackage
    | Some slot =>
      if negb (entry_state reg slot =? STATE_ACTIVE) then mret (NotActive (entry_state reg slot)) else
      if entry_is_pinned reg slot then mret Pinned else
      r ← receive_raw_into_stage chars;
      match r with
      | None => mret UploadAborted
      | Some staged =>
        if (staged =? 0) || (PKG_MAX_RAW_BYTES <? staged) then mret SizeRejected else
        bytes ← staged_bytes staged;
        update_image target allow_new_caps slot reg bytes
      end
    end
  end.

(** *** Roll back to the previous version *)

Definition rollback_transaction (slot : nat) (reg : list Z) (name : str) : KM W Reply :=
  let e := entry_off slot in
  let prev_version := entry_previous_version reg slot in
  let prev_kind := get_u16 reg (e + 82) in
  let prev_caps := get_u32 reg (e + 84) in
  let prev_raw_len := get_u32 reg (e + 88) in
  let prev_raw_crc := get_u32 reg (e + 92) in
  ok ← read_previous_blob_into_stage slot prev_raw_len;
  if negb ok then mret VerifyFailed else
  bytes ← staged_bytes prev_raw_len;
  if negb (checksum bytes =? prev_raw_crc) then mret VerifyFailed else
  rec ← lift (journal_record JOURNAL_OP_ROLLBACK JOURNAL_PHASE_REGISTRY_PENDING slot STATE_ACTIVE STATE_ACTIVE name
                prev_version prev_caps prev_raw_len prev_raw_crc (checksum reg) 0);
  ok ← write_journal rec;
  if negb ok then mret JournalFailed else
  let pinned := entry_is_pinned reg slot in
  encode_registry_entry slot STATE_PENDING_INSTALL name prev_version prev_kind prev_caps prev_raw_len prev_raw_crc ;;
  (if pinned then set_entry_flags slot ENTRY_FLAG_PINNED else mret tt) ;;
  ok ← write_registry;
  if negb ok then mret PendingFailed else
  bytes ← staged_bytes prev_raw_len;
  ok ← write_blob_at (slot_blob_sector slot) bytes;
  if negb ok then mret PromoteFailed else
  set_entry_state slot STATE_ACTIVE ;;
  ok ← commit_store;
  if negb ok then mret CommitFailed else
  invalidate_loaded ;;
  audit "installer" "pkg.rollback" "package" "OK" ;;
  mret Done.

Definition pkg_rollback (arg : str) : KM W Reply :=
  match split_whitespace arg with
  | [] => mret Usage
  | name :: parts =>
    let force := existsb (str_eqb (lit "--force")) parts in
    ok ← ensure_loaded;
    if negb ok then mret StoreUnavailable else
    reg ← gets k_reg;
    match find_registry_slot reg name with
    | None => mret NoSuchPackage
    | Some slot =>
      if negb (entry_state reg slot =? STATE_ACTIVE) || negb (entry_previous_valid reg slot) then mret NoPrevious else
      if entry_is_pinned reg slot && negb force then mret Pinned else
      rollback_transaction slot reg name
    end
  end.

(** *** Pin, collect, verify, recover *)

Definition pkg_pin (arg : str) (pinned : bool) : KM W Reply :=
  ok ← ensure_loaded;
  if negb ok then mret StoreUnavailable else
  reg ← gets k_reg;
  match find_registry_slot reg (trim arg) with
  | None => mret NoSuchPackage
  | Some slot =>
    let flags := entry_flags reg slot in
    set_entry_flags slot (if pinned then flags .| ENTRY_FLAG_PINNED else flags & unot 32 ENTRY_FLAG_PINNED) ;;
    ok ← and_then write_registry init_store_marker;
    if negb ok then mret CommitFailed else
    invalidate_loaded ;;
    audit "installer" (if pinned then "pkg.pin" else "pkg.unpin") "package" "OK" ;;
    mret Done
  end.

Fixpoint wipe_slots (todo : list nat) : KM W (option nat) :=
  match todo with
  | [] => mret None
  | slot :: todo =>
    ok ← and_then (zero_blob_slot slot)
           (and_then (zero_blob_area (previous_blob_sector slot)) (zero_blob_area (stage_blob_sector slot)));
    if negb ok then mret (Some slot) else
    clear_registry_slot slot ;; wipe_slots todo
  end.

(** The answer and, for a plan, the slots that would be wiped. *)
Definition pkg_gc (arg : str) : KM W (Reply * list nat) :=
  let mode := trim arg in
  if negb (str_eqb mode [] || str_eqb mode (lit "plan") || str_eqb mode (lit "run")) then mret (Usage, []) else
  let run := str_eqb mode (lit "run") in
  ok ← ensure_loaded;
  if negb ok then mret (StoreUnavailable, []) else
  raw ← read_journal_raw;
  match raw with
  | None => mret (StoreUnavailable, [])
  | Some raw =>
    match decode_journal raw with
    | JValid _ | JCorrupt _ => mret (JournalBusy, [])
    | JEmpty =>
      reg ← gets k_reg;
      let removed := filter (fun slot => entry_state reg slot = STATE_REMOVED) slots in
      if negb run then mret (Done, removed) else
      match removed with
      | [] => mret (NothingToDo, [])
      | _ =>
        bad ← wipe_slots removed;
        match bad with
        | Some slot => mret (WipeFailed slot, [])
        | None =>
          ok ← and_then write_registry init_store_marker;
          if negb ok then mret (CommitFailed, []) else
          invalidate_loaded ;;
          audit "installer" "pkg.gc" "package-store" "OK" ;;
          mret (Done, removed)
        end
      end
    end
  end.

Definition pkg_verify (arg : str) : KM W Reply :=
  ok ← ensure_loaded;
  if negb ok then mret StoreUnavailable else
  reg ← gets k_reg;
  match find_registry_slot reg (trim arg) with
  | None => mret NoSuchPackage
  | Some slot =>
    let raw_len := get_u32 reg (entry_off slot + 12) in
    let raw_crc := get_u32 reg (entry_off slot + 16) in
    if negb (entry_state reg slot =? STATE_ACTIVE) then mret (NotActive (entry_state reg slot)) else
    ok ← read_blob_into_stage slot raw_len;
    if negb ok then mret BlobFailed else
    bytes ← staged_bytes raw_len;
    if negb (checksum bytes =? raw_crc) then mret VerifyFailed else
    p ← outcome_of (Dzp.parse bytes);
    match p with
    | Err e => mret (ImageRejected e)
    | Ok pkg =>
      v ← outcome_of (verify_payload pkg);
      if negb (is_ok v) || negb (is_ok (parse_mcaps (pkg_manifest pkg))) then mret PayloadRejected else mret Done
    end
  end.

Definition pkg_recover : KM W Reply :=
  ok ← read_registry;
  if negb ok then mret StoreUnavailable else
  ok ← recover_from_journal true;
  mret (if ok : bool then Recovered else NotRecovered).

(** *** Reports *)

Definition row_of (reg : list Z) (slot : nat) : Row :=
  let e := entry_off slot in
  mkRow slot (entry_state reg slot) (entry_name reg slot) (entry_version reg slot) (get_u16 reg (e + 6))
    (get_u32 reg (e + 12)) (get_u32 reg (e + 16)) (get_u32 reg (e + 8)).

Definition pkg_list : KM W (option (list Row)) :=
  ok ← ensure_loaded;
  if negb ok then mret None else
  reg ← gets k_reg;
  mret (Some (row_of reg <$> filter (fun slot => entry_state reg slot <> STATE_EMPTY) slots)).

Definition pkg_info (arg : str) : KM W (Reply + Row) :=
  ok ← ensure_loaded;
  if negb ok then mret (inl StoreUnavailable) else
  reg ← gets k_reg;
  mret (match find_registry_slot reg (trim arg) with None => inl NoSuchPackage | Some slot => inr (row_of reg slot) end).

(** Active and previous versions with their checksums. *)
Definition pkg_versions (arg : str) : KM W (Reply + (str * Z * Z * option (str * Z))) :=
  ok ← ensure_loaded;
  if negb ok then mret (inl StoreUnavailable) else
  reg ← gets k_reg;
  mret (match find_registry_slot reg (trim arg) with
        | None => inl NoSuchPackage
        | Some slot =>
          let e := entry_off slot in
          inr (entry_version reg slot, get_u32 reg (e + 16), get_u32 reg (e + 8),
               if entry_previous_valid reg slot
               then Some (entry_previous_version reg slot, get_u32 reg (e + 92)) else None)
        end).

(** State, pin, capabilities and the change since the previous version. *)
Definition pkg_review (arg : str) : KM W (Reply + (Z * bool * Z * option (Z * Z * Z))) :=
  ok ← ensure_loaded;
  if negb ok then mret (inl StoreUnavailable) else
  reg ← gets k_reg;
  mret (match find_registry_slot reg (trim arg) with
        | None => inl NoSuchPackage
        | Some slot =>
          let e := entry_off slot in
          inr (entry_state reg slot, entry_is_pinned reg slot, get_u32 reg (e + 8),
               if entry_previous_valid reg slot
               then Some (cap_delta (get_u32 reg (e + 84)) (get_u32 reg (e + 8))) else None)
        end).

Definition count_slots (f : nat -> bool) : nat := length (filter (fun s => f s = true) slots).

(** Active, previous, pinned, removed, quarantined. *)
Definition pkg_lifecycle : KM W (option (nat * nat * nat * nat * nat)) :=
  ok ← ensure_loaded;
  if negb ok then mret None else
  reg ← gets k_reg;
  mret (Some (count_slots (fun s => entry_state reg s =? STATE_ACTIVE), count_slots (entry_previous_valid reg),
              count_slots (entry_is_pinned reg), count_slots (fun s => entry_state reg s =? STATE_REMOVED),
              count_slots (fun s => entry_state reg s =? STATE_QUARANTINED))).

(** Whether recovery went through, the journal's status, and the slot counts:
    active, removed, corrupt, pending, quarantined. *)
Definition pkg_store : KM W (Reply + (bool * option JournalState * (nat * nat * nat * nat * nat))) :=
  ok ← read_registry;
  if negb ok then mret (inl StoreUnavailable) else
  recovery_ok ← recover_from_journal false;
  _ ← read_registry;
  jraw ← read_journal_raw;
  reg ← gets k_reg;
  let n state := count_slots (fun s => entry_state reg s =? state) in
  mret (inr (recovery_ok, decode_journal <$> jraw,
    (n STATE_ACTIVE, n STATE_REMOVED, n STATE_CORRUPT, (n STATE_PENDING_INSTALL + n STATE_PENDING_REMOVE)%nat,
     n STATE_QUARANTINED))).

Definition pkg_journal : KM W (option JournalState) := raw ← read_journal_raw; mret (decode_journal <$> raw).

(** *** Fault injection *)

Definition FAULT_CRC : Z := 0xfeedb10b.

Definition pkg_fault (arg : str) : KM W Reply :=
  ok ← read_registry;
  if negb ok then mret StoreUnavailable else
  reg ← gets k_reg;
  let mode := trim arg in
  let slot := default (MAX_PKGS - 1)%nat (registry_slot_for reg (lit "faultpkg")) in
  if str_eqb mode (lit "install-after-blob") then
    rec ← lift (journal_record JOURNAL_OP_INSTALL JOURNAL_PHASE_BLOB_WRITTEN slot (entry_state reg slot) STATE_ACTIVE
                  (lit "faultpkg") (lit "0.0.1") MCAP_PRINT 128 FAULT_CRC (checksum reg) 0);
    ok ← write_journal rec;
    if ok : bool then invalidate_loaded ;; mret Done else mret JournalFailed
  else if str_eqb mode (lit "install-pending-registry") then
    let old_state := entry_state reg slot in
    encode_registry_entry slot STATE_PENDING_INSTALL (lit "faultpkg") (lit "0.0.1") KIND_DEZH_IR MCAP_PRINT 128 FAULT_CRC ;;
    reg ← gets k_reg;
    rec ← lift (journal_record JOURNAL_OP_INSTALL JOURNAL_PHASE_REGISTRY_PENDING slot old_state STATE_ACTIVE
                  (lit "faultpkg") (lit "0.0.1") MCAP_PRINT 128 FAULT_CRC 0 (checksum reg));
    ok ← and_then write_registry (write_journal rec);
    if ok : bool then invalidate_loaded ;; mret Done else mret JournalFailed
  else if str_eqb mode (lit "remove-pending") then
    match find_registry_slot reg (lit "hello") with
    | None => mret NoSuchPackage
    | Some slot =>
      let e := entry_off slot in
      rec ← lift (journal_record JOURNAL_OP_REMOVE JOURNAL_PHASE_STARTED slot STATE_ACTIVE STATE_REMOVED
                    (entry_name reg slot) (entry_version reg slot) (get_u32 reg (e + 8)) (get_u32 reg (e + 12))
                    (get_u32 reg (e + 16)) (checksum reg) 0);
      set_entry_state slot STATE_PENDING_REMOVE ;;
      ok ← and_then write_registry (write_journal rec);
      if ok : bool then invalidate_loaded ;; mret Done else mret JournalFailed
    end
  else if str_eqb mode (lit "corrupt-journal") then
    let raw := put (put (replicate JOURNAL_SIZE 0) 0 (lit "BROK")) 64 (lit "faultpkg") in
    ok ← write_journal_raw raw;
    if ok : bool then invalidate_loaded ;; mret Done else mret JournalFailed
  else mret Usage.

(** *** The commands of a session *)

Inductive PkgCmd :=
| CmdRecv (chars : list Z) | CmdRun (arg : str) | CmdRemove (arg : str) | CmdUpdate (arg : str) (chars : list Z)
| CmdRollback (arg : str) | CmdPin (arg : str) (pinned : bool) | CmdGc (arg : str) | CmdVerify (arg : str)
| CmdRecover | CmdList | CmdInfo (arg : str) | CmdVersions (arg : str) | CmdReview (arg : str) | CmdLifecycle
| CmdStore | CmdJournal | CmdFault (arg : str).

Definition exec (c : PkgCmd) : KM W unit :=
  match c with
  | CmdRecv chars => _ ← pkg_recv chars; mret tt
  | CmdRun arg => _ ← pkg_run arg; mret tt
  | CmdRemove arg => _ ← pkg_remove arg; mret tt
  | CmdUpdate arg chars => _ ← pkg_update arg chars; mret tt
  | CmdRollback arg => _ ← pkg_rollback arg; mret tt
  | CmdPin arg pinned => _ ← pkg_pin arg pinned; mret tt
  | CmdGc arg => _ ← pkg_gc arg; mret tt
  | CmdVerify arg => _ ← pkg_verify arg; mret tt
  | CmdRecover => _ ← pkg_recover; mret tt
  | CmdList => _ ← pkg_list; mret tt
  | CmdInfo arg => _ ← pkg_info arg; mret tt
  | CmdVersions arg => _ ← pkg_versions arg; mret tt
  | CmdReview arg => _ ← pkg_review arg; mret tt
  | CmdLifecycle => _ ← pkg_lifecycle; mret tt
  | CmdStore => _ ← pkg_store; mret tt
  | CmdJournal => _ ← pkg_journal; mret tt
  | CmdFault arg => _ ← pkg_fault arg; mret tt
  end.

Fixpoint session (cs : list PkgCmd) : KM W unit :=
  match cs with [] => mret tt | c :: cs => exec c ;; session cs end.
End Commands.
