(* ===== verification/PkgSafe.v ===== *)
(** * Only verified packages run

    Whatever the block service answers and whatever commands are given, the
    runtime table only ever holds packages whose image was checked in full, with
    the capabilities of that image's manifest and its payload in the arena. *)

From Stdlib Require Import ZArith Lia String.
From stdpp Require Import base option strings numbers list.
From S2P Require Import Prelude Text B64 Dzp Ir Mcap Pkg PkgOps.

(** A package image that passes every check of the loader. *)
Record verified (bytes : list Z) (pkg : Package) (name : str) (mcaps : Z) : Prop := {
  vf_parse : Dzp.parse bytes = Ret pkg;
  vf_payload : verify_payload pkg = Ret tt;
  vf_name : manifest_str (pkg_manifest pkg) (lit "name") = Some name;
  vf_caps : parse_mcaps (pkg_manifest pkg) = Ok mcaps }.

(** A runtime entry stands for a verified image, of which [org] holds. *)
Definition backed (org : list Z -> Prop) (arena : list Z) (used : Z) (e : PkgEntry) : Prop :=
  0 <= pe_off e /\ 0 <= pe_len e /\ pe_off e + pe_len e <= used /\
  exists bytes pkg name, verified bytes pkg name (pe_mcaps e) /\
    pe_name e = utf8_encode name /\ pe_kind e = pkg_kind pkg /\ payload arena e = pkg_payload pkg /\
    pe_raw_crc e = checksum bytes /\ org bytes.

Lemma backed_mono (P Q : list Z -> Prop) arena used e : (forall b, P b -> Q b) -> backed P arena used e -> backed Q arena used e.
Proof. intros HPQ (? & ? & ? & b & p & n & ? & ? & ? & ? & ? & ?). split; [done|]. split; [done|]. split; [done|]. exists b, p, n. auto 10. Qed.

(** ** Where images come from

    What can be said of a block service about the image the loader took for a
    slot ([origin]), when the loader is about to load [todo] with the registry
    [reg] in memory ([loading]). *)

(** The requests a load makes. *)
Definition load_request (r : Z) : Prop := r = BLK_REQ_PKG_BLOB_READ \/ r = BLK_REQ_PKG_REGISTRY_WRITE.

(** What the loader asks of a registry entry before it reads the blob. *)
Definition loadable (reg : list Z) (slot : nat) : Prop :=
  entry_state reg slot = STATE_ACTIVE /\ slice reg (entry_off slot + 1) 4 = REG_MAGIC /\
  get_u32 reg (entry_off slot + 12) <> 0 /\ get_u32 reg (entry_off slot + 12) <= PKG_MAX_RAW_BYTES.

Class Provenance (W : Type) `{SectorService W} := {
  loading : list Z -> W -> list nat -> Prop;
  origin : W -> nat -> list Z -> Prop;
  loading_start k k' : read_registry k = Some (true, k') -> loading (k_reg k') (k_world k') slots;
  loading_request reg w todo r s i : load_request r -> loading reg w todo -> loading reg (sv_request r s i w).2 todo;
  loading_next reg w slot todo : loading reg w (slot :: todo) -> loading reg w todo;
  loading_mark reg w slot todo v : loading reg w (slot :: todo) -> loading (with_state reg slot v) w todo;
  origin_load k k' slot todo bytes : loading (k_reg k) (k_world k) (slot :: todo) -> loadable (k_reg k) slot ->
    read_blob_into_stage slot (get_u32 (k_reg k) (entry_off slot + 12)) k = Some (true, k') ->
    bytes = take (Z.to_nat (get_u32 (k_reg k) (entry_off slot + 12))) (k_stage k') ->
    length bytes = Z.to_nat (get_u32 (k_reg k) (entry_off slot + 12)) ->
    checksum bytes = get_u32 (k_reg k) (entry_off slot + 16) -> origin (k_world k') slot bytes;
  origin_request w slot bytes r s i : origin w slot bytes -> origin (sv_request r s i w).2 slot bytes }.

Section Safe.
Context {W : Type} `{Provenance W}.

(** While the table counts as loaded, or always when [strict], each entry's image
    has its origin. *)
Record table_at (strict : bool) (k : Kern W) : Prop := {
  tb_used : 0 <= k_used k <= ARENA_SIZE;
  tb_arena : zlen (k_arena k) = ARENA_SIZE;
  tb_back : forall i e, k_pkgs k !! i = Some e -> pe_used e = true ->
    backed (fun bytes => strict = true \/ k_loaded k = true -> origin (k_world k) i bytes) (k_arena k) (k_used k) e }.
Definition keeps_at (strict : bool) {A} (m : KM W A) : Prop := forall k a k', table_at strict k -> m k = Some (a, k') -> table_at strict k'.
#[local] Abbreviation table_ok := (table_at false).
#[local] Abbreviation keeps := (keeps_at false).

Lemma boot_ok (w : W) : table_ok (boot w).
Proof.
  split; cbn [boot k_used k_arena k_pkgs].
  - vm_compute. split; discriminate.
  - unfold zlen. rewrite length_replicate. vm_compute. reflexivity.
  - intros i e [-> _]%lookup_replicate. done.
Qed.

(** ** Composition *)

Lemma table_ret strict {A} (a : A) : keeps_at strict (mret a).
Proof. intros k b k' Hk [= _ <-]. done. Qed.
Lemma keeps_panic strict {A} : keeps_at strict (panic : KM W A).
Proof. by intros k a k' _ E. Qed.
Lemma keeps_gets strict {A} (f : Kern W -> A) : keeps_at strict (gets f).
Proof. intros k b k' Hk [= _ <-]. done. Qed.
Lemma keeps_lift strict {A} (o : option A) : keeps_at strict (lift o).
Proof. destruct o; [apply table_ret|apply keeps_panic]. Qed.
Lemma table_bind strict {A B} (m : KM W A) (f : A -> KM W B) : keeps_at strict m -> (forall a, keeps_at strict (f a)) -> keeps_at strict (m ≫= f).
Proof.
  intros Hm Hf k b k' Hk E. unfold mbind, KM_bind in E. destruct (m k) as [[a k1]|] eqn:E1; [|done].
  eapply Hf; [eapply Hm; [exact Hk|exact E1]|exact E].
Qed.
Lemma keeps_outcome strict {E A B} (o : outcome E A) (f : result E A -> KM W B) :
  (forall a, o = Ret a -> keeps_at strict (f (Ok a))) -> (forall e, keeps_at strict (f (Err e))) -> keeps_at strict (outcome_of o ≫= f).
Proof.
  intros Hok Herr. destruct o as [a|e|]; cbn [outcome_of].
  - intros k b k' Hk Ek. exact (Hok a eq_refl k b k' Hk Ek).
  - intros k b k' Hk Ek. exact (Herr e k b k' Hk Ek).
  - by intros k b k' Hk Ek.
Qed.
Lemma keeps_and_then strict (a b : KM W bool) : keeps_at strict a -> keeps_at strict b -> keeps_at strict (and_then a b).
Proof. intros Ha Hb. apply table_bind; [done|]. intros []; [done|apply table_ret]. Qed.

(** ** The state updates *)

Ltac same_table := let k := fresh in let Hk := fresh in intros k ? ? Hk [= _ <-]; by destruct Hk; split.

Lemma keeps_set_stage strict s : keeps_at strict (set_stage s : KM W _).
Proof. same_table. Qed.
Lemma keeps_unload strict : keeps_at strict (set_loaded false : KM W _).
Proof.
  intros k a k' [Hu Ha Hb] [= _ <-]. split; [done|done|]. intros i e He Hused. eapply backed_mono; [|by apply (Hb i e)].
  cbn. intros b Hor [Hs|?]; [auto|done].
Qed.
Lemma keeps_load_true : keeps_at true (set_loaded true : KM W _).
Proof.
  intros k a k' [Hu Ha Hb] [= _ <-]. split; [done|done|]. intros i e He Hused. eapply backed_mono; [|by apply (Hb i e)].
  cbn. auto.
Qed.
Lemma strict_table k : table_at true k -> table_ok k.
Proof. intros [Hu Ha Hb]. split; [done|done|]. intros i e He Hused. eapply backed_mono; [|by apply (Hb i e)]. auto. Qed.
Lemma keeps_put_degraded strict b : keeps_at strict (put_degraded b : KM W _).
Proof. same_table. Qed.
Lemma keeps_set_reg strict r : keeps_at strict (set_reg r : KM W _).
Proof. same_table. Qed.
Lemma keeps_sector_status strict r s i : keeps_at strict (sector_status r s i).
Proof.
  intros k a k' [Hu Ha Hb] E. unfold sector_status in E. cbv beta iota delta [mbind KM_bind mret KM_ret gets set_world] in E.
  pose proof (fun slot b => origin_request (k_world k) slot b r s i) as Ho.
  destruct (sv_request r s i (k_world k)) as [st w]. injection E as _ <-. split; [done|done|]. cbn.
  intros j e He Hused. eapply backed_mono; [|by apply (Hb j e)]. cbn. eauto.
Qed.
Lemma keeps_audit strict a b c d : keeps_at strict (audit a b c d : KM W _).
Proof. same_table. Qed.

Lemma keeps_clear strict : keeps_at strict (clear_runtime_registry : KM W _).
Proof.
  intros k a k' [Hu Ha Hb] [= _ <-]. split; cbn [k_used k_arena k_pkgs]; [vm_compute; split; discriminate|done|].
  intros i e He. change ([EMPTY_PKG; EMPTY_PKG; EMPTY_PKG; EMPTY_PKG; EMPTY_PKG; EMPTY_PKG; EMPTY_PKG; EMPTY_PKG])
    with (replicate MAX_PKGS EMPTY_PKG) in He. apply lookup_replicate in He as [-> _]. done.
Qed.

(** Emptying or retiring a slot of the table. *)
Lemma keeps_drop_slot strict (f : list PkgEntry -> list PkgEntry) :
  (forall l i e, f l !! i = Some e -> pe_used e = true -> l !! i = Some e) ->
  keeps_at strict (modify_pkgs f : KM W _).
Proof.
  intros Hf k a k' [Hu Ha Hb] [= _ <-]. split; cbn; [done|done|]. intros i e He Hused.
  eapply Hb; [|done]. by eapply Hf.
Qed.

Lemma keeps_empty_slot strict slot : keeps_at strict (modify_pkgs (fun p => <[slot := EMPTY_PKG]> p) : KM W _).
Proof.
  apply keeps_drop_slot. intros l i e He Hu. apply list_lookup_insert_Some in He as [(_ & <- & _)|[_ He]]; done.
Qed.
Lemma keeps_retired strict slot : keeps_at strict (modify_pkgs (alter retired slot) : KM W _).
Proof.
  apply keeps_drop_slot. intros l i e He Hu. destruct (decide (slot = i)) as [->|Hne].
  - rewrite list_lookup_alter_eq in He. destruct (l !! i); [|done]. by injection He as <-.
  - by rewrite list_lookup_alter_ne in He.
Qed.

(** The loader's last step, for an image whose origin is known if it matters. *)
Lemma install_entry strict slot pkg name version raw_len bytes mcaps k a k' : table_at strict k ->
  verified bytes pkg name mcaps -> (strict = true \/ k_loaded k = true -> origin (k_world k) slot bytes) ->
  install_runtime_entry slot name version (pkg_kind pkg) mcaps raw_len (checksum bytes) (pkg_payload pkg) k = Some (a, k') ->
  table_at strict k'.
Proof.
  intros [Hu Ha Hb] Hv Hor E.
  cbv beta iota delta [install_runtime_entry mbind KM_bind mret KM_ret gets set_arena set_pkgs panic] in E.
  destruct (Z.ltb_spec ARENA_SIZE (k_used k + zlen (pkg_payload pkg))) as [|Hfit]; [by injection E as _ <-|].
  destruct (_ || _); [done|]. injection E as _ <-. pose proof (zlen_nonneg (pkg_payload pkg)) as Hp.
  set (pl := pkg_payload pkg) in *. unfold zlen in Ha, Hfit, Hp.
  assert (Hpos : (Z.to_nat (k_used k) + length pl <= length (k_arena k))%nat) by lia.
  split; cbn.
  - unfold zlen. lia.
  - unfold zlen, put. by rewrite length_update_slice.
  - intros i e He Hused. apply list_lookup_insert_Some in He as [(<- & <- & _)|[_ He]].
    + split; [cbn; lia|]. split; [cbn; apply zlen_nonneg|]. split; [cbn; unfold zlen; lia|].
      exists bytes, pkg, name. split; [done|]. split; [done|]. split; [done|]. split; [|by split].
      unfold payload, put; cbn. unfold zlen. rewrite Nat2Z.id. by apply slice_update_same.
    + destruct (Hb i e He Hused) as (B0 & B1 & B2 & b & p & nm & Hvf & Hn & Hkd & Hpl & Hcrc).
      split; [done|]. split; [done|]. split; [unfold zlen; lia|]. exists b, p, nm. split; [done|].
      split; [done|]. split; [done|]. split; [|done]. rewrite <- Hpl. unfold payload, put, slice.
      apply list_eq. intros j. destruct (decide (j < Z.to_nat (pe_len e))%nat).
      * rewrite !lookup_take_lt, !lookup_drop, lookup_update_slice by done. case_decide; [lia|done].
      * by rewrite !lookup_take_ge by lia.
Qed.

(** ** Every operation *)

Create HintDb keeps.
#[local] Hint Resolve table_ret keeps_panic keeps_gets keeps_lift keeps_set_stage keeps_unload keeps_put_degraded
  keeps_set_reg keeps_sector_status keeps_audit keeps_clear keeps_empty_slot keeps_retired : keeps.

(** [keep] takes a command apart: sequencing, choices and the primitives. *)
Ltac keep :=
  intros;
  repeat first
    [ solve [eauto with keeps]
    | progress cbn beta iota
    | progress cbn [is_ok negb]
    | apply keeps_and_then
    | apply keeps_outcome; intros
    | apply table_bind; [|intros ?]
    | match goal with |- keeps_at _ (let '(_, _) := ?x in _) => destruct x end
    | match goal with |- keeps_at _ (if ?b then _ else _) => destruct b end
    | match goal with |- keeps_at _ (match ?x with _ => _ end) => destruct x end ].

Lemma keeps_set_degraded strict v : keeps_at strict (set_degraded v : KM W _).
Proof. unfold set_degraded. keep. Qed.
#[local] Hint Resolve keeps_set_degraded : keeps.
Lemma keeps_read_sector strict r s : keeps_at strict (read_sector r s).
Proof. unfold read_sector. keep. Qed.
Lemma keeps_write_sector strict r s d : keeps_at strict (write_sector r s d).
Proof. unfold write_sector. keep. Qed.
#[local] Hint Resolve keeps_read_sector keeps_write_sector : keeps.
Lemma keeps_read_sectors strict r n : forall s, keeps_at strict (read_sectors r s n).
Proof. induction n; cbn [read_sectors]; keep. Qed.
Lemma keeps_write_sectors strict r n : forall s d, keeps_at strict (write_sectors r s n d).
Proof. induction n; cbn [write_sectors]; keep. Qed.
#[local] Hint Resolve keeps_read_sectors keeps_write_sectors : keeps.
Lemma keeps_read_registry strict : keeps_at strict read_registry.
Proof. unfold read_registry. keep. Qed.
Lemma keeps_write_registry strict : keeps_at strict write_registry.
Proof. unfold write_registry. keep. Qed.
Lemma keeps_marker strict : keeps_at strict init_store_marker.
Proof. unfold init_store_marker. keep. Qed.
Lemma keeps_read_journal strict : keeps_at strict read_journal_raw.
Proof. apply keeps_read_sectors. Qed.
Lemma keeps_write_journal_raw strict r : keeps_at strict (write_journal_raw r).
Proof. apply keeps_write_sectors. Qed.
Lemma keeps_write_journal strict r : keeps_at strict (write_journal r).
Proof. apply keeps_write_sectors. Qed.
#[local] Hint Resolve keeps_read_registry keeps_write_registry keeps_marker keeps_read_journal keeps_write_journal_raw
  keeps_write_journal : keeps.
Lemma keeps_commit strict : keeps_at strict commit_store.
Proof. unfold commit_store, clear_journal. keep. Qed.
Lemma keeps_write_blob_at strict b r : keeps_at strict (write_blob_at b r).
Proof. apply keeps_write_sectors. Qed.
Lemma keeps_zero_area strict b : keeps_at strict (zero_blob_area b).
Proof. apply keeps_write_sectors. Qed.
Lemma keeps_read_blob strict n : forall s st l, keeps_at strict (read_blob_sectors n s st l).
Proof. induction n; cbn [read_blob_sectors]; keep. Qed.
#[local] Hint Resolve keeps_commit keeps_write_blob_at keeps_zero_area keeps_read_blob : keeps.
Lemma keeps_read_area strict b l : keeps_at strict (read_blob_area_into_stage b l).
Proof. unfold read_blob_area_into_stage. keep. Qed.
Lemma keeps_staged strict n : keeps_at strict (staged_bytes n : KM W _).
Proof. unfold staged_bytes. keep. Qed.
#[local] Hint Resolve keeps_read_area keeps_staged : keeps.
Lemma keeps_copy strict a b l : keeps_at strict (copy_blob_area a b l).
Proof. unfold copy_blob_area. keep. Qed.
Lemma keeps_image strict r b : keeps_at strict (image_matches r b : KM W _).
Proof. unfold image_matches. keep. Qed.
#[local] Hint Resolve keeps_copy keeps_image : keeps.
Lemma keeps_verify_blob strict b r : keeps_at strict (verify_blob_record_at b r).
Proof. unfold verify_blob_record_at. keep. Qed.
#[local] Hint Resolve keeps_verify_blob : keeps.
Lemma keeps_entry_state strict s v : keeps_at strict (set_entry_state s v : KM W _).
Proof. unfold set_entry_state. keep. Qed.
Lemma keeps_entry_flags strict s v : keeps_at strict (set_entry_flags s v : KM W _).
Proof. unfold set_entry_flags. keep. Qed.
Lemma keeps_clear_slot strict s : keeps_at strict (clear_registry_slot s : KM W _).
Proof. unfold clear_registry_slot. keep. Qed.
Lemma keeps_encode strict a b c d e f g h : keeps_at strict (encode_registry_entry a b c d e f g h : KM W _).
Proof. unfold encode_registry_entry. keep. Qed.
Lemma keeps_encode_previous strict a b c d e f : keeps_at strict (encode_previous_metadata a b c d e f : KM W _).
Proof. unfold encode_previous_metadata. keep. Qed.
#[local] Hint Resolve keeps_entry_state keeps_entry_flags keeps_clear_slot keeps_encode keeps_encode_previous : keeps.
Lemma keeps_recover_record strict r : keeps_at strict (recover_record r).
Proof.
  unfold recover_record, rollback_slot_to_old_state, verify_stage_blob, verify_slot_blob, read_previous_blob_into_stage.
  keep.
Qed.
#[local] Hint Resolve keeps_recover_record : keeps.
Lemma keeps_recover strict b : keeps_at strict (recover_from_journal b).
Proof. unfold recover_from_journal, quarantine_pending_slots, invalidate_loaded. keep. Qed.
Lemma keeps_mark strict s : keeps_at strict (mark_corrupt s).
Proof. unfold mark_corrupt. keep. Qed.
#[local] Hint Resolve keeps_recover keeps_mark : keeps.

(** ** Loading *)

(** The world after requests a load makes. *)
Inductive quietly : W -> W -> Prop :=
| quietly_refl w : quietly w w
| quietly_step w w' r s i : quietly w w' -> load_request r -> quietly w (sv_request r s i w').2.
Lemma quietly_trans w1 w2 w3 : quietly w1 w2 -> quietly w2 w3 -> quietly w1 w3.
Proof. intros H12. induction 1; [done|constructor; auto]. Qed.
Lemma loading_quietly reg w w' todo : quietly w w' -> loading reg w todo -> loading reg w' todo.
Proof. induction 1; [done|]. intros Hl. apply loading_request; auto. Qed.

(** What a step of the loader leaves of the registry and the service. *)
Definition only_reads {A} (m : KM W A) : Prop :=
  forall k a k', m k = Some (a, k') -> k_reg k' = k_reg k /\ quietly (k_world k) (k_world k').
Lemma reads_bind {A B} (m : KM W A) (f : A -> KM W B) : only_reads m -> (forall a, only_reads (f a)) -> only_reads (m ≫= f).
Proof.
  intros Hm Hf k b k' E. unfold mbind, KM_bind in E. destruct (m k) as [[a k1]|] eqn:E1; [|done].
  apply Hm in E1 as [R1 Q1]. apply Hf in E as [R2 Q2]. split; [congruence|by eapply quietly_trans].
Qed.
Lemma reads_pure {A} (m : KM W A) : (forall k a k', m k = Some (a, k') -> k_reg k' = k_reg k /\ k_world k' = k_world k) -> only_reads m.
Proof. intros Hm k a k' E. destruct (Hm _ _ _ E) as [-> ->]. split; [done|constructor]. Qed.
Lemma reads_status r s i : load_request r -> only_reads (sector_status r s i).
Proof.
  intros Hr k a k' E. unfold sector_status in E. cbv beta iota delta [mbind KM_bind mret KM_ret gets set_world] in E.
  pose proof (quietly_step (k_world k) (k_world k) r s i (quietly_refl _) Hr) as Hq.
  destruct (sv_request r s i (k_world k)) as [st w]. by injection E as _ <-.
Qed.
Ltac reads := repeat first
  [ apply reads_status; (by left) || (by right)
  | match goal with |- only_reads (_ ≫= _) => apply reads_bind; [|intros ?] end
  | match goal with |- only_reads (if ?b then _ else _) => destruct b end
  | match goal with |- only_reads (match ?x with _ => _ end) => destruct x end
  | apply reads_pure; intros ? ? ?; (by intros [= _ <-]) || done ].
Lemma reads_write_sectors n : forall s raw, only_reads (write_sectors BLK_REQ_PKG_REGISTRY_WRITE s n raw).
Proof.
  induction n as [|n IH]; intros s raw; cbn [write_sectors]; [reads|]. apply reads_bind; [unfold write_sector; reads|].
  intros []; [apply IH|reads].
Qed.
Lemma reads_blob n : forall s st l, only_reads (read_blob_sectors n s st l).
Proof.
  induction n as [|n IH]; intros s st l; cbn [read_blob_sectors]; [reads|]. apply reads_bind; [unfold read_sector; reads|].
  intros [tmp|]; [|reads]. apply reads_bind; [reads|]. intros stage. apply reads_bind; [reads|]. intros _. apply IH.
Qed.
Lemma reads_blob_slot slot l : only_reads (read_blob_into_stage slot l).
Proof. unfold read_blob_into_stage, read_blob_area_into_stage. destruct (_ || _); [reads|apply reads_blob]. Qed.

(** A run of the loader from [k] leaves the table strict and the rest to load. *)
Definition loads (todo : list nat) (k : Kern W) : Prop := table_at true k /\ loading (k_reg k) (k_world k) todo.

Lemma mark_loads slot todo k u k' : loads (slot :: todo) k -> mark_corrupt slot k = Some (u, k') -> loads todo k'.
Proof.
  intros [Ht Hl] E. split; [by eapply keeps_mark|]. unfold mark_corrupt in E. unfold mbind at 1, KM_bind at 1, gets in E.
  destruct (entry_state (k_reg k) slot =? STATE_ACTIVE); [|injection E as _ <-; by eapply loading_next].
  unfold mbind at 1, KM_bind at 1, set_reg at 1 in E. set (k1 := mkKern _ _ _ _ _ _ _ _ _) in E.
  assert (Hw : only_reads (_ ← write_registry; mret tt : KM W unit)).
  { apply reads_bind; [|intros; reads]. apply reads_bind; [reads|]. intros reg. apply reads_write_sectors. }
  apply Hw in E as [-> Hq]. eapply loading_quietly; [exact Hq|]. by apply (loading_mark _ _ _ todo).
Qed.

(** The checks on an image that was read for a slot. *)
Lemma image_loads slot l crc bytes k ok k' : table_at true k -> (checksum bytes = crc -> origin (k_world k) slot bytes) ->
  load_image slot l crc bytes k = Some (ok, k') -> table_at true k' /\ k_reg k' = k_reg k /\ k_world k' = k_world k.
Proof.
  intros Ht Hor E. unfold load_image in E. destruct (Z.eqb_spec (checksum bytes) crc) as [<-|]; cbn [negb] in E; [|by injection E as _ <-].
  specialize (Hor eq_refl). unfold mbind, KM_bind in E. destruct (Dzp.parse bytes) as [pkg|e|] eqn:Hp; cbn [outcome_of] in E; [|by injection E as _ <-|done].
  unfold mret, KM_ret in E. destruct (verify_payload pkg) as [[]|e|] eqn:Hv; cbn in E; [|by injection E as _ <-|done].
  destruct (manifest_str _ _) as [name|] eqn:Hn; [|by injection E as _ <-]. destruct (parse_mcaps _) as [mcaps|] eqn:Hc; [|by injection E as _ <-].
  destruct (_ || _); [by injection E as _ <-|]. split; [by eapply install_entry; [exact Ht| |auto|exact E]|].
  cbv beta iota delta [install_runtime_entry mbind KM_bind mret KM_ret gets set_arena set_pkgs panic] in E.
  destruct (_ <? _); [by injection E as _ <-|]. destruct (_ || _); [done|]. by injection E as _ <-.
Qed.

Lemma slot_loads slot todo k u k' : loads (slot :: todo) k -> load_slot slot k = Some (u, k') -> loads todo k'.
Proof.
  intros Hk E. pose proof Hk as [Ht Hl]. unfold load_slot in E. unfold mbind at 1, KM_bind at 1, gets at 1 in E.
  destruct (Z.eqb_spec (entry_state (k_reg k) slot) STATE_ACTIVE) as [Hs|]; cbn [negb] in E;
    [|injection E as _ <-; split; [done|by eapply loading_next]].
  case_bool_decide as Hm; cbn [negb] in E; [|by eapply mark_loads].
  destruct ((get_u32 (k_reg k) (entry_off slot + 12) =? 0) || _) eqn:Hb; [by eapply mark_loads|].
  apply orb_false_iff in Hb as [Hb1%Z.eqb_neq Hb2%Z.ltb_ge].
  unfold mbind at 1, KM_bind at 1 in E. destruct (read_blob_into_stage _ _ k) as [[ok k1]|] eqn:E1; [|done].
  destruct (reads_blob_slot _ _ _ _ _ E1) as [R1 Q1].
  assert (Ht1 : table_at true k1) by (eapply keeps_read_area; [exact Ht|exact E1]).
  assert (Hk1 : loads (slot :: todo) k1) by (split; [done|]; rewrite R1; by eapply loading_quietly).
  destruct ok; cbn [negb] in E; [|by eapply mark_loads].
  unfold mbind at 1, KM_bind at 1, staged_bytes at 1 in E. unfold mbind at 1, KM_bind at 1, gets at 1 in E.
  destruct (Z.ltb_spec (zlen (k_stage k1)) (get_u32 (k_reg k) (entry_off slot + 12))) as [|Hz]; [done|]. unfold mret at 1, KM_ret at 1 in E. unfold mbind at 1, KM_bind at 1 in E.
  set (bytes := take _ (k_stage k1)) in E. destruct (load_image _ _ _ bytes k1) as [[ok k2]|] eqn:E2; [|done].
  apply image_loads in E2 as (Ht2 & R2 & W2); [|done|].
  - assert (Hk2 : loads (slot :: todo) k2) by (split; [done|]; rewrite R2, W2; apply Hk1).
    destruct ok; cbn [negb] in E; [|by eapply mark_loads]. injection E as _ <-. split; [done|]. by eapply loading_next, Hk2.
  - intros Hc. eapply (origin_load k k1 slot todo bytes Hl); [|exact E1|done| |done]; [split; [done|]; split; [done|]; by split|].
    unfold bytes. rewrite length_take. unfold zlen in Hz. lia.
Qed.

Lemma slots_load todo : forall k u k', loads todo k -> load_slots todo k = Some (u, k') -> table_at true k'.
Proof.
  induction todo as [|slot todo IH]; intros k u k' Hk E; [injection E as _ <-; apply Hk|].
  cbn [load_slots] in E. unfold mbind, KM_bind in E. destruct (load_slot slot k) as [[u1 k1]|] eqn:E1; [|done].
  eapply IH; [|exact E]. by eapply slot_loads.
Qed.

(** An emptied table is strict. *)
Lemma clear_strict k u k' : table_ok k -> clear_runtime_registry k = Some (u, k') -> table_at true k' /\ k_reg k' = k_reg k /\ k_world k' = k_world k.
Proof.
  intros [Hu Ha Hb] [= _ <-]. split; [|done]. split; cbn [k_used k_arena k_pkgs]; [vm_compute; split; discriminate|done|].
  intros i e He. change ([EMPTY_PKG; EMPTY_PKG; EMPTY_PKG; EMPTY_PKG; EMPTY_PKG; EMPTY_PKG; EMPTY_PKG; EMPTY_PKG])
    with (replicate MAX_PKGS EMPTY_PKG) in He. apply lookup_replicate in He as [-> _]. done.
Qed.

Lemma keeps_ensure : keeps ensure_loaded.
Proof.
  unfold ensure_loaded. apply table_bind; [apply keeps_gets|]. intros loaded. apply table_bind; [apply keeps_gets|]. intros degraded.
  destruct (loaded && negb degraded); [apply table_ret|]. intros k a k' Hk E.
  unfold mbind at 1, KM_bind at 1 in E. destruct (and_then read_registry _ k) as [[ok k1]|] eqn:E1; [|done].
  assert (Hk1 : table_ok k1) by (eapply (keeps_and_then false); [apply keeps_read_registry|
    apply keeps_and_then; [apply keeps_recover|apply keeps_read_registry]|exact Hk|exact E1]).
  destruct ok; cbn [negb] in E; [|by injection E as _ <-].
  assert (Hl : loading (k_reg k1) (k_world k1) slots).
  { unfold and_then, mbind, KM_bind in E1. destruct (read_registry k) as [[[] k2]|]; [|by injection E1|done].
    destruct (recover_from_journal false k2) as [[[] k3]|]; [|by injection E1|done]. by apply loading_start in E1. }
  unfold mbind at 1, KM_bind at 1 in E. destruct (clear_runtime_registry k1) as [[u2 k2]|] eqn:E2; [|done].
  apply clear_strict in E2 as (Ht2 & R2 & W2); [|done].
  unfold mbind at 1, KM_bind at 1 in E. destruct (load_slots slots k2) as [[u3 k3]|] eqn:E3; [|done].
  apply slots_load in E3; [|split; [done|by rewrite R2, W2]].
  unfold mbind at 1, KM_bind at 1 in E. destruct (set_loaded true k3) as [[u4 k4]|] eqn:E4; [|done].
  injection E as _ <-. apply strict_table. by eapply keeps_load_true.
Qed.
#[local] Hint Resolve keeps_ensure : keeps.

Lemma keeps_receive n : forall b s c, keeps (receive_lines n b s c : KM W _).
Proof. induction n; cbn [receive_lines]; keep. Qed.
Lemma keeps_upload c : keeps (receive_raw_into_stage c : KM W _).
Proof. apply keeps_receive. Qed.
#[local] Hint Resolve keeps_receive keeps_upload : keeps.

(** The new entry of an install is not run from: the table is loaded anew. *)
Lemma keeps_install slot pkg name version raw_len bytes mcaps {A} (f : bool -> A) :
  verified bytes pkg name mcaps ->
  keeps (ok ← install_runtime_entry slot name version (pkg_kind pkg) mcaps raw_len (checksum bytes) (pkg_payload pkg);
         set_loaded false ;; mret (f ok)).
Proof.
  intros Hv k a k' Hk E. unfold mbind at 1, KM_bind at 1 in E. destruct (install_runtime_entry _ _ _ _ _ _ _ _ k) as [[ok k1]|] eqn:E1; [|done].
  injection E as _ <-. assert (Hk0 : table_ok (mkKern (k_stage k) (k_arena k) (k_used k) (k_pkgs k) false (k_degraded k) (k_reg k) (k_audit k) (k_world k)))
    by (by eapply (keeps_unload false k)).
  eapply (install_entry false slot pkg name version raw_len bytes mcaps _ ok _ Hk0 Hv); [by intros []|].
  revert E1. cbv beta iota delta [install_runtime_entry mbind KM_bind mret KM_ret gets set_arena set_pkgs panic].
  cbn. destruct (_ <? _); [by intros [= <- <-]|]. destruct (_ || _); [done|]. by intros [= <- <-].
Qed.

Lemma keeps_install_tx slot old name version mcaps bytes pkg :
  verified bytes pkg name mcaps -> keeps (install_transaction slot old name version mcaps bytes pkg).
Proof.
  intros Hv. pose proof (keeps_install slot pkg name version (zlen bytes) bytes mcaps (fun ok : bool => if ok then Done else ArenaFull) Hv).
  unfold install_transaction, write_blob, verify_slot_blob, invalidate_loaded. keep.
Qed.
#[local] Hint Resolve keeps_install_tx : keeps.

Lemma keeps_recv chars : keeps (pkg_recv chars).
Proof.
  unfold pkg_recv. apply table_bind; [keep|]. intros ok. destruct (negb ok); [keep|].
  apply table_bind; [keep|]. intros [staged|]; [|keep]. destruct (_ || _); [keep|].
  apply table_bind; [keep|]. intros bytes. apply keeps_outcome; [|keep]. intros pkg Hp.
  destruct (manifest_str _ _) as [name|] eqn:Hn; [|keep]. cbn zeta. destruct (_ || _); [keep|].
  destruct (parse_mcaps _) as [mcaps|] eqn:Hc; [|keep]. apply keeps_outcome; [|keep]. intros [] Hv. cbn [is_ok negb].
  assert (verified bytes pkg name mcaps) by done. keep.
Qed.

Lemma keeps_run arg : keeps (pkg_run arg).
Proof. unfold pkg_run, run_loaded_entry. keep. Qed.
Lemma keeps_remove arg : keeps (pkg_remove arg).
Proof. unfold pkg_remove, invalidate_loaded. keep. Qed.
Lemma keeps_update_tx a b c d e f g h i j l n : keeps (update_transaction a b c d e f g h i j l n).
Proof. unfold update_transaction, write_stage_blob, verify_stage_blob, invalidate_loaded. keep. Qed.
#[local] Hint Resolve keeps_update_tx : keeps.
Lemma keeps_update arg chars : keeps (pkg_update arg chars).
Proof. unfold pkg_update, update_image. keep. Qed.
Lemma keeps_rollback arg : keeps (pkg_rollback arg).
Proof. unfold pkg_rollback, rollback_transaction, read_previous_blob_into_stage, invalidate_loaded. keep. Qed.
Lemma keeps_wipe l : keeps (wipe_slots l).
Proof. unfold wipe_slots, zero_blob_slot. induction l; keep. Qed.
#[local] Hint Resolve keeps_wipe : keeps.

#[local] Hint Resolve keeps_recv keeps_run keeps_remove keeps_update keeps_rollback : keeps.

Lemma exec_keeps c : keeps (exec c).
Proof.
  destruct c; (apply table_bind; [|keep]);
    cbv beta delta [pkg_pin pkg_gc pkg_verify pkg_recover pkg_list pkg_info pkg_versions pkg_review pkg_lifecycle pkg_store
      pkg_journal pkg_fault invalidate_loaded read_blob_into_stage]; keep.
Qed.

Lemma session_keeps cs : keeps (session cs).
Proof. induction cs as [|c cs IH]; [apply table_ret|]. apply table_bind; [apply exec_keeps|done]. Qed.

(** What a run starts is a verified package with its manifest's authority. *)
Definition launch_of (pkg : Package) (name : str) (mcaps : Z) : Launch :=
  if pkg_kind pkg =? KIND_DEZH_IR then
    LaunchIr (pkg_payload pkg) (ir_caps_from mcaps) (app_cairn_ns mcaps name) 0 mcaps
  else if pkg_kind pkg =? KIND_ELF_RISCV64 then LaunchElf (pkg_payload pkg) (task_caps_from mcaps name)
  else LaunchUnknown.

Lemma ensure_loads k k1 : ensure_loaded k = Some (true, k1) -> k_loaded k1 = true.
Proof.
  unfold ensure_loaded. unfold mbind at 1, KM_bind at 1, gets at 1. unfold mbind at 1, KM_bind at 1, gets at 1.
  destruct (k_loaded k) eqn:El; cbn [andb]; [destruct (negb (k_degraded k)); [by intros [= <-]|]|];
    (unfold mbind at 1, KM_bind at 1; destruct (and_then read_registry _ k) as [[[] k2]|]; cbn [negb]; [|done|done];
     unfold mbind at 1, KM_bind at 1; destruct (clear_runtime_registry k2) as [[u k3]|]; [|done];
     unfold mbind at 1, KM_bind at 1; destruct (load_slots slots k3) as [[u' k4]|]; [|done]; by intros [= <-]).
Qed.

(** A run is of a verified image with its origin. *)
Lemma run_of_table k arg l k' : table_ok k -> pkg_run arg k = Some (inr l, k') ->
  exists slot bytes pkg name mcaps, origin (k_world k') slot bytes /\ verified bytes pkg name mcaps /\
    text_or (lit "<bad>") (utf8_encode name) = trim arg /\ l = launch_of pkg (trim arg) mcaps.
Proof.
  intros Hk Hr. unfold pkg_run in Hr. unfold mbind at 1, KM_bind at 1 in Hr.
  destruct (ensure_loaded k) as [[ok k1]|] eqn:He; [|done].
  assert (Hk1 : table_ok k1) by (eapply keeps_ensure; [exact Hk|exact He]).
  destruct ok; cbn [negb] in Hr; [|done]. unfold mbind at 1, KM_bind at 1, gets at 1 in Hr.
  destruct (find_runtime_pkg (trim arg) (k_pkgs k1)) as [i|] eqn:Hf; [|done].
  unfold find_runtime_pkg in Hf. apply find_some in Hf as [_ Hf].
  destruct (k_pkgs k1 !! i) as [e|] eqn:Hi; [|done]. apply andb_true_iff in Hf as [Hu Hn]. apply str_eqb_eq in Hn.
  destruct (tb_back _ k1 Hk1 i e Hi Hu) as (_ & _ & _ & bytes & pkg & name & Hv & Hnm & Hkd & Hpl & _ & Hor).
  unfold run_loaded_entry in Hr. cbv beta iota delta [mbind KM_bind mret KM_ret gets lift audit] in Hr. rewrite Hi in Hr.
  injection Hr as <- <-. exists i, bytes, pkg, name, (pe_mcaps e). split; [apply Hor; right; by eapply ensure_loads|].
  split; [done|]. split; [by rewrite <- Hn; unfold pe_name_str; rewrite Hnm|]. unfold launch_of. by rewrite Hn, Hkd, Hpl.
Qed.
End Safe.

(** A service of which nothing is recorded. *)
Definition no_provenance (W : Type) `{SectorService W} : Provenance W.
Proof. by refine {| loading _ _ _ := True; origin _ _ _ := True |}. Defined.

(** ** A service that is watched

    The same block service with a record of every request: what was asked, the
    status, and the window after it. *)

Record Access := mkAccess { ac_req : Z; ac_sector : Z; ac_status : Z; ac_window : list Z }.
Record Watched (W : Type) := mkWatched { wt_world : W; wt_log : list Access }.
Arguments mkWatched {W}.
Arguments wt_world {W}.
Arguments wt_log {W}.

(** The data window is one sector (the array [read_sector] fills). *)
Class SectorWindow (W : Type) `{SectorService W} := window_sector : forall w, length (sv_window w) = SECTOR_SIZE.

Section Watched.
Context {W : Type} `{SectorWindow W}.

#[export] Instance watched_service : SectorService (Watched W) := {
  sv_request r s i t :=
    let '(st, w) := sv_request r s i (wt_world t) in
    (st, mkWatched w (wt_log t ++ [mkAccess r s st (sv_window w)]));
  sv_window t := sv_window (wt_world t) }.

(** Accesses that read the windows [ws] from consecutive sectors. *)
Fixpoint reads_of (req sector : Z) (ws : list (list Z)) : list Access :=
  match ws with [] => [] | w :: ws => mkAccess req sector SERVICE_OK w :: reads_of req (sector + 1) ws end.

Definition row_agrees (r1 r2 : list Z) (slot : nat) : Prop :=
  forall i, (i < ENTRY_SIZE)%nat -> r1 !! (entry_off slot + i)%nat = r2 !! (entry_off slot + i)%nat.

(** The record is: a registry read in full, then only what a load does. *)
Definition registry_read (log : list Access) (reg : list Z) : Prop :=
  exists pre ws mid, log = pre ++ reads_of BLK_REQ_PKG_REGISTRY_READ PKG_REGISTRY_SECTOR ws ++ mid /\
    length ws = PKG_REGISTRY_SECTORS_USED /\ reg = concat ws /\ Forall (fun a => load_request (ac_req a)) mid.

(** The image that was read for [slot]: in the record, a registry read, and after
    it with no writes between but of the registry, the blob of the slot, whose
    first bytes it is: as many as the entry of the slot says, with the checksum
    the entry gives; the entry is Active. *)
Definition read_from_slot (log : list Access) (slot : nat) (bytes : list Z) : Prop :=
  exists reg before bs after, log = before ++ reads_of BLK_REQ_PKG_BLOB_READ (slot_blob_sector slot) bs ++ after /\
    registry_read before reg /\ loadable reg slot /\
    bytes = take (Z.to_nat (get_u32 reg (entry_off slot + 12))) (concat bs) /\
    length bytes = Z.to_nat (get_u32 reg (entry_off slot + 12)) /\
    checksum bytes = get_u32 reg (entry_off slot + 16).

Definition watched_loading (reg : list Z) (t : Watched W) (todo : list nat) : Prop :=
  NoDup todo /\ (forall s, s ∈ todo -> (s < MAX_PKGS)%nat) /\ length reg = REGISTRY_SIZE /\
  exists reg0, registry_read (wt_log t) reg0 /\ forall s, s ∈ todo -> row_agrees reg reg0 s.

Lemma request_log r s i (t : Watched W) : exists a, ac_req a = r /\ wt_log (sv_request r s i t).2 = wt_log t ++ [a].
Proof. cbn. destruct (sv_request r s i (wt_world t)) as [st w]. eexists (mkAccess _ _ _ _); split; [|reflexivity]; done. Qed.

(** Fields of a row. *)
Lemma same_row_slice r1 r2 slot o n : row_agrees r1 r2 slot -> (o + n <= ENTRY_SIZE)%nat ->
  slice r1 (entry_off slot + o) n = slice r2 (entry_off slot + o) n.
Proof.
  intros Hr Ho. unfold slice. apply list_eq. intros i. destruct (decide (i < n)%nat); [|by rewrite !lookup_take_ge by lia].
  rewrite !lookup_take_lt, !lookup_drop by done. rewrite <- Nat.add_assoc. apply Hr. lia.
Qed.
Lemma same_row_state r1 r2 slot : row_agrees r1 r2 slot -> entry_state r1 slot = entry_state r2 slot.
Proof. intros Hr. unfold entry_state, byte_at. specialize (Hr 0%nat ltac:(unfold ENTRY_SIZE; lia)). rewrite Nat.add_0_r in Hr. by rewrite Hr. Qed.
Lemma same_row_u32 r1 r2 slot o : row_agrees r1 r2 slot -> (o + 4 <= ENTRY_SIZE)%nat ->
  get_u32 r1 (entry_off slot + o) = get_u32 r2 (entry_off slot + o).
Proof. intros Hr Ho. unfold get_u32. by rewrite (same_row_slice r1 r2) by done. Qed.
Lemma same_row_loadable r1 r2 slot : row_agrees r1 r2 slot -> loadable r1 slot -> loadable r2 slot.
Proof.
  intros Hr. unfold loadable. rewrite (same_row_state r1 r2 slot Hr), (same_row_slice r1 r2 slot 1 4 Hr), (same_row_u32 r1 r2 slot 12 Hr)
    by (unfold ENTRY_SIZE; lia). done.
Qed.

(** Marking one row leaves the others. *)
Lemma mark_row reg slot v s : length reg = REGISTRY_SIZE -> (slot < MAX_PKGS)%nat -> s <> slot ->
  length (with_state reg slot v) = REGISTRY_SIZE /\ row_agrees (with_state reg slot v) reg s.
Proof.
  intros Hl Hs Hne. assert (Hin : (entry_off slot + length [v] <= length reg)%nat).
  { rewrite Hl. unfold entry_off, ENTRY_SIZE, REGISTRY_SIZE, MAX_PKGS in *. cbn [length]. lia. }
  unfold with_state, put. split; [by rewrite length_update_slice|]. intros i Hi. rewrite lookup_update_slice by done.
  case_decide as Hd; [|done]. exfalso. unfold entry_off, ENTRY_SIZE in *. cbn [length] in Hd. nia.
Qed.

(** Reading consecutive sectors leaves their windows in the record. *)
Lemma read_sector_log r s (k : Kern (Watched W)) o k' : read_sector r s k = Some (o, k') ->
  length (sv_window (k_world k')) = SECTOR_SIZE /\
  (forall w, o = Some w -> w = sv_window (k_world k') /\ wt_log (k_world k') = wt_log (k_world k) ++ [mkAccess r s SERVICE_OK w]) /\
  k_stage k' = k_stage k.
Proof.
  unfold read_sector, sector_status. cbv beta iota delta [mbind KM_bind mret KM_ret gets set_world]. cbn.
  destruct (sv_request r s None (wt_world (k_world k))) as [st w]. destruct (Z.eqb_spec st SERVICE_OK) as [->|]; cbn;
    intros [= <- <-]; (split; [apply window_sector|]; split; [|done]); intros ? [= <-]; done.
Qed.
Lemma read_sectors_log r n : forall s (k : Kern (Watched W)) bytes k', read_sectors r s n k = Some (Some bytes, k') ->
  exists ws, length ws = n /\ bytes = concat ws /\ length bytes = (n * SECTOR_SIZE)%nat /\
    wt_log (k_world k') = wt_log (k_world k) ++ reads_of r s ws.
Proof.
  induction n as [|n IH]; intros s k bytes k' E; cbn [read_sectors] in E.
  { injection E as <- <-. exists []. by rewrite app_nil_r. }
  unfold mbind at 1, KM_bind at 1 in E. destruct (read_sector r s k) as [[[w|] k1]|] eqn:E1; [|by injection E|done].
  apply read_sector_log in E1 as (Hl & Hw & _). destruct (Hw w eq_refl) as [-> L1].
  unfold mbind at 1, KM_bind at 1 in E. destruct (read_sectors r (s + 1) n k1) as [[[rest|] k2]|] eqn:E2; [|by injection E|done].
  injection E as <- <-. apply IH in E2 as (ws & <- & -> & Hlen & L2). exists (sv_window (k_world k1) :: ws).
  split; [done|]. split; [done|]. split; [rewrite length_app, Hlen; cbn [Nat.mul]; f_equal; exact Hl|]. by rewrite L2, L1, <- app_assoc.
Qed.

(** A blob read into the stage from its start. *)
Lemma read_blob_log n : forall s start raw_len acc (k : Kern (Watched W)) k',
  length acc = start -> take start (k_stage k) = acc -> (start + SECTOR_SIZE * n < raw_len + SECTOR_SIZE)%nat -> (raw_len <= start + SECTOR_SIZE * n)%nat ->
  read_blob_sectors n s start raw_len k = Some (true, k') ->
  exists bs, wt_log (k_world k') = wt_log (k_world k) ++ reads_of BLK_REQ_PKG_BLOB_READ s bs /\
    take raw_len (k_stage k') = take raw_len (acc ++ concat bs).
Proof.
  unfold SECTOR_SIZE. induction n as [|n IH]; intros s start raw_len acc k k' Ha Hst Hlt Hle E; cbn [read_blob_sectors] in E.
  { injection E as <-. exists []. rewrite !app_nil_r. split; [done|]. rewrite <- Hst, take_take. f_equal. lia. }
  unfold mbind at 1, KM_bind at 1 in E. destruct (read_sector _ s k) as [[[w|] k1]|] eqn:E1; [|by injection E|done].
  apply read_sector_log in E1 as (Hl & Hw & Hs1). unfold SECTOR_SIZE in Hl, E. destruct (Hw w eq_refl) as [-> L1]. set (tmp := sv_window (k_world k1)) in *.
  unfold mbind at 1, KM_bind at 1, gets at 1 in E. unfold mbind at 1, KM_bind at 1, set_stage at 1 in E.
  set (k2 := mkKern _ _ _ _ _ _ _ _ _) in E.
  assert (Hs2 : k_stage k2 = acc ++ take (Nat.min (start + 512) raw_len - start) tmp ++
      drop (start + length (take (Nat.min (start + 512) raw_len - start) tmp)) (k_stage k)).
  { cbn. unfold put, update_slice. by rewrite Hs1, Hst. }
  destruct n as [|n].
  - injection E as <-. exists [tmp]. split; [done|]. rewrite Hs2. cbn [concat]. rewrite app_nil_r, Nat.min_r by lia.
    rewrite app_assoc, take_app_le by (rewrite length_app, length_take; lia).
    rewrite <- (take_app_add' acc tmp start) by done. rewrite take_take. f_equal. lia.
  - rewrite Nat.min_l in Hs2 by lia. rewrite (take_ge tmp) in Hs2 by lia.
    apply (IH _ _ _ (acc ++ tmp)) in E as (bs & L2 & Ht); [|rewrite length_app; lia| |lia|lia].
    + exists (tmp :: bs). cbn [reads_of concat]. rewrite app_assoc. split; [|done]. rewrite L2. cbn [k_world k2]. by rewrite L1, <- app_assoc.
    + rewrite Hs2, app_assoc. apply take_app_length'. rewrite length_app. lia.
Qed.

Lemma watched_start (k k' : Kern (Watched W)) : read_registry k = Some (true, k') -> watched_loading (k_reg k') (k_world k') slots.
Proof.
  intros E. unfold read_registry in E. unfold mbind at 1, KM_bind at 1 in E.
  destruct (read_sectors _ _ _ k) as [[[tmp|] k1]|] eqn:E1; [|by injection E|done]. injection E as <-.
  apply read_sectors_log in E1 as (ws & Hn & -> & Hl & L). cbn [k_reg k_world]. split; [apply NoDup_seq|]. split.
  { intros s Hs. apply elem_of_seq in Hs. lia. }
  split; [exact Hl|]. exists (concat ws). split; [|done]. exists (wt_log (k_world k)), ws, []. rewrite app_nil_r. by rewrite L.
Qed.

Lemma watched_request reg (t : Watched W) todo r s i : load_request r -> watched_loading reg t todo -> watched_loading reg (sv_request r s i t).2 todo.
Proof.
  intros Hr (Hnd & Hb & Hl & reg0 & (pre & ws & mid & L & Hn & E & Hmid) & Hrow). split; [done|]. split; [done|]. split; [done|].
  exists reg0. split; [|done]. destruct (request_log r s i t) as (a & Ha & ->). exists pre, ws, (mid ++ [a]).
  rewrite L, <- !app_assoc. split; [done|]. split; [done|]. split; [done|]. apply Forall_app_2; [done|]. constructor; [by rewrite Ha|done].
Qed.

Lemma watched_next reg (t : Watched W) slot todo : watched_loading reg t (slot :: todo) -> watched_loading reg t todo.
Proof.
  intros (Hnd & Hb & Hl & reg0 & Hr & Hrow). split; [by apply NoDup_cons in Hnd as []|]. split; [intros s Hs; apply Hb; by right|].
  split; [done|]. exists reg0. split; [done|]. intros s Hs. apply Hrow. by right.
Qed.

Lemma watched_mark reg (t : Watched W) slot todo v : watched_loading reg t (slot :: todo) -> watched_loading (with_state reg slot v) t todo.
Proof.
  intros (Hnd & Hb & Hl & reg0 & Hr & Hrow). apply NoDup_cons in Hnd as [Hnin Hnd]. pose proof (Hb slot ltac:(left)) as Hs.
  split; [done|]. split; [intros s ?; apply Hb; by right|]. split; [by apply (mark_row reg slot v (S slot)); [| |lia]|].
  exists reg0. split; [done|]. intros s Hin i Hi. destruct (mark_row reg slot v s Hl Hs) as [_ Hm]; [by intros ->|].
  rewrite (Hm i Hi). by apply Hrow; [right|].
Qed.

Lemma watched_load (k k' : Kern (Watched W)) slot todo bytes : watched_loading (k_reg k) (k_world k) (slot :: todo) -> loadable (k_reg k) slot ->
  read_blob_into_stage slot (get_u32 (k_reg k) (entry_off slot + 12)) k = Some (true, k') ->
  bytes = take (Z.to_nat (get_u32 (k_reg k) (entry_off slot + 12))) (k_stage k') ->
  length bytes = Z.to_nat (get_u32 (k_reg k) (entry_off slot + 12)) ->
  checksum bytes = get_u32 (k_reg k) (entry_off slot + 16) -> read_from_slot (wt_log (k_world k')) slot bytes.
Proof.
  intros (_ & _ & _ & reg & Hr & Hrow) Hld E Hb Hn Hc. specialize (Hrow slot ltac:(left)).
  rewrite (same_row_u32 _ reg slot 12 Hrow) in E, Hb, Hn by (unfold ENTRY_SIZE; lia). rewrite (same_row_u32 _ reg slot 16 Hrow) in Hc by (unfold ENTRY_SIZE; lia).
  unfold read_blob_into_stage, read_blob_area_into_stage in E. destruct (_ || _); [by injection E|].
  set (n := get_u32 reg (entry_off slot + 12)) in *. unfold div_ceil in E.
  assert (Hsec : exists bs, wt_log (k_world k') = wt_log (k_world k) ++ reads_of BLK_REQ_PKG_BLOB_READ (slot_blob_sector slot) bs /\
    take (Z.to_nat n) (k_stage k') = take (Z.to_nat n) (concat bs)).
  { apply (read_blob_log _ _ 0 _ []) in E; [exact E|done|done|..]; unfold SECTOR_SIZE; Z.to_euclidean_division_equations; lia. }
  destruct Hsec as (bs & L & Ht). exists reg, (wt_log (k_world k)), bs, []. rewrite app_nil_r. split; [done|]. split; [done|].
  split; [by eapply same_row_loadable|]. split; [rewrite Hb; exact Ht|]. split; [exact Hn|exact Hc].
Qed.

Lemma watched_origin (t : Watched W) slot bytes r s i : read_from_slot (wt_log t) slot bytes -> read_from_slot (wt_log (sv_request r s i t).2) slot bytes.
Proof.
  intros (reg & before & bs & after & L & ?). destruct (request_log r s i t) as (a & _ & ->). exists reg, before, bs, (after ++ [a]).
  split; [|done]. by rewrite L, <- !app_assoc.
Qed.

Definition watched_provenance : Provenance (Watched W) := {|
  loading := watched_loading; origin t := read_from_slot (wt_log t);
  loading_start := watched_start; loading_request := watched_request; loading_next := watched_next; loading_mark := watched_mark;
  origin_load := watched_load; origin_request := watched_origin |}.

(** C4: After any sequence of package commands from boot, on any disk contents and any answers of the
    block service, a package run starts exactly this: an image whose bytes are those the service handed
    over for the blob sectors of one slot, read after a full registry read with only loads in between,
    as many bytes as that slot's Active entry says and with the checksum it gives; the image parses, its
    payload passes its verifier, its manifest carries the name asked for, and the program gets the
    payload of that image with exactly the authority of that image's manifest. *)
Theorem only_verified_packages_run cs (w : W) k arg l k' :
  session cs (boot (mkWatched w [])) = Some (tt, k) -> pkg_run arg k = Some (inr l, k') ->
  exists slot bytes pkg name mcaps, read_from_slot (wt_log (k_world k')) slot bytes /\ verified bytes pkg name mcaps /\
    text_or (lit "<bad>") (utf8_encode name) = trim arg /\ l = launch_of pkg (trim arg) mcaps.
Proof.
  intros Hs. apply (@run_of_table _ _ watched_provenance). eapply (@session_keeps _ _ watched_provenance); [apply boot_ok|exact Hs].
Qed.
End Watched.
