(* ===== verification/Intent.v ===== *)
(** * Intents and leases (dezh-boot/src/pkg.rs, the Ahd commands)

    An Ahd is a declared capability ceiling with a bound on its uses.  The table
    of open intents, the gate every [intent-run] passes, and the runs themselves
    over the package store of [Pkg].  A session mixes intent commands with the
    commands of the package store, on any disk and any block service. *)

From Stdlib Require Import ZArith Lia String.
From stdpp Require Import base option strings numbers list.
From S2P Require Import Prelude Text B64 Dzp Ir Mcap Pkg PkgOps PkgSafe.

Definition AHD_KINDS : list (str * Z) :=
  [(lit "compute", MCAP_PRINT);
   (lit "reader", MCAP_PRINT .| MCAP_CAIRN_READ);
   (lit "writer", MCAP_PRINT .| MCAP_CAIRN_READ .| MCAP_CAIRN_WRITE);
   (lit "ipc", MCAP_PRINT .| MCAP_IPC);
   (lit "full", MCAP_PRINT .| MCAP_IPC .| MCAP_UPTIME .| MCAP_CAIRN_READ .| MCAP_CAIRN_WRITE)].
Definition ahd_kind (kind : str) : option (str * Z) := find (fun kc => str_eqb kc.1 kind) AHD_KINDS.

Definition MAX_AHD : nat := 16.
Definition AHD_UNLIMITED : Z := 2 ^ 32 - 1.

Record AhdSlot := mkAhd { a_used : bool; a_id : Z; a_kind : str; a_ceiling : Z; a_lease : Z; a_revoked : bool }.
Definition EMPTY_AHD : AhdSlot := mkAhd false 0 [] 0 AHD_UNLIMITED false.

(** [AHDS] and [AHD_NEXT_ID]. *)
Record AhdTable := mkAhds { ahds : list AhdSlot; next_id : Z }.
Definition ahd_boot : AhdTable := mkAhds (replicate MAX_AHD EMPTY_AHD) 1.
Definition ahd (T : AhdTable) (i : nat) : AhdSlot := default EMPTY_AHD (ahds T !! i).
Definition set_ahd (i : nat) (a : AhdSlot) (T : AhdTable) : AhdTable := mkAhds (<[i := a]> (ahds T)) (next_id T).

Definition open_ahd (kind : str) (lease : Z) (T : AhdTable) : option (Z * Z * AhdTable) :=
  '(kname, ceiling) ← ahd_kind kind;
  slot ← find (fun i => negb (a_used (ahd T i))) (seq 0 MAX_AHD);
  let id := next_id T in
  Some (id, ceiling, mkAhds (<[slot := mkAhd true id kname ceiling lease false]> (ahds T)) (wrap 16 (id + 1))).
Definition open_intent (kind : str) (T : AhdTable) : option (Z * Z * AhdTable) := open_ahd kind AHD_UNLIMITED T.

Definition ahd_slot_index (id : Z) (T : AhdTable) : option nat :=
  find (fun i => a_used (ahd T i) && (a_id (ahd T i) =? id)) (seq 0 MAX_AHD).

(** [str::parse] of an unsigned integer: an optional plus, then digits. *)
Fixpoint digits_value (acc : Z) (s : str) : option Z :=
  match s with
  | [] => Some acc
  | c :: s => if (48 <=? c) && (c <=? 57) then digits_value (acc * 10 + (c - 48)) s else None
  end.
Definition parse_unsigned (w : Z) (s : str) : option Z :=
  let s := match s with c :: r => if c =? 43 then r else s | [] => s end in
  match s with [] => None | _ => v ← digits_value 0 s; if v <? 2 ^ w then Some v else None end.

Definition revoked_ahd (a : AhdSlot) : AhdSlot := mkAhd (a_used a) (a_id a) (a_kind a) (a_ceiling a) 0 true.
(** One use of a finite lease. *)
Definition spent (a : AhdSlot) : AhdSlot :=
  if a_lease a =? AHD_UNLIMITED then a
  else mkAhd (a_used a) (a_id a) (a_kind a) (a_ceiling a) (a_lease a - 1) ((a_lease a - 1 =? 0) || a_revoked a).

Inductive LeaseUse := Authorized (left : Z) | DeniedRevoked | DeniedExhausted.

(** [lease_use]; [None] is the failed [expect]. *)
Definition lease_use (id : Z) (T : AhdTable) : option (LeaseUse * AhdTable) :=
  slot ← ahd_slot_index id T;
  let a := ahd T slot in
  if a_revoked a then Some (DeniedRevoked, T)
  else if a_lease a =? 0 then Some (DeniedExhausted, T)
  else Some (Authorized (if a_lease a =? AHD_UNLIMITED then AHD_UNLIMITED else a_lease a - 1), set_ahd slot (spent a) T).

(** What a command did. *)
Inductive IntentEvent :=
| Opened (id ceiling lease : Z) | Withdrawn (id : Z) | Launched (id derived : Z) (l : Launch) | Refused | Bystander.

Section Commands.
Context {W : Type} `{SectorService W}.

Definition intent_open (arg : str) (T : AhdTable) : KM W (IntentEvent * AhdTable) :=
  match split_whitespace arg with
  | [] => mret (Refused, T)
  | kind :: rest =>
    match (match rest with [] => Some AHD_UNLIMITED | n :: _ => parse_unsigned 32 n end) with
    | None => mret (Refused, T)
    | Some lease =>
      match open_ahd kind lease T with
      | None => mret (Refused, T)
      | Some (id, ceiling, T) => audit "intent" "intent.open" "ahd" "OK" ;; mret (Opened id ceiling lease, T)
      end
    end
  end.

Definition intent_revoke (arg : str) (T : AhdTable) : KM W (IntentEvent * AhdTable) :=
  match parse_unsigned 16 (trim arg) with
  | None => mret (Refused, T)
  | Some id =>
    match ahd_slot_index id T with
    | None => audit "intent" "intent.revoke" "ahd" "DENIED" ;; mret (Refused, T)
    | Some slot =>
      if a_revoked (ahd T slot) then mret (Refused, T)
      else audit "intent" "intent.revoke" "ahd" "OK" ;; mret (Withdrawn id, set_ahd slot (revoked_ahd (ahd T slot)) T)
    end
  end.

Definition intent_run (arg : str) (T : AhdTable) : KM W (IntentEvent * AhdTable) :=
  match split_once 32 (trim arg) with
  | None => mret (Refused, T)
  | Some (a, b) =>
    match parse_unsigned 16 (trim a) with
    | None => mret (Refused, T)
    | Some id =>
      match ahd_slot_index id T with
      | None => audit "intent" "intent.run" "ahd" "DENIED" ;; mret (Refused, T)
      | Some slot =>
        let s := ahd T slot in
        if a_revoked s || (a_lease s =? 0) then audit "intent" "intent.run" "ahd" "DENIED" ;; mret (Refused, T) else
        ok ← ensure_loaded;
        if negb ok then mret (Refused, T) else
        pkgs ← gets k_pkgs;
        match find_runtime_pkg (trim b) pkgs with
        | None => audit "intent" "intent.run" "package" "DENIED" ;; mret (Refused, T)
        | Some i =>
          e ← lift (pkgs !! i);
          let derived := pe_mcaps e & a_ceiling s in
          (if pe_mcaps e & unot 32 (a_ceiling s) =? 0 then mret tt else audit "intent" "intent.derive" "cap" "DENIED") ;;
          l ← run_loaded_entry i derived id;
          (if a_lease s - 1 =? 0 then audit "intent" "intent.lease" "ahd" "EXPIRED" else mret tt) ;;
          mret (Launched id derived l, set_ahd slot (spent s) T)
        end
      end
    end
  end.

Inductive ICmd := IOpen (arg : str) | IRevoke (arg : str) | IRun (arg : str) | IPkg (c : PkgCmd).

Definition iexec (c : ICmd) (T : AhdTable) : KM W (IntentEvent * AhdTable) :=
  match c with
  | IOpen arg => intent_open arg T
  | IRevoke arg => intent_revoke arg T
  | IRun arg => intent_run arg T
  | IPkg c => exec c ;; mret (Bystander, T)
  end.

(** The events of a session, in order. *)
Fixpoint isession (cs : list ICmd) (evs : list IntentEvent) (T : AhdTable) : KM W (list IntentEvent * AhdTable) :=
  match cs with
  | [] => mret (evs, T)
  | c :: cs => '(ev, T) ← iexec c T; isession cs (evs ++ [ev]) T
  end.
End Commands.

Definition lease_demo (T : AhdTable) : option (bool * AhdTable) :=
  match open_ahd (lit "compute") 1 T with
  | None => Some (false, T)
  | Some (a, _, T) =>
    '(use1, T) ← lease_use a T;
    '(use2, T) ← lease_use a T;
    match open_ahd (lit "compute") AHD_UNLIMITED T with
    | None => Some (false, T)
    | Some (b, _, T) =>
      let T := match ahd_slot_index b T with Some slot => set_ahd slot (revoked_ahd (ahd T slot)) T | None => T end in
      '(use3, T) ← lease_use b T;
      let denied u := match u with Authorized _ => false | _ => true end in
      Some (negb (denied use1) && denied use2 && denied use3, T)
    end
  end.

(** ** What the table remembers *)

Definition names_id (ev : IntentEvent) (id : Z) : Prop :=
  match ev with Opened i _ _ | Withdrawn i | Launched i _ _ => i = id | Refused | Bystander => False end.
Definition launches_b (id : Z) (ev : IntentEvent) : bool := match ev with Launched i _ _ => i =? id | _ => false end.
(** How often [id] has authorized a run. *)
Definition runs (id : Z) (evs : list IntentEvent) : Z := foldr (fun ev n => if launches_b id ev then n + 1 else n) 0 evs.

(** Slot [i] holds intent [i + 1], and agrees with what happened. *)
Record slot_ok (evs : list IntentEvent) (i : nat) (a : AhdSlot) : Prop := {
  so_used : a_used a = true;
  so_id : a_id a = Z.of_nat i + 1;
  so_lease : 0 <= a_lease a;
  so_history : exists n, Opened (Z.of_nat i + 1) (a_ceiling a) n ∈ evs /\ 0 <= n <= AHD_UNLIMITED /\
    (a_revoked a = false -> (Withdrawn (Z.of_nat i + 1) ∉ evs) /\
       (n = AHD_UNLIMITED -> a_lease a = AHD_UNLIMITED) /\ (n <> AHD_UNLIMITED -> a_lease a + runs (Z.of_nat i + 1) evs = n)) }.

Record intents_ok (evs : list IntentEvent) (T : AhdTable) (m : nat) : Prop := {
  io_length : length (ahds T) = MAX_AHD;
  io_bound : (m <= MAX_AHD)%nat;
  io_next : next_id T = Z.of_nat m + 1;
  io_free i : (m <= i)%nat -> a_used (ahd T i) = false;
  io_slot i : (i < m)%nat -> slot_ok evs i (ahd T i);
  io_ids ev id : ev ∈ evs -> names_id ev id -> 1 <= id <= Z.of_nat m }.

Lemma runs_snoc id evs ev : runs id (evs ++ [ev]) = runs id evs + (if launches_b id ev then 1 else 0).
Proof.
  unfold runs. induction evs as [|x evs IH]; cbn; [destruct (launches_b id ev); reflexivity|].
  rewrite IH. destruct (launches_b id x); lia.
Qed.

Lemma runs_nonneg id evs : 0 <= runs id evs.
Proof. induction evs as [|x evs IH]; cbn; [lia|]. destruct (launches_b id x); unfold runs in IH; lia. Qed.

Lemma runs_fresh id evs : (forall ev, ev ∈ evs -> ~ names_id ev id) -> runs id evs = 0.
Proof.
  induction evs as [|x evs IH]; intros H; [reflexivity|]. cbn [runs foldr]. fold (runs id evs).
  rewrite IH by (intros ev He; apply H; right; exact He).
  destruct (launches_b id x) eqn:E; [|reflexivity]. destruct (H x ltac:(left)). destruct x; try discriminate. cbn in *. apply Z.eqb_eq, E.
Qed.

Lemma ahd_set i j a T : (i < length (ahds T))%nat -> ahd (set_ahd i a T) j = if decide (i = j) then a else ahd T j.
Proof.
  intros Hi. unfold ahd, set_ahd. cbn [ahds]. case_decide as Hd; [subst j; rewrite list_lookup_insert_eq by exact Hi; reflexivity|].
  rewrite list_lookup_insert_ne by exact Hd. reflexivity.
Qed.

(** An event that does not name the slot's intent keeps the slot. *)
Lemma slot_ok_other evs i a ev : ~ names_id ev (Z.of_nat i + 1) -> slot_ok evs i a -> slot_ok (evs ++ [ev]) i a.
Proof.
  intros Hn [U I L (n & Ho & Hb & Hr)]. constructor; auto. exists n. split; [apply elem_of_app; auto|]. split; [exact Hb|].
  intros E. destruct (Hr E) as (Hw & Hu & Hl). split; [|split; [exact Hu|]].
  - rewrite elem_of_app, list_elem_of_singleton. intros [K|K]; [exact (Hw K)|]. subst ev. apply Hn. reflexivity.
  - intros N. rewrite runs_snoc. assert (launches_b (Z.of_nat i + 1) ev = false) as ->; [|rewrite Z.add_0_r; exact (Hl N)].
    destruct ev; try reflexivity. cbn in *. apply Z.eqb_neq. exact Hn.
Qed.

Lemma quiet_ok evs T m ev : (forall id, ~ names_id ev id) -> intents_ok evs T m -> intents_ok (evs ++ [ev]) T m.
Proof.
  intros Hn []. constructor; auto.
  - intros i Hi. apply slot_ok_other; auto.
  - intros e id. rewrite elem_of_app, list_elem_of_singleton. intros [He| ->]; [eauto|]. intros K. destruct (Hn _ K).
Qed.

Lemma slot_index_ok evs T m id slot : intents_ok evs T m -> ahd_slot_index id T = Some slot -> (slot < m)%nat /\ id = Z.of_nat slot + 1.
Proof.
  intros H Hf. apply find_some in Hf as [_ Hf]. apply andb_true_iff in Hf as [Hu Hi]. apply Z.eqb_eq in Hi.
  assert (Hm : (slot < m)%nat).
  { destruct (decide (slot < m)%nat) as [K|K]; [exact K|]. rewrite (io_free _ _ _ H) in Hu by lia. discriminate. }
  split; [exact Hm|]. rewrite <- Hi. apply (so_id _ _ _ (io_slot _ _ _ H slot Hm)).
Qed.

(** Rewriting one open slot, with an event that names it. *)
Lemma update_ok evs T m slot a ev : intents_ok evs T m -> (slot < m)%nat -> (forall id, names_id ev id -> id = Z.of_nat slot + 1) ->
  slot_ok (evs ++ [ev]) slot a -> intents_ok (evs ++ [ev]) (set_ahd slot a T) m.
Proof.
  intros H Hm Hn Hs. pose proof H as [Hl Hb Hx Hf Hk Hi]. assert (S : (slot < length (ahds T))%nat) by (rewrite Hl; lia).
  constructor; auto.
  - cbn. rewrite length_insert. exact Hl.
  - intros i Hi'. rewrite ahd_set by exact S. rewrite decide_False by lia. auto.
  - intros i Hi'. rewrite ahd_set by exact S. case_decide as Hd; [subst i; exact Hs|]. apply slot_ok_other; [|auto].
    intros K. apply Hn in K. lia.
  - intros e id. rewrite elem_of_app, list_elem_of_singleton. intros [He| ->]; [eauto|]. intros K. apply Hn in K. lia.
Qed.

Lemma find_seq_first f a n k : find f (seq a n) = Some k -> (a <= k < a + n)%nat /\ f k = true /\ forall j, (a <= j < k)%nat -> f j = false.
Proof.
  revert a. induction n as [|n IH]; intros a; cbn; [discriminate|]. destruct (f a) eqn:E.
  - intros [= <-]. split; [lia|]. split; [exact E|]. lia.
  - intros Hf. destruct (IH _ Hf) as (Hr & Hk & Hj). split; [lia|]. split; [exact Hk|]. intros j Hj'.
    destruct (decide (j = a)) as [-> |]; [exact E|]. apply Hj. lia.
Qed.

Lemma open_ok evs T m kind lease id ceiling T' : intents_ok evs T m -> 0 <= lease <= AHD_UNLIMITED ->
  open_ahd kind lease T = Some (id, ceiling, T') -> intents_ok (evs ++ [Opened id ceiling lease]) T' (S m).
Proof.
  intros H Hl. pose proof H as [HL Hb Hx Hf Hk Hi]. unfold open_ahd. destruct (ahd_kind kind) as [[kn c]|]; [|discriminate]. cbn [mbind option_bind].
  destruct (find _ _) as [slot|] eqn:E; [|discriminate]. intros [= <- <- <-].
  apply find_seq_first in E as (Hr & Hu & Hj). apply negb_true_iff in Hu.
  assert (slot = m) as ->.
  { destruct (decide (slot < m)%nat) as [K|K]; [rewrite (so_used _ _ _ (Hk _ K)) in Hu; discriminate|].
    destruct (decide (slot = m)) as [|K']; [assumption|]. specialize (Hj m ltac:(lia)). rewrite (Hf m) in Hj by lia. discriminate. }
  rewrite Hx. set (a := mkAhd _ _ _ _ _ _). set (T1 := mkAhds _ _).
  assert (A : forall j, ahd T1 j = if decide (m = j) then a else ahd T j) by (intros j; apply (ahd_set m j a T); rewrite HL; unfold MAX_AHD in *; lia).
  assert (F : forall ev, ev ∈ evs -> ~ names_id ev (Z.of_nat m + 1)) by (intros ev He K; specialize (Hi ev _ He K); lia).
  constructor.
  - cbn. rewrite length_insert. exact HL.
  - unfold MAX_AHD in *. lia.
  - cbn. rewrite wrap_small; [lia|]. unfold fits. unfold MAX_AHD in *. lia.
  - intros i Hi'. rewrite A, decide_False by lia. apply Hf. lia.
  - intros i Hi'. rewrite A. case_decide as Hd.
    + subst i. constructor; [reflexivity|reflexivity|apply Hl|]. exists lease. split; [apply elem_of_app; right; left|]. split; [exact Hl|].
      intros _. split; [|split; [intros ->; reflexivity|]].
      * rewrite elem_of_app, list_elem_of_singleton. intros [K|K]; [exact (F _ K eq_refl)|discriminate].
      * intros _. rewrite runs_snoc, runs_fresh by exact F. cbn. lia.
    + apply slot_ok_other; [cbn; lia|]. apply Hk. lia.
  - intros ev id. rewrite elem_of_app, list_elem_of_singleton. intros [He| ->] K; [specialize (Hi ev id He K); lia|cbn in K; lia].
Qed.

Lemma revoke_ok evs T m id slot : intents_ok evs T m -> ahd_slot_index id T = Some slot ->
  intents_ok (evs ++ [Withdrawn id]) (set_ahd slot (revoked_ahd (ahd T slot)) T) m.
Proof.
  intros H Hs. destruct (slot_index_ok _ _ _ _ _ H Hs) as [Hm ->]. apply update_ok; [exact H|exact Hm|cbn; congruence|].
  destruct (io_slot _ _ _ H slot Hm) as [U I L (n & Ho & Hb & _)]. constructor; cbn; auto; [lia|].
  exists n. split; [apply elem_of_app; auto|]. split; [exact Hb|discriminate].
Qed.

(** The gate: an authorized use finds the ceiling it was opened with, unrevoked,
    and fewer runs than its lease. *)
Lemma use_ok evs T m id slot derived l : intents_ok evs T m -> ahd_slot_index id T = Some slot ->
  a_revoked (ahd T slot) = false -> a_lease (ahd T slot) <> 0 ->
  intents_ok (evs ++ [Launched id derived l]) (set_ahd slot (spent (ahd T slot)) T) m /\
  exists n, Opened id (a_ceiling (ahd T slot)) n ∈ evs /\ (Withdrawn id ∉ evs) /\ (n <> AHD_UNLIMITED -> runs id evs < n).
Proof.
  intros H Hs Hr Hl. destruct (slot_index_ok _ _ _ _ _ H Hs) as [Hm ->].
  destruct (io_slot _ _ _ H slot Hm) as [U I L (n & Ho & Hb & Hh)]. destruct (Hh Hr) as (Hw & Hu & Hn).
  pose proof (runs_nonneg (Z.of_nat slot + 1) evs) as R0. split.
  - apply update_ok; [exact H|exact Hm|cbn; congruence|]. unfold spent. destruct (a_lease (ahd T slot) =? AHD_UNLIMITED) eqn:E.
    + apply Z.eqb_eq in E. constructor; auto. exists n. split; [apply elem_of_app; auto|]. split; [exact Hb|]. intros _.
      split; [|split; [exact Hu|]].
      * rewrite elem_of_app, list_elem_of_singleton. intros [K|K]; [exact (Hw K)|discriminate].
      * intros N. specialize (Hn N). lia.
    + apply Z.eqb_neq in E. constructor; cbn; auto; [lia|]. exists n. split; [apply elem_of_app; auto|]. split; [exact Hb|].
      intros _. split; [|split].
      * rewrite elem_of_app, list_elem_of_singleton. intros [K|K]; [exact (Hw K)|discriminate].
      * intros N. specialize (Hu N). contradiction.
      * intros N. rewrite runs_snoc. cbn. rewrite Z.eqb_refl. specialize (Hn N). lia.
  - exists n. split; [exact Ho|]. split; [exact Hw|]. intros N. specialize (Hn N). lia.
Qed.

(** ** Runs under an intent *)

(** What a run hands to the engine: a verified package, with the authority
    derived for it and the intent it acts for. *)
Definition launch_under (pkg : Package) (name : str) (derived id : Z) : Launch :=
  if pkg_kind pkg =? KIND_DEZH_IR then
    LaunchIr (pkg_payload pkg) (ir_caps_from derived) (app_cairn_ns derived name) id derived
  else if pkg_kind pkg =? KIND_ELF_RISCV64 then LaunchElf (pkg_payload pkg) (task_caps_from derived name)
  else LaunchUnknown.

Definition sanctioned (evs : list IntentEvent) (id derived : Z) (l : Launch) : Prop :=
  exists ceiling n bytes pkg name mcaps, Opened id ceiling n ∈ evs /\ (Withdrawn id ∉ evs) /\
    (n <> AHD_UNLIMITED -> runs id evs < n) /\ verified bytes pkg name mcaps /\ derived = (mcaps & ceiling) /\
    l = launch_under pkg (text_or (lit "<bad>") (utf8_encode name)) derived id.

Section Runs.
Context {W : Type} `{SV : SectorService W}.
#[local] Instance any_service : Provenance W := no_provenance W.
#[local] Abbreviation table_ok := (table_at false).
#[local] Abbreviation keeps := (keeps_at false).

Lemma loaded_launch (k k' : Kern W) i e name m id l : table_ok k -> find_runtime_pkg name (k_pkgs k) = Some i -> k_pkgs k !! i = Some e ->
  run_loaded_entry i m id k = Some (l, k') ->
  exists bytes pkg nm, verified bytes pkg nm (pe_mcaps e) /\ l = launch_under pkg (text_or (lit "<bad>") (utf8_encode nm)) m id.
Proof.
  intros Hk Hf Hi Hr. unfold find_runtime_pkg in Hf. apply find_some in Hf as [_ Hf]. rewrite Hi in Hf.
  apply andb_true_iff in Hf as [Hu Hn]. destruct (tb_back _ k Hk i e Hi Hu) as (_ & _ & _ & bytes & pkg & nm & Hv & Hnm & Hkd & Hpl & _).
  exists bytes, pkg, nm. split; [exact Hv|]. unfold run_loaded_entry in Hr. cbv beta iota delta [mbind KM_bind mret KM_ret gets lift audit] in Hr.
  rewrite Hi in Hr. injection Hr as <- _. unfold launch_under, pe_name_str. rewrite Hnm, Hkd, Hpl. reflexivity.
Qed.

Lemma keeps_note a b c d : keeps (audit a b c d : KM W unit).
Proof. intros k u k' [] [= _ <-]. constructor; assumption. Qed.

Lemma keeps_entry_run i m id : keeps (run_loaded_entry i m id : KM W Launch).
Proof.
  unfold run_loaded_entry. apply table_bind; [apply keeps_gets|]. intros p. apply table_bind; [apply keeps_gets|]. intros ar.
  apply table_bind; [apply keeps_lift|]. intros en. apply table_bind; [apply keeps_note|]. intros u. apply table_ret.
Qed.

Lemma bind_run {A B} (m : KM W A) (f : A -> KM W B) k b k' : (m ≫= f) k = Some (b, k') -> exists a k1, m k = Some (a, k1) /\ f a k1 = Some (b, k').
Proof. unfold mbind, KM_bind. destruct (m k) as [[a k1]|]; [|discriminate]. eauto. Qed.

(** One command keeps the table, the package table, and sanctions its launch. *)
Definition command_ok (evs : list IntentEvent) (k k' : Kern W) (ev : IntentEvent) (T' : AhdTable) : Prop :=
  table_ok k' /\ (exists m, intents_ok (evs ++ [ev]) T' m) /\ forall id d l, ev = Launched id d l -> sanctioned evs id d l.

Lemma quiet_command evs T m k k' ev : intents_ok evs T m -> table_ok k' -> (forall id, ~ names_id ev id) -> command_ok evs k k' ev T.
Proof. intros H Hk Hn. split; [exact Hk|]. split; [exists m; apply quiet_ok; assumption|]. intros id d l ->. destruct (Hn id eq_refl). Qed.

Lemma digits_nonneg s : forall acc v, 0 <= acc -> digits_value acc s = Some v -> 0 <= v.
Proof.
  induction s as [|c s IH]; intros acc v Ha; cbn; [intros [= <-]; exact Ha|]. destruct (_ && _) eqn:E; [|discriminate].
  apply andb_true_iff in E as [E _]. apply Z.leb_le in E. apply IH. lia.
Qed.

Lemma parse_unsigned_range w s v : parse_unsigned w s = Some v -> 0 <= v < 2 ^ w.
Proof.
  unfold parse_unsigned. set (t := match s with c :: r => _ | [] => _ end). destruct t as [|c r] eqn:Et; [discriminate|].
  destruct (digits_value 0 (c :: r)) as [x|] eqn:E; [|discriminate]. cbn [mbind option_bind]. destruct (x <? 2 ^ w) eqn:L; [|discriminate].
  intros [= <-]. apply Z.ltb_lt in L. pose proof (digits_nonneg _ _ _ (Z.le_refl 0) E). lia.
Qed.

Lemma intent_open_ok evs T m k arg ev T' k' : intents_ok evs T m -> table_ok k -> intent_open arg T k = Some ((ev, T'), k') -> command_ok evs k k' ev T'.
Proof.
  intros H Hk. unfold intent_open. destruct (split_whitespace arg) as [|kind rest].
  { intros [= <- <- <-]. eapply quiet_command; eauto. }
  destruct (match rest with [] => _ | n :: _ => _ end) as [lease|] eqn:El; [|intros [= <- <- <-]; eapply quiet_command; eauto].
  assert (Hl : 0 <= lease <= AHD_UNLIMITED).
  { unfold AHD_UNLIMITED. destruct rest as [|n ?]; [injection El as <-; unfold AHD_UNLIMITED; lia|]. apply parse_unsigned_range in El. lia. }
  destruct (open_ahd kind lease T) as [[[id c] T1]|] eqn:Eo; [|intros [= <- <- <-]; eapply quiet_command; eauto].
  intros E. apply bind_run in E as (u & k1 & E1 & [= <- <- <-]). split; [exact (keeps_note _ _ _ _ _ _ _ Hk E1)|].
  split; [exists (S m); exact (open_ok _ _ _ _ _ _ _ _ H Hl Eo)|discriminate].
Qed.

Lemma intent_revoke_ok evs T m k arg ev T' k' : intents_ok evs T m -> table_ok k -> intent_revoke arg T k = Some ((ev, T'), k') -> command_ok evs k k' ev T'.
Proof.
  intros H Hk. unfold intent_revoke. destruct (parse_unsigned 16 (trim arg)) as [id|]; [|intros [= <- <- <-]; eapply quiet_command; eauto].
  destruct (ahd_slot_index id T) as [slot|] eqn:Es.
  - destruct (a_revoked (ahd T slot)); [intros [= <- <- <-]; eapply quiet_command; eauto|].
    intros E. apply bind_run in E as (u & k1 & E1 & [= <- <- <-]). split; [exact (keeps_note _ _ _ _ _ _ _ Hk E1)|].
    split; [exists m; exact (revoke_ok _ _ _ _ _ H Es)|discriminate].
  - intros E. apply bind_run in E as (u & k1 & E1 & [= <- <- <-]). eapply quiet_command; eauto. exact (keeps_note _ _ _ _ _ _ _ Hk E1).
Qed.

Lemma intent_run_ok evs T m k arg ev T' k' : intents_ok evs T m -> table_ok k -> intent_run arg T k = Some ((ev, T'), k') -> command_ok evs k k' ev T'.
Proof.
  intros H Hk. unfold intent_run. destruct (split_once 32 (trim arg)) as [[a b]|]; [|intros [= <- <- <-]; eapply quiet_command; eauto].
  destruct (parse_unsigned 16 (trim a)) as [id|]; [|intros [= <- <- <-]; eapply quiet_command; eauto].
  destruct (ahd_slot_index id T) as [slot|] eqn:Es.
  2: { intros E. apply bind_run in E as (u & k1 & E1 & [= <- <- <-]). eapply quiet_command; eauto. exact (keeps_note _ _ _ _ _ _ _ Hk E1). }
  cbv zeta. destruct (a_revoked (ahd T slot) || (a_lease (ahd T slot) =? 0)) eqn:Eg.
  { intros E. apply bind_run in E as (u & k1 & E1 & [= <- <- <-]). eapply quiet_command; eauto. exact (keeps_note _ _ _ _ _ _ _ Hk E1). }
  apply orb_false_iff in Eg as [Er El]. apply Z.eqb_neq in El.
  intros E. apply bind_run in E as (ok & k1 & E1 & E). pose proof (keeps_ensure _ _ _ Hk E1) as Hk1.
  destruct ok; cbn [negb] in E; [|injection E as <- <- <-; eapply quiet_command; eauto].
  apply bind_run in E as (pkgs & k2 & [= <- <-] & E).
  destruct (find_runtime_pkg (trim b) (k_pkgs k1)) as [i|] eqn:Ef.
  2: { apply bind_run in E as (u & k3 & E3 & [= <- <- <-]). eapply quiet_command; eauto. exact (keeps_note _ _ _ _ _ _ _ Hk1 E3). }
  apply bind_run in E as (e & k3 & E3 & E). destruct (k_pkgs k1 !! i) as [e'|] eqn:Ei; [|discriminate]. injection E3 as <- <-.
  apply bind_run in E as (u & k4 & E4 & E).
  assert (K4 : table_ok k4 /\ k_pkgs k4 = k_pkgs k1).
  { destruct (_ =? 0); [injection E4 as _ <-; auto|]. split; [exact (keeps_note _ _ _ _ _ _ _ Hk1 E4)|]. injection E4 as _ <-. reflexivity. }
  destruct K4 as [Hk4 Ep]. apply bind_run in E as (l & k5 & E5 & E). apply bind_run in E as (u' & k6 & E6 & [= <- <- <-]).
  destruct (use_ok evs T m id slot (pe_mcaps e' & a_ceiling (ahd T slot)) l H Es Er El) as [Hnew (n & Ho & Hw & Hn)].
  rewrite <- Ep in Ef, Ei. destruct (loaded_launch k4 k5 i e' (trim b) _ id l Hk4 Ef Ei E5) as (bytes & pkg & nm & Hv & Hla).
  assert (Hk5 : table_ok k5).
  { exact (keeps_entry_run i _ id _ _ _ Hk4 E5). }
  split; [|split; [exists m; exact Hnew|]].
  - destruct (a_lease (ahd T slot) - 1 =? 0); [exact (keeps_note _ _ _ _ _ _ _ Hk5 E6)|injection E6 as _ <-; exact Hk5].
  - intros id' d' l' [= <- <- <-]. exists (a_ceiling (ahd T slot)), n, bytes, pkg, nm, (pe_mcaps e'). auto 7.
Qed.

Lemma iexec_ok evs T m k c ev T' k' : intents_ok evs T m -> table_ok k -> iexec c T k = Some ((ev, T'), k') -> command_ok evs k k' ev T'.
Proof.
  intros H Hk. destruct c as [arg|arg|arg|c]; [exact (intent_open_ok _ _ _ _ _ _ _ _ H Hk)|exact (intent_revoke_ok _ _ _ _ _ _ _ _ H Hk)
    |exact (intent_run_ok _ _ _ _ _ _ _ _ H Hk)|].
  intros E. apply bind_run in E as (u & k1 & E1 & [= <- <- <-]). eapply quiet_command; eauto. exact (exec_keeps c _ _ _ Hk E1).
Qed.

(** Every launch in the history was sanctioned by what came before it. *)
Definition all_sanctioned (evs : list IntentEvent) : Prop :=
  forall pre id d l post, evs = pre ++ Launched id d l :: post -> sanctioned pre id d l.

Lemma sanctioned_snoc evs ev : all_sanctioned evs -> (forall id d l, ev = Launched id d l -> sanctioned evs id d l) -> all_sanctioned (evs ++ [ev]).
Proof.
  intros Ha He pre id d l post. destruct (decide (post = [])) as [->|Hn].
  - intros E. apply app_inj_tail in E as [-> ->]. exact (He id d l eq_refl).
  - destruct (exists_last Hn) as (p & x & ->). intros E. rewrite app_comm_cons, app_assoc in E. apply app_inj_tail in E as [E _]. exact (Ha _ _ _ _ _ E).
Qed.

Lemma isession_ok cs : forall evs T m k evs' T' k', intents_ok evs T m -> table_ok k -> all_sanctioned evs ->
  isession cs evs T k = Some ((evs', T'), k') -> all_sanctioned evs'.
Proof.
  induction cs as [|c cs IH]; intros evs T m k evs' T' k' H Hk Ha; cbn [isession]; [intros [= <- _ _]; exact Ha|].
  intros E. apply bind_run in E as ([ev T1] & k1 & E1 & E). destruct (iexec_ok _ _ _ _ _ _ _ _ H Hk E1) as (Hk1 & [m1 H1] & Hs).
  exact (IH _ _ _ _ _ _ _ H1 Hk1 (sanctioned_snoc _ _ Ha Hs) E).
Qed.

Lemma ahd_boot_ok : intents_ok [] ahd_boot 0.
Proof.
  constructor; try reflexivity; [unfold MAX_AHD; lia| |lia|intros ev id K; apply not_elem_of_nil in K; destruct K].
  intros i _. unfold ahd, ahd_boot. cbn [ahds]. destruct (replicate MAX_AHD EMPTY_AHD !! i) as [a|] eqn:E; [|reflexivity].
  apply lookup_replicate_1 in E as [-> _]. reflexivity.
Qed.

(** C15: In every session of intent and package commands, on any disk and any block service, a run under
    intent id starts only a verified package, with exactly the capabilities of its manifest that lie
    under the ceiling the intent was opened with; the intent has not been revoked before, and a leased
    intent has authorized fewer runs than its lease. *)
Theorem intents_bound_every_run (cs : list ICmd) (w : W) evs T k pre id derived l post :
  isession cs [] ahd_boot (boot w) = Some ((evs, T), k) -> evs = pre ++ Launched id derived l :: post ->
  exists ceiling n bytes pkg name mcaps, Opened id ceiling n ∈ pre /\ (Withdrawn id ∉ pre) /\
    (n <> AHD_UNLIMITED -> runs id pre < n) /\ verified bytes pkg name mcaps /\ derived = (mcaps & ceiling) /\
    l = launch_under pkg (text_or (lit "<bad>") (utf8_encode name)) derived id.
Proof.
  intros E. assert (Ha : all_sanctioned evs).
  { apply (isession_ok cs [] ahd_boot 0 (boot w) evs T k ahd_boot_ok (boot_ok w)); [|exact E].
    intros p i d la q K. destruct p; discriminate. }
  intros Ep. exact (Ha _ _ _ _ _ Ep).
Qed.
End Runs.

(** The self-test of the leases passes on a fresh table. *)
Lemma lease_demo_passes : fst <$> lease_demo ahd_boot = Some true.
Proof. vm_compute. reflexivity. Qed.
