(* ===== verification/PkgCodec.v ===== *)
(** * The records of the package store

    Field access on the arrays of [Pkg]: what a write to one window does to the
    others, the journal record's round trip, and what an encoded registry entry
    says. *)

From Stdlib Require Import ZArith Lia String.
From stdpp Require Import base option strings numbers list.
From S2P Require Import Prelude Text B64 Dzp Ir Mcap Pkg.

(** ** Windows *)

Lemma length_put l o v : (o + length v <= length l)%nat -> length (put l o v) = length l.
Proof. apply length_update_slice. Qed.

Lemma byte_at_put l o v i : (o + length v <= length l)%nat ->
  byte_at (put l o v) i = if decide (o <= i < o + length v)%nat then byte_at v (i - o) else byte_at l i.
Proof. intros Hl. unfold byte_at, put. rewrite lookup_update_slice by done. by case_decide. Qed.

Lemma byte_at_put_here l o v : (o + length [v] <= length l)%nat -> byte_at (put l o [v]) o = v.
Proof. intros Hl. rewrite byte_at_put by done. rewrite decide_True by (cbn; lia). by rewrite Nat.sub_diag. Qed.

Lemma byte_at_put_other l o v i : (o + length v <= length l)%nat -> (i < o \/ o + length v <= i)%nat ->
  byte_at (put l o v) i = byte_at l i.
Proof. intros Hl Hi. rewrite byte_at_put by done. by rewrite decide_False by lia. Qed.

Lemma slice_put_here l o v n : n = length v -> (o + length v <= length l)%nat -> slice (put l o v) o n = v.
Proof. intros -> Hl. by apply slice_update_same. Qed.

Lemma lookup_slice {A} (l : list A) o n i : slice l o n !! i = if decide (i < n)%nat then l !! (o + i)%nat else None.
Proof.
  unfold slice. case_decide; [by rewrite lookup_take_lt, lookup_drop|by rewrite lookup_take_ge by lia].
Qed.

Lemma slice_put_other l o v o' n : (o + length v <= length l)%nat -> (o' + n <= o \/ o + length v <= o')%nat ->
  slice (put l o v) o' n = slice l o' n.
Proof.
  intros Hl Hd. apply list_eq. intros i. rewrite !lookup_slice. case_decide; [|done].
  unfold put. rewrite lookup_update_slice by done. by rewrite decide_False by lia.
Qed.

Lemma put_back l o v w : length v = length w -> (o + length v <= length l)%nat ->
  slice l o (length w) = w -> put (put l o v) o w = l.
Proof.
  intros Hvw Hl Hs. apply list_eq. intros i. unfold put.
  rewrite !lookup_update_slice by (rewrite ?length_update_slice by done; lia). case_decide as Hi.
  - rewrite <- Hs, lookup_slice, decide_True by lia. f_equal. lia.
  - by rewrite decide_False by lia.
Qed.

Lemma length_u32 v : length (le_bytes 4 v) = 4%nat.
Proof. apply length_le_bytes. Qed.
Lemma length_u16 v : length (le_bytes 2 v) = 2%nat.
Proof. apply length_le_bytes. Qed.

Lemma arr_get_put_u32 l o v : (o + 4 <= length l)%nat -> fits 32 v -> get_u32 (put_u32 l o v) o = v.
Proof.
  intros Hl Hv. unfold get_u32, put_u32. rewrite slice_put_here by (rewrite ?length_u32; lia).
  rewrite wrap_small by done. by apply le_val_le_bytes.
Qed.

(** A chain of writes into an array of [N] bytes, as a predicate that carries
    the length. *)
Lemma len_put N l o v : length l = N -> (o + length v <= N)%nat -> length (put l o v) = N.
Proof. intros <- Hl. by apply length_put. Qed.

Lemma length_journal_magic : length JOURNAL_MAGIC = 4%nat.
Proof. done. Qed.
Lemma length_reg_magic : length REG_MAGIC = 4%nat.
Proof. done. Qed.
Lemma put_bytes l o v : bytes_ok l -> bytes_ok v -> bytes_ok (put l o v).
Proof.
  intros Hl Hv. unfold put, update_slice. apply Forall_app. split; [by apply Forall_take|].
  apply Forall_app. split; [done|by apply Forall_drop].
Qed.
Lemma put_u32_bytes l o v : bytes_ok l -> bytes_ok (put_u32 l o v).
Proof. intros Hl. apply put_bytes; [done|apply le_bytes_ok]. Qed.
Lemma put_u16_bytes l o v : bytes_ok l -> bytes_ok (put_u16 l o v).
Proof. intros Hl. apply put_bytes; [done|apply le_bytes_ok]. Qed.
Lemma one_byte v : fits 8 v -> bytes_ok [v].
Proof. intros. by constructor. Qed.
Lemma zero_bytes n : bytes_ok (replicate n 0).
Proof. apply Forall_replicate. by vm_compute. Qed.

Create Rewrite HintDb lens.
#[export] Hint Rewrite @length_le_bytes @length_replicate length_journal_magic length_reg_magic : lens.

(** [len] proves the length of an array built by writes. *)
Ltac len :=
  unfold put_u16, put_u32 in *;
  repeat (apply len_put; [|autorewrite with lens; cbn [length]; lia]); (assumption || apply length_replicate).

(** [field] reads a field through a chain of writes to other windows. *)
Ltac base_len l :=
  lazymatch l with
  | put ?l' _ _ => base_len l'
  | replicate ?n _ => n
  | _ => lazymatch goal with H : length l = ?n |- _ => n end
  end.
Ltac arr_range :=
  lazymatch goal with
  | |- (_ + length ?v <= length ?l)%nat =>
    let n := base_len l in
    let H := fresh in assert (H : length l = n) by len; rewrite H; clear H; autorewrite with lens; cbn [length]; lia
  end.
Ltac apart := autorewrite with lens; cbn [length]; lia.
Ltac field :=
  unfold put_u16, put_u32, get_u16, get_u32;
  repeat first
    [ rewrite slice_put_other by (arr_range || apart)
    | rewrite byte_at_put_other by (arr_range || apart)
    | rewrite slice_put_here by (arr_range || (autorewrite with lens; reflexivity))
    | rewrite byte_at_put_here by arr_range ].

(** ** The journal record *)

(** The records the code writes. *)
Record journal_ok (r : JournalRecord) : Prop := {
  jo_slot : (j_slot r < MAX_PKGS)%nat;
  jo_op : fits 8 (j_op r);
  jo_phase : fits 8 (j_phase r);
  jo_old : fits 8 (j_old_state r);
  jo_new : fits 8 (j_new_state r);
  jo_name_bytes : bytes_ok (j_name r);
  jo_version_bytes : bytes_ok (j_version r);
  jo_name : zlen (j_name r) <= NAME_MAX;
  jo_version : zlen (j_version r) <= VER_MAX;
  jo_mcaps : fits 32 (j_mcaps r);
  jo_raw_len : fits 32 (j_raw_len r);
  jo_raw_crc : fits 32 (j_raw_crc r);
  jo_start : fits 32 (j_blob_start r);
  jo_count : fits 32 (j_blob_count r);
  jo_before : fits 32 (j_before_crc r);
  jo_after : fits 32 (j_after_crc r) }.

Section Journal.
Context (r : JournalRecord) (Hr : journal_ok r).

Lemma journal_room : (512 <= JOURNAL_SIZE)%nat.
Proof. apply Nat.leb_le. vm_compute. reflexivity. Qed.

Lemma length_journal_body : length (journal_body r) = JOURNAL_SIZE.
Proof.
  pose proof journal_room. pose proof (jo_name r Hr). pose proof (jo_version r Hr). unfold zlen, NAME_MAX, VER_MAX in *.
  unfold journal_body. cbv zeta. len.
Qed.

Lemma journal_fields :
  let b := journal_body r in
  slice b 0 4 = JOURNAL_MAGIC /\ byte_at b 4 = JOURNAL_VERSION /\ byte_at b 5 = j_op r /\ byte_at b 6 = j_phase r /\
  slice b 12 4 = le_bytes 4 (wrap 32 (Z.of_nat (j_slot r))) /\ byte_at b 16 = j_old_state r /\ byte_at b 17 = j_new_state r /\
  slice b 24 4 = le_bytes 4 (wrap 32 (j_mcaps r)) /\ slice b 28 4 = le_bytes 4 (wrap 32 (j_raw_len r)) /\
  slice b 32 4 = le_bytes 4 (wrap 32 (j_raw_crc r)) /\ slice b 36 4 = le_bytes 4 (wrap 32 (j_blob_start r)) /\
  slice b 40 4 = le_bytes 4 (wrap 32 (j_blob_count r)) /\ slice b 44 4 = le_bytes 4 (wrap 32 (j_before_crc r)) /\
  slice b 48 4 = le_bytes 4 (wrap 32 (j_after_crc r)) /\ slice b 52 4 = replicate 4 0 /\
  byte_at b 56 = zlen (j_name r) /\ byte_at b 57 = zlen (j_version r) /\
  slice b 64 (length (j_name r)) = j_name r /\ slice b 88 (length (j_version r)) = j_version r.
Proof.
  pose proof journal_room. pose proof (jo_name r Hr). pose proof (jo_version r Hr). unfold zlen, NAME_MAX, VER_MAX in *.
  cbv zeta. unfold journal_body. cbv zeta.
  repeat match goal with |- _ /\ _ => split end; field; try reflexivity.
Qed.

Lemma journal_body_bytes : bytes_ok (journal_body r).
Proof.
  pose proof (jo_name r Hr). pose proof (jo_version r Hr). unfold NAME_MAX, VER_MAX in *.
  pose proof (zlen_nonneg (j_name r)). pose proof (zlen_nonneg (j_version r)). unfold journal_body. cbv zeta.
  repeat first [apply put_u32_bytes | apply put_bytes]; try apply zero_bytes; try apply Hr;
    try (apply one_byte; first [apply Hr | unfold fits; change (2 ^ 8) with 256; lia | by vm_compute]);
    apply bytes_okb_spec; reflexivity.
Qed.

Lemma decode_encode_journal : decode_journal (encode_journal r) = JValid r.
Proof.
  pose proof journal_room as Hroom. pose proof length_journal_body as Hlen. pose proof (crc32_fits [journal_body r]) as Hcrc.
  destruct journal_fields as (F0 & F4 & F5 & F6 & F12 & F16 & F17 & F24 & F28 & F32 & F36 & F40 & F44 & F48 & F52 & F56 & F57 & F64 & F88).
  pose proof (jo_name r Hr) as Hn. pose proof (jo_version r Hr) as Hv. unfold NAME_MAX, VER_MAX, zlen in Hn, Hv.
  unfold decode_journal, encode_journal. cbv zeta. set (b := journal_body r) in *. set (raw := put_u32 b 52 (checksum b)).
  assert (Hb : bytes_ok b) by apply journal_body_bytes.
  assert (Hc : fits 32 (checksum b)) by (apply Hcrc; by constructor).
  assert (Hput : forall o n, (o + n <= 52 \/ 56 <= o)%nat -> slice raw o n = slice b o n).
  { intros o n Ho. apply slice_put_other; rewrite ?length_le_bytes; lia. }
  assert (Hbyte : forall i, (i < 52 \/ 56 <= i)%nat -> byte_at raw i = byte_at b i).
  { intros i Hi. apply byte_at_put_other; rewrite ?length_le_bytes; lia. }
  assert (Hword : forall o v, slice raw o 4 = le_bytes 4 (wrap 32 v) -> fits 32 v -> get_u32 raw o = v).
  { intros o v E Hfit. unfold get_u32. rewrite E, wrap_small by done. by apply le_val_le_bytes. }
  destruct (forallb (Z.eqb 0) raw) eqn:Hz.
  { exfalso. rewrite <- (Hput 0%nat 4%nat) in F0 by lia. destruct raw as [|x rest]; [done|].
    cbn [forallb] in Hz. apply andb_true_iff in Hz as [Hx _]. apply Z.eqb_eq in Hx. subst x. cbn [slice drop take] in F0. discriminate. }
  rewrite !Hput, !Hbyte by lia. rewrite F0, F4, bool_decide_true by done. change (JOURNAL_VERSION =? JOURNAL_VERSION) with true.
  cbn [negb]. rewrite F56, F57, F5, F6, F16, F17.
  assert (Hback : put_u32 raw 52 0 = b).
  { unfold raw, put_u32. apply put_back; rewrite ?length_le_bytes; [done|lia|]. exact F52. }
  rewrite Hback. rewrite (Hword 52%nat (checksum b)); [|unfold raw, put_u32; apply slice_put_here; rewrite ?length_le_bytes; lia|done].
  rewrite Z.eqb_refl. cbn [negb].
  pose proof (jo_slot r Hr) as Hs.
  rewrite (Hword 12%nat (Z.of_nat (j_slot r))); [|by rewrite Hput by lia|unfold fits; unfold MAX_PKGS in Hs; lia].
  unfold NAME_MAX, VER_MAX, zlen. rewrite (proj2 (Z.leb_gt _ _)), !(proj2 (Z.ltb_ge _ _)) by lia. cbn [orb].
  rewrite !Nat2Z.id, F64, F88.
  rewrite (Hword 24%nat (j_mcaps r)), (Hword 28%nat (j_raw_len r)), (Hword 32%nat (j_raw_crc r)), (Hword 36%nat (j_blob_start r)),
    (Hword 40%nat (j_blob_count r)), (Hword 44%nat (j_before_crc r)), (Hword 48%nat (j_after_crc r))
    by (try apply Hr; rewrite Hput by lia; done).
  by destruct r.
Qed.
End Journal.

(** ** Registry entries *)

Section Entry.
Context (slot : nat) (Hslot : (slot < MAX_PKGS)%nat).

Lemma entry_room : (entry_off slot + ENTRY_SIZE <= REGISTRY_SIZE)%nat.
Proof. unfold entry_off, ENTRY_SIZE, REGISTRY_SIZE, MAX_PKGS in *. lia. Qed.

Lemma length_with_state r st : length r = REGISTRY_SIZE -> length (with_state r slot st) = REGISTRY_SIZE.
Proof. intros Hr. apply len_put; [done|]. pose proof entry_room. unfold ENTRY_SIZE in *. cbn [length]. lia. Qed.
Lemma length_without_slot r : length r = REGISTRY_SIZE -> length (without_slot r slot) = REGISTRY_SIZE.
Proof. intros Hr. apply len_put; [done|]. pose proof entry_room. by rewrite length_replicate. Qed.

Lemma entry_with_state r st : length r = REGISTRY_SIZE -> entry_state (with_state r slot st) slot = st.
Proof. intros Hr. apply byte_at_put_here. rewrite Hr. pose proof entry_room. unfold ENTRY_SIZE in *. cbn [length]. lia. Qed.

Lemma put_put (l : list Z) o (v w : list Z) : length v = length w -> (o + length v <= length l)%nat -> put (put l o v) o w = put l o w.
Proof.
  intros Hvw Hl. apply list_eq. intros i. unfold put.
  rewrite !lookup_update_slice by (rewrite ?length_update_slice by done; lia). case_decide; [done|]. by rewrite decide_False by lia.
Qed.

Lemma with_state_twice r a b : length r = REGISTRY_SIZE -> with_state (with_state r slot a) slot b = with_state r slot b.
Proof. intros Hr. apply put_put; [done|]. rewrite Hr. pose proof entry_room. unfold ENTRY_SIZE in *. cbn [length]. lia. Qed.

Lemma with_state_same r : length r = REGISTRY_SIZE -> with_state r slot (entry_state r slot) = r.
Proof.
  intros Hr. pose proof entry_room. unfold ENTRY_SIZE in *. apply list_eq. intros i. unfold with_state, put.
  rewrite lookup_update_slice by (rewrite Hr; cbn [length]; lia). case_decide as Hi; [|done]. cbn [length] in Hi.
  replace i with (entry_off slot) by lia. rewrite Nat.sub_diag. cbn. unfold entry_state, byte_at.
  destruct (lookup_lt_is_Some_2 r (entry_off slot)) as [x ->]; [lia|done].
Qed.

Lemma without_slot_twice r : length r = REGISTRY_SIZE -> without_slot (without_slot r slot) slot = without_slot r slot.
Proof. intros Hr. apply put_put; [done|]. rewrite length_replicate, Hr. apply entry_room. Qed.

Section Encoded.
Context (r : list Z) (state : Z) (name version : str) (kind mcaps raw_len raw_crc : Z).
Context (Hr : length r = REGISTRY_SIZE) (Hn : slen name <= NAME_MAX) (Hv : slen version <= VER_MAX).

Lemma length_encode_entry : length (encode_entry r slot state name version kind mcaps raw_len raw_crc) = REGISTRY_SIZE.
Proof.
  pose proof entry_room. unfold slen, zlen, NAME_MAX, VER_MAX, ENTRY_SIZE in *. unfold encode_entry, without_slot. cbv zeta.
  unfold ENTRY_SIZE. len.
Qed.

(** Outside the slot nothing changes. *)
Lemma encode_entry_other i : (i < entry_off slot \/ entry_off slot + ENTRY_SIZE <= i)%nat ->
  encode_entry r slot state name version kind mcaps raw_len raw_crc !! i = r !! i.
Proof.
  intros Hi. pose proof entry_room. unfold slen, zlen, NAME_MAX, VER_MAX, ENTRY_SIZE in *.
  assert (Hput : forall l o v, length l = REGISTRY_SIZE -> (entry_off slot <= o)%nat -> (o + length v <= entry_off slot + 128)%nat ->
    length (put l o v) = REGISTRY_SIZE /\ put l o v !! i = l !! i).
  { intros l o v Hl H1 H2. split; [apply len_put; [done|lia]|]. unfold put. rewrite lookup_update_slice by lia.
    by rewrite decide_False by lia. }
  unfold encode_entry, without_slot, put_u16, put_u32. cbv zeta. unfold ENTRY_SIZE.
  repeat match goal with
  | |- put ?l ?o ?v !! i = _ =>
    let H := fresh in assert (H : length l = REGISTRY_SIZE) by len;
    rewrite (proj2 (Hput l o v H ltac:(lia) ltac:(autorewrite with lens; cbn [length]; lia))); clear H
  end. done.
Qed.

Lemma encode_entry_state : entry_state (encode_entry r slot state name version kind mcaps raw_len raw_crc) slot = state.
Proof.
  pose proof entry_room. unfold slen, zlen, NAME_MAX, VER_MAX, ENTRY_SIZE in *.
  unfold entry_state, encode_entry, without_slot. cbv zeta. unfold ENTRY_SIZE. field. reflexivity.
Qed.
End Encoded.
End Entry.
