(* ===== verification/PkgDisk.v ===== *)
(** * What the package store needs of the block service

    [SectorLaws] is the contract between the two: a write changes only its own
    sector, to the data or not at all, and to the data when it is acknowledged;
    an acknowledged read fills the data window with the sector; nothing else
    moves.  A request may fail at any time.  The operations of [Pkg] on sectors,
    blobs, journal and registry are specified against it. *)

From Stdlib Require Import ZArith Lia String.
From stdpp Require Import base option strings numbers list.
From S2P Require Import Prelude Text B64 Dzp Ir IrVerify Mcap Pkg PkgCodec.

Class DiskView (W : Type) := sector_of : W -> Z -> list Z.

(** A short write is padded with zeros. *)
Definition pad (d : list Z) : list Z := d ++ replicate (SECTOR_SIZE - length d) 0.

Definition reads (req sector : Z) : Prop :=
  (req = BLK_REQ_PKG_REGISTRY_READ /\ 25 <= sector <= 31) \/ (req = BLK_REQ_PKG_JOURNAL_READ /\ 32 <= sector <= 39) \/
  (req = BLK_REQ_PKG_BLOB_READ /\ 64 <= sector <= 1599).
Definition writes (req sector : Z) : Prop :=
  (req = BLK_REQ_PKG_REGISTRY_WRITE /\ 25 <= sector <= 31) \/ (req = BLK_REQ_PKG_JOURNAL_WRITE /\ 32 <= sector <= 39) \/
  (req = BLK_REQ_PKG_BLOB_WRITE /\ 64 <= sector <= 1599).

Class SectorLaws (W : Type) `{SectorService W, DiskView W} := {
  law_read req sector w st w' : reads req sector -> sv_request req sector None w = (st, w') ->
    (forall x, sector_of w' x = sector_of w x) /\ (st = SERVICE_OK -> sv_window w' = sector_of w sector);
  law_write req sector data w st w' : writes req sector -> bytes_ok data -> (length data <= SECTOR_SIZE)%nat ->
    sv_request req sector (Some data) w = (st, w') ->
    (forall x, x <> sector -> sector_of w' x = sector_of w x) /\
    (sector_of w' sector = sector_of w sector \/ sector_of w' sector = pad data) /\
    (st = SERVICE_OK -> sector_of w' sector = pad data);
  law_marker w st w' : sv_request BLK_REQ_PKG_STORE_INIT PKG_STORE_MARKER_SECTOR None w = (st, w') ->
    forall x, x <> PKG_STORE_MARKER_SECTOR -> sector_of w' x = sector_of w x;
  law_size w x : length (sector_of w x) = SECTOR_SIZE;
  law_bytes w x : bytes_ok (sector_of w x) }.

(** Consecutive sectors as one array. *)
Fixpoint area (d : Z -> list Z) (s : Z) (n : nat) : list Z :=
  match n with O => [] | S n => d s ++ area d (s + 1) n end.

(** The [i]-th sector's worth of an array. *)
Definition chunk (raw : list Z) (i : nat) : list Z := pad (slice raw (i * SECTOR_SIZE) SECTOR_SIZE).

Section Specs.
Context {W : Type} {SV : SectorService W} {DV : DiskView W} {SL : SectorLaws W}.

Definition dk (k : Kern W) : Z -> list Z := sector_of (k_world k).

(** What the sector operations leave alone: everything but the disk and the
    contents of [STAGE]. *)
Definition frame (k k' : Kern W) : Prop :=
  k_reg k' = k_reg k /\ length (k_stage k') = length (k_stage k) /\ (bytes_ok (k_stage k) -> bytes_ok (k_stage k')).
#[export] Instance frame_preorder : PreOrder frame.
Proof. split; [done|]. intros a b c (H1 & H2 & H3) (H4 & H5 & H6). split_and!; [congruence..|]. auto. Qed.

Lemma length_pad d : (length d <= SECTOR_SIZE)%nat -> length (pad d) = SECTOR_SIZE.
Proof. intros Hd. unfold pad. rewrite length_app, length_replicate. lia. Qed.
Lemma pad_full d : length d = SECTOR_SIZE -> pad d = d.
Proof. intros Hd. unfold pad. by rewrite Hd, Nat.sub_diag, app_nil_r. Qed.

Lemma length_area d s n : (forall x, length (d x) = SECTOR_SIZE) -> length (area d s n) = (n * SECTOR_SIZE)%nat.
Proof. intros Hd. revert s. induction n as [|n IH]; intros s; cbn [area]; [done|]. rewrite length_app, IH, Hd. lia. Qed.

Lemma area_ext d d' s n : (forall x, s <= x < s + Z.of_nat n -> d' x = d x) -> area d' s n = area d s n.
Proof.
  revert s. induction n as [|n IH]; intros s Hd; cbn [area]; [done|]. rewrite Hd, IH by lia || (intros; apply Hd; lia). done.
Qed.

(** ** Sectors *)

Lemma read_sector_spec req s k : reads req s ->
  exists r k', read_sector req s k = Some (r, k') /\ frame k k' /\ k_stage k' = k_stage k /\ (forall x, dk k' x = dk k x) /\
    (r = None \/ r = Some (dk k s)).
Proof.
  intros Hr. unfold read_sector, sector_status. cbv beta iota delta [mbind KM_bind gets].
  destruct (sv_request req s None (k_world k)) as [st w'] eqn:E. cbv beta iota delta [mbind KM_bind mret KM_ret set_world].
  destruct (law_read req s _ _ _ Hr E) as [Hsame Hok]. destruct (Z.eqb_spec st SERVICE_OK) as [Hst|Hst]; cbn [negb].
  - eexists _, _. split; [reflexivity|]. split; [done|]. split; [done|]. split; [done|]. right. f_equal. by apply Hok.
  - eexists _, _. split; [reflexivity|]. split; [done|]. split; [done|]. split; [done|]. by left.
Qed.

Lemma write_sector_spec req s data k : writes req s -> bytes_ok data -> (length data <= SECTOR_SIZE)%nat ->
  exists ok k', write_sector req s data k = Some (ok, k') /\ frame k k' /\ k_stage k' = k_stage k /\
    (forall x, x <> s -> dk k' x = dk k x) /\ (dk k' s = dk k s \/ dk k' s = pad data) /\ (ok = true -> dk k' s = pad data).
Proof.
  intros Hw Hb Hl. unfold write_sector, sector_status. cbv beta iota delta [mbind KM_bind gets].
  destruct (sv_request req s (Some data) (k_world k)) as [st w'] eqn:E. cbv beta iota delta [mbind KM_bind mret KM_ret set_world].
  destruct (law_write req s data _ _ _ Hw Hb Hl E) as (Hsame & Hcase & Hok). eexists _, _. split; [reflexivity|].
  split; [done|]. split; [done|]. split; [done|]. split; [done|]. intros ->%Z.eqb_eq. by apply Hok.
Qed.

Lemma read_sectors_spec req n : forall s k, (forall i, (i < n)%nat -> reads req (s + Z.of_nat i)) ->
  exists r k', read_sectors req s n k = Some (r, k') /\ frame k k' /\ k_stage k' = k_stage k /\ (forall x, dk k' x = dk k x) /\
    (r = None \/ r = Some (area (dk k) s n)).
Proof.
  induction n as [|n IH]; intros s k Hr; cbn [read_sectors area].
  { eexists _, k. split; [reflexivity|]. split; [done|]. split; [done|]. split; [done|]. by right. }
  destruct (read_sector_spec req s k) as (r1 & k1 & E1 & F1 & S1 & D1 & R1); [specialize (Hr 0%nat); rewrite Z.add_0_r in Hr; apply Hr; lia|].
  unfold mbind at 1, KM_bind at 1. rewrite E1. destruct R1 as [->| ->].
  { eexists _, k1. split; [reflexivity|]. split; [done|]. split; [done|]. split; [done|]. by left. }
  destruct (IH (s + 1) k1) as (r2 & k2 & E2 & F2 & S2 & D2 & R2).
  { intros i Hi. replace (s + 1 + Z.of_nat i) with (s + Z.of_nat (S i)) by lia. apply Hr. lia. }
  unfold mbind at 1, KM_bind at 1. rewrite E2. eexists _, k2. split; [reflexivity|]. split; [by etrans|].
  split; [congruence|]. split; [intros x; by rewrite D2, D1|]. destruct R2 as [->| ->]; [by left|right].
  do 2 f_equal. apply area_ext. intros. apply D1.
Qed.

Lemma slice_bytes_ok (raw : list Z) o n : bytes_ok raw -> bytes_ok (slice raw o n).
Proof. intros Hr. unfold slice. by apply Forall_take, Forall_drop. Qed.

Lemma write_sectors_spec req n : forall s raw k, (forall i, (i < n)%nat -> writes req (s + Z.of_nat i)) -> bytes_ok raw ->
  exists ok k', write_sectors req s n raw k = Some (ok, k') /\ frame k k' /\ k_stage k' = k_stage k /\
    (forall x, x < s \/ s + Z.of_nat n <= x -> dk k' x = dk k x) /\
    (forall i, (i < n)%nat -> dk k' (s + Z.of_nat i) = dk k (s + Z.of_nat i) \/ dk k' (s + Z.of_nat i) = chunk raw i) /\
    (ok = true -> forall i, (i < n)%nat -> dk k' (s + Z.of_nat i) = chunk raw i).
Proof.
  induction n as [|n IH]; intros s raw k Hw Hb; cbn [write_sectors].
  { eexists _, k. split; [reflexivity|]. split_and!; (done || lia). }
  assert (Hc0 : chunk raw 0 = pad (take SECTOR_SIZE raw)) by done.
  assert (Hcs : forall i, chunk raw (S i) = chunk (drop SECTOR_SIZE raw) i).
  { intros i. unfold chunk, slice. do 2 f_equal. rewrite drop_drop. done. }
  destruct (write_sector_spec req s (take SECTOR_SIZE raw) k) as (ok1 & k1 & E1 & F1 & S1 & D1 & C1 & O1).
  { specialize (Hw 0%nat). rewrite Z.add_0_r in Hw. apply Hw. lia. }
  { by apply Forall_take. }
  { rewrite length_take. lia. }
  unfold and_then. unfold mbind at 1, KM_bind at 1. rewrite E1. destruct ok1.
  - destruct (IH (s + 1) (drop SECTOR_SIZE raw) k1) as (ok2 & k2 & E2 & F2 & S2 & D2 & C2 & O2).
    { intros i Hi. replace (s + 1 + Z.of_nat i) with (s + Z.of_nat (S i)) by lia. apply Hw. lia. }
    { by apply Forall_drop. }
    rewrite E2. eexists _, k2. split; [reflexivity|]. split; [by etrans|]. split; [congruence|].
    split; [intros x Hx; by rewrite D2, D1 by lia|]. split.
    + intros [|i] Hi.
      * right. rewrite Z.add_0_r, D2 by lia. by rewrite Hc0, O1.
      * rewrite Hcs. replace (s + Z.of_nat (S i)) with (s + 1 + Z.of_nat i) by lia.
        rewrite <- (D1 (s + 1 + Z.of_nat i)) by lia. apply C2. lia.
    + intros Hok [|i] Hi; [by rewrite Z.add_0_r, D2, Hc0, O1 by lia|].
      rewrite Hcs. replace (s + Z.of_nat (S i)) with (s + 1 + Z.of_nat i) by lia. apply O2; [done|lia].
  - eexists _, k1. split; [reflexivity|]. split; [done|]. split; [done|]. split; [intros x Hx; apply D1; lia|].
    split; [|done]. intros [|i] Hi; [rewrite Z.add_0_r, Hc0; exact C1|left; apply D1; lia].
Qed.

(** ** Blobs into [STAGE] *)

Lemma read_blob_spec n : forall s start raw_len k,
  (forall i, (i < n)%nat -> reads BLK_REQ_PKG_BLOB_READ (s + Z.of_nat i)) ->
  (start + n * SECTOR_SIZE < raw_len + SECTOR_SIZE)%nat -> (raw_len <= length (k_stage k))%nat ->
  exists r k', read_blob_sectors n s start raw_len k = Some (r, k') /\ frame k k' /\ (forall x, dk k' x = dk k x) /\
    (forall j, (j < start)%nat -> k_stage k' !! j = k_stage k !! j) /\
    (r = true -> forall j, (start <= j < raw_len)%nat -> (j < start + n * SECTOR_SIZE)%nat ->
       k_stage k' !! j = area (dk k) s n !! (j - start)%nat).
Proof.
  induction n as [|n IH]; intros s start raw_len k Hr Hn Hl; cbn [read_blob_sectors area].
  { eexists _, k. split; [reflexivity|]. split; [done|]. split; [done|]. split; [done|]. intros _ j. lia. }
  destruct (read_sector_spec BLK_REQ_PKG_BLOB_READ s k) as (r1 & k1 & E1 & F1 & S1 & D1 & R1).
  { specialize (Hr 0%nat). rewrite Z.add_0_r in Hr. apply Hr. lia. }
  unfold mbind at 1, KM_bind at 1. rewrite E1. destruct R1 as [->| ->].
  { eexists _, k1. split; [reflexivity|]. split; [done|]. split; [done|]. split; [by rewrite S1|]. done. }
  unfold mbind at 1, KM_bind at 1, gets at 1. unfold mbind at 1, KM_bind at 1, set_stage at 1. rewrite S1.
  set (v := take _ (dk k s)). assert (Hv : length v = (Nat.min (start + SECTOR_SIZE) raw_len - start)%nat).
  { unfold v. rewrite length_take. unfold dk. rewrite law_size. lia. }
  assert (Hput : (start + length v <= length (k_stage k))%nat) by lia.
  match goal with |- context [read_blob_sectors n (s + 1) _ _ ?q] => set (k2 := q) end.
  destruct (IH (s + 1) (start + SECTOR_SIZE)%nat raw_len k2) as (r3 & k3 & E3 & F3 & D3 & P3 & R3).
  { intros i Hi. replace (s + 1 + Z.of_nat i) with (s + Z.of_nat (S i)) by lia. apply Hr. lia. }
  { lia. }
  { unfold k2. cbn [k_stage]. rewrite length_put by done. done. }
  exists r3, k3. split; [exact E3|]. destruct F1 as (A1 & A2 & A3), F3 as (B1 & B2 & B3).
  split; [|split; [intros x; rewrite D3; apply D1|split]].
  - split; [by rewrite B1|]. split; [rewrite B2; unfold k2; cbn [k_stage]; by rewrite length_put|].
    intros Hb. apply B3. unfold k2. cbn [k_stage]. apply put_bytes; [done|]. unfold v. apply Forall_take. exact (law_bytes (k_world k) s).
  - intros j Hj. rewrite P3 by lia. unfold k2. cbn [k_stage]. unfold put. rewrite lookup_update_slice by done.
    by rewrite decide_False by lia.
  - intros Hok j Hj Hjn. destruct (Nat.lt_ge_cases j (start + SECTOR_SIZE)) as [Hlt|Hge].
    + rewrite P3 by done. unfold k2. cbn [k_stage]. unfold put. rewrite lookup_update_slice by done.
      rewrite decide_True by lia. rewrite lookup_app_l by (unfold dk; rewrite law_size; lia).
      unfold v. apply lookup_take_lt. lia.
    + rewrite R3 by (done || lia). rewrite lookup_app_r by (unfold dk; rewrite law_size; lia).
      unfold dk at 2. rewrite law_size. rewrite (area_ext (dk k) (dk k2)); [f_equal; lia|]. intros. apply D1.
Qed.

Lemma div_ceil_pos n : 0 <= n -> 0 <= div_ceil n /\ n <= 512 * div_ceil n < n + 512.
Proof.
  intros Hn. unfold div_ceil. pose proof (Z.div_mod (n + 511) 512). pose proof (Z.mod_pos_bound (n + 511) 512).
  assert (0 <= (n + 511) / 512) by (apply Z.div_pos; lia). lia.
Qed.

(** A blob area: 64 sectors of one of the three regions. *)
Definition blob_area (base : Z) : Prop := 64 <= base /\ base + 63 <= 1599.

Lemma blob_areas slot : (slot < MAX_PKGS)%nat ->
  blob_area (slot_blob_sector slot) /\ blob_area (previous_blob_sector slot) /\ blob_area (stage_blob_sector slot).
Proof.
  unfold MAX_PKGS, blob_area, slot_blob_sector, previous_blob_sector, stage_blob_sector, PKG_BLOB_FIRST_SECTOR,
    PKG_PREVIOUS_FIRST_SECTOR, PKG_STAGE_FIRST_SECTOR, PKG_SLOT_SECTORS. lia.
Qed.

Lemma read_area_spec base raw_len k : blob_area base -> 0 <= raw_len -> zlen (k_stage k) = STAGE_SIZE ->
  exists r k', read_blob_area_into_stage base raw_len k = Some (r, k') /\ frame k k' /\ (forall x, dk k' x = dk k x) /\
    (r = true -> raw_len <= PKG_MAX_RAW_BYTES /\
       take (Z.to_nat raw_len) (k_stage k') = take (Z.to_nat raw_len) (area (dk k) base (Z.to_nat (div_ceil raw_len)))).
Proof.
  intros [Hb1 Hb2] Hl Hst. unfold read_blob_area_into_stage. unfold zlen, STAGE_SIZE in *.
  destruct (Z.ltb_spec (64 * 1024) raw_len) as [|H1]; cbn [orb].
  { eexists _, k. split; [reflexivity|]. split_and!; done. }
  destruct (Z.ltb_spec PKG_MAX_RAW_BYTES raw_len) as [|H2].
  { eexists _, k. split; [reflexivity|]. split_and!; done. }
  destruct (div_ceil_pos raw_len Hl) as [Hd0 Hd]. unfold PKG_MAX_RAW_BYTES in *.
  destruct (read_blob_spec (Z.to_nat (div_ceil raw_len)) base 0 (Z.to_nat raw_len) k) as (r & k' & E & F & D & _ & R).
  { intros i Hi. right. right. split; [done|]. lia. }
  { unfold SECTOR_SIZE. lia. }
  { lia. }
  exists r, k'. split; [exact E|]. split; [done|]. split; [done|]. intros Hr. split; [done|].
  apply list_eq. intros j. destruct (decide (j < Z.to_nat raw_len)%nat) as [Hj|Hj].
  - rewrite !lookup_take_lt by done. rewrite (R Hr j) by (unfold SECTOR_SIZE; lia). f_equal. lia.
  - by rewrite !lookup_take_ge by lia.
Qed.

Lemma staged_bytes_spec n (k : Kern W) : 0 <= n <= STAGE_SIZE -> zlen (k_stage k) = STAGE_SIZE ->
  staged_bytes n k = Some (take (Z.to_nat n) (k_stage k), k).
Proof.
  intros Hn Hst. unfold staged_bytes. cbv beta iota delta [mbind KM_bind gets]. rewrite Hst.
  by rewrite (proj2 (Z.ltb_ge _ _)) by lia.
Qed.

(** An array written in full reads back, padded with zeros. *)
Lemma area_chunks d n : forall s raw, (length raw <= n * SECTOR_SIZE)%nat ->
  (forall i, (i < n)%nat -> d (s + Z.of_nat i) = chunk raw i) ->
  area d s n = raw ++ replicate (n * SECTOR_SIZE - length raw) 0.
Proof.
  induction n as [|n IH]; intros s raw Hl Hd; cbn [area].
  { destruct raw; [done|cbn in Hl; lia]. }
  assert (E0 : d s = pad (take SECTOR_SIZE raw)).
  { specialize (Hd 0%nat ltac:(lia)). by rewrite Z.add_0_r in Hd. }
  rewrite (IH (s + 1) (drop SECTOR_SIZE raw)).
  - rewrite E0, length_drop. unfold pad. rewrite length_take.
    destruct (Nat.le_gt_cases SECTOR_SIZE (length raw)) as [Hge|Hlt].
    + replace (SECTOR_SIZE - Nat.min SECTOR_SIZE (length raw))%nat with 0%nat by lia. cbn [replicate]. rewrite app_nil_r, app_assoc, take_drop.
      do 2 f_equal. lia.
    + rewrite take_ge, drop_ge by lia. rewrite app_nil_l, <- app_assoc, <- replicate_add. do 2 f_equal. lia.
  - rewrite length_drop. lia.
  - intros i Hi. specialize (Hd (S i) ltac:(lia)). replace (s + 1 + Z.of_nat i) with (s + Z.of_nat (S i)) by lia. rewrite Hd.
    unfold chunk, slice. do 2 f_equal. rewrite drop_drop. done.
Qed.

Lemma write_blob_spec base raw k : blob_area base -> bytes_ok raw -> zlen raw <= PKG_MAX_RAW_BYTES ->
  exists ok k', write_blob_at base raw k = Some (ok, k') /\ frame k k' /\ k_stage k' = k_stage k /\
    (forall x, x < base \/ base + 64 <= x -> dk k' x = dk k x) /\
    (ok = true -> take (length raw) (area (dk k') base (Z.to_nat (div_ceil (zlen raw)))) = raw).
Proof.
  intros [Hb1 Hb2] Hb Hl. pose proof (zlen_nonneg raw) as H0. destruct (div_ceil_pos (zlen raw) H0) as [Hd0 Hd].
  unfold PKG_MAX_RAW_BYTES in Hl.
  destruct (write_sectors_spec BLK_REQ_PKG_BLOB_WRITE (Z.to_nat (div_ceil (zlen raw))) base raw k)
    as (ok & k' & E & F & Hst & D & C & O); [|done|].
  { intros i Hi. right. right. split; [done|]. lia. }
  exists ok, k'. split; [exact E|]. split; [done|]. split; [done|]. split; [intros x Hx; apply D; lia|].
  intros Hok. rewrite (area_chunks _ _ base raw); [by rewrite take_app_length|unfold SECTOR_SIZE, zlen in *; lia|by apply O].
Qed.

(** ** Journal and registry

    A journal record fills the first of the journal's sectors; the others are
    zero before and after, so a write of the journal is a write of that sector.
    A registry that differs from the disk in one slot differs in one sector. *)

Definition ZERO_SECTOR : list Z := replicate SECTOR_SIZE 0.
Definition journal_clean (d : Z -> list Z) : Prop := forall x, 33 <= x <= 39 -> d x = ZERO_SECTOR.
Definition registry_of (d : Z -> list Z) : list Z := d 25 ++ d 26.

Lemma write_journal_atomic raw k : bytes_ok raw -> length raw = JOURNAL_SIZE ->
  drop SECTOR_SIZE raw = replicate (JOURNAL_SIZE - SECTOR_SIZE) 0 -> journal_clean (dk k) ->
  exists ok k', write_journal_raw raw k = Some (ok, k') /\ frame k k' /\ k_stage k' = k_stage k /\
    journal_clean (dk k') /\ (forall x, x < 32 \/ 40 <= x -> dk k' x = dk k x) /\
    (dk k' 32 = dk k 32 \/ dk k' 32 = take SECTOR_SIZE raw) /\ (ok = true -> dk k' 32 = take SECTOR_SIZE raw).
Proof.
  intros Hb Hlen Hrest Hc. pose proof journal_room as Hroom. fold SECTOR_SIZE in Hroom.
  destruct (write_sectors_spec BLK_REQ_PKG_JOURNAL_WRITE JOURNAL_SECTORS PKG_JOURNAL_SECTOR raw k)
    as (ok & k' & E & F & Hst & D & C & O); [|done|].
  { intros i Hi. right. left. split; [done|]. unfold JOURNAL_SECTORS, PKG_JOURNAL_SECTOR in *. lia. }
  unfold JOURNAL_SECTORS, PKG_JOURNAL_SECTOR in *.
  assert (H0 : chunk raw 0 = take SECTOR_SIZE raw).
  { unfold chunk. cbn [Nat.mul]. unfold slice. rewrite drop_0. apply pad_full. rewrite length_take. lia. }
  assert (HS : forall i, (i < 7)%nat -> chunk raw (S i) = ZERO_SECTOR).
  { intros i Hi. unfold chunk, slice. replace (S i * SECTOR_SIZE)%nat with (SECTOR_SIZE + i * SECTOR_SIZE)%nat by lia.
    rewrite <- drop_drop, Hrest, drop_replicate, take_replicate. rewrite Nat.min_l; [by apply pad_full, length_replicate|].
    change JOURNAL_SIZE with (8 * SECTOR_SIZE)%nat. unfold SECTOR_SIZE. lia. }
  exists ok, k'. split; [exact E|]. split; [done|]. split; [done|]. split; [|split; [|split]].
  - intros x Hx. set (i := Z.to_nat (x - 33)). destruct (C (S i)) as [E2|E2]; [lia| |].
    + replace (32 + Z.of_nat (S i)) with x in E2 by lia. rewrite E2. by apply Hc.
    + replace (32 + Z.of_nat (S i)) with x in E2 by lia. rewrite E2. apply HS. lia.
  - intros x Hx. apply D. lia.
  - rewrite <- H0. apply (C 0%nat). lia.
  - rewrite <- H0. intros Hok. apply (O Hok 0%nat). lia.
Qed.

(** Registries that agree outside one slot. *)
Definition agree (slot : nat) (r r' : list Z) : Prop :=
  length r = REGISTRY_SIZE /\ length r' = REGISTRY_SIZE /\
  forall i, (i < entry_off slot \/ entry_off slot + ENTRY_SIZE <= i)%nat -> r !! i = r' !! i.

Lemma agree_sector slot r r' : (slot < MAX_PKGS)%nat -> agree slot r r' ->
  take SECTOR_SIZE r = take SECTOR_SIZE r' \/ drop SECTOR_SIZE r = drop SECTOR_SIZE r'.
Proof.
  intros Hs (Hl & Hl' & Ha). unfold entry_off, ENTRY_SIZE, MAX_PKGS, SECTOR_SIZE in *.
  destruct (Nat.lt_ge_cases slot 4) as [Hlt|Hge]; [right|left]; apply list_eq; intros i.
  - rewrite !lookup_drop. apply Ha. lia.
  - destruct (decide (i < 512)%nat); [rewrite !lookup_take_lt by done; apply Ha; lia|by rewrite !lookup_take_ge by lia].
Qed.

Lemma write_registry_atomic slot k : (slot < MAX_PKGS)%nat -> bytes_ok (k_reg k) ->
  agree slot (registry_of (dk k)) (k_reg k) ->
  exists ok k', write_registry k = Some (ok, k') /\ frame k k' /\ k_stage k' = k_stage k /\
    (forall x, x < 25 \/ 27 <= x -> dk k' x = dk k x) /\
    (registry_of (dk k') = registry_of (dk k) \/ registry_of (dk k') = k_reg k) /\
    (ok = true -> registry_of (dk k') = k_reg k).
Proof.
  intros Hs Hb Ha. pose proof Ha as (Hl & Hl' & _).
  destruct (write_sectors_spec BLK_REQ_PKG_REGISTRY_WRITE PKG_REGISTRY_SECTORS_USED PKG_REGISTRY_SECTOR (k_reg k) k)
    as (ok & k' & E & F & Hst & D & C & O); [|done|].
  { intros i Hi. left. split; [done|]. unfold PKG_REGISTRY_SECTORS_USED, PKG_REGISTRY_SECTOR in *. lia. }
  unfold PKG_REGISTRY_SECTORS_USED, PKG_REGISTRY_SECTOR in *. change REGISTRY_SIZE with (SECTOR_SIZE + SECTOR_SIZE)%nat in *.
  assert (H0 : chunk (k_reg k) 0 = take SECTOR_SIZE (k_reg k)).
  { unfold chunk. cbn [Nat.mul]. unfold slice. rewrite drop_0. apply pad_full. rewrite length_take. lia. }
  assert (H1 : chunk (k_reg k) 1 = drop SECTOR_SIZE (k_reg k)).
  { unfold chunk. rewrite Nat.mul_1_l. unfold slice. rewrite take_ge by (rewrite length_drop; lia).
    apply pad_full. rewrite length_drop. lia. }
  pose proof (C 0%nat ltac:(lia)) as C0. pose proof (C 1%nat ltac:(lia)) as C1. rewrite H0 in C0. rewrite H1 in C1.
  change (25 + Z.of_nat 0) with 25 in C0. change (25 + Z.of_nat 1) with 26 in C1.
  assert (Hold : take SECTOR_SIZE (registry_of (dk k)) = dk k 25 /\ drop SECTOR_SIZE (registry_of (dk k)) = dk k 26).
  { unfold registry_of. assert (length (dk k 25) = SECTOR_SIZE) as Hd by apply (law_size (k_world k) 25).
    split; [by apply take_app_length'|by apply drop_app_length']. }
  destruct Hold as [Ho1 Ho2].
  assert (Hnew : take SECTOR_SIZE (k_reg k) ++ drop SECTOR_SIZE (k_reg k) = k_reg k) by apply take_drop.
  exists ok, k'. split; [exact E|]. split; [done|]. split; [done|]. split; [intros x Hx; apply D; lia|]. split.
  - destruct (agree_sector slot _ _ Hs Ha) as [Es|Es].
    + rewrite Ho1 in Es. unfold registry_of. rewrite <- Hnew, <- Es. rewrite <- Es in C0.
      destruct C0 as [->| ->], C1 as [->| ->]; auto.
    + rewrite Ho2 in Es. unfold registry_of. rewrite <- Hnew, <- Es. rewrite <- Es in C1.
      destruct C0 as [->| ->], C1 as [->| ->]; auto.
  - intros Hok. pose proof (O Hok 0%nat ltac:(lia)) as E0. pose proof (O Hok 1%nat ltac:(lia)) as E1.
    unfold registry_of. change 25 with (25 + Z.of_nat 0). change 26 with (25 + Z.of_nat 1). rewrite E0, E1, H0, H1. apply take_drop.
Qed.
End Specs.
