(* ===== verification/PkgCrash.v ===== *)
(** * Interrupted installs

    The install transaction of [Pkg] on a block service that may fail, or stop
    for good, at any request, followed by any number of reboots whose recovery
    may be interrupted too.  Whatever happens, the other slots and their blobs
    are untouched, and once the journal is empty the slot is as it was before,
    holds the new package with exactly the uploaded image, or is quarantined. *)

From Stdlib Require Import ZArith Lia String.
From stdpp Require Import base option strings numbers list.
From S2P Require Import Prelude Text B64 Dzp Ir IrVerify Mcap Pkg PkgCodec PkgDisk.

(** ** Checks that return *)

Lemma parse_total b : bytes_ok b ->
  (exists e, Dzp.parse b = Trap e) \/ (exists pkg, Dzp.parse b = Ret pkg /\ bytes_ok (pkg_payload pkg)).
Proof.
  intros Hb. destruct (parse_cases b Hb) as [He|(kind & m & man & p & E & _ & Eb)]; [by left|right].
  eexists. split; [exact E|]. cbn. rewrite Eb in Hb. unfold dzp_bytes in Hb.
  do 7 (apply Forall_app in Hb as [_ Hb]). exact Hb.
Qed.

Lemma verify_payload_total pkg : bytes_ok (pkg_payload pkg) -> verify_payload pkg = Ret tt \/ verify_payload pkg = Trap tt.
Proof.
  intros Hb. unfold verify_payload. destruct (_ =? KIND_DEZH_IR).
  - destruct (verify_decides _ Hb) as [[-> _]|(e & -> & _)]; [by left|by right].
  - destruct (_ =? KIND_ELF_RISCV64); [|by right]. destruct (_ && _); [by left|by right].
Qed.

Section Total.
Context {W : Type} {SV : SectorService W} {DV : DiskView W} {SL : SectorLaws W}.

(** [run m k Q]: [m] returns from [k], in a state and with an answer [Q]
    allows. *)
Definition run {A} (m : KM W A) (k : Kern W) (Q : A -> Kern W -> Prop) : Prop := exists a k', m k = Some (a, k') /\ Q a k'.

Lemma run_bind {A B} (m : KM W A) (f : A -> KM W B) k Q : run m k (fun a k1 => run (f a) k1 Q) -> run (m ≫= f) k Q.
Proof. intros (a & k1 & E & b & k2 & E2 & HQ). exists b, k2. split; [|done]. unfold mbind, KM_bind. by rewrite E. Qed.
Lemma run_ret {A} (a : A) k (Q : A -> Kern W -> Prop) : Q a k -> run (mret a) k Q.
Proof. intros. by exists a, k. Qed.
Lemma run_mono {A} (m : KM W A) k (P Q : A -> Kern W -> Prop) : run m k P -> (forall a k', P a k' -> Q a k') -> run m k Q.
Proof. intros (a & k' & E & HP) HQ. exists a, k'. auto. Qed.
Lemma run_gets {A} (f : Kern W -> A) k Q : Q (f k) k -> run (gets f) k Q.
Proof. intros. by exists (f k), k. Qed.

Definition stage_ok (k : Kern W) : Prop := zlen (k_stage k) = STAGE_SIZE /\ bytes_ok (k_stage k).
Lemma frame_stage k k' : frame k k' -> stage_ok k -> stage_ok k'.
Proof. intros (_ & Hl & Hb) [H1 H2]. split; [unfold zlen in *; congruence|auto]. Qed.

Lemma image_matches_total rec bytes k : bytes_ok bytes -> run (image_matches rec bytes) k (fun _ k' => k' = k).
Proof.
  intros Hb. unfold image_matches. destruct (negb _); [by apply run_ret|].
  destruct (parse_total bytes Hb) as [(e & ->)|(pkg & -> & Hp)]; apply run_bind; [by apply run_ret, run_ret|].
  apply run_ret. destruct (verify_payload_total pkg Hp) as [-> | ->]; apply run_bind, run_ret; cbn [is_ok negb]; [|by apply run_ret].
  destruct (manifest_str _ _); [|by apply run_ret]. destruct (parse_mcaps _); by apply run_ret.
Qed.

Lemma verify_blob_total base rec k : blob_area base -> 0 <= j_raw_len rec -> stage_ok k ->
  run (verify_blob_record_at base rec) k (fun _ k' => frame k k' /\ forall x, dk k' x = dk k x).
Proof.
  intros Hb Hl [Hst Hby]. unfold verify_blob_record_at. destruct (_ || _) eqn:Hc; [by apply run_ret|].
  apply orb_false_iff in Hc as [Hc _]. apply orb_false_iff in Hc as [_ Hc]. apply Z.ltb_ge in Hc.
  destruct (read_area_spec base (j_raw_len rec) k Hb Hl Hst) as (r & k1 & E & F & D & _).
  apply run_bind. exists r, k1. split; [exact E|]. destruct r; cbn [negb]; [|by apply run_ret].
  destruct (frame_stage k k1 F (conj Hst Hby)) as [Hst1 Hby1]. apply run_bind.
  eexists _, _. split; [apply staged_bytes_spec; [unfold STAGE_SIZE, PKG_MAX_RAW_BYTES in *; lia|done]|].
  eapply run_mono; [apply image_matches_total; by apply Forall_take|]. intros _ k2 ->. done.
Qed.

(** ** The journal's bytes *)

Lemma drop_put n l o v : (o + length v <= n)%nat -> (o + length v <= length l)%nat -> drop n (put l o v) = drop n l.
Proof.
  intros Hn Hl. apply list_eq. intros i. rewrite !lookup_drop. unfold put. rewrite lookup_update_slice by done.
  by rewrite decide_False by lia.
Qed.

Lemma length_encode_journal r : journal_ok r -> length (encode_journal r) = JOURNAL_SIZE.
Proof.
  intros Hr. unfold encode_journal, put_u32. pose proof journal_room.
  rewrite length_put; rewrite length_journal_body by done; [done|]. rewrite length_le_bytes. lia.
Qed.

Lemma encode_journal_bytes r : journal_ok r -> bytes_ok (encode_journal r).
Proof. intros Hr. apply put_u32_bytes. by apply journal_body_bytes. Qed.

Lemma encode_journal_rest r : journal_ok r -> drop SECTOR_SIZE (encode_journal r) = replicate (JOURNAL_SIZE - SECTOR_SIZE) 0.
Proof.
  intros Hr. pose proof journal_room. pose proof (jo_name r Hr). pose proof (jo_version r Hr).
  unfold zlen, NAME_MAX, VER_MAX, SECTOR_SIZE in *. unfold encode_journal, journal_body. cbv zeta. unfold put_u32.
  repeat (rewrite drop_put by (arr_range || apart)). apply drop_replicate.
Qed.

Definition jsec (r : JournalRecord) : list Z := take SECTOR_SIZE (encode_journal r).

Lemma jsec_whole r : journal_ok r -> jsec r ++ replicate (JOURNAL_SIZE - SECTOR_SIZE) 0 = encode_journal r.
Proof. intros Hr. unfold jsec. rewrite <- (encode_journal_rest r) by done. apply take_drop. Qed.

Lemma read_clean_journal d : (forall x, length (d x) = SECTOR_SIZE) -> journal_clean d ->
  area d 32 JOURNAL_SECTORS = d 32 ++ replicate (JOURNAL_SIZE - SECTOR_SIZE) 0.
Proof.
  intros Hl Hc. unfold JOURNAL_SECTORS. cbn [area]. f_equal. rewrite !Hc by lia.
  change JOURNAL_SIZE with (8 * SECTOR_SIZE)%nat. unfold ZERO_SECTOR. rewrite app_nil_r, <- !replicate_add. f_equal.
Qed.

Lemma decode_zero_journal : decode_journal (ZERO_SECTOR ++ replicate (JOURNAL_SIZE - SECTOR_SIZE) 0) = JEmpty.
Proof. unfold decode_journal. vm_compute. reflexivity. Qed.

(** ** The commit sequence *)

Lemma write_journal_run r k : journal_ok r -> journal_clean (dk k) ->
  run (write_journal r) k (fun ok k' => frame k k' /\ journal_clean (dk k') /\ (forall x, x < 32 \/ 40 <= x -> dk k' x = dk k x) /\
    (dk k' 32 = dk k 32 \/ dk k' 32 = jsec r) /\ (ok = true -> dk k' 32 = jsec r)).
Proof.
  intros Hr Hc. destruct (write_journal_atomic (encode_journal r) k) as (ok & k' & E & F & _ & H1 & H2 & H3 & H4);
    [by apply encode_journal_bytes|by apply length_encode_journal|by apply encode_journal_rest|done|].
  exists ok, k'. split; [exact E|]. done.
Qed.

Lemma clear_journal_run k : journal_clean (dk k) ->
  run clear_journal k (fun ok k' => frame k k' /\ journal_clean (dk k') /\ (forall x, x < 32 \/ 40 <= x -> dk k' x = dk k x) /\
    (dk k' 32 = dk k 32 \/ dk k' 32 = ZERO_SECTOR) /\ (ok = true -> dk k' 32 = ZERO_SECTOR)).
Proof.
  intros Hc. assert (Ht : take SECTOR_SIZE (replicate JOURNAL_SIZE 0) = ZERO_SECTOR).
  { rewrite take_replicate. unfold ZERO_SECTOR. f_equal. }
  destruct (write_journal_atomic (replicate JOURNAL_SIZE 0) k) as (ok & k' & E & F & _ & H1 & H2 & H3 & H4);
    [apply zero_bytes|apply length_replicate|apply drop_replicate|done|].
  rewrite Ht in *. exists ok, k'. split; [exact E|]. done.
Qed.

Lemma marker_run k : run init_store_marker k (fun _ k' => frame k k' /\ forall x, x <> 24 -> dk k' x = dk k x).
Proof.
  unfold init_store_marker, sector_status. cbv beta iota delta [mbind KM_bind gets].
  destruct (sv_request BLK_REQ_PKG_STORE_INIT PKG_STORE_MARKER_SECTOR None (k_world k)) as [st w'] eqn:E. eexists _, _. split; [rewrite E; reflexivity|]. split; [done|].
  exact (law_marker _ _ _ E).
Qed.

Lemma and_then_run (a b : KM W bool) k Q :
  run a k (fun ok k1 => if ok : bool then run b k1 Q else Q false k1) -> run (and_then a b) k Q.
Proof.
  intros Ha. apply run_bind. eapply run_mono; [exact Ha|]. intros [] k1 H1; [done|by apply run_ret].
Qed.

(** Committing a registry that differs from the disk in one slot: the disk has
    the old one, the new one with the journal, or the new one without. *)
Lemma commit_run slot k : (slot < MAX_PKGS)%nat -> bytes_ok (k_reg k) -> agree slot (registry_of (dk k)) (k_reg k) ->
  journal_clean (dk k) ->
  run commit_store k (fun ok k' => frame k k' /\ journal_clean (dk k') /\
    (forall x, x <> 24 -> x <> 25 -> x <> 26 -> (x < 32 \/ 40 <= x) -> dk k' x = dk k x) /\
    ((dk k' 32 = dk k 32 /\ (registry_of (dk k') = registry_of (dk k) \/ registry_of (dk k') = k_reg k)) \/
     (dk k' 32 = ZERO_SECTOR /\ registry_of (dk k') = k_reg k)) /\
    (ok = true -> dk k' 32 = ZERO_SECTOR /\ registry_of (dk k') = k_reg k)).
Proof.
  intros Hs Hb Ha Hc. unfold commit_store. apply and_then_run.
  destruct (write_registry_atomic slot k Hs Hb Ha) as (ok1 & k1 & E1 & F1 & _ & D1 & C1 & O1).
  exists ok1, k1. split; [exact E1|].
  assert (Hc1 : journal_clean (dk k1)) by (intros x Hx; rewrite D1 by lia; by apply Hc).
  destruct ok1; [|split_and!; [done|done|intros; apply D1; lia|left; split; [apply D1; lia|done]|done]].
  specialize (O1 eq_refl). apply and_then_run. eapply run_mono; [apply marker_run|].
  intros ok2 k2 [F2 D2]. cbn beta in *.
  assert (Hr2 : registry_of (dk k2) = k_reg k) by (unfold registry_of; rewrite !D2 by lia; exact O1).
  assert (Hc2 : journal_clean (dk k2)) by (intros x Hx; rewrite D2 by lia; by apply Hc1).
  assert (H32 : dk k2 32 = dk k 32) by (rewrite D2, D1 by lia; done).
  assert (Hx2 : forall x, x <> 24 -> x <> 25 -> x <> 26 -> (x < 32 \/ 40 <= x) -> dk k2 x = dk k x)
    by (intros; rewrite D2, D1 by lia; done).
  destruct ok2; [|split_and!; [by etrans|done|done|left; split; [done|by right]|done]].
  eapply run_mono; [by apply clear_journal_run|]. intros ok3 k3 (F3 & Hc3 & D3 & C3 & O3). cbn beta in *.
  assert (Hr3 : registry_of (dk k3) = k_reg k) by (unfold registry_of; rewrite !D3 by lia; exact Hr2).
  split_and!; [etrans; [exact F1|etrans; [exact F2|exact F3]]|done|intros; rewrite D3 by lia; by apply Hx2| |intros Hok; split; [by apply O3|done]].
  destruct C3 as [E3|E3]; [left; split; [congruence|by right]|by right].
Qed.
(** ** Reboots *)

(** A reboot loses the statics; recovery runs at the first package command
    ([manual] when it is pkg-recover) and may itself be cut short. *)
Definition recovery (manual : bool) (w : W) : option (bool * Kern W) :=
  and_then read_registry (recover_from_journal manual) (boot w).
Definition reboots (w w' : W) : Prop := exists manual ok k', recovery manual w = Some (ok, k') /\ w' = k_world k'.

Lemma boot_stage (w : W) : stage_ok (boot w).
Proof.
  split; [|apply zero_bytes]. unfold zlen, boot, k_stage. rewrite length_replicate, Z2Nat.id; [done|].
  unfold STAGE_SIZE. lia.
Qed.
End Total.

(** ** One install *)

Section Install.
Context {W : Type} {SV : SectorService W} {DV : DiskView W} {SL : SectorLaws W}.
Context (slot : nat) (R0 : list Z) (name version : str) (mcaps : Z) (bytes : list Z) (pkg : Package) (d0 : Z -> list Z).

Definition old : Z := entry_state R0 slot.
Definition recS : JournalRecord :=
  mkJournal JOURNAL_OP_INSTALL JOURNAL_PHASE_STARTED slot old STATE_ACTIVE mcaps (zlen bytes) (checksum bytes)
    (slot_blob_sector slot) (div_ceil (zlen bytes)) (checksum R0) 0 (utf8_encode name) (utf8_encode version).
Definition recB : JournalRecord := with_phase recS JOURNAL_PHASE_BLOB_WRITTEN 0.
Definition Rpend : list Z :=
  encode_entry R0 slot STATE_PENDING_INSTALL name version (pkg_kind pkg) mcaps (zlen bytes) (checksum bytes).
Definition recP : JournalRecord := with_phase recB JOURNAL_PHASE_REGISTRY_PENDING (checksum Rpend).
Definition Ract : list Z := with_state Rpend slot STATE_ACTIVE.
Definition Rback : list Z := rollback_slot R0 recS.

(** The slot's blob holds the uploaded image. *)
Definition blob_ok (d : Z -> list Z) : Prop :=
  take (length bytes) (area d (slot_blob_sector slot) (Z.to_nat (div_ceil (zlen bytes)))) = bytes.

Definition as_before (r : list Z) : Prop := r = R0 \/ r = Rback.
Definition quarantined (r : list Z) : Prop :=
  r = with_state R0 slot STATE_QUARANTINED \/ r = with_state Rpend slot STATE_QUARANTINED.

(** What an install may have left when no transaction is open. *)
Definition settled (d : Z -> list Z) : Prop :=
  as_before (registry_of d) \/ (registry_of d = Ract /\ blob_ok d) \/ quarantined (registry_of d).

Definition untouched (d : Z -> list Z) : Prop := forall x,
  x <> 24 -> x <> 25 -> x <> 26 -> (x < 32 \/ 40 <= x) ->
  (x < slot_blob_sector slot \/ slot_blob_sector slot + 64 <= x) -> d x = d0 x.

Record tx_inv (d : Z -> list Z) : Prop := {
  tx_clean : journal_clean d;
  tx_untouched : untouched d;
  tx_state :
    (d 32 = ZERO_SECTOR /\ settled d) \/
    ((d 32 = jsec recS \/ d 32 = jsec recB) /\ as_before (registry_of d)) \/
    (d 32 = jsec recP /\ (registry_of d = R0 \/ ((registry_of d = Rpend \/ registry_of d = Ract) /\ blob_ok d) \/
                          quarantined (registry_of d))) }.

Context (Hslot : (slot < MAX_PKGS)%nat) (HR0 : length R0 = REGISTRY_SIZE) (HR0b : bytes_ok R0).
Context (Hname : valid_str name) (Hversion : valid_str version) (Hn : slen name <= NAME_MAX) (Hv : slen version <= VER_MAX).
Context (Hcaps : fits 32 mcaps) (Hbytes : bytes_ok bytes) (Hlen : 0 < zlen bytes <= PKG_MAX_RAW_BYTES).

Lemma checksum_fits l : bytes_ok l -> fits 32 (checksum l).
Proof. intros Hl. apply crc32_fits. by constructor. Qed.

Lemma byte_of_list (l : list Z) o : bytes_ok l -> fits 8 (byte_at l o).
Proof.
  intros Hl. unfold byte_at. destruct (l !! o) as [x|] eqn:E; [|by vm_compute]. by eapply (Forall_lookup_1 (fits 8)).
Qed.

Lemma Rpend_length : length Rpend = REGISTRY_SIZE.
Proof. by apply length_encode_entry. Qed.

Lemma Rpend_bytes : bytes_ok Rpend.
Proof.
  unfold Rpend, encode_entry, without_slot. cbv zeta.
  pose proof (utf8_encode_bytes _ Hname). pose proof (utf8_encode_bytes _ Hversion).
  repeat first [apply put_u32_bytes | apply put_u16_bytes | apply put_bytes]; try done; try apply zero_bytes;
    try (apply one_byte; first [apply wrap_fits; lia | by vm_compute]); [by apply bytes_okb_spec|].
  apply one_byte. unfold MAX_PKGS in Hslot. unfold fits. change (2 ^ 8) with 256. lia.
Qed.

Lemma state_bytes r st : bytes_ok r -> fits 8 st -> bytes_ok (with_state r slot st).
Proof. intros Hr Hst. apply put_bytes; [done|by apply one_byte]. Qed.

Lemma recS_ok : journal_ok recS.
Proof.
  pose proof (zlen_nonneg bytes). unfold PKG_MAX_RAW_BYTES in Hlen. unfold MAX_PKGS in Hslot.
  destruct (div_ceil_pos (zlen bytes)) as [Hd0 Hd1]; [lia|].
  split; cbn [recS j_op j_phase j_slot j_old_state j_new_state j_mcaps j_raw_len j_raw_crc j_blob_start j_blob_count j_before_crc
    j_after_crc j_name j_version].
  - exact Hslot.
  - by vm_compute.
  - by vm_compute.
  - by apply byte_of_list.
  - by vm_compute.
  - by apply utf8_encode_bytes.
  - by apply utf8_encode_bytes.
  - exact Hn.
  - exact Hv.
  - exact Hcaps.
  - unfold fits. lia.
  - by apply checksum_fits.
  - unfold slot_blob_sector, PKG_BLOB_FIRST_SECTOR, PKG_SLOT_SECTORS, fits. lia.
  - unfold fits. lia.
  - by apply checksum_fits.
  - by vm_compute.
Qed.
Lemma with_phase_ok r ph c : journal_ok r -> fits 8 ph -> fits 32 c -> journal_ok (with_phase r ph c).
Proof. intros [] Hp Hc. by split. Qed.
Lemma recB_ok : journal_ok recB.
Proof. apply with_phase_ok; [apply recS_ok|by vm_compute..]. Qed.
Lemma recP_ok : journal_ok recP.
Proof. apply with_phase_ok; [apply recB_ok|by vm_compute|]. apply checksum_fits, Rpend_bytes. Qed.

(** ** Registries of the transaction agree outside the slot *)

Lemma agree_sym r r' : agree slot r r' -> agree slot r' r.
Proof. intros (H1 & H2 & H3). split_and!; [done..|]. intros. symmetry. auto. Qed.
Lemma agree_trans r1 r2 r3 : agree slot r1 r2 -> agree slot r2 r3 -> agree slot r1 r3.
Proof. intros (H1 & H2 & H3) (H4 & H5 & H6). split_and!; [done..|]. intros. rewrite H3 by done. auto. Qed.

Lemma agree_state r r' st : agree slot r r' -> agree slot r (with_state r' slot st).
Proof.
  intros (H1 & H2 & H3). split_and!; [done|by apply length_with_state|]. intros i Hi. rewrite H3 by done.
  unfold with_state, put. pose proof (entry_room slot Hslot). unfold ENTRY_SIZE in *.
  rewrite lookup_update_slice by (rewrite H2; cbn [length]; lia). by rewrite decide_False by (cbn [length]; lia).
Qed.
Lemma agree_without r r' : agree slot r r' -> agree slot r (without_slot r' slot).
Proof.
  intros (H1 & H2 & H3). split_and!; [done|by apply length_without_slot|]. intros i Hi. rewrite H3 by done.
  unfold without_slot, put. pose proof (entry_room slot Hslot).
  rewrite lookup_update_slice by (rewrite H2, length_replicate; lia). by rewrite decide_False by (rewrite length_replicate; lia).
Qed.
Lemma agree_refl r : length r = REGISTRY_SIZE -> agree slot r r.
Proof. done. Qed.
Lemma agree_pend : agree slot R0 Rpend.
Proof. split_and!; [done|apply Rpend_length|]. intros i Hi. symmetry. by apply encode_entry_other. Qed.
Lemma agree_act : agree slot R0 Ract.
Proof. apply agree_state, agree_pend. Qed.
Lemma agree_back : agree slot R0 Rback.
Proof. unfold Rback, rollback_slot. case_match; [by apply agree_without|by apply agree_state]. Qed.

(** Rolling back what is as before changes nothing further. *)
Lemma rollback_as_before r ph c : as_before r -> rollback_slot r (with_phase recS ph c) = Rback.
Proof.
  unfold as_before, Rback, rollback_slot. cbn [j_old_state j_slot recS with_phase]. intros [->| ->]; [done|].
  destruct (old =? STATE_EMPTY); [by apply without_slot_twice|]. by apply with_state_twice.
Qed.

(** ** The transaction *)

Lemma blob_far x : x <= 40 -> x < slot_blob_sector slot.
Proof. unfold slot_blob_sector, PKG_BLOB_FIRST_SECTOR. lia. Qed.

Lemma blob_ok_ext d d' : (forall x, 40 <= x -> d' x = d x) -> blob_ok d -> blob_ok d'.
Proof.
  intros Hd Hb. unfold blob_ok in *. rewrite (area_ext d d'); [done|]. intros x Hx. apply Hd.
  pose proof (blob_far 40 ltac:(lia)). lia.
Qed.

(** A step that touches no sector of the store keeps the invariant. *)
Lemma tx_inv_ext d d' : (forall x, x <> 24 -> d' x = d x) -> tx_inv d -> tx_inv d'.
Proof.
  intros Hd [Hc Hu Hs]. assert (Hr : registry_of d' = registry_of d) by (unfold registry_of; by rewrite !Hd by lia).
  split.
  - intros x Hx. rewrite Hd by lia. by apply Hc.
  - intros x H24. rewrite Hd by lia. by apply Hu.
  - assert (Hb : blob_ok d -> blob_ok d') by (apply blob_ok_ext; intros; apply Hd; lia).
    unfold settled in *. rewrite Hr, Hd by lia. destruct Hs as [(A & B)|[(A & B)|(A & B)]].
    + left. split; [exact A|]. destruct B as [B|[[B1 B2]|B]]; [by left|right; left; by split; [|apply Hb]|by right; right].
    + right. left. by split.
    + right. right. split; [exact A|]. destruct B as [B|[[B1 B2]|B]]; [by left|right; left; by split; [|apply Hb]|by right; right].
Qed.

Lemma journal_record_recS : journal_record JOURNAL_OP_INSTALL JOURNAL_PHASE_STARTED slot old STATE_ACTIVE name version mcaps
  (zlen bytes) (checksum bytes) (checksum R0) 0 = Some recS.
Proof. unfold journal_record. by rewrite !(proj2 (Z.ltb_ge _ _)) by done. Qed.

(** Where the disk is in the transaction: the journal's sector and the
    registry. *)
Record At (J R : list Z) (k : Kern W) : Prop := {
  at_stage : stage_ok k;
  at_clean : journal_clean (dk k);
  at_untouched : untouched (dk k);
  at_journal : dk k 32 = J;
  at_registry : registry_of (dk k) = R }.

Lemma journal_step r k J R : journal_ok r -> At J R k ->
  run (write_journal r) k (fun ok k' => frame k k' /\ (forall x, 40 <= x -> dk k' x = dk k x) /\
    (if ok : bool then At (jsec r) R k' else At J R k' \/ At (jsec r) R k')).
Proof.
  intros Hr [Hs Hc Hu HJ HR]. eapply run_mono; [by apply write_journal_run|]. intros ok k' (F & Hc' & D & C & O).
  split; [done|]. split; [intros; apply D; lia|].
  assert (Hat : forall J', dk k' 32 = J' -> At J' R k').
  { intros J' E. split; [by eapply frame_stage|done| |done|].
    - intros x H1 H2 H3 H4 H5. rewrite D by done. by apply Hu.
    - unfold registry_of. rewrite !D by lia. exact HR. }
  destruct ok; [apply Hat; by apply O|]. destruct C as [C|C]; [left|right]; apply Hat; [by rewrite C|exact C].
Qed.

Lemma blob_step k J R : At J R k -> run (write_blob slot bytes) k (fun ok k' => frame k k' /\ At J R k' /\ (ok = true -> blob_ok (dk k'))).
Proof.
  intros [Hs Hc Hu HJ HR]. destruct (blob_areas slot Hslot) as [Hb _].
  destruct (write_blob_spec (slot_blob_sector slot) bytes k Hb Hbytes) as (ok & k' & E & F & _ & D & O); [lia|].
  exists ok, k'. split; [exact E|]. split; [done|]. split; [|exact O].
  assert (D' : forall x, x <= 40 -> dk k' x = dk k x) by (intros x Hx; apply D; left; by apply blob_far).
  split; [by eapply frame_stage| | | |].
  - intros x Hx. rewrite D' by lia. by apply Hc.
  - intros x H1 H2 H3 H4 H5. rewrite D by done. by apply Hu.
  - by rewrite D' by lia.
  - unfold registry_of. rewrite !D' by lia. exact HR.
Qed.

Lemma registry_step k J R : At J R k -> bytes_ok (k_reg k) -> agree slot R (k_reg k) ->
  run write_registry k (fun ok k' => frame k k' /\ (forall x, 40 <= x -> dk k' x = dk k x) /\
    (if ok : bool then At J (k_reg k) k' else At J R k' \/ At J (k_reg k) k')).
Proof.
  intros [Hs Hc Hu HJ HR] Hb Ha. rewrite <- HR in Ha.
  destruct (write_registry_atomic slot k Hslot Hb Ha) as (ok & k' & E & F & _ & D & C & O).
  exists ok, k'. split; [exact E|]. split; [done|]. split; [intros; apply D; lia|].
  assert (Hat : forall R', registry_of (dk k') = R' -> At J R' k').
  { intros R' E'. split; [by eapply frame_stage| | | |done].
    - intros x Hx. rewrite D by lia. by apply Hc.
    - intros x H1 H2 H3 H4 H5. rewrite D by lia. by apply Hu.
    - by rewrite D by lia. }
  destruct ok; [apply Hat; by apply O|]. destruct C as [C|C]; [left|right]; apply Hat; [by rewrite C|exact C].
Qed.

Lemma commit_step k J R : At J R k -> bytes_ok (k_reg k) -> agree slot R (k_reg k) ->
  run commit_store k (fun ok k' => frame k k' /\ (forall x, 40 <= x -> dk k' x = dk k x) /\
    (if ok : bool then At ZERO_SECTOR (k_reg k) k' else At J R k' \/ At J (k_reg k) k' \/ At ZERO_SECTOR (k_reg k) k')).
Proof.
  intros [Hs Hc Hu HJ HR] Hb Ha. rewrite <- HR in Ha. eapply run_mono; [by apply (commit_run slot)|].
  intros ok k' (F & Hc' & D & C & O). split; [done|]. split; [intros; apply D; lia|].
  assert (Hat : forall J' R', dk k' 32 = J' -> registry_of (dk k') = R' -> At J' R' k').
  { intros J' R' E1 E2. split; [by eapply frame_stage|done| |done|done].
    intros x H1 H2 H3 H4 H5. rewrite D by done. by apply Hu. }
  destruct ok; [destruct (O eq_refl); by apply Hat|]. destruct C as [[C1 [C2|C2]]|[C1 C2]].
  - left. apply Hat; congruence.
  - right. left. apply Hat; congruence.
  - right. right. by apply Hat.
Qed.

Lemma verify_step r k J R : j_slot r = slot -> 0 <= j_raw_len r -> At J R k ->
  run (verify_slot_blob r) k (fun _ k' => frame k k' /\ (forall x, dk k' x = dk k x) /\ At J R k').
Proof.
  intros Hr Hl [Hs Hc Hu HJ HR]. unfold verify_slot_blob. rewrite Hr. destruct (blob_areas slot Hslot) as [Hb _].
  eapply run_mono; [by apply verify_blob_total|]. intros ok k' [F D]. split; [done|]. split; [done|].
  split; [by eapply frame_stage| | | |].
  - intros x Hx. rewrite D. by apply Hc.
  - intros x H1 H2 H3 H4 H5. rewrite D. by apply Hu.
  - by rewrite D.
  - unfold registry_of. rewrite !D. exact HR.
Qed.

(** The invariant at the places the transaction stops. *)
Lemma inv_started J k : At J R0 k -> J = ZERO_SECTOR \/ J = jsec recS \/ J = jsec recB \/ J = jsec recP -> tx_inv (dk k).
Proof.
  intros [Hs Hc Hu HJ HR] HJ'. split; [done|done|]. unfold settled, as_before. rewrite HJ, HR.
  destruct HJ' as [->|[->|[->| ->]]].
  - left. split; [done|]. left. by left.
  - right. left. split; [by left|by left].
  - right. left. split; [by right|by left].
  - right. right. split; [done|by left].
Qed.
Lemma inv_Z k : At ZERO_SECTOR R0 k -> tx_inv (dk k).
Proof. intros Ha. apply (inv_started _ k Ha). by left. Qed.
Lemma inv_S k : At (jsec recS) R0 k -> tx_inv (dk k).
Proof. intros Ha. apply (inv_started _ k Ha). right. by left. Qed.
Lemma inv_B k : At (jsec recB) R0 k -> tx_inv (dk k).
Proof. intros Ha. apply (inv_started _ k Ha). right. right. by left. Qed.
Lemma inv_P k : At (jsec recP) R0 k -> tx_inv (dk k).
Proof. intros Ha. apply (inv_started _ k Ha). right. right. by right. Qed.
Lemma inv_pending R k : At (jsec recP) R k -> R = Rpend \/ R = Ract -> blob_ok (dk k) -> tx_inv (dk k).
Proof.
  intros [Hs Hc Hu HJ HR] HR' Hb. split; [done|done|]. right. right. split; [done|]. right. left. rewrite HR. by split.
Qed.
Lemma inv_done k : At ZERO_SECTOR Ract k -> blob_ok (dk k) -> tx_inv (dk k).
Proof. intros [Hs Hc Hu HJ HR] Hb. split; [done|done|]. left. split; [done|]. right. left. by split. Qed.

(** Steps on the statics only. *)
Lemma run_static {A} (m : KM W A) k a k' Q : m k = Some (a, k') -> Q a k' -> run m k Q.
Proof. intros. by exists a, k'. Qed.

Lemma At_static J R k k' : k_stage k' = k_stage k -> k_world k' = k_world k -> At J R k -> At J R k'.
Proof.
  intros Hst Hw [Hs Hc Hu HJ HR]. unfold stage_ok, dk in *. split; unfold stage_ok, dk; rewrite ?Hst, ?Hw; done.
Qed.

Definition ended (reply : Reply) (k' : Kern W) : Prop :=
  tx_inv (dk k') /\ ((reply = Done \/ reply = ArenaFull) -> dk k' 32 = ZERO_SECTOR /\ registry_of (dk k') = Ract /\ blob_ok (dk k')).

Lemma ended_early reply k' : reply <> Done -> reply <> ArenaFull -> tx_inv (dk k') -> ended reply k'.
Proof. intros H1 H2 Hi. split; [done|]. by intros [?|?]. Qed.

(** From the pending registry in memory and [recB] in the journal on. *)
Lemma install_commit k : At (jsec recB) R0 k -> blob_ok (dk k) -> k_reg k = Rpend ->
  run (reg ← gets k_reg;
       let rec := with_phase recB JOURNAL_PHASE_REGISTRY_PENDING (checksum reg) in
       ok ← and_then (write_journal rec) write_registry;
       if negb ok then mret PendingFailed else
       audit "installer" "pkg.registry.pending" "package" "OK" ;;
       set_entry_state slot STATE_ACTIVE ;;
       ok ← commit_store;
       if negb ok then mret CommitFailed else
       audit "installer" "pkg.tx.commit" "package" "OK" ;;
       modify_pkgs (fun pkgs => <[slot := EMPTY_PKG]> pkgs) ;;
       ok ← install_runtime_entry slot name version (pkg_kind pkg) mcaps (zlen bytes) (checksum bytes) (pkg_payload pkg);
       invalidate_loaded ;;
       mret (if ok : bool then Done else ArenaFull)) k ended.
Proof.
  intros Hat Hb Hreg. apply run_bind, run_gets. cbv zeta. rewrite Hreg. fold recP.
  apply run_bind, and_then_run. eapply run_mono; [by apply (journal_step recP); [apply recP_ok|]|].
  intros ok1 k1 (F1 & D1 & H1). destruct ok1.
  2: { apply run_ret. apply ended_early; [done|done|]. destruct H1 as [H1|H1]; [by apply inv_B|by apply inv_P]. }
  assert (Hreg1 : k_reg k1 = Rpend) by (destruct F1; congruence).
  assert (Hb1 : blob_ok (dk k1)) by by eapply blob_ok_ext.
  eapply run_mono; [apply (registry_step k1 (jsec recP) R0 H1); rewrite Hreg1; [apply Rpend_bytes|apply agree_pend]|].
  intros ok2 k2 (F2 & D2 & H2). rewrite Hreg1 in H2. assert (Hb2 : blob_ok (dk k2)) by by eapply blob_ok_ext.
  destruct ok2; cbn [negb].
  2: { apply run_ret. apply ended_early; [done|done|].
       destruct H2 as [H2|H2]; [by apply inv_P|eapply inv_pending; [exact H2|by left|done]]. }
  assert (Hreg2 : k_reg k2 = Rpend) by (destruct F2; congruence).
  apply run_bind. eapply run_static; [reflexivity|]. apply run_bind. eapply run_static; [reflexivity|].
  cbn [k_reg]. rewrite Hreg2. fold Ract.
  match goal with |- run _ ?q _ => assert (H3 : At (jsec recP) Rpend q) by (by eapply At_static; [| |exact H2]); set (k3 := q) in * end.
  assert (Hreg3 : k_reg k3 = Ract) by done. assert (Hb3 : blob_ok (dk k3)) by done. clearbody k3. clear k2 F2 D2 H2 Hb2 Hreg2.
  apply run_bind. eapply run_mono; [apply (commit_step k3 (jsec recP) Rpend H3); rewrite Hreg3|].
  { apply state_bytes; [apply Rpend_bytes|by vm_compute]. }
  { apply agree_state, agree_refl, Rpend_length. }
  intros ok4 k4 (F4 & D4 & H4). rewrite Hreg3 in H4. assert (Hb4 : blob_ok (dk k4)) by by eapply blob_ok_ext.
  destruct ok4; cbn [negb].
  2: { apply run_ret. apply ended_early; [done|done|].
       destruct H4 as [H4|[H4|H4]]; [eapply inv_pending; [exact H4|by left|done]|eapply inv_pending; [exact H4|by right|done]|by apply inv_done]. }
  apply run_bind. eapply run_static; [reflexivity|]. apply run_bind. eapply run_static; [reflexivity|].
  match goal with |- run _ ?q _ => assert (H5 : At ZERO_SECTOR Ract q) by (by eapply At_static; [| |exact H4]); set (k5 := q) in * end.
  assert (Hb5 : blob_ok (dk k5)) by done. clearbody k5. clear k4 F4 D4 H4 Hb4.
  assert (Hfin : forall k6 b, k_stage k6 = k_stage k5 -> k_world k6 = k_world k5 ->
    run (invalidate_loaded ;; mret (if b : bool then Done else ArenaFull)) k6 ended).
  { intros k6 b Es Ew. apply run_bind. eapply run_static; [reflexivity|]. apply run_ret.
    assert (H6 : At ZERO_SECTOR Ract k6) by by eapply At_static; [| |exact H5].
    assert (Hb6 : blob_ok (dk k6)) by (unfold dk; rewrite Ew; exact Hb5).
    split; [exact (inv_done k6 H6 Hb6)|]. intros _. destruct H6 as [_ _ _ E1 E2]. exact (conj E1 (conj E2 Hb6)). }
  apply run_bind. unfold install_runtime_entry. apply run_bind, run_gets. destruct (ARENA_SIZE <? _).
  { apply run_ret. by apply (Hfin k5 false). }
  unfold NAME_MAX, VER_MAX in *. rewrite !(proj2 (Z.ltb_ge _ _)) by done. cbn [orb].
  apply run_bind, run_gets. apply run_bind. eapply run_static; [reflexivity|]. apply run_bind, run_gets.
  apply run_bind. eapply run_static; [reflexivity|]. apply run_ret. by apply (Hfin _ true).
Qed.

Lemma install_tx_run k : k_reg k = R0 -> stage_ok k -> journal_clean (dk k) -> dk k 32 = ZERO_SECTOR ->
  registry_of (dk k) = R0 -> (forall x, dk k x = d0 x) ->
  run (install_transaction slot old name version mcaps bytes pkg) k ended.
Proof.
  intros Hreg Hs Hc HJ HR Hd. assert (H0 : At ZERO_SECTOR R0 k).
  { split; [done|done| |done|done]. intros x _ _ _ _ _. apply Hd. }
  unfold install_transaction. apply run_bind, run_gets. cbv zeta. rewrite Hreg, journal_record_recS.
  apply run_bind, run_ret. apply run_bind. eapply run_mono; [by apply (journal_step recS); [apply recS_ok|]|].
  intros ok1 k1 (F1 & D1 & H1). destruct ok1; cbn [negb].
  2: { apply run_ret. apply ended_early; [done|done|]. destruct H1 as [H1|H1]; [by apply inv_Z|by apply inv_S]. }
  apply run_bind. eapply run_static; [reflexivity|].
  match goal with |- run _ ?q _ => assert (H2 : At (jsec recS) R0 q) by (by eapply At_static; [| |exact H1]); set (k2 := q) in * end.
  assert (Hreg2 : k_reg k2 = R0) by (destruct F1; cbn; congruence). clearbody k2. clear k1 F1 D1 H1.
  apply run_bind. eapply run_mono; [by apply blob_step|]. intros ok3 k3 (F3 & H3 & O3). destruct ok3; cbn [negb].
  2: { apply run_ret. apply ended_early; [done|done|]. by apply inv_S. }
  specialize (O3 eq_refl). fold recB. apply run_bind. eapply run_mono; [by apply (journal_step recB); [apply recB_ok|]|].
  intros ok4 k4 (F4 & D4 & H4). destruct ok4; cbn [negb].
  2: { apply run_ret. apply ended_early; [done|done|]. destruct H4 as [H4|H4]; [by apply inv_S|by apply inv_B]. }
  assert (Hb4 : blob_ok (dk k4)) by by eapply blob_ok_ext.
  apply run_bind. eapply run_mono; [apply (verify_step recB k4 (jsec recB) R0); [done|cbn; lia|done]|].
  intros ok5 k5 (F5 & D5 & H5). destruct ok5; cbn [negb].
  2: { apply run_ret. apply ended_early; [done|done|]. by apply inv_B. }
  assert (Hb5 : blob_ok (dk k5)) by (eapply blob_ok_ext; [|exact Hb4]; auto).
  assert (Hreg5 : k_reg k5 = R0) by (destruct F3, F4, F5; congruence).
  apply run_bind. eapply run_static; [reflexivity|]. apply run_bind. eapply run_static; [reflexivity|].
  apply install_commit; [by eapply At_static; [| |exact H5]|done|]. cbn [k_reg]. rewrite Hreg5. done.
Qed.

(** ** Recovery *)

Definition open_state (R : list Z) (d : Z -> list Z) : Prop :=
  R = R0 \/ ((R = Rpend \/ R = Ract) /\ blob_ok d) \/ quarantined R.

Lemma inv_open R k : At (jsec recP) R k -> open_state R (dk k) -> tx_inv (dk k).
Proof. intros [Hs Hc Hu HJ HR] Ho. split; [done|done|]. right. right. split; [done|]. by rewrite HR. Qed.
Lemma inv_settled R k : At ZERO_SECTOR R k -> as_before R \/ (R = Ract /\ blob_ok (dk k)) \/ quarantined R -> tx_inv (dk k).
Proof. intros [Hs Hc Hu HJ HR] Ho. split; [done|done|]. left. split; [done|]. unfold settled. by rewrite HR. Qed.
Lemma inv_early J R k : At J R k -> J = jsec recS \/ J = jsec recB -> as_before R -> tx_inv (dk k).
Proof.
  intros [Hs Hc Hu HJ HR] HJ' Ho. split; [done|done|]. right. left. rewrite HJ, HR. by split.
Qed.

Lemma At_of_inv k J R : tx_inv (dk k) -> stage_ok k -> dk k 32 = J -> registry_of (dk k) = R -> At J R k.
Proof. intros [Hc Hu _] Hs HJ HR. by split. Qed.

Lemma read_registry_run k : run read_registry k (fun ok k' => k_stage k' = k_stage k /\ (forall x, dk k' x = dk k x) /\
  (ok = true -> k_reg k' = registry_of (dk k))).
Proof.
  destruct (read_sectors_spec BLK_REQ_PKG_REGISTRY_READ PKG_REGISTRY_SECTORS_USED PKG_REGISTRY_SECTOR k)
    as (r & k1 & E & F & S1 & D & R).
  { intros i Hi. left. split; [done|]. unfold PKG_REGISTRY_SECTORS_USED, PKG_REGISTRY_SECTOR in *. lia. }
  unfold read_registry. apply run_bind. exists r, k1. split; [exact E|]. destruct R as [->| ->].
  - apply run_ret. done.
  - apply run_bind. eapply run_static; [reflexivity|]. apply run_ret. split; [done|]. split; [done|]. intros _. cbn [k_reg].
    unfold PKG_REGISTRY_SECTORS_USED. cbn [area]. by rewrite app_nil_r.
Qed.

Lemma read_journal_run k : journal_clean (dk k) ->
  run read_journal_raw k (fun raw k' => k_stage k' = k_stage k /\ k_reg k' = k_reg k /\ (forall x, dk k' x = dk k x) /\
    (raw = None \/ raw = Some (dk k 32 ++ replicate (JOURNAL_SIZE - SECTOR_SIZE) 0))).
Proof.
  intros Hc. destruct (read_sectors_spec BLK_REQ_PKG_JOURNAL_READ JOURNAL_SECTORS PKG_JOURNAL_SECTOR k)
    as (r & k1 & E & F & S1 & D & R).
  { intros i Hi. right. left. split; [done|]. unfold JOURNAL_SECTORS, PKG_JOURNAL_SECTOR in *. lia. }
  exists r, k1. split; [exact E|]. split; [done|]. split; [apply F|]. split; [done|].
  rewrite <- read_clean_journal; [done|intros; apply (law_size (k_world k))|done].
Qed.

Lemma decode_jsec r : journal_ok r -> decode_journal (jsec r ++ replicate (JOURNAL_SIZE - SECTOR_SIZE) 0) = JValid r.
Proof. intros Hr. rewrite jsec_whole by done. by apply decode_encode_journal. Qed.

Definition recovered (ok : bool) (k' : Kern W) : Prop :=
  stage_ok k' /\ tx_inv (dk k') /\ (ok = true -> dk k' 32 = ZERO_SECTOR).

Lemma recovered_static k k' b : k_stage k' = k_stage k -> k_world k' = k_world k -> (b = true -> dk k 32 = ZERO_SECTOR) ->
  stage_ok k -> tx_inv (dk k) -> recovered b k'.
Proof. intros Hst Hw Hb Hs Hi. unfold recovered, stage_ok, dk in *. rewrite Hst, Hw. done. Qed.

(** The end of recovery: commit, then leave the store degraded or not. *)
Lemma finish_recovery k J R : At J R k -> bytes_ok (k_reg k) -> agree slot R (k_reg k) ->
  (forall k', (forall x, 40 <= x -> dk k' x = dk k x) ->
     At J R k' \/ At J (k_reg k) k' \/ At ZERO_SECTOR (k_reg k) k' -> tx_inv (dk k')) ->
  run (ok ← commit_store;
       if negb ok then set_degraded true ;; mret false else set_degraded false ;; invalidate_loaded ;; mret true) k recovered.
Proof.
  intros Ha Hb Hag Hinv. apply run_bind. eapply run_mono; [by apply (commit_step k J R)|].
  intros ok k1 (F & D & H1). assert (Hi : tx_inv (dk k1)) by (apply Hinv; [done|]; destruct ok; [by right; right|done]).
  assert (Hs : stage_ok k1) by (destruct ok; [apply H1|destruct H1 as [H1|[H1|H1]]; apply H1]).
  destruct ok; cbn [negb]; (apply run_bind; eapply run_static; [reflexivity|]).
  - apply run_bind. eapply run_static; [reflexivity|]. apply run_ret.
    eapply (recovered_static k1); [done|done| |done|done]. intros _. exact (at_journal _ _ _ H1).
  - apply run_ret. eapply (recovered_static k1); done.
Qed.

Context (Hold : old <> STATE_PENDING_INSTALL).

Lemma back_bytes : bytes_ok Rback.
Proof.
  unfold Rback, rollback_slot. destruct (_ =? _); [apply put_bytes; [done|apply zero_bytes]|].
  apply state_bytes; [done|]. by apply byte_of_list.
Qed.

Lemma jsec_not_zero r : journal_ok r -> jsec r <> ZERO_SECTOR.
Proof. intros Hr E. pose proof (decode_jsec r Hr) as H. rewrite E, decode_zero_journal in H. discriminate H. Qed.

(** Rolling back a record written before the registry was touched. *)
Lemma recover_early rec k R : rec = recS \/ rec = recB -> At (jsec rec) R k -> as_before R -> k_reg k = R ->
  run (ok ← and_then (recover_record rec) commit_store;
       if negb ok then set_degraded true ;; mret false else set_degraded false ;; invalidate_loaded ;; mret true) k recovered.
Proof.
  intros Hrec Ha HR Hreg.
  assert (Hroll : exists k1, recover_record rec k = Some (true, k1) /\ k_reg k1 = Rback /\ k_stage k1 = k_stage k /\ k_world k1 = k_world k).
  { destruct Hrec as [->| ->]; (eexists; split; [reflexivity|]); (split; [|done]); cbn [k_reg]; rewrite Hreg.
    - exact (rollback_as_before R JOURNAL_PHASE_STARTED 0 HR).
    - exact (rollback_as_before R JOURNAL_PHASE_BLOB_WRITTEN 0 HR). }
  destruct Hroll as (k1 & E1 & Hreg1 & Hst & Hw). unfold and_then.
  assert (Ha1 : At (jsec rec) R k1) by (by eapply At_static; [| |exact Ha]).
  assert (Hag : agree slot R Rback).
  { destruct HR as [->| ->]; [apply agree_back|apply agree_refl, agree_back]. }
  assert (Hfin := finish_recovery k1 (jsec rec) R Ha1). rewrite Hreg1 in Hfin.
  destruct (Hfin back_bytes Hag) as (b & k2 & E2 & HQ).
  { intros k' _ [Hk|[Hk|Hk]].
    - eapply inv_early; [exact Hk| |done]. destruct Hrec as [->| ->]; [by left|by right].
    - eapply inv_early; [exact Hk| |by right]. destruct Hrec as [->| ->]; [by left|by right].
    - eapply inv_settled; [exact Hk|]. left. by right. }
  exists b, k2. split; [|exact HQ]. unfold mbind, KM_bind in E2 |- *. rewrite E1. exact E2.
Qed.

(** The registry recovery goes for when the record says the registry was being
    written. *)
Lemma recover_pending_record k R : At (jsec recP) R k -> open_state R (dk k) -> k_reg k = R ->
  run (recover_record recP) k (fun ok k1 => ok = true /\ At (jsec recP) R k1 /\ (forall x, dk k1 x = dk k x) /\
    bytes_ok (k_reg k1) /\ agree slot R (k_reg k1) /\ ((k_reg k1 = Ract /\ blob_ok (dk k1)) \/ quarantined (k_reg k1))).
Proof.
  intros Ha Ho Hreg.
  assert (HRl : length R = REGISTRY_SIZE /\ bytes_ok R).
  { destruct Ho as [->|[[[->| ->] _]|[->| ->]]]; [done|split; [apply Rpend_length|apply Rpend_bytes]| | |];
      (split; [apply length_with_state; [done|try apply Rpend_length; done]|apply state_bytes; [try apply Rpend_bytes; done|by vm_compute]]). }
  destruct HRl as [HRl HRb].
  assert (Hq : quarantined (with_state R slot STATE_QUARANTINED)).
  { destruct Ho as [->|[[[->| ->] _]|[->| ->]]]; [by left|by right| | |];
      (unfold Ract; rewrite with_state_twice by (done || apply Rpend_length)); [by right|by left|by right]. }
  change (recover_record recP) with
   (reg ← gets k_reg;
    let pending := entry_state reg slot =? STATE_PENDING_INSTALL in
    update ← mret false;
    install ← (if update : bool then mret true else if true && pending then verify_slot_blob recP else mret false);
    if install : bool then
      set_entry_state slot STATE_ACTIVE ;; audit "installer" "pkg.recover" "package" "COMMITTED" ;; mret true
    else
      set_entry_state slot STATE_QUARANTINED ;; audit "installer" "pkg.recover" "package" "QUARANTINED" ;; mret true : KM W bool).
  apply run_bind, run_gets. cbv zeta. apply run_bind, run_ret. apply run_bind. rewrite Hreg. cbn [andb].
  assert (Hquar : forall k1, At (jsec recP) R k1 -> (forall x, dk k1 x = dk k x) -> k_reg k1 = R ->
    run (set_entry_state slot STATE_QUARANTINED ;; audit "installer" "pkg.recover" "package" "QUARANTINED" ;; mret true) k1
      (fun ok k1 => ok = true /\ At (jsec recP) R k1 /\ (forall x, dk k1 x = dk k x) /\
         bytes_ok (k_reg k1) /\ agree slot R (k_reg k1) /\ ((k_reg k1 = Ract /\ blob_ok (dk k1)) \/ quarantined (k_reg k1)))).
  { intros k1 Ha1 D1 Hreg1. apply run_bind. eapply run_static; [reflexivity|]. apply run_bind. eapply run_static; [reflexivity|].
    apply run_ret. split; [done|]. split; [by eapply At_static; [| |exact Ha1]|]. split; [exact D1|]. cbn [k_reg]. rewrite Hreg1.
    split; [apply state_bytes; [done|by vm_compute]|]. split; [by apply agree_state, agree_refl|]. by right. }
  destruct (Z.eqb_spec (entry_state R slot) STATE_PENDING_INSTALL) as [Hpend|Hnp].
  2: { apply run_ret. by apply Hquar. }
  assert (HRp : R = Rpend /\ blob_ok (dk k)).
  { destruct Ho as [->|[[[->| ->] Hb]|[->| ->]]]; [done|done| | |]; exfalso; revert Hpend; unfold Ract;
      (rewrite entry_with_state by (done || apply Rpend_length)); done. }
  destruct HRp as [-> Hb]. eapply run_mono; [apply (verify_step recP k (jsec recP) Rpend); [done|cbn; lia|exact Ha]|].
  intros ok k1 (F1 & D1 & Ha1). assert (Hreg1 : k_reg k1 = Rpend) by (destruct F1; congruence).
  destruct ok; [|by apply Hquar]. apply run_bind. eapply run_static; [reflexivity|]. apply run_bind. eapply run_static; [reflexivity|].
  apply run_ret. split; [done|]. split; [by eapply At_static; [| |exact Ha1]|]. split; [exact D1|]. cbn [k_reg]. rewrite Hreg1.
  split; [apply state_bytes; [done|by vm_compute]|]. split; [by apply agree_state, agree_refl|]. left. split; [done|].
  eapply blob_ok_ext; [|exact Hb]. intros; apply D1.
Qed.

Lemma recover_inv manual k : tx_inv (dk k) -> stage_ok k ->
  run (and_then read_registry (recover_from_journal manual)) k recovered.
Proof.
  intros Hi Hs. apply and_then_run. eapply run_mono; [apply read_registry_run|]. intros ok k1 (S1 & D1 & O1).
  assert (Hi1 : tx_inv (dk k1)) by (eapply tx_inv_ext; [|exact Hi]; auto).
  assert (Hs1 : stage_ok k1) by (unfold stage_ok; by rewrite S1).
  destruct ok; [|by split; [|split]]. specialize (O1 eq_refl).
  assert (Hreg1 : k_reg k1 = registry_of (dk k1)) by (unfold registry_of in *; by rewrite O1, !D1).
  clear k Hi Hs S1 D1 O1. unfold recover_from_journal. apply run_bind. eapply run_mono; [apply read_journal_run, Hi1|].
  intros raw k2 (S2 & R2 & D2 & C2). assert (Hi2 : tx_inv (dk k2)) by (eapply tx_inv_ext; [|exact Hi1]; auto).
  assert (Hs2 : stage_ok k2) by (unfold stage_ok; by rewrite S2).
  assert (Hreg2 : k_reg k2 = registry_of (dk k2)) by (unfold registry_of in *; by rewrite R2, !D2).
  rewrite <- D2 in C2. clear k1 Hi1 Hs1 Hreg1 S2 R2 D2. destruct C2 as [->| ->].
  { apply run_bind. eapply run_static; [reflexivity|]. apply run_ret. by eapply (recovered_static k2). }
  assert (Hat : forall J, dk k2 32 = J -> At J (registry_of (dk k2)) k2) by (intros; by apply At_of_inv).
  destruct (tx_state _ Hi2) as [[E Hst]|[[E Hst]|[E Hst]]].
  - rewrite E, decode_zero_journal. apply run_bind. eapply run_static; [reflexivity|]. apply run_ret.
    by eapply (recovered_static k2).
  - destruct E as [E|E]; rewrite E.
    + rewrite decode_jsec by apply recS_ok. apply (recover_early recS _ _ (or_introl eq_refl) (Hat _ E) Hst Hreg2).
    + rewrite decode_jsec by apply recB_ok. apply (recover_early recB _ _ (or_intror eq_refl) (Hat _ E) Hst Hreg2).
  - rewrite E, decode_jsec by apply recP_ok.
    destruct (recover_pending_record k2 _ (Hat _ E) Hst Hreg2) as (ok & k3 & E3 & -> & Ha3 & D3 & Hb3 & Hag3 & Hn3).
    destruct (finish_recovery k3 _ _ Ha3 Hb3 Hag3) as (b & k4 & E4 & HQ).
    { intros k' D4 [Hk|[Hk|Hk]].
      - eapply inv_open; [exact Hk|]. destruct Hst as [Hst|[[Hst Hb]|Hst]]; [by left| |by right; right].
        right. left. split; [done|]. eapply blob_ok_ext; [|exact Hb]. intros x Hx. rewrite D4 by done. apply D3.
      - eapply inv_open; [exact Hk|]. destruct Hn3 as [[Hn3 Hb]|Hn3]; [|by right; right].
        right. left. split; [by right|]. by eapply blob_ok_ext.
      - eapply inv_settled; [exact Hk|]. destruct Hn3 as [[Hn3 Hb]|Hn3]; [|by right; right].
        right. left. split; [done|]. by eapply blob_ok_ext. }
    exists b, k4. split; [|exact HQ]. unfold and_then, mbind, KM_bind in E4 |- *. rewrite E3. exact E4.
Qed.

(** ** After any number of reboots *)

Lemma tx_inv_other d s : tx_inv d -> (s < MAX_PKGS)%nat -> s <> slot ->
  slice (registry_of d) (entry_off s) ENTRY_SIZE = slice R0 (entry_off s) ENTRY_SIZE.
Proof.
  intros Hi Hs' Hne. assert (Ha : agree slot R0 (registry_of d)).
  { pose proof agree_act as A1. pose proof agree_pend as A2. pose proof agree_back as A3. pose proof (agree_refl R0 HR0) as A4.
    destruct (tx_state _ Hi) as [[_ Hst]|[[_ Hst]|[_ Hst]]].
    - destruct Hst as [[->| ->]|[[-> _]|[->| ->]]]; [done|done|done|by apply agree_state|by apply agree_state].
    - destruct Hst as [->| ->]; done.
    - destruct Hst as [->|[[[->| ->] _]|[->| ->]]]; [done|done|done|by apply agree_state|by apply agree_state]. }
  destruct Ha as (_ & _ & Ha). apply list_eq. intros i. rewrite !lookup_slice. case_decide; [|done]. symmetry. apply Ha.
  unfold entry_off, ENTRY_SIZE in *. lia.
Qed.

Lemma recovery_run manual w : tx_inv (sector_of w) ->
  exists ok k', recovery manual w = Some (ok, k') /\ tx_inv (dk k') /\ (ok = true -> dk k' 32 = ZERO_SECTOR).
Proof.
  intros Hi. destruct (recover_inv manual (boot w)) as (ok & k' & E & _ & Hi' & Hok); [exact Hi|apply boot_stage|].
  exists ok, k'. split; [exact E|]. split; [exact Hi'|exact Hok].
Qed.

Lemma reboots_inv w w' : tx_inv (sector_of w) -> reach reboots w w' -> tx_inv (sector_of w').
Proof.
  intros Hi Hr. eapply (reach_inv reboots (fun w => tx_inv (sector_of w))); [exact Hi| |exact Hr].
  clear w w' Hi Hr. intros w w' Hi (manual & ok & k' & E & ->).
  destruct (recovery_run manual w Hi) as (ok1 & k1 & E1 & Hi1 & _). rewrite E in E1. injection E1 as -> ->. exact Hi1.
Qed.

Lemma settled_of_inv d : tx_inv d -> d 32 = ZERO_SECTOR -> settled d.
Proof.
  intros Hi HZ. destruct (tx_state _ Hi) as [[_ Hst]|[[E _]|[E _]]]; [exact Hst| |]; exfalso.
  - destruct E as [E|E]; rewrite E in HZ; [exact (jsec_not_zero recS recS_ok HZ)|exact (jsec_not_zero recB recB_ok HZ)].
  - rewrite E in HZ. exact (jsec_not_zero recP recP_ok HZ).
Qed.
End Install.

Section Reboots.
Context {W : Type} {SV : SectorService W} {DV : DiskView W} {SL : SectorLaws W}.

(** C1: An install into a store at rest (empty journal, in-memory registry equal to the one on disk, the
    slot not PendingInstall, name, version and image within the limits), on a block service that may
    fail or refuse any request but whose acknowledged reads and writes are exact, always returns.
    Through any number of reboots whose recovery may be interrupted as well, recovery always returns and
    leaves an empty journal when it says it succeeded, and whenever the journal is empty the slot is as
    it was before, holds the new entry with exactly the uploaded image on disk, or is quarantined. The
    other seven entries and every sector outside the store's own are untouched throughout, and an
    install that reports success has committed both the entry and the image. (A block client that cannot
    be launched is read as an acknowledgement by the kernel; that case is excluded here and is a
    finding.) *)
Theorem interrupted_install_is_atomic (k : Kern W) slot name version mcaps bytes pkg :
  let R0 := k_reg k in
  let old_state := entry_state R0 slot in
  (slot < MAX_PKGS)%nat -> length R0 = REGISTRY_SIZE -> bytes_ok R0 ->
  valid_str name -> valid_str version -> slen name <= NAME_MAX -> slen version <= VER_MAX ->
  fits 32 mcaps -> bytes_ok bytes -> 0 < zlen bytes <= PKG_MAX_RAW_BYTES -> old_state <> STATE_PENDING_INSTALL ->
  stage_ok k -> registry_of (dk k) = R0 -> journal_clean (dk k) -> dk k 32 = ZERO_SECTOR ->
  exists reply k1,
    install_transaction slot old_state name version mcaps bytes pkg k = Some (reply, k1) /\
    (reply = Done -> registry_of (dk k1) = Ract slot R0 name version mcaps bytes pkg /\ blob_ok slot bytes (dk k1)) /\
    forall w, reach reboots (k_world k1) w ->
      (forall manual, exists ok k2, recovery manual w = Some (ok, k2) /\ (ok = true -> dk k2 32 = ZERO_SECTOR)) /\
      (sector_of w 32 = ZERO_SECTOR -> settled slot R0 name version mcaps bytes pkg (sector_of w)) /\
      (forall s, (s < MAX_PKGS)%nat -> s <> slot ->
         slice (registry_of (sector_of w)) (entry_off s) ENTRY_SIZE = slice R0 (entry_off s) ENTRY_SIZE) /\
      untouched slot (dk k) (sector_of w).
Proof.
  intros R0 old_state Hs HR HRb Hn Hv Hn' Hv' Hc Hb Hl Ho Hst Hreg Hcl HZ.
  destruct (install_tx_run slot R0 name version mcaps bytes pkg (dk k) Hs HR HRb Hn Hv Hn' Hv' Hc Hb Hl k)
    as (reply & k1 & E & Hi & Hd); [reflexivity|exact Hst|exact Hcl|exact HZ|exact Hreg|reflexivity|].
  exists reply, k1. split; [exact E|]. split; [intros Hr; exact (proj2 (Hd (or_introl Hr)))|]. intros w Hw.
  assert (Hiw : tx_inv slot R0 name version mcaps bytes pkg (dk k) (sector_of w)) 
    by exact (reboots_inv slot R0 name version mcaps bytes pkg (dk k) Hs HR HRb Hn Hv Hn' Hv' Hc Hb Hl Ho _ w Hi Hw).
  split; [|split; [|split]].
  - intros manual. destruct (recovery_run slot R0 name version mcaps bytes pkg (dk k) Hs HR HRb Hn Hv Hn' Hv' Hc Hb Hl Ho manual w Hiw)
      as (ok & k2 & E2 & _ & Hok). exists ok, k2.
    split; [exact E2|exact Hok].
  - exact (settled_of_inv slot R0 name version mcaps bytes pkg (dk k) Hs HR HRb Hn Hv Hn' Hv' Hc Hb Hl _ Hiw).
  - intros s Hs1 Hs2. exact (tx_inv_other slot R0 name version mcaps bytes pkg (dk k) Hs HR Hn' Hv' _ s Hiw Hs1 Hs2).
  - exact (tx_untouched _ _ _ _ _ _ _ _ _ Hiw).
Qed.
End Reboots.
