(* ===== verification/Boot.v ===== *)
(** * The kernel boot contract (dezh-kernel/src/lib.rs)

    What a boot path hands to the kernel and what [plan_boot] checks before
    init starts: the memory map, the capability seeds, the install layout. *)

From Stdlib Require Import ZArith Lia String Permutation.
From stdpp Require Import base option strings numbers list sorting.
From S2P Require Import Prelude Text.

Inductive BootTarget := QemuVirtioX86_64 | QemuVirtioRiscV64.
Inductive MemoryKind := Usable | Reserved | Bootloader | Kernel | Framebuffer | Mmio.
Inductive KernelCapability :=
| AllocateFrames | MapAddressSpace | StartService | SendIpc | OpenVirtioDevice | OpenCairnRoot | OpenWasmRuntime.
Inductive ServiceKind := Init | SvcCairn | WasmRuntime | VirtioBlock | VirtioNet.

#[export] Instance BootTarget_eq_dec : EqDecision BootTarget.
Proof. solve_decision. Defined.
#[export] Instance MemoryKind_eq_dec : EqDecision MemoryKind.
Proof. solve_decision. Defined.
#[export] Instance KernelCapability_eq_dec : EqDecision KernelCapability.
Proof. solve_decision. Defined.
#[export] Instance ServiceKind_eq_dec : EqDecision ServiceKind.
Proof. solve_decision. Defined.

Record MemoryRegion := mkRegion { rstart : Z; rlen : Z; rkind : MemoryKind }.

Definition region_end (r : MemoryRegion) : option Z := checked_add (rstart r) (rlen r).

Record CapabilitySeed := mkSeed { seed_service : str; seed_cap : KernelCapability }.
Record ServiceSpec := mkService { svc_name : str; svc_kind : ServiceKind; required_caps : list KernelCapability }.

Record DiskLayout := mkLayout {
  marker_sector : Z; cairn_current_sector : Z; cairn_previous_sector : Z;
  root_metadata_sector : Z; root_metadata_sectors : Z }.

Record InstallManifest := mkInstall {
  im_version : Z; im_target : BootTarget; root_service : str; block_service : str; layout : DiskLayout }.

Record BootInfo := mkInfo {
  target : BootTarget; memory : list MemoryRegion; init_services : list ServiceSpec;
  capability_seeds : list CapabilitySeed; install_manifest : InstallManifest }.

Record KernelPlan := mkPlan {
  plan_target : BootTarget; usable_bytes : Z; services : list ServiceSpec;
  plan_seeds : list CapabilitySeed; plan_manifest : InstallManifest }.

Inductive BootError :=
| EmptyMemoryMap | EmptyRegion | RegionOverflow | OverlappingRegions | NoUsableMemory | MissingInitService
| MissingRequiredCapability (service : str) (capability : KernelCapability)
| AmbientCapabilitySeed | MissingInstallService | InvalidInstallTarget | InvalidRootStorage.

#[export] Instance BootError_eq_dec : EqDecision BootError.
Proof. solve_decision. Defined.

(** ** The memory map *)

Abbreviation span := (Z * Z * MemoryKind)%type.

Fixpoint normalize (regions : list MemoryRegion) : result BootError (list span) :=
  match regions with
  | [] => Ok []
  | r :: rs =>
    if rlen r =? 0 then Err EmptyRegion else
    end_ ← ok_or (region_end r) RegionOverflow;
    rest ← normalize rs;
    Ok ((rstart r, end_, rkind r) :: rest)
  end.

(** [sort_by_key] on the start address: a stable sort. *)
Fixpoint insert_span (x : span) (l : list span) : list span :=
  match l with
  | [] => [x]
  | y :: l => if x.1.1 <=? y.1.1 then x :: y :: l else y :: insert_span x l
  end.

Definition sort_spans (l : list span) : list span := fold_right insert_span [] l.

Fixpoint scan_spans (l : list span) (previous_end : option Z) (has_usable : bool) : result BootError bool :=
  match l with
  | [] => Ok has_usable
  | (s, e, kind) :: l =>
    if match previous_end with Some prev => s <? prev | None => false end then Err OverlappingRegions
    else scan_spans l (Some e) (has_usable || bool_decide (kind = Usable))
  end.

Definition validate_memory_map (regions : list MemoryRegion) : result BootError unit :=
  match regions with
  | [] => Err EmptyMemoryMap
  | _ =>
    normalized ← normalize regions;
    has_usable ← scan_spans (sort_spans normalized) None false;
    if (has_usable : bool) then Ok tt else Err NoUsableMemory
  end.

(** ** Services, seeds and the install layout *)

Fixpoint check_seeds (svcs : list ServiceSpec) (seeds : list CapabilitySeed) : result BootError unit :=
  match seeds with
  | [] => Ok tt
  | seed :: seeds =>
    if negb (existsb (fun s => str_eqb (svc_name s) (seed_service seed)) svcs)
    then Err AmbientCapabilitySeed else check_seeds svcs seeds
  end.

Definition has_seed (seeds : list CapabilitySeed) (name : str) (c : KernelCapability) : bool :=
  existsb (fun seed => str_eqb (seed_service seed) name && bool_decide (seed_cap seed = c)) seeds.

Fixpoint check_required (seeds : list CapabilitySeed) (name : str) (caps : list KernelCapability)
  : result BootError unit :=
  match caps with
  | [] => Ok tt
  | c :: caps =>
    if negb (has_seed seeds name c) then Err (MissingRequiredCapability name c)
    else check_required seeds name caps
  end.

Fixpoint check_services (seeds : list CapabilitySeed) (svcs : list ServiceSpec) : result BootError unit :=
  match svcs with
  | [] => Ok tt
  | s :: svcs => check_required seeds (svc_name s) (required_caps s) ;; check_services seeds svcs
  end.

Definition validate_services (svcs : list ServiceSpec) (seeds : list CapabilitySeed) : result BootError unit :=
  if negb (existsb (fun s => bool_decide (svc_kind s = Init)) svcs) then Err MissingInitService else
  check_seeds svcs seeds ;; check_services seeds svcs.

Definition validate_install_manifest (m : InstallManifest) (svcs : list ServiceSpec) (t : BootTarget)
  : result BootError unit :=
  if negb (bool_decide (im_target m = t)) then Err InvalidInstallTarget else
  if negb (existsb (fun s => str_eqb (svc_name s) (root_service m)) svcs)
     || negb (existsb (fun s => str_eqb (svc_name s) (block_service m)) svcs)
  then Err MissingInstallService else
  let l := layout m in
  if (root_metadata_sectors l =? 0) || (marker_sector l =? cairn_current_sector l)
     || (marker_sector l =? cairn_previous_sector l) || (marker_sector l =? root_metadata_sector l)
     || (cairn_current_sector l =? cairn_previous_sector l)
     || (root_metadata_sector l <=? cairn_previous_sector l)
  then Err InvalidRootStorage else Ok tt.

(** ** The plan *)

(** [sum()] of [u64]: it panics when the addition overflows. *)
Fixpoint sum_u64 (l : list Z) (acc : Z) : outcome BootError Z :=
  match l with
  | [] => Ret acc
  | x :: l => if acc + x <? 2 ^ 64 then sum_u64 l (acc + x) else Panic
  end.

Definition of_result {E A} (r : result E A) : outcome E A :=
  match r with Ok a => Ret a | Err e => Trap e end.

Definition usable_lens (regions : list MemoryRegion) : list Z :=
  map rlen (List.filter (fun r => bool_decide (rkind r = Usable)) regions).

Definition plan_boot (info : BootInfo) : outcome BootError KernelPlan :=
  of_result (validate_memory_map (memory info)) ;;
  of_result (validate_services (init_services info) (capability_seeds info)) ;;
  of_result (validate_install_manifest (install_manifest info) (init_services info) (target info)) ;;
  total ← sum_u64 (usable_lens (memory info)) 0;
  Ret (mkPlan (target info) total (init_services info) (capability_seeds info) (install_manifest info)).

Definition layout_qemu_v0 : DiskLayout := mkLayout 0 2 3 4 4.
Definition qemu_v0 : InstallManifest :=
  mkInstall 0 QemuVirtioX86_64 (lit "cairn") (lit "virtio-block") layout_qemu_v0.
Definition qemu_riscv_v0 : InstallManifest :=
  mkInstall 0 QemuVirtioRiscV64 (lit "cairn") (lit "virtio-block") layout_qemu_v0.

Definition qemu_minimal (mem : list MemoryRegion) : BootInfo :=
  mkInfo QemuVirtioX86_64 mem
    [mkService (lit "init") Init [StartService; SendIpc];
     mkService (lit "cairn") SvcCairn [OpenCairnRoot; SendIpc];
     mkService (lit "wasm-runtime") WasmRuntime [OpenWasmRuntime; SendIpc];
     mkService (lit "virtio-block") VirtioBlock [OpenVirtioDevice; SendIpc]]
    [mkSeed (lit "init") StartService; mkSeed (lit "init") SendIpc;
     mkSeed (lit "cairn") OpenCairnRoot; mkSeed (lit "cairn") SendIpc;
     mkSeed (lit "wasm-runtime") OpenWasmRuntime; mkSeed (lit "wasm-runtime") SendIpc;
     mkSeed (lit "virtio-block") OpenVirtioDevice; mkSeed (lit "virtio-block") SendIpc]
    qemu_v0.

Definition qemu_minimal_riscv (mem : list MemoryRegion) : BootInfo :=
  let info := qemu_minimal mem in
  mkInfo QemuVirtioRiscV64 (memory info) (init_services info) (capability_seeds info) qemu_riscv_v0.

(** ** What a valid contract is *)

Definition region_ok (r : MemoryRegion) : Prop := 0 < rlen r /\ rstart r + rlen r < 2 ^ 64.
Definition region_fits (r : MemoryRegion) : Prop := fits 64 (rstart r) /\ fits 64 (rlen r).
Definition disjoint (a b : MemoryRegion) : Prop :=
  rstart a + rlen a <= rstart b \/ rstart b + rlen b <= rstart a.

Definition memory_map_ok (regions : list MemoryRegion) : Prop :=
  Forall region_ok regions /\ ForallOrdPairs disjoint regions /\
  Exists (fun r => rkind r = Usable) regions.

Definition services_ok (svcs : list ServiceSpec) (seeds : list CapabilitySeed) : Prop :=
  (exists s, s ∈ svcs /\ svc_kind s = Init) /\
  (forall seed, seed ∈ seeds -> exists s, s ∈ svcs /\ svc_name s = seed_service seed) /\
  (forall s c, s ∈ svcs -> c ∈ required_caps s -> mkSeed (svc_name s) c ∈ seeds).

Definition layout_ok (l : DiskLayout) : Prop :=
  root_metadata_sectors l <> 0 /\ marker_sector l <> cairn_current_sector l /\
  marker_sector l <> cairn_previous_sector l /\ marker_sector l <> root_metadata_sector l /\
  cairn_current_sector l <> cairn_previous_sector l /\ cairn_previous_sector l < root_metadata_sector l.

Definition install_ok (info : BootInfo) : Prop :=
  let m := install_manifest info in
  im_target m = target info /\
  (exists s, s ∈ init_services info /\ svc_name s = root_service m) /\
  (exists s, s ∈ init_services info /\ svc_name s = block_service m) /\ layout_ok (layout m).

Definition contract_ok (info : BootInfo) : Prop :=
  memory_map_ok (memory info) /\ services_ok (init_services info) (capability_seeds info) /\ install_ok info.

(** ** Memory maps *)

Definition to_span (r : MemoryRegion) : span := (rstart r, rstart r + rlen r, rkind r).

Lemma normalize_ok rs : Forall region_fits rs -> Forall region_ok rs -> normalize rs = Ok (map to_span rs).
Proof.
  intros Hf. induction Hf as [|r rs Hr Hf IH]; intros Hok; [done|].
  apply Forall_cons in Hok as [[H0 H1] Hok]. cbn [normalize map]. rewrite (proj2 (Z.eqb_neq _ _)) by lia.
  unfold region_end, checked_add. rewrite (proj2 (Z.ltb_lt _ _)) by lia. cbn [ok_or mbind result_bind].
  by rewrite IH.
Qed.

Lemma normalize_err rs : Forall region_fits rs -> ~ Forall region_ok rs -> exists e, normalize rs = Err e.
Proof.
  intros Hf. induction Hf as [|r rs [Hs Hl] Hf IH]; intros Hok; [by destruct Hok|]. cbn [normalize].
  destruct (Z.eqb_spec (rlen r) 0); [by eauto|].
  unfold region_end, checked_add. destruct (Z.ltb_spec (rstart r + rlen r) (2 ^ 64)); [|by eauto].
  cbn [ok_or mbind result_bind]. destruct IH as [e ->]; [|by eauto].
  intros Hrs. apply Hok. constructor; [|done]. split; [|done]. destruct Hl. lia.
Qed.

Lemma insert_span_perm x l : insert_span x l ≡ₚ x :: l.
Proof.
  induction l as [|y l IH]; [done|]. cbn. case_bool; [done|]. rewrite IH. constructor.
Qed.

Lemma sort_spans_perm l : sort_spans l ≡ₚ l.
Proof. induction l as [|x l IH]; [done|]. cbn. by rewrite insert_span_perm, IH. Qed.

Definition starts_sorted : list span -> Prop := StronglySorted (fun a b => a.1.1 <= b.1.1).

Lemma insert_span_sorted x l : starts_sorted l -> starts_sorted (insert_span x l).
Proof.
  unfold starts_sorted. induction 1 as [|y k Hk IH Hy]; cbn; [repeat constructor|].
  destruct (Z.leb_spec x.1.1 y.1.1).
  - constructor; [by constructor|]. constructor; [done|]. eapply Forall_impl; [done|]. cbn. lia.
  - constructor; [done|]. rewrite insert_span_perm. constructor; [lia|done].
Qed.

Lemma sort_spans_sorted l : starts_sorted (sort_spans l).
Proof. induction l as [|x l IH]; [constructor|]. by apply insert_span_sorted. Qed.

(** Each span ends before the next begins. *)
Fixpoint chained (prev : Z) (l : list span) : Prop :=
  match l with [] => True | (s, e, _) :: l => prev <= s /\ chained e l end.

Lemma scan_spans_spec l prev hu :
  (chained prev l /\ scan_spans l (Some prev) hu = Ok (hu || existsb (fun x => bool_decide (x.2 = Usable)) l)) \/
  (~ chained prev l /\ scan_spans l (Some prev) hu = Err OverlappingRegions).
Proof.
  revert prev hu. induction l as [|[[s e] k] l IH]; intros prev hu; cbn; [left; by rewrite orb_false_r|].
  destruct (Z.ltb_spec s prev); [right; split; [lia|done]|].
  destruct (IH e (hu || bool_decide (k = Usable))) as [[? ->]|[? ->]]; [left|right].
  - by rewrite orb_assoc.
  - split; [tauto|done].
Qed.

Definition span_disjoint (a b : span) : Prop := a.1.2 <= b.1.1 \/ b.1.2 <= a.1.1.

(** In start order, chained and pairwise disjoint are the same. *)
Lemma chained_disjoint l prev : Forall (fun x : span => x.1.1 < x.1.2) l -> starts_sorted l ->
  chained prev l <-> Forall (fun x : span => prev <= x.1.1) l /\ ForallOrdPairs span_disjoint l.
Proof.
  intros Hne Hs. revert prev. induction Hs as [|[[s e] k] l Hs IH Hle]; intros prev; cbn.
  { split; [by repeat constructor|done]. }
  apply Forall_cons in Hne as [Hse Hne]. cbn in *. rewrite (IH Hne). split.
  - intros (Hp & Hall & Hd). split.
    + constructor; [done|]. eapply Forall_impl; [apply Hall|]. cbn. lia.
    + constructor; [|done]. eapply Forall_impl; [apply Hall|]. intros [[? ?] ?]; cbn. unfold span_disjoint. cbn. lia.
  - intros [Hp Hd]. apply Forall_cons in Hp as [Hp Hall]. cbn in Hp. inversion Hd as [|? ? Hd1 Hd2]; subst.
    split; [done|]. split; [|done].
    rewrite Forall_forall in *. intros x Hx. specialize (Hd1 x Hx). specialize (Hle x Hx). specialize (Hne x Hx).
    unfold span_disjoint in Hd1. cbn in *. lia.
Qed.

Lemma ordpairs_perm {A} (R : A -> A -> Prop) (l k : list A) : Symmetric R -> l ≡ₚ k ->
  ForallOrdPairs R l -> ForallOrdPairs R k.
Proof.
  intros HR Hp. induction Hp as [|x l k Hp IH|x y l|l k m Hp1 IH1 Hp2 IH2]; intros H; [done| | |by auto].
  - inversion H as [|? ? Hx Hl]; subst. constructor; [by rewrite <- Hp|by apply IH].
  - inversion H as [|? ? Hx Hl]; subst. inversion Hl as [|? ? Hy Hl']; subst.
    apply Forall_cons in Hx as [Hxy Hx]. constructor; [constructor; [by symmetry|done]|by constructor].
Qed.

#[export] Instance span_disjoint_sym : Symmetric span_disjoint.
Proof. unfold span_disjoint. intros a b. lia. Qed.

Lemma disjoint_spans rs : ForallOrdPairs disjoint rs <-> ForallOrdPairs span_disjoint (map to_span rs).
Proof.
  induction rs as [|r rs IH]; cbn; [split; constructor|].
  split; intros H; inversion H as [|? ? H1 H2]; subst; (constructor; [|by apply IH]).
  - by apply Forall_map.
  - exact (proj1 (Forall_map _ _ _) H1).
Qed.

Lemma usable_spans rs : existsb (fun x : span => bool_decide (x.2 = Usable)) (sort_spans (map to_span rs)) = true <->
  Exists (fun r => rkind r = Usable) rs.
Proof.
  rewrite existsb_exists, Exists_exists. split.
  - intros (x & Hx & Hu). apply bool_decide_eq_true in Hu. apply list_elem_of_In in Hx.
    rewrite sort_spans_perm in Hx. apply list_elem_of_fmap in Hx as (r & -> & Hr). by exists r.
  - intros (r & Hr & Hu). exists (to_span r). split; [|by apply bool_decide_eq_true].
    apply list_elem_of_In. rewrite sort_spans_perm. by apply list_elem_of_fmap_2.
Qed.

Lemma validate_memory_map_spec rs : Forall region_fits rs ->
  (memory_map_ok rs /\ validate_memory_map rs = Ok tt) \/
  (~ memory_map_ok rs /\ exists e, validate_memory_map rs = Err e).
Proof.
  intros Hf. unfold validate_memory_map. destruct rs as [|r0 rs0].
  { right. split; [|by eauto]. intros (_ & _ & H). by inversion H. }
  remember (r0 :: rs0) as rs eqn:Ers. clear Ers.
  destruct (decide (Forall (fun r => 0 < rlen r /\ rstart r + rlen r < 2 ^ 64) rs)) as [Hok|Hbad].
  2: { right. split; [by intros [? _]|]. destruct (normalize_err rs Hf Hbad) as [e ->]. by exists e. }
  rewrite (normalize_ok rs Hf Hok). cbn [mbind result_bind].
  set (l := sort_spans (map to_span rs)).
  assert (Hl : Forall (fun x : span => 0 <= x.1.1 < x.1.2) l).
  { unfold l. rewrite sort_spans_perm. apply Forall_map. rewrite Forall_forall in *. intros r Hr.
    specialize (Hf r Hr). specialize (Hok r Hr). destruct Hf as [[? ?] ?]. cbn. lia. }
  assert (Hch : chained 0 l <-> ForallOrdPairs disjoint rs).
  { rewrite chained_disjoint; [|eapply Forall_impl; [apply Hl|cbn; lia]|apply sort_spans_sorted].
    rewrite disjoint_spans. split.
    - intros [_ Hd]. by apply (ordpairs_perm _ l); [apply _|apply sort_spans_perm|].
    - intros Hd. split; [eapply Forall_impl; [apply Hl|cbn; lia]|].
      by apply (ordpairs_perm _ (map to_span rs)); [apply _|symmetry; apply sort_spans_perm|]. }
  assert (Hscan : scan_spans l None false = scan_spans l (Some 0) false).
  { destruct l as [|[[s e] k] l']; [done|]. apply Forall_cons in Hl as [Hs _]. cbn in *.
    by rewrite (proj2 (Z.ltb_ge s 0)) by lia. }
  rewrite Hscan. unfold memory_map_ok. rewrite <- Hch, <- usable_spans. fold l.
  destruct (scan_spans_spec l 0 false) as [[Hc ->]|[Hc ->]]; cbn [mbind result_bind].
  - cbn [orb]. destruct (existsb _ l); [left|right]; [done|]. split; [by intros (_ & _ & ?)|by eauto].
  - right. split; [tauto|by eauto].
Qed.

(** ** The usable total cannot overflow *)

Definition sumz (l : list Z) : Z := foldr Z.add 0 l.

Lemma sumz_perm l k : l ≡ₚ k -> sumz l = sumz k.
Proof. unfold sumz. induction 1; cbn; lia. Qed.

Lemma sum_u64_ok l acc : Forall (Z.le 0) l -> acc + sumz l < 2 ^ 64 -> sum_u64 l acc = Ret (acc + sumz l).
Proof.
  intros Hl. revert acc. unfold sumz. induction Hl as [|x l Hx Hl IH]; intros acc; cbn -[Z.pow].
  { by rewrite Z.add_0_r. }
  assert (0 <= foldr Z.add 0 l) by (clear -Hl; induction Hl; cbn; lia).
  intros Hb. rewrite (proj2 (Z.ltb_lt _ _)) by lia. rewrite IH by lia. f_equal. lia.
Qed.

Definition span_len (x : span) : Z := x.1.2 - x.1.1.

Lemma chained_sum l prev M : chained prev l -> Forall (fun x : span => x.1.1 < x.1.2 <= M) l -> prev <= M ->
  sumz (map span_len l) <= M - prev.
Proof.
  unfold sumz. revert prev. induction l as [|[[s e] k] l IH]; intros prev; cbn; [lia|].
  intros [Hp Hc] Hall HM. apply Forall_cons in Hall as [He Hall]. cbn in He.
  specialize (IH e Hc Hall ltac:(lia)). unfold span_len at 1. cbn. lia.
Qed.

Lemma usable_lens_le rs : Forall region_fits rs -> 0 <= sumz (usable_lens rs) <= sumz (map rlen rs).
Proof.
  unfold usable_lens, sumz. induction 1 as [|r rs [_ [Hr _]] Hf IH]; cbn; [lia|].
  destruct (bool_decide (rkind r = Usable)); cbn; lia.
Qed.

Lemma usable_total_fits rs : Forall region_fits rs -> memory_map_ok rs ->
  sum_u64 (usable_lens rs) 0 = Ret (sumz (usable_lens rs)) /\ fits 64 (sumz (usable_lens rs)).
Proof.
  intros Hf (Hok & Hd & _). pose proof (usable_lens_le rs Hf) as Hle.
  set (l := sort_spans (map to_span rs)).
  assert (Hl : Forall (fun x : span => 0 <= x.1.1 < x.1.2 /\ x.1.2 <= 2 ^ 64 - 1) l).
  { unfold l. rewrite sort_spans_perm. apply Forall_map. rewrite Forall_forall in *. intros r Hr.
    specialize (Hf r Hr). specialize (Hok r Hr). destruct Hf as [[? ?] ?], Hok. unfold to_span; cbn -[Z.pow]. lia. }
  assert (Hsum : sumz (map span_len l) <= 2 ^ 64 - 1 - 0).
  { apply chained_sum; [|eapply Forall_impl; [apply Hl|cbn -[Z.pow]; lia]|lia].
    apply chained_disjoint; [eapply Forall_impl; [apply Hl|cbn; lia]|apply sort_spans_sorted|].
    split; [eapply Forall_impl; [apply Hl|cbn; lia]|].
    apply (ordpairs_perm _ (map to_span rs)); [apply _|symmetry; apply sort_spans_perm|by apply disjoint_spans]. }
  assert (Heq : sumz (map span_len l) = sumz (map rlen rs)).
  { rewrite (sumz_perm _ (map span_len (map to_span rs))); [|apply Permutation_map, sort_spans_perm].
    rewrite map_map. f_equal. apply map_ext. intros r. unfold span_len, to_span. cbn. lia. }
  split; [|split; lia]. rewrite sum_u64_ok; [done| |lia].
  unfold usable_lens. clear -Hf. induction Hf as [|r rs [_ [? _]] Hf IH]; cbn; [constructor|].
  destruct (bool_decide _); cbn; [by constructor|done].
Qed.

(** ** Services and the install layout *)

Lemma service_named svcs name :
  existsb (fun s => str_eqb (svc_name s) name) svcs = true <-> exists s, s ∈ svcs /\ svc_name s = name.
Proof.
  rewrite existsb_exists. split; intros (s & Hs & Hn); exists s; [apply list_elem_of_In in Hs|apply list_elem_of_In in Hs].
  - by apply str_eqb_eq in Hn.
  - by apply str_eqb_eq in Hn.
Qed.

Lemma has_seed_spec seeds name c : has_seed seeds name c = true <-> mkSeed name c ∈ seeds.
Proof.
  unfold has_seed. rewrite existsb_exists. split.
  - intros ([n c'] & Hs & He). apply andb_true_iff in He as [He1 He2]. apply str_eqb_eq in He1.
    apply bool_decide_eq_true in He2. cbn in *. subst. by apply list_elem_of_In.
  - intros Hs. exists (mkSeed name c). split; [by apply list_elem_of_In|].
    apply andb_true_iff. split; [by apply str_eqb_eq|by apply bool_decide_eq_true].
Qed.

Lemma check_seeds_spec svcs seeds :
  match check_seeds svcs seeds with
  | Ok _ => forall seed, seed ∈ seeds -> exists s, s ∈ svcs /\ svc_name s = seed_service seed
  | Err _ => ~ forall seed, seed ∈ seeds -> exists s, s ∈ svcs /\ svc_name s = seed_service seed
  end.
Proof.
  induction seeds as [|x seeds IH]; cbn; [intros ? H; by apply elem_of_nil in H|].
  destruct (existsb _ svcs) eqn:E; cbn.
  - apply service_named in E. destruct (check_seeds svcs seeds) as [u|e].
    + intros seed [-> |Hs]%elem_of_cons; [done|by apply IH].
    + intros H. apply IH. intros seed Hs. apply H. by apply elem_of_cons; right.
  - intros H. assert (E' : existsb (fun s => str_eqb (svc_name s) (seed_service x)) svcs = true); [|congruence].
    apply service_named, H. by apply elem_of_cons; left.
Qed.

Lemma check_required_spec seeds name caps :
  match check_required seeds name caps with
  | Ok _ => forall c, c ∈ caps -> mkSeed name c ∈ seeds
  | Err _ => ~ forall c, c ∈ caps -> mkSeed name c ∈ seeds
  end.
Proof.
  induction caps as [|x caps IH]; cbn; [intros ? H; by apply elem_of_nil in H|].
  destruct (has_seed seeds name x) eqn:E; cbn.
  - apply has_seed_spec in E. destruct (check_required seeds name caps) as [u|e].
    + intros c [-> |Hs]%elem_of_cons; [done|by apply IH].
    + intros H. apply IH. intros c Hs. apply H. by apply elem_of_cons; right.
  - intros H. assert (E' : has_seed seeds name x = true); [|congruence].
    apply has_seed_spec, H. by apply elem_of_cons; left.
Qed.

Lemma check_services_spec seeds svcs :
  match check_services seeds svcs with
  | Ok _ => forall s c, s ∈ svcs -> c ∈ required_caps s -> mkSeed (svc_name s) c ∈ seeds
  | Err _ => ~ forall s c, s ∈ svcs -> c ∈ required_caps s -> mkSeed (svc_name s) c ∈ seeds
  end.
Proof.
  induction svcs as [|x svcs IH]; cbn; [intros ? ? H; by apply elem_of_nil in H|].
  pose proof (check_required_spec seeds (svc_name x) (required_caps x)) as Hx.
  destruct (check_required seeds _ _) as [u|e]; cbn [mbind result_bind].
  - destruct (check_services seeds svcs) as [u'|e'].
    + intros s c [-> |Hs]%elem_of_cons Hc; [by apply Hx|by apply IH].
    + intros H. apply IH. intros s c Hs. apply H. by apply elem_of_cons; right.
  - intros H. apply Hx. intros c Hc. apply H; [by apply elem_of_cons; left|done].
Qed.

Lemma validate_services_spec svcs seeds :
  match validate_services svcs seeds with
  | Ok _ => services_ok svcs seeds
  | Err _ => ~ services_ok svcs seeds
  end.
Proof.
  unfold validate_services, services_ok. destruct (existsb _ svcs) eqn:E; cbn [negb].
  - apply existsb_exists in E as (s & Hs & Hk). apply list_elem_of_In in Hs. apply bool_decide_eq_true in Hk.
    pose proof (check_seeds_spec svcs seeds) as H1. pose proof (check_services_spec seeds svcs) as H2.
    destruct (check_seeds svcs seeds); cbn [mbind result_bind]; [|by intros (_ & ? & _)].
    destruct (check_services seeds svcs); [|by intros (_ & _ & ?)]. split; [by exists s|done].
  - intros [(s & Hs & Hk) _].
    assert (E' : existsb (fun s => bool_decide (svc_kind s = Init)) svcs = true); [|congruence].
    apply existsb_exists. exists s. split; [by apply list_elem_of_In|by apply bool_decide_eq_true].
Qed.

Lemma validate_install_spec info :
  match validate_install_manifest (install_manifest info) (init_services info) (target info) with
  | Ok _ => install_ok info
  | Err _ => ~ install_ok info
  end.
Proof.
  unfold validate_install_manifest, install_ok, layout_ok. set (m := install_manifest info).
  destruct (bool_decide (im_target m = target info)) eqn:Et; cbn [negb];
    [apply bool_decide_eq_true in Et|apply bool_decide_eq_false in Et; tauto].
  pose proof (service_named (init_services info) (root_service m)) as Hr.
  pose proof (service_named (init_services info) (block_service m)) as Hb.
  destruct (existsb _ _); cbn [negb orb]; [|by intros (_ & ?%Hr & _)].
  destruct (existsb _ _); cbn [negb]; [|by intros (_ & _ & ?%Hb & _)].
  specialize (proj1 Hr eq_refl) as Hr'. specialize (proj1 Hb eq_refl) as Hb'.
  destruct (_ || _ || _ || _ || _ || _) eqn:E.
  - intros (_ & _ & _ & H). rewrite !orb_true_iff, !Z.eqb_eq, Z.leb_le in E. intuition lia.
  - bool_to_prop. intuition lia.
Qed.

(** C36: The boot contract check never panics and accepts a boot description exactly when: no memory
    region is empty or overflows 64 bits, the regions are pairwise disjoint and one is usable; there is
    an Init service, every seed names a declared service and every capability a service requires is
    seeded to it; and the install manifest is for this target, its root and block services are declared,
    and in its disk layout the root metadata has sectors, the marker differs from the other three
    sectors, current and previous differ, and previous is below the root metadata. The plan it returns
    sums the usable bytes without overflow. *)
Theorem plan_boot_accepts_exactly_the_contract info : Forall region_fits (memory info) ->
  plan_boot info <> Panic /\
  (forall plan, plan_boot info = Ret plan <->
     contract_ok info /\
     plan = mkPlan (target info) (sumz (usable_lens (memory info))) (init_services info)
              (capability_seeds info) (install_manifest info)) /\
  (contract_ok info -> fits 64 (sumz (usable_lens (memory info)))).
Proof.
  intros Hf. unfold plan_boot, contract_ok.
  pose proof (validate_services_spec (init_services info) (capability_seeds info)) as Hs.
  pose proof (validate_install_spec info) as Hi.
  destruct (validate_memory_map_spec (memory info) Hf) as [[Hm ->]|[Hm [e ->]]];
    cbn [of_result mbind outcome_bind]; [|by intuition congruence].
  destruct (usable_total_fits (memory info) Hf Hm) as [Hsum Hfits].
  destruct (validate_services _ _); cbn [of_result mbind outcome_bind]; [|by intuition congruence].
  destruct (validate_install_manifest _ _ _); cbn [of_result mbind outcome_bind]; [|by intuition congruence].
  rewrite Hsum. cbn [mbind outcome_bind]. intuition congruence.
Qed.

Definition ram : list MemoryRegion :=
  [mkRegion 0x80200000 0x7e00000 Usable; mkRegion 0x80000000 0x200000 Kernel].

Lemma plan_boot_accepts_exactly_the_contract_witness :
  plan_boot (qemu_minimal_riscv ram) <> Panic /\ contract_ok (qemu_minimal_riscv ram).
Proof.
  assert (Hf : Forall region_fits (memory (qemu_minimal_riscv ram))) by (repeat constructor; done).
  destruct (plan_boot_accepts_exactly_the_contract (qemu_minimal_riscv ram) Hf) as (Hp & Hiff & _).
  split; [done|]. eapply Hiff. vm_compute. reflexivity.
Defined.

(** The disk layout test accepts a manifest whose current Cairn sector lies inside the root metadata
    range. *)
Theorem layout_test_misses_overlap :
  exists info, plan_boot info <> Panic /\ is_Some (match plan_boot info with Ret p => Some p | _ => None end) /\
    let l := layout (install_manifest info) in
    root_metadata_sector l <= cairn_current_sector l < root_metadata_sector l + root_metadata_sectors l.
Proof.
  exists (mkInfo QemuVirtioX86_64 ram (init_services (qemu_minimal ram)) (capability_seeds (qemu_minimal ram))
    (mkInstall 0 QemuVirtioX86_64 (lit "cairn") (lit "virtio-block") (mkLayout 0 5 3 4 4))).
  vm_compute. split; [done|]. split; [by eexists|done].
Qed.
