(* ===== verification/Service.v ===== *)
(** * The service registry (dezh-boot/src/service.rs)

    The table of declared services, the life of the block daemon in it, and how
    it is reconciled with the task table of the scheduler.  The state is the
    registry beside the scheduler's [Sched]; a launch takes the address space
    that was built, and what the scheduler does between an entry and its return
    to the console is an argument, so the theorems hold for every run. *)

From Stdlib Require Import ZArith Lia String.
From stdpp Require Import base option numbers list strings.
From S2P Require Import Prelude Text Mcap Sched SchedSafe SchedHarts Boot.

Definition TASK_DEVICE_VIRTIO_BLK : Z := 8.
Definition TASK_BLOCK_READ : Z := 16.
Definition TASK_BLOCK_WRITE : Z := 32.
Definition MAX_SERVICES : nat := 8.
Definition VIRTIO_SERVICE_TASK : nat := 0.
Definition BLK_OP_DAEMON : Z := 8.

Inductive ServiceState := SUnused | Declared | Starting | Stopping | Running | Restarting | Faulted | Stopped.
#[export] Instance ServiceState_eq : EqDecision ServiceState.
Proof. solve_decision. Defined.

(** [e_task] is [None] for the source's [usize::MAX]. *)
Record ServiceEntry := mkEntry {
  e_name : str; e_kind : ServiceKind; e_state : ServiceState; e_task : option nat; e_caps : Z; e_grants : Z; e_fault : str;
  e_restarts : Z; e_last_exit : Z; e_started : Z }.
Definition EMPTY_SERVICE : ServiceEntry := mkEntry [] Init SUnused None 0 0 [] 0 0 0.

Abbreviation Registry := (list ServiceEntry).

(** ** Building the table from the boot plan *)

Definition seed_caps (c : KernelCapability) : Z :=
  match c with
  | SendIpc => TASK_IPC
  | OpenVirtioDevice => TASK_DEVICE_VIRTIO_BLK .| TASK_BLOCK_READ .| TASK_BLOCK_WRITE
  | OpenCairnRoot => TASK_BLOCK_READ .| TASK_BLOCK_WRITE
  | _ => 0
  end.
Definition task_caps_for (service : str) (plan : KernelPlan) : Z :=
  foldl (fun caps seed => if str_eqb (seed_service seed) service then caps .| seed_caps (seed_cap seed) else caps) TASK_PRINT (plan_seeds plan).
Definition grants_for (k : ServiceKind) : Z := match k with VirtioBlock => 3 | SvcCairn => 1 | _ => 0 end.

Definition declare (plan : KernelPlan) (s : ServiceSpec) : ServiceEntry :=
  mkEntry (svc_name s) (svc_kind s) Declared None (task_caps_for (svc_name s) plan) (grants_for (svc_kind s)) [] 0 0 0.
Definition build_service_registry (plan : KernelPlan) : Registry := declare plan <$> take MAX_SERVICES (services plan).

Fixpoint service_index (name : str) (r : Registry) : option nat :=
  match r with [] => None | e :: r => if str_eqb (e_name e) name then Some 0%nat else S <$> service_index name r end.
Definition entry (r : Registry) (i : nat) : ServiceEntry := default EMPTY_SERVICE (r !! i).

Definition set_status (st : ServiceState) (fault : str) (e : ServiceEntry) : ServiceEntry :=
  mkEntry (e_name e) (e_kind e) st (e_task e) (e_caps e) (e_grants e) fault (e_restarts e) (e_last_exit e) (e_started e).
Definition set_last_exit (v : Z) (e : ServiceEntry) : ServiceEntry :=
  mkEntry (e_name e) (e_kind e) (e_state e) (e_task e) (e_caps e) (e_grants e) (e_fault e) (e_restarts e) v (e_started e).
Definition set_run (t : option nat) (restarts started : Z) (e : ServiceEntry) : ServiceEntry :=
  mkEntry (e_name e) (e_kind e) (e_state e) t (e_caps e) (e_grants e) (e_fault e) restarts (e_last_exit e) started.

(** ** The block daemon *)

Record World := mkWorld { reg_of : Registry; sched_of : Sched }.
Definition upd_entry (i : nat) (f : ServiceEntry -> ServiceEntry) (w : World) : World := mkWorld (alter f i (reg_of w)) (sched_of w).
Definition with_sched (f : Sched -> Sched) (w : World) : World := mkWorld (reg_of w) (f (sched_of w)).
Definition virtio_block : str := lit "virtio-block".

Definition refresh_virtio_service_state (w : World) : World :=
  match service_index virtio_block (reg_of w) with
  | None => w
  | Some i =>
    match e_task (entry (reg_of w) i) with
    | None => w
    | Some t =>
      let s := sched_of w in
      if task_is_live t s then upd_entry i (set_status Running []) w
      else if bool_decide (t_state (task s t) = Done) then
        let w := if t_exit (task s t) =? 0
                 then upd_entry i (set_status Stopped (lit "manual stop")) w
                 else upd_entry i (set_status Faulted (lit "driver exited or faulted")) w in
        with_sched (upd_task t reclaim_row) (upd_entry i (set_last_exit (t_exit (task s t))) w)
      else w
    end
  end.

Section Launch.
(** The address space built for the driver, its DMA window, and the run from an
    entry until the scheduler returns to the console. *)
Context (build : option Build) (dma_pa : Z) (BOOT_HART : nat) (run : Sched -> Sched).

Definition daemon_spec (caps : Z) : Spec := mkSpec caps PERS_NATIVE [BLK_OP_DAEMON; dma_pa; 0; 0].

Definition ensure_virtio_block_service (w : World) : option nat * World :=
  match service_index virtio_block (reg_of w) with
  | None => (None, w)
  | Some idx =>
    let e := entry (reg_of w) idx in
    let up := match e_task e with Some t => bool_decide (e_state e = Running) && task_is_live t (sched_of w) | None => false end in
    if up then (e_task e, w)
    else if bool_decide (e_state e = Stopped) || bool_decide (e_state e = Faulted) then (None, w)
    else
      let w1 := upd_entry idx (fun e => set_run (Some VIRTIO_SERVICE_TASK) (e_restarts e) (ticks (sched_of w)) (set_status Starting [] e)) w in
      let w2 := with_sched (fun s => spawn_place VIRTIO_SERVICE_TASK (daemon_spec (e_caps e)) build KDaemon (spawn_reclaim VIRTIO_SERVICE_TASK s)) w1 in
      match build with
      | None => (None, upd_entry idx (set_status Faulted (lit "driver launch failed: out of frames")) w2)
      | Some _ =>
        let w3 := refresh_virtio_service_state (with_sched (fun s => run (run_scheduler_from BOOT_HART VIRTIO_SERVICE_TASK s)) w2) in
        (if bool_decide (e_state (entry (reg_of w3) idx) = Running) then e_task (entry (reg_of w3) idx) else None, w3)
      end
  end.

Definition virtio_service_is_running (w : World) : bool * World :=
  let w := refresh_virtio_service_state w in
  (match service_index virtio_block (reg_of w) with
   | Some i => bool_decide (e_state (entry (reg_of w) i) = Running) | None => false end, w).

(** [client] is the run of the foreground process that carries the request. *)
Definition svc_stop_virtio (client : Sched -> Sched) (w : World) : World :=
  let w := refresh_virtio_service_state w in
  match service_index virtio_block (reg_of w) with
  | None => w
  | Some idx =>
    if negb (bool_decide (e_state (entry (reg_of w) idx) = Running)) then w
    else refresh_virtio_service_state (with_sched client (upd_entry idx (set_status Stopping (lit "manual stop requested")) w))
  end.

Definition svc_restart_virtio (w : World) : World :=
  match service_index virtio_block (reg_of w) with
  | None => w
  | Some idx =>
    let w := refresh_virtio_service_state w in
    let e := entry (reg_of w) idx in
    if bool_decide (e_state e = Running) && bool_decide (e_task e <> None) then w
    else
      let w := upd_entry idx (fun e => set_run None (e_restarts e + 1) (e_started e) (set_status Restarting [] e)) w in
      refresh_virtio_service_state (ensure_virtio_block_service w).2
  end.

(** The request goes through [run_registered_virtio_client_status], which looks
    the service up again. *)
Definition svc_fault_demo_virtio (client : Sched -> Sched) (w : World) : World :=
  let w := refresh_virtio_service_state w in
  match service_index virtio_block (reg_of w) with
  | None => w
  | Some idx =>
    if negb (bool_decide (e_state (entry (reg_of w) idx) = Running)) then w
    else match ensure_virtio_block_service w with
         | (None, w) => refresh_virtio_service_state w
         | (Some _, w) => refresh_virtio_service_state (refresh_virtio_service_state (with_sched client w))
         end
  end.
End Launch.

Definition service_for_task (t : nat) (r : Registry) : str :=
  match find (fun e => bool_decide (e_task e = Some t)) r with Some e => e_name e | None => lit "-" end.
Definition running_service_count (r : Registry) : nat := length (filter (fun e => e_state e = Running) r).

(** ** Theorems *)

Lemma task_caps_fold seeds name acc b :
  Z.testbit (foldl (fun caps seed => if str_eqb (seed_service seed) name then caps .| seed_caps (seed_cap seed) else caps) acc seeds) b = true <->
  Z.testbit acc b = true \/ exists seed, seed ∈ seeds /\ seed_service seed = name /\ Z.testbit (seed_caps (seed_cap seed)) b = true.
Proof.
  revert acc. induction seeds as [|x seeds IH]; intros acc; cbn [foldl].
  - split; [auto|]. intros [H|(s & H & _)]; [exact H|]. apply not_elem_of_nil in H. destruct H.
  - rewrite IH. destruct (str_eqb (seed_service x) name) eqn:E.
    + rewrite Z.lor_spec, orb_true_iff. apply str_eqb_eq in E. setoid_rewrite elem_of_cons. split.
      * intros [[H|H]|(s & H & H')]; [auto|right; exists x; auto|right; exists s; auto].
      * intros [H|(s & [-> |H] & H1 & H2)]; [auto|auto|right; exists s; auto].
    + setoid_rewrite elem_of_cons. split.
      * intros [H|(s & H & H')]; [auto|right; exists s; auto].
      * intros [H|(s & [-> |H] & H1 & H2)]; [auto| |right; exists s; auto]. rewrite (proj2 (str_eqb_eq _ _) H1) in E. discriminate.
Qed.

(** The registry lists the first eight services of the boot plan as Declared, and a service's capability
    set has a bit exactly when it is PRINT or a seed of that very service calls for it. *)
Theorem registry_declares_exactly_the_seeded_authority (plan : KernelPlan) (i : nat) (e : ServiceEntry) :
  build_service_registry plan !! i = Some e ->
  (i < MAX_SERVICES)%nat /\ e_state e = Declared /\ e_task e = None /\
  (exists s, services plan !! i = Some s /\ e_name e = svc_name s /\ e_kind e = svc_kind s) /\
  forall b, Z.testbit (e_caps e) b = true <->
    b = 0 \/ exists seed, seed ∈ plan_seeds plan /\ seed_service seed = e_name e /\ Z.testbit (seed_caps (seed_cap seed)) b = true.
Proof.
  unfold build_service_registry. rewrite list_lookup_fmap, fmap_Some. intros (s & Hs & ->).
  apply lookup_take_Some in Hs as [Hs Hi]. repeat split; [exact Hi|eauto| |]; cbn [declare e_caps e_name]; unfold task_caps_for; rewrite task_caps_fold.
  - intros [H|H]; [left|auto]. destruct (Z.eq_dec b 0) as [|N]; [assumption|]. exfalso. unfold TASK_PRINT in H.
    destruct b as [|p|p]; [congruence| |]; destruct p; cbn in H; congruence.
  - intros [-> |H]; [left; reflexivity|auto].
Qed.

Lemma service_index_lookup name r i : service_index name r = Some i -> exists e, r !! i = Some e /\ e_name e = name.
Proof.
  revert i. induction r as [|e r IH]; intros i; cbn; [discriminate|]. destruct (str_eqb (e_name e) name) eqn:E.
  - intros [= <-]. exists e. split; [reflexivity|]. apply str_eqb_eq, E.
  - rewrite fmap_Some. intros (j & Hj & ->). apply IH, Hj.
Qed.

Lemma entry_upd i f w : is_Some (reg_of w !! i) -> entry (reg_of (upd_entry i f w)) i = f (entry (reg_of w) i).
Proof. intros [e He]. unfold entry, upd_entry. cbn [reg_of]. rewrite list_lookup_alter_eq, He. reflexivity. Qed.

Lemma upd_entry_some i f w : is_Some (reg_of w !! i) -> is_Some (reg_of (upd_entry i f w) !! i).
Proof. intros [e He]. unfold upd_entry. cbn [reg_of]. rewrite list_lookup_alter_eq, He. eauto. Qed.

Lemma service_index_alter name i f r : (forall e, e_name (f e) = e_name e) -> service_index name (alter f i r) = service_index name r.
Proof.
  intros Hf. revert i. induction r as [|e r IH]; intros i; [reflexivity|].
  destruct i as [|i]; cbn; [rewrite Hf; reflexivity|]. destruct (str_eqb (e_name e) name); [reflexivity|].
  f_equal. exact (IH i).
Qed.

Lemma service_index_upd i f w : (forall e, e_name (f e) = e_name e) ->
  service_index virtio_block (reg_of (upd_entry i f w)) = service_index virtio_block (reg_of w).
Proof. apply service_index_alter. Qed.

(** Reconciling the block service with the task table reports the task as it is and keeps its declared authority. *)
Theorem refresh_reports_the_task_table (w : World) (i t : nat) :
  service_index virtio_block (reg_of w) = Some i -> e_task (entry (reg_of w) i) = Some t -> (t < length (tasks (sched_of w)))%nat ->
  let w' := refresh_virtio_service_state w in
  let old := task (sched_of w) t in
  let e := entry (reg_of w') i in
  e_task e = Some t /\ e_caps e = e_caps (entry (reg_of w) i) /\
  match t_state old with
  | Ready | Blocked => e_state e = Running /\ sched_of w' = sched_of w
  | Done => e_state e = (if t_exit old =? 0 then Stopped else Faulted) /\ e_last_exit e = t_exit old /\
      (t_owned old <> 0 -> t_caps (task (sched_of w') t) = 0 /\ t_owned (task (sched_of w') t) = 0) /\ t_satp (task (sched_of w') t) = 0
  | Unused => w' = w
  end.
Proof.
  intros Hi Ht Hl. cbv zeta. unfold refresh_virtio_service_state. rewrite Hi, Ht. unfold task_is_live.
  assert (Hs : is_Some (reg_of w !! i)) by (destruct (service_index_lookup _ _ _ Hi) as (e & He & _); eauto).
  destruct (t_state (task (sched_of w) t)) eqn:E; cbn [bool_decide decide decide_rel TaskState_eq orb].
  - rewrite ?bool_decide_eq_false_2 by discriminate. cbn [orb]. auto.
  - rewrite (bool_decide_eq_true_2 (Ready = Ready)) by reflexivity. rewrite orb_true_r. rewrite entry_upd by exact Hs. auto.
  - rewrite (bool_decide_eq_true_2 (Blocked = Blocked)) by reflexivity. cbn [orb]. rewrite entry_upd by exact Hs. auto.
  - rewrite !(bool_decide_eq_false_2 (Done = _)) by discriminate. rewrite bool_decide_eq_true_2 by reflexivity. cbn [orb].
    assert (G : forall st f, let w1 := with_sched (upd_task t reclaim_row) (upd_entry i (set_last_exit (t_exit (task (sched_of w) t))) (upd_entry i (set_status st f) w)) in
      entry (reg_of w1) i = set_last_exit (t_exit (task (sched_of w) t)) (set_status st f (entry (reg_of w) i)) /\
      task (sched_of w1) t = reclaim_row (task (sched_of w) t)).
    { intros st f. split; [|exact (task_upd t reclaim_row (sched_of w) Hl)].
      change (entry (reg_of (upd_entry i (set_last_exit (t_exit (task (sched_of w) t))) (upd_entry i (set_status st f) w))) i
              = set_last_exit (t_exit (task (sched_of w) t)) (set_status st f (entry (reg_of w) i))).
      rewrite entry_upd by (apply upd_entry_some, Hs). rewrite entry_upd by exact Hs. reflexivity. }
    cbv zeta in G. destruct (t_exit (task (sched_of w) t) =? 0); destruct (G Stopped (lit "manual stop")) as [G1 G2];
      destruct (G Faulted (lit "driver exited or faulted")) as [G3 G4]; rewrite ?G1, ?G2, ?G3, ?G4;
      repeat split; try exact Ht; try (match goal with H : t_owned _ <> 0 |- _ => unfold reclaim_row; apply Z.eqb_neq in H; rewrite H; reflexivity end);
      try (unfold reclaim_row; destruct (_ =? 0); reflexivity).
Qed.

Lemma refresh_cases w i t : service_index virtio_block (reg_of w) = Some i -> e_task (entry (reg_of w) i) = Some t ->
  let w' := refresh_virtio_service_state w in
  (task_is_live t (sched_of w) = true /\ w' = upd_entry i (set_status Running []) w) \/ w' = w \/
  exists st f v, st <> Running /\ w' = with_sched (upd_task t reclaim_row) (upd_entry i (set_last_exit v) (upd_entry i (set_status st f) w)).
Proof.
  intros Hi Ht. cbv zeta. unfold refresh_virtio_service_state. rewrite Hi, Ht. destruct (task_is_live t (sched_of w)); [auto|].
  destruct (bool_decide _); [|auto]. right. right. destruct (_ =? 0); do 3 eexists; (split; [|reflexivity]); discriminate.
Qed.

(** The task table [ensure_virtio_block_service] enters. *)
Definition launched (dma_pa : Z) (caps : Z) (b : Build) (s : Sched) : Sched :=
  spawn_place VIRTIO_SERVICE_TASK (daemon_spec dma_pa caps) (Some b) KDaemon (spawn_reclaim VIRTIO_SERVICE_TASK s).

Lemma launched_row dma_pa caps b s : length (tasks s) = MAX_TASKS -> let t := task (launched dma_pa caps b s) VIRTIO_SERVICE_TASK in
  t_state t = Ready /\ t_caps t = caps /\ t_kind t = KDaemon /\ t_satp t = b_satp b /\ queue (t_mbox t) = [].
Proof.
  intros Hl. cbv zeta. unfold launched, spawn_place. rewrite task_upd; [repeat split|]. unfold spawn_reclaim.
  rewrite (sc_length _ _ (same_upd _ _ s)), Hl. unfold VIRTIO_SERVICE_TASK, MAX_TASKS. lia.
Qed.

(** Whatever the scheduler runs: a stopped or faulted block service is not started; a task number is
    answered only when that task is alive and the entry Running; and a started driver enters with a
    fresh row in the service slot holding exactly the declared capabilities, an empty mailbox and the
    new address space, every other row untouched. *)
Theorem driver_runs_only_with_its_declared_authority (build : option Build) (dma_pa : Z) (B : nat) (run : Sched -> Sched) (w : World) (i : nat) :
  service_index virtio_block (reg_of w) = Some i -> length (tasks (sched_of w)) = MAX_TASKS ->
  let e := entry (reg_of w) i in
  let '(r, w') := ensure_virtio_block_service build dma_pa B run w in
  (e_state e = Stopped \/ e_state e = Faulted -> r = None /\ w' = w) /\
  (forall t, r = Some t -> task_is_live t (sched_of w') = true /\ e_state (entry (reg_of w') i) = Running /\
     (w' = w \/ exists b s0, build = Some b /\ t = VIRTIO_SERVICE_TASK /\ sched_of w' = run (enter B t s0) /\
        t_state (task s0 t) = Ready /\ t_caps (task s0 t) = e_caps e /\ t_kind (task s0 t) = KDaemon /\
        t_satp (task s0 t) = b_satp b /\ mail s0 t = [] /\ forall j, j <> t -> task s0 j = task (sched_of w) j)).
Proof.
  intros Hi Hlen. cbv zeta. unfold ensure_virtio_block_service. rewrite Hi.
  set (e := entry (reg_of w) i). set (up := match e_task e with Some _ => _ | None => _ end).
  assert (Hs : is_Some (reg_of w !! i)) by (destruct (service_index_lookup _ _ _ Hi) as (x & Hx & _); eauto).
  destruct up eqn:Eup.
  { subst up. destruct (e_task e) as [t|] eqn:Et; [|discriminate]. apply andb_true_iff in Eup as [Er El]. apply bool_decide_eq_true in Er.
    split; [intros [K|K]; congruence|]. intros t0 [= <-]. auto. }
  destruct (bool_decide (e_state e = Stopped)) eqn:E1; [split; [auto|discriminate]|].
  destruct (bool_decide (e_state e = Faulted)) eqn:E2; [split; [auto|discriminate]|]. cbn [orb].
  apply bool_decide_eq_false in E1, E2. clear Eup up.
  destruct build as [b|]; [|split; [intros [K|K]; congruence|discriminate]].
  set (w1 := upd_entry i _ w). set (w2 := with_sched _ (with_sched _ w1)).
  assert (I2 : service_index virtio_block (reg_of w2) = Some i) by (rewrite <- Hi; apply service_index_upd; reflexivity).
  assert (X : entry (reg_of w2) i = set_run (Some VIRTIO_SERVICE_TASK) (e_restarts e) (ticks (sched_of w)) (set_status Starting [] e)).
  { change (reg_of w2) with (reg_of w1). exact (entry_upd i _ w Hs). }
  assert (Sx : is_Some (reg_of w2 !! i)) by exact (upd_entry_some i _ w Hs).
  split; [intros [K|K]; congruence|]. intros t. destruct (bool_decide _) eqn:Er; [|discriminate]. apply bool_decide_eq_true in Er. intros Et.
  destruct (refresh_cases w2 i VIRTIO_SERVICE_TASK I2) as [[Hl Ew]|[Ew|(st & f & v & Hn & Ew)]]; [rewrite X; reflexivity| | |]; rewrite Ew in *.
  - assert (t = VIRTIO_SERVICE_TASK) as -> by (rewrite entry_upd, X in Et by exact Sx; cbn in Et; congruence).
    split; [exact Hl|]. split; [exact Er|]. right. exists b, (launched dma_pa (e_caps e) b (sched_of w)).
    destruct (launched_row dma_pa (e_caps e) b (sched_of w) Hlen) as (L1 & L2 & L3 & L4 & L5). repeat (split; [assumption || reflexivity|]).
    intros j Hj. unfold launched, spawn_place, spawn_reclaim. rewrite !task_upd_ne by (unfold VIRTIO_SERVICE_TASK in *; congruence). reflexivity.
  - rewrite X in Er. discriminate.
  - change (e_state (entry (reg_of (upd_entry i (set_last_exit v) (upd_entry i (set_status st f) w2))) i) = Running) in Er.
    rewrite entry_upd in Er by (apply upd_entry_some, Sx). rewrite entry_upd in Er by exact Sx. cbn in Er. congruence.
Qed.

(** ** A session

    The plan of the QEMU boot; the driver parks in a receive when it starts. *)

Definition demo_plan : KernelPlan :=
  mkPlan QemuVirtioRiscV64 0 (init_services (qemu_minimal [])) (capability_seeds (qemu_minimal [])) qemu_riscv_v0.
Definition demo_world : World := mkWorld (build_service_registry demo_plan) boot_sched.

(** A task makes one call on hart 0 and the scheduler goes on or returns. *)
Definition one_call (cur : nat) (regs : list Z) (s : Sched) : Sched :=
  let s := (utrap_handler 0 CEcall (fun _ => 0) (upd_task cur (save_regs regs) s)).2 in
  default s (dispatch 0 demo_satp 0 (set_place 0 InTrap s)).
Definition driver_parks : Sched -> Sched := one_call 0 (call SYS_RECV [(F_A1, 64)]).
Definition started : World := (ensure_virtio_block_service (Some (demo_build 0)) 0x80400000 0 driver_parks demo_world).2.

Lemma registry_declares_exactly_the_seeded_authority_witness :
  build_service_registry demo_plan !! 3%nat = Some (entry (build_service_registry demo_plan) 3) /\
  Z.testbit (e_caps (entry (build_service_registry demo_plan) 3)) 3 = true.
Proof.
  split; [reflexivity|].
  apply (registry_declares_exactly_the_seeded_authority demo_plan 3 (entry (build_service_registry demo_plan) 3)); [reflexivity|].
  right. exists (mkSeed (lit "virtio-block") OpenVirtioDevice). split; [|split; reflexivity].
  cbn. rewrite !elem_of_cons. auto 12.
Defined.

Lemma refresh_reports_the_task_table_witness : e_state (entry (reg_of (refresh_virtio_service_state started)) 3) = Running.
Proof.
  pose proof (refresh_reports_the_task_table started 3 0 ltac:(vm_compute; reflexivity) ltac:(vm_compute; reflexivity) ltac:(vm_compute; lia)) as H.
  cbv zeta in H. destruct H as (_ & _ & H). assert (E : t_state (task (sched_of started) 0) = Blocked) by (vm_compute; reflexivity).
  rewrite E in H. exact (proj1 H).
Defined.

Lemma driver_runs_only_with_its_declared_authority_witness : task_is_live 0 (sched_of started) = true.
Proof.
  pose proof (driver_runs_only_with_its_declared_authority (Some (demo_build 0)) 0x80400000 0 driver_parks demo_world 3
    ltac:(vm_compute; reflexivity) ltac:(vm_compute; reflexivity)) as H. cbv zeta in H. unfold started.
  destruct (ensure_virtio_block_service (Some (demo_build 0)) 0x80400000 0 driver_parks demo_world) as [r w'] eqn:E.
  assert (Er : r = Some 0%nat) by (change r with (r, w').1; rewrite <- E; vm_compute; reflexivity).
  exact (proj1 (proj2 H 0%nat Er)).
Defined.

(** Running a baked demo task wipes the block daemon out of its slot; the registry then takes the demo's
    exit for the daemon's, reports a manual stop, and refuses every block request until a restart. *)
Theorem a_demo_run_stops_the_block_service :
  let demo s := one_call 0 (call SYS_EXIT []) (run_tasks demo_satp 0 (fun i => 0x80800000) [(0x80200000, TASK_PRINT, PERS_NATIVE)] s) in
  let after := refresh_virtio_service_state (with_sched demo started) in
  e_state (entry (reg_of started) 3) = Running /\ t_kind (task (sched_of started) 0) = KDaemon /\
  e_state (entry (reg_of after) 3) = Stopped /\ e_fault (entry (reg_of after) 3) = lit "manual stop" /\
  (ensure_virtio_block_service (Some (demo_build 0)) 0x80400000 0 driver_parks after).1 = None.
Proof. cbv zeta. repeat split; vm_compute; reflexivity. Qed.
