(* ===== verification/Cairn.v ===== *)
(** * The Cairn v1 commit record (dezh-core/src/cairn.rs)

    [encode] and [decode] take accessors in the source; here they work on any
    [ByteStore], of which the daemon's DMA page is one. *)

From Stdlib Require Import ZArith Lia.
From stdpp Require Import base option numbers list.
From S2P Require Import Prelude.

Definition VALUE_OFF : Z := 64.
Definition CAIRN_MAGIC : list Z := [0x44; 0x5a; 0x43; 0x31].
Definition COMMIT_SLOTS : Z := 255.
Definition NONE : Z := 0xffffffff.

Definition REV_REVERSIBLE : Z := 0.
Definition REV_COMPENSATABLE : Z := 1.
Definition REV_IRREVERSIBLE : Z := 2.
Definition REV_UNKNOWN : Z := 3.

Definition STATUS_COMMITTED : Z := 0.
Definition STATUS_COMPENSATION : Z := 2.

Record CommitHeader := mkHeader {
  slot : Z; parent : Z; ns : Z; hash : Z; actor : Z; flags : Z; len : Z; intent : Z; derived : Z;
  rev_class : Z; status : Z; gen : Z }.

#[export] Instance CommitHeader_eq_dec : EqDecision CommitHeader.
Proof. solve_decision. Defined.

Definition OFF_SLOT : Z := 4.
Definition OFF_PARENT : Z := 8.
Definition OFF_NS : Z := 12.
Definition OFF_HASH : Z := 16.
Definition OFF_ACTOR : Z := 24.
Definition OFF_FLAGS : Z := 28.
Definition OFF_LEN : Z := 32.
Definition OFF_INTENT : Z := 36.
Definition OFF_DERIVED : Z := 40.
Definition OFF_REVCLASS : Z := 44.
Definition OFF_STATUS : Z := 45.
Definition OFF_GEN : Z := 46.

(** ** Byte stores *)

Class ByteStore (S : Type) := { rd : S -> Z -> Z; wr : S -> Z -> Z -> S }.
Class ByteStoreLaws (S : Type) `{ByteStore S} :=
  rd_wr s o b o' : rd (wr s o b) o' = if o =? o' then b else rd s o'.

(** A page as a function of the offset. *)
Definition Page : Type := Z -> Z.
#[export] Instance page_store : ByteStore Page :=
  { rd s o := s o; wr s o b := fun o' => if o =? o' then b else s o' }.
#[export] Instance page_store_laws : ByteStoreLaws Page.
Proof. intros s o b o'. done. Qed.

Section Codec.
Context {St : Type} `{HS : ByteStore St}.

(** [while i < 4 { write(off + i, (v >> (8 * i)) as u8) }] *)
Fixpoint put_bytes (s : St) (off v : Z) (i : Z) (n : nat) : St :=
  match n with
  | O => s
  | Datatypes.S n => put_bytes (wr s (off + i) (wrap 8 (Z.shiftr v (8 * i)))) off v (i + 1) n
  end.

Definition put_u32 (s : St) (off v : Z) : St := put_bytes s off v 0 4.

Fixpoint get_bytes (s : St) (off : Z) (acc i : Z) (n : nat) : Z :=
  match n with
  | O => acc
  | Datatypes.S n => get_bytes s off (acc .| Z.shiftl (rd s (off + i)) (8 * i)) (i + 1) n
  end.

Definition get_u32 (s : St) (off : Z) : Z := get_bytes s off 0 0 4.

Fixpoint put_list (s : St) (off : Z) (bs : list Z) : St :=
  match bs with [] => s | b :: bs => put_list (wr s off b) (off + 1) bs end.

Definition encode (h : CommitHeader) (s : St) : St :=
  let s := put_list s 0 CAIRN_MAGIC in
  let s := put_u32 s OFF_SLOT (slot h) in
  let s := put_u32 s OFF_PARENT (parent h) in
  let s := put_u32 s OFF_NS (ns h) in
  let s := put_u32 s OFF_HASH (wrap 32 (hash h)) in
  let s := put_u32 s (OFF_HASH + 4) (wrap 32 (Z.shiftr (hash h) 32)) in
  let s := put_u32 s OFF_ACTOR (actor h) in
  let s := put_u32 s OFF_FLAGS (flags h) in
  let s := put_u32 s OFF_LEN (len h) in
  let s := put_u32 s OFF_INTENT (intent h) in
  let s := put_u32 s OFF_DERIVED (derived h) in
  let s := wr s OFF_REVCLASS (rev_class h) in
  let s := wr s OFF_STATUS (status h) in
  let s := wr s OFF_GEN (wrap 8 (gen h)) in
  wr s (OFF_GEN + 1) (wrap 8 (Z.shiftr (gen h) 8)).

Fixpoint magic_at (s : St) (off : Z) (m : list Z) : bool :=
  match m with
  | [] => true
  | b :: m => if negb (rd s off =? b) then false else magic_at s (off + 1) m
  end.

Definition decode (s : St) : option CommitHeader :=
  if negb (magic_at s 0 CAIRN_MAGIC) then None else
  Some (mkHeader (get_u32 s OFF_SLOT) (get_u32 s OFF_PARENT) (get_u32 s OFF_NS)
    (get_u32 s OFF_HASH .| Z.shiftl (get_u32 s (OFF_HASH + 4)) 32)
    (get_u32 s OFF_ACTOR) (get_u32 s OFF_FLAGS) (get_u32 s OFF_LEN) (get_u32 s OFF_INTENT)
    (get_u32 s OFF_DERIVED) (rd s OFF_REVCLASS) (rd s OFF_STATUS)
    (rd s OFF_GEN .| Z.shiftl (rd s (OFF_GEN + 1)) 8)).

End Codec.

Definition slot_available (next : Z) : bool := next <? COMMIT_SLOTS.

Record header_ok (h : CommitHeader) : Prop := {
  h_slot : fits 32 (slot h); h_parent : fits 32 (parent h); h_ns : fits 32 (ns h); h_hash : fits 64 (hash h);
  h_actor : fits 32 (actor h); h_flags : fits 32 (flags h); h_len : fits 32 (len h);
  h_intent : fits 32 (intent h); h_derived : fits 32 (derived h); h_rev : fits 8 (rev_class h);
  h_status : fits 8 (status h); h_gen : fits 16 (gen h) }.

(** ** Reading back what was written *)

Section CodecLaws.
Context {St : Type} `{HL : ByteStoreLaws St}.
Implicit Types s : St.

Lemma get_u32_le s off : get_u32 s off = le_val (map (fun i => rd s (off + i)) [0; 1; 2; 3]).
Proof.
  unfold get_u32. cbn [get_bytes map le_val]. rewrite Z.shiftl_0_l, Z.lor_0_r.
  rewrite !Z.shiftl_lor, !Z.shiftl_shiftl by lia. rewrite Z.lor_0_l, Z.mul_0_r, Z.shiftl_0_r.
  rewrite <- !Z.lor_assoc. done.
Qed.

Lemma rd_put_u32 s off v o : rd (put_u32 s off v) o =
  if (off <=? o) && (o <? off + 4) then wrap 8 (Z.shiftr v (8 * (o - off))) else rd s o.
Proof.
  unfold put_u32. cbn [put_bytes]. rewrite !rd_wr.
  destruct (Z.leb_spec off o), (Z.ltb_spec o (off + 4)); cbn [andb];
    repeat match goal with |- context [?a =? o] => destruct (Z.eqb_spec a o) end;
    try lia; try done; do 2 f_equal; lia.
Qed.

Lemma rd_put_u32_in s off v i : 0 <= i < 4 ->
  rd (put_u32 s off v) (off + i) = wrap 8 (Z.shiftr v (8 * i)).
Proof.
  intros Hi. rewrite rd_put_u32. rewrite (proj2 (Z.leb_le off (off + i))), (proj2 (Z.ltb_lt (off + i) (off + 4))) by lia.
  cbn [andb]. by rewrite Z.add_simpl_l.
Qed.

Lemma le_bytes_4 v : map (fun i => wrap 8 (Z.shiftr v (8 * i))) [0; 1; 2; 3] = le_bytes 4 v.
Proof. cbn [map le_bytes]. rewrite !Z.shiftr_shiftr by lia. rewrite Z.shiftr_0_r. done. Qed.

Lemma get_put_u32 s off v : fits 32 v -> get_u32 (put_u32 s off v) off = v.
Proof.
  intros Hv. rewrite get_u32_le. transitivity (le_val (le_bytes 4 v)); [|by apply le_val_le_bytes].
  rewrite <- le_bytes_4. f_equal. cbn [map]. by rewrite !rd_put_u32_in by lia.
Qed.

Lemma get_put_u32_ne s off off' v : off + 4 <= off' \/ off' + 4 <= off ->
  get_u32 (put_u32 s off' v) off = get_u32 s off.
Proof.
  intros Hd. rewrite !get_u32_le. f_equal. cbn [map]. rewrite !rd_put_u32.
  repeat match goal with |- context [(off' <=? ?x) && (?x <? off' + 4)] =>
    replace ((off' <=? x) && (x <? off' + 4)) with false
      by (symmetry; destruct (Z.leb_spec off' x), (Z.ltb_spec x (off' + 4)); done || lia) end.
  done.
Qed.

Lemma get_wr_ne s off o b : o < off \/ off + 4 <= o -> get_u32 (wr s o b) off = get_u32 s off.
Proof.
  intros Hd. rewrite !get_u32_le. f_equal. cbn [map]. rewrite !rd_wr.
  by rewrite !(proj2 (Z.eqb_neq _ _)) by lia.
Qed.

Lemma rd_put_u32_ne s off v o : o < off \/ off + 4 <= o -> rd (put_u32 s off v) o = rd s o.
Proof.
  intros Hd. rewrite rd_put_u32. destruct (Z.leb_spec off o), (Z.ltb_spec o (off + 4)); done || lia.
Qed.

Lemma rd_put_list s off bs o : rd (put_list s off bs) o =
  if (off <=? o) then default (rd s o) (bs !! Z.to_nat (o - off)) else rd s o.
Proof.
  revert s off. induction bs as [|b bs IH]; intros s off; cbn [put_list].
  { by case_bool. }
  rewrite IH, rd_wr. destruct (Z.leb_spec (off + 1) o), (Z.leb_spec off o), (Z.eqb_spec off o); try lia; try done.
  - replace (Z.to_nat (o - off)) with (Datatypes.S (Z.to_nat (o - (off + 1)))) by lia. done.
  - subst. by rewrite Z.sub_diag.
Qed.

Lemma split_hash x : fits 64 x -> wrap 32 x .| Z.shiftl (wrap 32 (Z.shiftr x 32)) 32 = x.
Proof.
  intros Hx. apply Z.bits_inj'. intros i Hi. rewrite Z.lor_spec, Z.shiftl_spec, wrap_testbit by lia.
  destruct (Z.ltb_spec i 32).
  - by rewrite (Z.testbit_neg_r _ (i - 32)), orb_false_r by lia.
  - rewrite wrap_testbit, Z.shiftr_spec by lia. replace (i - 32 + 32) with i by lia. cbn [andb orb].
    destruct (Z.ltb_spec (i - 32) 32); [done|]. by rewrite (fits_testbit_high 64) by (done || lia).
Qed.

Lemma split_gen x : fits 16 x -> wrap 8 x .| Z.shiftl (wrap 8 (Z.shiftr x 8)) 8 = x.
Proof.
  intros Hx. rewrite <- (le_val_le_bytes 2 x Hx) at 3. cbn [le_bytes le_val].
  by rewrite Z.shiftl_0_l, Z.lor_0_r.
Qed.

End CodecLaws.

(** Peel the writes a read does not see. *)
Ltac off_lia :=
  unfold OFF_SLOT, OFF_PARENT, OFF_NS, OFF_HASH, OFF_ACTOR, OFF_FLAGS, OFF_LEN, OFF_INTENT, OFF_DERIVED,
    OFF_REVCLASS, OFF_STATUS, OFF_GEN in *; lia.
Ltac cairn_peel :=
  repeat (first [ rewrite get_wr_ne by off_lia | rewrite get_put_u32_ne by off_lia
                | rewrite rd_put_u32_ne by off_lia
                | rewrite get_put_u32 by (assumption || (apply wrap_fits; lia)) ]).

Section Roundtrip.
Context {St : Type} `{HL : ByteStoreLaws St}.
Implicit Types s : St.

Lemma encode_frame h s o : o < 0 \/ OFF_GEN + 2 <= o -> rd (encode h s) o = rd s o.
Proof.
  intros Ho. unfold encode. rewrite !rd_wr.
  rewrite (proj2 (Z.eqb_neq (OFF_GEN + 1) o)), (proj2 (Z.eqb_neq OFF_GEN o)), (proj2 (Z.eqb_neq OFF_STATUS o)),
    (proj2 (Z.eqb_neq OFF_REVCLASS o)) by off_lia.
  cairn_peel. rewrite rd_put_list. destruct (Z.leb_spec 0 o); [|done].
  rewrite lookup_ge_None_2; [done|]. cbn. off_lia.
Qed.

Lemma encode_magic h s : magic_at (encode h s) 0 CAIRN_MAGIC = true.
Proof.
  assert (Hm : forall o, 0 <= o < 4 -> rd (encode h s) o = default 0 (CAIRN_MAGIC !! Z.to_nat o)).
  { intros o Ho. unfold encode. rewrite !rd_wr.
    rewrite (proj2 (Z.eqb_neq (OFF_GEN + 1) o)), (proj2 (Z.eqb_neq OFF_GEN o)), (proj2 (Z.eqb_neq OFF_STATUS o)),
      (proj2 (Z.eqb_neq OFF_REVCLASS o)) by off_lia.
    cairn_peel. rewrite rd_put_list, (proj2 (Z.leb_le 0 o)), Z.sub_0_r by lia.
    destruct (lookup_lt_is_Some_2 CAIRN_MAGIC (Z.to_nat o)) as [b ->]; [cbn; lia|done]. }
  cbn [magic_at CAIRN_MAGIC]. rewrite !Hm by lia. done.
Qed.

Lemma decode_encode h s : header_ok h -> decode (encode h s) = Some h.
Proof.
  intros []. unfold decode. rewrite encode_magic. cbn [negb]. f_equal. unfold encode.
  cairn_peel.
  rewrite !rd_wr. unfold OFF_REVCLASS, OFF_STATUS, OFF_GEN. change (46 + 1) with 47. cbn [Z.eqb Pos.eqb].
  rewrite split_hash, split_gen by done. by destruct h.
Qed.

(** What decoding looks at. *)
Lemma decode_ext s1 s2 : (forall o, 0 <= o < OFF_GEN + 2 -> rd s1 o = rd s2 o) -> decode s1 = decode s2.
Proof.
  intros He. assert (Hg : forall off, 0 <= off <= OFF_DERIVED -> get_u32 s1 off = get_u32 s2 off).
  { intros off Ho. rewrite !get_u32_le. cbn [map]. by rewrite !He by off_lia. }
  unfold decode. cbn [magic_at CAIRN_MAGIC]. rewrite !Hg, !He by off_lia. done.
Qed.

Lemma decode_ok s h : (forall o, fits 8 (rd s o)) -> decode s = Some h -> header_ok h.
Proof.
  intros Hb. assert (Hg : forall off, fits 32 (get_u32 s off)).
  { intros off. rewrite get_u32_le. apply (le_val_fits (map _ [0; 1; 2; 3])). repeat constructor; apply Hb. }
  assert (Hsh : forall w x y, 0 <= w -> fits w x -> fits w y -> fits (w + w) (x .| Z.shiftl y w)).
  { intros w x y Hw Hx [Hy0 Hy1]. apply lor_fits; [lia|eapply fits_mono, Hx; lia|].
    rewrite Z.shiftl_mul_pow2 by lia. unfold fits. rewrite Z.pow_add_r by lia.
    assert (0 < 2 ^ w) by (apply Z.pow_pos_nonneg; lia). nia. }
  unfold decode. case_bool. intros [= <-]. split; cbn [slot parent ns hash actor flags len intent derived rev_class status gen];
    first [apply Hg | apply Hb | apply (Hsh 32); [done|apply Hg|apply Hg] | apply (Hsh 8); [done|apply Hb|apply Hb]].
Qed.

(** Encoding a commit header and decoding the record gives the header back, encoding touches nothing
    from the value offset on, and different headers never encode to the same record. *)
Theorem commit_record_roundtrip h s : header_ok h ->
  decode (encode h s) = Some h /\
  (forall o, VALUE_OFF <= o -> rd (encode h s) o = rd s o) /\
  (forall h', header_ok h' -> decode (encode h s) = decode (encode h' s) -> h = h').
Proof.
  intros Hh. split; [by apply decode_encode|]. split.
  - intros o Ho. apply encode_frame. right. unfold VALUE_OFF, OFF_GEN in *. lia.
  - intros h' Hh'. rewrite !decode_encode by done. congruence.
Qed.

End Roundtrip.

Definition sample_header : CommitHeader :=
  mkHeader 7 6 4 0xdeadbeefcafebabe 3 1 20 2 5 REV_COMPENSATABLE STATUS_COMMITTED 513.

Lemma sample_header_ok : header_ok sample_header.
Proof. split; done. Qed.

Lemma commit_record_roundtrip_witness :
  decode (encode sample_header ((fun _ => 0) : Page)) = Some sample_header.
Proof. apply (commit_record_roundtrip sample_header ((fun _ => 0) : Page) sample_header_ok). Defined.
