(* ===== verification/Ledger.v ===== *)
(** * The Cairn v1 store and the effect ledger (dezh-boot/virtio-blk/src/main.rs)

    The block daemon keeps a superblock (sector 1600) with one entry per
    namespace and up to 255 commit records (sectors 1601..1855).  [Led] is the
    daemon's state: the disk, the data window its commands go through and the
    input window clients fill.  [notes] stands for the console lines that carry
    ledger content.

    The device is a parameter: [dev n sector write old] says whether the n-th
    command fails, with its status byte and what it leaves behind (in the data
    window for a read, on the sector for a write).

    [LedM] computations may diverge ([None]): the inner loop of [sfar_rollback]
    has no guard in the source, so its bound is fuel here. *)

From Stdlib Require Import ZArith Lia String.
From stdpp Require Import base option strings numbers list.
From S2P Require Import Prelude Text Cairn.

Definition SECTOR_SIZE : Z := 512.
Definition CAIRN1_SUPER_SECTOR : Z := 1600.
Definition CAIRN1_COMMIT_FIRST_SECTOR : Z := 1601.
Definition CAIRN1_NS_MAX : Z := 8.
Definition CAIRN1_VALUE_MAX : Z := SECTOR_SIZE - VALUE_OFF.
Definition CAIRN1_NS_OFF_REVOKED : Z := 24.
Definition SAND_COMP_SEP : Z := 0x1f.
Definition TASK_CAIRN_NS_BASE : Z := 8.
Definition CAIRN1_NS_NAMES : list (list Z) :=
  [lit "note"; lit "lab"; lit "calc"; lit "vault"; lit "agent"].

Definition IPC_STATUS_OK : Z := 0.
Definition IPC_STATUS_DENIED : Z := 1.
Definition IPC_STATUS_UNAVAILABLE : Z := 2.
Definition IPC_STATUS_TIMEOUT : Z := 3.
Definition IPC_STATUS_BAD_REQUEST : Z := 4.
Definition IPC_STATUS_IO_FAILURE : Z := 5.
Definition IPC_STATUS_FAULTED : Z := 6.

Definition SUPER_MAGIC : list Z := lit "DZCAIRN1".

(** ** State *)

Inductive note :=
| NForecast (reversible compensatable irreversible unknown : Z)
| NEffect (ns slot : Z)
| NCompensated (ns slot comp_slot : Z) (action : list Z)
| NRefused (ns slot cls : Z)
| NRolledBack (retracted compensated refused_irrev refused_comp : Z)
| NDenied (ns : Z).

Record Led := mkLed {
  disk : Z -> Page; data : Page; input : Page; tick : nat; notes : list note }.

Definition LedM (A : Type) : Type := Led -> option (A * Led).

#[export] Instance LedM_ret : MRet LedM := fun A a s => Some (a, s).
#[export] Instance LedM_bind : MBind LedM := fun A B f m s =>
  match m s with Some (a, s) => f a s | None => None end.

Definition get_data : LedM Page := fun s => Some (data s, s).
Definition get_input : LedM Page := fun s => Some (input s, s).
Definition put_data (d : Page) : LedM unit := fun s => Some (tt, mkLed (disk s) d (input s) (tick s) (notes s)).
Definition say (n : note) : LedM unit := fun s =>
  Some (tt, mkLed (disk s) (data s) (input s) (tick s) (notes s ++ [n])).

Fixpoint for_each {A} (l : list Z) (f : Z -> A -> LedM A) (a : A) : LedM A :=
  match l with [] => mret a | x :: l => a ← f x a; for_each l f a end.

Definition all_ns : list Z := [0; 1; 2; 3; 4; 5; 6; 7].

(** ** The data window *)

Definition in_sector (o : Z) : bool := (0 <=? o) && (o <? SECTOR_SIZE).

Definition zero_page (d : Page) : Page := fun o => if in_sector o then 0 else d o.

(** [copy_nonoverlapping(src, dst, n)] between two windows. *)
Definition copy_window (src : Page) (soff : Z) (dst : Page) (doff n : Z) : Page := fun o =>
  if (doff <=? o) && (o <? doff + n) then src (soff + (o - doff)) else dst o.

Definition list_page (bs : list Z) : Page := fun o => default 0 (bs !! Z.to_nat o).

Definition set_data (bs : list Z) : LedM unit :=
  d ← get_data;
  put_data (copy_window (list_page bs) 0 (zero_page d) 0 (Z.min (zlen bs) (SECTOR_SIZE - 1))).

Definition zero_data : LedM unit := d ← get_data; put_data (zero_page d).

Definition copy_input (len : Z) : LedM unit :=
  d ← get_data; i ← get_input;
  put_data (copy_window i 0 (zero_page d) 0 (Z.min len SECTOR_SIZE)).

Definition data_starts_with (bs : list Z) : LedM bool := d ← get_data; mret (magic_at d 0 bs).
Definition d_read_u32 (off : Z) : LedM Z := d ← get_data; mret (get_u32 d off).
Definition d_read_u8 (off : Z) : LedM Z := d ← get_data; mret (d off).
Definition d_write_u32 (off v : Z) : LedM unit := d ← get_data; put_data (put_u32 d off v).
Definition d_write_u8 (off v : Z) : LedM unit := d ← get_data; put_data (wr d off v).
Definition get_u8 (d : Page) (off : Z) : Z := d off.
Definition get_u64 (d : Page) (off : Z) : Z := get_u32 d off .| Z.shiftl (get_u32 d (off + 4)) 32.
Definition d_write_u64 (off v : Z) : LedM unit :=
  d_write_u32 off (wrap 32 v) ;; d_write_u32 (off + 4) (wrap 32 (Z.shiftr v 32)).

(** FNV-1a over [len] bytes at [off]. *)
Fixpoint fnv_loop (pg : Page) (off : Z) (n : nat) (h : Z) : Z :=
  match n with
  | O => h
  | S n => fnv_loop pg (off + 1) n (wrap 64 (Z.lxor h (pg off) * 0x100000001b3))
  end.
Definition fnv64 (pg : Page) (off len : Z) : Z := fnv_loop pg off (Z.to_nat len) 0xcbf29ce484222325.

Definition cairn_ns_entry_off (ns : Z) : Z := 16 + ns * 32.

Section Daemon.
Variable dev : nat -> Z -> bool -> Page -> option (Z * Page).

(** ** Disk commands *)

Definition overlay (sector window : Page) : Page := fun o => if in_sector o then sector o else window o.

Definition rw (sector : Z) (write : bool) : LedM Z := fun s =>
  let t := S (tick s) in
  match dev (tick s) sector write (if write then disk s sector else data s) with
  | Some (st, pg) =>
    Some (st, if write
      then mkLed (fun x => if x =? sector then pg else disk s x) (data s) (input s) t (notes s)
      else mkLed (disk s) (overlay pg (data s)) (input s) t (notes s))
  | None =>
    Some (0, if write
      then mkLed (fun x => if x =? sector then data s else disk s x) (data s) (input s) t (notes s)
      else mkLed (disk s) (overlay (disk s sector) (data s)) (input s) t (notes s))
  end.

(** ** The superblock *)

Fixpoint write_name (e : Z) (name : list Z) (i : Z) (n : nat) : LedM unit :=
  match n, name with
  | S n, b :: name => d_write_u8 (e + i) b ;; write_name e name (i + 1) n
  | _, _ => mret tt
  end.

Definition format_entry (ns : Z) (_ : unit) : LedM unit :=
  let e := cairn_ns_entry_off ns in
  match CAIRN1_NS_NAMES !! Z.to_nat ns with Some name => write_name e name 0 16 | None => mret tt end ;;
  d_write_u32 (e + 16) NONE ;; d_write_u32 (e + 20) 0.

(** A fresh superblock in the data window. *)
Definition format_page : LedM unit :=
  zero_data ;;
  set_data SUPER_MAGIC ;;
  d_write_u32 8 0 ;;
  for_each all_ns format_entry tt.

Definition cairn_load_super : LedM bool :=
  st ← rw CAIRN1_SUPER_SECTOR false;
  if negb (st =? 0) then mret false else
  m ← data_starts_with SUPER_MAGIC;
  if (m : bool) then mret true else
  format_page ;;
  st ← rw CAIRN1_SUPER_SECTOR true;
  if negb (st =? 0) then mret false else
  st ← rw CAIRN1_SUPER_SECTOR false;
  mret (st =? 0).

Definition cairn_ns_revoked (ns : Z) : LedM bool :=
  ok ← cairn_load_super;
  if negb ok then mret false else
  v ← d_read_u32 (cairn_ns_entry_off ns + CAIRN1_NS_OFF_REVOKED);
  mret ((ns <? CAIRN1_NS_MAX) && negb (v =? 0)).

Definition cairn_ns_set_revoked (ns : Z) (revoked : bool) : LedM Z :=
  if CAIRN1_NS_MAX <=? ns then mret IPC_STATUS_BAD_REQUEST else
  ok ← cairn_load_super;
  if negb ok then mret IPC_STATUS_IO_FAILURE else
  d_write_u32 (cairn_ns_entry_off ns + CAIRN1_NS_OFF_REVOKED) (if revoked then 1 else 0) ;;
  st ← rw CAIRN1_SUPER_SECTOR true;
  mret (if negb (st =? 0) then IPC_STATUS_IO_FAILURE else IPC_STATUS_OK).

Definition cairn_ns_allowed (ns sender_caps : Z) : LedM bool :=
  if (ns <? CAIRN1_NS_MAX) && negb (sender_caps & Z.shiftl 1 (TASK_CAIRN_NS_BASE + ns) =? 0)
  then mret true
  else say (NDenied ns) ;; mret false.

(** ** Commits *)

Definition commit_sector (slot : Z) : Z := CAIRN1_COMMIT_FIRST_SECTOR + slot.

Definition cairn_commit (ns len from intent derived rev_class : Z) : LedM Z :=
  ok ← cairn_load_super;
  if negb ok then mret IPC_STATUS_IO_FAILURE else
  next ← d_read_u32 8;
  if COMMIT_SLOTS <=? next then mret IPC_STATUS_IO_FAILURE else
  let e := cairn_ns_entry_off ns in
  head ← d_read_u32 (e + 16);
  count ← d_read_u32 (e + 20);
  let len := Z.min len (CAIRN1_VALUE_MAX - 1) in
  i ← get_input;
  let hash := fnv64 i 0 len in
  zero_data ;;
  let generation := count + 1 in
  d ← get_data;
  let d := encode (mkHeader next head (wrap 32 ns) hash (wrap 32 from) 1 (wrap 32 len) intent derived rev_class
                     STATUS_COMMITTED (wrap 16 generation)) d in
  put_data (copy_window i 0 d VALUE_OFF len) ;;
  st ← rw (commit_sector next) true;
  if negb (st =? 0) then mret IPC_STATUS_IO_FAILURE else
  ok ← cairn_load_super;
  if negb ok then mret IPC_STATUS_IO_FAILURE else
  d_write_u32 8 (next + 1) ;;
  d_write_u32 (e + 16) next ;;
  d_write_u32 (e + 20) (count + 1) ;;
  st ← rw CAIRN1_SUPER_SECTOR true;
  if negb (st =? 0) then mret IPC_STATUS_IO_FAILURE else mret IPC_STATUS_OK.

(** Is the record in the data window unreadable? *)
Definition bad_record (st : Z) : LedM bool :=
  if negb (st =? 0) then mret true else m ← data_starts_with CAIRN_MAGIC; mret (negb m).

(** The display walk of [cairn_log] and [sand_log]: eight records at most. *)
Fixpoint show_chain (n : nat) (ns cur : Z) : LedM Z :=
  match n with
  | O => mret IPC_STATUS_OK
  | S n =>
    if cur =? NONE then mret IPC_STATUS_OK else
    st ← rw (commit_sector cur) false;
    bad ← bad_record st;
    if (bad : bool) then mret IPC_STATUS_IO_FAILURE else
    parent ← d_read_u32 8;
    say (NEffect ns cur) ;;
    show_chain n ns parent
  end.

Definition sand_log (ns : Z) : LedM Z :=
  ok ← cairn_load_super;
  if negb ok then mret IPC_STATUS_IO_FAILURE else
  cur ← d_read_u32 (cairn_ns_entry_off ns + 16);
  if cur =? NONE then mret IPC_STATUS_OK else show_chain 8 ns cur.

Definition cairn_log (ns : Z) : LedM Z :=
  ok ← cairn_load_super;
  if negb ok then mret IPC_STATUS_IO_FAILURE else
  cur ← d_read_u32 (cairn_ns_entry_off ns + 16);
  if cur =? NONE then mret IPC_STATUS_OK else show_chain 8 ns cur.

Definition cairn_load_head (ns : Z) : LedM (option Z) :=
  ok ← cairn_load_super;
  if negb ok then mret None else
  head ← d_read_u32 (cairn_ns_entry_off ns + 16);
  if head =? NONE then mret (Some NONE) else
  st ← rw (commit_sector head) false;
  bad ← bad_record st;
  if (bad : bool) then mret None else mret (Some head).

Definition sand_info (ns : Z) : LedM Z :=
  h ← cairn_load_head ns;
  match h with
  | None => mret IPC_STATUS_IO_FAILURE
  | Some head =>
    if head =? NONE then mret IPC_STATUS_UNAVAILABLE
    else say (NEffect ns head) ;; mret IPC_STATUS_OK
  end.

(** The value moves to the front of the window, byte by byte, and the rest of
    the sector is cleared. *)
Fixpoint move_front (n : nat) (i : Z) (d : Page) : Page :=
  match n with
  | O => d
  | S n => move_front n (i + 1) (wr d i (d (VALUE_OFF + i)))
  end.

Definition clear_from (i : Z) (d : Page) : Page := fun o =>
  if (i <=? o) && (o <? SECTOR_SIZE) then 0 else d o.

Definition cairn_get (ns : Z) : LedM Z :=
  h ← cairn_load_head ns;
  match h with
  | None => mret IPC_STATUS_IO_FAILURE
  | Some head =>
    if head =? NONE then mret IPC_STATUS_UNAVAILABLE else
    len ← d_read_u32 32;
    d ← get_data;
    put_data (clear_from len (move_front (Z.to_nat len) 0 d)) ;;
    mret IPC_STATUS_OK
  end.

Definition cairn_verify (ns : Z) : LedM Z :=
  h ← cairn_load_head ns;
  match h with
  | None => mret IPC_STATUS_IO_FAILURE
  | Some head =>
    if head =? NONE then mret IPC_STATUS_UNAVAILABLE else
    d ← get_data;
    let len := get_u32 d 32 in
    let stored := get_u64 d 16 in
    let actual := fnv64 d VALUE_OFF (Z.min len CAIRN1_VALUE_MAX) in
    mret (if stored =? actual then IPC_STATUS_OK else IPC_STATUS_IO_FAILURE)
  end.

Definition cairn_status : LedM Z :=
  ok ← cairn_load_super;
  mret (if negb ok then IPC_STATUS_IO_FAILURE else IPC_STATUS_OK).

(** ** Rollback of a namespace *)

Fixpoint walk_back (n : nat) (cur walked : Z) : LedM (option (Z * Z)) :=
  match n with
  | O => mret (Some (cur, walked))
  | S n =>
    if cur =? NONE then mret (Some (cur, walked)) else
    st ← rw (commit_sector cur) false;
    bad ← bad_record st;
    if (bad : bool) then mret None else
    parent ← d_read_u32 8;
    walk_back n parent (walked + 1)
  end.

Definition saturating_sub (a b : Z) : Z := Z.max 0 (a - b).

Definition cairn_rollback (ns steps : Z) : LedM Z :=
  ok ← cairn_load_super;
  if negb ok then mret IPC_STATUS_IO_FAILURE else
  let e := cairn_ns_entry_off ns in
  head ← d_read_u32 (e + 16);
  count ← d_read_u32 (e + 20);
  if head =? NONE then mret IPC_STATUS_UNAVAILABLE else
  w ← walk_back (Z.to_nat steps) head 0;
  match w with
  | None => mret IPC_STATUS_IO_FAILURE
  | Some (cur, walked) =>
    ok ← cairn_load_super;
    if negb ok then mret IPC_STATUS_IO_FAILURE else
    d_write_u32 (e + 16) cur ;;
    d_write_u32 (e + 20) (saturating_sub count (wrap 32 walked)) ;;
    st ← rw CAIRN1_SUPER_SECTOR true;
    mret (if negb (st =? 0) then IPC_STATUS_IO_FAILURE else IPC_STATUS_OK)
  end.

(** ** Missions *)

Fixpoint find_sep (d : Page) (i : Z) (n : nat) : option Z :=
  match n with
  | O => None
  | S n => if d (VALUE_OFF + i) =? SAND_COMP_SEP then Some i else find_sep d (i + 1) n
  end.

(** The bytes after the separator, up to a zero byte, [room] at most. *)
Fixpoint take_action (d : Page) (j : Z) (n room : nat) : list Z :=
  match n, room with
  | S n, S room =>
    let b := d (VALUE_OFF + j) in
    if b =? 0 then [] else b :: take_action d (j + 1) n room
  | _, _ => []
  end.

Definition extract_compensation (room : nat) (d : Page) : option (list Z) :=
  let vlen := Z.min (get_u32 d 32) CAIRN1_VALUE_MAX in
  sep ← find_sep d 0 (Z.to_nat vlen);
  match take_action d (sep + 1) (Z.to_nat (vlen - (sep + 1))) room with
  | [] => None
  | action => Some action
  end.

Definition append_commit_raw (slot parent ns : Z) (value : list Z) (actor intent derived status generation : Z)
  : LedM bool :=
  let len := Z.min (zlen value) (CAIRN1_VALUE_MAX - 1) in
  let hash := fnv64 (list_page value) 0 len in
  zero_data ;;
  set_data CAIRN_MAGIC ;;
  d_write_u32 4 slot ;;
  d_write_u32 8 parent ;;
  d_write_u32 12 (wrap 32 ns) ;;
  d_write_u64 16 hash ;;
  d_write_u32 24 actor ;;
  d_write_u32 28 1 ;;
  d_write_u32 32 (wrap 32 len) ;;
  d_write_u32 OFF_INTENT intent ;;
  d_write_u32 OFF_DERIVED derived ;;
  d_write_u8 OFF_REVCLASS REV_REVERSIBLE ;;
  d_write_u8 OFF_STATUS status ;;
  d_write_u8 OFF_GEN (wrap 8 generation) ;;
  d_write_u8 (OFF_GEN + 1) (wrap 8 (Z.shiftr generation 8)) ;;
  d ← get_data;
  put_data (copy_window (list_page value) 0 d VALUE_OFF len) ;;
  st ← rw (commit_sector slot) true;
  mret (st =? 0).

(** The guarded walk of a live chain, shared by the forecast, the provenance
    graph and the authority scan; [f] sees the slot and its record. *)
Fixpoint walk_live {A} (n : nat) (cur : Z) (f : Z -> Page -> A -> A) (acc : A) : LedM A :=
  match n with
  | O => mret acc
  | S n =>
    if cur =? NONE then mret acc else
    st ← rw (commit_sector cur) false;
    bad ← bad_record st;
    if (bad : bool) then mret acc else
    d ← get_data;
    walk_live n (get_u32 d 8) f (f cur d acc)
  end.

Definition walk_ns {A} (heads : list Z) (f : Z -> Z -> Page -> A -> A) (acc : A) : LedM A :=
  for_each all_ns (fun ns acc =>
    walk_live (Z.to_nat COMMIT_SLOTS) (default NONE (heads !! Z.to_nat ns)) (f ns) acc) acc.

(** [head[ns] = d_read_u32(..)] for every namespace. *)
Definition read_entries (off : Z) : LedM (list Z) :=
  d ← get_data; mret (map (fun ns => get_u32 d (cairn_ns_entry_off ns + off)) all_ns).

Definition sfar_touched_ns (ahd : Z) (heads : list Z) : LedM Z :=
  walk_ns heads (fun ns _ d touched =>
    if get_u32 d OFF_INTENT =? ahd then touched .| Z.shiftl 1 ns else touched) 0.

Definition missing_ns (touched sender_caps ns : Z) : bool :=
  negb (touched & Z.shiftl 1 ns =? 0) && (sender_caps & Z.shiftl 1 (TASK_CAIRN_NS_BASE + ns) =? 0).

Definition sfar_authorized (touched sender_caps : Z) : LedM bool :=
  for_each all_ns (fun ns ok =>
    if missing_ns touched sender_caps ns then say (NDenied ns) ;; mret false else mret ok) true.

Definition tally (cls : Z) (t : Z * Z * Z * Z) : Z * Z * Z * Z :=
  let '(r, c, i, u) := t in
  if cls =? REV_REVERSIBLE then (r + 1, c, i, u)
  else if cls =? REV_COMPENSATABLE then (r, c + 1, i, u)
  else if cls =? REV_IRREVERSIBLE then (r, c, i + 1, u)
  else (r, c, i, u + 1).

Definition sfar_plan (ahd sender_caps : Z) : LedM Z :=
  if ahd =? 0 then mret IPC_STATUS_BAD_REQUEST else
  ok ← cairn_load_super;
  if negb ok then mret IPC_STATUS_IO_FAILURE else
  heads ← read_entries 16;
  touched ← sfar_touched_ns ahd heads;
  auth ← (if touched =? 0 then mret true else sfar_authorized touched sender_caps);
  if negb auth then mret IPC_STATUS_DENIED else
  t ← walk_ns heads (fun ns _ d t =>
        if get_u32 d OFF_INTENT =? ahd then tally (get_u8 d OFF_REVCLASS) t else t) (0, 0, 0, 0);
  let '(r, c, i, u) := t in
  if r + c + i + u =? 0 then mret IPC_STATUS_UNAVAILABLE else
  say (NForecast r c i u) ;; mret IPC_STATUS_OK.

Definition tbar (ahd sender_caps : Z) : LedM Z :=
  if ahd =? 0 then mret IPC_STATUS_BAD_REQUEST else
  ok ← cairn_load_super;
  if negb ok then mret IPC_STATUS_IO_FAILURE else
  heads ← read_entries 16;
  touched ← sfar_touched_ns ahd heads;
  if touched =? 0 then mret IPC_STATUS_UNAVAILABLE else
  auth ← sfar_authorized touched sender_caps;
  if negb auth then mret IPC_STATUS_DENIED else
  effects ← walk_ns heads (fun ns cur d l =>
        if get_u32 d OFF_INTENT =? ahd then l ++ [NEffect ns cur] else l) [];
  fold_left (fun m n => m ;; say n) effects (mret tt) ;;
  mret IPC_STATUS_OK.

(** What the rollback of one namespace has staged. *)
Record Stage := mkStage {
  st_head : Z; st_undone : Z; st_appended : Z; st_free : Z;
  st_compensated : Z; st_irrev : Z; st_comp : Z; st_io : bool }.

Definition COMP_PREFIX : list Z := lit "[compensation] ".

(** [val[..vlen]]: the prefix and as much of the action as fits 128 bytes. *)
Definition comp_value (action : list Z) : list Z := take 128 (COMP_PREFIX ++ action).

(** The inner loop for one namespace; [count] is its commit count.  [st_io]
    says the handler returned [IPC_STATUS_IO_FAILURE] from within. *)
Fixpoint rollback_ns (n : nat) (ahd from ns count cur : Z) (g : Stage) : LedM Stage :=
  match n with
  | O => fun _ => None
  | S n =>
    if cur =? NONE then mret g else
    st ← rw (commit_sector cur) false;
    bad ← bad_record st;
    if (bad : bool) then mret g else
    d ← get_data;
    let parent := get_u32 d 8 in
    let intent := get_u32 d OFF_INTENT in
    let cls := get_u8 d OFF_REVCLASS in
    let derived := get_u32 d OFF_DERIVED in
    if negb (intent =? ahd) then mret g else
    if cls =? REV_COMPENSATABLE then
      match extract_compensation 96 d with
      | Some action =>
        if COMMIT_SLOTS <=? st_free g then
          mret (mkStage (st_head g) (st_undone g) (st_appended g) (st_free g) (st_compensated g)
                  (st_irrev g) (st_comp g + 1) false)
        else
          let slot := st_free g in
          let generation := saturating_sub count (st_undone g) + 1 in
          ok ← append_commit_raw slot cur ns (comp_value action) (wrap 32 from) ahd derived
                 STATUS_COMPENSATION generation;
          if negb ok then
            mret (mkStage (st_head g) (st_undone g) (st_appended g) (st_free g) (st_compensated g)
                    (st_irrev g) (st_comp g) true)
          else
            say (NCompensated ns cur slot action) ;;
            mret (mkStage slot (st_undone g) (st_appended g + 1) (slot + 1) (st_compensated g + 1)
                    (st_irrev g) (st_comp g) false)
      | None =>
        say (NRefused ns cur cls) ;;
        mret (mkStage (st_head g) (st_undone g) (st_appended g) (st_free g) (st_compensated g)
                (st_irrev g) (st_comp g + 1) false)
      end
    else if negb (cls =? REV_REVERSIBLE) then
      say (NRefused ns cur cls) ;;
      mret (mkStage (st_head g) (st_undone g) (st_appended g) (st_free g) (st_compensated g)
              (st_irrev g + 1) (st_comp g) false)
    else
      rollback_ns n ahd from ns count parent
        (mkStage parent (st_undone g + 1) (st_appended g) (st_free g) (st_compensated g)
           (st_irrev g) (st_comp g) (st_io g))
  end.

(** The outer loop: the arrays [new_head], [undone] and [appended] as a list of
    stages, newest namespace last; [None] is the early return on a failed
    append. *)
Fixpoint rollback_all (n : nat) (ahd from : Z) (nss : list Z) (heads counts : list Z) (free : Z)
    (tot : Z * Z * Z) : LedM (option (list Stage * Z * (Z * Z * Z))) :=
  match nss, heads, counts with
  | ns :: nss, head :: heads, count :: counts =>
    let '(comp, irrev, refc) := tot in
    g ← rollback_ns n ahd from ns count head (mkStage head 0 0 free comp irrev refc false);
    if st_io g then mret None else
    r ← rollback_all n ahd from nss heads counts (st_free g) (st_compensated g, st_irrev g, st_comp g);
    mret (match r with Some (gs, free, tot) => Some (g :: gs, free, tot) | None => None end)
  | _, _, _ => mret (Some ([], free, tot))
  end.

(** The staged ref moves, into the superblock. *)
Fixpoint write_stages (nss : list Z) (gs : list Stage) (counts : list Z) (total : Z) : LedM Z :=
  match nss, gs, counts with
  | ns :: nss, g :: gs, count :: counts =>
    if (0 <? st_undone g) || (0 <? st_appended g) then
      let e := cairn_ns_entry_off ns in
      d_write_u32 (e + 16) (st_head g) ;;
      d_write_u32 (e + 20) (saturating_sub count (st_undone g) + st_appended g) ;;
      write_stages nss gs counts (total + st_undone g)
    else write_stages nss gs counts total
  | _, _, _ => mret total
  end.

(** Enough turns of the inner loop for any chain of a sound ledger. *)
Definition ROLLBACK_FUEL : nat := Z.to_nat COMMIT_SLOTS + 2.

Definition sfar_rollback (ahd sender_caps from : Z) : LedM Z :=
  if ahd =? 0 then mret IPC_STATUS_BAD_REQUEST else
  ok ← cairn_load_super;
  if negb ok then mret IPC_STATUS_IO_FAILURE else
  heads ← read_entries 16;
  counts ← read_entries 20;
  next_free ← d_read_u32 8;
  touched ← sfar_touched_ns ahd heads;
  auth ← (if touched =? 0 then mret true else sfar_authorized touched sender_caps);
  if negb auth then mret IPC_STATUS_DENIED else
  r ← rollback_all ROLLBACK_FUEL ahd from all_ns heads counts next_free (0, 0, 0);
  match r with
  | None => mret IPC_STATUS_IO_FAILURE
  | Some (gs, free, (comp, irrev, refc)) =>
    ok ← cairn_load_super;
    if negb ok then mret IPC_STATUS_IO_FAILURE else
    total ← write_stages all_ns gs counts 0;
    d_write_u32 8 free ;;
    st ← rw CAIRN1_SUPER_SECTOR true;
    if negb (st =? 0) then mret IPC_STATUS_IO_FAILURE else
    say (NRolledBack total comp irrev refc) ;;
    mret IPC_STATUS_OK
  end.

(** ** Requests *)

Definition IPC_PROTO_V1 : Z := 0xd1.
Definition IPC_SERVICE_VIRTIO_BLOCK : Z := 1.

Definition typed_word (op request_id status arg : Z) : Z :=
  Z.shiftl IPC_PROTO_V1 56 .| Z.shiftl (IPC_SERVICE_VIRTIO_BLOCK & 0xff) 48 .| Z.shiftl (op & 0xff) 40
  .| Z.shiftl (request_id & 0xffff) 24 .| Z.shiftl (status & 0xff) 16 .| (arg & 0xffff).

Definition request_word (op arg : Z) : Z := typed_word op 1 IPC_STATUS_OK arg.
Definition request_proto (word : Z) : Z := Z.shiftr word 56 & 0xff.
Definition request_service (word : Z) : Z := Z.shiftr word 48 & 0xff.
Definition request_op (word : Z) : Z := Z.shiftr word 40 & 0xff.
Definition request_id (word : Z) : Z := Z.shiftr word 24 & 0xffff.
Definition request_arg (word : Z) : Z := word & 0xffff.

Definition response_status (word : Z) : Z :=
  if (request_proto word =? IPC_PROTO_V1) && (request_service word =? IPC_SERVICE_VIRTIO_BLOCK)
  then Z.shiftr word 16 & 0xff else IPC_STATUS_BAD_REQUEST.

Definition reply_word (req status : Z) : Z := typed_word (request_op req) (request_id req) status 0.

Definition status_from_io (st : Z) : Z := if st =? 0 then IPC_STATUS_OK else IPC_STATUS_IO_FAILURE.

Definition REQ_CAIRN_INIT : Z := 42.
Definition REQ_CAIRN_COMMIT : Z := 43.
Definition REQ_CAIRN_GET : Z := 44.
Definition REQ_CAIRN_LOG : Z := 45.
Definition REQ_CAIRN_ROLLBACK : Z := 46.
Definition REQ_CAIRN_VERIFY : Z := 47.
Definition REQ_CAIRN_STATUS : Z := 48.
Definition REQ_SAND_LOG : Z := 49.
Definition REQ_SAND_INFO : Z := 50.
Definition REQ_SFAR_PLAN : Z := 51.
Definition REQ_SFAR_ROLLBACK : Z := 52.
Definition REQ_TBAR : Z := 53.
Definition REQ_NS_REVOKE : Z := 54.
Definition REQ_NS_GRANT : Z := 55.

(** The fields of a request word the handlers read. *)
Definition cairn_ns (word : Z) : Z := Z.shiftr (request_arg word) 12 & 0xf.
Definition cairn_aux (word : Z) : Z := request_arg word & 0xfff.
Definition sand_intent (word : Z) : Z := request_id word.
Definition sand_derived (word : Z) : Z := (Z.shiftr word 16 & 0xff) & 0x1f.
Definition sand_revclass (word : Z) : Z := Z.shiftr (Z.shiftr word 16 & 0xff) 5 & 0x3.

(** The requests that check the persisted revocation first. *)
Definition revocable (op : Z) : bool :=
  (op =? REQ_CAIRN_COMMIT) || (op =? REQ_CAIRN_GET) || (op =? REQ_CAIRN_LOG) || (op =? REQ_CAIRN_ROLLBACK)
  || (op =? REQ_CAIRN_VERIFY) || (op =? REQ_SAND_LOG) || (op =? REQ_SAND_INFO).

Definition if_allowed (ns sender_caps : Z) (m : LedM Z) : LedM Z :=
  ok ← cairn_ns_allowed ns sender_caps;
  if (ok : bool) then m else mret IPC_STATUS_DENIED.

(** The daemon's Cairn requests: the status of the reply. *)
Definition handle_cairn (word from sender_caps : Z) : LedM Z :=
  let op := request_op word in
  let ns := cairn_ns word in
  revoked ← (if revocable op then cairn_ns_revoked ns else mret false);
  if (revoked : bool) then mret IPC_STATUS_DENIED
  else if op =? REQ_NS_REVOKE then if_allowed ns sender_caps (cairn_ns_set_revoked ns true)
  else if op =? REQ_NS_GRANT then if_allowed ns sender_caps (cairn_ns_set_revoked ns false)
  else if op =? REQ_CAIRN_INIT then
    ok ← cairn_load_super; mret (if (ok : bool) then IPC_STATUS_OK else IPC_STATUS_IO_FAILURE)
  else if op =? REQ_CAIRN_STATUS then cairn_status
  else if op =? REQ_CAIRN_COMMIT then
    if_allowed ns sender_caps
      (cairn_commit ns (cairn_aux word) from (sand_intent word) (sand_derived word) (sand_revclass word))
  else if op =? REQ_CAIRN_GET then if_allowed ns sender_caps (cairn_get ns)
  else if op =? REQ_CAIRN_LOG then if_allowed ns sender_caps (cairn_log ns)
  else if op =? REQ_CAIRN_ROLLBACK then
    if_allowed ns sender_caps (cairn_rollback ns (Z.max (cairn_aux word) 1))
  else if op =? REQ_CAIRN_VERIFY then if_allowed ns sender_caps (cairn_verify ns)
  else if op =? REQ_SAND_LOG then if_allowed ns sender_caps (sand_log ns)
  else if op =? REQ_SAND_INFO then if_allowed ns sender_caps (sand_info ns)
  else if op =? REQ_SFAR_PLAN then sfar_plan (sand_intent word) sender_caps
  else if op =? REQ_SFAR_ROLLBACK then sfar_rollback (sand_intent word) sender_caps from
  else if op =? REQ_TBAR then tbar (sand_intent word) sender_caps
  else mret IPC_STATUS_BAD_REQUEST.

End Daemon.
