(* ===== verification/Daemon.v ===== *)
(** * The block daemon's request loop (dezh-boot/virtio-blk/src/main.rs)

    Every request the daemon serves besides the Cairn v1 ones of [Ledger]: raw
    blocks, the v0 slot pair, the install marker, the package store windows
    and the four built-in app registries.  [daemon_step] is one turn of the
    loop. *)

From Stdlib Require Import ZArith Lia String.
From stdpp Require Import base option strings numbers list.
From S2P Require Import Prelude Text Cairn Ledger.

Definition REQ_PROBE : Z := 1.
Definition REQ_BWRITE : Z := 2.
Definition REQ_BREAD : Z := 3.
Definition REQ_PSET : Z := 4.
Definition REQ_PGET : Z := 5.
Definition REQ_PROLLBACK : Z := 6.
Definition REQ_STOP : Z := 7.
Definition REQ_INSTALL_CHECK : Z := 8.
Definition REQ_INSTALL_INIT : Z := 9.
Definition REQ_ROOT_STATUS : Z := 10.
Definition REQ_APP_AVAILABLE : Z := 11.
Definition REQ_APP_INSTALLED : Z := 12.
Definition REQ_APP_INFO : Z := 13.
Definition REQ_APP_INSTALL_NOTE : Z := 14.
Definition REQ_APP_REQUIRE_NOTE : Z := 15.
Definition REQ_APP_REMOVE_NOTE : Z := 16.
Definition REQ_NOTE_SET : Z := 17.
Definition REQ_NOTE_GET : Z := 18.
Definition REQ_APP_INSTALL_LAB : Z := 19.
Definition REQ_APP_REQUIRE_LAB : Z := 20.
Definition REQ_APP_REMOVE_LAB : Z := 21.
Definition REQ_LAB_SET : Z := 22.
Definition REQ_LAB_GET : Z := 23.
Definition REQ_FAULT_DEMO : Z := 24.
Definition REQ_APP_INSTALL_CALC : Z := 25.
Definition REQ_APP_REQUIRE_CALC : Z := 26.
Definition REQ_APP_REMOVE_CALC : Z := 27.
Definition REQ_CALC_SET : Z := 28.
Definition REQ_CALC_GET : Z := 29.
Definition REQ_APP_INSTALL_VAULT : Z := 30.
Definition REQ_APP_REQUIRE_VAULT : Z := 31.
Definition REQ_APP_REMOVE_VAULT : Z := 32.
Definition REQ_VAULT_SET : Z := 33.
Definition REQ_VAULT_GET : Z := 34.
Definition REQ_PKG_STORE_INIT : Z := 35.
Definition REQ_PKG_REGISTRY_READ : Z := 36.
Definition REQ_PKG_REGISTRY_WRITE : Z := 37.
Definition REQ_PKG_BLOB_READ : Z := 38.
Definition REQ_PKG_BLOB_WRITE : Z := 39.
Definition REQ_PKG_JOURNAL_READ : Z := 40.
Definition REQ_PKG_JOURNAL_WRITE : Z := 41.

Definition INSTALL_MARKER_SECTOR : Z := 0.
Definition CAIRN_CURRENT_SECTOR : Z := 2.
Definition CAIRN_PREVIOUS_SECTOR : Z := 3.
Definition ROOT_METADATA_SECTOR : Z := 4.
Definition APP_REGISTRY_SECTOR : Z := 5.
Definition APP_REGISTRY_PREVIOUS_SECTOR : Z := 6.
Definition LAB_REGISTRY_SECTOR : Z := 7.
Definition CALC_REGISTRY_SECTOR : Z := 9.
Definition VAULT_REGISTRY_SECTOR : Z := 10.
Definition NOTE_PRIVATE_ROOT_SECTOR : Z := 16.
Definition LAB_PRIVATE_ROOT_SECTOR : Z := 17.
Definition CALC_PRIVATE_ROOT_SECTOR : Z := 18.
Definition VAULT_PRIVATE_ROOT_SECTOR : Z := 19.
Definition PKG_STORE_MARKER_SECTOR : Z := 24.
Definition PKG_REGISTRY_FIRST_SECTOR : Z := 25.
Definition PKG_REGISTRY_LAST_SECTOR : Z := 31.
Definition PKG_JOURNAL_FIRST_SECTOR : Z := 32.
Definition PKG_JOURNAL_LAST_SECTOR : Z := 39.
Definition PKG_BLOB_FIRST_SECTOR : Z := 64.
Definition PKG_BLOB_LAST_SECTOR : Z := 1599.

(** ** Searching the data window *)

(** [hay_len]: up to the first zero byte. *)
Fixpoint text_len (d : Page) (i : Z) (n : nat) : Z :=
  match n with
  | O => i
  | S n => if d i =? 0 then i else text_len d (i + 1) n
  end.

Fixpoint contains_from (d : Page) (start hay_len : Z) (needle : list Z) (n : nat) : bool :=
  match n with
  | O => false
  | S n =>
    if negb (start + zlen needle <=? hay_len) then false
    else if magic_at d start needle then true
    else contains_from d (start + 1) hay_len needle n
  end.

Definition data_contains (needle : list Z) : LedM bool :=
  d ← get_data;
  let hay_len := text_len d 0 (Z.to_nat SECTOR_SIZE) in
  mret (if (zlen needle =? 0) || (hay_len <? zlen needle) then false
        else contains_from d 0 hay_len needle (S (Z.to_nat SECTOR_SIZE))).

(** ** The built-in apps *)

(** One built-in app: its registry sector and magic, its private sector and the
    registry text around the state. *)
Record App := mkApp {
  registry : Z; reg_magic : list Z; private_root : Z; text_before : list Z; text_after : list Z }.

Definition app_note : App := mkApp APP_REGISTRY_SECTOR (lit "DEZHAPPREG") NOTE_PRIVATE_ROOT_SECTOR
  (lit "DEZHAPPREG v0 app=note version=0.1.0 state=")
  (lit " caps=PRINT,IPC code_hash=note-elf-v0 manifest_hash=note-manifest-v0 private_root=16 previous_registry_sector=6").
Definition app_lab : App := mkApp LAB_REGISTRY_SECTOR (lit "DEZHLABREG") LAB_PRIVATE_ROOT_SECTOR
  (lit "DEZHLABREG v0 app=lab version=0.1.0 state=")
  (lit " caps=PRINT,IPC code_hash=lab-elf-v0 manifest_hash=lab-manifest-v0 private_root=17 previous_registry_sector=6").
Definition app_calc : App := mkApp CALC_REGISTRY_SECTOR (lit "DEZHCALCREG") CALC_PRIVATE_ROOT_SECTOR
  (lit "DEZHCALCREG v0 app=calc version=0.1.0 state=")
  (lit " caps=PRINT,IPC code_hash=calc-elf-v0 manifest_hash=calc-manifest-v0 private_root=18 previous_registry_sector=6").
Definition app_vault : App := mkApp VAULT_REGISTRY_SECTOR (lit "DEZHVAULTREG") VAULT_PRIVATE_ROOT_SECTOR
  (lit "DEZHVAULTREG v0 app=vault version=0.1.0 state=")
  (lit " caps=PRINT,IPC code_hash=vault-elf-v0 manifest_hash=vault-manifest-v0 private_root=19 previous_registry_sector=6").

Section Loop.
Variable dev : nat -> Z -> bool -> Page -> option (Z * Page).
Local Abbreviation rw := (rw dev).

(** [registry_is_active], [registry_is_removed] and their copies. *)
Definition registry_is (a : App) (state : list Z) : LedM bool :=
  st ← rw (registry a) false;
  if negb (st =? 0) then mret false else
  m ← data_starts_with (reg_magic a);
  if negb m then mret false else data_contains (lit "state=" ++ state).

Definition is_active (a : App) : LedM bool := registry_is a (lit "Active").
Definition is_removed (a : App) : LedM bool := registry_is a (lit "Removed").

Definition set_registry (a : App) (state : list Z) : LedM unit :=
  set_data (text_before a ++ state ++ text_after a).

Definition app_install (a : App) : LedM Z :=
  act ← is_active a;
  if (act : bool) then mret IPC_STATUS_OK else
  _ ← rw (registry a) false;
  _ ← rw APP_REGISTRY_PREVIOUS_SECTOR true;
  set_registry a (lit "Pending") ;;
  st0 ← rw (registry a) true;
  set_registry a (lit "Active") ;;
  st1 ← rw (registry a) true;
  ok ← is_active a;
  mret (if (st0 =? 0) && (st1 =? 0) && ok then IPC_STATUS_OK else IPC_STATUS_IO_FAILURE).

Definition app_require (a : App) : LedM Z :=
  act ← is_active a;
  if (act : bool) then mret IPC_STATUS_OK else
  rem ← is_removed a;
  mret (if (rem : bool) then IPC_STATUS_FAULTED else IPC_STATUS_UNAVAILABLE).

Definition app_remove (a : App) : LedM Z :=
  act ← is_active a;
  known ← (if (act : bool) then mret true else is_removed a);
  if negb known then mret IPC_STATUS_UNAVAILABLE else
  _ ← rw (registry a) false;
  _ ← rw APP_REGISTRY_PREVIOUS_SECTOR true;
  set_registry a (lit "Removed") ;;
  st ← rw (registry a) true;
  mret (status_from_io st).

Definition app_set (a : App) (len : Z) : LedM Z :=
  act ← is_active a;
  if negb act then mret IPC_STATUS_UNAVAILABLE else
  copy_input len ;;
  st ← rw (private_root a) true;
  mret (status_from_io st).

Definition app_get (a : App) : LedM Z :=
  act ← is_active a;
  if negb act then mret IPC_STATUS_UNAVAILABLE else
  st ← rw (private_root a) false;
  mret (status_from_io st).

(** Look at both states of an app, as the listing requests do. *)
Definition app_shown (a : App) : LedM bool :=
  act ← is_active a;
  if (act : bool) then mret true else is_removed a.

Definition app_installed : LedM Z :=
  s0 ← app_shown app_note; s1 ← app_shown app_lab; s2 ← app_shown app_calc; s3 ← app_shown app_vault;
  mret (if s0 || s1 || s2 || s3 then IPC_STATUS_OK else IPC_STATUS_UNAVAILABLE).

Definition app_info : LedM Z :=
  _ ← app_shown app_note; _ ← app_shown app_lab; _ ← app_shown app_calc; _ ← app_shown app_vault;
  mret IPC_STATUS_OK.

(** The five requests of each app. *)
Definition note_requests (op sector : Z) : option (LedM Z) :=
  if op =? REQ_APP_INSTALL_NOTE then Some (app_install app_note)
  else if op =? REQ_APP_REQUIRE_NOTE then Some (app_require app_note)
  else if op =? REQ_APP_REMOVE_NOTE then Some (app_remove app_note)
  else if op =? REQ_NOTE_SET then Some (app_set app_note sector)
  else if op =? REQ_NOTE_GET then Some (app_get app_note)
  else None.

Definition lab_requests (op sector : Z) : option (LedM Z) :=
  if op =? REQ_APP_INSTALL_LAB then Some (app_install app_lab)
  else if op =? REQ_APP_REQUIRE_LAB then Some (app_require app_lab)
  else if op =? REQ_APP_REMOVE_LAB then Some (app_remove app_lab)
  else if op =? REQ_LAB_SET then Some (app_set app_lab sector)
  else if op =? REQ_LAB_GET then Some (app_get app_lab)
  else None.

Definition calc_requests (op sector : Z) : option (LedM Z) :=
  if op =? REQ_APP_INSTALL_CALC then Some (app_install app_calc)
  else if op =? REQ_APP_REQUIRE_CALC then Some (app_require app_calc)
  else if op =? REQ_APP_REMOVE_CALC then Some (app_remove app_calc)
  else if op =? REQ_CALC_SET then Some (app_set app_calc sector)
  else if op =? REQ_CALC_GET then Some (app_get app_calc)
  else None.

Definition vault_requests (op sector : Z) : option (LedM Z) :=
  if op =? REQ_APP_INSTALL_VAULT then Some (app_install app_vault)
  else if op =? REQ_APP_REQUIRE_VAULT then Some (app_require app_vault)
  else if op =? REQ_APP_REMOVE_VAULT then Some (app_remove app_vault)
  else if op =? REQ_VAULT_SET then Some (app_set app_vault sector)
  else if op =? REQ_VAULT_GET then Some (app_get app_vault)
  else None.

Definition app_requests (op sector : Z) : option (LedM Z) :=
  match note_requests op sector with Some m => Some m | None =>
  match lab_requests op sector with Some m => Some m | None =>
  match calc_requests op sector with Some m => Some m | None => vault_requests op sector end end end.

(** ** The sector windows of the package store *)

Definition pkg_read (first last sector : Z) : LedM Z :=
  if (sector <? first) || (last <? sector) then mret IPC_STATUS_DENIED else
  st ← rw sector false; mret (status_from_io st).

Definition pkg_write (first last sector : Z) : LedM Z :=
  if (sector <? first) || (last <? sector) then mret IPC_STATUS_DENIED else
  copy_input SECTOR_SIZE ;;
  st ← rw sector true; mret (status_from_io st).

Definition install_init : LedM Z :=
  set_data (lit "DEZHINST v0 target=riscv64 root=cairn block=virtio-block") ;;
  st0 ← rw INSTALL_MARKER_SECTOR true;
  set_data (lit "DEZHROOT v0 cairn_current=2 cairn_previous=3 metadata_sector=4") ;;
  st1 ← rw ROOT_METADATA_SECTOR true;
  mret (status_from_io (if st0 =? 0 then st1 else st0)).

Definition install_check : LedM Z :=
  st ← rw INSTALL_MARKER_SECTOR false;
  m ← data_starts_with (lit "DEZHINST");
  mret (if (st =? 0) && m then IPC_STATUS_OK else IPC_STATUS_UNAVAILABLE).

Definition pset (len : Z) : LedM Z :=
  _ ← rw CAIRN_CURRENT_SECTOR false;
  _ ← rw CAIRN_PREVIOUS_SECTOR true;
  copy_input len ;;
  st ← rw CAIRN_CURRENT_SECTOR true;
  mret (status_from_io st).

Definition prollback : LedM Z :=
  _ ← rw CAIRN_PREVIOUS_SECTOR false;
  st ← rw CAIRN_CURRENT_SECTOR true;
  mret (status_from_io st).

Definition bwrite (sector : Z) : LedM Z :=
  set_data (lit "DEZH-DAEMON-BLOCK-OK") ;;
  st ← rw sector true; mret (status_from_io st).

Definition bread (sector : Z) : LedM Z :=
  set_data [] ;;
  st ← rw sector false; mret (status_from_io st).

Definition pkg_store_init : LedM Z :=
  set_data (lit "DEZHPKGS v0 slots=8 registry=25..31 blob=64..575 slot_sectors=64") ;;
  st ← rw PKG_STORE_MARKER_SECTOR true; mret (status_from_io st).

Definition read_status (sector : Z) : LedM Z := st ← rw sector false; mret (status_from_io st).

(** The status a well-formed request is answered with. *)
Definition handle (word from sender_caps : Z) : LedM Z :=
  let op := request_op word in
  let sector := request_arg word in
  if op =? REQ_PROBE then mret IPC_STATUS_OK
  else if op =? REQ_BWRITE then bwrite sector
  else if op =? REQ_BREAD then bread sector
  else if op =? REQ_PSET then pset sector
  else if op =? REQ_PGET then read_status CAIRN_CURRENT_SECTOR
  else if op =? REQ_PROLLBACK then prollback
  else if op =? REQ_STOP then mret IPC_STATUS_OK
  else if op =? REQ_INSTALL_CHECK then install_check
  else if op =? REQ_INSTALL_INIT then install_init
  else if op =? REQ_ROOT_STATUS then read_status ROOT_METADATA_SECTOR
  else if op =? REQ_PKG_STORE_INIT then pkg_store_init
  else if op =? REQ_PKG_REGISTRY_READ then pkg_read PKG_REGISTRY_FIRST_SECTOR PKG_REGISTRY_LAST_SECTOR sector
  else if op =? REQ_PKG_REGISTRY_WRITE then pkg_write PKG_REGISTRY_FIRST_SECTOR PKG_REGISTRY_LAST_SECTOR sector
  else if op =? REQ_PKG_BLOB_READ then pkg_read PKG_BLOB_FIRST_SECTOR PKG_BLOB_LAST_SECTOR sector
  else if op =? REQ_PKG_BLOB_WRITE then pkg_write PKG_BLOB_FIRST_SECTOR PKG_BLOB_LAST_SECTOR sector
  else if op =? REQ_PKG_JOURNAL_READ then pkg_read PKG_JOURNAL_FIRST_SECTOR PKG_JOURNAL_LAST_SECTOR sector
  else if op =? REQ_PKG_JOURNAL_WRITE then pkg_write PKG_JOURNAL_FIRST_SECTOR PKG_JOURNAL_LAST_SECTOR sector
  else if op =? REQ_APP_AVAILABLE then mret IPC_STATUS_OK
  else if op =? REQ_APP_INSTALLED then app_installed
  else if op =? REQ_APP_INFO then app_info
  else match app_requests op sector with
  | Some m => m
  | None => if op =? REQ_FAULT_DEMO then mret IPC_STATUS_OK else handle_cairn dev word from sender_caps
  end.

(** The reply word, and the code the daemon exits with after sending it. *)
Definition daemon_step (word from sender_caps : Z) : LedM (Z * option Z) :=
  if negb (request_proto word =? IPC_PROTO_V1) || negb (request_service word =? IPC_SERVICE_VIRTIO_BLOCK)
  then mret (typed_word 0 0 IPC_STATUS_BAD_REQUEST 0, None)
  else
    st ← handle word from sender_caps;
    let op := request_op word in
    mret (reply_word word st,
          if op =? REQ_STOP then Some 0 else if op =? REQ_FAULT_DEMO then Some 99 else None).

(** What [sys_recv] hands over, with the window the client filled before. *)
Record Request := mkRequest { rq_word : Z; rq_from : Z; rq_caps : Z; rq_input : Page }.

Definition set_input (i : Page) : LedM unit := fun s =>
  Some (tt, mkLed (disk s) (data s) i (tick s) (notes s)).

(** The loop over a sequence of requests: the replies, until an exit. *)
Fixpoint serve (rs : list Request) : LedM (list Z) :=
  match rs with
  | [] => mret []
  | r :: rs =>
    set_input (rq_input r) ;;
    rep ← daemon_step (rq_word r) (rq_from r) (rq_caps r);
    match rep with
    | (reply, Some _) => mret [reply]
    | (reply, None) => replies ← serve rs; mret (reply :: replies)
    end
  end.

End Loop.
