(* ===== verification/LedgerInv.v ===== *)
(** * The ledger stays sound

    The invariant of the Cairn v1 store and the proof that every request of
    [Ledger] terminates, keeps it, and never rewrites a committed record. *)

From Stdlib Require Import ZArith Lia.
From stdpp Require Import base option numbers list.
From S2P Require Import Prelude Text Cairn Ledger.

(** ** Sound pages and states *)

Definition page_ok (p : Page) : Prop := forall o, fits 8 (p o).

Record sane (s : Led) : Prop := {
  sane_disk : forall sec, page_ok (disk s sec);
  sane_data : page_ok (data s);
  sane_input : page_ok (input s) }.

(** What the device may do: fail with a nonzero status, leaving bytes behind;
    a superblock write that fails leaves the old sector. *)
Class DevOk (dev : nat -> Z -> bool -> Page -> option (Z * Page)) : Prop := {
  dev_status n sec w old st pg : dev n sec w old = Some (st, pg) -> st <> 0;
  dev_bytes n sec w old st pg : page_ok old -> dev n sec w old = Some (st, pg) -> page_ok pg;
  dev_atomic n old st pg : dev n CAIRN1_SUPER_SECTOR true old = Some (st, pg) -> pg = old }.

(** ** The invariant of the store *)

Abbreviation disk_t := (Z -> Page).

Definition formatted (d : disk_t) : Prop := magic_at (d CAIRN1_SUPER_SECTOR) 0 SUPER_MAGIC = true.
Definition next_of (p : Page) : Z := get_u32 p 8.
Definition head_of (p : Page) (ns : Z) : Z := get_u32 p (cairn_ns_entry_off ns + 16).
Definition count_of (p : Page) (ns : Z) : Z := get_u32 p (cairn_ns_entry_off ns + 20).

(** A ref below [n]. *)
Definition ref_ok (n r : Z) : Prop := r = NONE \/ 0 <= r < n.

Definition rec_ok (d : disk_t) (slot : Z) : Prop :=
  magic_at (d (commit_sector slot)) 0 CAIRN_MAGIC = true /\ ref_ok slot (get_u32 (d (commit_sector slot)) 8).

Definition entry_ok (n : Z) (p : Page) (ns : Z) : Prop := ref_ok n (head_of p ns) /\ count_of p ns <= n.

Definition super_ok (n : Z) (p : Page) : Prop :=
  magic_at p 0 SUPER_MAGIC = true /\ next_of p = n /\ forall ns, 0 <= ns < CAIRN1_NS_MAX -> entry_ok n p ns.

Definition records_ok (d : disk_t) (n : Z) : Prop := forall slot, 0 <= slot < n -> rec_ok d slot.

Definition ledger_ok (d : disk_t) : Prop :=
  formatted d -> exists n, 0 <= n <= COMMIT_SLOTS /\ super_ok n (d CAIRN1_SUPER_SECTOR) /\ records_ok d n.

(** [d'] continues [d]: committed records are never rewritten, and nothing
    outside the store changes. *)
Definition grows (d d' : disk_t) : Prop :=
  (formatted d -> formatted d' /\
     next_of (d CAIRN1_SUPER_SECTOR) <= next_of (d' CAIRN1_SUPER_SECTOR) /\
     forall slot, 0 <= slot < next_of (d CAIRN1_SUPER_SECTOR) -> d' (commit_sector slot) = d (commit_sector slot)) /\
  (forall sec, sec < CAIRN1_SUPER_SECTOR \/ CAIRN1_SUPER_SECTOR + COMMIT_SLOTS < sec -> d' sec = d sec).

#[export] Instance grows_preorder : PreOrder grows.
Proof.
  split.
  - intros d. split; [intros; done|done].
  - intros d1 d2 d3 [H1 O1] [H2 O2]. split.
    + intros Hf. destruct (H1 Hf) as (Hf2 & Hn & Hs). destruct (H2 Hf2) as (Hf3 & Hn' & Hs').
      split; [done|]. split; [lia|]. intros slot Hlt. rewrite Hs' by lia. by apply Hs.
    + intros sec Hsec. by rewrite O2, O1.
Qed.

(** An operation is safe: it terminates, and its disk is a sound continuation. *)
Definition safe {A} (m : LedM A) : Prop := forall s, sane s -> ledger_ok (disk s) ->
  exists a s', m s = Some (a, s') /\ sane s' /\ ledger_ok (disk s') /\ grows (disk s) (disk s').

(** An operation that only reads. *)
Definition reads {A} (m : LedM A) : Prop := forall s, sane s ->
  exists a s', m s = Some (a, s') /\ sane s' /\ disk s' = disk s.

(** ** Pages *)

Definition agrees (p q : Page) : Prop := forall o, 0 <= o < SECTOR_SIZE -> p o = q o.

Lemma get_u32_ext (p q : Page) off : (forall i, 0 <= i < 4 -> p (off + i) = q (off + i)) -> get_u32 p off = get_u32 q off.
Proof. intros He. rewrite !get_u32_le. cbn [map]. unfold rd, page_store. by rewrite !He by lia. Qed.

Lemma agrees_u32 p q off : agrees p q -> 0 <= off <= SECTOR_SIZE - 4 -> get_u32 p off = get_u32 q off.
Proof. intros Ha Ho. apply get_u32_ext. intros i Hi. apply Ha. lia. Qed.

Lemma magic_ext (p q : Page) bs off : (forall o, off <= o < off + zlen bs -> p o = q o) -> magic_at p off bs = magic_at q off bs.
Proof.
  revert off. unfold zlen. induction bs as [|b bs IH]; intros off He; [done|]. cbn [magic_at].
  cbn [length] in He. change (rd p off) with (p off). change (rd q off) with (q off). rewrite (He off) by lia.
  by rewrite IH by (intros; apply He; lia).
Qed.

Lemma agrees_magic p q bs : agrees p q -> zlen bs <= SECTOR_SIZE -> magic_at p 0 bs = magic_at q 0 bs.
Proof. intros Ha Hl. apply magic_ext. intros o Ho. apply Ha. lia. Qed.

Lemma page_u32_fits (p : Page) off : page_ok p -> fits 32 (get_u32 p off).
Proof.
  intros Hp. rewrite get_u32_le. apply (le_val_fits (map _ [0; 1; 2; 3])). repeat constructor; apply Hp.
Qed.

Lemma page_ok_wr p o b : page_ok p -> fits 8 b -> page_ok (wr p o b).
Proof. intros Hp Hb o'. cbn. by destruct (o =? o'). Qed.

Lemma page_ok_put p off v : page_ok p -> page_ok (put_u32 p off v).
Proof.
  intros Hp. unfold put_u32. cbn [put_bytes]. repeat (apply page_ok_wr; [|apply wrap_fits; lia]). done.
Qed.

Lemma page_ok_zero p : page_ok p -> page_ok (zero_page p).
Proof. intros Hp o. unfold zero_page. by destruct (in_sector o). Qed.

Lemma page_ok_copy src soff dst doff n : page_ok src -> page_ok dst -> page_ok (copy_window src soff dst doff n).
Proof. intros Hs Hd o. unfold copy_window. by destruct (_ && _). Qed.

Lemma page_ok_overlay p q : page_ok p -> page_ok q -> page_ok (overlay p q).
Proof. intros Hp Hq o. unfold overlay. by destruct (in_sector o). Qed.

Lemma page_ok_list bs : bytes_ok bs -> page_ok (list_page bs).
Proof.
  intros Hb o. unfold list_page. destruct (bs !! Z.to_nat o) eqn:E; [|done]. by eapply Forall_lookup_1.
Qed.

Lemma page_ok_put_list p off bs : page_ok p -> bytes_ok bs -> page_ok (put_list p off bs).
Proof.
  intros Hp Hb. revert p off Hp. induction Hb as [|b bs Hb Hbs IH]; intros p off Hp; [done|].
  cbn. apply IH. by apply page_ok_wr.
Qed.

Lemma page_ok_encode h p : page_ok p -> fits 8 (rev_class h) -> fits 8 (status h) -> page_ok (encode h p).
Proof.
  intros Hp Hr Hs. unfold encode.
  repeat first [apply page_ok_wr; [|first [assumption|apply wrap_fits; lia]] | apply page_ok_put].
  apply page_ok_put_list; [done|by apply bytes_okb_spec].
Qed.
#[export] Hint Resolve page_ok_wr page_ok_put page_ok_zero page_ok_copy page_ok_overlay page_ok_list
  page_ok_encode : dezh.

Lemma overlay_agrees p q : agrees (overlay p q) p.
Proof.
  intros o Ho. unfold overlay, in_sector.
  by rewrite (proj2 (Z.leb_le 0 o)), (proj2 (Z.ltb_lt o SECTOR_SIZE)) by lia.
Qed.

(** ** The monad *)

Lemma bind_eq {A B} (m : LedM A) (f : A -> LedM B) s a s' : m s = Some (a, s') -> (m ≫= f) s = f a s'.
Proof. intros E. unfold mbind, LedM_bind. by rewrite E. Qed.

Lemma bind_data {B} (f : Page -> LedM B) s : (get_data ≫= f) s = f (data s) s.
Proof. done. Qed.
Lemma bind_input {B} (f : Page -> LedM B) s : (get_input ≫= f) s = f (input s) s.
Proof. done. Qed.
Lemma bind_starts_with {B} bs (f : bool -> LedM B) s :
  (data_starts_with bs ≫= f) s = f (magic_at (data s) 0 bs) s.
Proof. done. Qed.
Lemma bind_read_u32 {B} off (f : Z -> LedM B) s : (d_read_u32 off ≫= f) s = f (get_u32 (data s) off) s.
Proof. done. Qed.
Lemma bind_assoc {A B C} (m : LedM A) (f : A -> LedM B) (g : B -> LedM C) s :
  ((m ≫= f) ≫= g) s = (m ≫= fun a => f a ≫= g) s.
Proof. unfold mbind, LedM_bind. by destruct (m s) as [[]|]. Qed.

(** [m] turns [s] into a state with the same disk, a sound window and [Q]. *)
Definition keeps {A} (s : Led) (m : LedM A) (Q : A -> Led -> Prop) : Prop :=
  exists a s', m s = Some (a, s') /\ sane s' /\ disk s' = disk s /\ Q a s'.

Lemma keeps_bind {A B} s (m : LedM A) (f : A -> LedM B) R Q :
  keeps s m R -> (forall a s', sane s' -> disk s' = disk s -> R a s' -> keeps s' (f a) Q) -> keeps s (m ≫= f) Q.
Proof.
  intros (a & s' & E & Hs & Hd & HR) Hf. destruct (Hf a s' Hs Hd HR) as (b & s2 & E2 & Hs2 & Hd2 & HQ).
  exists b, s2. rewrite (bind_eq _ _ _ _ _ E). split; [done|]. split; [done|]. split; [congruence|done].
Qed.

Lemma keeps_ret {A} s (a : A) (Q : A -> Led -> Prop) : sane s -> Q a s -> keeps s (mret a) Q.
Proof. intros Hs HQ. by exists a, s. Qed.

Lemma keeps_get_data {B} s (f : Page -> LedM B) Q : keeps s (f (data s)) Q -> keeps s (get_data ≫= f) Q.
Proof. done. Qed.

Lemma keeps_get_input {B} s (f : Page -> LedM B) Q : keeps s (f (input s)) Q -> keeps s (get_input ≫= f) Q.
Proof. done. Qed.

Lemma keeps_read_u32 {B} s off (f : Z -> LedM B) Q :
  keeps s (f (get_u32 (data s) off)) Q -> keeps s (d_read_u32 off ≫= f) Q.
Proof. done. Qed.

Definition entries (d : Page) (off : Z) : list Z := map (fun ns => get_u32 d (cairn_ns_entry_off ns + off)) all_ns.

Lemma keeps_entries {B} s off (f : list Z -> LedM B) Q :
  keeps s (f (entries (data s) off)) Q -> keeps s (read_entries off ≫= f) Q.
Proof. done. Qed.

Lemma keeps_put_data s d : sane s -> page_ok d -> keeps s (put_data d) (fun _ s' => data s' = d /\ input s' = input s).
Proof. intros [] Hd. eexists _, _. split; [reflexivity|]. by split; [split|]. Qed.

Lemma keeps_say s n : sane s -> keeps s (say n) (fun _ s' => data s' = data s /\ input s' = input s).
Proof. intros []. eexists _, _. split; [reflexivity|]. by split; [split|]. Qed.

Lemma keeps_weaken {A} s (m : LedM A) (R Q : A -> Led -> Prop) :
  keeps s m R -> (forall a s', sane s' -> disk s' = disk s -> R a s' -> Q a s') -> keeps s m Q.
Proof. intros (a & s' & ? & ? & ? & ?) HQ. exists a, s'. auto. Qed.

Lemma reads_keeps {A} (m : LedM A) : reads m <-> forall s, sane s -> keeps s m (fun _ _ => True).
Proof. split; intros H s Hs; destruct (H s Hs) as (a & s' & ? & ? & H'); exists a, s'; intuition auto. Qed.

(** ** Disks *)

Definition upd (d : disk_t) (sec : Z) (p : Page) : disk_t := fun x => if x =? sec then p else d x.

Lemma upd_eq d sec p : upd d sec p sec = p.
Proof. unfold upd. by rewrite Z.eqb_refl. Qed.
Lemma upd_ne d sec p x : x <> sec -> upd d sec p x = d x.
Proof. intros H. unfold upd. by rewrite (proj2 (Z.eqb_neq x sec) H). Qed.

Lemma commit_not_super slot : 0 <= slot -> commit_sector slot <> CAIRN1_SUPER_SECTOR.
Proof. unfold commit_sector, CAIRN1_COMMIT_FIRST_SECTOR, CAIRN1_SUPER_SECTOR. lia. Qed.

Lemma rec_ok_ext d d' slot : d' (commit_sector slot) = d (commit_sector slot) -> rec_ok d slot -> rec_ok d' slot.
Proof. unfold rec_ok. by intros ->. Qed.

Lemma ref_ok_fits n r : n <= COMMIT_SLOTS -> ref_ok n r -> fits 32 r.
Proof. unfold ref_ok, fits, NONE, COMMIT_SLOTS. lia. Qed.

Lemma ref_ok_mono n m r : n <= m -> ref_ok n r -> ref_ok m r.
Proof. unfold ref_ok. lia. Qed.

(** A store whose superblock and records are those of a sound one. *)
Lemma ledger_ok_intro d n : 0 <= n <= COMMIT_SLOTS -> super_ok n (d CAIRN1_SUPER_SECTOR) -> records_ok d n -> ledger_ok d.
Proof. intros Hn Hs Hr _. by exists n. Qed.

Lemma ledger_same d d' : d' CAIRN1_SUPER_SECTOR = d CAIRN1_SUPER_SECTOR ->
  (forall slot, 0 <= slot < next_of (d CAIRN1_SUPER_SECTOR) -> d' (commit_sector slot) = d (commit_sector slot)) ->
  ledger_ok d -> ledger_ok d'.
Proof.
  intros Hs Hr Hok Hf. unfold formatted in Hf. rewrite Hs in Hf. destruct (Hok Hf) as (n & Hn & Hsup & Hrec).
  exists n. rewrite Hs. split; [done|]. split; [done|]. destruct Hsup as (_ & Hnext & _).
  intros slot Hlt. eapply rec_ok_ext; [apply Hr; lia|by apply Hrec].
Qed.

Lemma grows_intro d d' : (formatted d -> formatted d' /\
     next_of (d CAIRN1_SUPER_SECTOR) <= next_of (d' CAIRN1_SUPER_SECTOR)) ->
  (forall slot, 0 <= slot < next_of (d CAIRN1_SUPER_SECTOR) -> formatted d -> d' (commit_sector slot) = d (commit_sector slot)) ->
  (forall sec, sec < CAIRN1_SUPER_SECTOR \/ CAIRN1_SUPER_SECTOR + COMMIT_SLOTS < sec -> d' sec = d sec) ->
  grows d d'.
Proof. intros H1 H2 H3. split; [|done]. intros Hf. destruct (H1 Hf). by auto. Qed.

(** A record that the window holds a copy of. *)
Lemma record_parent d n slot p : records_ok d n -> 0 <= slot < n -> agrees p (d (commit_sector slot)) ->
  ref_ok slot (get_u32 p 8).
Proof. intros Hr Hs Ha. rewrite (agrees_u32 _ _ _ Ha) by done. by apply Hr. Qed.

(** Offsets of the superblock's entries. *)
Ltac entry_lia := unfold cairn_ns_entry_off, CAIRN1_NS_MAX, CAIRN1_NS_OFF_REVOKED in *; lia.

Section Device.
Context {dev : nat -> Z -> bool -> Page -> option (Z * Page)} `{HD : DevOk dev}.

Lemma rw_read s sec : sane s ->
  keeps s (rw dev sec false) (fun st s' => input s' = input s /\ (st = 0 -> agrees (data s') (disk s sec))).
Proof.
  intros Hs. pose proof Hs as []. unfold keeps, rw. destruct (dev (tick s) sec false (data s)) as [[st pg]|] eqn:E.
  - eexists _, _. split; [reflexivity|]. split; [split; cbn; eauto using dev_bytes with dezh|].
    split; [done|]. split; [done|]. intros ->. by apply dev_status in E.
  - eexists _, _. split; [reflexivity|]. split; [split; cbn; eauto with dezh|].
    split; [done|]. split; [done|]. intros _. apply overlay_agrees.
Qed.

Lemma rw_write s sec : sane s -> exists st s' pg, rw dev sec true s = Some (st, s') /\ sane s' /\
  data s' = data s /\ input s' = input s /\ disk s' = upd (disk s) sec pg /\ page_ok pg /\
  (st = 0 -> pg = data s) /\ (sec = CAIRN1_SUPER_SECTOR -> st <> 0 -> pg = disk s sec).
Proof.
  intros Hs. pose proof Hs as []. unfold rw. destruct (dev (tick s) sec true (disk s sec)) as [[st pg]|] eqn:E.
  - assert (Hpg : page_ok pg) by (eapply dev_bytes, E; done).
    eexists _, _, pg. split; [reflexivity|]. split; [split; cbn; [|done|done]; intros x; by destruct (x =? sec)|].
    repeat (split; [done|]). split; [intros ->; by apply dev_status in E|]. intros -> _. by apply dev_atomic in E.
  - eexists _, _, (data s). split; [reflexivity|].
    split; [split; cbn; [|done|done]; intros x; by destruct (x =? sec)|]. repeat (split; [done|]). done.
Qed.

(** Formatting writes an empty ledger. *)
Definition fresh_page (p : Page) : Prop := page_ok p /\ super_ok 0 p.

Lemma keeps_d_write_u32 s off v : sane s ->
  keeps s (d_write_u32 off v) (fun _ s' => data s' = put_u32 (data s) off v /\ input s' = input s).
Proof.
  intros Hs. unfold d_write_u32. apply keeps_get_data, keeps_put_data; [done|]. apply page_ok_put, Hs.
Qed.

(** The page it leaves, as a function of what was in the window. *)
Definition fmt (d : Page) : Page :=
  match format_page (mkLed (fun _ _ => 0) d (fun _ => 0) 0 []) with Some (_, s) => data s | None => d end.

Lemma format_page_run s : format_page s = Some (tt, mkLed (disk s) (fmt (data s)) (input s) (tick s) (notes s)).
Proof. destruct s. reflexivity. Qed.

Lemma fmt_super d : super_ok 0 (fmt d).
Proof.
  split; [vm_compute; reflexivity|]. split; [vm_compute; reflexivity|].
  intros ns Hns. unfold CAIRN1_NS_MAX in Hns.
  assert (ns = 0 \/ ns = 1 \/ ns = 2 \/ ns = 3 \/ ns = 4 \/ ns = 5 \/ ns = 6 \/ ns = 7) as H by lia.
  destruct H as [-> |[-> |[-> |[-> |[-> |[-> |[-> | ->]]]]]]]; (split; [left; vm_compute; reflexivity|];
    unfold count_of; match goal with |- ?x <= 0 => replace x with 0 by (vm_compute; reflexivity) end; lia).
Qed.

Lemma keeps_write_name s e name i n : sane s -> bytes_ok name ->
  keeps s (write_name e name i n) (fun _ s' => input s' = input s).
Proof.
  revert s i n. induction name as [|b name IH]; intros s i n Hs Hb; destruct n; cbn [write_name];
    try by apply keeps_ret.
  apply Forall_cons in Hb as [Hb0 Hb].
  eapply keeps_bind; [apply keeps_get_data, keeps_put_data; [done|apply page_ok_wr; [apply Hs|done]]|].
  cbn. intros _ s' Hs' _ [_ Hi]. eapply keeps_weaken; [by apply IH|]. cbn. congruence.
Qed.

Lemma names_ok i name : CAIRN1_NS_NAMES !! i = Some name -> bytes_ok name.
Proof.
  intros E. apply bytes_okb_spec. do 5 (destruct i as [|i]; [injection E as <-; vm_compute; reflexivity|]). done.
Qed.

Lemma format_keeps s : sane s -> keeps s format_page (fun _ s' => input s' = input s).
Proof.
  intros Hs. unfold format_page, zero_data, set_data.
  eapply keeps_bind; [apply keeps_get_data, keeps_put_data; [done|apply page_ok_zero, Hs]|]. intros _ s1 Hs1 _ [_ Hi1].
  eapply keeps_bind.
  { apply keeps_get_data, keeps_put_data; [done|]. apply page_ok_copy; [apply page_ok_list; by apply bytes_okb_spec|].
    apply page_ok_zero, Hs1. }
  intros _ s2 Hs2 _ [_ Hi2]. eapply keeps_bind; [by apply keeps_d_write_u32|]. intros _ s3 Hs3 _ [_ Hi3].
  rewrite <- Hi1, <- Hi2, <- Hi3.
  assert (Hall : forall l s, sane s -> keeps s (for_each l format_entry tt) (fun _ s' => input s' = input s)).
  { clear. induction l as [|ns l IH]; intros s Hs; cbn [for_each]; [by apply keeps_ret|].
    eapply keeps_bind with (R := fun _ s' => input s' = input s).
    2: { intros [] s4 Hs4 _ Hi4. eapply keeps_weaken; [by apply IH|]. cbn. congruence. }
    unfold format_entry. eapply keeps_bind with (R := fun _ s' => input s' = input s).
    - destruct (CAIRN1_NS_NAMES !! Z.to_nat ns) as [name|] eqn:E; [|by apply keeps_ret].
      apply keeps_write_name; [done|]. by eapply names_ok.
    - intros _ s4 Hs4 _ Hi4. eapply keeps_bind; [by apply keeps_d_write_u32|]. intros _ s5 Hs5 _ [_ Hi5].
      eapply keeps_weaken; [by apply keeps_d_write_u32|]. cbn. intros _ s6 _ _ [_ Hi6]. congruence. }
  by apply Hall.
Qed.

Lemma format_page_spec s : sane s ->
  keeps s format_page (fun _ s' => fresh_page (data s') /\ input s' = input s).
Proof.
  intros Hs. destruct (format_keeps s Hs) as (u & s' & E & Hs' & Hd & Hi). exists u, s'.
  split; [done|]. split; [done|]. split; [done|]. split; [|done]. split; [apply Hs'|].
  rewrite format_page_run in E. assert (s' = mkLed (disk s) (fmt (data s)) (input s) (tick s) (notes s)) as -> by congruence.
  apply fmt_super.
Qed.

(** Loading the superblock. *)
Record loaded (s : Led) (ok : bool) (s' : Led) : Prop := {
  l_sane : sane s';
  l_ledger : ledger_ok (disk s');
  l_grows : grows (disk s) (disk s');
  l_input : input s' = input s;
  l_kept : formatted (disk s) -> disk s' = disk s;
  l_ok : ok = true -> formatted (disk s') /\ agrees (data s') (disk s' CAIRN1_SUPER_SECTOR) }.

Lemma super_write_failed d : ledger_ok d ->
  ledger_ok (upd d CAIRN1_SUPER_SECTOR (d CAIRN1_SUPER_SECTOR)) /\
  grows d (upd d CAIRN1_SUPER_SECTOR (d CAIRN1_SUPER_SECTOR)).
Proof.
  intros Hok. assert (He : forall x, upd d CAIRN1_SUPER_SECTOR (d CAIRN1_SUPER_SECTOR) x = d x).
  { intros x. unfold upd. by destruct (Z.eqb_spec x CAIRN1_SUPER_SECTOR) as [->|]. }
  split; [eapply ledger_same, Hok; intros; apply He|].
  apply grows_intro; [|intros; apply He|intros; apply He].
  unfold formatted. rewrite He. intros ?. split; [done|lia].
Qed.

Lemma load_super_spec s : sane s -> ledger_ok (disk s) ->
  exists ok s', cairn_load_super dev s = Some (ok, s') /\ loaded s ok s'.
Proof.
  intros Hs Hok. unfold cairn_load_super.
  destruct (rw_read s CAIRN1_SUPER_SECTOR Hs) as (st & s1 & E1 & Hs1 & Hd1 & Hi1 & Ha1).
  rewrite (bind_eq _ _ _ _ _ E1). destruct (Z.eqb_spec st 0) as [->|Hst]; cbn [negb].
  2: { eexists _, _. split; [reflexivity|]. rewrite <- Hd1 in Hok. split; try done; rewrite Hd1; done. }
  specialize (Ha1 eq_refl). rewrite bind_starts_with, (agrees_magic _ _ SUPER_MAGIC Ha1) by done.
  destruct (magic_at (disk s CAIRN1_SUPER_SECTOR) 0 SUPER_MAGIC) eqn:Em.
  { eexists _, _. split; [reflexivity|]. rewrite <- Hd1 in Hok. split; try done; rewrite Hd1; done. }
  assert (Hnf : ~ formatted (disk s)) by (unfold formatted; congruence).
  destruct (format_page_spec s1 Hs1) as (u & s2 & E2 & Hs2 & Hd2 & Hfresh & Hi2).
  rewrite (bind_eq _ _ _ _ _ E2).
  destruct (rw_write s2 CAIRN1_SUPER_SECTOR Hs2) as (st & s3 & pg & E3 & Hs3 & Hdt3 & Hi3 & Hd3 & Hpg & Hz & Hnz).
  rewrite (bind_eq _ _ _ _ _ E3). rewrite Hd2, Hd1 in Hd3.
  assert (Hg : grows (disk s) (disk s3)).
  { rewrite Hd3. split; [done|]. intros sec Hsec. apply upd_ne. unfold COMMIT_SLOTS in *. lia. }
  destruct (Z.eqb_spec st 0) as [->|Hst]; cbn [negb].
  2: { eexists _, _. split; [reflexivity|]. split; try done; [|congruence].
    rewrite Hd3, Hnz, Hd2, Hd1 by done. by apply super_write_failed. }
  assert (Hok3 : ledger_ok (disk s3)).
  { rewrite Hd3, Hz by done. apply (ledger_ok_intro _ 0); [done|rewrite upd_eq; apply Hfresh|intros ??; lia]. }
  destruct (rw_read s3 CAIRN1_SUPER_SECTOR Hs3) as (st & s4 & E4 & Hs4 & Hd4 & Hi4 & Ha4).
  rewrite (bind_eq _ _ _ _ _ E4). eexists _, _. split; [reflexivity|].
  split; try done; rewrite ?Hd4; try done; [congruence|].
  intros Hst%Z.eqb_eq. split; [|by apply Ha4]. unfold formatted. rewrite Hd3, upd_eq, Hz by done. apply Hfresh.
Qed.

(** ** Steps of a handler *)

Definition safe_at {A} (s : Led) (m : LedM A) : Prop :=
  exists a s', m s = Some (a, s') /\ sane s' /\ ledger_ok (disk s') /\ grows (disk s) (disk s').

Lemma safe_at_ret {A} s (a : A) : sane s -> ledger_ok (disk s) -> safe_at s (mret a).
Proof. intros. exists a, s. done. Qed.

Lemma safe_bind_keeps {A B} s (m : LedM A) (f : A -> LedM B) R :
  keeps s m R -> (forall a s', sane s' -> disk s' = disk s -> R a s' -> safe_at s' (f a)) -> safe_at s (m ≫= f).
Proof.
  intros (a & s' & E & Hs & Hd & HR) Hf. destruct (Hf a s' Hs Hd HR) as (b & s2 & E2 & ? & ? & Hg).
  exists b, s2. rewrite (bind_eq _ _ _ _ _ E). rewrite Hd in Hg. done.
Qed.

Lemma safe_read_u32 {B} s off (f : Z -> LedM B) : safe_at s (f (get_u32 (data s) off)) -> safe_at s (d_read_u32 off ≫= f).
Proof. done. Qed.
Lemma safe_get_data {B} s (f : Page -> LedM B) : safe_at s (f (data s)) -> safe_at s (get_data ≫= f).
Proof. done. Qed.
Lemma safe_get_input {B} s (f : Page -> LedM B) : safe_at s (f (input s)) -> safe_at s (get_input ≫= f).
Proof. done. Qed.
Lemma safe_entries {B} s off (f : list Z -> LedM B) :
  safe_at s (f (entries (data s) off)) -> safe_at s (read_entries off ≫= f).
Proof. done. Qed.

Lemma keeps_safe {A} s (m : LedM A) : keeps s m (fun _ _ => True) -> ledger_ok (disk s) -> safe_at s m.
Proof. intros (a & s' & E & Hs & Hd & _) Hok. exists a, s'. rewrite Hd. done. Qed.

(** The window holds the superblock of a sound store with [n] commits. *)
Record ready (s : Led) (n : Z) : Prop := {
  r_sane : sane s;
  r_fmt : formatted (disk s);
  r_agrees : agrees (data s) (disk s CAIRN1_SUPER_SECTOR);
  r_n : 0 <= n <= COMMIT_SLOTS;
  r_super : super_ok n (disk s CAIRN1_SUPER_SECTOR);
  r_recs : records_ok (disk s) n }.

Lemma ready_ledger s n : ready s n -> ledger_ok (disk s).
Proof. intros [] _. by exists n. Qed.

Lemma with_super {A} s (k : bool -> LedM A) : sane s -> ledger_ok (disk s) ->
  (forall s' n, ready s' n -> input s' = input s -> (formatted (disk s) -> disk s' = disk s) -> safe_at s' (k true)) ->
  (forall s', sane s' -> ledger_ok (disk s') -> safe_at s' (k false)) ->
  safe_at s (cairn_load_super dev ≫= k).
Proof.
  intros Hs Hok Ht Hf. destruct (load_super_spec s Hs Hok) as (ok & s' & E & []).
  assert (Hk : safe_at s' (k ok)).
  { destruct ok; [|by apply Hf]. destruct (l_ok0 eq_refl) as [Hfm Hag].
    destruct (l_ledger0 Hfm) as (n & Hn & Hsup & Hrec). by apply (Ht s' n). }
  destruct Hk as (a & s2 & E2 & ? & ? & Hg). exists a, s2. rewrite (bind_eq _ _ _ _ _ E).
  split; [done|]. split; [done|]. split; [done|]. by etrans.
Qed.

(** ** Superblock pages *)

Definition super_body (n : Z) (p : Page) : Prop :=
  magic_at p 0 SUPER_MAGIC = true /\ forall ns, 0 <= ns < CAIRN1_NS_MAX -> entry_ok n p ns.

Lemma magic_put p off v : 8 <= off -> magic_at (put_u32 p off v) 0 SUPER_MAGIC = magic_at p 0 SUPER_MAGIC.
Proof.
  intros Ho. apply magic_ext. intros o Hlt. change (zlen SUPER_MAGIC) with 8 in Hlt.
  pose proof (rd_put_u32_ne p off v o) as H. cbn in H. apply H. lia.
Qed.

Lemma body_mono n m p : n <= m -> super_body n p -> super_body m p.
Proof.
  intros Hle [Hm He]. split; [done|]. intros ns Hns. destruct (He ns Hns). split; [by eapply ref_ok_mono|lia].
Qed.

Lemma body_put_next n p v : super_body n p -> super_body n (put_u32 p 8 v).
Proof.
  intros [Hm He]. split; [by rewrite magic_put|]. intros ns Hns. unfold entry_ok, head_of, count_of in *.
  rewrite !get_put_u32_ne by entry_lia. by apply He.
Qed.

Lemma body_put_head n p ns h : super_body n p -> 0 <= ns < CAIRN1_NS_MAX -> ref_ok n h -> fits 32 h ->
  super_body n (put_u32 p (cairn_ns_entry_off ns + 16) h).
Proof.
  intros [Hm He] Hns Hh Hf. split; [rewrite magic_put; [done|entry_lia]|]. intros ns' Hns'.
  unfold entry_ok, head_of, count_of in *. destruct (decide (ns' = ns)) as [->|Hne].
  - rewrite get_put_u32 by done. rewrite get_put_u32_ne by entry_lia. split; [done|]. by apply He.
  - rewrite !get_put_u32_ne by entry_lia. by apply He.
Qed.

Lemma body_put_count n p ns c : super_body n p -> 0 <= ns < CAIRN1_NS_MAX -> c <= n -> fits 32 c ->
  super_body n (put_u32 p (cairn_ns_entry_off ns + 20) c).
Proof.
  intros [Hm He] Hns Hh Hf. split; [rewrite magic_put; [done|entry_lia]|]. intros ns' Hns'.
  unfold entry_ok, head_of, count_of in *. destruct (decide (ns' = ns)) as [->|Hne].
  - rewrite get_put_u32 by done. rewrite get_put_u32_ne by entry_lia. split; [|done]. by apply He.
  - rewrite !get_put_u32_ne by entry_lia. by apply He.
Qed.

Lemma body_put_revoked n p ns v : super_body n p -> 0 <= ns < CAIRN1_NS_MAX ->
  super_body n (put_u32 p (cairn_ns_entry_off ns + CAIRN1_NS_OFF_REVOKED) v).
Proof.
  intros [Hm He] Hns. split; [rewrite magic_put; [done|entry_lia]|]. intros ns' Hns'.
  unfold entry_ok, head_of, count_of in *. rewrite !get_put_u32_ne by entry_lia. by apply He.
Qed.

Lemma next_put_entry p ns k v : 0 <= ns -> 0 <= k ->
  next_of (put_u32 p (cairn_ns_entry_off ns + k) v) = next_of p.
Proof. intros. unfold next_of. by rewrite get_put_u32_ne by entry_lia. Qed.

Lemma body_of_super n p : super_ok n p -> super_body n p.
Proof. intros (? & _ & ?). done. Qed.

Lemma body_agrees n p q : agrees p q -> super_body n q -> super_body n p.
Proof.
  intros Ha [Hm He]. split; [by rewrite (agrees_magic p q)|]. intros ns Hns. unfold entry_ok, head_of, count_of in *.
  rewrite !(agrees_u32 p q) by (done || (unfold SECTOR_SIZE; entry_lia)). by apply He.
Qed.

(** Writing the superblock back. *)
Lemma super_write s n : sane s -> formatted (disk s) -> next_of (disk s CAIRN1_SUPER_SECTOR) <= n ->
  ledger_ok (disk s) -> 0 <= n <= COMMIT_SLOTS -> super_body n (data s) -> next_of (data s) = n -> records_ok (disk s) n ->
  exists st s', rw dev CAIRN1_SUPER_SECTOR true s = Some (st, s') /\ sane s' /\ input s' = input s /\
    ledger_ok (disk s') /\ grows (disk s) (disk s') /\
    (st = 0 -> disk s' = upd (disk s) CAIRN1_SUPER_SECTOR (data s)).
Proof.
  intros Hs Hf Hle Hok Hn Hb Hnext Hr.
  destruct (rw_write s CAIRN1_SUPER_SECTOR Hs) as (st & s' & pg & E & Hs' & Hdt & Hi & Hd & Hpg & Hz & Hnz).
  exists st, s'. split; [done|]. split; [done|]. split; [done|].
  destruct (Z.eq_dec st 0) as [->|Hst].
  - rewrite Hd, Hz by done. split; [|split; [|done]].
    + apply (ledger_ok_intro _ n); [done| |].
      * rewrite upd_eq. split; [apply Hb|]. split; [done|]. apply Hb.
      * intros slot Hlt. eapply rec_ok_ext, Hr, Hlt. apply upd_ne, commit_not_super. lia.
    + apply grows_intro.
      * intros _. unfold formatted. rewrite upd_eq, Hnext. split; [apply Hb|done].
      * intros slot Hlt _. apply upd_ne, commit_not_super. lia.
      * intros sec Hsec. apply upd_ne. unfold COMMIT_SLOTS in *. lia.
  - rewrite Hd, Hnz by done. destruct (super_write_failed (disk s) Hok). split; [done|]. split; [done|lia].
Qed.

(** Writing a record into the first free slot. *)
Lemma record_write s n : sane s -> formatted (disk s) -> ledger_ok (disk s) -> 0 <= n < COMMIT_SLOTS ->
  next_of (disk s CAIRN1_SUPER_SECTOR) <= n ->
  exists st s', rw dev (commit_sector n) true s = Some (st, s') /\ sane s' /\ input s' = input s /\
    ledger_ok (disk s') /\ formatted (disk s') /\ grows (disk s) (disk s') /\
    (forall x, x <> commit_sector n -> disk s' x = disk s x) /\
    (st = 0 -> disk s' (commit_sector n) = data s).
Proof.
  intros Hs Hf Hok Hn Hle.
  destruct (rw_write s (commit_sector n) Hs) as (st & s' & pg & E & Hs' & Hdt & Hi & Hd & Hpg & Hz & _).
  assert (Hne : forall x, x <> commit_sector n -> disk s' x = disk s x) by (intros; rewrite Hd; by apply upd_ne).
  assert (Hsup : disk s' CAIRN1_SUPER_SECTOR = disk s CAIRN1_SUPER_SECTOR).
  { apply Hne. intros Heq. symmetry in Heq. revert Heq. apply commit_not_super. lia. }
  assert (Hold : forall slot, 0 <= slot < next_of (disk s CAIRN1_SUPER_SECTOR) -> disk s' (commit_sector slot) = disk s (commit_sector slot)).
  { intros slot Hlt. apply Hne. unfold commit_sector. lia. }
  exists st, s'. split; [done|]. split; [done|]. split; [done|]. split; [by eapply ledger_same|].
  split; [unfold formatted; by rewrite Hsup|]. split; [|split; [done|intros ->; rewrite Hd, upd_eq; auto]].
  apply grows_intro; [unfold formatted; rewrite Hsup; intros; split; [done|lia]|auto|].
  intros sec Hsec. apply Hne. unfold commit_sector, CAIRN1_COMMIT_FIRST_SECTOR, COMMIT_SLOTS, CAIRN1_SUPER_SECTOR in *. lia.
Qed.

End Device.
