(* ===== verification/Client.v ===== *)
(** * Reaching the block daemon from the console

    The console packs a request (dezh-boot/src/abi.rs), stages its data in the
    DMA window (dezh-boot/src/vblk.rs) and runs a short-lived client process
    (the client half of dezh-boot/virtio-blk/src/main.rs) that sends the daemon
    one typed word and exits with the status of the reply.  The window is the
    one [Led] holds.  The kernel delivers a message to a live daemon and blocks
    the client until the reply, so a served request is one [daemon_step]; [up]
    says whether the send is accepted.  [ClientFate] has the other ways a request
    can go. *)

From Stdlib Require Import ZArith Lia String Btauto.
From stdpp Require Import base option strings numbers list.
From S2P Require Import Prelude Text Mcap Cairn Ledger LedgerInv Daemon.

(** ** Packed requests (abi.rs) *)

Definition SYS_DENIED : Z := 2 ^ 64 - 1.
Definition FIRST_FOREGROUND_TASK : Z := 1.
Definition TEST_SECTOR : Z := 8.

Definition cairn_req (base ns steps : Z) : Z :=
  base .| Z.shiftl ns 8 .| Z.shiftl (Z.min steps 0xfff) 12.

Definition cairn_req_intent (base ns ahd derived rev_class : Z) : Z :=
  let status_byte := (derived & 0x1f) .| Z.shiftl (rev_class & 0x3) 5 in
  cairn_req base ns 0 .| Z.shiftl ahd 24 .| Z.shiftl status_byte 40.

Definition sfar_req (base ns ahd : Z) : Z := cairn_req base ns 0 .| Z.shiftl ahd 24.

(** ** The window (vblk.rs) *)

Definition stage_input (bs : list Z) (n : Z) : LedM unit := fun s =>
  Some (tt, mkLed (disk s) (data s) (copy_window (list_page bs) 0 (zero_page (input s)) 0 n) (tick s) (notes s)).

Definition prepare_virtio_input (bs : list Z) : LedM Z :=
  let n := Z.min (zlen bs) 511 in stage_input bs n ;; mret n.

Definition prepare_virtio_input_bytes (bs : list Z) : LedM unit := stage_input bs (Z.min (zlen bs) 512).

(** The first 512 bytes of a window. *)
Definition window_bytes (p : Page) : list Z := map (fun i => wrap 8 (p (Z.of_nat i))) (seq 0 512).

Definition read_virtio_output_sector : LedM (list Z) := d ← get_data; mret (window_bytes d).

(** ** The client (virtio-blk/src/main.rs) *)

Section Client.
Variable dev : nat -> Z -> bool -> Page -> option (Z * Page).
Variable up : bool.
Variables from caps : Z.

Definition client_set_input (bs : list Z) : LedM Z :=
  let n := Z.min (zlen bs) (SECTOR_SIZE - 1) in stage_input bs n ;; mret n.

Definition client_send_meta (op id_field status_field arg : Z) : LedM Z :=
  if negb up then mret IPC_STATUS_UNAVAILABLE else
  rep ← daemon_step dev (typed_word op id_field status_field arg) from caps;
  mret (response_status rep.1).

Definition client_send (op sector_or_len : Z) : LedM Z :=
  if negb up then mret IPC_STATUS_UNAVAILABLE else
  rep ← daemon_step dev (request_word op sector_or_len) from caps;
  mret (response_status rep.1).

(** The argument of a request that is not a Cairn one. *)
Definition sector_or_len (req input_len : Z) : Z :=
  if (req =? REQ_BWRITE) || (req =? REQ_BREAD) then TEST_SECTOR
  else if (req =? REQ_PSET) || (req =? REQ_NOTE_SET) || (req =? REQ_LAB_SET) || (req =? REQ_CALC_SET) || (req =? REQ_VAULT_SET)
  then input_len
  else if (req =? REQ_PKG_REGISTRY_READ) || (req =? REQ_PKG_REGISTRY_WRITE) || (req =? REQ_PKG_BLOB_READ)
    || (req =? REQ_PKG_BLOB_WRITE) || (req =? REQ_PKG_JOURNAL_READ) || (req =? REQ_PKG_JOURNAL_WRITE)
  then input_len
  else 0.

(** The exit code of the client process. *)
Definition client_request (input_len req : Z) : LedM Z :=
  let base := req & 0xff in
  let cairn_ns := Z.shiftr req 8 & 0xf in
  let cairn_steps := Z.shiftr req 12 & 0xfff in
  let sand_intent := Z.shiftr req 24 & 0xffff in
  let sand_status_byte := Z.shiftr req 40 & 0xff in
  if (REQ_CAIRN_INIT <=? base) && (base <=? REQ_NS_GRANT) then
    let arg := if base =? REQ_CAIRN_COMMIT then Z.shiftl cairn_ns 12 .| Z.min input_len 0xfff
               else if base =? REQ_CAIRN_ROLLBACK then Z.shiftl cairn_ns 12 .| cairn_steps
               else Z.shiftl cairn_ns 12 in
    if base =? REQ_CAIRN_COMMIT then client_send_meta base sand_intent sand_status_byte arg
    else if (base =? REQ_SFAR_PLAN) || (base =? REQ_SFAR_ROLLBACK) || (base =? REQ_TBAR)
    then client_send_meta base sand_intent 0 arg
    else client_send base arg
  else
    st ← client_send req (sector_or_len req input_len);
    (if req =? REQ_PROLLBACK then client_send REQ_PGET 0 else mret 0) ;;
    mret st.

Definition client_demo : LedM Z :=
  client_send REQ_PROBE 0 ;;
  client_send REQ_BWRITE TEST_SECTOR ;;
  client_send REQ_BREAD TEST_SECTOR ;;
  n ← client_set_input (lit "daemon-ci-value");
  client_send REQ_PSET n ;;
  client_send REQ_PGET 0 ;;
  n ← client_set_input (lit "daemon-bad-edit");
  client_send REQ_PSET n ;;
  client_send REQ_PROLLBACK 0 ;;
  client_send REQ_PGET 0 ;;
  mret 0.
End Client.

(** ** The console's calls (vblk.rs)

    What becomes of one request: the service cannot be started; no address space
    can be built for the client, whose slot reads as a clean exit because its
    exit code was cleared; a device that has stopped answering keeps the daemon
    or the client asleep until the kernel gives up, and what the slot then holds
    (0, or the reply to an earlier request) and what the daemon has done to the
    disk by then is not determined by this request; or the client runs, and its
    send is accepted or not. *)

Inductive ClientFate :=
| NoService
| NotLaunched
| Stalled (status : Z) (found : Led)
| Serves (up : bool).

Section Console.
Variable dev : nat -> Z -> bool -> Page -> option (Z * Page).

Definition TASK_BLOCK_READ : Z := 16.
Definition TASK_BLOCK_WRITE : Z := 32.
Definition CLIENT_CAPS : Z := TASK_PRINT .| TASK_IPC .| TASK_BLOCK_READ .| TASK_BLOCK_WRITE.

(** [run_foreground_processes] on the client, then [foreground_exit_code], once
    the service has a task. *)
Definition run_client (fate : ClientFate) (req input_len caps : Z) : LedM Z :=
  match fate with
  | NoService => mret SYS_DENIED
  | NotLaunched => mret 0
  | Stalled status found => fun _ => Some (status, found)
  | Serves up => client_request dev up FIRST_FOREGROUND_TASK caps input_len req
  end.

Definition run_virtio_client_ns_raw (fate : ClientFate) (req input_len extra_caps : Z) : LedM Z :=
  run_client fate req input_len (CLIENT_CAPS .| extra_caps).

Definition run_registered_virtio_client_ns (fate : ClientFate) (req : Z) (text : list Z) (extra_caps : Z) : LedM Z :=
  input_len ← prepare_virtio_input text; run_virtio_client_ns_raw fate req input_len extra_caps.

Definition run_registered_virtio_client_status (fate : ClientFate) (req : Z) (text : list Z) : LedM Z :=
  match fate with
  | NoService => mret SYS_DENIED
  | _ => input_len ← prepare_virtio_input text; run_client fate req input_len CLIENT_CAPS
  end.

Definition run_registered_virtio_sector_status (fate : ClientFate) (req sector : Z) (input : option (list Z)) : LedM Z :=
  match fate with
  | NoService => mret SYS_DENIED
  | _ =>
    match input with Some bytes => prepare_virtio_input_bytes bytes | None => mret tt end ;;
    run_client fate req sector CLIENT_CAPS
  end.
End Console.

(** A client that could not be launched reads as success: whatever the request, the status is OK and the
    disk is as it was. *)
Theorem an_unlaunched_client_reads_as_success dev req sector input caps s :
  (exists s', run_registered_virtio_sector_status dev NotLaunched req sector input s = Some (IPC_STATUS_OK, s') /\ disk s' = disk s) /\
  run_virtio_client_ns_raw dev NotLaunched req sector caps s = Some (IPC_STATUS_OK, s).
Proof. split; [|done]. by destruct input; eexists. Qed.

(** ** Fields of packed_req words *)

Lemma lor_field a b k m : 0 <= k -> 0 <= m -> fits m b -> Z.shiftl a (k + m) .| Z.shiftl b k = Z.shiftl (a * 2 ^ m + b) k.
Proof.
  intros Hk Hm Hb. apply Z.bits_inj'. intros n Hn. rewrite Z.lor_spec, !Z.shiftl_spec by done.
  destruct (Z.ltb_spec n k) as [Hlt|Hge].
  { rewrite !(Z.testbit_neg_r _ (n - k)), Z.testbit_neg_r by lia. done. }
  rewrite <- Z.shiftl_mul_pow2 by done. replace (Z.shiftl a m + b) with (Z.shiftl a m .| b).
  - rewrite Z.lor_spec, Z.shiftl_spec by lia. by replace (n - k - m) with (n - (k + m)) by lia.
  - rewrite <- (Z.add_lor_land (Z.shiftl a m) b). cut (Z.shiftl a m & b = 0); [lia|].
    apply Z.bits_inj'. intros i Hi. rewrite Z.land_spec, Z.bits_0.
    destruct (Z.ltb_spec i m) as [Hm'|Hm']; [by rewrite Z.shiftl_spec_low by lia|].
    rewrite (fits_testbit_high m b i Hb) by lia. by rewrite andb_false_r.
Qed.

Lemma lor_field0 a b m : 0 <= m -> fits m b -> Z.shiftl a m .| b = a * 2 ^ m + b.
Proof. intros Hm Hb. pose proof (lor_field a b 0 m) as H. rewrite !Z.shiftl_0_r, Z.add_0_l in H. by apply H. Qed.

Lemma mask_mod a k : 0 <= k -> a & Z.ones k = a mod 2 ^ k.
Proof. intros. by apply Z.land_ones. Qed.
Lemma mask8 a : a & 0xff = a mod 256.
Proof. by apply (mask_mod a 8). Qed.
Lemma mask16 a : a & 0xffff = a mod 65536.
Proof. by apply (mask_mod a 16). Qed.
Lemma mask12 a : a & 0xfff = a mod 4096.
Proof. by apply (mask_mod a 12). Qed.
Lemma mask5 a : a & 0x1f = a mod 32.
Proof. by apply (mask_mod a 5). Qed.
Lemma mask4 a : a & 0xf = a mod 16.
Proof. by apply (mask_mod a 4). Qed.
Lemma mask2 a : a & 0x3 = a mod 4.
Proof. by apply (mask_mod a 2). Qed.
Lemma shift_div a k : 0 <= k -> Z.shiftr a k = a / 2 ^ k.
Proof. apply Z.shiftr_div_pow2. Qed.

(** Masks as remainders and shifts as divisions. *)
Ltac fields :=
  rewrite ?mask8, ?mask16, ?mask12, ?mask5, ?mask4, ?mask2; rewrite ?shift_div by lia;
  change (2 ^ 56) with 72057594037927936 in *; change (2 ^ 48) with 281474976710656 in *;
  change (2 ^ 40) with 1099511627776 in *; change (2 ^ 24) with 16777216 in *; change (2 ^ 16) with 65536 in *;
  change (2 ^ 12) with 4096 in *; change (2 ^ 8) with 256 in *; change (2 ^ 5) with 32 in *; change (2 ^ 4) with 16 in *;
  change (2 ^ 2) with 4 in *; Z.to_euclidean_division_equations; lia.

Lemma typed_word_value op id st arg :
  typed_word op id st arg =
    ((((0xd1 * 256 + 1) * 256 + op mod 256) * 65536 + id mod 65536) * 256 + st mod 256) * 65536 + arg mod 65536.
Proof.
  unfold typed_word, IPC_PROTO_V1, IPC_SERVICE_VIRTIO_BLOCK. rewrite !mask8, !mask16. change (1 mod 256) with 1.
  change (Z.shiftl 209 56 .| Z.shiftl 1 48) with (Z.shiftl (209 * 256 + 1) (40 + 8)). rewrite (lor_field _ (op mod 256) 40 8) by (lia || by apply (wrap_fits 8)).
  change (40) with (24 + 16) at 1. rewrite (lor_field _ (id mod 65536) 24 16) by (lia || by apply (wrap_fits 16)).
  change 24 with (16 + 8) at 1. rewrite (lor_field _ (st mod 256) 16 8) by (lia || by apply (wrap_fits 8)).
  by rewrite lor_field0 by (lia || by apply (wrap_fits 16)).
Qed.

Lemma typed_word_fields op id st arg : let w := typed_word op id st arg in
  request_proto w = IPC_PROTO_V1 /\ request_service w = IPC_SERVICE_VIRTIO_BLOCK /\ request_op w = op mod 256 /\
  request_id w = id mod 65536 /\ request_arg w = arg mod 65536 /\ (Z.shiftr w 16 & 0xff) = st mod 256.
Proof.
  cbv zeta. rewrite typed_word_value. unfold request_proto, request_service, request_op, request_id, request_arg,
    IPC_PROTO_V1, IPC_SERVICE_VIRTIO_BLOCK.
  split; [fields|]. split; [fields|]. split; [fields|]. split; [fields|]. split; fields.
Qed.

Lemma response_reply req st : response_status (reply_word req st) = st mod 256.
Proof.
  unfold response_status, reply_word. destruct (typed_word_fields (request_op req) (request_id req) st 0) as (-> & -> & _ & _ & _ & ->).
  done.
Qed.

(** ** What reaches the handlers *)

(** The console's packing, unpacked. *)
Lemma packed_value base ns steps ahd st : fits 8 base -> fits 4 ns -> fits 12 steps -> fits 16 ahd ->
  base .| Z.shiftl ns 8 .| Z.shiftl steps 12 .| Z.shiftl ahd 24 .| Z.shiftl st 40 =
  (((st * 65536 + ahd) * 4096 + steps) * 16 + ns) * 256 + base.
Proof.
  intros Hb Hn Hs Ha. transitivity (Z.shiftl st 40 .| Z.shiftl ahd 24 .| Z.shiftl steps 12 .| Z.shiftl ns 8 .| base).
  { apply Z.bits_inj'. intros i Hi. rewrite !Z.lor_spec. btauto. }
  change 40 with (24 + 16). rewrite lor_field by (lia || done). change 24 with (12 + 12). rewrite lor_field by (lia || done).
  change 12 with (8 + 4) at 2. rewrite lor_field by (lia || done). by rewrite lor_field0 by (lia || done).
Qed.

Lemma packed_fields base ns steps ahd st : fits 8 base -> fits 4 ns -> fits 12 steps -> fits 16 ahd -> fits 8 st ->
  let req := base .| Z.shiftl ns 8 .| Z.shiftl steps 12 .| Z.shiftl ahd 24 .| Z.shiftl st 40 in
  (req & 0xff) = base /\ (Z.shiftr req 8 & 0xf) = ns /\ (Z.shiftr req 12 & 0xfff) = steps /\
  (Z.shiftr req 24 & 0xffff) = ahd /\ (Z.shiftr req 40 & 0xff) = st.
Proof.
  intros Hb Hn Hs Ha Ht. cbv zeta. rewrite packed_value by done. unfold fits in *.
  split; [fields|]. split; [fields|]. split; [fields|]. split; fields.
Qed.

Lemma if_same_arg (b : bool) (a x : Z) : (if b then a .| x else a) = a .| (if b then x else 0).
Proof. destruct b; [done|]. by rewrite Z.lor_0_r. Qed.

Section Arrives.
Context (dev : nat -> Z -> bool -> Page -> option (Z * Page)) (from caps : Z).

(** A Cairn word goes to the Cairn handlers; the reply carries a status byte. *)
Lemma send_reaches op id st arg s : REQ_CAIRN_INIT <= op <= REQ_NS_GRANT ->
  client_send_meta dev true from caps op id st arg s =
    (r ← handle_cairn dev (typed_word op id st arg) from caps; mret (r mod 256)) s.
Proof.
  intros Hop. unfold client_send_meta, daemon_step. cbn [negb].
  destruct (typed_word_fields op id st arg) as (-> & -> & Hw & _). rewrite !Z.eqb_refl. cbn [negb orb].
  rewrite !bind_assoc. unfold REQ_CAIRN_INIT, REQ_NS_GRANT in Hop. rewrite Z.mod_small in Hw by lia.
  assert (Hh : handle dev (typed_word op id st arg) from caps = handle_cairn dev (typed_word op id st arg) from caps).
  { unfold handle. cbv zeta. rewrite Hw.
    assert (Hc : op = 42 \/ op = 43 \/ op = 44 \/ op = 45 \/ op = 46 \/ op = 47 \/ op = 48 \/ op = 49 \/ op = 50 \/ op = 51 \/
      op = 52 \/ op = 53 \/ op = 54 \/ op = 55) by lia.
    repeat destruct Hc as [->|Hc]; [reflexivity..|]. subst op. reflexivity. }
  rewrite Hh. unfold mbind, LedM_bind. destruct (handle_cairn _ _ _ _ s) as [[r s']|]; [|done]. rewrite Hw.
  assert (H7 : (op =? REQ_STOP) = false) by (apply Z.eqb_neq; unfold REQ_STOP; lia).
  assert (H9 : (op =? REQ_FAULT_DEMO) = false) by (apply Z.eqb_neq; unfold REQ_FAULT_DEMO; lia).
  rewrite H7, H9. cbn. by rewrite response_reply.
Qed.

(** The status a Cairn request is answered with, in a byte. *)
Definition in_byte (m : LedM Z) : LedM Z := st ← m; mret (st mod 256).

(** A revocable request in namespace [ns]. *)
Definition gated (ns : Z) (m : LedM Z) : LedM Z :=
  revoked ← cairn_ns_revoked dev ns;
  if (revoked : bool) then mret IPC_STATUS_DENIED else if_allowed ns caps m.

Lemma arg_fields op id st ns aux : fits 4 ns -> fits 12 aux ->
  let w := typed_word op id st (Z.shiftl ns 12 .| aux) in cairn_ns w = ns /\ cairn_aux w = aux.
Proof.
  intros Hn Ha. cbv zeta. unfold cairn_ns, cairn_aux. destruct (typed_word_fields op id st (Z.shiftl ns 12 .| aux)) as (_ & _ & _ & _ & -> & _).
  rewrite lor_field0 by (lia || done). unfold fits in *. split; fields.
Qed.

Lemma sand_fields op id derived rev arg : fits 16 id -> fits 5 derived -> fits 2 rev ->
  let w := typed_word op id (derived .| Z.shiftl rev 5) arg in
  sand_intent w = id /\ sand_derived w = derived /\ sand_revclass w = rev.
Proof.
  intros Hi Hd Hr. cbv zeta. unfold sand_intent, sand_derived, sand_revclass.
  destruct (typed_word_fields op id (derived .| Z.shiftl rev 5) arg) as (_ & _ & _ & -> & _ & ->).
  rewrite Z.lor_comm, lor_field0 by (lia || done). unfold fits in *. split; [fields|]. split; fields.
Qed.

Lemma status_byte_fits derived rev : fits 5 derived -> fits 2 rev -> fits 8 (derived .| Z.shiftl rev 5).
Proof. intros Hd Hr. rewrite Z.lor_comm, lor_field0 by (lia || done). unfold fits in *. fields. Qed.

(** A packed_req request, sent. *)
Definition packed_req (base ns steps ahd st : Z) : Z :=
  base .| Z.shiftl ns 8 .| Z.shiftl steps 12 .| Z.shiftl ahd 24 .| Z.shiftl st 40.
Definition mission_op (base : Z) : bool := (base =? REQ_SFAR_PLAN) || (base =? REQ_SFAR_ROLLBACK) || (base =? REQ_TBAR).
Definition sent_word (input_len base ns steps ahd st : Z) : Z :=
  typed_word base (if (base =? REQ_CAIRN_COMMIT) || mission_op base then ahd else 1)
    (if base =? REQ_CAIRN_COMMIT then st else 0)
    (Z.shiftl ns 12 .| (if base =? REQ_CAIRN_COMMIT then Z.min input_len 0xfff else if base =? REQ_CAIRN_ROLLBACK then steps else 0)).

Lemma ask_sends input_len base ns steps ahd st s :
  REQ_CAIRN_INIT <= base <= REQ_NS_GRANT -> fits 4 ns -> fits 12 steps -> fits 16 ahd -> fits 8 st ->
  client_request dev true from caps input_len (packed_req base ns steps ahd st) s =
    in_byte (handle_cairn dev (sent_word input_len base ns steps ahd st) from caps) s.
Proof.
  intros Hb Hn Hs Ha Ht. assert (Hb8 : fits 8 base) by (unfold REQ_CAIRN_INIT, REQ_NS_GRANT, fits in *; lia).
  destruct (packed_fields base ns steps ahd st Hb8 Hn Hs Ha Ht) as (E1 & E2 & E3 & E4 & E5).
  unfold client_request. fold (packed_req base ns steps ahd st) in *. rewrite E1, E2, E3, E4, E5.
  rewrite (proj2 (Z.leb_le _ _)), (proj2 (Z.leb_le base _)) by apply Hb. cbn [andb]. unfold sent_word, mission_op.
  destruct (base =? REQ_CAIRN_COMMIT) eqn:Hc; cbn [orb]; [by apply send_reaches|].
  change (client_send dev true from caps base) with (client_send_meta dev true from caps base 1 IPC_STATUS_OK).
  rewrite (if_same_arg (base =? REQ_CAIRN_ROLLBACK)).
  destruct ((base =? REQ_SFAR_PLAN) || (base =? REQ_SFAR_ROLLBACK) || (base =? REQ_TBAR)); by apply send_reaches.
Qed.

Lemma cairn_req_packed base ns steps : fits 12 steps -> cairn_req base ns steps = packed_req base ns steps 0 0.
Proof.
  intros Hs. unfold cairn_req, packed_req. rewrite !Z.shiftl_0_l, !Z.lor_0_r. do 2 f_equal. unfold fits in Hs.
  change (2 ^ 12) with 4096 in Hs. lia.
Qed.
Lemma sfar_req_packed base ns ahd : sfar_req base ns ahd = packed_req base ns 0 ahd 0.
Proof. unfold sfar_req. rewrite cairn_req_packed by done. unfold packed_req. by rewrite !Z.shiftl_0_l, !Z.lor_0_r. Qed.
Lemma intent_req_packed base ns ahd derived rev : fits 5 derived -> fits 2 rev ->
  cairn_req_intent base ns ahd derived rev = packed_req base ns 0 ahd (derived .| Z.shiftl rev 5).
Proof.
  intros Hd Hr. unfold cairn_req_intent. cbv zeta. rewrite mask5, mask2, cairn_req_packed by done.
  rewrite !Z.mod_small by (unfold fits in *; lia). unfold packed_req. by rewrite !Z.shiftl_0_l, !Z.lor_0_r.
Qed.

Lemma sent_op op id st arg : fits 8 op -> request_op (typed_word op id st arg) = op.
Proof. intros Hop. destruct (typed_word_fields op id st arg) as (_ & _ & -> & _). unfold fits in Hop. by rewrite Z.mod_small by lia. Qed.

(** A request the console packs runs the ledger operation it names with exactly its namespace, step
    count, value length, intent, derived capabilities and reversibility class, behind the revocation and
    capability checks, and the console gets that operation's status byte: commit, rollback, get, mission
    forecast, mission rollback and provenance. *)
Theorem console_requests_reach_the_ledger input_len ns steps ahd derived rev s :
  0 <= input_len -> fits 4 ns -> fits 12 steps -> fits 16 ahd -> fits 5 derived -> fits 2 rev ->
  let ask := client_request dev true from caps input_len in
  ask (cairn_req_intent REQ_CAIRN_COMMIT ns ahd derived rev) s =
    in_byte (gated ns (cairn_commit dev ns (Z.min input_len 0xfff) from ahd derived rev)) s /\
  ask (cairn_req REQ_CAIRN_ROLLBACK ns steps) s = in_byte (gated ns (cairn_rollback dev ns (Z.max steps 1))) s /\
  ask (cairn_req REQ_CAIRN_GET ns 0) s = in_byte (gated ns (cairn_get dev ns)) s /\
  ask (sfar_req REQ_SFAR_PLAN ns ahd) s = in_byte (sfar_plan dev ahd caps) s /\
  ask (sfar_req REQ_SFAR_ROLLBACK ns ahd) s = in_byte (sfar_rollback dev ahd caps from) s /\
  ask (sfar_req REQ_TBAR ns ahd) s = in_byte (tbar dev ahd caps) s.
Proof.
  intros Hl Hn Hs Ha Hd Hr ask. subst ask. cbv beta. pose proof (status_byte_fits _ _ Hd Hr) as Hst.
  assert (Hlen : fits 12 (Z.min input_len 0xfff)) by (unfold fits; lia). assert (H0 : fits 12 0) by done.
  rewrite intent_req_packed, !sfar_req_packed, !cairn_req_packed by done. rewrite !ask_sends by (done || apply H0).
  split; [|split; [|split]].
  - unfold sent_word. destruct (arg_fields REQ_CAIRN_COMMIT ahd (derived .| Z.shiftl rev 5) ns _ Hn Hlen) as [A1 A2].
    destruct (sand_fields REQ_CAIRN_COMMIT ahd derived rev (Z.shiftl ns 12 .| Z.min input_len 0xfff) Ha Hd Hr) as (S1 & S2 & S3).
    unfold handle_cairn. cbv zeta. rewrite sent_op by done. cbn. by rewrite A1, A2, S1, S2, S3.
  - unfold sent_word. destruct (arg_fields REQ_CAIRN_ROLLBACK 1 0 ns _ Hn Hs) as [B1 B2].
    unfold handle_cairn. cbv zeta. rewrite sent_op by done. cbn. by rewrite B1, B2.
  - unfold sent_word. destruct (arg_fields REQ_CAIRN_GET 1 0 ns _ Hn H0) as [C1 _].
    unfold handle_cairn. cbv zeta. rewrite sent_op by done. cbn. by rewrite C1.
  - assert (Hm : forall op arg, sand_intent (typed_word op ahd 0 arg) = ahd).
    { intros op arg. unfold sand_intent. destruct (typed_word_fields op ahd 0 arg) as (_ & _ & _ & -> & _).
      unfold fits in *. by rewrite Z.mod_small by lia. }
    unfold sent_word. split; [|split]; unfold handle_cairn; cbv zeta; rewrite sent_op by done; cbn; by rewrite Hm.
Qed.
End Arrives.

(** At a concrete commit: mission 7, class compensatable, in the agent namespace. *)
Lemma console_requests_reach_the_ledger_witness :
  let dev := fun _ _ _ _ => None in let zeros := fun _ => 0 in let s := mkLed (fun _ => zeros) zeros zeros 0 [] in
  client_request dev true 1 (Z.shiftl 1 12) 9 (cairn_req_intent REQ_CAIRN_COMMIT 4 7 24 1) s =
    in_byte (gated dev (Z.shiftl 1 12) 4 (cairn_commit dev 4 9 1 7 24 1)) s.
Proof.
  intros dev zeros s.
  destruct (console_requests_reach_the_ledger dev 1 (Z.shiftl 1 12) 9 4 0 7 24 1 s) as [H _]; [lia|done..|]. exact H.
Defined.
