(* ===== verification/LedgerSafe.v ===== *)
(** * Every Cairn request is safe

    Each handler of [Ledger] terminates from any sound state, leaves a sound
    store and continues its history. *)

From Stdlib Require Import ZArith Lia.
From stdpp Require Import base option numbers list.
From S2P Require Import Prelude Text Cairn Ledger LedgerInv.

Section Handlers.
Context {dev : nat -> Z -> bool -> Page -> option (Z * Page)} `{HD : DevOk dev}.

(** ** Reading *)

Lemma keeps_bad_record s st : sane s ->
  keeps s (bad_record st) (fun bad s' => s' = s /\ (bad = false -> st = 0 /\ magic_at (data s) 0 CAIRN_MAGIC = true)).
Proof.
  intros Hs. unfold bad_record. destruct (Z.eqb_spec st 0) as [->|Hst]; cbn [negb].
  - exists (negb (magic_at (data s) 0 CAIRN_MAGIC)), s. rewrite bind_starts_with. split; [done|].
    split; [done|]. split; [done|]. split; [done|]. intros Hb. by apply negb_false_iff in Hb.
  - apply keeps_ret; [done|]. by split.
Qed.

(** Reading a record either fails or puts a copy of it in the window. *)
Lemma read_record {B} s cur (f : bool -> LedM B) Q : sane s ->
  (forall s', sane s' -> disk s' = disk s -> keeps s' (f true) Q) ->
  (forall s', sane s' -> disk s' = disk s -> agrees (data s') (disk s (commit_sector cur)) -> keeps s' (f false) Q) ->
  keeps s (st ← rw dev (commit_sector cur) false; bad ← bad_record st; f bad) Q.
Proof.
  intros Hs Ht Hf. eapply keeps_bind; [by apply rw_read|]. cbn. intros st s1 Hs1 Hd1 [_ Ha].
  eapply keeps_bind; [by apply keeps_bad_record|]. cbn. intros bad s2 _ _ [-> Hb].
  destruct bad; [by apply Ht|]. apply Hf; [done|done|]. by apply Ha, Hb.
Qed.

Lemma show_chain_reads n ns cur s : sane s -> keeps s (show_chain dev n ns cur) (fun _ _ => True).
Proof.
  revert cur s. induction n as [|n IH]; intros cur s Hs; cbn [show_chain]; [by apply keeps_ret|].
  destruct (cur =? NONE); [by apply keeps_ret|]. apply read_record; [done|intros; by apply keeps_ret|].
  intros s1 Hs1 _ _. apply keeps_read_u32. eapply keeps_bind; [by apply keeps_say|]. intros. by apply IH.
Qed.

Lemma walk_live_reads {A} n cur (f : Z -> Page -> A -> A) acc s : sane s ->
  keeps s (walk_live dev n cur f acc) (fun _ _ => True).
Proof.
  revert cur acc s. induction n as [|n IH]; intros cur acc s Hs; cbn [walk_live]; [by apply keeps_ret|].
  destruct (cur =? NONE); [by apply keeps_ret|]. apply read_record; [done|intros; by apply keeps_ret|].
  intros s1 Hs1 _ _. apply keeps_get_data. by apply IH.
Qed.

Lemma for_each_reads {A} l (f : Z -> A -> LedM A) a s : (forall x a s, sane s -> keeps s (f x a) (fun _ _ => True)) ->
  sane s -> keeps s (for_each l f a) (fun _ _ => True).
Proof.
  intros Hf. revert a s. induction l as [|x l IH]; intros a s Hs; cbn [for_each]; [by apply keeps_ret|].
  eapply keeps_bind; [by apply Hf|]. intros. by apply IH.
Qed.

Lemma walk_ns_reads {A} heads (f : Z -> Z -> Page -> A -> A) acc s : sane s ->
  keeps s (walk_ns dev heads f acc) (fun _ _ => True).
Proof. intros Hs. apply for_each_reads; [|done]. intros. by apply walk_live_reads. Qed.

Lemma touched_reads ahd heads s : sane s -> keeps s (sfar_touched_ns dev ahd heads) (fun _ _ => True).
Proof. intros Hs. unfold sfar_touched_ns. by apply walk_ns_reads. Qed.

Lemma sfar_authorized_reads touched caps s : sane s -> keeps s (sfar_authorized touched caps) (fun _ _ => True).
Proof.
  intros Hs. apply for_each_reads; [|done]. intros x a s' Hs'. destruct (missing_ns _ _ _); [|by apply keeps_ret].
  eapply keeps_bind; [by apply keeps_say|]. intros. by apply keeps_ret.
Qed.

(** Walking back along parents keeps the ref below [n]. *)
Lemma walk_back_spec k n cur walked s : sane s -> records_ok (disk s) n -> ref_ok n cur -> 0 <= walked ->
  keeps s (walk_back dev k cur walked) (fun r _ =>
    match r with Some (c, w) => ref_ok n c /\ 0 <= w | None => True end).
Proof.
  revert cur walked s. induction k as [|k IH]; intros cur walked s Hs Hr Hc Hw; cbn [walk_back];
    [by apply keeps_ret|].
  destruct (Z.eqb_spec cur NONE) as [|Hne]; [by apply keeps_ret|].
  apply read_record; [done|intros; by apply keeps_ret|]. intros s1 Hs1 Hd1 Ha. apply keeps_read_u32.
  destruct Hc as [?|Hc]; [done|]. apply IH; [done|by rewrite Hd1| |lia].
  eapply ref_ok_mono, (record_parent _ _ _ _ Hr Hc Ha). lia.
Qed.

(** ** The requests that only look *)

Ltac load_super := apply with_super; [assumption|assumption| |by intros; apply safe_at_ret].

Lemma ns_revoked_safe s ns : sane s -> ledger_ok (disk s) -> safe_at s (cairn_ns_revoked dev ns).
Proof.
  intros Hs Hok. unfold cairn_ns_revoked. load_super. intros s1 n Hr _ _. cbn [negb].
  eapply keeps_safe; [|by eapply ready_ledger]. apply keeps_read_u32, keeps_ret; [apply Hr|done].
Qed.

Lemma log_safe s ns : sane s -> ledger_ok (disk s) -> safe_at s (cairn_log dev ns).
Proof.
  intros Hs Hok. unfold cairn_log. load_super. intros s1 n Hr _ _. cbn [negb].
  eapply keeps_safe; [|by eapply ready_ledger]. apply keeps_read_u32.
  destruct (_ =? NONE); [apply keeps_ret; [apply Hr|done]|]. apply show_chain_reads, Hr.
Qed.

Lemma load_head_safe {A} s ns (k : option Z -> LedM A) : sane s -> ledger_ok (disk s) ->
  (forall r s, sane s -> ledger_ok (disk s) -> safe_at s (k r)) ->
  safe_at s (cairn_load_head dev ns ≫= k).
Proof.
  intros Hs Hok Hk. unfold cairn_load_head.
  destruct (load_super_spec s Hs Hok) as (ok & s1 & E & []).
  assert (Hkeep : keeps s1 (if negb ok then mret None else
    head ← d_read_u32 (cairn_ns_entry_off ns + 16);
    if head =? NONE then mret (Some NONE) else
    st ← rw dev (commit_sector head) false; bad ← bad_record st;
    if (bad : bool) then mret None else mret (Some head)) (fun _ _ => True)).
  { destruct ok; cbn [negb]; [|by apply keeps_ret]. apply keeps_read_u32.
    destruct (_ =? NONE); [by apply keeps_ret|]. apply read_record; [done|intros; by apply keeps_ret|intros; by apply keeps_ret]. }
  destruct Hkeep as (r & s2 & E2 & Hs2 & Hd2 & _).
  destruct (Hk r s2 Hs2) as (a & s3 & E3 & ? & ? & Hg); [by rewrite Hd2|].
  exists a, s3. rewrite bind_assoc, (bind_eq _ _ _ _ _ E). cbn beta.
  rewrite (bind_eq _ _ _ _ _ E2). split; [done|]. split; [done|]. split; [done|].
  rewrite Hd2 in Hg. by etrans.
Qed.

Lemma info_safe s ns : sane s -> ledger_ok (disk s) -> safe_at s (sand_info dev ns).
Proof.
  intros Hs Hok. apply load_head_safe; [done|done|]. intros [h|] s1 Hs1 Hok1; [|by apply safe_at_ret].
  destruct (h =? NONE); [by apply safe_at_ret|].
  eapply safe_bind_keeps; [by apply keeps_say|]. intros _ s2 Hs2 Hd2 _. apply safe_at_ret; [done|by rewrite Hd2].
Qed.

Lemma page_ok_move n i d : page_ok d -> page_ok (move_front n i d).
Proof. revert i d. induction n as [|n IH]; intros i d Hd; cbn [move_front]; [done|]. apply IH, page_ok_wr; [done|apply Hd]. Qed.

Lemma get_safe s ns : sane s -> ledger_ok (disk s) -> safe_at s (cairn_get dev ns).
Proof.
  intros Hs Hok. apply load_head_safe; [done|done|]. intros [h|] s1 Hs1 Hok1; [|by apply safe_at_ret].
  destruct (h =? NONE); [by apply safe_at_ret|]. eapply keeps_safe; [|done].
  apply keeps_read_u32, keeps_get_data. eapply keeps_bind; [apply keeps_put_data; [done|]|intros; by apply keeps_ret].
  intros o. unfold clear_from. destruct (_ && _); [done|]. apply page_ok_move, Hs1.
Qed.

Lemma verify_safe s ns : sane s -> ledger_ok (disk s) -> safe_at s (cairn_verify dev ns).
Proof.
  intros Hs Hok. apply load_head_safe; [done|done|]. intros [h|] s1 Hs1 Hok1; [|by apply safe_at_ret].
  destruct (h =? NONE); by apply safe_at_ret.
Qed.

Lemma status_safe s : sane s -> ledger_ok (disk s) -> safe_at s (cairn_status dev).
Proof.
  intros Hs Hok. unfold cairn_status. load_super. intros s1 n Hr _ _. apply safe_at_ret; [apply Hr|by eapply ready_ledger].
Qed.

Lemma plan_safe s ahd caps : sane s -> ledger_ok (disk s) -> safe_at s (sfar_plan dev ahd caps).
Proof.
  intros Hs Hok. unfold sfar_plan. destruct (ahd =? 0); [by apply safe_at_ret|].
  load_super. intros s1 n Hr _ _. cbn [negb]. eapply keeps_safe; [|by eapply ready_ledger].
  apply keeps_entries. eapply keeps_bind; [apply touched_reads, Hr|]. intros touched s2 Hs2 _ _.
  eapply keeps_bind with (R := fun _ _ => True).
  { destruct (touched =? 0); [by apply keeps_ret|by apply sfar_authorized_reads]. }
  intros [] s3 Hs3 _ _; cbn [negb]; [|by apply keeps_ret].
  eapply keeps_bind; [by apply walk_ns_reads|]. intros [[[r c] i] u] s4 Hs4 _ _.
  destruct (_ =? 0); [by apply keeps_ret|]. eapply keeps_bind; [by apply keeps_say|]. intros. by apply keeps_ret.
Qed.

Lemma say_all_reads l s m : keeps s m (fun _ _ => True) ->
  keeps s (fold_left (fun m n => m ;; say n) l m) (fun _ _ => True).
Proof.
  revert m. induction l as [|x l IH]; intros m Hm; cbn [fold_left]; [done|]. apply IH.
  eapply keeps_bind; [done|]. intros. eapply keeps_weaken; [by apply keeps_say|done].
Qed.

Lemma tbar_safe s ahd caps : sane s -> ledger_ok (disk s) -> safe_at s (tbar dev ahd caps).
Proof.
  intros Hs Hok. unfold tbar. destruct (ahd =? 0); [by apply safe_at_ret|].
  load_super. intros s1 n Hr _ _. cbn [negb]. eapply keeps_safe; [|by eapply ready_ledger].
  apply keeps_entries. eapply keeps_bind; [apply touched_reads, Hr|]. intros touched s2 Hs2 _ _.
  destruct (touched =? 0); [by apply keeps_ret|].
  eapply keeps_bind; [by apply sfar_authorized_reads|]. intros [] s3 Hs3 _ _; cbn [negb]; [|by apply keeps_ret].
  eapply keeps_bind; [by apply walk_ns_reads|]. intros l s4 Hs4 _ _.
  eapply keeps_bind; [apply say_all_reads; by apply keeps_ret|]. intros. by apply keeps_ret.
Qed.

(** ** Revocation *)

Lemma ready_data s n : ready s n -> super_body n (data s) /\ next_of (data s) = n /\
  next_of (disk s CAIRN1_SUPER_SECTOR) = n.
Proof.
  intros [Hs Hf Ha Hn Hsup Hrec]. split; [eapply body_agrees, body_of_super; done|].
  destruct Hsup as (_ & Hnx & _). split; [|done]. unfold next_of in *. by rewrite (agrees_u32 _ _ _ Ha).
Qed.

(** The end of every handler that changes the superblock. *)
Lemma finish_super {A} s n (k : Z -> LedM A) :
  sane s -> formatted (disk s) -> next_of (disk s CAIRN1_SUPER_SECTOR) <= n -> ledger_ok (disk s) ->
  0 <= n <= COMMIT_SLOTS -> super_body n (data s) -> next_of (data s) = n -> records_ok (disk s) n ->
  (forall st s', sane s' -> keeps s' (k st) (fun _ _ => True)) ->
  safe_at s (rw dev CAIRN1_SUPER_SECTOR true ≫= k).
Proof.
  intros Hs Hf Hle Hok Hn Hb Hnx Hr Hk.
  destruct (super_write s n Hs Hf Hle Hok Hn Hb Hnx Hr) as (st & s' & E & Hs' & _ & Hok' & Hg & _).
  destruct (Hk st s' Hs') as (a & s2 & E2 & Hs2 & Hd2 & _). exists a, s2.
  rewrite (bind_eq _ _ _ _ _ E), Hd2. done.
Qed.

Lemma set_revoked_safe s ns b : sane s -> ledger_ok (disk s) -> 0 <= ns -> safe_at s (cairn_ns_set_revoked dev ns b).
Proof.
  intros Hs Hok Hns. unfold cairn_ns_set_revoked. destruct (Z.leb_spec CAIRN1_NS_MAX ns); [by apply safe_at_ret|].
  load_super. intros s1 n Hr _ _. cbn [negb]. destruct (ready_data _ _ Hr) as (Hb & Hn & Hn').
  eapply safe_bind_keeps; [apply keeps_d_write_u32, Hr|]. cbn beta. intros _ s2 Hs2 Hd2 [Hdt _].
  destruct Hr as [_ Hf _ Hn0 Hsup Hrec].
  apply finish_super with (n := n); rewrite ?Hd2, ?Hdt; try done; [lia| | | |].
  - by intros _; exists n.
  - apply body_put_revoked; [done|lia].
  - rewrite next_put_entry; [done|lia|done].
  - intros. by apply keeps_ret.
Qed.

(** ** Commit *)

Lemma entry_fits s n ns : ready s n -> 0 <= ns < CAIRN1_NS_MAX ->
  ref_ok n (head_of (data s) ns) /\ 0 <= count_of (data s) ns <= n.
Proof.
  intros Hr Hns. destruct (ready_data _ _ Hr) as ([_ He] & _ & _). destruct (He ns Hns) as [Hh Hc].
  split; [done|]. split; [|done]. apply page_u32_fits, Hr.
Qed.

(** The record [cairn_commit] lays down. *)
Lemma record_page_ok h p v len : page_ok p -> header_ok h ->
  magic_at (copy_window v 0 (encode h p) VALUE_OFF len) 0 CAIRN_MAGIC = true /\
  get_u32 (copy_window v 0 (encode h p) VALUE_OFF len) 8 = parent h.
Proof.
  intros Hp Hh. set (q := copy_window v 0 (encode h p) VALUE_OFF len).
  assert (Hq : forall o, o < VALUE_OFF -> q o = encode h p o).
  { intros o Ho. unfold q, copy_window. by rewrite (proj2 (Z.leb_gt VALUE_OFF o)). }
  split.
  - rewrite <- (encode_magic h p). apply magic_ext. intros o Ho. apply Hq. change (zlen CAIRN_MAGIC) with 4 in Ho.
    unfold VALUE_OFF. lia.
  - rewrite (get_u32_ext q (encode h p)) by (intros; apply Hq; unfold VALUE_OFF; lia).
    pose proof (decode_encode h p Hh) as Hd. unfold decode in Hd. rewrite encode_magic in Hd. cbn [negb] in Hd.
    by apply (f_equal (fun o => match o with Some h => parent h | None => 0 end)) in Hd.
Qed.

Lemma fnv_fits pg off len : fits 64 (fnv64 pg off len).
Proof.
  unfold fnv64. generalize (Z.to_nat len) as k. intros k. assert (H : fits 64 0xcbf29ce484222325) by done.
  revert off H. generalize 0xcbf29ce484222325 as h. induction k as [|k IH]; intros h off Hh; cbn [fnv_loop]; [done|].
  apply IH. by apply wrap_fits.
Qed.

(** Storing the record and moving the refs. *)
Lemma commit_finish s n head ns count : sane s -> formatted (disk s) -> ledger_ok (disk s) ->
  0 <= n < COMMIT_SLOTS -> next_of (disk s CAIRN1_SUPER_SECTOR) = n -> records_ok (disk s) n ->
  ref_ok n head -> 0 <= count <= n -> 0 <= ns < CAIRN1_NS_MAX ->
  magic_at (data s) 0 CAIRN_MAGIC = true -> get_u32 (data s) 8 = head ->
  safe_at s (st ← rw dev (commit_sector n) true;
    if negb (st =? 0) then mret IPC_STATUS_IO_FAILURE else
    ok ← cairn_load_super dev;
    if negb ok then mret IPC_STATUS_IO_FAILURE else
    d_write_u32 8 (n + 1) ;;
    d_write_u32 (cairn_ns_entry_off ns + 16) n ;;
    d_write_u32 (cairn_ns_entry_off ns + 20) (count + 1) ;;
    st ← rw dev CAIRN1_SUPER_SECTOR true;
    if negb (st =? 0) then mret IPC_STATUS_IO_FAILURE else mret IPC_STATUS_OK).
Proof.
  intros Hs Hf Hok Hn Hnx Hrec Hh Hc Hns Hm Hp.
  destruct (record_write s n Hs Hf Hok Hn) as (st & s1 & E & Hs1 & _ & Hok1 & Hf1 & Hg1 & Hne & Hz); [lia|].
  assert (Hmain : safe_at s1 (if negb (st =? 0) then mret IPC_STATUS_IO_FAILURE else
    ok ← cairn_load_super dev;
    if negb ok then mret IPC_STATUS_IO_FAILURE else
    d_write_u32 8 (n + 1) ;;
    d_write_u32 (cairn_ns_entry_off ns + 16) n ;;
    d_write_u32 (cairn_ns_entry_off ns + 20) (count + 1) ;;
    st ← rw dev CAIRN1_SUPER_SECTOR true;
    if negb (st =? 0) then mret IPC_STATUS_IO_FAILURE else mret IPC_STATUS_OK)).
  2: { destruct Hmain as (a & s2 & E2 & ? & ? & Hg2). exists a, s2. rewrite (bind_eq _ _ _ _ _ E).
    split; [done|]. split; [done|]. split; [done|]. by etrans. }
  destruct (Z.eqb_spec st 0) as [->|]; cbn [negb]; [|by apply safe_at_ret].
  apply with_super; [done|done| |by intros; apply safe_at_ret]. intros s2 n2 Hr _ Hkept. cbn [negb].
  specialize (Hkept Hf1). destruct (ready_data _ _ Hr) as (Hb & Hn2 & Hn2').
  assert (n2 = n) as ->.
  { rewrite <- Hn2', Hkept, Hne; [done|]. pose proof (commit_not_super n). unfold CAIRN1_SUPER_SECTOR in *. lia. }
  eapply safe_bind_keeps; [apply keeps_d_write_u32, Hr|]. cbn beta. intros _ s3 Hs3 Hd3 [Hdt3 _].
  eapply safe_bind_keeps; [by apply keeps_d_write_u32|]. cbn beta. intros _ s4 Hs4 Hd4 [Hdt4 _].
  eapply safe_bind_keeps; [by apply keeps_d_write_u32|]. cbn beta. intros _ s5 Hs5 Hd5 [Hdt5 _].
  assert (Hdk : disk s5 = disk s1) by congruence. rewrite Hdt3 in Hdt4. rewrite Hdt4 in Hdt5.
  assert (Hrec1 : records_ok (disk s1) (n + 1)).
  { intros slot Hlt. destruct (decide (slot = n)) as [->|Hsn].
    - unfold rec_ok. rewrite Hz by done. split; [done|]. by rewrite Hp.
    - eapply rec_ok_ext, (Hrec slot); [|lia]. apply Hne. unfold commit_sector. lia. }
  apply finish_super with (n := n + 1); rewrite ?Hdk, ?Hdt5; try done.
  - rewrite <- Hkept, Hn2'. lia.
  - unfold COMMIT_SLOTS in *. lia.
  - apply body_put_count; [|done|lia|unfold fits, COMMIT_SLOTS in *; lia].
    apply body_put_head; [|done|right; lia|unfold fits, COMMIT_SLOTS in *; lia].
    apply body_put_next. eapply body_mono, Hb. lia.
  - rewrite !next_put_entry by lia. unfold next_of. rewrite get_put_u32; [done|]. unfold fits, COMMIT_SLOTS in *. lia.
  - intros st' s' Hs'. by destruct (negb _); apply keeps_ret.
Qed.

Lemma commit_safe s ns len from intent derived rev : sane s -> ledger_ok (disk s) -> 0 <= ns < CAIRN1_NS_MAX ->
  fits 32 intent -> fits 32 derived -> fits 8 rev ->
  safe_at s (cairn_commit dev ns len from intent derived rev).
Proof.
  intros Hs Hok Hns Hin Hde Hrv. unfold cairn_commit. load_super. intros s1 n Hr Hi1 _. cbn [negb].
  destruct (ready_data _ _ Hr) as (Hb & Hnx & Hnx'). destruct (entry_fits _ _ _ Hr Hns) as [Hhead Hcount].
  apply safe_read_u32. fold (next_of (data s1)). rewrite Hnx.
  destruct (Z.leb_spec COMMIT_SLOTS n) as [|Hlt]; [apply safe_at_ret; [apply Hr|by eapply ready_ledger]|].
  apply safe_read_u32, safe_read_u32. fold (head_of (data s1) ns) (count_of (data s1) ns).
  set (head := head_of (data s1) ns) in *. set (count := count_of (data s1) ns) in *.
  apply safe_get_input. set (len' := Z.min len (CAIRN1_VALUE_MAX - 1)).
  eapply safe_bind_keeps; [apply keeps_get_data, keeps_put_data; [apply Hr|apply page_ok_zero, Hr]|].
  cbn beta. intros _ s2 Hs2 Hd2 [Hdt2 _]. apply safe_get_data.
  set (h := mkHeader n head (wrap 32 ns) (fnv64 (input s1) 0 len') (wrap 32 from) 1 (wrap 32 len') intent derived rev
              STATUS_COMMITTED (wrap 16 (count + 1))).
  assert (Hh : header_ok h).
  { split; cbn; try done; try (apply wrap_fits; lia); try apply fnv_fits.
    - unfold fits, COMMIT_SLOTS in *. lia.
    - eapply ref_ok_fits, Hhead. lia. }
  assert (Hp : page_ok (copy_window (input s1) 0 (encode h (data s2)) VALUE_OFF len')).
  { apply page_ok_copy; [apply Hr|]. apply page_ok_encode; [apply Hs2|done|done]. }
  eapply safe_bind_keeps; [by apply keeps_put_data|]. cbn beta. intros _ s3 Hs3 Hd3 [Hdt3 _].
  destruct (record_page_ok h (data s2) (input s1) len' (sane_data _ Hs2) Hh) as [Hmagic Hpar].
  rewrite <- Hdt3 in Hmagic, Hpar. rewrite Hd2 in Hd3. change (parent h) with head in Hpar. clearbody h.
  destruct Hr as [Hsr Hf Ha Hn0 Hsup Hrec].
  apply commit_finish with (head := head); try done; rewrite ?Hd3; try done; try lia.
  by intros _; exists n.
Qed.

(** ** Rollback of one namespace *)

Lemma rollback_safe s ns steps : sane s -> ledger_ok (disk s) -> 0 <= ns < CAIRN1_NS_MAX ->
  safe_at s (cairn_rollback dev ns steps).
Proof.
  intros Hs Hok Hns. unfold cairn_rollback. load_super. intros s1 n Hr _ _. cbn [negb].
  destruct (entry_fits _ _ _ Hr Hns) as [Hhead Hcount]. destruct (ready_data _ _ Hr) as (_ & _ & Hnx).
  apply safe_read_u32, safe_read_u32. fold (head_of (data s1) ns) (count_of (data s1) ns).
  destruct (_ =? NONE); [apply safe_at_ret; [apply Hr|by eapply ready_ledger]|].
  eapply safe_bind_keeps; [apply (walk_back_spec _ n); [apply Hr|apply Hr|done|lia]|]. cbn beta.
  intros [[cur walked]|] s2 Hs2 Hd2 Hw; [|apply safe_at_ret; [done|]; rewrite Hd2; by eapply ready_ledger].
  destruct Hw as [Hcur Hw]. destruct Hr as [Hsr Hf Ha Hn0 Hsup Hrec].
  assert (Hok2 : ledger_ok (disk s2)) by (rewrite Hd2; by intros _; exists n).
  apply with_super; [done|done| |by intros; apply safe_at_ret]. intros s3 n3 Hr3 _ Hkept. cbn [negb].
  rewrite Hd2 in Hkept. specialize (Hkept Hf). destruct (ready_data _ _ Hr3) as (Hb & Hn3 & Hn3').
  assert (n3 = n) as -> by (by rewrite <- Hn3', Hkept).
  eapply safe_bind_keeps; [apply keeps_d_write_u32, Hr3|]. cbn beta. intros _ s4 Hs4 Hd4 [Hdt4 _].
  eapply safe_bind_keeps; [by apply keeps_d_write_u32|]. cbn beta. intros _ s5 Hs5 Hd5 [Hdt5 _].
  assert (Hdk : disk s5 = disk s1) by congruence. rewrite Hdt4 in Hdt5.
  assert (Hww : 0 <= wrap 32 walked) by (apply wrap_fits; lia).
  apply finish_super with (n := n); rewrite ?Hdk, ?Hdt5; try done; [lia|by intros _; exists n| | |].
  - apply body_put_count; [|done|unfold saturating_sub; lia|unfold saturating_sub, fits, COMMIT_SLOTS in *; lia].
    apply body_put_head; [done|done|done|]. eapply ref_ok_fits, Hcur. lia.
  - rewrite !next_put_entry by lia. done.
  - intros st' s' Hs'. by apply keeps_ret.
Qed.

(** ** Mission rollback *)

(** What holds while records are being appended: the superblock of [d0] stays,
    its records too, and every slot below [free] is a sound record. *)
Record staging (d0 : disk_t) (n : Z) (d : disk_t) (free : Z) : Prop := {
  g_ledger : ledger_ok d;
  g_grows : grows d0 d;
  g_super : d CAIRN1_SUPER_SECTOR = d0 CAIRN1_SUPER_SECTOR;
  g_free : n <= free <= COMMIT_SLOTS;
  g_recs : records_ok d free }.

(** The staged result of one namespace that started with [free] slots used. *)
Record stage_ok (n free : Z) (g : Stage) : Prop := {
  sg_head : ref_ok (st_free g) (st_head g);
  sg_undone : 0 <= st_undone g;
  sg_appended : 0 <= st_appended g;
  sg_free : st_free g = free + st_appended g }.

Definition append_page (slot parent ns : Z) (value : list Z) (actor intent derived status generation : Z) (d : Page) : Page :=
  let len := Z.min (zlen value) (CAIRN1_VALUE_MAX - 1) in
  let d := zero_page d in
  let d := copy_window (list_page CAIRN_MAGIC) 0 (zero_page d) 0 (Z.min (zlen CAIRN_MAGIC) (SECTOR_SIZE - 1)) in
  let d := put_u32 d 4 slot in
  let d := put_u32 d 8 parent in
  let d := put_u32 d 12 (wrap 32 ns) in
  let h := fnv64 (list_page value) 0 len in
  let d := put_u32 (put_u32 d 16 (wrap 32 h)) (16 + 4) (wrap 32 (Z.shiftr h 32)) in
  let d := put_u32 d 24 actor in
  let d := put_u32 d 28 1 in
  let d := put_u32 d 32 (wrap 32 len) in
  let d := put_u32 d OFF_INTENT intent in
  let d := put_u32 d OFF_DERIVED derived in
  let d := wr d OFF_REVCLASS REV_REVERSIBLE in
  let d := wr d OFF_STATUS status in
  let d := wr d OFF_GEN (wrap 8 generation) in
  let d := wr d (OFF_GEN + 1) (wrap 8 (Z.shiftr generation 8)) in
  copy_window (list_page value) 0 d VALUE_OFF len.

Lemma append_run slot parent ns value actor intent derived status generation s :
  append_commit_raw dev slot parent ns value actor intent derived status generation s =
  (st ← rw dev (commit_sector slot) true; mret (st =? 0))
    (mkLed (disk s) (append_page slot parent ns value actor intent derived status generation (data s))
       (input s) (tick s) (notes s)).
Proof. reflexivity. Qed.

Lemma put_ext (p q : Page) off v : (forall o, p o = q o) -> forall o, put_u32 p off v o = put_u32 q off v o.
Proof.
  intros He o. change (rd (put_u32 p off v) o = rd (put_u32 q off v) o). rewrite !rd_put_u32. cbn [rd page_store].
  by rewrite He.
Qed.
Lemma wr_ext (p q : Page) off b : (forall o, p o = q o) -> forall o, wr p off b o = wr q off b o.
Proof. intros He o. cbn. by rewrite He. Qed.
Lemma copy_ext src soff (p q : Page) doff n : (forall o, p o = q o) ->
  forall o, copy_window src soff p doff n o = copy_window src soff q doff n o.
Proof. intros He o. unfold copy_window. by rewrite He. Qed.

(** The open-coded record of [append_commit_raw] is what [encode] writes. *)
Lemma append_is_encode sl par k value act int der stt g d o :
  append_page sl par k value act int der stt g d o =
  let len := Z.min (zlen value) (CAIRN1_VALUE_MAX - 1) in
  copy_window (list_page value) 0
    (encode (mkHeader sl par (wrap 32 k) (fnv64 (list_page value) 0 len) act 1 (wrap 32 len) int der
               REV_REVERSIBLE stt g) (zero_page d)) VALUE_OFF len o.
Proof.
  cbv zeta. apply copy_ext. clear o. unfold encode. cbn [slot parent ns hash actor flags len intent derived rev_class status gen].
  do 4 apply wr_ext. do 10 apply put_ext. intros o.
  change (copy_window (list_page CAIRN_MAGIC) 0 (zero_page (zero_page d)) 0 4 o = rd (put_list (zero_page d) 0 CAIRN_MAGIC) o).
  rewrite rd_put_list. unfold copy_window, list_page. cbn [rd page_store].
  assert (Hz : zero_page (zero_page d) o = zero_page d o) by (unfold zero_page; by destruct (in_sector o)).
  destruct (Z.leb_spec 0 o); cbn [andb]; [|done]. rewrite Z.sub_0_r, !Z.add_0_l.
  destruct (Z.ltb_spec o 4).
  - destruct (lookup_lt_is_Some_2 CAIRN_MAGIC (Z.to_nat o)) as [b ->]; [cbn; lia|done].
  - rewrite lookup_ge_None_2 by (cbn; lia). done.
Qed.

Lemma append_page_ok sl par k value act int der stt g d : page_ok d -> bytes_ok value -> fits 8 stt ->
  page_ok (append_page sl par k value act int der stt g d).
Proof.
  intros Hd Hv Hst o. rewrite append_is_encode. cbv zeta. apply page_ok_copy; [by apply page_ok_list|].
  apply page_ok_encode; [by apply page_ok_zero|done|done].
Qed.

Lemma append_page_record sl par k value act int der stt g d : page_ok d -> fits 32 sl -> fits 32 par ->
  fits 32 act -> fits 32 int -> fits 32 der -> fits 8 stt -> fits 16 g ->
  magic_at (append_page sl par k value act int der stt g d) 0 CAIRN_MAGIC = true /\
  get_u32 (append_page sl par k value act int der stt g d) 8 = par.
Proof.
  intros Hd ???????. set (len := Z.min (zlen value) (CAIRN1_VALUE_MAX - 1)).
  set (h := mkHeader sl par (wrap 32 k) (fnv64 (list_page value) 0 len) act 1 (wrap 32 len) int der REV_REVERSIBLE stt g).
  assert (Hh : header_ok h) by (split; try done; try (apply wrap_fits; lia); apply fnv_fits).
  destruct (record_page_ok h (zero_page d) (list_page value) len (page_ok_zero _ Hd) Hh) as [Hm Hp].
  change (parent h) with par in Hp. split; (etrans; [|first [exact Hm|exact Hp]]).
  - apply magic_ext. intros o _. exact (append_is_encode sl par k value act int der stt g d o).
  - apply get_u32_ext. intros i _. exact (append_is_encode sl par k value act int der stt g d (8 + i)).
Qed.

Lemma staging_append s d0 n free sl_par k value act int der stt g : sane s -> formatted d0 -> 0 <= n ->
  next_of (d0 CAIRN1_SUPER_SECTOR) = n ->
  staging d0 n (disk s) free -> free < COMMIT_SLOTS -> 0 <= sl_par < free ->
  bytes_ok value -> fits 32 act -> fits 32 int -> fits 32 der -> fits 8 stt -> fits 16 g ->
  exists ok s', append_commit_raw dev free sl_par k value act int der stt g s = Some (ok, s') /\ sane s' /\
    staging d0 n (disk s') (if ok then free + 1 else free).
Proof.
  intros Hs Hf0 Hn0 Hnx [Hok Hg Hsup Hfree Hrec] Hlt Hpar Hv Ha Hi Hd Hst Hgen.
  set (pg := append_page free sl_par k value act int der stt g (data s)).
  set (s1 := mkLed (disk s) pg (input s) (tick s) (notes s)).
  assert (Hs1 : sane s1) by (split; cbn; [apply Hs|apply append_page_ok; [apply Hs|done|done]|apply Hs]).
  assert (Hf : formatted (disk s1)) by (unfold formatted; cbn; by rewrite Hsup).
  destruct (record_write s1 free Hs1 Hf Hok) as (st & s2 & E & Hs2 & _ & Hok2 & Hf2 & Hg2 & Hne & Hz);
    [lia|cbn [s1 disk]; rewrite Hsup, Hnx; lia|].
  exists (st =? 0), s2. rewrite append_run. fold pg. fold s1. rewrite (bind_eq _ _ _ _ _ E). split; [done|].
  split; [done|].
  assert (Hsup2 : disk s2 CAIRN1_SUPER_SECTOR = d0 CAIRN1_SUPER_SECTOR).
  { rewrite Hne; [done|]. pose proof (commit_not_super free). lia. }
  assert (Hold : records_ok (disk s2) free).
  { intros slot Hsl. eapply rec_ok_ext, (Hrec slot Hsl). apply Hne. unfold commit_sector. lia. }
  assert (Hg02 : grows d0 (disk s2)) by (etrans; [apply Hg|apply Hg2]).
  destruct (Z.eqb_spec st 0) as [->|]; split; try done; [lia|].
  intros slot Hsl. destruct (decide (slot = free)) as [->|]; [|apply Hold; lia].
  unfold rec_ok. rewrite Hz by done. cbn [s1 data].
  destruct (append_page_record free sl_par k value act int der stt g (data s)) as [Hm Hp];
    try done; [apply Hs|unfold fits, COMMIT_SLOTS in *; lia..|]. unfold pg. rewrite Hm, Hp. split; [done|by right].
Qed.

Lemma take_action_bytes d j n room : page_ok d -> bytes_ok (take_action d j n room).
Proof.
  intros Hd. revert j room. induction n as [|n IH]; intros j [|room]; cbn [take_action]; try by apply Forall_nil_2.
  destruct (_ =? 0); [by apply Forall_nil_2|]. apply Forall_cons_2; [apply Hd|apply IH].
Qed.

Lemma comp_value_bytes room d action : page_ok d -> extract_compensation room d = Some action -> bytes_ok (comp_value action).
Proof.
  intros Hd. unfold extract_compensation. destruct (find_sep _ _ _) as [sep|]; [|done]. cbn [mbind option_bind].
  pose proof (take_action_bytes d (sep + 1) (Z.to_nat (Z.min (get_u32 d 32) CAIRN1_VALUE_MAX - (sep + 1))) room Hd) as Hb.
  destruct (take_action _ _ _ _) as [|b l] eqn:E; [done|]. intros [= <-].
  apply Forall_take, Forall_app_2; [by apply bytes_okb_spec|done].
Qed.

Section Mission.
Context (d0 : disk_t) (n ahd from : Z).
Hypothesis Hf0 : formatted d0.
Hypothesis Hn : 0 <= n.
Hypothesis Hnx : next_of (d0 CAIRN1_SUPER_SECTOR) = n.
Hypothesis Hahd : fits 32 ahd.

(** Enough turns for the chain that starts at [cur]. *)
Definition enough (k : nat) (cur : Z) : Prop := (1 <= k)%nat /\ (cur <> NONE -> cur + 2 <= Z.of_nat k).

Lemma rollback_ns_spec k ns count cur g s :
  sane s -> staging d0 n (disk s) (st_free g) -> 0 <= count <= n -> enough k cur ->
  ref_ok (st_free g) cur -> ref_ok (st_free g) (st_head g) -> 0 <= st_undone g -> st_appended g = 0 ->
  exists g' s', rollback_ns dev k ahd from ns count cur g s = Some (g', s') /\ sane s' /\
    staging d0 n (disk s') (st_free g') /\ stage_ok n (st_free g) g'.
Proof.
  revert cur g s. induction k as [|k IH]; intros cur g s Hs Hst Hc [Hk1 Hk2] Hcur Hhead Hun Hap; [lia|].
  cbn [rollback_ns].
  assert (Hdone : forall (g' : Stage) s', sane s' -> disk s' = disk s -> st_free g' = st_free g ->
    st_head g' = st_head g -> st_undone g' = st_undone g -> st_appended g' = st_appended g ->
    exists g2 s2, (mret g' : LedM Stage) s' = Some (g2, s2) /\ sane s2 /\ staging d0 n (disk s2) (st_free g2) /\ stage_ok n (st_free g) g2).
  { intros g' s' Hs' Hd' E1 E2 E3 E4. exists g', s'. split; [done|]. split; [done|].
    rewrite Hd', E1. split; [done|]. split; rewrite ?E1, ?E2, ?E3, ?E4; done || lia. }
  destruct (Z.eqb_spec cur NONE) as [|Hne]; [by apply Hdone|].
  destruct (rw_read s (commit_sector cur) Hs) as (st & s1 & E1 & Hs1 & Hd1 & _ & Ha1).
  rewrite (bind_eq _ _ _ _ _ E1). clear E1.
  destruct (keeps_bad_record s1 st Hs1) as (bad & s1' & E2 & _ & _ & -> & Hbad).
  rewrite (bind_eq _ _ _ _ _ E2). clear E2. destruct bad; [by apply Hdone|].
  specialize (Ha1 (proj1 (Hbad eq_refl))). rewrite bind_data. cbv zeta.
  destruct Hcur as [?|Hcur]; [done|].
  pose proof (record_parent _ _ _ _ (g_recs _ _ _ _ Hst) Hcur Ha1) as Hpar.
  match goal with |- context [if negb ?b then mret g else _] => destruct b; cbn [negb] end; [|by apply Hdone].
  pose proof (g_free _ _ _ _ Hst) as Hfree.
  match goal with |- context [if ?b then match extract_compensation _ _ with _ => _ end else _] => destruct b end.
  { destruct (extract_compensation 96 (data s1)) as [action|] eqn:Ex.
    2: { destruct (keeps_say s1 (NRefused ns cur (get_u8 (data s1) OFF_REVCLASS)) Hs1) as (u & s2 & E3 & Hs2 & Hd2 & _).
      rewrite (bind_eq _ _ _ _ _ E3). apply Hdone; try done. congruence. }
    destruct (Z.leb_spec COMMIT_SLOTS (st_free g)) as [|Hroom]; [by apply Hdone|].
    assert (Hst1 : staging d0 n (disk s1) (st_free g)) by (by rewrite Hd1).
    destruct (staging_append s1 d0 n (st_free g) cur ns (comp_value action) (wrap 32 from) ahd
      (get_u32 (data s1) OFF_DERIVED) STATUS_COMPENSATION (saturating_sub count (st_undone g) + 1))
      as (ok & s2 & E3 & Hs2 & Hst2);
      [exact Hs1|exact Hf0|exact Hn|exact Hnx|exact Hst1|exact Hroom|exact Hcur|
       eapply comp_value_bytes, Ex; apply Hs1|by apply wrap_fits|exact Hahd|apply page_u32_fits, Hs1|done|
       unfold saturating_sub, fits, COMMIT_SLOTS in *; lia|].
    rewrite (bind_eq _ _ _ _ _ E3). clear E3. destruct ok; cbn [negb].
    - destruct (keeps_say s2 (NCompensated ns cur (st_free g) action) Hs2) as (u & s3 & E4 & Hs3 & Hd3 & _).
      rewrite (bind_eq _ _ _ _ _ E4). eexists _, s3. split; [reflexivity|]. split; [done|]. cbn [st_free].
      rewrite Hd3. split; [done|]. split; cbn; [right; lia|done|lia|lia].
    - eexists _, s2. split; [reflexivity|]. split; [done|]. cbn [st_free]. split; [done|].
      split; cbn; [done|done|lia|lia]. }
  match goal with |- context [if negb ?b then _ else rollback_ns _ _ _ _ _ _ _ _] => destruct b; cbn [negb] end.
  2:
  { destruct (keeps_say s1 (NRefused ns cur (get_u8 (data s1) OFF_REVCLASS)) Hs1) as (u & s2 & E3 & Hs2 & Hd2 & _).
    rewrite (bind_eq _ _ _ _ _ E3). apply Hdone; try done. congruence. }
  eapply (IH _ (mkStage _ _ _ _ _ _ _ _)); cbn [st_free st_head st_undone st_appended]; try done; [by rewrite Hd1| | | |lia].
  - specialize (Hk2 Hne). split; [lia|]. intros Hp. destruct Hpar as [?|Hpar]; [done|]. lia.
  - eapply ref_ok_mono, Hpar. lia.
  - eapply ref_ok_mono, Hpar. lia.
Qed.

Definition staged (free : Z) (g : Stage) : Prop :=
  ref_ok free (st_head g) /\ 0 <= st_undone g /\ 0 <= st_appended g <= free - n.

Lemma rollback_all_spec k nss heads counts free tot s :
  sane s -> staging d0 n (disk s) free -> (257 <= k)%nat ->
  Forall (ref_ok n) heads -> Forall (fun c => 0 <= c <= n) counts ->
  exists r s', rollback_all dev k ahd from nss heads counts free tot s = Some (r, s') /\ sane s' /\
    match r with
    | None => exists f, staging d0 n (disk s') f
    | Some (gs, free', _) => staging d0 n (disk s') free' /\ free <= free' /\ Forall (staged free') gs
    end.
Proof.
  intros Hs Hst Hk. revert heads counts free tot s Hs Hst.
  induction nss as [|ns nss IH]; intros heads counts free tot s Hs Hst Hh Hc; cbn [rollback_all].
  { eexists _, s. split; [reflexivity|]. split; [done|]. split; [done|]. split; [lia|constructor]. }
  destruct heads as [|h heads]; [eexists _, s; split; [reflexivity|]; split; [done|]; split; [done|]; split; [lia|constructor]|].
  destruct counts as [|c counts]; [eexists _, s; split; [reflexivity|]; split; [done|]; split; [done|]; split; [lia|constructor]|].
  apply Forall_cons in Hh as [Hh0 Hh]. apply Forall_cons in Hc as [Hc0 Hc]. destruct tot as [[comp irrev] refc].
  pose proof (g_free _ _ _ _ Hst) as Hfree.
  destruct (rollback_ns_spec k ns c h (mkStage h 0 0 free comp irrev refc false) s) as (g & s1 & E & Hs1 & Hst1 & [Hg1 Hg2 Hg3 Hg4]);
    cbn; try done.
  { split; [lia|]. intros Hne. destruct Hh0 as [?|?]; [done|]. unfold COMMIT_SLOTS in *. lia. }
  { eapply ref_ok_mono, Hh0. lia. }
  { eapply ref_ok_mono, Hh0. lia. }
  cbn [st_free] in Hg4. rewrite (bind_eq _ _ _ _ _ E). destruct (st_io g).
  { eexists _, s1. split; [reflexivity|]. split; [done|]. by exists (st_free g). }
  destruct (IH heads counts (st_free g) (st_compensated g, st_irrev g, st_comp g) s1 Hs1 Hst1 Hh Hc)
    as (r & s2 & E2 & Hs2 & Hr).
  rewrite (bind_eq _ _ _ _ _ E2). eexists _, s2. split; [reflexivity|]. split; [done|].
  destruct r as [[[gs free'] tot]|]; [|done]. destruct Hr as (Hst2 & Hle & Hall).
  split; [done|]. split; [lia|]. constructor; [|done]. split; [by eapply ref_ok_mono|]. split; [done|]. lia.
Qed.

Lemma write_stages_spec m nss gs counts total s : sane s -> super_body m (data s) -> n <= m <= COMMIT_SLOTS ->
  Forall (fun ns => 0 <= ns < CAIRN1_NS_MAX) nss -> Forall (staged m) gs -> Forall (fun c => 0 <= c <= n) counts ->
  keeps s (write_stages nss gs counts total) (fun _ s' => super_body m (data s')).
Proof.
  intros Hs Hb Hm. revert gs counts total s Hs Hb.
  induction nss as [|ns nss IH]; intros gs counts total s Hs Hb Hns Hg Hc; cbn [write_stages]; [by apply keeps_ret|].
  destruct gs as [|g gs]; [by apply keeps_ret|]. destruct counts as [|c counts]; [by apply keeps_ret|].
  apply Forall_cons in Hns as [Hns0 Hns]. apply Forall_cons in Hg as [(Hh & Hu & Ha) Hg]. apply Forall_cons in Hc as [Hc0 Hc].
  destruct (_ || _); [|by apply IH].
  eapply keeps_bind; [by apply keeps_d_write_u32|]. cbn beta. intros _ s1 Hs1 _ [Hd1 _].
  eapply keeps_bind; [by apply keeps_d_write_u32|]. cbn beta. intros _ s2 Hs2 _ [Hd2 _].
  apply IH; try done. rewrite Hd2, Hd1.
  apply body_put_count; [|done|unfold saturating_sub; lia|unfold saturating_sub, fits, COMMIT_SLOTS in *; lia].
  apply body_put_head; [done|done|done|]. eapply ref_ok_fits, Hh. lia.
Qed.

End Mission.

Lemma all_ns_range : Forall (fun ns => 0 <= ns < CAIRN1_NS_MAX) all_ns.
Proof. unfold all_ns, CAIRN1_NS_MAX. repeat (apply Forall_cons_2; [lia|]). apply Forall_nil_2. Qed.

Lemma entries_ok s n : ready s n ->
  Forall (ref_ok n) (entries (data s) 16) /\ Forall (fun c => 0 <= c <= n) (entries (data s) 20).
Proof.
  intros Hr. unfold entries. split; apply Forall_map; (eapply Forall_impl; [apply all_ns_range|]); cbn beta; intros ns Hns;
    by apply (entry_fits _ _ _ Hr).
Qed.

Lemma sfar_rollback_safe s ahd caps from : sane s -> ledger_ok (disk s) -> fits 32 ahd ->
  safe_at s (sfar_rollback dev ahd caps from).
Proof.
  intros Hs Hok Ha. unfold sfar_rollback. destruct (ahd =? 0); [by apply safe_at_ret|].
  load_super. intros s1 n Hr _ _. cbn [negb]. destruct (entries_ok _ _ Hr) as [Hh Hc].
  destruct (ready_data _ _ Hr) as (Hb & Hnx & Hnx').
  apply safe_entries, safe_entries, safe_read_u32. fold (next_of (data s1)). rewrite Hnx.
  set (heads := entries (data s1) 16) in *. set (counts := entries (data s1) 20) in *. clearbody heads counts.
  eapply safe_bind_keeps; [apply touched_reads, Hr|]. intros touched s2 Hs2 Hd2 _.
  eapply safe_bind_keeps with (R := fun _ _ => True).
  { destruct (touched =? 0); [by apply keeps_ret|by apply sfar_authorized_reads]. }
  destruct Hr as [_ Hf _ Hn0 Hsup Hrec].
  intros [] s3 Hs3 Hd3 _; cbn [negb]; rewrite Hd2 in Hd3; [|apply safe_at_ret; [done|rewrite Hd3; by intros _; exists n]].
  assert (Hst : staging (disk s1) n (disk s3) n).
  { rewrite Hd3. split; [by intros _; exists n|done|done|lia|done]. }
  destruct (rollback_all_spec (disk s1) n ahd from Hf (proj1 Hn0) Hnx' Ha ROLLBACK_FUEL all_ns heads counts n (0, 0, 0) s3)
    as (r & s4 & E & Hs4 & Hres); [done|done|vm_compute; lia|done|done|].
  assert (Hwork : safe_at s4 (match r with
    | None => mret IPC_STATUS_IO_FAILURE
    | Some (gs, free, (comp, irrev, refc)) =>
      ok ← cairn_load_super dev;
      if negb ok then mret IPC_STATUS_IO_FAILURE else
      total ← write_stages all_ns gs counts 0;
      d_write_u32 8 free ;;
      st ← rw dev CAIRN1_SUPER_SECTOR true;
      if negb (st =? 0) then mret IPC_STATUS_IO_FAILURE else
      say (NRolledBack total comp irrev refc) ;;
      mret IPC_STATUS_OK
    end) /\ grows (disk s3) (disk s4)).
  2: { destruct Hwork as [(a & s5 & E5 & ? & ? & Hg5) Hg4]. exists a, s5. rewrite (bind_eq _ _ _ _ _ E).
    split; [done|]. split; [done|]. split; [done|]. by etrans. }
  rewrite Hd3. destruct r as [[[gs free] [[comp irrev] refc]]|].
  2: { destruct Hres as [f [Hok4 Hg4 _ _ _]]. split; [by apply safe_at_ret|done]. }
  destruct Hres as ([Hok4 Hg4 Hsup4 Hfree Hrec4] & Hle & Hall). split; [|done].
  apply with_super; [done|done| |by intros; apply safe_at_ret]. intros s5 n5 Hr5 _ Hkept. cbn [negb].
  assert (Hf4 : formatted (disk s4)) by (unfold formatted; by rewrite Hsup4).
  specialize (Hkept Hf4). destruct (ready_data _ _ Hr5) as (Hb5 & Hn5 & Hn5').
  assert (n5 = n) as -> by (by rewrite <- Hn5', Hkept, Hsup4).
  eapply safe_bind_keeps.
  { apply (write_stages_spec n (proj1 Hn0) free); [apply Hr5|eapply body_mono, Hb5; lia|done|apply all_ns_range|done|done]. }
  cbn beta. intros total s6 Hs6 Hd6 Hb6.
  eapply safe_bind_keeps; [by apply keeps_d_write_u32|]. cbn beta. intros _ s7 Hs7 Hd7 [Hdt7 _].
  assert (Hdk : disk s7 = disk s4) by congruence.
  apply finish_super with (n := free); rewrite ?Hdk, ?Hdt7; try done.
  - rewrite Hsup4, Hnx'. lia.
  - lia.
  - by apply body_put_next.
  - unfold next_of. rewrite get_put_u32; [done|]. unfold fits, COMMIT_SLOTS in *. lia.
  - intros st' s' Hs'. destruct (negb _); [by apply keeps_ret|].
    eapply keeps_bind; [by apply keeps_say|]. intros. by apply keeps_ret.
Qed.

(** ** The dispatcher *)

Lemma if_allowed_safe s ns caps m : sane s -> ledger_ok (disk s) -> 0 <= ns ->
  (forall s, sane s -> ledger_ok (disk s) -> ns < CAIRN1_NS_MAX -> safe_at s m) -> safe_at s (if_allowed ns caps m).
Proof.
  intros Hs Hok Hns Hm. unfold if_allowed, cairn_ns_allowed.
  destruct (Z.ltb_spec ns CAIRN1_NS_MAX); cbn [andb].
  - destruct (negb _); [by apply Hm|]. eapply keeps_safe; [|done].
    eapply keeps_bind with (R := fun b _ => b = false); [|intros b s' Hs' _ ->; by apply keeps_ret].
    eapply keeps_bind; [by apply keeps_say|]. intros. by apply keeps_ret.
  - eapply keeps_safe; [|done].
    eapply keeps_bind with (R := fun b _ => b = false); [|intros b s' Hs' _ ->; by apply keeps_ret].
    eapply keeps_bind; [by apply keeps_say|]. intros. by apply keeps_ret.
Qed.

Lemma land_nonneg_mask x m : 0 <= m -> 0 <= x & m.
Proof. intros. apply Z.land_nonneg. by right. Qed.

Lemma land_le_mask x m w : 0 <= w -> m = Z.ones w -> fits w (x & m).
Proof. intros Hw ->. rewrite Z.land_ones by done. by apply wrap_fits. Qed.

Lemma cairn_ns_fits word : fits 4 (cairn_ns word).
Proof. by apply (land_le_mask _ _ 4). Qed.

Lemma handle_cairn_safe s word from caps : sane s -> ledger_ok (disk s) -> safe_at s (handle_cairn dev word from caps).
Proof.
  intros Hs Hok. unfold handle_cairn. pose proof (cairn_ns_fits word) as [Hns _].
  assert (Hid : fits 32 (sand_intent word)).
  { eapply (fits_mono 16); [lia|]. by apply (land_le_mask _ _ 16). }
  assert (Hbody : forall s (revoked : bool), sane s -> ledger_ok (disk s) -> safe_at s (
    let op := request_op word in let ns := cairn_ns word in
    if (revoked : bool) then mret IPC_STATUS_DENIED
    else if op =? REQ_NS_REVOKE then if_allowed ns caps (cairn_ns_set_revoked dev ns true)
    else if op =? REQ_NS_GRANT then if_allowed ns caps (cairn_ns_set_revoked dev ns false)
    else if op =? REQ_CAIRN_INIT then
      ok ← cairn_load_super dev; mret (if (ok : bool) then IPC_STATUS_OK else IPC_STATUS_IO_FAILURE)
    else if op =? REQ_CAIRN_STATUS then cairn_status dev
    else if op =? REQ_CAIRN_COMMIT then
      if_allowed ns caps
        (cairn_commit dev ns (cairn_aux word) from (sand_intent word) (sand_derived word) (sand_revclass word))
    else if op =? REQ_CAIRN_GET then if_allowed ns caps (cairn_get dev ns)
    else if op =? REQ_CAIRN_LOG then if_allowed ns caps (cairn_log dev ns)
    else if op =? REQ_CAIRN_ROLLBACK then
      if_allowed ns caps (cairn_rollback dev ns (Z.max (cairn_aux word) 1))
    else if op =? REQ_CAIRN_VERIFY then if_allowed ns caps (cairn_verify dev ns)
    else if op =? REQ_SAND_LOG then if_allowed ns caps (sand_log dev ns)
    else if op =? REQ_SAND_INFO then if_allowed ns caps (sand_info dev ns)
    else if op =? REQ_SFAR_PLAN then sfar_plan dev (sand_intent word) caps
    else if op =? REQ_SFAR_ROLLBACK then sfar_rollback dev (sand_intent word) caps from
    else if op =? REQ_TBAR then tbar dev (sand_intent word) caps
    else mret IPC_STATUS_BAD_REQUEST)).
  { clear s Hs Hok. intros s revoked Hs Hok. cbv zeta. destruct revoked; [by apply safe_at_ret|].
    destruct (_ =? REQ_NS_REVOKE); [apply if_allowed_safe; try done; intros; by apply set_revoked_safe|].
    destruct (_ =? REQ_NS_GRANT); [apply if_allowed_safe; try done; intros; by apply set_revoked_safe|].
    destruct (_ =? REQ_CAIRN_INIT).
    { apply with_super; [done|done| |by intros; apply safe_at_ret]. intros s1 n Hr _ _.
      apply safe_at_ret; [apply Hr|by eapply ready_ledger]. }
    destruct (_ =? REQ_CAIRN_STATUS); [by apply status_safe|].
    destruct (_ =? REQ_CAIRN_COMMIT).
    { apply if_allowed_safe; try done. intros. apply commit_safe; try done.
      - eapply (fits_mono 5); [lia|]. by apply (land_le_mask _ _ 5).
      - eapply (fits_mono 2); [lia|]. by apply (land_le_mask _ _ 2). }
    destruct (_ =? REQ_CAIRN_GET); [apply if_allowed_safe; try done; intros; by apply get_safe|].
    destruct (_ =? REQ_CAIRN_LOG); [apply if_allowed_safe; try done; intros; by apply log_safe|].
    destruct (_ =? REQ_CAIRN_ROLLBACK); [apply if_allowed_safe; try done; intros; by apply rollback_safe|].
    destruct (_ =? REQ_CAIRN_VERIFY); [apply if_allowed_safe; try done; intros; by apply verify_safe|].
    destruct (_ =? REQ_SAND_LOG); [apply if_allowed_safe; try done; intros; by apply log_safe|].
    destruct (_ =? REQ_SAND_INFO); [apply if_allowed_safe; try done; intros; by apply info_safe|].
    destruct (_ =? REQ_SFAR_PLAN); [by apply plan_safe|].
    destruct (_ =? REQ_SFAR_ROLLBACK); [by apply sfar_rollback_safe|].
    destruct (_ =? REQ_TBAR); [by apply tbar_safe|by apply safe_at_ret]. }
  destruct (revocable (request_op word)).
  - destruct (ns_revoked_safe s (cairn_ns word) Hs Hok) as (b & s1 & E & Hs1 & Hok1 & Hg1).
    destruct (Hbody s1 b Hs1 Hok1) as (a & s2 & E2 & ? & ? & Hg2). exists a, s2.
    rewrite (bind_eq _ _ _ _ _ E). split; [exact E2|]. split; [done|]. split; [done|]. by etrans.
  - exact (Hbody s false Hs Hok).
Qed.

End Handlers.
