(* ===== verification/DaemonSafe.v ===== *)
(** * What the block daemon guarantees about the ledger

    Every request but a raw block write into the store keeps the ledger sound
    and its history intact; the raw write does not. *)

From Stdlib Require Import ZArith Lia String.
From stdpp Require Import base option strings numbers list.
From S2P Require Import Prelude Text Cairn Ledger LedgerInv LedgerSafe Daemon.

(** [d'] keeps every record committed in [d]. *)
Definition history_kept (d d' : disk_t) : Prop := formatted d ->
  formatted d' /\ next_of (d CAIRN1_SUPER_SECTOR) <= next_of (d' CAIRN1_SUPER_SECTOR) /\
  forall slot, 0 <= slot < next_of (d CAIRN1_SUPER_SECTOR) -> d' (commit_sector slot) = d (commit_sector slot).

(** No sector of the Cairn v1 store changes. *)
Definition store_kept (d d' : disk_t) : Prop := forall sec, CAIRN1_SUPER_SECTOR <= sec -> d' sec = d sec.

Section Requests.
Context {dev : nat -> Z -> bool -> Page -> option (Z * Page)} `{HD : DevOk dev}.

(** ** Requests that stay below the store *)

Definition low {A} (s : Led) (m : LedM A) : Prop :=
  exists a s', m s = Some (a, s') /\ sane s' /\ store_kept (disk s) (disk s').

Lemma low_ret {A} s (a : A) : sane s -> low s (mret a).
Proof. intros. by exists a, s. Qed.

Lemma low_bind {A B} s (m : LedM A) (f : A -> LedM B) :
  low s m -> (forall a s', sane s' -> low s' (f a)) -> low s (m ≫= f).
Proof.
  intros (a & s1 & E & Hs1 & Hk1) Hf. destruct (Hf a s1 Hs1) as (b & s2 & E2 & Hs2 & Hk2).
  exists b, s2. rewrite (bind_eq _ _ _ _ _ E). split; [done|]. split; [done|]. intros sec Hsec. rewrite Hk2, Hk1; done.
Qed.

Lemma low_keeps {A} s (m : LedM A) R : keeps s m R -> low s m.
Proof. intros (a & s' & E & Hs & Hd & _). exists a, s'. rewrite Hd. by split; [|split]. Qed.

Lemma low_read s sec : sane s -> low s (rw dev sec false).
Proof. intros Hs. eapply low_keeps, rw_read, Hs. Qed.

Lemma low_write s sec : sane s -> sec < CAIRN1_SUPER_SECTOR -> low s (rw dev sec true).
Proof.
  intros Hs Hsec. destruct (rw_write s sec Hs) as (st & s' & pg & E & Hs' & _ & _ & Hd & _).
  exists st, s'. split; [done|]. split; [done|]. rewrite Hd. intros x Hx. apply upd_ne. lia.
Qed.

Lemma low_set_data s bs : sane s -> bytes_ok bs -> low s (set_data bs).
Proof.
  intros Hs Hb. eapply low_keeps. apply keeps_get_data, keeps_put_data; [done|].
  apply page_ok_copy; [by apply page_ok_list|apply page_ok_zero, Hs].
Qed.

Lemma low_copy_input s len : sane s -> low s (copy_input len).
Proof.
  intros Hs. eapply low_keeps. apply keeps_get_data, keeps_get_input, keeps_put_data; [done|].
  apply page_ok_copy; [apply Hs|apply page_ok_zero, Hs].
Qed.

Lemma low_starts_with s bs : sane s -> low s (data_starts_with bs).
Proof. intros Hs. eapply low_keeps. by apply keeps_get_data, (keeps_ret _ _ (fun _ _ => True)). Qed.

Lemma low_contains s bs : sane s -> low s (data_contains bs).
Proof. intros Hs. eapply low_keeps. by apply keeps_get_data, (keeps_ret _ _ (fun _ _ => True)). Qed.

(** An app whose sectors are below the store and whose texts are bytes. *)
Definition app_ok (a : App) : Prop :=
  registry a < CAIRN1_SUPER_SECTOR /\ private_root a < CAIRN1_SUPER_SECTOR /\
  bytes_ok (text_before a) /\ bytes_ok (text_after a).

Lemma apps_ok : app_ok app_note /\ app_ok app_lab /\ app_ok app_calc /\ app_ok app_vault.
Proof.
  unfold app_ok. repeat match goal with |- _ /\ _ => split end; done || by apply bytes_okb_spec.
Qed.

Ltac low_step :=
  first [ apply low_ret; assumption
        | apply low_read; assumption
        | apply low_write; [assumption|done || lia]
        | apply low_copy_input; assumption
        | apply low_starts_with; assumption
        | apply low_contains; assumption
        | apply low_bind; [|intros ? ? ?]
        | match goal with |- low _ (if ?b then _ else _) => destruct b end ].
Ltac lows := repeat low_step.

Lemma low_registry_is a state s : sane s -> low s (registry_is dev a state).
Proof. intros Hs. unfold registry_is. lows. Qed.

Lemma low_set_registry a state s : app_ok a -> bytes_ok state -> sane s -> low s (set_registry a state).
Proof.
  intros (_ & _ & Hb & Ha) Hst Hs. apply low_set_data; [done|]. by repeat apply Forall_app_2.
Qed.

Lemma low_app_ops a sector s : app_ok a -> sane s ->
  low s (app_install dev a) /\ low s (app_require dev a) /\ low s (app_remove dev a) /\
  low s (app_set dev a sector) /\ low s (app_get dev a).
Proof.
  intros Hok Hs. pose proof Hok as (Hr & Hp & _).
  unfold app_install, app_require, app_remove, app_set, app_get, is_active, is_removed.
  repeat match goal with |- _ /\ _ => split end;
    repeat first [ apply low_write; [assumption|done || assumption] | apply low_registry_is; assumption
                 | apply low_set_registry; [assumption|by apply bytes_okb_spec|assumption] | low_step ].
Qed.

Lemma low_app_requests op sector m s : app_requests dev op sector = Some m -> sane s -> low s m.
Proof.
  destruct apps_ok as (Hn & Hl & Hc & Hv). intros Hm Hs.
  destruct (low_app_ops _ sector s Hn Hs) as (? & ? & ? & ? & ?).
  destruct (low_app_ops _ sector s Hl Hs) as (? & ? & ? & ? & ?).
  destruct (low_app_ops _ sector s Hc Hs) as (? & ? & ? & ? & ?).
  destruct (low_app_ops _ sector s Hv Hs) as (? & ? & ? & ? & ?). revert Hm.
  unfold app_requests, note_requests, lab_requests, calc_requests, vault_requests.
  repeat (match goal with |- context [if op =? ?x then _ else _] => destruct (op =? x); [by intros [= <-]|] end). done.
Qed.

Lemma low_app_shown a s : sane s -> low s (app_shown dev a).
Proof. intros Hs. unfold app_shown, is_active, is_removed. repeat first [apply low_registry_is; assumption | low_step]. Qed.

Lemma low_pkg_read first last sector s : sane s -> low s (pkg_read dev first last sector).
Proof. intros Hs. unfold pkg_read. lows. Qed.

Lemma low_pkg_write first last sector s : sane s -> last < CAIRN1_SUPER_SECTOR -> low s (pkg_write dev first last sector).
Proof.
  intros Hs Hl. unfold pkg_write. destruct (_ || _) eqn:E; [by apply low_ret|]. bool_to_prop.
  repeat first [low_step | apply low_write; [assumption|lia]].
Qed.

Lemma low_installed s : sane s -> low s (app_installed dev) /\ low s (app_info dev).
Proof.
  intros Hs. unfold app_installed, app_info. split; repeat first [apply low_app_shown; assumption | low_step].
Qed.

Lemma low_install_init s : sane s -> low s (install_init dev).
Proof.
  intros Hs. unfold install_init. repeat first [apply low_set_data; [assumption|by apply bytes_okb_spec] | low_step].
Qed.

Lemma low_safe {A} s (m : LedM A) : low s m -> ledger_ok (disk s) ->
  exists a s', m s = Some (a, s') /\ sane s' /\ ledger_ok (disk s') /\ history_kept (disk s) (disk s').
Proof.
  intros (a & s' & E & Hs & Hk) Hok. exists a, s'. split; [done|]. split; [done|].
  assert (Hsup : disk s' CAIRN1_SUPER_SECTOR = disk s CAIRN1_SUPER_SECTOR) by (by apply Hk).
  assert (Hrec : forall slot, 0 <= slot -> disk s' (commit_sector slot) = disk s (commit_sector slot)).
  { intros slot Hsl. apply Hk. unfold commit_sector, CAIRN1_COMMIT_FIRST_SECTOR, CAIRN1_SUPER_SECTOR. lia. }
  split.
  - eapply ledger_same, Hok; [done|]. intros slot Hsl. apply Hrec. lia.
  - intros Hf. unfold formatted. rewrite Hsup. split; [done|]. split; [lia|]. intros slot Hsl. apply Hrec. lia.
Qed.

(** ** Every request *)

Definition kept {A} (s : Led) (m : LedM A) : Prop :=
  exists a s', m s = Some (a, s') /\ sane s' /\ ledger_ok (disk s') /\ history_kept (disk s) (disk s').

Lemma kept_ret {A} s (a : A) : sane s -> ledger_ok (disk s) -> kept s (mret a).
Proof. intros Hs Hok. exists a, s. split; [done|]. split; [done|]. split; [done|]. intros Hf. by split; [|split; [lia|]]. Qed.

Lemma kept_bind {A B} s (m : LedM A) (f : A -> LedM B) :
  kept s m -> (forall a s', sane s' -> ledger_ok (disk s') -> kept s' (f a)) -> kept s (m ≫= f).
Proof.
  intros (a & s1 & E & Hs1 & Hok1 & Hh1) Hf. destruct (Hf a s1 Hs1 Hok1) as (b & s2 & E2 & Hs2 & Hok2 & Hh2).
  exists b, s2. rewrite (bind_eq _ _ _ _ _ E). split; [done|]. split; [done|]. split; [done|]. intros Hfd.
  destruct (Hh1 Hfd) as (Hf1 & Hn1 & Hr1). destruct (Hh2 Hf1) as (Hf2 & Hn2 & Hr2).
  split; [done|]. split; [lia|]. intros slot Hsl. rewrite Hr2 by lia. by apply Hr1.
Qed.

Lemma safe_at_kept {A} s (m : LedM A) : safe_at s m -> kept s m.
Proof. intros (a & s' & E & Hs & Hok & Hg & _). by exists a, s'. Qed.

(** A raw block write that lands in the store. *)
Definition raw_store_write (word : Z) : bool :=
  (request_op word =? REQ_BWRITE) && (CAIRN1_SUPER_SECTOR <=? request_arg word).

Lemma handle_kept word from caps s : sane s -> ledger_ok (disk s) -> raw_store_write word = false ->
  kept s (handle dev word from caps).
Proof.
  intros Hs Hok Hraw. unfold raw_store_write in Hraw. unfold handle. cbv zeta.
  set (op := request_op word) in *. set (sector := request_arg word) in *.
  assert (Hlow : forall m : LedM Z, low s m -> kept s m) by (intros m Hm; by apply low_safe).
  destruct (low_installed s Hs) as [Hin Hif].
  repeat match goal with
  | |- kept s (if op =? ?x then _ else _) => destruct (op =? x) eqn:?; [|]
  | |- kept s (match app_requests _ _ _ with Some _ => _ | None => _ end) =>
    destruct (app_requests dev op sector) eqn:?; [by eapply Hlow, low_app_requests|]
  end; try (by apply kept_ret); try (by apply safe_at_kept, handle_cairn_safe);
  apply Hlow; try done.
  1: { unfold bwrite. apply low_bind; [apply low_set_data; [done|by apply bytes_okb_spec]|]. intros _ s1 Hs1.
       apply low_bind; [apply low_write; [done|]|intros; by apply low_ret]. bool_to_prop; lia. }
  all: first [ by apply low_install_init | by apply low_pkg_read | by apply low_pkg_write | idtac ].
  all: unfold bread, pset, prollback, install_check, read_status, pkg_store_init.
  all: repeat first [apply low_set_data; [assumption|by apply bytes_okb_spec] | low_step].
Qed.

Lemma daemon_step_kept word from caps s : sane s -> ledger_ok (disk s) -> raw_store_write word = false ->
  kept s (daemon_step dev word from caps).
Proof.
  intros Hs Hok Hraw. unfold daemon_step. destruct (_ || _); [by apply kept_ret|].
  apply kept_bind; [by apply handle_kept|]. intros. by apply kept_ret.
Qed.

(** C3: From any sound disk, on a device whose commands may fail at any point (with a failed superblock
    write leaving the old sector), the block daemon answers every sequence of requests that contains no
    raw block write into the store, always terminates, and leaves a sound ledger in which no committed
    record has been rewritten and the record counter has not gone back. *)
Theorem ledger_survives_every_session (rs : list Request) (s : Led)
  (Hs : sane s) (Hok : ledger_ok (disk s))
  (Hin : Forall (fun r => page_ok (rq_input r) /\ raw_store_write (rq_word r) = false) rs) :
  exists replies s', serve dev rs s = Some (replies, s') /\
    ledger_ok (disk s') /\ history_kept (disk s) (disk s').
Proof.
  cut (kept s (serve dev rs)); [intros (a & s' & E & _ & H); by exists a, s'|].
  revert s Hs Hok. induction Hin as [|r rs [Hp Hw] _ IH]; intros s Hs Hok; cbn [serve]; [by apply kept_ret|].
  apply kept_bind.
  - eexists _, _. split; [reflexivity|]. split; [by destruct Hs; split|]. split; [done|].
    intros Hf. by split; [|split; [cbn; lia|]].
  - intros _ s1 Hs1 Hok1. apply kept_bind; [by apply daemon_step_kept|].
    intros [reply [code|]] s2 Hs2 Hok2; [by apply kept_ret|].
    apply kept_bind; [by apply IH|]. intros. by apply kept_ret.
Qed.

End Requests.
