(* ===== verification/LedgerSpec.v ===== *)
(** * What the ledger means: histories of effects

    The abstract ledger gives every namespace the list of its live effects,
    newest first.  [history] reads it off the disk by following the parent
    refs.  On a device that does not fail the handlers of [Ledger] implement
    the abstract operations: commit pushes, get reads the top, rollback drops,
    a mission rollback retracts the mission's reversible prefix. *)

From Stdlib Require Import ZArith Lia.
From stdpp Require Import base option numbers list.
From S2P Require Import Prelude Text Cairn Ledger LedgerInv LedgerSafe.

(** ** A device that never fails *)

Definition ok_dev (n : nat) (sector : Z) (write : bool) (old : Page) : option (Z * Page) := None.

#[export] Instance ok_dev_ok : DevOk ok_dev.
Proof. by split. Qed.

Definition read_into (s : Led) (sec : Z) : Led :=
  mkLed (disk s) (overlay (disk s sec) (data s)) (input s) (S (tick s)) (notes s).
Definition write_out (s : Led) (sec : Z) : Led :=
  mkLed (upd (disk s) sec (data s)) (data s) (input s) (S (tick s)) (notes s).

Lemma bind_read {B} s sec (f : Z -> LedM B) : (rw ok_dev sec false ≫= f) s = f 0 (read_into s sec).
Proof. done. Qed.
Lemma bind_write {B} s sec (f : Z -> LedM B) : (rw ok_dev sec true ≫= f) s = f 0 (write_out s sec).
Proof. done. Qed.

Definition with_data (s : Led) (d : Page) : Led := mkLed (disk s) d (input s) (tick s) (notes s).

Lemma bind_put {B} s d (f : unit -> LedM B) : (put_data d ≫= f) s = f tt (with_data s d).
Proof. done. Qed.
Lemma bind_zero {B} s (f : unit -> LedM B) : (zero_data ≫= f) s = f tt (with_data s (zero_page (data s))).
Proof. done. Qed.
Lemma bind_write_u32 {B} s off v (f : unit -> LedM B) :
  (d_write_u32 off v ≫= f) s = f tt (with_data s (put_u32 (data s) off v)).
Proof. done. Qed.

(** ** Effects and histories *)

Record Effect := mkEffect { e_slot : Z; e_head : CommitHeader; e_value : list Z }.

Definition value_at (p : Page) (len : Z) : list Z := map (fun i => p (VALUE_OFF + i)) (seqZ 0 len).

Definition effect_of (slot : Z) (p : Page) (h : CommitHeader) : Effect :=
  mkEffect slot h (value_at p (Z.min (len h) CAIRN1_VALUE_MAX)).

Fixpoint chain_upto (d : disk_t) (n : nat) (cur : Z) : list Effect :=
  match n with
  | O => []
  | S n =>
    if cur =? NONE then [] else
    match decode (d (commit_sector cur)) with
    | None => []
    | Some h => effect_of cur (d (commit_sector cur)) h :: chain_upto d n (parent h)
    end
  end.

Definition chain (d : disk_t) (cur : Z) : list Effect := chain_upto d (Z.to_nat COMMIT_SLOTS) cur.

Definition history (d : disk_t) (ns : Z) : list Effect := chain d (head_of (d CAIRN1_SUPER_SECTOR) ns).

(** A formatted, sound store holding [n] records. *)
Record store (d : disk_t) (n : Z) : Prop := {
  s_n : 0 <= n <= COMMIT_SLOTS;
  s_super : super_ok n (d CAIRN1_SUPER_SECTOR);
  s_recs : records_ok d n;
  s_bytes : forall sec, page_ok (d sec) }.

Lemma store_ledger d n : store d n -> ledger_ok d.
Proof. intros [] _. by exists n. Qed.

(** ** Records *)

Lemma decode_magic (p : Page) : magic_at p 0 CAIRN_MAGIC = true -> exists h, decode p = Some h /\
  parent h = get_u32 p 8 /\ intent h = get_u32 p OFF_INTENT /\ rev_class h = p OFF_REVCLASS /\ len h = get_u32 p 32 /\
  derived h = get_u32 p OFF_DERIVED /\ hash h = get_u64 p 16.
Proof. intros Hm. unfold decode. rewrite Hm. by eexists. Qed.

Lemma rec_decode d n slot : records_ok d n -> 0 <= slot < n -> exists h, decode (d (commit_sector slot)) = Some h /\
  parent h = get_u32 (d (commit_sector slot)) 8 /\ ref_ok slot (parent h).
Proof.
  intros Hr Hs. destruct (Hr slot Hs) as [Hm Hp]. destruct (decode_magic _ Hm) as (h & Hd & Hpar & _).
  exists h. rewrite Hpar. done.
Qed.

Lemma chain_fuel d n f1 f2 cur : records_ok d n -> ref_ok n cur -> (Z.to_nat n <= f1)%nat -> (Z.to_nat n <= f2)%nat ->
  chain_upto d f1 cur = chain_upto d f2 cur.
Proof.
  intros Hr. revert n Hr f2 cur. induction f1 as [|f1 IH]; intros n Hr f2 cur Hc H1 H2.
  - destruct Hc as [->|Hc]; [|lia]. by destruct f2.
  - destruct Hc as [->|Hc]; [by destruct f2|]. destruct f2 as [|f2]; [lia|]. cbn [chain_upto].
    destruct (cur =? NONE); [done|]. destruct (rec_decode d n cur Hr Hc) as (h & -> & _ & Hp). f_equal.
    apply (IH cur); [|done|lia|lia]. intros slot Hs. apply Hr. lia.
Qed.

(** The chain of a live ref. *)
Lemma chain_none d : chain d NONE = [].
Proof. done. Qed.

Lemma chain_cons d n cur h : records_ok d n -> 0 <= cur < n -> n <= COMMIT_SLOTS ->
  decode (d (commit_sector cur)) = Some h -> chain d cur = effect_of cur (d (commit_sector cur)) h :: chain d (parent h).
Proof.
  intros Hr Hc Hn Hd. unfold chain. rewrite (chain_fuel d (cur + 1) _ (S (Z.to_nat COMMIT_SLOTS))).
  - cbn [chain_upto]. rewrite (proj2 (Z.eqb_neq cur NONE)) by (unfold NONE, COMMIT_SLOTS in *; lia). by rewrite Hd.
  - intros slot Hs. apply Hr. lia.
  - right. lia.
  - lia.
  - lia.
Qed.

(** A chain only looks at the records below its ref. *)
Lemma chain_ext d d' n cur : records_ok d n -> ref_ok n cur ->
  (forall slot, 0 <= slot < n -> d' (commit_sector slot) = d (commit_sector slot)) -> chain d' cur = chain d cur.
Proof.
  unfold chain. generalize (Z.to_nat COMMIT_SLOTS) as f. intros f Hr. revert n Hr cur.
  induction f as [|f IH]; intros n Hr cur Hc He; [done|]. cbn [chain_upto].
  destruct (Z.eqb_spec cur NONE); [done|]. destruct Hc as [?|Hc]; [done|]. rewrite (He cur Hc).
  destruct (rec_decode d n cur Hr Hc) as (h & -> & _ & Hp). f_equal.
  apply (IH cur); [|done|]; intros slot Hs; [apply Hr|apply He]; lia.
Qed.

(** ** Windows *)

Definition revoked_of (p : Page) (ns : Z) : Z := get_u32 p (cairn_ns_entry_off ns + CAIRN1_NS_OFF_REVOKED).

Lemma read_agrees s sec : agrees (data (read_into s sec)) (disk s sec).
Proof. apply overlay_agrees. Qed.

Lemma agrees_decode p q : agrees p q -> decode p = decode q.
Proof. intros Ha. apply decode_ext. intros o Ho. apply Ha. unfold OFF_GEN, SECTOR_SIZE in *. lia. Qed.

Lemma agrees_value p q n : agrees p q -> n <= CAIRN1_VALUE_MAX -> value_at p n = value_at q n.
Proof.
  intros Ha Hn. apply list_eq_Forall2, Forall2_fmap_2, Forall_Forall2_diag, Forall_forall.
  intros i Hi%elem_of_seqZ. apply Ha. unfold CAIRN1_VALUE_MAX, VALUE_OFF, SECTOR_SIZE in *. lia.
Qed.

Lemma agrees_entry p q ns : agrees p q -> 0 <= ns < CAIRN1_NS_MAX ->
  head_of p ns = head_of q ns /\ count_of p ns = count_of q ns /\ revoked_of p ns = revoked_of q ns.
Proof.
  intros Ha Hns. unfold head_of, count_of, revoked_of.
  by rewrite !(agrees_u32 p q) by (done || (unfold SECTOR_SIZE; entry_lia)).
Qed.

Lemma bind_load {B} s n (f : bool -> LedM B) : store (disk s) n ->
  (cairn_load_super ok_dev ≫= f) s = f true (read_into s CAIRN1_SUPER_SECTOR).
Proof.
  intros [_ (Hm & _) _ _]. unfold cairn_load_super. rewrite bind_assoc, bind_read. cbn [Z.eqb negb].
  rewrite bind_assoc, bind_starts_with, (agrees_magic _ _ _ (read_agrees s CAIRN1_SUPER_SECTOR)), Hm by done. done.
Qed.

(** What the loaded window says about the store. *)
Record super_view (w : Page) (d : disk_t) (n : Z) : Prop := {
  v_bytes : page_ok w;
  v_next : get_u32 w 8 = n;
  v_body : super_body n w;
  v_entry ns : 0 <= ns < CAIRN1_NS_MAX -> head_of w ns = head_of (d CAIRN1_SUPER_SECTOR) ns /\
    count_of w ns = count_of (d CAIRN1_SUPER_SECTOR) ns /\ revoked_of w ns = revoked_of (d CAIRN1_SUPER_SECTOR) ns }.

Lemma load_view s n : store (disk s) n -> page_ok (data s) ->
  super_view (data (read_into s CAIRN1_SUPER_SECTOR)) (disk s) n.
Proof.
  intros [Hn Hsup Hrec Hb] Hdt. pose proof (read_agrees s CAIRN1_SUPER_SECTOR) as Ha. split.
  - by apply page_ok_overlay.
  - rewrite (agrees_u32 _ _ _ Ha) by done. by destruct Hsup as (_ & <- & _).
  - eapply body_agrees, body_of_super; done.
  - intros ns Hns. by apply agrees_entry.
Qed.

(** ** Moving the refs *)

Lemma view_next w d m n : super_view w d m -> m <= n <= COMMIT_SLOTS -> 0 <= n -> super_view (put_u32 w 8 n) d n.
Proof.
  intros [Hb Hn Hbody He] Hmn Hn0. split.
  - by apply page_ok_put.
  - apply get_put_u32. unfold fits, COMMIT_SLOTS in *. lia.
  - apply body_put_next. eapply body_mono, Hbody. lia.
  - intros ns Hns. destruct (He ns Hns) as (<- & <- & <-). unfold head_of, count_of, revoked_of.
    by rewrite !get_put_u32_ne by entry_lia.
Qed.

(** The entry of [ns] set to [head] and [count]. *)
Definition moved (w : Page) (ns head count : Z) : Page :=
  put_u32 (put_u32 w (cairn_ns_entry_off ns + 16) head) (cairn_ns_entry_off ns + 20) count.

Lemma moved_entry w ns head count ns' : 0 <= ns < CAIRN1_NS_MAX -> 0 <= ns' < CAIRN1_NS_MAX -> fits 32 head ->
  head_of (moved w ns head count) ns' = (if ns' =? ns then head else head_of w ns') /\
  revoked_of (moved w ns head count) ns' = revoked_of w ns'.
Proof.
  intros Hns Hns' Hf. unfold head_of, revoked_of, moved. destruct (Z.eqb_spec ns' ns) as [->|Hne].
  - split; [rewrite get_put_u32_ne by entry_lia; by rewrite get_put_u32|]. by rewrite !get_put_u32_ne by entry_lia.
  - by rewrite !get_put_u32_ne by entry_lia.
Qed.

Lemma moved_super w n ns head count : super_body n w -> next_of w = n -> 0 <= n <= COMMIT_SLOTS ->
  0 <= ns < CAIRN1_NS_MAX -> ref_ok n head -> 0 <= count <= n -> super_ok n (moved w ns head count).
Proof.
  intros Hb Hnx Hn Hns Hh Hc. assert (Hf : fits 32 head) by (eapply ref_ok_fits, Hh; lia).
  assert (Hb' : super_body n (moved w ns head count)).
  { apply body_put_count; [|done|lia|unfold fits, COMMIT_SLOTS in *; lia]. by apply body_put_head. }
  split; [apply Hb'|]. split; [|apply Hb']. unfold moved. by rewrite !next_put_entry by lia.
Qed.

Lemma page_ok_moved w ns head count : page_ok w -> page_ok (moved w ns head count).
Proof. intros. unfold moved. by repeat apply page_ok_put. Qed.

Lemma upd_super_recs d p slot : 0 <= slot -> upd d CAIRN1_SUPER_SECTOR p (commit_sector slot) = d (commit_sector slot).
Proof. intros. by apply upd_ne, commit_not_super. Qed.

(** Moving one ref of a store that now holds [n] records. *)
Lemma move_ref d m n w ns head count : super_ok m (d CAIRN1_SUPER_SECTOR) -> super_view w d n ->
  m <= n <= COMMIT_SLOTS -> 0 <= n -> records_ok d n -> (forall sec, page_ok (d sec)) -> 0 <= ns < CAIRN1_NS_MAX ->
  ref_ok n head -> 0 <= count <= n ->
  let d' := upd d CAIRN1_SUPER_SECTOR (moved w ns head count) in
  store d' n /\ (forall ns', 0 <= ns' < CAIRN1_NS_MAX ->
    history d' ns' = (if ns' =? ns then chain d head else history d ns') /\
    revoked_of (d' CAIRN1_SUPER_SECTOR) ns' = revoked_of (d CAIRN1_SUPER_SECTOR) ns').
Proof.
  intros Hsup Hv Hmn Hn0 Hrec Hb Hns Hh Hc d'.
  assert (Hf : fits 32 head) by (eapply ref_ok_fits, Hh; lia).
  assert (Hchain : forall cur, ref_ok n cur -> chain d' cur = chain d cur).
  { intros cur Hr. apply (chain_ext d d' n); [done|done|]. intros. apply upd_super_recs. lia. }
  split.
  - split; [lia| | |].
    + unfold d'. rewrite upd_eq. apply moved_super; [apply Hv|apply Hv|lia|done|done|done].
    + intros slot Hs. eapply rec_ok_ext, Hrec, Hs. apply upd_super_recs. lia.
    + intros sec. unfold d', upd. destruct (_ =? _); [|done]. apply page_ok_moved, Hv.
  - intros ns' Hns'. unfold history, d'. rewrite upd_eq. fold d'.
    destruct (moved_entry w ns head count ns' Hns Hns' Hf) as [-> ->].
    destruct (v_entry _ _ _ Hv ns' Hns') as (-> & _ & ->). split; [|done].
    destruct Hsup as (_ & _ & He). destruct (ns' =? ns); [by apply Hchain|]. apply Hchain.
    eapply ref_ok_mono, He, Hns'. lia.
Qed.

(** ** Commit *)

(** The record a commit lays down. *)
Definition commit_header (d : disk_t) (n ns len from intent derived rev : Z) (i : Page) : CommitHeader :=
  mkHeader n (head_of (d CAIRN1_SUPER_SECTOR) ns) ns (fnv64 i 0 len) (wrap 32 from) 1 len intent derived rev
    STATUS_COMMITTED (wrap 16 (count_of (d CAIRN1_SUPER_SECTOR) ns + 1)).

Definition input_bytes (i : Page) (len : Z) : list Z := map i (seqZ 0 len).

Lemma copied_value i p len n : n <= len -> value_at (copy_window i 0 p VALUE_OFF len) n = input_bytes i n.
Proof.
  intros Hn. apply list_eq_Forall2, Forall2_fmap_2, Forall_Forall2_diag, Forall_forall.
  intros k Hk%elem_of_seqZ. unfold copy_window.
  rewrite (proj2 (Z.leb_le VALUE_OFF (VALUE_OFF + k))), (proj2 (Z.ltb_lt (VALUE_OFF + k) (VALUE_OFF + len))) by lia.
  cbn [andb]. f_equal. lia.
Qed.

Lemma copied_decode h p i len : header_ok h -> decode (copy_window i 0 (encode h p) VALUE_OFF len) = Some h.
Proof.
  intros Hh. rewrite <- (decode_encode h p Hh). apply decode_ext. intros o Ho. unfold rd, page_store, copy_window.
  by rewrite (proj2 (Z.leb_gt VALUE_OFF o)) by (unfold VALUE_OFF, OFF_GEN in *; lia).
Qed.

(** Storing a record in the first free slot and making it the head of [ns]. *)
Lemma push_record d n ns p h w count : store d n -> n < COMMIT_SLOTS -> 0 <= ns < CAIRN1_NS_MAX -> page_ok p ->
  decode p = Some h -> parent h = head_of (d CAIRN1_SUPER_SECTOR) ns -> 0 <= count <= n + 1 ->
  super_view w (upd d (commit_sector n) p) n ->
  let d' := upd (upd d (commit_sector n) p) CAIRN1_SUPER_SECTOR (moved (put_u32 w 8 (n + 1)) ns n count) in
  store d' (n + 1) /\ (forall ns', 0 <= ns' < CAIRN1_NS_MAX ->
    history d' ns' = (if ns' =? ns then effect_of n p h :: history d ns' else history d ns') /\
    revoked_of (d' CAIRN1_SUPER_SECTOR) ns' = revoked_of (d CAIRN1_SUPER_SECTOR) ns').
Proof.
  intros [Hn Hsup Hrec Hb] Hlt Hns Hp Hd Hpar Hc Hv. set (d1 := upd d (commit_sector n) p) in *.
  assert (Hs1 : d1 CAIRN1_SUPER_SECTOR = d CAIRN1_SUPER_SECTOR).
  { apply upd_ne. pose proof (commit_not_super n). lia. }
  assert (Hold : forall slot, 0 <= slot < n -> d1 (commit_sector slot) = d (commit_sector slot)).
  { intros slot Hs. apply upd_ne. unfold commit_sector. lia. }
  assert (Hnew : d1 (commit_sector n) = p) by apply upd_eq.
  assert (Hhead : forall ns', 0 <= ns' < CAIRN1_NS_MAX -> ref_ok n (head_of (d CAIRN1_SUPER_SECTOR) ns')) by apply Hsup.
  assert (Hold_h : forall ns', 0 <= ns' < CAIRN1_NS_MAX -> history d1 ns' = history d ns').
  { intros ns' Hns'. unfold history. rewrite Hs1. apply (chain_ext _ _ n); auto. }
  assert (Hrec1 : records_ok d1 (n + 1)).
  { intros slot Hs. destruct (decide (slot = n)) as [->|Hsn].
    - unfold rec_ok. rewrite Hnew. assert (Em : magic_at p 0 CAIRN_MAGIC = true).
      { unfold decode in Hd. by destruct (magic_at p 0 CAIRN_MAGIC). }
      split; [done|]. destruct (decode_magic p Em) as (h' & Hd' & <- & _). simplify_eq. rewrite Hpar. auto.
    - eapply rec_ok_ext, (Hrec slot); [apply Hold|]; lia. }
  destruct (move_ref d1 n (n + 1) (put_u32 w 8 (n + 1)) ns n count) as [Hst Hview];
    [rewrite Hs1; exact Hsup|apply view_next with (m := n); [exact Hv|lia|lia]|lia|lia|exact Hrec1| |exact Hns|right; lia|exact Hc|].
  { intros sec. unfold d1, upd. by destruct (_ =? _). }
  split; [exact Hst|]. intros ns' Hns'. destruct (Hview ns' Hns') as [-> ->]. rewrite Hs1. split; [|reflexivity].
  destruct (Z.eqb_spec ns' ns) as [->|]; [|auto]. rewrite (chain_cons d1 (n + 1) n h), Hnew by (done || lia || by rewrite Hnew).
  rewrite Hpar, (chain_ext d d1 n) by auto. reflexivity.
Qed.

Lemma store_new_record d n p : store d n -> page_ok p -> store (upd d (commit_sector n) p) n.
Proof.
  intros [Hn Hsup Hrec Hb] Hp. split; [done| | |].
  - rewrite upd_ne by (pose proof (commit_not_super n); lia). done.
  - intros slot Hs. eapply rec_ok_ext, Hrec, Hs. apply upd_ne. unfold commit_sector. lia.
  - intros sec. unfold upd. by destruct (_ =? _).
Qed.

Section Commit.
Context (s : Led) (n : Z) (ns vlen from intent derived rev : Z).
Context (Hs : sane s) (Hst : store (disk s) n) (Hlt : n < COMMIT_SLOTS) (Hns : 0 <= ns < CAIRN1_NS_MAX).
Context (Hi : fits 32 intent) (Hde : fits 32 derived) (Hrv : fits 8 rev) (Hlen : 0 <= vlen).
Let vl := Z.min vlen (CAIRN1_VALUE_MAX - 1).
Let h := commit_header (disk s) n ns vl from intent derived rev (input s).

Lemma commit_header_ok : header_ok h.
Proof using Hs Hst Hlt Hns Hi Hde Hrv Hlen.
  destruct Hst as [Hn (_ & _ & He) _ _]. destruct (He ns Hns) as [Hh _].
  assert (fits 32 vl) by (unfold fits, vl, CAIRN1_VALUE_MAX, SECTOR_SIZE, VALUE_OFF in *; lia).
  unfold CAIRN1_NS_MAX, COMMIT_SLOTS in *.
  split; cbn -[fnv64]; try done; try (apply wrap_fits; lia); try apply fnv_fits; try (unfold fits; lia).
  eapply ref_ok_fits, Hh. unfold COMMIT_SLOTS. lia.
Qed.

Lemma commit_runs : exists s' p, cairn_commit ok_dev ns vlen from intent derived rev s = Some (IPC_STATUS_OK, s') /\
  sane s' /\ decode p = Some h /\ value_at p vl = input_bytes (input s) vl /\ page_ok p /\ exists w,
  super_view w (upd (disk s) (commit_sector n) p) n /\
  disk s' = upd (upd (disk s) (commit_sector n) p) CAIRN1_SUPER_SECTOR
              (moved (put_u32 w 8 (n + 1)) ns n (count_of (disk s CAIRN1_SUPER_SECTOR) ns + 1)).
Proof using Hs Hst Hlt Hns Hi Hde Hrv Hlen.
  pose proof commit_header_ok as Hh. unfold cairn_commit. rewrite (bind_load _ n) by done. cbn [negb].
  set (s1 := read_into s CAIRN1_SUPER_SECTOR). pose proof (load_view s n Hst (sane_data _ Hs)) as Hv. fold s1 in Hv.
  rewrite bind_read_u32, (v_next _ _ _ Hv), (proj2 (Z.leb_gt COMMIT_SLOTS n)) by done.
  rewrite !bind_read_u32. fold (head_of (data s1) ns) (count_of (data s1) ns).
  destruct (v_entry _ _ _ Hv ns Hns) as (-> & -> & _). fold vl. rewrite bind_input. change (input s1) with (input s).
  rewrite (wrap_small 32 vl), (wrap_small 32 ns) by (apply Hh). fold h.
  rewrite bind_zero, bind_data, bind_put, bind_write.
  set (p := copy_window (input s) 0 (encode h (zero_page (data s1))) VALUE_OFF vl).
  change (with_data (with_data s1 (zero_page (data s1))) p) with (with_data s1 p). cbn [Z.eqb negb].
  set (s2 := write_out (with_data s1 p) (commit_sector n)).
  assert (Hp : page_ok p).
  { apply page_ok_copy; [apply Hs|]. apply page_ok_encode; [apply page_ok_zero, Hv|done|done]. }
  assert (Hst2 : store (disk s2) n) by by apply store_new_record.
  rewrite (bind_load s2 n) by done. cbn [negb]. rewrite !bind_write_u32, bind_write. cbn [Z.eqb negb].
  pose proof (load_view s2 n Hst2 Hp) as Hv2. set (s3 := read_into s2 CAIRN1_SUPER_SECTOR) in *.
  eexists _, p. split; [reflexivity|]. split.
  { split; [|apply page_ok_moved, page_ok_put, Hv2|apply Hs]. intros sec. cbn [disk write_out with_data]. unfold upd.
    destruct (_ =? _); [apply page_ok_moved, page_ok_put, Hv2|]. apply Hst2. }
  split; [by apply copied_decode|]. split; [by apply copied_value|]. split; [done|].
  exists (data s3). split; [exact Hv2|]. reflexivity.
Qed.
End Commit.

Definition value_len (vlen : Z) : Z := Z.min vlen (CAIRN1_VALUE_MAX - 1).

(** Two stores with the same live effects in every namespace but [ns]. *)
Definition same_but (ns : Z) (d d' : disk_t) : Prop := forall ns', 0 <= ns' < CAIRN1_NS_MAX -> ns' <> ns ->
  history d' ns' = history d ns' /\ revoked_of (d' CAIRN1_SUPER_SECTOR) ns' = revoked_of (d CAIRN1_SUPER_SECTOR) ns'.

Lemma commit_spec s n ns vlen from intent derived rev :
  sane s -> store (disk s) n -> n < COMMIT_SLOTS -> 0 <= ns < CAIRN1_NS_MAX ->
  fits 32 intent -> fits 32 derived -> fits 8 rev -> 0 <= vlen ->
  let h := commit_header (disk s) n ns (value_len vlen) from intent derived rev (input s) in
  exists s', cairn_commit ok_dev ns vlen from intent derived rev s = Some (IPC_STATUS_OK, s') /\
    sane s' /\ store (disk s') (n + 1) /\
    history (disk s') ns = mkEffect n h (input_bytes (input s) (value_len vlen)) :: history (disk s) ns /\
    revoked_of (disk s' CAIRN1_SUPER_SECTOR) ns = revoked_of (disk s CAIRN1_SUPER_SECTOR) ns /\
    same_but ns (disk s) (disk s').
Proof.
  intros Hs Hst Hlt Hns Hi Hde Hrv Hlen h.
  destruct (commit_runs s n ns vlen from intent derived rev Hs Hst Hlt Hns Hi Hde Hrv Hlen)
    as (s' & p & E & Hs' & Hdec & Hval & Hp & w & Hv & Hd).
  exists s'. split; [exact E|]. split; [exact Hs'|]. rewrite Hd.
  assert (Hc : 0 <= count_of (disk s CAIRN1_SUPER_SECTOR) ns + 1 <= n + 1).
  { destruct Hst as [_ (_ & _ & He) _ Hb]. destruct (He ns Hns) as [_ Hc].
    pose proof (page_u32_fits (disk s CAIRN1_SUPER_SECTOR) (cairn_ns_entry_off ns + 20) (Hb _)) as [Hc0 _].
    unfold count_of in *. lia. }
  destruct (push_record (disk s) n ns p _ w _ Hst Hlt Hns Hp Hdec eq_refl Hc Hv) as [Hst' Hview].
  split; [exact Hst'|]. destruct (Hview ns Hns) as [-> ->]. rewrite Z.eqb_refl. split; [|split; [reflexivity|]].
  - unfold effect_of. cbn [len commit_header]. fold (value_len vlen) in Hval |- *. fold h.
    rewrite (Z.min_l (value_len vlen)) by (unfold value_len; lia). by rewrite Hval.
  - intros ns' Hns' Hne. destruct (Hview ns' Hns') as [-> ->]. by rewrite (proj2 (Z.eqb_neq ns' ns) Hne).
Qed.

Lemma commit_full s n ns vlen from intent derived rev : sane s -> store (disk s) n -> n = COMMIT_SLOTS ->
  exists s', cairn_commit ok_dev ns vlen from intent derived rev s = Some (IPC_STATUS_IO_FAILURE, s') /\
    disk s' = disk s.
Proof.
  intros Hs Hst Hn. unfold cairn_commit. rewrite (bind_load _ n) by done. cbn [negb].
  rewrite bind_read_u32, (v_next _ _ _ (load_view s n Hst (sane_data _ Hs))), (proj2 (Z.leb_le COMMIT_SLOTS n)) by lia.
  eexists. split; [reflexivity|]. done.
Qed.

(** ** Get and verify *)

Lemma bind_load_head {B} s n ns (f : option Z -> LedM B) : sane s -> store (disk s) n -> 0 <= ns < CAIRN1_NS_MAX ->
  let head := head_of (disk s CAIRN1_SUPER_SECTOR) ns in
  let s1 := read_into s CAIRN1_SUPER_SECTOR in
  (cairn_load_head ok_dev ns ≫= f) s =
    if head =? NONE then f (Some NONE) s1 else f (Some head) (read_into s1 (commit_sector head)).
Proof.
  intros Hs Hst Hns head s1. unfold cairn_load_head. rewrite bind_assoc, (bind_load _ n) by done. cbn [negb].
  fold s1. rewrite bind_assoc, bind_read_u32. fold (head_of (data s1) ns).
  destruct (v_entry _ _ _ (load_view s n Hst (sane_data _ Hs)) ns Hns) as (Hhd & _).
  fold s1 head in Hhd. rewrite Hhd. destruct (Z.eqb_spec head NONE) as [Hh|Hh]; [done|]. rewrite bind_assoc, bind_read, bind_assoc.
  destruct Hst as [_ (_ & _ & He) Hrec _]. destruct (He ns Hns) as [[?|Hlt] _]; [done|].
  unfold bad_record. cbn [Z.eqb negb]. rewrite bind_assoc, bind_starts_with.
  rewrite (agrees_magic _ _ _ (read_agrees s1 (commit_sector head))) by done.
  change (disk s1) with (disk s). destruct (Hrec head Hlt) as [-> _]. done.
Qed.

(** The head record of a namespace, as the loaded window shows it. *)
Lemma history_head d n ns e rest : store d n -> 0 <= ns < CAIRN1_NS_MAX -> history d ns = e :: rest ->
  let head := head_of (d CAIRN1_SUPER_SECTOR) ns in
  head <> NONE /\ e_slot e = head /\ decode (d (commit_sector head)) = Some (e_head e) /\
  e_value e = value_at (d (commit_sector head)) (Z.min (len (e_head e)) CAIRN1_VALUE_MAX).
Proof.
  intros [Hn (_ & _ & He) Hrec _] Hns Hh head. unfold history in Hh. fold head in Hh.
  destruct (He ns Hns) as [[Hnone|Hlt] _]; [fold head in Hnone|fold head in Hlt].
  { by rewrite Hnone in Hh. }
  destruct (rec_decode d n head Hrec Hlt) as (h & Hd & _). rewrite (chain_cons d n head h) in Hh by (done || lia).
  injection Hh as <- <-. split; [unfold NONE, COMMIT_SLOTS in *; lia|]. done.
Qed.

Lemma history_nil d n ns : store d n -> 0 <= ns < CAIRN1_NS_MAX -> history d ns = [] ->
  head_of (d CAIRN1_SUPER_SECTOR) ns = NONE.
Proof.
  intros [Hn (_ & _ & He) Hrec _] Hns Hh. unfold history in Hh. destruct (He ns Hns) as [[|Hlt] _]; [done|].
  destruct (rec_decode d n _ Hrec Hlt) as (h & Hd & _). by rewrite (chain_cons d n _ h) in Hh by (done || lia).
Qed.

Lemma move_front_at n i d o : 0 <= i ->
  move_front n i d o = if (i <=? o) && (o <? i + Z.of_nat n) then d (VALUE_OFF + o) else d o.
Proof.
  revert i d. induction n as [|n IH]; intros i d Hi; cbn [move_front].
  - destruct (Z.leb_spec i o), (Z.ltb_spec o (i + Z.of_nat 0)); done || lia.
  - rewrite IH by lia. cbn [wr page_store]. unfold VALUE_OFF.
    destruct (Z.leb_spec (i + 1) o), (Z.leb_spec i o), (Z.ltb_spec o (i + 1 + Z.of_nat n)),
      (Z.ltb_spec o (i + Z.of_nat (S n))); try lia; cbn [andb];
      repeat match goal with |- context [i =? ?x] => destruct (Z.eqb_spec i x) end; done || lia || by subst.
Qed.

(** The window holds [v], then zeros to the end of the sector. *)
Definition window_is (d : Page) (v : list Z) : Prop :=
  forall o, 0 <= o < SECTOR_SIZE -> d o = default 0 (v !! Z.to_nat o).

Lemma value_lookup p n o : 0 <= o < n -> value_at p n !! Z.to_nat o = Some (p (VALUE_OFF + o)).
Proof.
  intros Ho. unfold value_at. rewrite list_lookup_fmap, lookup_seqZ_lt by lia. cbn. do 2 f_equal. lia.
Qed.

Lemma moved_window p n : 0 <= n <= CAIRN1_VALUE_MAX -> window_is (clear_from n (move_front (Z.to_nat n) 0 p)) (value_at p n).
Proof.
  intros Hn o Ho. unfold clear_from. rewrite move_front_at by lia. rewrite Z2Nat.id by lia.
  destruct (Z.leb_spec n o).
  - rewrite (proj2 (Z.ltb_lt o SECTOR_SIZE)) by lia. cbn [andb]. rewrite lookup_ge_None_2; [done|].
    unfold value_at. rewrite length_fmap, length_seqZ. lia.
  - cbn [andb]. rewrite (proj2 (Z.leb_le 0 o)), (proj2 (Z.ltb_lt o (0 + n))) by lia. cbn [andb].
    by rewrite value_lookup by lia.
Qed.

(** The hash of a list of bytes. *)
Definition fnv_list (bs : list Z) : Z :=
  fold_left (fun h b => wrap 64 (Z.lxor h b * 0x100000001b3)) bs 0xcbf29ce484222325.

Lemma fnv_loop_list pg off n h :
  fnv_loop pg off n h = fold_left (fun h b => wrap 64 (Z.lxor h b * 0x100000001b3)) (map (fun i => pg (off + i)) (seqZ 0 (Z.of_nat n))) h.
Proof.
  revert off h. induction n as [|n IH]; intros off h; [done|].
  rewrite seqZ_cons, Nat2Z.inj_succ, Z.pred_succ by lia. cbn [fnv_loop map fold_left]. rewrite IH, Z.add_0_r.
  change (Z.succ 0) with (1 + 0). rewrite <- fmap_add_seqZ. f_equal.
  transitivity ((fun i => pg (off + i)) <$> (Z.add 1 <$> seqZ 0 (Z.of_nat n))); [|done].
  rewrite <- list_fmap_compose. apply list_fmap_ext. intros _ x _. cbn. f_equal. lia.
Qed.

Lemma fnv_value p n : 0 <= n -> fnv64 p VALUE_OFF n = fnv_list (value_at p n).
Proof. intros Hn. unfold fnv64. rewrite fnv_loop_list, Z2Nat.id by done. done. Qed.

Lemma fnv_input i n : 0 <= n -> fnv64 i 0 n = fnv_list (input_bytes i n).
Proof. intros Hn. unfold fnv64. rewrite fnv_loop_list, Z2Nat.id by done. done. Qed.

Lemma get_spec s n ns : sane s -> store (disk s) n -> 0 <= ns < CAIRN1_NS_MAX ->
  match history (disk s) ns with
  | [] => exists s', cairn_get ok_dev ns s = Some (IPC_STATUS_UNAVAILABLE, s') /\ disk s' = disk s
  | e :: _ => len (e_head e) <= CAIRN1_VALUE_MAX ->
    exists s', cairn_get ok_dev ns s = Some (IPC_STATUS_OK, s') /\ disk s' = disk s /\ window_is (data s') (e_value e)
  end.
Proof.
  intros Hs Hst Hns. unfold cairn_get. rewrite (bind_load_head s n) by done.
  destruct (history (disk s) ns) as [|e rest] eqn:Hh.
  - rewrite (history_nil _ _ _ Hst Hns Hh). eexists. split; [reflexivity|]. done.
  - intros Hlen. destruct (history_head _ _ _ _ _ Hst Hns Hh) as (Hne & _ & Hdec & Hval).
    set (head := head_of (disk s CAIRN1_SUPER_SECTOR) ns) in *. rewrite (proj2 (Z.eqb_neq head NONE) Hne).
    set (s2 := read_into _ (commit_sector head)).
    assert (Ha : agrees (data s2) (disk s (commit_sector head)))
      by apply (read_agrees (read_into s CAIRN1_SUPER_SECTOR)).
    assert (Hl : get_u32 (data s2) 32 = len (e_head e)).
    { rewrite (agrees_u32 _ _ 32 Ha) by done. unfold decode in Hdec. destruct (magic_at _ _ _); [|done].
      cbn [negb] in Hdec. by injection Hdec as <-. }
    assert (Hl0 : 0 <= len (e_head e)).
    { rewrite <- Hl, (agrees_u32 _ _ 32 Ha) by done. apply page_u32_fits, Hst. }
    rewrite bind_read_u32, Hl, bind_data, bind_put. eexists. split; [reflexivity|]. split; [reflexivity|].
    rewrite Hval, Z.min_l, <- (agrees_value _ _ _ Ha) by lia. by apply moved_window.
Qed.

Lemma verify_spec s n ns : sane s -> store (disk s) n -> 0 <= ns < CAIRN1_NS_MAX ->
  exists s', disk s' = disk s /\ cairn_verify ok_dev ns s = Some (match history (disk s) ns with
    | [] => IPC_STATUS_UNAVAILABLE
    | e :: _ => if hash (e_head e) =? fnv_list (e_value e) then IPC_STATUS_OK else IPC_STATUS_IO_FAILURE
    end, s').
Proof.
  intros Hs Hst Hns. unfold cairn_verify. rewrite (bind_load_head s n) by done.
  destruct (history (disk s) ns) as [|e rest] eqn:Hh.
  - rewrite (history_nil _ _ _ Hst Hns Hh). eexists. split; [|reflexivity]. done.
  - destruct (history_head _ _ _ _ _ Hst Hns Hh) as (Hne & _ & Hdec & Hval).
    set (head := head_of (disk s CAIRN1_SUPER_SECTOR) ns) in *. rewrite (proj2 (Z.eqb_neq head NONE) Hne).
    set (s2 := read_into _ (commit_sector head)).
    assert (Ha : agrees (data s2) (disk s (commit_sector head)))
      by apply (read_agrees (read_into s CAIRN1_SUPER_SECTOR)).
    rewrite <- (agrees_decode _ _ Ha) in Hdec.
    assert (Hm : magic_at (data s2) 0 CAIRN_MAGIC = true) by (unfold decode in Hdec; by destruct (magic_at (data s2) 0 _)).
    destruct (decode_magic _ Hm) as (h & Hd & _ & _ & _ & Hlen & _ & Hhash). simplify_eq.
    assert (Hl0 : 0 <= len (e_head e)).
    { rewrite Hlen. apply page_u32_fits. apply page_ok_overlay; [apply Hst|]. apply page_ok_overlay; [apply Hst|apply Hs]. }
    exists s2. split; [done|]. rewrite bind_data, <- Hlen, <- Hhash, Hval.
    rewrite fnv_value by (unfold CAIRN1_VALUE_MAX, SECTOR_SIZE, VALUE_OFF; lia).
    by rewrite (agrees_value _ _ _ Ha) by lia.
Qed.

(** ** Rollback of a namespace *)

Lemma sane_read s sec : sane s -> sane (read_into s sec).
Proof. intros []. split; cbn; eauto with dezh. Qed.

(** Reading a live record: the window decodes to it. *)
Lemma bind_record {B} s n cur (f : bool -> LedM B) : records_ok (disk s) n -> 0 <= cur < n ->
  (st ← rw ok_dev (commit_sector cur) false; bad ← bad_record st; f bad) s = f false (read_into s (commit_sector cur)).
Proof.
  intros Hr Hc. rewrite bind_read. unfold bad_record. cbn [Z.eqb negb]. rewrite bind_assoc, bind_starts_with.
  rewrite (agrees_magic _ _ _ (read_agrees s (commit_sector cur))) by done. by destruct (Hr cur Hc) as [-> _].
Qed.

Lemma record_window s n cur : records_ok (disk s) n -> 0 <= cur < n ->
  exists h, decode (disk s (commit_sector cur)) = Some h /\ ref_ok cur (parent h) /\
    get_u32 (data (read_into s (commit_sector cur))) 8 = parent h /\
    get_u32 (data (read_into s (commit_sector cur))) OFF_INTENT = intent h /\
    get_u8 (data (read_into s (commit_sector cur))) OFF_REVCLASS = rev_class h /\
    get_u32 (data (read_into s (commit_sector cur))) OFF_DERIVED = derived h.
Proof.
  intros Hr Hc. destruct (Hr cur Hc) as [Hm Hp]. pose proof (read_agrees s (commit_sector cur)) as Ha.
  destruct (decode_magic _ Hm) as (h & Hd & Hpar & Hint & Hrev & _ & Hder & _). exists h.
  rewrite !(agrees_u32 _ _ _ Ha), Hpar, Hint, Hder by done. unfold get_u8.
  rewrite Hrev, (Ha OFF_REVCLASS) by done. done.
Qed.

Lemma walk_back_drops k n cur walked s : sane s -> records_ok (disk s) n -> n <= COMMIT_SLOTS -> ref_ok n cur ->
  0 <= walked -> exists c w s', walk_back ok_dev k cur walked s = Some (Some (c, w), s') /\
    sane s' /\ disk s' = disk s /\ ref_ok n c /\ chain (disk s) c = drop k (chain (disk s) cur).
Proof.
  intros Hs. revert cur walked s Hs. induction k as [|k IH]; intros cur walked s Hs Hr Hn Hc Hw; cbn [walk_back].
  { eexists _, _, _. split; [reflexivity|]. by rewrite drop_0. }
  destruct (Z.eqb_spec cur NONE) as [->|Hne].
  { eexists _, _, _. split; [reflexivity|]. by rewrite chain_none. }
  destruct Hc as [?|Hc]; [done|]. rewrite (bind_record s n cur) by done.
  destruct (record_window s n cur Hr Hc) as (h & Hd & Hp & Hpar & _). rewrite bind_read_u32, Hpar.
  rewrite (chain_cons _ n cur h) by done. cbn [drop].
  destruct (IH (parent h) (walked + 1) (read_into s (commit_sector cur))) as (c & w & s' & E & Hs' & Hd' & Hc' & Hch);
    [by apply sane_read|done|done|eapply ref_ok_mono, Hp; lia|lia|].
  exists c, w, s'. split; [exact E|]. split; [exact Hs'|]. split; [exact Hd'|]. split; [exact Hc'|exact Hch].
Qed.

Lemma rollback_spec s n ns steps : sane s -> store (disk s) n -> 0 <= ns < CAIRN1_NS_MAX -> 
  exists s', cairn_rollback ok_dev ns steps s =
      Some (match history (disk s) ns with [] => IPC_STATUS_UNAVAILABLE | _ => IPC_STATUS_OK end, s') /\
    store (disk s') n /\ history (disk s') ns = drop (Z.to_nat steps) (history (disk s) ns) /\
    same_but ns (disk s) (disk s').
Proof.
  intros Hs Hst Hns. unfold cairn_rollback. rewrite (bind_load _ n) by done. cbn [negb].
  set (s1 := read_into s CAIRN1_SUPER_SECTOR). pose proof (load_view s n Hst (sane_data _ Hs)) as Hv. fold s1 in Hv.
  rewrite !bind_read_u32. fold (head_of (data s1) ns) (count_of (data s1) ns).
  destruct (v_entry _ _ _ Hv ns Hns) as (-> & -> & _). set (head := head_of (disk s CAIRN1_SUPER_SECTOR) ns).
  set (count := count_of (disk s CAIRN1_SUPER_SECTOR) ns).
  destruct (history (disk s) ns) as [|e rest] eqn:Hh.
  { pose proof (history_nil _ _ _ Hst Hns Hh) as Hnone. fold head in Hnone. rewrite Hnone. exists s1.
    split; [done|]. split; [done|]. split; [by rewrite drop_nil|]. by intros ns' _ _. }
  destruct (history_head _ _ _ _ _ Hst Hns Hh) as (Hne & _). fold head in Hne.
  rewrite (proj2 (Z.eqb_neq head NONE) Hne). pose proof Hst as [Hn Hsup Hrec Hb].
  destruct (proj2 (proj2 Hsup) ns Hns) as [Hhd Hct]. fold head in Hhd. fold count in Hct.
  destruct (walk_back_drops (Z.to_nat steps) n head 0 s1) as (c & wk & s2 & E & Hs2 & Hd2 & Hc & Hch);
    [by apply sane_read|done|lia|done|lia|]. change (disk s1) with (disk s) in Hd2, Hch.
  rewrite (bind_eq _ _ _ _ _ E). cbn beta iota. assert (Hst2 : store (disk s2) n) by by rewrite Hd2.
  rewrite (bind_load s2 n) by done. cbn [negb]. rewrite !bind_write_u32, bind_write. cbn [Z.eqb negb].
  set (s3 := read_into s2 CAIRN1_SUPER_SECTOR).
  pose proof (load_view s2 n Hst2 (sane_data _ Hs2)) as Hv2. fold s3 in Hv2. rewrite Hd2 in Hv2.
  eexists. split; [reflexivity|]. change (disk (write_out _ _)) with
    (upd (disk s2) CAIRN1_SUPER_SECTOR (moved (data s3) ns c (saturating_sub count (wrap 32 wk)))).
  rewrite Hd2. assert (Hwk : 0 <= wrap 32 wk) by (apply wrap_fits; lia).
  assert (Hc0 : 0 <= count) by (unfold count, count_of; apply page_u32_fits, Hb).
  destruct (move_ref (disk s) n n (data s3) ns c (saturating_sub count (wrap 32 wk))) as [Hst' Hview]; try assumption;
    [lia|lia|unfold saturating_sub; lia|].
  split; [exact Hst'|]. split.
  - destruct (Hview ns Hns) as [-> _]. rewrite Z.eqb_refl, Hch, <- Hh. reflexivity.
  - intros ns' Hns' Hne'. destruct (Hview ns' Hns') as [-> ->]. by rewrite (proj2 (Z.eqb_neq ns' ns) Hne').
Qed.

(** ** The namespace operations implement the abstract history *)

(** C29: On a sound store with a free slot and a device that does not fail, a commit pushes exactly one
    effect, carrying the client's bytes (cut to 447) and the provenance fields it was given, onto the
    namespace's history, changes no other namespace, and a following get puts those bytes, zero padded,
    in the data window while verify finds the hash right. *)
Theorem commit_then_get_returns_the_value s n ns vlen from intent derived rev :
  sane s -> store (disk s) n -> n < COMMIT_SLOTS -> 0 <= ns < CAIRN1_NS_MAX ->
  fits 32 intent -> fits 32 derived -> fits 8 rev -> 0 <= vlen ->
  let value := input_bytes (input s) (value_len vlen) in
  exists h s1 s2 s3,
    cairn_commit ok_dev ns vlen from intent derived rev s = Some (IPC_STATUS_OK, s1) /\
    history (disk s1) ns = mkEffect n h value :: history (disk s) ns /\
    same_but ns (disk s) (disk s1) /\
    cairn_get ok_dev ns s1 = Some (IPC_STATUS_OK, s2) /\ window_is (data s2) value /\
    cairn_verify ok_dev ns s2 = Some (IPC_STATUS_OK, s3) /\
    Cairn.intent h = intent /\ Cairn.derived h = derived /\ rev_class h = rev /\ actor h = wrap 32 from.
Proof.
  intros Hs Hst Hlt Hns Hi Hde Hrv Hlen value.
  destruct (commit_spec s n ns vlen from intent derived rev Hs Hst Hlt Hns Hi Hde Hrv Hlen)
    as (s1 & E1 & Hs1 & Hst1 & Hh & _ & Hsame).
  set (h := commit_header _ _ _ _ _ _ _ _ _) in Hh. fold value in Hh.
  assert (Hvl : 0 <= value_len vlen <= CAIRN1_VALUE_MAX).
  { unfold value_len, CAIRN1_VALUE_MAX, SECTOR_SIZE, VALUE_OFF. lia. }
  pose proof (get_spec s1 (n + 1) ns Hs1 Hst1 Hns) as Hg. rewrite Hh in Hg.
  destruct Hg as (s2 & E2 & Hd2 & Hw); [apply Hvl|].
  assert (Hs2 : sane s2).
  { destruct (get_safe (dev := ok_dev) s1 ns Hs1 (store_ledger _ _ Hst1)) as (a & s2' & E2' & Hs2' & _). congruence. }
  rewrite <- Hd2 in Hst1. destruct (verify_spec s2 (n + 1) ns Hs2 Hst1 Hns) as (s3 & _ & E3).
  rewrite Hd2, Hh in E3. cbn [e_head e_value] in E3.
  exists h, s1, s2, s3. split; [exact E1|]. split; [exact Hh|]. split; [exact Hsame|]. split; [exact E2|].
  split; [exact Hw|]. split; [|done]. rewrite E3. unfold h, commit_header, value. cbn [hash].
  by rewrite fnv_input, Z.eqb_refl by apply Hvl.
Qed.

(** On a sound store and a device that does not fail, rolling a namespace back by k steps is dropping
    the k newest effects of its abstract history (UNAVAILABLE when it is empty), whatever their
    reversibility class; other namespaces keep their history. *)
Theorem rollback_drops_the_newest_effects s n ns steps :
  sane s -> store (disk s) n -> 0 <= ns < CAIRN1_NS_MAX ->
  exists s', cairn_rollback ok_dev ns steps s =
      Some (match history (disk s) ns with [] => IPC_STATUS_UNAVAILABLE | _ => IPC_STATUS_OK end, s') /\
    history (disk s') ns = drop (Z.to_nat steps) (history (disk s) ns) /\
    same_but ns (disk s) (disk s') /\ store (disk s') n.
Proof.
  intros Hs Hst Hns. destruct (rollback_spec s n ns steps Hs Hst Hns) as (s' & E & Hst' & Hh & Hsame). by exists s'.
Qed.

(** ** A formatted, empty store *)

Definition fresh_led (value : list Z) : Led :=
  mkLed (upd (fun _ _ => 0) CAIRN1_SUPER_SECTOR (fmt (fun _ => 0))) (fun _ => 0) (list_page value) 0 [].

Lemma fmt_ok d : page_ok d -> page_ok (fmt d).
Proof.
  intros Hd. unfold fmt.
  assert (Hz : sane (mkLed (fun _ _ => 0) d (fun _ => 0) 0 [])) by by split.
  destruct (format_page_spec _ Hz) as (u & s & E & Hs & _). rewrite E. apply Hs.
Qed.

Lemma fresh_disk_ok : store (upd (fun _ _ => 0) CAIRN1_SUPER_SECTOR (fmt (fun _ => 0))) 0.
Proof.
  assert (Hp : page_ok (fmt (fun _ => 0))) by by apply fmt_ok.
  split; [done| | |].
  - rewrite upd_eq. apply fmt_super.
  - intros slot Hs. lia.
  - intros sec. unfold upd. destruct (sec =? CAIRN1_SUPER_SECTOR); [exact Hp|]. by intros o.
Qed.

Lemma fresh_led_ok value : bytes_ok value -> sane (fresh_led value) /\ store (disk (fresh_led value)) 0.
Proof.
  intros Hv. pose proof fresh_disk_ok as Hst. split; [|exact Hst].
  split; [apply Hst|by intros o|by apply page_ok_list].
Qed.

Lemma fresh_history value ns : 0 <= ns < CAIRN1_NS_MAX -> history (disk (fresh_led value)) ns = [].
Proof.
  intros Hns. unfold history. cbn [disk fresh_led]. rewrite upd_eq.
  destruct (fmt_super (fun _ => 0)) as (_ & _ & He). destruct (He ns Hns) as [[-> |?] _]; [done|lia].
Qed.

Lemma commit_then_get_returns_the_value_witness :
  let s := fresh_led [104; 105] in
  exists h s1 s2, cairn_commit ok_dev 4 2 3 7 5 REV_COMPENSATABLE s = Some (IPC_STATUS_OK, s1) /\
    history (disk s1) 4 = [mkEffect 0 h [104; 105]] /\
    cairn_get ok_dev 4 s1 = Some (IPC_STATUS_OK, s2) /\ window_is (data s2) [104; 105].
Proof.
  intros s. assert (H4 : 0 <= 4 < CAIRN1_NS_MAX) by done.
  pose proof (fresh_history [104; 105] 4 H4) as Hn. fold s in Hn.
  destruct (fresh_led_ok [104; 105]) as [Hs Hst]; [by apply bytes_okb_spec|].
  destruct (commit_then_get_returns_the_value s 0 4 2 3 7 5 REV_COMPENSATABLE Hs Hst)
    as (h & s1 & s2 & s3 & E1 & Hh & _ & E2 & Hw & _); [done|done|done|done|done|done|].
  assert (Hv : input_bytes (input s) (value_len 2) = [104; 105]) by reflexivity.
  clearbody s. rewrite Hv in Hh, Hw. rewrite Hn in Hh.
  exists h, s1, s2. split; [exact E1|]. split; [exact Hh|]. split; [exact E2|exact Hw].
Defined.

Lemma rollback_drops_the_newest_effects_witness :
  exists s', cairn_rollback ok_dev 4 1 (fresh_led [104]) = Some (IPC_STATUS_UNAVAILABLE, s') /\
    history (disk s') 4 = [].
Proof.
  assert (H4 : 0 <= 4 < CAIRN1_NS_MAX) by done. pose proof (fresh_history [104] 4 H4) as Hn.
  destruct (fresh_led_ok [104]) as [Hs Hst]; [by apply bytes_okb_spec|].
  destruct (rollback_drops_the_newest_effects (fresh_led [104]) 0 4 1 Hs Hst H4) as (s' & E & Hh & _).
  rewrite Hn in E. rewrite Hn in Hh.
  exists s'. split; [exact E|exact Hh].
Defined.
