(* ===== verification/LedgerMission.v ===== *)
(** * Missions: what a forecast and a whole-mission rollback do

    A mission is the set of live effects under one intent.  On a device that
    does not fail, [sfar_plan] counts exactly them, [sfar_rollback] refuses
    before touching anything unless the caller holds every namespace the
    mission touched, and otherwise retracts in every namespace the newest run
    of reversible mission effects, recording a compensation where the run stops
    at a compensatable one. *)

From Stdlib Require Import ZArith Lia.
From stdpp Require Import base option numbers list.
From S2P Require Import Prelude Text Cairn Ledger LedgerInv LedgerSafe LedgerSpec.

(** ** The abstract mission *)

Definition mine (ahd : Z) (e : Effect) : bool := intent (e_head e) =? ahd.
Definition retractable (ahd : Z) (e : Effect) : bool := mine ahd e && (rev_class (e_head e) =? REV_REVERSIBLE).

Fixpoint drop_while {A} (p : A -> bool) (l : list A) : list A :=
  match l with [] => [] | x :: l' => if p x then drop_while p l' else l end.

Fixpoint after_sep (v : list Z) : option (list Z) :=
  match v with [] => None | b :: v => if b =? SAND_COMP_SEP then Some v else after_sep v end.

Fixpoint until_zero (room : nat) (v : list Z) : list Z :=
  match v, room with
  | b :: v, S room => if b =? 0 then [] else b :: until_zero room v
  | _, _ => []
  end.

(** The compensating action an effect's value registers: at most 96 bytes after
    the separator. *)
Definition compensation_of (v : list Z) : option (list Z) :=
  w ← after_sep v; match until_zero 96 w with [] => None | a => Some a end.

(** The action to run when the newest effect left standing is compensatable. *)
Definition owed (ahd : Z) (l : list Effect) : option (list Z) :=
  match l with
  | e :: _ => if mine ahd e && (rev_class (e_head e) =? REV_COMPENSATABLE) then compensation_of (e_value e) else None
  | [] => None
  end.

(** [c] records that [action] was run on behalf of [from] to undo the newest
    effect of [l]. *)
Definition compensates (ahd from : Z) (l : list Effect) (action : list Z) (c : Effect) : Prop :=
  exists e rest, l = e :: rest /\ parent (e_head c) = e_slot e /\ e_value c = comp_value action /\
    intent (e_head c) = ahd /\ derived (e_head c) = derived (e_head e) /\ actor (e_head c) = wrap 32 from /\
    status (e_head c) = STATUS_COMPENSATION /\ rev_class (e_head c) = REV_REVERSIBLE.

(** What rolling back mission [ahd] makes of one namespace's history. *)
Definition undo_result (ahd from : Z) (h h' : list Effect) : Prop :=
  let rest := drop_while (retractable ahd) h in
  match owed ahd rest with
  | None => h' = rest
  | Some action => exists c, h' = c :: rest /\ compensates ahd from rest action c
  end.

Definition touches (ahd : Z) (d : disk_t) (ns : Z) : bool := existsb (mine ahd) (history d ns).

(** The caller holds every namespace the mission touched. *)
Definition authorized (ahd caps : Z) (d : disk_t) : bool :=
  forallb (fun ns => negb (touches ahd d ns) || Z.testbit caps (TASK_CAIRN_NS_BASE + ns)) all_ns.

(** ** Walking the live chains *)

Lemma decode_fields (p : Page) h : decode p = Some h ->
  magic_at p 0 CAIRN_MAGIC = true /\ get_u32 p 8 = parent h /\ get_u32 p OFF_INTENT = intent h /\
  p OFF_REVCLASS = rev_class h /\ get_u32 p 32 = len h /\ get_u32 p OFF_DERIVED = derived h.
Proof.
  intros Hd. assert (Hm : magic_at p 0 CAIRN_MAGIC = true) by (unfold decode in Hd; by destruct (magic_at p 0 _)).
  destruct (decode_magic p Hm) as (h' & Hd' & Hp & Hi & Hr & Hl & Hde & _). by simplify_eq.
Qed.

(** The parts of a state that reading leaves alone. *)
Definition same_store (s s' : Led) : Prop := disk s' = disk s /\ input s' = input s /\ notes s' = notes s.

#[export] Instance same_store_preorder : PreOrder same_store.
Proof. split; [by intros s|]. intros s1 s2 s3 (?&?&?) (?&?&?). unfold same_store. split; [congruence|]. split; congruence. Qed.

Section Walk.
Context {A : Type} (f : Z -> Page -> A -> A) (g : Z -> CommitHeader -> A -> A).
Hypothesis Hfg : forall slot p h acc, decode p = Some h -> f slot p acc = g slot h acc.

Definition fold_chain (l : list Effect) (acc : A) : A := fold_left (fun acc e => g (e_slot e) (e_head e) acc) l acc.

Lemma walk_live_run k n cur acc s : sane s -> records_ok (disk s) n -> ref_ok n cur ->
  exists s', walk_live ok_dev k cur f acc s = Some (fold_chain (chain_upto (disk s) k cur) acc, s') /\
    sane s' /\ same_store s s'.
Proof using Hfg.
  revert n cur acc s. induction k as [|k IH]; intros n cur acc s Hs Hr Hc; cbn [walk_live chain_upto].
  { exists s. done. }
  destruct (Z.eqb_spec cur NONE) as [|Hne]; [exists s; done|]. destruct Hc as [?|Hc]; [done|].
  rewrite (bind_record s n cur) by done. destruct (record_window s n cur Hr Hc) as (h & Hd & Hp & Hpar & _).
  rewrite bind_data, Hpar, Hd. cbn [fold_chain fold_left effect_of e_slot e_head].
  assert (Hdw : decode (data (read_into s (commit_sector cur))) = Some h).
  { rewrite <- Hd. apply agrees_decode, read_agrees. }
  rewrite (Hfg _ _ _ _ Hdw).
  destruct (IH cur (parent h) (g cur h acc) (read_into s (commit_sector cur))) as (s' & E & Hs' & Hk);
    [by apply sane_read|intros slot Hsl; apply Hr; lia|done|].
  exists s'. split; [exact E|]. split; [exact Hs'|exact Hk].
Qed.

End Walk.

Section WalkNs.
Context {A : Type} (f : Z -> Z -> Page -> A -> A) (g : Z -> Z -> CommitHeader -> A -> A).
Hypothesis Hfg : forall ns slot p h acc, decode p = Some h -> f ns slot p acc = g ns slot h acc.

Definition fold_histories (d : disk_t) (nss : list Z) (acc : A) : A :=
  fold_left (fun acc ns => fold_chain (g ns) (history d ns) acc) nss acc.

Lemma walk_nss_run n (head : Z -> Z) nss acc s : sane s -> records_ok (disk s) n ->
  Forall (fun ns => ref_ok n (head ns) /\ head ns = head_of (disk s CAIRN1_SUPER_SECTOR) ns) nss ->
  exists s', for_each nss (fun ns acc => walk_live ok_dev (Z.to_nat COMMIT_SLOTS) (head ns) (f ns) acc) acc s =
      Some (fold_histories (disk s) nss acc, s') /\ sane s' /\ same_store s s'.
Proof using Hfg.
  intros Hs Hr Hall. revert acc s Hs Hr Hall. induction nss as [|ns nss IH]; intros acc s Hs Hr Hall; cbn [for_each].
  { exists s. done. }
  apply Forall_cons in Hall as [[Href Hhead] Hall].
  destruct (walk_live_run (f ns) (g ns) (Hfg ns) (Z.to_nat COMMIT_SLOTS) n (head ns) acc s Hs Hr Href)
    as (s1 & E1 & Hs1 & Hk1). rewrite (bind_eq _ _ _ _ _ E1).
  destruct Hk1 as (Hd1 & Hk1). rewrite <- Hd1 in Hr, Hall.
  destruct (IH (fold_chain (g ns) (chain_upto (disk s) (Z.to_nat COMMIT_SLOTS) (head ns)) acc) s1 Hs1 Hr Hall)
    as (s2 & E2 & Hs2 & Hk2).
  exists s2. rewrite E2. split; [|split; [exact Hs2|]].
  - unfold fold_histories. cbn [fold_left]. rewrite Hd1. unfold history, chain. rewrite Hhead. reflexivity.
  - etrans; [|exact Hk2]. split; [exact Hd1|exact Hk1].
Qed.

End WalkNs.

Definition head_in (heads : list Z) (ns : Z) : Z := default NONE (heads !! Z.to_nat ns).

Lemma all_ns_lookup ns : 0 <= ns < CAIRN1_NS_MAX -> all_ns !! Z.to_nat ns = Some ns.
Proof.
  intros Hns. unfold CAIRN1_NS_MAX in Hns.
  assert (ns = 0 \/ ns = 1 \/ ns = 2 \/ ns = 3 \/ ns = 4 \/ ns = 5 \/ ns = 6 \/ ns = 7) as H by lia.
  by destruct H as [-> |[-> |[-> |[-> |[-> |[-> |[-> | ->]]]]]]].
Qed.

Lemma entries_lookup w off ns : 0 <= ns < CAIRN1_NS_MAX ->
  entries w off !! Z.to_nat ns = Some (get_u32 w (cairn_ns_entry_off ns + off)).
Proof.
  intros Hns. unfold entries. rewrite (list_lookup_fmap (fun ns => get_u32 w (cairn_ns_entry_off ns + off)) all_ns).
  by rewrite all_ns_lookup.
Qed.

Lemma head_in_entries w ns : 0 <= ns < CAIRN1_NS_MAX -> head_in (entries w 16) ns = head_of w ns.
Proof. intros Hns. unfold head_in. by rewrite entries_lookup. Qed.

Lemma all_ns_elem ns : ns ∈ all_ns -> 0 <= ns < CAIRN1_NS_MAX.
Proof. intros Hin. pose proof all_ns_range as Hall. rewrite Forall_forall in Hall. by apply Hall. Qed.

Section Touched.
Context (s : Led) (n : Z) (w : Page).
Context (Hs : sane s) (Hst : store (disk s) n) (Hv : super_view w (disk s) n).

Lemma heads_ok : Forall (fun ns => ref_ok n (head_in (entries w 16) ns) /\
  head_in (entries w 16) ns = head_of (disk s CAIRN1_SUPER_SECTOR) ns) all_ns.
Proof using Hst Hv.
  apply Forall_forall. intros ns Hns%all_ns_elem. rewrite head_in_entries by done.
  destruct (v_entry _ _ _ Hv ns Hns) as (-> & _). split; [|done]. destruct Hst as [_ (_ & _ & He) _ _]. by apply He.
Qed.

Lemma walk_ns_run {A} (f : Z -> Z -> Page -> A -> A) g acc :
  (forall ns slot p h acc, decode p = Some h -> f ns slot p acc = g ns slot h acc) ->
  exists s', walk_ns ok_dev (entries w 16) f acc s = Some (fold_histories g (disk s) all_ns acc, s') /\
    sane s' /\ same_store s s'.
Proof using Hs Hst Hv.
  intros Hfg. apply (walk_nss_run f g Hfg n (head_in (entries w 16)) all_ns acc s Hs); [apply Hst|apply heads_ok].
Qed.

End Touched.

(** ** Which namespaces a mission touched *)

Definition touch (ahd ns : Z) (_ : Z) (h : CommitHeader) (t : Z) : Z :=
  if intent h =? ahd then t .| Z.shiftl 1 ns else t.

Lemma fold_touch ahd ns l t : 0 <= ns -> forall i, 0 <= i ->
  Z.testbit (fold_chain (touch ahd ns) l t) i = Z.testbit t i || ((ns =? i) && existsb (mine ahd) l).
Proof.
  intros Hns i Hi. revert t. induction l as [|e l IH]; intros t; cbn [fold_chain fold_left existsb].
  { by rewrite andb_false_r, orb_false_r. }
  etrans; [apply IH|]. unfold touch, mine at 2. destruct (intent (e_head e) =? ahd); [|done].
  rewrite Z.lor_spec, Z.shiftl_1_l, Z.pow2_bits_eqb by done. cbn [orb].
  destruct (Z.testbit t i), (ns =? i); cbn; done.
Qed.

Lemma fold_touches ahd d nss t i : Forall (fun ns => 0 <= ns) nss -> 0 <= i ->
  Z.testbit (fold_histories (touch ahd) d nss t) i =
  Z.testbit t i || existsb (fun ns => (ns =? i) && touches ahd d ns) nss.
Proof.
  intros Hnss Hi. revert t. induction Hnss as [|ns nss Hns _ IH]; intros t; cbn [fold_histories fold_left existsb].
  { by rewrite orb_false_r. }
  etrans; [apply IH|]. rewrite fold_touch by done. by rewrite orb_assoc.
Qed.

Definition touched_mask (ahd : Z) (d : disk_t) : Z := fold_histories (touch ahd) d all_ns 0.

Lemma touched_bit ahd d ns : ns ∈ all_ns -> Z.testbit (touched_mask ahd d) ns = touches ahd d ns.
Proof.
  intros Hin. pose proof (all_ns_elem ns Hin) as Hns. unfold touched_mask. rewrite fold_touches; [|by repeat constructor|lia].
  rewrite Z.bits_0. cbn [orb]. apply eq_true_iff_eq. rewrite existsb_exists. split.
  - intros (x & _ & [Hx Ht]%andb_true_iff). apply Z.eqb_eq in Hx as ->. done.
  - intros Ht. exists ns. rewrite Z.eqb_refl. split; [by apply list_elem_of_In|done].
Qed.

Lemma missing_spec ahd caps d ns : ns ∈ all_ns ->
  missing_ns (touched_mask ahd d) caps ns = touches ahd d ns && negb (Z.testbit caps (TASK_CAIRN_NS_BASE + ns)).
Proof.
  intros Hin. pose proof (all_ns_elem ns Hin) as Hns. unfold missing_ns. rewrite !Z.shiftl_1_l.
  rewrite land_bit_nonzero, touched_bit by (done || lia). f_equal.
  rewrite <- (negb_involutive (_ =? 0)), land_bit_nonzero by (unfold TASK_CAIRN_NS_BASE; lia). done.
Qed.

Lemma touched_zero ahd d : touched_mask ahd d = 0 -> forall caps, authorized ahd caps d = true.
Proof.
  intros Hz caps. apply forallb_forall. intros ns Hin%list_elem_of_In. rewrite <- touched_bit, Hz, Z.bits_0 by done. done.
Qed.

(** ** The authority gate *)

Lemma authorized_run caps t nss ok s : sane s ->
  exists s', for_each nss (fun ns ok => if missing_ns t caps ns then say (NDenied ns) ;; mret false else mret ok) ok s =
      Some (ok && forallb (fun ns => negb (missing_ns t caps ns)) nss, s') /\ sane s' /\ disk s' = disk s /\
    (forallb (fun ns => negb (missing_ns t caps ns)) nss = true -> notes s' = notes s).
Proof.
  revert ok s. induction nss as [|ns nss IH]; intros ok s Hs; cbn [for_each forallb].
  { exists s. by rewrite andb_true_r. }
  destruct (missing_ns t caps ns); cbn [negb andb].
  - rewrite bind_assoc. set (s1 := mkLed (disk s) (data s) (input s) (tick s) (notes s ++ [NDenied ns])).
    rewrite (bind_eq (say (NDenied ns)) _ s tt s1) by done. rewrite (bind_eq (mret false) _ s1 false s1) by done.
    destruct (IH false s1) as (s' & E & Hs' & Hd' & _); [by destruct Hs; split|]. exists s'. rewrite E, andb_false_r. done.
  - rewrite (bind_eq (mret ok) _ s ok s) by done. apply IH, Hs.
Qed.

Section Gate.
Context (s : Led) (n ahd caps : Z) (w : Page).
Context (Hs : sane s) (Hst : store (disk s) n) (Hv : super_view w (disk s) n).

Lemma touched_run : exists s', sfar_touched_ns ok_dev ahd (entries w 16) s = Some (touched_mask ahd (disk s), s') /\
  sane s' /\ same_store s s'.
Proof using Hs Hst Hv.
  apply (walk_ns_run s n w Hs Hst Hv _ (touch ahd)). intros ns slot p h acc Hd. unfold touch.
  by destruct (decode_fields p h Hd) as (_ & _ & -> & _).
Qed.

(** Plan and rollback go on exactly when the caller may undo the whole mission. *)
Lemma gate_run {B} (k : bool -> LedM B) : exists s', sane s' /\ disk s' = disk s /\
  (touched ← sfar_touched_ns ok_dev ahd (entries w 16);
   auth ← (if touched =? 0 then mret true else sfar_authorized touched caps); k auth) s =
  k (authorized ahd caps (disk s)) s' /\ (authorized ahd caps (disk s) = true -> notes s' = notes s).
Proof using Hs Hst Hv.
  destruct touched_run as (s1 & E1 & Hs1 & Hd1 & Hi1 & Hn1). 
  destruct (Z.eqb_spec (touched_mask ahd (disk s)) 0) as [Hz|Hnz].
  - exists s1. split; [exact Hs1|]. split; [exact Hd1|]. rewrite (bind_eq _ _ _ _ _ E1), Hz. cbn [Z.eqb].
    rewrite (touched_zero _ _ Hz). done.
  - destruct (authorized_run caps (touched_mask ahd (disk s)) all_ns true s1 Hs1) as (s2 & E2 & Hs2 & Hd2 & Hn2).
    exists s2. split; [exact Hs2|]. split; [congruence|]. rewrite (bind_eq _ _ _ _ _ E1).
    rewrite (proj2 (Z.eqb_neq _ 0) Hnz). unfold sfar_authorized. rewrite (bind_eq _ _ _ _ _ E2). cbn [andb].
    assert (Ha : forallb (fun ns => negb (missing_ns (touched_mask ahd (disk s)) caps ns)) all_ns = authorized ahd caps (disk s)).
    { unfold authorized. apply eq_true_iff_eq. rewrite !forallb_forall. split; intros Hall ns Hin;
        specialize (Hall ns Hin); rewrite missing_spec in *; try (by apply list_elem_of_In);
        by destruct (touches ahd (disk s) ns), (Z.testbit caps (TASK_CAIRN_NS_BASE + ns)). }
    rewrite Ha in Hn2 |- *. split; [done|]. intros Hauth. rewrite Hn2 by done. done.
Qed.
End Gate.

(** ** The forecast *)

Definition mission (ahd : Z) (d : disk_t) : list Effect :=
  List.filter (mine ahd) (concat (map (history d) all_ns)).

Definition of_class (p : Z -> bool) (l : list Effect) : Z :=
  Z.of_nat (length (List.filter (fun e => p (rev_class (e_head e))) l)).

Definition is_unknown (c : Z) : bool :=
  negb (c =? REV_REVERSIBLE) && negb (c =? REV_COMPENSATABLE) && negb (c =? REV_IRREVERSIBLE).

Definition forecast (l : list Effect) (t : Z * Z * Z * Z) : Z * Z * Z * Z :=
  let '(r, c, i, u) := t in
  (r + of_class (Z.eqb REV_REVERSIBLE) l, c + of_class (Z.eqb REV_COMPENSATABLE) l,
   i + of_class (Z.eqb REV_IRREVERSIBLE) l, u + of_class is_unknown l).

Definition tally_mine (ahd : Z) (_ _ : Z) (h : CommitHeader) (t : Z * Z * Z * Z) : Z * Z * Z * Z :=
  if intent h =? ahd then tally (rev_class h) t else t.

Lemma of_class_cons p e l : of_class p (e :: l) = (if p (rev_class (e_head e)) then 1 else 0) + of_class p l.
Proof. unfold of_class. cbn [List.filter]. destruct (p _); cbn [length]; lia. Qed.

Lemma forecast_cons e l t : forecast (e :: l) t = forecast l (tally (rev_class (e_head e)) t).
Proof.
  destruct t as [[[r c] i] u]. unfold forecast, tally. rewrite !of_class_cons. unfold is_unknown at 1.
  generalize (rev_class (e_head e)). intros x. rewrite !(Z.eqb_sym _ x).
  destruct (x =? REV_REVERSIBLE) eqn:E1, (x =? REV_COMPENSATABLE) eqn:E2, (x =? REV_IRREVERSIBLE) eqn:E3;
    unfold REV_REVERSIBLE, REV_COMPENSATABLE, REV_IRREVERSIBLE in *; try lia; cbn [negb andb];
    repeat (apply pair_equal_spec; split); lia.
Qed.

Lemma fold_tally ahd ns l t : fold_chain (tally_mine ahd ns) l t = forecast (List.filter (mine ahd) l) t.
Proof.
  revert t. induction l as [|e l IH]; intros t; cbn [fold_chain fold_left List.filter].
  { destruct t as [[[r c] i] u]. unfold forecast, of_class. cbn. by rewrite !Z.add_0_r. }
  etrans; [apply IH|]. unfold tally_mine, mine. destruct (intent (e_head e) =? ahd); [|done].
  by rewrite forecast_cons.
Qed.

Lemma forecast_app l k t : forecast (l ++ k) t = forecast k (forecast l t).
Proof.
  revert t. induction l as [|e l IH]; intros t; [|by rewrite <- app_comm_cons, !forecast_cons, IH].
  destruct t as [[[r c] i] u]. unfold forecast, of_class. cbn -[List.filter]. by rewrite !Z.add_0_r.
Qed.

Lemma fold_tallies ahd d nss t :
  fold_histories (tally_mine ahd) d nss t = forecast (List.filter (mine ahd) (concat (map (history d) nss))) t.
Proof.
  revert t. induction nss as [|ns nss IH]; intros t; cbn [fold_histories fold_left map concat].
  { by rewrite <- (fold_tally ahd 0). }
  etrans; [apply IH|]. by rewrite fold_tally, List.filter_app, forecast_app.
Qed.

Lemma forecast_total l t : let '(r, c, i, u) := t in let '(r', c', i', u') := forecast l t in
  r' + c' + i' + u' = r + c + i + u + Z.of_nat (length l).
Proof.
  revert t. induction l as [|e l IH]; intros [[[r c] i] u].
  { unfold forecast, of_class. cbn. lia. }
  rewrite forecast_cons. unfold tally.
  repeat match goal with |- context [if ?b then _ else _] => destruct b end;
    match goal with |- context [forecast l ?t] => specialize (IH t); cbn beta iota in IH;
      destruct (forecast l t) as [[[? ?] ?] ?] end; cbn [length]; lia.
Qed.

Lemma bind_entries {B} s off (f : list Z -> LedM B) : (read_entries off ≫= f) s = f (entries (data s) off) s.
Proof. done. Qed.

(** The status of a mission request that finds the store sound. *)
Definition gate_status (ahd caps : Z) (d : disk_t) : Z :=
  if ahd =? 0 then IPC_STATUS_BAD_REQUEST else if authorized ahd caps d then IPC_STATUS_OK else IPC_STATUS_DENIED.

Definition plan_status (ahd caps : Z) (d : disk_t) : Z :=
  if (gate_status ahd caps d =? IPC_STATUS_OK) && bool_decide (length (mission ahd d) = 0%nat)
  then IPC_STATUS_UNAVAILABLE else gate_status ahd caps d.

(** The rollback forecast leaves the disk alone, answers with the status the authorization check calls
    for, and when it is granted reports the numbers of reversible, compensatable, irreversible and other
    effects of the mission in the abstract histories, which add up to all of them. *)
Theorem sfar_plan_counts_the_mission s n ahd caps : sane s -> store (disk s) n ->
  exists s', sfar_plan ok_dev ahd caps s = Some (plan_status ahd caps (disk s), s') /\ disk s' = disk s /\
    (plan_status ahd caps (disk s) = IPC_STATUS_OK -> exists r c i u,
       forecast (mission ahd (disk s)) (0, 0, 0, 0) = (r, c, i, u) /\
       notes s' = notes s ++ [NForecast r c i u] /\
       r + c + i + u = Z.of_nat (length (mission ahd (disk s)))).
Proof.
  intros Hs Hst. unfold sfar_plan, plan_status, gate_status. destruct (Z.eqb_spec ahd 0) as [->|Hne].
  { exists s. done. }
  rewrite (bind_load _ n) by done. cbn [negb]. set (s1 := read_into s CAIRN1_SUPER_SECTOR). rewrite bind_entries.
  pose proof (load_view s n Hst (sane_data _ Hs)) as Hv. fold s1 in Hv.
  assert (Hs1 : sane s1) by by apply sane_read. change (disk s) with (disk s1) in Hst, Hv.
  match goal with |- context [sfar_touched_ns _ _ _ ≫= fun t => _ ≫= ?k] =>
    destruct (gate_run s1 n ahd caps (data s1) Hs1 Hst Hv k) as (s2 & Hs2 & Hd2 & E & Hnt) end.
  rewrite E. change (disk s1) with (disk s) in *. change (notes s1) with (notes s) in Hnt. clear E.
  destruct (authorized ahd caps (disk s)); cbn [negb Z.eqb]; [|exists s2; done]. specialize (Hnt eq_refl).
  rewrite <- Hd2 in Hst, Hv.
  match goal with |- context [walk_ns _ _ ?f ?acc] =>
    destruct (walk_ns_run s2 n (data s1) Hs2 Hst Hv f (tally_mine ahd) acc) as (s3 & E3 & Hs3 & Hd3 & _ & Hn3) end.
  { intros ns slot p h t Hd. unfold tally_mine, get_u8. by destruct (decode_fields p h Hd) as (_ & _ & -> & -> & _). }
  rewrite (bind_eq _ _ _ _ _ E3), fold_tallies, Hd2. fold (mission ahd (disk s)).
  pose proof (forecast_total (mission ahd (disk s)) (0, 0, 0, 0)) as Ht. cbn beta iota in Ht.
  destruct (forecast (mission ahd (disk s)) (0, 0, 0, 0)) as [[[r c] i] u]. 
  change (IPC_STATUS_OK =? IPC_STATUS_OK) with true. cbn [andb]. case_bool_decide as Hl.
  - replace (r + c + i + u =? 0) with true by lia. exists s3. split; [done|]. split; [congruence|done].
  - replace (r + c + i + u =? 0) with false by lia. eexists. split; [reflexivity|]. split; [cbn; congruence|].
    intros _. exists r, c, i, u. split; [done|]. split; [cbn; congruence|]. lia.
Qed.

(** ** Compensations *)

Lemma find_sep_list d n i : match find_sep d i n with
  | Some sep => i <= sep < i + Z.of_nat n /\
      after_sep (map (fun j => d (VALUE_OFF + j)) (seqZ i (Z.of_nat n))) =
      Some (map (fun j => d (VALUE_OFF + j)) (seqZ (sep + 1) (i + Z.of_nat n - (sep + 1))))
  | None => after_sep (map (fun j => d (VALUE_OFF + j)) (seqZ i (Z.of_nat n))) = None
  end.
Proof.
  revert i. induction n as [|n IH]; intros i; [done|].
  rewrite seqZ_cons, Nat2Z.inj_succ, Z.pred_succ by lia. cbn [find_sep map after_sep].
  destruct (d (VALUE_OFF + i) =? SAND_COMP_SEP).
  - split; [lia|]. do 3 f_equal. lia.
  - specialize (IH (i + 1)). change (Z.succ i) with (i + 1). destruct (find_sep d (i + 1) n) as [sep|]; [|exact IH].
    destruct IH as [Hr IH]. split; [lia|]. rewrite IH. do 3 f_equal. lia.
Qed.

Lemma take_action_list d n room j :
  take_action d j n room = until_zero room (map (fun j => d (VALUE_OFF + j)) (seqZ j (Z.of_nat n))).
Proof.
  revert room j. induction n as [|n IH]; intros room j; [by destruct room|].
  rewrite seqZ_cons, Nat2Z.inj_succ, Z.pred_succ by lia. cbn [map]. destruct room as [|room]; [done|].
  cbn [take_action until_zero]. destruct (_ =? 0); [done|]. f_equal. apply IH.
Qed.

(** The daemon's byte loop finds the registered action. *)
Lemma extract_is_compensation d : page_ok d ->
  extract_compensation 96 d = compensation_of (value_at d (Z.min (get_u32 d 32) CAIRN1_VALUE_MAX)).
Proof.
  intros Hd. unfold extract_compensation, compensation_of, value_at.
  set (vlen := Z.min (get_u32 d 32) CAIRN1_VALUE_MAX).
  assert (Hv : 0 <= vlen).
  { unfold vlen, CAIRN1_VALUE_MAX, SECTOR_SIZE, VALUE_OFF. destruct (page_u32_fits d 32 Hd). lia. }
  pose proof (find_sep_list d (Z.to_nat vlen) 0) as H. rewrite Z2Nat.id in H by done.
  destruct (find_sep d 0 (Z.to_nat vlen)) as [sep|]; [|by rewrite H].
  destruct H as [Hsep ->]. cbn [mbind option_bind]. rewrite take_action_list, Z2Nat.id by lia. done.
Qed.

(** The record of a compensation. *)
Definition comp_header (slot par ns : Z) (value : list Z) (act int der gen : Z) : CommitHeader :=
  let n := Z.min (zlen value) (CAIRN1_VALUE_MAX - 1) in
  mkHeader slot par (wrap 32 ns) (fnv64 (list_page value) 0 n) act 1 (wrap 32 n) int der REV_REVERSIBLE
    STATUS_COMPENSATION gen.

Lemma list_page_bytes (v : list Z) : input_bytes (list_page v) (zlen v) = v.
Proof.
  apply list_eq. intros i. unfold input_bytes, zlen. rewrite list_lookup_fmap.
  destruct (decide (i < length v)%nat) as [Hi|Hi].
  - rewrite lookup_seqZ_lt by lia. cbn. unfold list_page. rewrite Z.add_0_l, Nat2Z.id.
    by destruct (lookup_lt_is_Some_2 v i Hi) as [x ->].
  - rewrite lookup_seqZ_ge by lia. cbn. by rewrite lookup_ge_None_2 by lia.
Qed.

Lemma append_page_effect slot par ns value act int der gen d : page_ok d -> fits 32 slot -> fits 32 par ->
  fits 32 act -> fits 32 int -> fits 32 der -> fits 16 gen -> zlen value < CAIRN1_VALUE_MAX ->
  let p := append_page slot par ns value act int der STATUS_COMPENSATION gen d in
  let h := comp_header slot par ns value act int der gen in
  decode p = Some h /\ effect_of slot p h = mkEffect slot h value.
Proof.
  intros Hd ?????? Hl p h. assert (Hh : header_ok h).
  { split; try done; try (apply wrap_fits; lia); apply fnv_fits. }
  assert (He : forall o, p o = copy_window (list_page value) 0 (encode h (zero_page d)) VALUE_OFF (zlen value) o).
  { intros o. unfold p. rewrite append_is_encode. cbv zeta. unfold h, comp_header. by rewrite Z.min_l by lia. }
  pose proof (zlen_nonneg value) as Hz0.
  split; [rewrite <- (copied_decode h (zero_page d) (list_page value) (zlen value) Hh); apply decode_ext; intros; apply He|].
  unfold effect_of. f_equal. unfold h, comp_header. cbn [len]. rewrite (Z.min_l (zlen value)) by lia.
  rewrite wrap_small, Z.min_l by (unfold fits, CAIRN1_VALUE_MAX, SECTOR_SIZE, VALUE_OFF in *; lia).
  etrans; [|apply list_page_bytes]. rewrite <- (copied_value _ (encode h (zero_page d)) (zlen value)) by lia.
  apply list_fmap_ext. intros _ x _. apply He.
Qed.

Lemma comp_value_length action : zlen (comp_value action) < CAIRN1_VALUE_MAX.
Proof.
  unfold comp_value, zlen. rewrite length_take. unfold CAIRN1_VALUE_MAX, SECTOR_SIZE, VALUE_OFF. lia.
Qed.

Lemma append_ok slot par ns value act int der gen s : exists s',
  append_commit_raw ok_dev slot par ns value act int der STATUS_COMPENSATION gen s = Some (true, s') /\
  input s' = input s /\ notes s' = notes s /\
  data s' = append_page slot par ns value act int der STATUS_COMPENSATION gen (data s) /\
  disk s' = upd (disk s) (commit_sector slot) (append_page slot par ns value act int der STATUS_COMPENSATION gen (data s)).
Proof. rewrite append_run, bind_write. eexists. split; [reflexivity|]. done. Qed.

(** ** Rolling back one namespace *)

Section RollbackNs.
Context (ahd from : Z) (Hahd : fits 32 ahd).

Record rolled (s : Led) (cur : Z) (g g' : Stage) (s' : Led) : Prop := {
  ro_sane : sane s';
  ro_io : st_io g' = false;
  ro_free : st_free g <= st_free g' <= st_free g + 1;
  ro_recs : records_ok (disk s') (st_free g');
  ro_same : forall sec, sec <> commit_sector (st_free g) -> disk s' sec = disk s sec;
  ro_head : ref_ok (st_free g') (st_head g');
  ro_undo : undo_result ahd from (chain (disk s) cur) (chain (disk s') (st_head g'));
  ro_moved : st_undone g' = st_undone g /\ st_appended g' = st_appended g /\ st_head g' = st_head g \/
    0 < st_undone g' \/ 0 < st_appended g' }.

(** Stopping at [cur] with nothing owed. *)
Lemma rolled_stop s cur g g' s' : sane s' -> disk s' = disk s -> records_ok (disk s) (st_free g) ->
  ref_ok (st_free g) cur -> st_head g = cur -> st_head g' = cur -> st_free g' = st_free g ->
  st_undone g' = st_undone g -> st_appended g' = st_appended g -> st_io g' = false ->
  undo_result ahd from (chain (disk s) cur) (chain (disk s) cur) -> rolled s cur g g' s'.
Proof.
  intros Hs' Hd Hr Hc Hh Hh' Hf Hu Ha Hio Hres. split; rewrite ?Hd, ?Hf, ?Hh'; try done; lia.
Qed.

Lemma undo_stop e l : retractable ahd e = false -> owed ahd (e :: l) = None -> undo_result ahd from (e :: l) (e :: l).
Proof. intros Hr Ho. unfold undo_result. cbn [drop_while]. rewrite Hr. cbv zeta. by rewrite Ho. Qed.

(** Recording a compensation on top of [cur]. *)
Lemma rolled_comp s s1 cur g g' h action ns gen : sane s1 -> disk s1 = disk s -> records_ok (disk s) (st_free g) ->
  0 <= cur < st_free g -> st_free g < COMMIT_SLOTS -> fits 16 gen -> fits 32 (derived h) -> bytes_ok (comp_value action) ->
  decode (disk s (commit_sector cur)) = Some h -> ref_ok cur (parent h) -> intent h = ahd ->
  rev_class h = REV_COMPENSATABLE ->
  compensation_of (e_value (effect_of cur (disk s (commit_sector cur)) h)) = Some action ->
  st_head g' = st_free g -> st_free g' = st_free g + 1 -> st_appended g' = st_appended g + 1 -> 0 <= st_appended g ->
  st_io g' = false -> forall s', sane s' ->
  disk s' = upd (disk s1) (commit_sector (st_free g))
    (append_page (st_free g) cur ns (comp_value action) (wrap 32 from) ahd (derived h) STATUS_COMPENSATION gen (data s1)) ->
  rolled s cur g g' s'.
Proof using Hahd.
  intros Hs1 Hd1 Hrec Hc Hroom Hgen Hder Hb Hdec Hpar Hint Hcls Hcomp Eh Ef Ea Ha0 Hio s' Hs' Hd'.
  set (p := append_page _ _ _ _ _ _ _ _ _ _) in Hd'. rewrite Hd1 in Hd'.
  destruct (append_page_effect (st_free g) cur ns (comp_value action) (wrap 32 from) ahd (derived h) gen (data s1))
    as [Hpd Hpe]; [apply Hs1|unfold fits, COMMIT_SLOTS in *; lia|unfold fits, COMMIT_SLOTS in *; lia|by apply wrap_fits|
      exact Hahd|exact Hder|exact Hgen|apply comp_value_length|]. fold p in Hpd, Hpe.
  set (ch := comp_header _ _ _ _ _ _ _ _) in Hpd, Hpe.
  assert (Hold : forall slot, 0 <= slot < st_free g -> disk s' (commit_sector slot) = disk s (commit_sector slot)).
  { intros slot Hsl. rewrite Hd'. apply upd_ne. unfold commit_sector. lia. }
  assert (Hnew : disk s' (commit_sector (st_free g)) = p) by (rewrite Hd'; apply upd_eq).
  assert (Hrec' : records_ok (disk s') (st_free g + 1)).
  { intros slot Hsl. destruct (decide (slot = st_free g)) as [->|Hne].
    - unfold rec_ok. rewrite Hnew. destruct (decode_fields _ _ Hpd) as (-> & -> & _). split; [done|]. right. exact Hc.
    - eapply rec_ok_ext, (Hrec slot); [apply Hold|]; lia. }
  split; rewrite ?Ef, ?Eh; try done; try lia.
  - intros sec Hsec. rewrite Hd'. by apply upd_ne.
  - right. lia.
  - rewrite (chain_cons (disk s') (st_free g + 1) (st_free g) ch), Hnew, Hpe by (done || lia || by rewrite Hnew).
    assert (Hcc : chain (disk s) cur = effect_of cur (disk s (commit_sector cur)) h :: chain (disk s) (parent h)).
    { apply (chain_cons _ (st_free g)); [done|done|lia|done]. }
    rewrite (chain_ext (disk s) (disk s') (st_free g) (parent ch)); [|done|right; exact Hc|exact Hold].
    change (parent ch) with cur. rewrite Hcc. set (e := effect_of cur (disk s (commit_sector cur)) h) in *.
    assert (He : e_head e = h) by done. assert (Hsl : e_slot e = cur) by done. clearbody e.
    assert (Hret : retractable ahd e = false) by (unfold retractable; by rewrite He, Hcls, andb_false_r).
    unfold undo_result. cbn [drop_while]. rewrite Hret. cbv zeta. unfold owed, mine.
    rewrite He, Hint, Hcls, !Z.eqb_refl. cbn [andb]. rewrite Hcomp. eexists. split; [reflexivity|].
    exists e, (chain (disk s) (parent h)). split; [reflexivity|]. rewrite He, Hsl. done.
Qed.

(** The branch that runs a registered compensation. *)
Lemma compensate_run s s1 cur g h action ns gen undone comp irrev refc : sane s1 -> disk s1 = disk s ->
  records_ok (disk s) (st_free g) -> 0 <= cur < st_free g -> st_free g < COMMIT_SLOTS -> fits 16 gen ->
  fits 32 (derived h) -> bytes_ok (comp_value action) ->
  decode (disk s (commit_sector cur)) = Some h -> ref_ok cur (parent h) -> intent h = ahd ->
  rev_class h = REV_COMPENSATABLE ->
  compensation_of (e_value (effect_of cur (disk s (commit_sector cur)) h)) = Some action -> st_appended g = 0 ->
  exists g' s', (ok ← append_commit_raw ok_dev (st_free g) cur ns (comp_value action) (wrap 32 from) ahd (derived h)
                        STATUS_COMPENSATION gen;
      if negb ok then mret (mkStage (st_head g) undone (st_appended g) (st_free g) comp irrev refc true) else
      say (NCompensated ns cur (st_free g) action) ;;
      mret (mkStage (st_free g) undone (st_appended g + 1) (st_free g + 1) (comp + 1) irrev refc false)) s1 =
    Some (g', s') /\ rolled s cur g g' s'.
Proof using Hahd.
  intros Hs1 Hd1 Hrec Hcur Hroom Hgen Hder Hb Hdec Hpar Hint Hcls Ex Hap.
  assert (Hpg : page_ok (append_page (st_free g) cur ns (comp_value action) (wrap 32 from) ahd (derived h)
    STATUS_COMPENSATION gen (data s1))) by (apply append_page_ok; [apply Hs1|exact Hb|done]).
  destruct (append_ok (st_free g) cur ns (comp_value action) (wrap 32 from) ahd (derived h) gen s1)
    as (s2 & E2 & Hi2 & _ & Hdt2 & Hd2).
  rewrite (bind_eq _ _ _ _ _ E2). cbn [negb]. eexists _, _. split; [reflexivity|].
  eapply rolled_comp with (s1 := s1) (h := h); cbn [st_head st_free st_appended st_io disk];
    [exact Hs1|exact Hd1|exact Hrec|exact Hcur|exact Hroom|exact Hgen|exact Hder|exact Hb|exact Hdec|exact Hpar|
     exact Hint|exact Hcls|exact Ex|reflexivity|reflexivity|lia|lia|reflexivity| |exact Hd2].
  split; cbn [disk data input]; [|rewrite Hdt2; exact Hpg|rewrite Hi2; apply Hs1]. intros sec. rewrite Hd2. unfold upd.
  destruct (_ =? _); [exact Hpg|apply Hs1].
Qed.

Lemma rollback_ns_run k ns count cur g s : sane s -> records_ok (disk s) (st_free g) -> st_free g < COMMIT_SLOTS ->
  0 <= count <= COMMIT_SLOTS -> enough k cur -> ref_ok (st_free g) cur -> st_head g = cur ->
  0 <= st_undone g -> st_appended g = 0 -> st_io g = false ->
  exists g' s', rollback_ns ok_dev k ahd from ns count cur g s = Some (g', s') /\ rolled s cur g g' s'.
Proof using Hahd.
  revert cur g s. induction k as [|k IH]; intros cur g s Hs Hrec Hroom Hcnt [Hk1 Hk2] Hcur Hhead Hun Hap Hio; [lia|].
  cbn [rollback_ns]. destruct (Z.eqb_spec cur NONE) as [->|Hne].
  { exists g, s. split; [done|]. apply rolled_stop; try done. }
  destruct Hcur as [?|Hcur]; [done|]. rewrite (bind_record s (st_free g) cur) by done.
  destruct (record_window s (st_free g) cur Hrec Hcur) as (h & Hdec & Hpar & Ep & Ei & Er & Ed).
  set (s1 := read_into s (commit_sector cur)) in *. rewrite bind_data. cbv zeta. rewrite Ep, Ei, Er, Ed.
  assert (Hs1 : sane s1) by by apply sane_read.
  set (e := effect_of cur (disk s (commit_sector cur)) h).
  assert (Hchain : chain (disk s) cur = e :: chain (disk s) (parent h)).
  { apply (chain_cons _ (st_free g)); [done|done|lia|done]. }
  assert (Hstop : forall g' s', sane s' -> disk s' = disk s -> st_head g' = cur -> st_free g' = st_free g ->
    st_undone g' = st_undone g -> st_appended g' = st_appended g -> st_io g' = false ->
    retractable ahd e = false -> owed ahd (chain (disk s) cur) = None -> rolled s cur g g' s').
  { intros g' s' ??????? Hr Ho. apply rolled_stop; try done; [by right|]. rewrite Hchain in Ho |- *. by apply undo_stop. }
  destruct (Z.eqb_spec (intent h) ahd) as [Hint|Hint]; cbn [negb].
  2: { assert (Hmine : mine ahd e = false) by by apply Z.eqb_neq.
    exists g, s1. split; [done|]. apply Hstop; try done; [unfold retractable; by rewrite Hmine|].
    rewrite Hchain. unfold owed. by rewrite Hmine. }
  assert (Hmine : mine ahd e = true) by by apply Z.eqb_eq.
  destruct (Z.eqb_spec (rev_class h) REV_COMPENSATABLE) as [Hcls|Hcls].
  { assert (Hret : retractable ahd e = false) by (unfold retractable; by rewrite Hmine, (Hcls : rev_class (e_head e) = _)).
    assert (Hext : extract_compensation 96 (data s1) = compensation_of (e_value e)).
    { rewrite extract_is_compensation by apply Hs1. pose proof (read_agrees s (commit_sector cur)) as Ha. fold s1 in Ha.
      rewrite (agrees_value _ _ _ Ha), (agrees_u32 _ _ 32 Ha) by (done || lia).
      by destruct (decode_fields _ _ Hdec) as (_ & _ & _ & _ & -> & _). }
    assert (Howed : owed ahd (chain (disk s) cur) = compensation_of (e_value e)).
    { rewrite Hchain. unfold owed. by rewrite Hmine, (Hcls : rev_class (e_head e) = _). }
    rewrite Hext. destruct (compensation_of (e_value e)) as [action|] eqn:Ex.
    - rewrite (proj2 (Z.leb_gt COMMIT_SLOTS (st_free g)) Hroom).
      apply (compensate_run s s1 cur g h action ns); try done; [unfold saturating_sub, fits, COMMIT_SLOTS in *; lia| |].
      + rewrite <- Ed. apply page_u32_fits, Hs1.
      + eapply comp_value_bytes, Hext. apply Hs1.
    - eexists _, _. split; [reflexivity|]. apply Hstop; try done. by destruct Hs1; split. }
  destruct (Z.eqb_spec (rev_class h) REV_REVERSIBLE) as [Hrev|Hrev]; cbn [negb].
  2: { eexists _, _. split; [reflexivity|]. apply Hstop; try done; [by destruct Hs1; split| |].
    - unfold retractable. rewrite (proj2 (Z.eqb_neq _ _) (Hrev : rev_class (e_head e) <> _)). apply andb_false_r.
    - rewrite Hchain. unfold owed. by rewrite (proj2 (Z.eqb_neq _ _) (Hcls : rev_class (e_head e) <> _)), andb_false_r. }
  specialize (Hk2 Hne).
  destruct (IH (parent h) (mkStage (parent h) (st_undone g + 1) (st_appended g) (st_free g) (st_compensated g)
      (st_irrev g) (st_comp g) (st_io g)) s1) as (g' & s' & E & []); try done; cbn [st_undone st_free]; try lia.
  { split; [lia|]. intros Hp. destruct Hpar as [?|?]; [done|]. lia. }
  { eapply ref_ok_mono, Hpar. lia. }
  exists g', s'. split; [exact E|]. cbn [st_free st_undone st_appended st_head] in *. split; try done.
  - rewrite Hchain. assert (Hret : retractable ahd e = true).
    { unfold retractable. by rewrite Hmine, (Hrev : rev_class (e_head e) = _). }
    unfold undo_result. cbn [drop_while]. rewrite Hret. exact ro_undo0.
  - destruct ro_moved0 as [(? & ? & ?)|?]; [|by right]. right. left. lia.
Qed.

End RollbackNs.

(** ** Rolling back every namespace *)

Section RollbackAll.
Context (ahd from : Z) (Hahd : fits 32 ahd).

(** What is known of one namespace's stage once the loop is done: [d] is the
    disk before, [d'] the disk after. *)
Record stage_result (d d' : disk_t) (free : Z) (head : Z) (g : Stage) : Prop := {
  sr_head : ref_ok free (st_head g);
  sr_undo : undo_result ahd from (chain d head) (chain d' (st_head g));
  sr_moved : st_head g = head \/ 0 < st_undone g \/ 0 < st_appended g }.

Lemma stage_results_ext d d1 d' n m free heads gs : records_ok d m -> Forall (ref_ok n) heads ->
  (forall slot, 0 <= slot < n -> d1 (commit_sector slot) = d (commit_sector slot)) -> n <= m ->
  Forall2 (stage_result d1 d' free) heads gs -> Forall2 (stage_result d d' free) heads gs.
Proof.
  intros Hrec Hh He Hnm Hall. eapply Forall2_strengthen; [exact Hh|exact Hall|]. intros hd g Hhd [Sh Su Sm].
  split; [exact Sh| |exact Sm]. rewrite (chain_ext d d1 n) in Su; [exact Su| |exact Hhd|exact He].
  intros slot Hsl. apply Hrec. lia.
Qed.

Lemma rollback_all_run k n nss heads counts free tot s : sane s -> records_ok (disk s) free -> (257 <= k)%nat ->
  0 <= n <= free -> free + Z.of_nat (length nss) <= COMMIT_SLOTS ->
  length heads = length nss -> length counts = length nss ->
  Forall (ref_ok n) heads -> Forall (fun c => 0 <= c <= COMMIT_SLOTS) counts ->
  exists gs free' tot' s', rollback_all ok_dev k ahd from nss heads counts free tot s = Some (Some (gs, free', tot'), s') /\
    sane s' /\ free <= free' <= free + Z.of_nat (length nss) /\ records_ok (disk s') free' /\
    (forall sec, sec < commit_sector free -> disk s' sec = disk s sec) /\
    Forall2 (stage_result (disk s) (disk s') free') heads gs.
Proof using Hahd.
  revert heads counts free tot s. induction nss as [|ns nss IH];
    intros heads counts free tot s Hs Hrec Hk Hn Hroom Hlh Hlc Hh Hc.
  { apply nil_length_inv in Hlh as ->. eexists [], free, tot, s. split; [by destruct counts|]. split; [done|].
    split; [cbn; lia|]. by split; [|split; [|constructor]]. }
  destruct heads as [|head heads]; [done|]. destruct counts as [|count counts]; [done|].
  cbn [length] in *. injection Hlh as Hlh. injection Hlc as Hlc. apply Forall_cons in Hh as [Hh0 Hh].
  apply Forall_cons in Hc as [Hc0 Hc]. cbn [rollback_all]. destruct tot as [[comp irrev] refc].
  destruct (rollback_ns_run ahd from Hahd k ns count head (mkStage head 0 0 free comp irrev refc false) s)
    as (g & s1 & E1 & [Rs Rio Rf Rr Rsame Rh Ru Rm]); cbn [st_free st_head st_undone st_appended st_io] in *;
    try done; try lia.
  { split; [lia|]. intros Hne. destruct Hh0 as [?|?]; [done|]. unfold COMMIT_SLOTS in *. lia. }
  { eapply ref_ok_mono, Hh0. lia. }
  rewrite (bind_eq _ _ _ _ _ E1), Rio.
  destruct (IH heads counts (st_free g) (st_compensated g, st_irrev g, st_comp g) s1) as
    (gs & free' & tot' & s2 & E2 & Hs2 & Hf2 & Hrec2 & Hlow2 & Hall); try done; try lia.
  rewrite (bind_eq _ _ _ _ _ E2). eexists (g :: gs), free', tot', s2. split; [done|]. split; [done|].
  split; [lia|]. split; [done|].
  assert (Hlow1 : forall sec, sec < commit_sector free -> disk s1 sec = disk s sec).
  { intros sec Hsec. apply Rsame. lia. }
  assert (Hlow : forall sec, sec < commit_sector free -> disk s2 sec = disk s sec).
  { intros sec Hsec. rewrite Hlow2; [by apply Hlow1|]. unfold commit_sector in *. lia. }
  split; [exact Hlow|]. constructor.
  - split; [eapply ref_ok_mono, Rh; lia| |].
    + rewrite (chain_ext (disk s1) (disk s2) (st_free g)); [done|done|done|]. intros slot Hsl. apply Hlow2.
      unfold commit_sector. lia.
    + destruct Rm as [(_ & _ & ?)|?]; [by left|by right].
  - eapply stage_results_ext; [exact Hrec|exact Hh| |lia|exact Hall]. intros slot Hsl. apply Hlow1. unfold commit_sector. lia.
Qed.

End RollbackAll.

(** ** Writing the moved refs back *)

Definition staged_moved (g : Stage) : bool := (0 <? st_undone g) || (0 <? st_appended g).

Lemma put_entry_ne w ns ns' k v : 0 <= ns < CAIRN1_NS_MAX -> 0 <= ns' < CAIRN1_NS_MAX -> ns' <> ns -> k = 16 \/ k = 20 ->
  head_of (put_u32 w (cairn_ns_entry_off ns + k) v) ns' = head_of w ns'.
Proof. intros ??? Hk. unfold head_of. rewrite get_put_u32_ne by entry_lia. done. Qed.

Lemma write_stages_run nss gs counts total s : NoDup nss -> Forall (fun ns => 0 <= ns < CAIRN1_NS_MAX) nss ->
  length gs = length nss -> length counts = length nss -> Forall (fun g => fits 32 (st_head g)) gs ->
  exists t s', write_stages nss gs counts total s = Some (t, s') /\ disk s' = disk s /\ input s' = input s /\
    (forall ns, 0 <= ns < CAIRN1_NS_MAX -> ns ∉ nss -> head_of (data s') ns = head_of (data s) ns) /\
    Forall2 (fun ns g => head_of (data s') ns = if staged_moved g then st_head g else head_of (data s) ns) nss gs.
Proof.
  intros Hnd. revert gs counts total s. induction Hnd as [|ns nss Hni Hnd IH]; intros gs counts total s Hr Hlg Hlc Hf.
  { apply nil_length_inv in Hlg as ->. exists total, s. split; [by destruct counts|]. by split; [|split; [|split; [|constructor]]]. }
  destruct gs as [|g gs]; [done|]. destruct counts as [|c counts]; [done|]. cbn [length] in *.
  apply Forall_cons in Hr as [Hns Hr]. apply Forall_cons in Hf as [Hg Hf]. injection Hlg as Hlg. injection Hlc as Hlc.
  cbn [write_stages]. fold (staged_moved g). destruct (staged_moved g) eqn:Em.
  - cbv zeta. rewrite !bind_write_u32.
    set (s1 := with_data (with_data s _) _).
    destruct (IH gs counts (total + st_undone g) s1 Hr Hlg Hlc Hf) as (t & s' & E & Hd & Hi & Hout & Hin).
    assert (Hh1 : forall x, 0 <= x < CAIRN1_NS_MAX -> x <> ns -> head_of (data s1) x = head_of (data s) x).
    { intros x Hx Hne. unfold s1. cbn [data with_data]. rewrite !put_entry_ne by auto. done. }
    exists t, s'. split; [exact E|]. split; [exact Hd|]. split; [exact Hi|]. split.
    + intros x Hx Hnx. rewrite not_elem_of_cons in Hnx. destruct Hnx as [Hne Hnx]. rewrite (Hout x Hx Hnx). by apply Hh1.
    + constructor.
      * rewrite Em, (Hout ns Hns Hni). unfold s1, head_of. cbn [data with_data].
        rewrite get_put_u32_ne by entry_lia. by rewrite get_put_u32.
      * eapply (Forall2_strengthen (fun x => 0 <= x < CAIRN1_NS_MAX /\ x <> ns)); [|exact Hin|].
        { apply Forall_forall. intros x Hx. rewrite Forall_forall in Hr. split; [by apply Hr|]. by intros ->. }
        cbn beta. intros x g' [Hx Hne] ->. by rewrite Hh1.
  - destruct (IH gs counts total s Hr Hlg Hlc Hf) as (t & s' & E & Hd & Hi & Hout & Hin).
    exists t, s'. split; [exact E|]. split; [exact Hd|]. split; [exact Hi|]. split.
    + intros x Hx Hnx. rewrite not_elem_of_cons in Hnx. apply Hout; [exact Hx|apply Hnx].
    + constructor; [|exact Hin]. rewrite Em. by apply Hout.
Qed.

(** The refs of the store once every stage is written back. *)
Lemma written_history ahd from d d' w w4 w' free gs ns : records_ok d' free -> 0 <= ns < CAIRN1_NS_MAX ->
  head_of w ns = head_of (d CAIRN1_SUPER_SECTOR) ns -> head_of w4 ns = head_of (d CAIRN1_SUPER_SECTOR) ns ->
  Forall2 (stage_result ahd from d d' free) (entries w 16) gs ->
  Forall2 (fun ns g => head_of w' ns = if staged_moved g then st_head g else head_of w4 ns) all_ns gs ->
  undo_result ahd from (history d ns) (history (upd d' CAIRN1_SUPER_SECTOR (put_u32 w' 8 free)) ns).
Proof.
  intros Hrec Hns Hw Hw4 Hres Hwr. unfold history. rewrite upd_eq, <- Hw.
  destruct (Forall2_lookup_l _ _ _ _ _ Hres (entries_lookup w 16 ns Hns)) as (g & Hg & [Hh Hu Hm]).
  fold (head_of w ns) in Hu, Hm.
  destruct (Forall2_lookup_l _ _ _ _ _ Hwr (all_ns_lookup ns Hns)) as (g' & Hg' & Hhead).
  rewrite Hg in Hg'. injection Hg' as <-.
  assert (Heq : head_of (put_u32 w' 8 free) ns = st_head g).
  { unfold head_of at 1. rewrite get_put_u32_ne by entry_lia. fold (head_of w' ns). rewrite Hhead. unfold staged_moved.
    destruct (Z.ltb_spec 0 (st_undone g)), (Z.ltb_spec 0 (st_appended g)); cbn [orb]; try reflexivity.
    rewrite Hw4, <- Hw. destruct Hm as [->|[?|?]]; [reflexivity|lia|lia]. }
  rewrite Heq, (chain_ext d' (upd d' CAIRN1_SUPER_SECTOR (put_u32 w' 8 free)) free (st_head g)); [exact Hu|exact Hrec|exact Hh|]. intros slot Hsl. apply upd_super_recs. lia.
Qed.

Lemma loaded_ready s n : sane s -> store (disk s) n -> ready (read_into s CAIRN1_SUPER_SECTOR) n.
Proof.
  intros Hs [Hn Hsup Hrec Hb]. split; try done; [by apply sane_read|apply Hsup|apply (read_agrees s)].
Qed.

(** C2: On a sound store with a free slot per namespace and a device that does not fail, rolling a
    mission back either refuses and leaves the disk alone (no intent, or a namespace the mission touched
    is not held), or does in every namespace exactly this: the newest run of the mission's reversible
    effects is dropped, and when that run stops at a compensatable effect of the mission with a
    registered action, one effect recording that action is pushed on top. *)
Theorem sfar_rollback_undoes_the_mission s n ahd caps from :
  sane s -> store (disk s) n -> n + CAIRN1_NS_MAX <= COMMIT_SLOTS -> fits 32 ahd ->
  exists s', sfar_rollback ok_dev ahd caps from s = Some (gate_status ahd caps (disk s), s') /\
    (gate_status ahd caps (disk s) <> IPC_STATUS_OK -> disk s' = disk s) /\
    (gate_status ahd caps (disk s) = IPC_STATUS_OK ->
       forall ns, 0 <= ns < CAIRN1_NS_MAX -> undo_result ahd from (history (disk s) ns) (history (disk s') ns)).
Proof.
  intros Hs Hst Hroom Hahd. unfold sfar_rollback, gate_status. destruct (Z.eqb_spec ahd 0) as [->|Hne].
  { exists s. done. }
  rewrite (bind_load _ n) by done. cbn [negb]. set (s1 := read_into s CAIRN1_SUPER_SECTOR). rewrite !bind_entries.
  pose proof (load_view s n Hst (sane_data _ Hs)) as Hv. fold s1 in Hv. rewrite bind_read_u32, (v_next _ _ _ Hv).
  assert (Hs1 : sane s1) by by apply sane_read. change (disk s) with (disk s1) in Hst, Hv.
  match goal with |- context [sfar_touched_ns _ _ _ ≫= fun t => _ ≫= ?k] =>
    destruct (gate_run s1 n ahd caps (data s1) Hs1 Hst Hv k) as (s2 & Hs2 & Hd2 & E & _) end.
  rewrite E. change (disk s1) with (disk s) in *. clear E.
  destruct (authorized ahd caps (disk s)); cbn [negb]; [|exists s2; done].
  destruct (entries_ok s1 n) as [Hheads Hcounts]; [by apply loaded_ready|].
  destruct (rollback_all_run ahd from Hahd ROLLBACK_FUEL n all_ns (entries (data s1) 16) (entries (data s1) 20) n (0, 0, 0) s2)
    as (gs & free & [[comp irrev] refc] & s3 & E3 & Hs3 & Hf3 & Hrec3 & Hlow3 & Hres);
    [exact Hs2|rewrite Hd2; apply Hst|vm_compute; lia|destruct Hst; lia|cbn; exact Hroom|reflexivity|reflexivity|exact Hheads| |].
  { eapply Forall_impl; [exact Hcounts|]. cbn beta. intros c Hc. destruct Hst. lia. }
  rewrite (bind_eq _ _ _ _ _ E3). clear E3. cbn beta iota. rewrite Hd2 in Hlow3, Hres.
  assert (Hst3 : store (disk s3) n).
  { destruct Hst as [Hn Hsup Hrec Hb]. split; [exact Hn| | |apply Hs3].
    - rewrite Hlow3; [exact Hsup|]. unfold commit_sector, CAIRN1_COMMIT_FIRST_SECTOR, CAIRN1_SUPER_SECTOR. lia.
    - intros slot Hsl. apply Hrec3. lia. }
  rewrite (bind_load s3 n) by done. cbn [negb]. set (s4 := read_into s3 CAIRN1_SUPER_SECTOR).
  destruct (write_stages_run all_ns gs (entries (data s1) 20) 0 s4) as (t & s5 & E5 & Hd5 & _ & _ & Hwr);
    [by apply (bool_decide_unpack _)|apply all_ns_range|by rewrite <- (Forall2_length _ _ _ Hres)|reflexivity| |].
  { eapply Forall2_Forall_r; [exact Hres|]. apply Forall_true. intros hd g [Hh _ _]. eapply ref_ok_fits, Hh. cbn in Hf3. unfold COMMIT_SLOTS, CAIRN1_NS_MAX in *; lia. }
  rewrite (bind_eq _ _ _ _ _ E5), bind_write_u32, bind_write. cbn [Z.eqb negb].
  eexists. split; [reflexivity|]. split; [done|]. intros _ ns Hns. 
  cbn [disk write_out with_data data]. rewrite Hd5. change (disk s4) with (disk s3).
  assert (Hsup3 : disk s3 CAIRN1_SUPER_SECTOR = disk s CAIRN1_SUPER_SECTOR).
  { apply Hlow3. unfold commit_sector, CAIRN1_COMMIT_FIRST_SECTOR, CAIRN1_SUPER_SECTOR. destruct Hst; lia. }
  pose proof (load_view s3 n Hst3 (sane_data _ Hs3)) as Hv3. fold s4 in Hv3.
  eapply written_history; [exact Hrec3|exact Hns|apply (v_entry _ _ _ Hv ns Hns)| |exact Hres|exact Hwr].
  rewrite <- Hsup3. apply (v_entry _ _ _ Hv3 ns Hns).
Qed.

(** ** A mission of one compensatable effect *)

Definition mail_bytes : list Z := [109; 97; 105; 108; SAND_COMP_SEP; 117; 110; 115; 101; 110; 100].

Definition mailed : Led :=
  match cairn_commit ok_dev 4 11 3 2 0 REV_COMPENSATABLE (fresh_led mail_bytes) with
  | Some (_, s) => s
  | None => fresh_led []
  end.

Lemma mailed_ok : sane mailed /\ store (disk mailed) 1.
Proof.
  destruct (fresh_led_ok mail_bytes) as [Hs Hst]; [by apply bytes_okb_spec|].
  destruct (commit_spec (fresh_led mail_bytes) 0 4 11 3 2 0 REV_COMPENSATABLE Hs Hst) as (s' & E & Hs' & Hst' & _);
    [done|done|done|done|done|done|]. unfold mailed. rewrite E. split; [exact Hs'|exact Hst'].
Qed.

Lemma mailed_gate : gate_status 2 0x1000 (disk mailed) = IPC_STATUS_OK /\ plan_status 2 0x1000 (disk mailed) = IPC_STATUS_OK
  /\ gate_status 2 0 (disk mailed) = IPC_STATUS_DENIED.
Proof. vm_compute. done. Qed.

Lemma sfar_plan_counts_the_mission_witness :
  exists s', sfar_plan ok_dev 2 0x1000 mailed = Some (IPC_STATUS_OK, s') /\ disk s' = disk mailed.
Proof.
  destruct mailed_ok as [Hs Hst]. destruct mailed_gate as (_ & Hp & _).
  destruct (sfar_plan_counts_the_mission mailed 1 2 0x1000 Hs Hst) as (s' & E & Hd & _). rewrite Hp in E.
  exists s'. split; [exact E|exact Hd].
Defined.

Lemma sfar_rollback_undoes_the_mission_witness :
  (exists s', sfar_rollback ok_dev 2 0x1000 3 mailed = Some (IPC_STATUS_OK, s') /\
     undo_result 2 3 (history (disk mailed) 4) (history (disk s') 4)) /\
  (exists s', sfar_rollback ok_dev 2 0 3 mailed = Some (IPC_STATUS_DENIED, s') /\ disk s' = disk mailed).
Proof.
  assert (Hroom : 1 + CAIRN1_NS_MAX <= COMMIT_SLOTS) by done. assert (H2 : fits 32 2) by done.
  assert (H4 : 0 <= 4 < CAIRN1_NS_MAX) by done. assert (Hne : IPC_STATUS_DENIED <> IPC_STATUS_OK) by done.
  destruct mailed_ok as [Hs Hst]. destruct mailed_gate as (Hg & _ & Hg0). split.
  - destruct (sfar_rollback_undoes_the_mission mailed 1 2 0x1000 3 Hs Hst Hroom H2) as (s' & E & _ & Hu).
    specialize (Hu Hg 4 H4). rewrite Hg in E. exists s'. split; [exact E|exact Hu].
  - destruct (sfar_rollback_undoes_the_mission mailed 1 2 0 3 Hs Hst Hroom H2) as (s' & E & Hd & _).
    rewrite Hg0 in Hd. specialize (Hd Hne). rewrite Hg0 in E. exists s'. split; [exact E|exact Hd].
Defined.
