(* ===== verification/Sessions.v ===== *)
(** * Sessions with the block daemon

    Concrete devices, and what particular sequences of requests do to the
    ledger: the raw block write that erases it, the rollback that compensates
    twice, the read error that lifts a revocation. *)

From Stdlib Require Import ZArith Lia String.
From stdpp Require Import base option strings numbers list.
From S2P Require Import Prelude Text Cairn Ledger LedgerInv LedgerSafe LedgerSpec Daemon DaemonSafe.

(** ** Devices *)

(** A device whose [k]-th command fails with status 1 and does nothing. *)
Definition fail_at (k n : nat) (sector : Z) (write : bool) (old : Page) : option (Z * Page) :=
  if Nat.eqb n k then Some (1, old) else None.

#[export] Instance fail_at_ok k : DevOk (fail_at k).
Proof. split; unfold fail_at; intros; destruct (Nat.eqb n k); by simplify_eq. Qed.

(** A blank disk and the window holding [bs]. *)
Definition zeros : Page := fun _ => 0.
Definition blank : Led := mkLed (fun _ => zeros) zeros zeros 0 [].

Lemma blank_sane : sane blank.
Proof. by split. Qed.
Lemma blank_ledger : ledger_ok (disk blank).
Proof. intros Hf. by vm_compute in Hf. Qed.

(** The survival theorem is not vacuous: on a device that fails, commits, a rollback and
    a raw write below the store. *)
Definition mail : Page := list_page (lit "send mail" ++ [SAND_COMP_SEP] ++ lit "unsend").
Definition commit_word (ns len intent rev : Z) : Z :=
  typed_word REQ_CAIRN_COMMIT intent (Z.shiftl rev 5) (Z.shiftl ns 12 .| len).
Definition rollback_word (intent : Z) : Z := typed_word REQ_SFAR_ROLLBACK intent 0 0.
Definition AGENT_CAP : Z := Z.shiftl 1 (TASK_CAIRN_NS_BASE + 4).

Lemma mail_ok : page_ok mail.
Proof. apply page_ok_list. by apply bytes_okb_spec. Qed.

Lemma ledger_survives_every_session_witness :
  exists replies s', serve (fail_at 7)
      [ mkRequest (commit_word 4 16 2 1) 3 AGENT_CAP mail; mkRequest (request_word REQ_BWRITE 900) 3 0 mail;
        mkRequest (rollback_word 2) 3 AGENT_CAP mail ] blank = Some (replies, s') /\
    ledger_ok (disk s') /\ history_kept (disk blank) (disk s').
Proof.
  apply (ledger_survives_every_session (dev := fail_at 7)); [apply blank_sane|apply blank_ledger|].
  repeat (apply Forall_cons_2; [split; [apply mail_ok|vm_compute; reflexivity]|]). apply Forall_nil_2.
Defined.

(** ** The raw block write *)

Lemma serve_cons {dev} r rs s reply s' : 
  daemon_step dev (rq_word r) (rq_from r) (rq_caps r) (mkLed (disk s) (data s) (rq_input r) (tick s) (notes s)) =
    Some ((reply, None), s') ->
  serve dev (r :: rs) s = (replies ← serve dev rs; mret (reply :: replies)) s'.
Proof. intros E. cbn [serve]. erewrite bind_eq by reflexivity. by rewrite (bind_eq _ _ _ _ _ E). Qed.

Lemma load_unformatted s : ~ formatted (disk s) -> exists s', cairn_load_super ok_dev s = Some (true, s') /\
  exists d, disk s' = upd (disk s) CAIRN1_SUPER_SECTOR (fmt d).
Proof.
  intros Hnf. unfold cairn_load_super. rewrite bind_read. cbn [Z.eqb negb].
  rewrite bind_starts_with, (agrees_magic _ (disk s CAIRN1_SUPER_SECTOR)) by (apply read_agrees || done).
  destruct (magic_at (disk s CAIRN1_SUPER_SECTOR) 0 SUPER_MAGIC) eqn:E; [done|].
  rewrite (bind_eq _ _ _ _ _ (format_page_run _)), bind_write.
  cbn [Z.eqb negb]. rewrite bind_read. eexists. split; [reflexivity|].
  eexists. cbn [disk data read_into write_out]. reflexivity.
Qed.

Lemma bwrite_step dev from caps : daemon_step dev (request_word REQ_BWRITE CAIRN1_SUPER_SECTOR) from caps =
  (st ← bwrite dev CAIRN1_SUPER_SECTOR; mret (typed_word REQ_BWRITE 1 st 0, None)).
Proof. reflexivity. Qed.

Lemma bwrite_unformats s : exists s', bwrite ok_dev CAIRN1_SUPER_SECTOR s = Some (IPC_STATUS_OK, s') /\
  ~ formatted (disk s').
Proof. eexists. split; [reflexivity|]. unfold formatted. by vm_compute. Qed.

Lemma init_step dev from caps : daemon_step dev (request_word REQ_CAIRN_INIT 0) from caps =
  (st ← (ok ← cairn_load_super dev; mret (if (ok : bool) then IPC_STATUS_OK else IPC_STATUS_IO_FAILURE));
   mret (typed_word REQ_CAIRN_INIT 1 st 0, None)).
Proof. reflexivity. Qed.

(** C39: From every state and on a device that does not fail, a raw block write to the superblock sector
    is accepted from whoever can send to the daemon, with no block or namespace capability, and the next
    REQ_CAIRN_INIT formats a new, empty ledger: every namespace's history is gone. *)
Theorem raw_block_write_erases_the_ledger (s : Led) (from caps from2 caps2 : Z) (i i2 : Page) :
  exists s', serve ok_dev [ mkRequest (request_word REQ_BWRITE CAIRN1_SUPER_SECTOR) from caps i;
                            mkRequest (request_word REQ_CAIRN_INIT 0) from2 caps2 i2 ] s =
    Some ([typed_word REQ_BWRITE 1 IPC_STATUS_OK 0; typed_word REQ_CAIRN_INIT 1 IPC_STATUS_OK 0], s') /\
  next_of (disk s' CAIRN1_SUPER_SECTOR) = 0 /\
  forall ns, 0 <= ns < CAIRN1_NS_MAX -> head_of (disk s' CAIRN1_SUPER_SECTOR) ns = NONE.
Proof.
  destruct (bwrite_unformats (mkLed (disk s) (data s) i (tick s) (notes s))) as (s1 & E1 & Hnf).
  destruct (load_unformatted (mkLed (disk s1) (data s1) i2 (tick s1) (notes s1)) Hnf) as (s2 & E2 & d & Hd).
  exists s2. split.
  - erewrite serve_cons by (cbn [rq_word rq_from rq_caps]; rewrite bwrite_step, (bind_eq _ _ _ _ _ E1); reflexivity).
    erewrite bind_eq; [reflexivity|].
    erewrite serve_cons by (cbn [rq_word rq_from rq_caps]; rewrite init_step, bind_assoc, (bind_eq _ _ _ _ _ E2); reflexivity).
    reflexivity.
  - rewrite Hd, upd_eq. destruct (fmt_super d) as (_ & Hn & He). split; [done|]. intros ns Hns.
    destruct (He ns Hns) as [[|] _]; [done|lia].
Qed.

(** ** Compensation and revocation *)

(** The reply statuses of a session, with a view of its last state. *)
Definition session {A} (view : Led -> A) (dev : nat -> Z -> bool -> Page -> option (Z * Page)) (rs : list Request)
  : option (list Z * A) :=
  '(replies, s) ← serve dev rs blank; Some (map response_status replies, view s).

(** One compensatable effect of mission 2, and its rollback, twice. *)
Definition mission : list Request := [mkRequest (commit_word 4 16 2 REV_COMPENSATABLE) 3 AGENT_CAP mail].
Definition undo : list Request := [mkRequest (rollback_word 2) 3 AGENT_CAP zeros].

(** Rolling back a mission with one compensatable effect twice runs its compensating action twice: the
    recorded compensation is a reversible effect of the same mission, so the second rollback retracts it
    and compensates again. *)
Theorem second_rollback_compensates_again :
  session notes ok_dev (mission ++ undo ++ undo) = Some ([IPC_STATUS_OK; IPC_STATUS_OK; IPC_STATUS_OK],
    [ NCompensated 4 0 1 (lit "unsend"); NRolledBack 0 1 0 0;
      NCompensated 4 0 2 (lit "unsend"); NRolledBack 1 1 0 0 ]).
Proof. vm_compute. reflexivity. Qed.

Definition get_word (ns : Z) : Z := request_word REQ_CAIRN_GET (Z.shiftl ns 12).
Definition revoke_word (ns : Z) : Z := request_word REQ_NS_REVOKE (Z.shiftl ns 12).

(** A namespace whose access is revoked is read all the same when the superblock read of the revocation
    check fails once: the check answers not revoked on a device error. *)
Theorem read_error_lifts_a_revocation :
  let secret := mission ++ [mkRequest (revoke_word 4) 3 AGENT_CAP zeros; mkRequest (get_word 4) 3 AGENT_CAP zeros] in
  let window s := map (data s) [0; 1; 2; 3; 4; 5; 6; 7; 8] in
  fst <$> session window ok_dev secret = Some [IPC_STATUS_OK; IPC_STATUS_OK; IPC_STATUS_DENIED] /\
  session window (fail_at 9) secret = Some ([IPC_STATUS_OK; IPC_STATUS_OK; IPC_STATUS_OK], lit "send mail").
Proof. split; vm_compute; reflexivity. Qed.
