(* ===== verification/PkgService.v ===== *)
(** * The package store on the block daemon

    [Pkg] talks to a [SectorService]; here that service is the block daemon of
    [Daemon], reached through the console's client of [Client], on a device
    whose commands may fail.  The daemon discharges the contract [SectorLaws],
    so what is proved of the store against the contract holds of the two
    programs together. *)

From Stdlib Require Import ZArith Lia String.
From stdpp Require Import base option strings numbers list.
From S2P Require Import Prelude Text Mcap Cairn Ledger LedgerInv Daemon Client Dzp Pkg PkgCodec PkgDisk PkgCrash.

(** The device: the commands of the package store's sectors are atomic, and a
    failed one has a status. *)
Class SectorAtomic (dev : nat -> Z -> bool -> Page -> option (Z * Page)) : Prop := {
  atomic_status n sec w old st pg : dev n sec w old = Some (st, pg) -> fits 8 st /\ st <> 0;
  atomic_write n sec old st pg : sec < CAIRN1_SUPER_SECTOR -> dev n sec true old = Some (st, pg) -> pg = old }.

(** The daemon with its window, and the number of requests so far: [avail n] is
    what becomes of the [n]-th. *)
Record Link (dev : nat -> Z -> bool -> Page -> option (Z * Page)) (avail : nat -> ClientFate) :=
  mkLink { l_led : Led; l_calls : nat }.
Arguments mkLink {dev avail}.
Arguments l_led {dev avail}.
Arguments l_calls {dev avail}.

Section Service.
Context {dev : nat -> Z -> bool -> Page -> option (Z * Page)} {avail : nat -> ClientFate}.

(** A client that never exits would keep the console waiting: it does not
    happen for these requests ([link_answers]). *)
#[export] Instance link_service : SectorService (Link dev avail) := {
  sv_request req sector input w :=
    match run_registered_virtio_sector_status dev (avail (l_calls w)) req sector input (l_led w) with
    | Some (st, s) => (st, mkLink s (S (l_calls w)))
    | None => (SYS_DENIED, w)
    end;
  sv_window w := window_bytes (data (l_led w)) }.

#[export] Instance link_disk : DiskView (Link dev avail) := fun w x => window_bytes (disk (l_led w) x).

(** ** One request *)

Definition pkg_request (req sector : Z) : LedM Z :=
  if req =? 35 then pkg_store_init dev
  else if req =? 36 then Daemon.pkg_read dev 25 31 sector
  else if req =? 37 then Daemon.pkg_write dev 25 31 sector
  else if req =? 38 then Daemon.pkg_read dev 64 1599 sector
  else if req =? 39 then Daemon.pkg_write dev 64 1599 sector
  else if req =? 40 then Daemon.pkg_read dev 32 39 sector
  else Daemon.pkg_write dev 32 39 sector.

Lemma reply_tail (m : LedM Z) w s :
  (m ≫= fun a => mret (reply_word w a, @None Z) ≫= fun r => mret (response_status r.1) ≫= fun st => mret 0 ≫= fun _ : Z => mret st) s =
  (m ≫= fun a => mret (a mod 256)) s.
Proof. unfold mbind, LedM_bind. destruct (m s) as [[a s']|]; [|done]. unfold mret, LedM_ret. cbn [fst]. by rewrite response_reply. Qed.

Lemma client_pkg from caps req sector s : 35 <= req <= 41 -> fits 16 sector ->
  client_request dev true from caps sector req s = (st ← pkg_request req sector; mret (st mod 256)) s.
Proof.
  intros Hreq Hsec. unfold client_request. cbv zeta. rewrite mask8, (Z.mod_small req) by lia.
  rewrite (proj2 (Z.leb_gt _ _)) by (unfold REQ_CAIRN_INIT; lia). cbn [andb].
  assert (H6 : (req =? REQ_PROLLBACK) = false) by (apply Z.eqb_neq; unfold REQ_PROLLBACK; lia). rewrite H6.
  unfold client_send, daemon_step, request_word. cbn [negb].
  destruct (typed_word_fields req 1 IPC_STATUS_OK (sector_or_len req sector)) as (Hp & Hsv & Hop & _ & Harg & _).
  rewrite Hp, Hsv, !Z.eqb_refl. cbn [negb orb]. rewrite !bind_assoc. unfold handle. cbv zeta. rewrite Hop, Harg.
  rewrite (Z.mod_small req) by lia.
  assert (Hc : req = 35 \/ req = 36 \/ req = 37 \/ req = 38 \/ req = 39 \/ req = 40 \/ req = 41) by lia.
  assert (Hs : sector mod 65536 = sector) by (apply Z.mod_small; exact Hsec).
  repeat destruct Hc as [->|Hc]; try subst req; cbn -[Z.modulo]; rewrite ?Hs; apply (reply_tail (_ : LedM Z)).
Qed.

(** Reads: the daemon's window is the sector, or the status says otherwise. *)
Lemma pkg_read_run `{SectorAtomic dev} first last sector s : exists st s',
  Daemon.pkg_read dev first last sector s = Some (st, s') /\ disk s' = disk s /\ fits 8 st /\
  (st = 0 -> agrees (data s') (disk s sector)).
Proof.
  unfold Daemon.pkg_read. destruct (_ || _).
  { exists IPC_STATUS_DENIED, s. by repeat split. }
  unfold mbind, LedM_bind, Ledger.rw. destruct (dev (tick s) sector false (data s)) as [[st pg]|] eqn:E.
  - apply atomic_status in E as [_ Hst]. eexists _, _. split; [reflexivity|]. split; [done|]. unfold status_from_io.
    rewrite (proj2 (Z.eqb_neq _ _) Hst). by split.
  - eexists _, _. split; [reflexivity|]. split; [done|]. split; [done|]. intros _. apply overlay_agrees.
Qed.

Lemma pkg_write_run `{SectorAtomic dev} first last sector s : last < CAIRN1_SUPER_SECTOR -> exists st s' pg,
  Daemon.pkg_write dev first last sector s = Some (st, s') /\
  (forall x, disk s' x = if (x =? sector) then pg else disk s x) /\ fits 8 st /\
  (pg = disk s sector \/ agrees pg (input s)) /\ (st = 0 -> agrees pg (input s)).
Proof.
  intros Hl. unfold Daemon.pkg_write. destruct (_ || _) eqn:Hr.
  { exists IPC_STATUS_DENIED, s, (disk s sector). split; [done|]. split; [|by split; [|split; [by left|]]].
    intros x. by destruct (Z.eqb_spec x sector) as [->|]. }
  apply orb_false_iff in Hr as [_ Hr]. apply Z.ltb_ge in Hr.
  unfold copy_input, get_data, get_input, put_data, mbind, LedM_bind, Ledger.rw. cbn [tick disk data input notes].
  assert (Hcopy : agrees (copy_window (input s) 0 (zero_page (data s)) 0 (Z.min Ledger.SECTOR_SIZE Ledger.SECTOR_SIZE)) (input s)).
  { intros o Ho. unfold copy_window. rewrite (proj2 (Z.leb_le _ _)), (proj2 (Z.ltb_lt _ _)) by lia. cbn [andb]. f_equal. lia. }
  destruct (dev (tick s) sector true (disk s sector)) as [[st pg]|] eqn:E.
  - pose proof (atomic_write _ sector _ _ _ ltac:(lia) E) as ->. apply atomic_status in E as [_ Hst].
    eexists _, _, (disk s sector). split; [reflexivity|]. split; [done|]. unfold status_from_io.
    rewrite (proj2 (Z.eqb_neq _ _) Hst). split; [done|]. split; [by left|done].
  - eexists _, _, _. split; [reflexivity|]. split; [intros x; reflexivity|]. split; [done|]. by split; [right|].
Qed.

(** ** Windows as bytes *)

Lemma window_agrees p q : agrees p q -> window_bytes p = window_bytes q.
Proof.
  intros Ha. unfold window_bytes. apply map_ext_in. intros i Hi. apply in_seq in Hi. f_equal. apply Ha.
  unfold Ledger.SECTOR_SIZE. lia.
Qed.

Lemma window_length p : length (window_bytes p) = Pkg.SECTOR_SIZE.
Proof. unfold window_bytes. by rewrite length_map, length_seq. Qed.

Lemma window_ok p : bytes_ok (window_bytes p).
Proof. apply Forall_forall. intros b Hb. apply list_elem_of_fmap in Hb as (i & -> & _). apply wrap_fits. lia. Qed.

Lemma staged_window bs i : bytes_ok bs -> (length bs <= Pkg.SECTOR_SIZE)%nat ->
  window_bytes (copy_window (list_page bs) 0 (zero_page i) 0 (Z.min (zlen bs) 512)) = pad bs.
Proof.
  intros Hb Hl. unfold Pkg.SECTOR_SIZE in *. apply list_eq. intros j. unfold pad, Pkg.SECTOR_SIZE.
  destruct (decide (j < 512)%nat) as [Hj|Hj].
  2: { rewrite !lookup_ge_None_2; [done|rewrite length_app, length_replicate; lia|rewrite window_length; unfold Pkg.SECTOR_SIZE; lia]. }
  unfold window_bytes. rewrite list_lookup_fmap, lookup_seq_lt by done. cbn [fmap option_fmap option_map Nat.add].
  unfold copy_window, zlen. destruct (decide (j < length bs)%nat) as [Hjb|Hjb].
  - rewrite (proj2 (Z.leb_le _ _)), (proj2 (Z.ltb_lt _ _)) by lia. cbn [andb]. unfold list_page.
    rewrite lookup_app_l by done. replace (Z.to_nat _) with j by lia. destruct (bs !! j) as [b|] eqn:E.
    + cbn [default]. f_equal. apply wrap_small. by eapply (Forall_lookup_1 (fits 8)).
    + apply lookup_ge_None in E. lia.
  - rewrite (proj2 (Z.ltb_ge _ _)), andb_false_r by lia. rewrite lookup_app_r by lia.
    rewrite lookup_replicate_2 by lia. unfold zero_page, in_sector, Ledger.SECTOR_SIZE.
    by rewrite (proj2 (Z.leb_le _ _)), (proj2 (Z.ltb_lt _ _)) by lia.
Qed.

(** ** The contract *)

(** The window after the console staged its data. *)
Definition staged (input : option (list Z)) (s : Led) : Led :=
  match input with
  | Some bs => mkLed (disk s) (data s) (copy_window (list_page bs) 0 (zero_page (Ledger.input s)) 0 (Z.min (zlen bs) 512)) (tick s) (notes s)
  | None => s
  end.

Lemma client_down from caps req sector s : 35 <= req <= 41 ->
  client_request dev false from caps sector req s = Some (IPC_STATUS_UNAVAILABLE, s).
Proof.
  intros Hreq. unfold client_request. cbv zeta. rewrite mask8, (Z.mod_small req) by lia.
  rewrite (proj2 (Z.leb_gt _ _)) by (unfold REQ_CAIRN_INIT; lia). cbn [andb].
  assert (H6 : (req =? REQ_PROLLBACK) = false) by (apply Z.eqb_neq; unfold REQ_PROLLBACK; lia). by rewrite H6.
Qed.

Lemma staged_disk input s : disk (staged input s) = disk s.
Proof. by destruct input. Qed.

(** A client that was launched, if the service could be reached at all, and that
    the daemon answered. *)
Definition answered (f : ClientFate) : Prop := match f with NoService | Serves _ => True | NotLaunched | Stalled _ _ => False end.
Context (Hans : forall n, answered (avail n)).

(** A request is refused, or served on the staged window. *)
Lemma link_request req sector input (w w' : Link dev avail) st :
  35 <= req <= 41 -> fits 16 sector -> sv_request req sector input w = (st, w') ->
  (st <> 0 /\ disk (l_led w') = disk (l_led w)) \/
  (exists st0, pkg_request req sector (staged input (l_led w)) = Some (st0, l_led w') /\ st = st0 mod 256).
Proof.
  intros Hreq Hsec E. unfold sv_request, link_service, run_registered_virtio_sector_status in E.
  pose proof (Hans (l_calls w)) as Hf. destruct (avail (l_calls w)) as [| |st0 l0|up]; [left; by injection E as <- <-|destruct Hf..|].
  cbn [run_client] in E.
  assert (Est : forall m : LedM Z, ((match input with Some bytes => prepare_virtio_input_bytes bytes | None => mret tt end) ≫= fun _ => m) (l_led w) =
    m (staged input (l_led w))) by (intros; by destruct input). rewrite Est in E.
  destruct up; [|rewrite client_down in E by done; left; injection E as <- <-; split; [done|apply staged_disk]].
  rewrite client_pkg in E by done. unfold mbind, LedM_bind in E.
  destruct (pkg_request req sector (staged input (l_led w))) as [[st0 s']|] eqn:E0; [right|left; by injection E as <- <-].
  unfold mret, LedM_ret in E. injection E as <- <-. by exists st0.
Qed.

Lemma byte_status st0 : fits 8 st0 -> st0 mod 256 = SERVICE_OK -> st0 = 0.
Proof. intros Hst H. unfold fits in Hst. change (2 ^ 8) with 256 in Hst. by rewrite Z.mod_small in H by lia. Qed.

Lemma link_read `{SectorAtomic dev} req sector (w : Link dev avail) st w' :
  PkgDisk.reads req sector -> sv_request req sector None w = (st, w') ->
  (forall x, sector_of w' x = sector_of w x) /\ (st = SERVICE_OK -> sv_window w' = sector_of w sector).
Proof.
  intros Hr E. unfold sv_window, sector_of, link_service, link_disk.
  assert (Hreq : 35 <= req <= 41) by (destruct Hr as [[-> _]|[[-> _]|[-> _]]]; cbv; intuition discriminate).
  assert (Hsec : fits 16 sector) by (unfold fits; change (2 ^ 16) with 65536; destruct Hr as [[_ ?]|[[_ ?]|[_ ?]]]; lia).
  destruct (link_request _ _ _ _ _ _ Hreq Hsec E) as [[Hst Hd]|(st0 & E0 & ->)].
  { split; [intros x; by rewrite Hd|done]. }
  assert (Hp : exists first last, pkg_request req sector = Daemon.pkg_read dev first last sector)
    by (destruct Hr as [[-> _]|[[-> _]|[-> _]]]; eexists _, _; reflexivity).
  destruct Hp as (first & last & Hp). rewrite Hp in E0. cbn [staged] in E0.
  destruct (pkg_read_run first last sector (l_led w)) as (st1 & s' & E1 & Hd & Hst & Ha).
  rewrite E0 in E1. injection E1 as <- <-. split; [intros x; by rewrite Hd|].
  intros Hok%byte_status; [|done]. by apply window_agrees, Ha.
Qed.

Lemma link_write `{SectorAtomic dev} req sector bs (w : Link dev avail) st w' :
  writes req sector -> bytes_ok bs -> (length bs <= Pkg.SECTOR_SIZE)%nat -> sv_request req sector (Some bs) w = (st, w') ->
  (forall x, x <> sector -> sector_of w' x = sector_of w x) /\
  (sector_of w' sector = sector_of w sector \/ sector_of w' sector = pad bs) /\
  (st = SERVICE_OK -> sector_of w' sector = pad bs).
Proof.
  intros Hr Hb Hl E. unfold sector_of, link_disk.
  assert (Hreq : 35 <= req <= 41) by (destruct Hr as [[-> _]|[[-> _]|[-> _]]]; cbv; intuition discriminate).
  assert (Hsec : fits 16 sector) by (unfold fits; change (2 ^ 16) with 65536; destruct Hr as [[_ ?]|[[_ ?]|[_ ?]]]; lia).
  destruct (link_request _ _ _ _ _ _ Hreq Hsec E) as [[Hst Hd]|(st0 & E0 & ->)].
  { rewrite Hd. split; [done|]. by split; [left|]. }
  assert (Hp : exists first last, last < CAIRN1_SUPER_SECTOR /\ pkg_request req sector = Daemon.pkg_write dev first last sector).
  { destruct Hr as [[-> _]|[[-> _]|[-> _]]]; eexists _, _; (split; [|reflexivity]); done. }
  destruct Hp as (first & last & Hlast & Hp). rewrite Hp in E0.
  destruct (pkg_write_run first last sector (staged (Some bs) (l_led w)) Hlast) as (st1 & s' & pg & E1 & Hd & Hst & Hc & Ha).
  rewrite E0 in E1. injection E1 as <- <-. cbn [staged disk input] in Hd, Hc, Ha.
  assert (Hpg : disk (l_led w') sector = pg) by (by rewrite Hd, Z.eqb_refl). rewrite Hpg.
  pose proof (staged_window bs (input (l_led w)) Hb Hl) as Hw. split; [|split].
  - intros x Hx. by rewrite Hd, (proj2 (Z.eqb_neq _ _) Hx).
  - destruct Hc as [->|Hc]; [by left|right]. by rewrite (window_agrees _ _ Hc).
  - intros Hok%byte_status; [|done]. by rewrite (window_agrees _ _ (Ha Hok)).
Qed.

Lemma link_marker `{SectorAtomic dev} (w : Link dev avail) st w' :
  sv_request BLK_REQ_PKG_STORE_INIT Pkg.PKG_STORE_MARKER_SECTOR None w = (st, w') ->
  forall x, x <> Pkg.PKG_STORE_MARKER_SECTOR -> sector_of w' x = sector_of w x.
Proof.
  intros E x Hx. unfold sector_of, link_disk.
  assert (Hreq : 35 <= BLK_REQ_PKG_STORE_INIT <= 41) by (split; discriminate).
  assert (Hsec : fits 16 Pkg.PKG_STORE_MARKER_SECTOR) by (split; [discriminate|reflexivity]).
  destruct (link_request _ _ _ _ _ _ Hreq Hsec E) as [[Hst Hd]|(st0 & E0 & _)]; [by rewrite Hd|].
  change (pkg_request _ _) with (pkg_store_init dev) in E0. cbn [staged] in E0. unfold pkg_store_init in E0.
  unfold mbind, LedM_bind in E0. destruct (set_data _ (l_led w)) as [[u s1]|] eqn:Es; [|done].
  assert (Hd1 : disk s1 = disk (l_led w)) by (revert Es; unfold set_data, get_data, put_data, mbind, LedM_bind; intros [= _ <-]; done).
  assert (Hx' : (x =? Daemon.PKG_STORE_MARKER_SECTOR) = false) by (by apply Z.eqb_neq). unfold Ledger.rw in E0.
  destruct (dev _ _ _ _) as [[st2 pg]|] in E0; injection E0 as _ <-; cbn [disk]; by rewrite Hx', Hd1.
Qed.

(** The daemon keeps the store's contract. *)
Lemma link_contract `{SectorAtomic dev} : SectorLaws (Link dev avail).
Proof.
  split.
  - intros. by eapply link_read.
  - intros. by eapply link_write.
  - exact link_marker.
  - intros. apply window_length.
  - intros. apply window_ok.
Qed.
End Service.

(** C30: The block daemon, reached through the console's client process, implements the sector contract
    the package store is proved against: a write changes its own sector to the staged data or leaves it,
    an acknowledged write or read is exact, and nothing else on the disk moves, on any device whose
    commands are atomic per sector and with every client either refused by the service or launched and
    answered. (A client that could not be launched, or was left asleep, reads as success: that case is
    modelled, excluded here and a finding.) *)
Theorem block_daemon_serves_the_package_store dev avail :
  SectorAtomic dev -> (forall n, answered (avail n)) -> SectorLaws (Link dev avail).
Proof. intros Hd Ha. by apply link_contract. Qed.

(** A device that fails its third command, behind a service that refuses its fifth request. *)
Lemma block_daemon_serves_the_package_store_witness :
  SectorLaws (Link (fun n _ _ old => if Nat.eqb n 2 then Some (1, old) else None)
                   (fun c => if Nat.eqb c 4 then NoService else Serves true)).
Proof.
  apply block_daemon_serves_the_package_store; [split|].
  - intros n sec w old st pg. destruct (Nat.eqb n 2); [|discriminate]. intros [= <- <-]. split; [split|]; done || discriminate.
  - intros n sec old st pg _. destruct (Nat.eqb n 2); [|discriminate]. by intros [= <- <-].
  - intros c. by destruct (Nat.eqb c 4).
Defined.
