(* ===== verification/PkgDemo.v ===== *)
(** * Sessions with the package store

    The package store on the block daemon with concrete uploads and a service
    that refuses one request: what an interruption at particular requests does
    to packages that were intact. *)

From Stdlib Require Import ZArith Lia String.
From stdpp Require Import base option strings numbers list.
From S2P Require Import Prelude Text Mcap Cairn Ledger LedgerInv LedgerSpec Daemon Client Dzp Pkg PkgOps PkgSafe PkgCodec PkgDisk.
From S2P Require Import PkgCrash PkgService Sessions Intent.

#[export] Instance ok_dev_atomic : SectorAtomic ok_dev.
Proof. by split. Qed.

(** The service refuses request number [n]. *)
Definition refuse_at (n c : nat) : ClientFate := if Nat.eqb c n then NoService else Serves true.
Definition healthy (c : nat) : ClientFate := Serves true.
(** The client of request number [n] finds no memory. *)
Definition unlaunched_at (n c : nat) : ClientFate := if Nat.eqb c n then NotLaunched else Serves true.

Lemma refuse_at_answered n c : answered (refuse_at n c).
Proof. unfold refuse_at. by destruct (Nat.eqb c n). Qed.
#[export] Instance refuse_laws n : SectorLaws (Link ok_dev (refuse_at n)).
Proof. refine (link_contract _). apply refuse_at_answered. Qed.
#[export] Instance healthy_laws : SectorLaws (Link ok_dev healthy).
Proof. refine (link_contract _). done. Qed.

(** Version 0.1 and 0.2 of a package hello that holds print, as uploaded. *)
Definition upload (b64 : string) : list Z := lit b64 ++ [10] ++ lit "." ++ [10].
Definition HELLO1 : list Z :=
  upload "RFpQMQEAAQAwAAAAAQAAAD/R2l1uYW1lID0gImhlbGxvIgp2ZXJzaW9uID0gIjAuMSIKY2FwcyA9IFsicHJpbnQiXQoA".
Definition HELLO2 : list Z :=
  upload "RFpQMQEAAQAwAAAAAQAAANxTxCZuYW1lID0gImhlbGxvIgp2ZXJzaW9uID0gIjAuMiIKY2FwcyA9IFsicHJpbnQiXQoA".

Definition blank_disk (avail : nat -> ClientFate) : Link ok_dev avail := mkLink Sessions.blank 0.

(** State, version and number of requests so far, after a reboot. *)
Definition reboot_list {W} `{SectorService W} (w : W) : option (list (Z * str) * W) :=
  '(rows, k) ← pkg_list (boot w); Some (map (fun r => (row_state r, row_version r)) (default [] rows), k_world k).

(** A command sequence on a blank disk, then a reboot. *)
Definition rebooted {avail : nat -> ClientFate} (m : KM (Link ok_dev avail) Reply) : option (Reply * list (Z * str)) :=
  '(r, k) ← m (boot (blank_disk avail));
  '(l, w) ← reboot_list (k_world k);
  Some (r, l).
Definition interrupted (n : nat) (m : KM (Link ok_dev (refuse_at n)) Reply) : option (Reply * list (Z * str)) := rebooted m.

(** One refused request is enough to lose an intact package for good: an install whose registry was
    already written is quarantined by recovery, the running version is quarantined when its update had
    not reached the registry, an interrupted rollback ends Corrupt, and a single failed read while
    loading marks the package Corrupt. *)
Theorem interruptions_lose_intact_packages :
  (* the journal could not be cleared after the new registry was written *)
  interrupted 43 (pkg_recv HELLO1) = Some (CommitFailed, [(STATE_QUARANTINED, lit "0.1")]) /\
  (* the running version 0.1 while its update had not reached the registry *)
  interrupted 86 (pkg_recv HELLO1 ;; pkg_update (lit "hello") HELLO2) = Some (PendingFailed, [(STATE_QUARANTINED, lit "0.1")]) /\
  (* version 0.2, rolled back to 0.1 *)
  interrupted 129 (pkg_recv HELLO1 ;; pkg_update (lit "hello") HELLO2 ;; pkg_rollback (lit "hello")) =
    Some (PendingFailed, [(STATE_CORRUPT, lit "0.2")]) /\
  (* one failed read while loading *)
  interrupted 63 (pkg_recv HELLO1) = Some (Done, [(STATE_CORRUPT, lit "0.1")]).
Proof. split; [|split; [|split]]; vm_compute; reflexivity. Qed.

(** One client that finds no memory is enough for an install to report success and not be there after a
    reboot: the write of the final registry, or the clearing of the journal, is acknowledged without
    having happened. *)
Theorem an_acknowledged_install_is_lost :
  rebooted (avail := unlaunched_at 40) (pkg_recv HELLO1) = Some (Done, [(STATE_PENDING_INSTALL, lit "0.1")]) /\
  rebooted (avail := unlaunched_at 43) (pkg_recv HELLO1) = Some (Done, [(STATE_QUARANTINED, lit "0.1")]).
Proof. split; vm_compute; reflexivity. Qed.

(** ** The store's guarantees at a concrete upload *)

Definition first_run : list PkgCmd := [CmdRecv HELLO1].

(** Does the session end, and does the run after it start something? *)
Definition starts {K} (o : option (unit * K)) (run : K -> option ((Reply + Launch) * K)) : bool :=
  match o with
  | Some (_, k) => match run k with Some (inr _, _) => true | _ => false end
  | None => false
  end.
Lemma starts_inv {K} (o : option (unit * K)) run : starts o run = true ->
  exists k l k', o = Some (tt, k) /\ run k = Some (inr l, k').
Proof.
  destruct o as [[[] k]|]; [|done]. cbn [starts]. destruct (run k) as [[[r|l] k']|] eqn:E; [done| |done]. intros _. by exists k, l, k'.
Qed.
#[export] Instance link_window avail : SectorWindow (Link ok_dev avail).
Proof. intros w. cbn [sv_window link_service]. unfold window_bytes. by rewrite length_map, length_seq. Qed.

(** The disk under watch. *)
Definition watched : Watched (Link ok_dev healthy) := mkWatched (blank_disk healthy) [].
Lemma hello_starts : starts (PkgOps.session first_run (boot watched)) (pkg_run (lit "hello")) = true.
Proof. vm_compute. reflexivity. Qed.

Lemma only_verified_packages_run_witness : exists k l k',
  PkgOps.session first_run (boot watched) = Some (tt, k) /\ pkg_run (lit "hello") k = Some (inr l, k') /\
  exists slot bytes pkg name mcaps, read_from_slot (wt_log (k_world k')) slot bytes /\ verified bytes pkg name mcaps /\
    l = launch_of pkg (trim (lit "hello")) mcaps.
Proof.
  destruct (starts_inv _ _ hello_starts) as (k & l & k' & E1 & E2). exists k, l, k'. split; [exact E1|]. split; [exact E2|].
  destruct (only_verified_packages_run first_run (blank_disk healthy) k (lit "hello") l k' E1 E2)
    as (slot & bytes & pkg & name & mcaps & Ho & Hv & _ & Hl).
  exists slot, bytes, pkg, name, mcaps. exact (conj Ho (conj Hv Hl)).
Defined.

(** The image the upload decodes to, on a blank disk whose service refuses the
    request that would clear the journal. *)
Definition MANIFEST1 : list Z :=
  lit "name = " ++ [34] ++ lit "hello" ++ [34; 10] ++ lit "version = " ++ [34] ++ lit "0.1" ++ [34; 10]
  ++ lit "caps = [" ++ [34] ++ lit "print" ++ [34] ++ lit "]" ++ [10].
Definition IMAGE1 : list Z := dzp_bytes KIND_DEZH_IR MANIFEST1 [0].
Definition PKG1 : Package := mkPackage KIND_DEZH_IR MANIFEST1 [0].
Definition fresh (n : nat) : Kern (Link ok_dev (refuse_at n)) := boot (blank_disk (refuse_at n)).

Lemma fresh_sector n x : dk (fresh n) x = ZERO_SECTOR.
Proof. vm_compute. reflexivity. Qed.
Lemma fresh_registry n : registry_of (dk (fresh n)) = k_reg (fresh n).
Proof. unfold registry_of. rewrite !fresh_sector. vm_compute. reflexivity. Qed.

Lemma interrupted_install_is_atomic_witness : exists reply k1,
  install_transaction 0 (entry_state (k_reg (fresh 31)) 0) (lit "hello") (lit "0.1") 1 IMAGE1 PKG1 (fresh 31) = Some (reply, k1) /\
  forall w, reach reboots (k_world k1) w -> sector_of w 32 = ZERO_SECTOR ->
    settled 0 (k_reg (fresh 31)) (lit "hello") (lit "0.1") 1 IMAGE1 PKG1 (sector_of w).
Proof.
  destruct (interrupted_install_is_atomic (fresh 31) 0 (lit "hello") (lit "0.1") 1 IMAGE1 PKG1) as (reply & k1 & E & _ & Hw).
  - unfold MAX_PKGS. lia.
  - apply length_replicate.
  - apply zero_bytes.
  - by repeat constructor.
  - by repeat constructor.
  - discriminate.
  - discriminate.
  - by vm_compute.
  - apply bytes_okb_spec. vm_compute. reflexivity.
  - split; [reflexivity|discriminate].
  - discriminate.
  - apply boot_stage.
  - apply fresh_registry.
  - intros x _. apply fresh_sector.
  - apply fresh_sector.
  - exists reply, k1. split; [exact E|]. intros w Hr. exact (proj1 (proj2 (Hw w Hr))).
Defined.

(** ** A leased intent

    An intent of kind compute with one use: the first run starts, the second is
    refused. *)
Definition leased_session : list ICmd :=
  [IOpen (lit "compute 1"); IPkg (CmdRecv HELLO1); IRun (lit "1 hello"); IRun (lit "1 hello")].

Definition one_launch {K} (o : option (list IntentEvent * AhdTable * K)) : bool :=
  match o with
  | Some ([Opened 1 _ 1; Bystander; Launched 1 _ _; Refused], _, _) => true
  | _ => false
  end.
Lemma one_launch_inv {K} (o : option (list IntentEvent * AhdTable * K)) : one_launch o = true ->
  exists c d l T k, o = Some ([Opened 1 c 1; Bystander; Launched 1 d l; Refused], T, k).
Proof. unfold one_launch. intros H. repeat (case_match; try discriminate H). subst. repeat eexists. Qed.
Lemma leased_once : one_launch (isession leased_session [] ahd_boot (boot (blank_disk healthy))) = true.
Proof. vm_compute. reflexivity. Qed.

Lemma intents_bound_every_run_witness : exists d l T k ceiling mcaps,
  isession leased_session [] ahd_boot (boot (blank_disk healthy)) =
    Some ([Opened 1 ceiling 1; Bystander; Launched 1 d l; Refused], T, k) /\ d = (mcaps & ceiling).
Proof.
  destruct (one_launch_inv _ leased_once) as (c & d & l & T & k & E).
  destruct (intents_bound_every_run leased_session (blank_disk healthy) _ T k [Opened 1 c 1; Bystander] 1 d l [Refused] E eq_refl)
    as (ceiling & n & bytes & pkg & name & mcaps & Ho & _ & _ & _ & Hd & _).
  exists d, l, T, k, c, mcaps. split; [exact E|]. rewrite Hd. f_equal.
  apply elem_of_cons in Ho as [Ho|Ho]; [congruence|]. apply elem_of_cons in Ho as [Ho|Ho]; [discriminate|]. apply not_elem_of_nil in Ho. destruct Ho.
Defined.
