(* ===== verification/CairnLog.v ===== *)
(** * The Cairn v0 object store (spikes/dezh-cairn/src/lib.rs)

    Content-addressed objects and named refs over one append-only log.  A
    [CairnStore] is the maps in memory beside the bytes of the log; opening a
    store replays the log.  BLAKE3 is a third-party crate and a parameter: only
    the length of its digest is used.  An append may fail after any number of
    bytes ([io]); the clock is an argument.  Paths, directory creation and the
    [Display] instances are not modelled. *)

From Stdlib Require Import ZArith Lia String.
From stdpp Require Import base option numbers list gmap strings.
From S2P Require Import Prelude Text.

Definition MAGIC : list Z := lit "CAIRN001".
Definition TYPE_OBJECT : Z := 1.
Definition TYPE_COMMIT : Z := 2.
Definition TYPE_ROLLBACK : Z := 3.

Abbreviation ObjectId := (list Z).
Abbreviation CommitId := (list Z).

Record Provenance := mkProv { principal : str; reason : str; timestamp_millis : Z }.
Record CommitInfo := mkInfo { ci_id : CommitId; ref_name : str; ci_object : ObjectId; ci_previous : option ObjectId; provenance : Provenance }.

Inductive CairnError :=
| IoFailed | EmptyTransaction | MultiRefTransactionUnsupported | MissingObject (id : ObjectId) | MissingCommit (id : CommitId)
| InvalidRefName | InvalidMetadata | ValueTooLarge.

Inductive LogRecord :=
| RObject (id : ObjectId) (bytes : list Z)
| RCommit (info : CommitInfo) (sequence : Z)
| RRollback (info : CommitInfo) (sequence : Z).

Record CairnStore := mkStore {
  log : list Z; objects : gmap (list Z) (list Z); refs : gmap (list Z) ObjectId; commits : gmap (list Z) CommitInfo;
  ref_history : gmap (list Z) (list CommitId); next_sequence : Z }.

(** ** Records as bytes *)

Definition write_bytes (value : list Z) : result CairnError (list Z) :=
  if zlen value <? 2 ^ 32 then Ok (le_bytes 4 (zlen value) ++ value) else Err ValueTooLarge.
Definition write_string (value : str) : result CairnError (list Z) := write_bytes (utf8_encode value).

Definition encode_object (id : ObjectId) (bytes : list Z) : result CairnError (list Z) :=
  b ← write_bytes bytes; Ok (TYPE_OBJECT :: id ++ b).

Definition encode_ref_move (ty : Z) (commit : CommitId) (sequence : Z) (name : str) (object : ObjectId) (previous : option ObjectId)
    (p : Provenance) : result CairnError (list Z) :=
  n ← write_string name;
  pr ← write_string (principal p);
  rs ← write_string (reason p);
  Ok (ty :: commit ++ le_bytes 8 sequence ++ n ++ object
      ++ match previous with Some id => 1 :: id | None => [0] end ++ pr ++ rs ++ le_bytes 16 (timestamp_millis p)).

(** [Cursor]: the bytes that are left. *)
Definition c_take (n : nat) (c : list Z) : option (list Z * list Z) :=
  if (n <=? length c)%nat then Some (take n c, drop n c) else None.
Definition c_u8 (c : list Z) : option (Z * list Z) := match c with b :: c => Some (b, c) | [] => None end.
Definition c_uint (n : nat) (c : list Z) : option (Z * list Z) := '(b, c) ← c_take n c; Some (le_val b, c).
Definition c_bytes (c : list Z) : option (list Z * list Z) :=
  '(len, c) ← c_uint 4 c; c_take (Z.to_nat len) c.
Definition c_string (c : list Z) : option (str * list Z) :=
  '(b, c) ← c_bytes c; s ← utf8_decode b; Some (s, c).

Definition decode_record (payload : list Z) : option LogRecord :=
  '(ty, c) ← c_u8 payload;
  if ty =? TYPE_OBJECT then
    '(id, c) ← c_take 32 c;
    '(bytes, c) ← c_bytes c;
    Some (RObject id bytes)
  else if (ty =? TYPE_COMMIT) || (ty =? TYPE_ROLLBACK) then
    '(id, c) ← c_take 32 c;
    '(sequence, c) ← c_uint 8 c;
    '(name, c) ← c_string c;
    '(object, c) ← c_take 32 c;
    '(tag, c) ← c_u8 c;
    '(previous, c) ← (if tag =? 0 then Some (None, c)
                      else if tag =? 1 then '(p, c) ← c_take 32 c; Some (Some p, c) else None);
    '(pr, c) ← c_string c;
    '(rs, c) ← c_string c;
    '(ts, c) ← c_uint 16 c;
    if negb (length c =? 0)%nat then None else
    let info := mkInfo id name object previous (mkProv pr rs ts) in
    Some (if ty =? TYPE_COMMIT then RCommit info sequence else RRollback info sequence)
  else None.

(** ** The store *)

Section Store.
Context (blake3 : list Z -> list Z) (oc : bool).

Definition object_id (bytes : list Z) : ObjectId := blake3 bytes.
Definition commit_id (sequence : Z) (name : str) (object : ObjectId) (previous : option ObjectId) (p : Provenance) : CommitId :=
  blake3 (le_bytes 8 sequence ++ utf8_encode name ++ object ++ default [] previous ++ utf8_encode (principal p)
          ++ utf8_encode (reason p) ++ le_bytes 16 (timestamp_millis p)).

(** The bytes of one [append_record]. *)
Definition frame (payload : list Z) : list Z := MAGIC ++ le_bytes 8 (zlen payload) ++ blake3 payload ++ payload.

(** One turn of the loop of [replay_log] on what is left of the file: stop, or a
    record and the rest.  A length beyond [isize::MAX] cannot be allocated. *)
Definition replay_step (file : list Z) : outcome CairnError (option (LogRecord * list Z)) :=
  if (length file <? 8)%nat || negb (bool_decide (take 8 file = MAGIC)) then Ret None else
  let file := drop 8 file in
  if (length file <? 40)%nat then Ret None else
  let len := le_val (take 8 file) in
  let checksum := take 32 (drop 8 file) in
  let file := drop 40 file in
  if 2 ^ 63 <=? len then Panic else
  if zlen file <? len then Ret None else
  let payload := take (Z.to_nat len) file in
  if negb (bool_decide (blake3 payload = checksum)) then Ret None else
  Ret (r ← decode_record payload; Some (r, drop (Z.to_nat len) file)).

Definition sequence_of (r : LogRecord) : option Z := match r with RObject _ _ => None | RCommit _ q | RRollback _ q => Some q end.
Definition seen_sequence (r : LogRecord) (next : Z) : outcome CairnError Z :=
  match sequence_of r with None => Ret next | Some q => q1 ← uadd 64 oc q 1; Ret (Z.max next q1) end.

Fixpoint replay_log (n : nat) (file : list Z) (records : list LogRecord) (next : Z) : outcome CairnError (list LogRecord * Z) :=
  match n with
  | O => Ret (records, next)
  | S n =>
    o ← replay_step file;
    match o with
    | None => Ret (records, next)
    | Some (r, file) => next ← seen_sequence r next; replay_log n file (records ++ [r]) next
    end
  end.

Definition apply_commit (info : CommitInfo) (s : CairnStore) : CairnStore :=
  mkStore (log s) (objects s) (<[ref_name info := ci_object info]> (refs s)) (<[ci_id info := info]> (commits s))
    (<[ref_name info := default [] (ref_history s !! ref_name info) ++ [ci_id info]]> (ref_history s)) (next_sequence s).
Definition with_objects (o : gmap (list Z) (list Z)) (s : CairnStore) : CairnStore :=
  mkStore (log s) o (refs s) (commits s) (ref_history s) (next_sequence s).
Definition with_next (n : Z) (s : CairnStore) : CairnStore :=
  mkStore (log s) (objects s) (refs s) (commits s) (ref_history s) n.
Definition with_log (l : list Z) (s : CairnStore) : CairnStore :=
  mkStore l (objects s) (refs s) (commits s) (ref_history s) (next_sequence s).

Definition apply_replayed (s : CairnStore) (r : LogRecord) : outcome CairnError CairnStore :=
  match r with
  | RObject id bytes => Ret (with_objects (match objects s !! id with Some _ => objects s | None => <[id := bytes]> (objects s) end) s)
  | RCommit info q | RRollback info q => q1 ← uadd 64 oc q 1; Ret (apply_commit info (with_next (Z.max (next_sequence s) q1) s))
  end.
Fixpoint apply_all (s : CairnStore) (rs : list LogRecord) : outcome CairnError CairnStore :=
  match rs with [] => Ret s | r :: rs => s ← apply_replayed s r; apply_all s rs end.

Definition empty_store (file : list Z) (next : Z) : CairnStore := mkStore file ∅ ∅ ∅ ∅ next.

(** [CairnStore::open] on the bytes of the log file. *)
Definition open (file : list Z) : outcome CairnError CairnStore :=
  '(records, next) ← replay_log (S (length file)) file [] 0;
  apply_all (empty_store file next) records.

(** How an append ends: all bytes, or an error after the first [k]. *)
Abbreviation Io := (option nat).
Definition append_record (io : Io) (payload : list Z) (s : CairnStore) : result CairnError unit * CairnStore :=
  match io with
  | None => (Ok tt, with_log (log s ++ frame payload) s)
  | Some k => (Err IoFailed, with_log (log s ++ take k (frame payload)) s)
  end.

(** [put] and the body of the loop of [Tx::commit]. *)
Definition put_object (io : Io) (id : ObjectId) (bytes : list Z) (s : CairnStore) : result CairnError unit * CairnStore :=
  match objects s !! id with
  | Some _ => (Ok tt, s)
  | None =>
    match encode_object id bytes with
    | Err e => (Err e, s)
    | Ok record =>
      match append_record io record s with
      | (Err e, s) => (Err e, s)
      | (Ok _, s) => (Ok tt, with_objects (<[id := bytes]> (objects s)) s)
      end
    end
  end.
Definition put (io : Io) (bytes : list Z) (s : CairnStore) : result CairnError ObjectId * CairnStore :=
  match put_object io (object_id bytes) bytes s with (Ok _, s) => (Ok (object_id bytes), s) | (Err e, s) => (Err e, s) end.

Definition get (id : ObjectId) (s : CairnStore) : option (list Z) := objects s !! id.
Definition get_ref (name : str) (s : CairnStore) : option ObjectId := refs s !! name.
Definition history (name : str) (s : CairnStore) : list CommitId := default [] (ref_history s !! name).
Definition commit_info (id : CommitId) (s : CairnStore) : option CommitInfo := commits s !! id.

Definition validate_ref_name (name : str) : result CairnError unit := if bool_decide (name = []) then Err InvalidRefName else Ok tt.
Definition validate_metadata (principal reason : str) : result CairnError unit :=
  if bool_decide (principal = []) || bool_decide (reason = []) then Err InvalidMetadata else Ok tt.

Definition take_sequence (s : CairnStore) : outcome CairnError (Z * CairnStore) :=
  n ← uadd 64 oc (next_sequence s) 1; Ret (next_sequence s, with_next n s).

(** The common end of a commit and a rollback. *)
Definition move_ref (ty : Z) (io : Io) (name : str) (object : ObjectId) (pr rs : str) (now : Z) (s : CairnStore)
  : outcome CairnError (result CairnError CommitId * CairnStore) :=
  let previous := refs s !! name in
  '(sequence, s) ← take_sequence s;
  let prov := mkProv pr rs now in
  let id := commit_id sequence name object previous prov in
  Ret (match encode_ref_move ty id sequence name object previous prov with
       | Err e => (Err e, s)
       | Ok record =>
         match append_record io record s with
         | (Err e, s) => (Err e, s)
         | (Ok _, s) => (Ok id, apply_commit (mkInfo id name object previous prov) s)
         end
       end).

Definition rollback (io : Io) (name : str) (target : CommitId) (pr rs : str) (now : Z) (s : CairnStore)
  : outcome CairnError (result CairnError CommitId * CairnStore) :=
  match validate_ref_name name, validate_metadata pr rs with
  | Err e, _ | Ok _, Err e => Ret (Err e, s)
  | Ok _, Ok _ =>
    match commits s !! target with
    | None => Ret (Err (MissingCommit target), s)
    | Some info =>
      if negb (bool_decide (ref_name info = name)) then Ret (Err (MissingCommit target), s)
      else move_ref TYPE_ROLLBACK io name (ci_object info) pr rs now s
    end
  end.

Definition commit_updates (io : Io) (ref_updates : list (str * ObjectId)) (pr rs : str) (now : Z) (s : CairnStore)
  : outcome CairnError (result CairnError CommitId * CairnStore) :=
  match ref_updates with
  | [] => Ret (Err EmptyTransaction, s)
  | [(name, id)] =>
    match validate_metadata pr rs, validate_ref_name name with
    | Err e, _ | Ok _, Err e => Ret (Err e, s)
    | Ok _, Ok _ =>
      match objects s !! id with
      | None => Ret (Err (MissingObject id), s)
      | Some _ => move_ref TYPE_COMMIT io name id pr rs now s
      end
    end
  | _ => Ret (Err MultiRefTransactionUnsupported, s)
  end.

(** *** Transactions *)

Record Tx := mkTx { puts : list (ObjectId * list Z); ref_updates : list (str * ObjectId) }.
Definition begin_tx : Tx := mkTx [] [].
Definition tx_put (bytes : list Z) (s : CairnStore) (t : Tx) : ObjectId * Tx :=
  let id := object_id bytes in
  (id, match objects s !! id with
       | Some _ => t
       | None => if existsb (fun p => bool_decide (p.1 = id)) (puts t) then t else mkTx (puts t ++ [(id, bytes)]) (ref_updates t)
       end).
Definition set_ref (name : str) (id : ObjectId) (t : Tx) : Tx := mkTx (puts t) (ref_updates t ++ [(name, id)]).

(** The puts of [Tx::commit], with the end of each append. *)
Fixpoint drain (ios : nat -> Io) (ps : list (ObjectId * list Z)) (s : CairnStore) : result CairnError unit * CairnStore :=
  match ps with
  | [] => (Ok tt, s)
  | (id, bytes) :: ps =>
    match put_object (ios (length ps)) id bytes s with
    | (Err e, s) => (Err e, s)
    | (Ok _, s) => drain ios ps s
    end
  end.
Definition tx_commit (ios : nat -> Io) (io : Io) (t : Tx) (pr rs : str) (now : Z) (s : CairnStore)
  : outcome CairnError (result CairnError CommitId * CairnStore) :=
  match drain ios (puts t) s with
  | (Err e, s) => Ret (Err e, s)
  | (Ok _, s) => commit_updates io (ref_updates t) pr rs now s
  end.
End Store.

(** ** Records survive the codec *)

Definition encode_record (r : LogRecord) : result CairnError (list Z) :=
  match r with
  | RObject id bytes => encode_object id bytes
  | RCommit i q => encode_ref_move TYPE_COMMIT (ci_id i) q (ref_name i) (ci_object i) (ci_previous i) (provenance i)
  | RRollback i q => encode_ref_move TYPE_ROLLBACK (ci_id i) q (ref_name i) (ci_object i) (ci_previous i) (provenance i)
  end.

Record info_ok (i : CommitInfo) : Prop := {
  ik_id : length (ci_id i) = 32%nat;
  ik_name : valid_str (ref_name i);
  ik_object : length (ci_object i) = 32%nat;
  ik_previous p : ci_previous i = Some p -> length p = 32%nat;
  ik_principal : valid_str (principal (provenance i));
  ik_reason : valid_str (reason (provenance i));
  ik_time : fits 128 (timestamp_millis (provenance i)) }.

Definition rec_fields_ok (oc : bool) (r : LogRecord) : Prop :=
  match r with
  | RObject id _ => length id = 32%nat
  | RCommit i q | RRollback i q => info_ok i /\ fits 64 q /\ (oc = true -> q + 1 < 2 ^ 64)
  end.
Record rec_ok (oc : bool) (r : LogRecord) : Prop := { rk_fields : rec_fields_ok oc r; rk_encodes : exists p, encode_record r = Ok p }.

Lemma c_take_app a b : c_take (length a) (a ++ b) = Some (a, b).
Proof.
  unfold c_take. rewrite length_app. rewrite (proj2 (Nat.leb_le _ _)) by lia. rewrite take_app_length, drop_app_length. reflexivity.
Qed.
Lemma c_take_n n a b : length a = n -> c_take n (a ++ b) = Some (a, b).
Proof. intros <-. apply c_take_app. Qed.
Lemma c_uint_app n v b : fits (8 * Z.of_nat n) v -> c_uint n (le_bytes n v ++ b) = Some (v, b).
Proof. intros Hv. unfold c_uint. rewrite (c_take_n n) by apply length_le_bytes. cbn. rewrite le_val_le_bytes by exact Hv. reflexivity. Qed.

Lemma write_bytes_inv v w : write_bytes v = Ok w -> zlen v < 2 ^ 32 /\ w = le_bytes 4 (zlen v) ++ v.
Proof. unfold write_bytes. destruct (zlen v <? 2 ^ 32) eqn:E; [|discriminate]. intros [= <-]. split; [apply Z.ltb_lt, E|reflexivity]. Qed.
Lemma c_bytes_app v w b : write_bytes v = Ok w -> c_bytes (w ++ b) = Some (v, b).
Proof.
  intros H. apply write_bytes_inv in H as [Hl ->]. unfold c_bytes. rewrite <- app_assoc. pose proof (zlen_nonneg v) as H0.
  rewrite c_uint_app by (unfold fits; lia). cbn [mbind option_bind]. apply c_take_n. unfold zlen. lia.
Qed.
Lemma c_string_app s w b : valid_str s -> write_string s = Ok w -> c_string (w ++ b) = Some (s, b).
Proof.
  intros Hs H. unfold c_string. rewrite (c_bytes_app _ _ _ H). cbn [mbind option_bind]. rewrite utf8_decode_encode by exact Hs. reflexivity.
Qed.

Lemma ok_inj {E A} (a b : A) : (Ok a : result E A) = Ok b -> a = b.
Proof. congruence. Qed.
Lemma result_bind_Ok {E A B} (m : result E A) (f : A -> result E B) b : (m ≫= f) = Ok b -> exists a, m = Ok a /\ f a = Ok b.
Proof. destruct m; [|discriminate]. eauto. Qed.

Lemma decode_ref_move ty i q p : ty = TYPE_COMMIT \/ ty = TYPE_ROLLBACK -> info_ok i -> fits 64 q ->
  encode_ref_move ty (ci_id i) q (ref_name i) (ci_object i) (ci_previous i) (provenance i) = Ok p ->
  decode_record p = Some (if ty =? TYPE_COMMIT then RCommit i q else RRollback i q).
Proof.
  intros Hty [Hid Hn Ho Hp Hpr Hrs Ht] Hq E. unfold encode_ref_move in E.
  apply result_bind_Ok in E as (wn & En & E). apply result_bind_Ok in E as (wp & Ep & E). apply result_bind_Ok in E as (wr & Er & E). apply ok_inj in E as <-.
  unfold decode_record. cbn [c_u8 mbind option_bind].
  assert ((ty =? TYPE_OBJECT) = false) as -> by (destruct Hty; subst ty; reflexivity).
  assert ((ty =? TYPE_COMMIT) || (ty =? TYPE_ROLLBACK) = true) as -> by (destruct Hty; subst ty; reflexivity).
  rewrite (c_take_n 32) by exact Hid. cbn [mbind option_bind]. rewrite (c_uint_app 8) by exact Hq. cbn [mbind option_bind].
  rewrite (c_string_app _ _ _ Hn En). cbn [mbind option_bind]. rewrite (c_take_n 32) by exact Ho. cbn [mbind option_bind].
  destruct i as [id name obj prev [pr rs ts]]. cbn [ci_id ref_name ci_object ci_previous provenance principal reason timestamp_millis] in *.
  destruct prev as [pv|]; cbn [app c_u8 mbind option_bind].
  - change (1 =? 0) with false. change (1 =? 1) with true. cbn iota. rewrite (c_take_n 32) by (apply Hp; reflexivity). cbn [mbind option_bind].
    rewrite (c_string_app _ _ _ Hpr Ep). cbn [mbind option_bind]. rewrite (c_string_app _ _ _ Hrs Er). cbn [mbind option_bind].
    rewrite <- (app_nil_r (le_bytes 16 ts)), (c_uint_app 16) by exact Ht. cbn. destruct (ty =? TYPE_COMMIT); reflexivity.
  - change (0 =? 0) with true. cbn iota. cbn [mbind option_bind].
    rewrite (c_string_app _ _ _ Hpr Ep). cbn [mbind option_bind]. rewrite (c_string_app _ _ _ Hrs Er). cbn [mbind option_bind].
    rewrite <- (app_nil_r (le_bytes 16 ts)), (c_uint_app 16) by exact Ht. cbn. destruct (ty =? TYPE_COMMIT); reflexivity.
Qed.

Lemma decode_encode_record oc r p : rec_fields_ok oc r -> encode_record r = Ok p -> decode_record p = Some r.
Proof.
  destruct r as [id bytes|i q|i q]; cbn [rec_fields_ok encode_record].
  - intros Hid E. apply result_bind_Ok in E as (w & Ew & E). apply ok_inj in E as <-. unfold decode_record. cbn [c_u8 mbind option_bind Z.eqb TYPE_OBJECT Pos.eqb].
    rewrite (c_take_n 32) by exact Hid. cbn [mbind option_bind]. rewrite <- (app_nil_r w), (c_bytes_app _ _ _ Ew). reflexivity.
  - intros (Hi & Hq & _) E. exact (decode_ref_move TYPE_COMMIT i q p (or_introl eq_refl) Hi Hq E).
  - intros (Hi & Hq & _) E. exact (decode_ref_move TYPE_ROLLBACK i q p (or_intror eq_refl) Hi Hq E).
Qed.

Lemma write_bytes_len v w : write_bytes v = Ok w -> zlen w < 2 ^ 33.
Proof. intros H. apply write_bytes_inv in H as [Hl ->]. rewrite zlen_app. unfold zlen at 1. rewrite length_le_bytes. lia. Qed.

Lemma encoded_length oc r p : rec_fields_ok oc r -> encode_record r = Ok p -> zlen p < 2 ^ 63.
Proof.
  assert (L : forall (l : list Z) n, length l = n -> zlen l = Z.of_nat n) by (intros l n <-; reflexivity).
  assert (M : forall ty i q, info_ok i -> encode_ref_move ty (ci_id i) q (ref_name i) (ci_object i) (ci_previous i) (provenance i) = Ok p -> zlen p < 2 ^ 63).
  { intros ty i q [Hid _ Ho Hp _ _ _] E. unfold encode_ref_move in E.
    apply result_bind_Ok in E as (wn & En & E). apply result_bind_Ok in E as (wp & Ep & E). apply result_bind_Ok in E as (wr & Er & E). apply ok_inj in E as <-.
    apply write_bytes_len in En, Ep, Er. assert (Hpv : zlen (match ci_previous i with Some id => 1 :: id | None => [0] end) <= 33).
    { destruct (ci_previous i) as [pv|]; unfold zlen; cbn [length]; [rewrite (Hp pv eq_refl)|]; lia. }
    change (ty :: ?x) with ([ty] ++ x). rewrite !zlen_app, (L _ _ Hid), (L _ _ Ho), !(L _ _ (length_le_bytes _ _)). unfold zlen at 1. cbn [length]. lia. }
  destruct r as [id bytes|i q|i q]; cbn [rec_fields_ok encode_record].
  - intros Hid E. apply result_bind_Ok in E as (w & Ew & E). apply ok_inj in E as <-. apply write_bytes_len in Ew.
    change (TYPE_OBJECT :: ?x) with ([TYPE_OBJECT] ++ x). rewrite !zlen_app, (L _ _ Hid). unfold zlen at 1. cbn [length]. lia.
  - intros (Hi & _) E. exact (M _ _ _ Hi E).
  - intros (Hi & _) E. exact (M _ _ _ Hi E).
Qed.

(** ** Replaying a log *)

Section Replay.
Context (blake3 : list Z -> list Z) (oc : bool) (digest_length : forall b, length (blake3 b) = 32%nat).

Definition rec_frame (r : LogRecord) : list Z := match encode_record r with Ok p => frame blake3 p | Err _ => [] end.
Definition frames (rs : list LogRecord) : list Z := concat (rec_frame <$> rs).

Lemma frames_app rs rs' : frames (rs ++ rs') = frames rs ++ frames rs'.
Proof. unfold frames. rewrite fmap_app, concat_app. reflexivity. Qed.
Lemma frames_cons r rs : frames (r :: rs) = rec_frame r ++ frames rs.
Proof. reflexivity. Qed.

Lemma frame_length p : length (frame blake3 p) = (48 + length p)%nat.
Proof. unfold frame. rewrite !length_app, length_le_bytes, digest_length. reflexivity. Qed.

Lemma replay_step_frame r rest : rec_ok oc r -> replay_step blake3 (rec_frame r ++ rest) = Ret (Some (r, rest)).
Proof.
  intros [Hf [p Hp]]. unfold rec_frame. rewrite Hp. pose proof (encoded_length _ _ _ Hf Hp) as Hl. pose proof (zlen_nonneg p) as H0.
  unfold replay_step. unfold frame. rewrite <- !app_assoc.
  assert (E8 : take 8 (MAGIC ++ le_bytes 8 (zlen p) ++ blake3 p ++ p ++ rest) = MAGIC) by reflexivity.
  assert (D8 : drop 8 (MAGIC ++ le_bytes 8 (zlen p) ++ blake3 p ++ p ++ rest) = le_bytes 8 (zlen p) ++ blake3 p ++ p ++ rest) by reflexivity.
  rewrite E8, D8, bool_decide_eq_true_2 by reflexivity.
  rewrite (proj2 (Nat.ltb_ge _ _)) by (rewrite length_app; cbn [length MAGIC]; change (length MAGIC) with 8%nat; lia). cbn [negb orb].
  rewrite (proj2 (Nat.ltb_ge _ _)) by (rewrite !length_app, length_le_bytes, digest_length; lia). cbv zeta.
  rewrite (take_app_length' _ _ 8) by (symmetry; apply length_le_bytes). rewrite (drop_app_length' _ _ 8) by (symmetry; apply length_le_bytes).
  rewrite (take_app_length' _ _ 32) by (symmetry; apply digest_length).
  assert (D40 : drop 40 (le_bytes 8 (zlen p) ++ blake3 p ++ p ++ rest) = p ++ rest).
  { rewrite app_assoc. apply drop_app_length'. rewrite length_app, length_le_bytes, digest_length. reflexivity. }
  rewrite D40, le_val_le_bytes by (unfold fits; lia). rewrite (proj2 (Z.leb_gt _ _)) by lia.
  rewrite (proj2 (Z.ltb_ge _ _)) by (rewrite zlen_app; pose proof (zlen_nonneg rest); lia).
  rewrite (take_app_length' _ _ (Z.to_nat (zlen p))) by (unfold zlen; lia). rewrite (drop_app_length' _ _ (Z.to_nat (zlen p))) by (unfold zlen; lia).
  rewrite bool_decide_eq_true_2 by reflexivity. cbn [negb]. rewrite (decode_encode_record _ _ _ Hf Hp). reflexivity.
Qed.

(** A record that was cut short stops the replay. *)
Lemma replay_step_torn r k : rec_ok oc r -> (k < length (rec_frame r))%nat -> replay_step blake3 (take k (rec_frame r)) = Ret None.
Proof.
  intros [Hf [p Hp]]. unfold rec_frame. rewrite Hp. pose proof (encoded_length _ _ _ Hf Hp) as Hl. pose proof (zlen_nonneg p) as H0.
  rewrite frame_length. intros Hk. unfold replay_step. rewrite length_take, frame_length.
  destruct (decide (k < 8)%nat) as [K8|K8]; [rewrite (proj2 (Nat.ltb_lt _ _)) by lia; reflexivity|].
  rewrite (proj2 (Nat.ltb_ge _ _)) by lia. cbn [orb].
  destruct (bool_decide _); [|reflexivity]. cbn [negb]. rewrite skipn_firstn_comm.
  assert (D8 : drop 8 (frame blake3 p) = le_bytes 8 (zlen p) ++ blake3 p ++ p) by reflexivity. rewrite D8.
  destruct (decide (k < 48)%nat) as [K48|K48].
  { rewrite (proj2 (Nat.ltb_lt _ _)); [reflexivity|]. rewrite length_take. lia. }
  rewrite (proj2 (Nat.ltb_ge _ _)) by (rewrite length_take, !length_app, length_le_bytes, digest_length; lia).
  rewrite firstn_firstn. replace (8 `min` (k - 8))%nat with 8%nat by lia.
  rewrite (take_app_length' _ _ 8) by (symmetry; apply length_le_bytes). rewrite le_val_le_bytes by (unfold fits; lia).
  rewrite (proj2 (Z.leb_gt _ _)) by lia. rewrite (proj2 (Z.ltb_lt _ _)); [reflexivity|]. unfold zlen at 1.
  rewrite length_drop, length_take, !length_app, length_le_bytes, digest_length. unfold zlen. lia.
Qed.

(** What the records say, without the counters. *)
Definition see (s : CairnStore) (r : LogRecord) : CairnStore :=
  match r with
  | RObject id bytes => with_objects (match objects s !! id with Some _ => objects s | None => <[id := bytes]> (objects s) end) s
  | RCommit info _ | RRollback info _ => apply_commit info s
  end.

Record same_view (s s' : CairnStore) : Prop := {
  sv_objects : objects s' = objects s; sv_refs : refs s' = refs s; sv_commits : commits s' = commits s; sv_history : ref_history s' = ref_history s }.
#[export] Instance same_view_equiv : Equivalence same_view.
Proof. split; [split; reflexivity|intros a b []; split; congruence|intros a b c [] []; split; congruence]. Qed.

Lemma see_proper r s s' : same_view s s' -> same_view (see s r) (see s' r).
Proof.
  intros [O R C H]. destruct r; cbn [see]; split; unfold with_objects, apply_commit; cbn; rewrite ?O, ?R, ?C, ?H; reflexivity.
Qed.
Lemma sees_proper rs s s' : same_view s s' -> same_view (foldl see s rs) (foldl see s' rs).
Proof. revert s s'. induction rs as [|r rs IH]; intros s s' H; [exact H|]. apply IH, see_proper, H. Qed.

Lemma seq_step q : fits 64 q -> (oc = true -> q + 1 < 2 ^ 64) -> exists v, (uadd 64 oc q 1 : outcome CairnError Z) = Ret v.
Proof.
  intros _ H. unfold uadd. destruct (q + 1 <? 2 ^ 64) eqn:E; [eauto|]. apply Z.ltb_ge in E. destruct oc; [|eauto]. specialize (H eq_refl). lia.
Qed.

Lemma apply_replayed_view s r : rec_ok oc r -> exists s', apply_replayed oc s r = Ret s' /\ same_view (see s r) s'.
Proof.
  intros [Hf _]. destruct r as [id bytes|i q|i q]; cbn [rec_fields_ok] in Hf; cbn [apply_replayed see].
  - eexists. split; reflexivity.
  - destruct Hf as (_ & Hq & Ho). destruct (seq_step q Hq Ho) as [v ->]. cbn. eexists. split; [reflexivity|]. split; reflexivity.
  - destruct Hf as (_ & Hq & Ho). destruct (seq_step q Hq Ho) as [v ->]. cbn. eexists. split; [reflexivity|]. split; reflexivity.
Qed.

Lemma apply_all_view rs : forall s, Forall (rec_ok oc) rs -> exists s', apply_all oc s rs = Ret s' /\ same_view (foldl see s rs) s'.
Proof.
  induction rs as [|r rs IH]; intros s Hr; [exists s; split; reflexivity|]. apply Forall_cons in Hr as [Hr Hrs].
  destruct (apply_replayed_view s r Hr) as (s1 & E1 & V1). destruct (IH s1 Hrs) as (s2 & E2 & V2). exists s2. cbn [apply_all foldl]. rewrite E1. split; [exact E2|].
  etransitivity; [apply sees_proper, V1|exact V2].
Qed.

Lemma uadd_fits a b v : 0 <= a -> 0 <= b -> (uadd 64 oc a b : outcome CairnError Z) = Ret v -> fits 64 v.
Proof. intros Ha Hb. unfold uadd. destruct (a + b <? 2 ^ 64) eqn:E; [apply Z.ltb_lt in E; intros [= <-]; unfold fits; lia|]. destruct oc; [discriminate|]. intros [= <-]. apply wrap_fits. lia. Qed.

Lemma apply_all_next rs : forall s s', Forall (rec_ok oc) rs -> fits 64 (next_sequence s) -> apply_all oc s rs = Ret s' -> fits 64 (next_sequence s').
Proof.
  induction rs as [|r rs IH]; intros s s' Hr Hf; cbn [apply_all]; [intros [= <-]; exact Hf|]. apply Forall_cons in Hr as [[Hr _] Hrs].
  destruct (apply_replayed oc s r) as [s1| |] eqn:E; cbn; try discriminate. intros E2. apply (IH s1 s' Hrs); [|exact E2].
  destruct r as [id b|i q|i q]; cbn in E, Hr; [injection E as <-; exact Hf| |]; destruct Hr as (_ & Hq & _);
    destruct (uadd 64 oc q 1) as [v| |] eqn:Eu; try discriminate; cbn in E; injection E as <-; cbn;
    apply uadd_fits in Eu; unfold fits in *; lia.
Qed.

Lemma replay_frames rs : forall n tail recs next, Forall (rec_ok oc) rs -> replay_step blake3 tail = Ret None -> (length rs < n)%nat ->
  exists next', replay_log blake3 oc n (frames rs ++ tail) recs next = Ret (recs ++ rs, next') /\ (fits 64 next -> fits 64 next').
Proof.
  induction rs as [|r rs IH]; intros n tail recs next Hr Ht Hn; (destruct n as [|n]; [cbn in Hn; lia|]); cbn [replay_log].
  - cbn [frames concat fmap list_fmap app]. rewrite Ht. cbn. exists next. rewrite app_nil_r. auto.
  - apply Forall_cons in Hr as [Hr Hrs]. rewrite frames_cons, <- app_assoc, replay_step_frame by exact Hr. cbn [mbind outcome_bind].
    assert (exists v, seen_sequence oc r next = Ret v /\ (fits 64 next -> fits 64 v)) as (v & Hv & Hfv).
    { unfold seen_sequence. destruct Hr as [Hf _]. destruct r as [id b|i q|i q]; cbn [rec_fields_ok sequence_of] in *; [eauto| |];
        destruct Hf as (_ & Hq & Ho); destruct (seq_step q Hq Ho) as [v Ev]; rewrite Ev; cbn; eexists; (split; [reflexivity|]);
        apply uadd_fits in Ev; unfold fits in *; lia. }
    cbn. rewrite Hv. cbn. destruct (IH n tail (recs ++ [r]) v Hrs Ht ltac:(cbn in Hn; lia)) as (next' & E & Hf'). exists next'.
    rewrite <- app_assoc in E. split; [exact E|auto].
Qed.

Lemma frames_length rs : Forall (rec_ok oc) rs -> (48 * length rs <= length (frames rs))%nat.
Proof.
  induction 1 as [|r rs [_ [p Hp]] _ IH]; [cbn; lia|]. rewrite frames_cons, length_app. unfold rec_frame. rewrite Hp, frame_length. cbn. lia.
Qed.

(** Opening a log that ends in a part the replay stops at shows exactly the
    complete records. *)
Lemma open_frames rs tail : Forall (rec_ok oc) rs -> replay_step blake3 tail = Ret None ->
  exists s, open blake3 oc (frames rs ++ tail) = Ret s /\ log s = frames rs ++ tail /\ same_view (foldl see (empty_store [] 0) rs) s /\
    fits 64 (next_sequence s).
Proof.
  intros Hr Ht. unfold open. pose proof (frames_length rs Hr) as Hl.
  destruct (replay_frames rs (S (length (frames rs ++ tail))) tail [] 0 Hr Ht) as (next & E & Hfn); [rewrite length_app; lia|].
  rewrite E. cbn [mbind outcome_bind app]. destruct (apply_all_view rs (empty_store (frames rs ++ tail) next) Hr) as (s & Es & Vs).
  exists s. split; [exact Es|]. split.
  - clear -Es. assert (G : forall rs s s', apply_all oc s rs = Ret s' -> log s' = log s).
    { clear. induction rs as [|r rs IH]; intros s s'; cbn; [intros [= <-]; reflexivity|]. destruct (apply_replayed oc s r) as [s1| |] eqn:E; cbn; try discriminate.
      intros E2. rewrite (IH _ _ E2). destruct r; cbn in E; [injection E as <-; reflexivity| |]; unfold uadd in E; repeat case_match; try discriminate; injection E as <-; reflexivity. }
    exact (G _ _ _ Es).
  - split; [etransitivity; [|exact Vs]; apply sees_proper; split; reflexivity|].
    refine (apply_all_next rs _ _ Hr _ Es). apply Hfn. unfold fits. lia.
Qed.

(** ** What operations add to the log *)

(** The facts of a store an operation needs to write well-formed records. *)
Record sound (s : CairnStore) : Prop := {
  sd_refs n o : refs s !! n = Some o -> length o = 32%nat;
  sd_commits id i : commits s !! id = Some i -> length (ci_object i) = 32%nat;
  sd_next : fits 64 (next_sequence s) }.

(** [s'] is [s] after appending the records [new]. *)
Record grows (s s' : CairnStore) (new : list LogRecord) : Prop := {
  gr_log : log s' = log s ++ frames new;
  gr_recs : Forall (rec_ok oc) new;
  gr_view : same_view (foldl see s new) s';
  gr_sound : sound s' }.

Lemma grows_refl s : sound s -> grows s s [].
Proof. intros H. constructor; [rewrite app_nil_r; reflexivity|constructor|reflexivity|exact H]. Qed.
Lemma grows_trans s1 s2 s3 a b : grows s1 s2 a -> grows s2 s3 b -> grows s1 s3 (a ++ b).
Proof.
  intros [L1 R1 V1 _] [L2 R2 V2 S2]. constructor; [rewrite L2, L1, frames_app, app_assoc; reflexivity|apply Forall_app; auto| |exact S2].
  rewrite foldl_app. etransitivity; [apply sees_proper, V1|exact V2].
Qed.

Definition is_object (r : LogRecord) : Prop := match r with RObject _ _ => True | _ => False end.

(** An append that is complete or has not begun. *)
Definition clean (io : option nat) : Prop := io = None \/ io = Some 0%nat.

Lemma append_clean io payload s : clean io ->
  append_record blake3 io payload s = (Ok tt, with_log (log s ++ frame blake3 payload) s) \/ append_record blake3 io payload s = (Err IoFailed, s).
Proof. intros [->| ->]; [left; reflexivity|right]. cbn. rewrite app_nil_r. by destruct s. Qed.

Lemma put_object_grows io id bytes s r s' : clean io -> length id = 32%nat -> sound s -> put_object blake3 io id bytes s = (r, s') ->
  exists new, grows s s' new /\ Forall is_object new.
Proof.
  intros Hio Hid Hs. unfold put_object. destruct (objects s !! id) eqn:Eo.
  { intros [= _ <-]. exists []. split; [apply grows_refl, Hs|constructor]. }
  destruct (encode_object id bytes) as [p|e] eqn:Ep; [|intros [= _ <-]; exists []; split; [apply grows_refl, Hs|constructor]].
  destruct (append_clean io p s Hio) as [-> | ->]; intros [= _ <-]; [|exists []; split; [apply grows_refl, Hs|constructor]].
  exists [RObject id bytes]. split; [|repeat constructor]. constructor.
  - unfold frames, rec_frame. cbn [encode_record fmap list_fmap concat]. rewrite Ep, app_nil_r. reflexivity.
  - repeat constructor; [exact Hid|exists p; exact Ep].
  - cbn [foldl see]. rewrite Eo. split; reflexivity.
  - destruct Hs. constructor; assumption.
Qed.

Lemma drain_grows ios ps : (forall n, clean (ios n)) ->
  forall s r s', Forall (fun p => length p.1 = 32%nat) ps -> sound s -> drain blake3 ios ps s = (r, s') ->
  exists new, grows s s' new /\ Forall is_object new.
Proof.
  intros Hio. induction ps as [|[id bytes] ps IH]; intros s r s' Hp Hs; cbn [drain].
  { intros [= _ <-]. exists []. split; [apply grows_refl, Hs|constructor]. }
  apply Forall_cons in Hp as [Hid Hp]. destruct (put_object blake3 (ios (length ps)) id bytes s) as [[u|e] s1] eqn:E1.
  - destruct (put_object_grows _ _ _ _ _ _ (Hio _) Hid Hs E1) as (a & Ga & Oa). intros E2.
    destruct (IH s1 r s' Hp (gr_sound _ _ _ Ga) E2) as (b & Gb & Ob). exists (a ++ b). split; [exact (grows_trans _ _ _ _ _ Ga Gb)|apply Forall_app; auto].
  - intros [= _ <-]. exact (put_object_grows _ _ _ _ _ _ (Hio _) Hid Hs E1).
Qed.

Lemma take_sequence_ok s q s1 : sound s -> take_sequence oc s = Ret (q, s1) ->
  q = next_sequence s /\ (oc = true -> q + 1 < 2 ^ 64) /\ sound s1 /\ log s1 = log s /\ same_view s s1.
Proof.
  intros [Hr Hc Hn]. unfold take_sequence, uadd. destruct (next_sequence s + 1 <? 2 ^ 64) eqn:E; cbn.
  - apply Z.ltb_lt in E. intros [= <- <-]. repeat split; auto; cbn; unfold fits in *; lia.
  - destruct oc; [discriminate|]. cbn. intros [= <- <-]. repeat split; auto; try discriminate; cbn; apply wrap_fits; lia.
Qed.

Lemma insert_lengths {A} (P : A -> Prop) (m : gmap (list Z) A) k v n o : P v -> (forall n o, m !! n = Some o -> P o) -> <[k := v]> m !! n = Some o -> P o.
Proof. intros Hv Hm. rewrite lookup_insert_Some. intros [[_ <-]|[_ H]]; [exact Hv|exact (Hm _ _ H)]. Qed.

Lemma move_ref_grows io ty name object pr rs now s r s' : clean io -> ty = TYPE_COMMIT \/ ty = TYPE_ROLLBACK -> valid_str name -> length object = 32%nat ->
  valid_str pr -> valid_str rs -> fits 128 now -> sound s -> move_ref blake3 oc ty io name object pr rs now s = Ret (r, s') ->
  exists new, grows s s' new /\ (length new <= 1)%nat /\ forall id, r = Ok id -> refs s' !! name = Some object /\ last new <> None.
Proof.
  intros Hio Hty Hn Ho Hp Hr Ht Hs. unfold move_ref. destruct (take_sequence oc s) as [[q s1]| |] eqn:Eq; cbn; try discriminate.
  destruct (take_sequence_ok _ _ _ Hs Eq) as (-> & Hoc & [S1 S2 S3] & L1 & V1).
  set (i := mkInfo (commit_id blake3 (next_sequence s) name object (refs s !! name) (mkProv pr rs now)) name object (refs s !! name) (mkProv pr rs now)).
  assert (Hi : info_ok i) by (constructor; cbn; auto; [apply digest_length|intros p; apply (sd_refs _ Hs)]).
  assert (Hnone : grows s s1 []) by (constructor; [rewrite app_nil_r; exact L1|constructor|exact V1|constructor; assumption]).
  destruct (encode_ref_move _ _ _ _ _ _ _) as [p|e] eqn:Ep.
  2: { intros [= <- <-]. exists []. split; [exact Hnone|split; [cbn; lia|discriminate]]. }
  destruct (append_clean io p s1 Hio) as [-> | ->]; intros [= <- <-]; [|exists []; split; [exact Hnone|split; [cbn; lia|discriminate]]].
  set (rec := if ty =? TYPE_COMMIT then RCommit i (next_sequence s) else RRollback i (next_sequence s)).
  assert (Er : encode_record rec = Ok p) by (unfold rec; destruct Hty; subst ty; exact Ep).
  exists [rec]. split; [constructor|split; [cbn; lia|]].
  - cbn [log with_log apply_commit]. rewrite L1. unfold frames, rec_frame. cbn [fmap list_fmap concat]. rewrite Er, app_nil_r. reflexivity.
  - repeat constructor; [|exists p; exact Er]. unfold rec. destruct (ty =? TYPE_COMMIT); cbn; (split; [exact Hi|]); (split; [apply Hs|exact Hoc]).
  - assert (same_view (see s rec) (see s1 rec)) as V2 by apply see_proper, V1. unfold rec in *. cbn [foldl].
    destruct (ty =? TYPE_COMMIT); (etransitivity; [exact V2|]); split; reflexivity.
  - constructor; [| |exact S3]; cbn [refs commits apply_commit with_log]; intros n o.
    + apply (insert_lengths (fun o : list Z => length o = 32%nat)); [exact Ho|exact S1].
    + apply (insert_lengths (fun i => length (ci_object i) = 32%nat)); [exact Ho|exact S2].
  - intros id _. split; [cbn; apply lookup_insert_eq|discriminate].
Qed.

(** ** Sessions *)

(** The client's operations; a transaction puts [values] and then sets refs. *)
Inductive Op :=
| OPut (bytes : list Z)
| OTx (values : list (list Z)) (upds : list (str * ObjectId)) (pr rs : str) (now : Z)
| ORollback (name : str) (target : CommitId) (pr rs : str) (now : Z).

(** What the types of the source guarantee of the arguments. *)
Definition op_ok (o : Op) : Prop :=
  match o with
  | OPut _ => True
  | OTx _ upds pr rs now => Forall (fun u => valid_str u.1 /\ length u.2 = 32%nat) upds /\ valid_str pr /\ valid_str rs /\ fits 128 now
  | ORollback name _ pr rs now => valid_str name /\ valid_str pr /\ valid_str rs /\ fits 128 now
  end.

Definition built_tx (values : list (list Z)) (upds : list (str * ObjectId)) (s : CairnStore) : Tx :=
  foldl (fun t u => set_ref u.1 u.2 t) (foldl (fun t b => (tx_put blake3 b s t).2) begin_tx values) upds.
(** How the appends of an operation end: those of its objects, and its last. *)
Record Fate := mkFate { f_puts : nat -> option nat; f_last : option nat }.
Definition completes : Fate := mkFate (fun _ => None) None.
Definition clean_fate (f : Fate) : Prop := (forall n, clean (f_puts f n)) /\ clean (f_last f).

Definition exec_op (f : Fate) (o : Op) (s : CairnStore) : outcome CairnError CairnStore :=
  match o with
  | OPut bytes => Ret (put blake3 (f_last f) bytes s).2
  | OTx values upds pr rs now => x ← tx_commit blake3 oc (f_puts f) (f_last f) (built_tx values upds s) pr rs now s; Ret x.2
  | ORollback name target pr rs now => x ← rollback blake3 oc (f_last f) name target pr rs now s; Ret x.2
  end.
Fixpoint run_ops (os : list (Fate * Op)) (s : CairnStore) : outcome CairnError CairnStore :=
  match os with [] => Ret s | (f, o) :: os => s ← exec_op f o s; run_ops os s end.
Definition steps_ok (os : list (Fate * Op)) : Prop := Forall (fun x => clean_fate x.1 /\ op_ok x.2) os.

Lemma built_puts values upds s : Forall (fun p => length p.1 = 32%nat) (puts (built_tx values upds s)) /\ ref_updates (built_tx values upds s) = upds.
Proof.
  unfold built_tx.
  assert (A : forall vs t, Forall (fun p => length p.1 = 32%nat) (puts t) -> ref_updates t = [] ->
    Forall (fun p => length p.1 = 32%nat) (puts (foldl (fun t b => (tx_put blake3 b s t).2) t vs)) /\ ref_updates (foldl (fun t b => (tx_put blake3 b s t).2) t vs) = []).
  { induction vs as [|v vs IH]; intros t Hp Hu; cbn [foldl]; [auto|]. apply IH; unfold tx_put; cbn [snd]; destruct (objects s !! _); auto; destruct (existsb _ _); auto.
    cbn. apply Forall_app. split; [exact Hp|]. repeat constructor. apply digest_length. }
  assert (B : forall us t, puts (foldl (fun t u => set_ref u.1 u.2 t) t us) = puts t /\ ref_updates (foldl (fun t u => set_ref u.1 u.2 t) t us) = ref_updates t ++ us).
  { induction us as [|u us IH]; intros t; cbn [foldl]; [rewrite app_nil_r; auto|]. destruct (IH (set_ref u.1 u.2 t)) as [-> ->]. cbn.
    rewrite <- app_assoc. destruct u. auto. }
  destruct (A values begin_tx) as [A1 A2]; [constructor|reflexivity|]. destruct (B upds (foldl (fun t b => (tx_put blake3 b s t).2) begin_tx values)) as [-> ->].
  rewrite A2. auto.
Qed.

(** An operation appends some objects and then at most one ref move. *)
Definition op_shape (s s' : CairnStore) : Prop :=
  exists objs mv, grows s s' (objs ++ mv) /\ Forall is_object objs /\ (length mv <= 1)%nat.

Lemma move_shape io s s1 s' objs r ty name object pr rs now : clean io -> grows s s1 objs -> Forall is_object objs -> ty = TYPE_COMMIT \/ ty = TYPE_ROLLBACK ->
  valid_str name -> length object = 32%nat -> valid_str pr -> valid_str rs -> fits 128 now ->
  move_ref blake3 oc ty io name object pr rs now s1 = Ret (r, s') -> op_shape s s'.
Proof.
  intros Hio G O Hty Hn Ho Hp Hr Ht E. destruct (move_ref_grows _ _ _ _ _ _ _ _ _ _ Hio Hty Hn Ho Hp Hr Ht (gr_sound _ _ _ G) E) as (mv & G2 & Hl & _).
  exists objs, mv. split; [exact (grows_trans _ _ _ _ _ G G2)|]. auto.
Qed.

Lemma no_move s s' objs : grows s s' objs -> Forall is_object objs -> op_shape s s'.
Proof. intros G O. exists objs, []. rewrite app_nil_r. split; [exact G|]. split; [exact O|cbn; lia]. Qed.

Lemma exec_op_shape f o s s' : clean_fate f -> op_ok o -> sound s -> exec_op f o s = Ret s' -> op_shape s s'.
Proof.
  intros [Hfp Hfl] Ho Hs. destruct o as [bytes|values upds pr rs now|name target pr rs now]; cbn [exec_op op_ok] in *.
  - intros [= <-]. unfold put. destruct (put_object blake3 (f_last f) (object_id blake3 bytes) bytes s) as [[u|e] s1] eqn:E;
      destruct (put_object_grows _ _ _ _ _ _ Hfl (digest_length bytes) Hs E) as (new & G & O); exact (no_move _ _ _ G O).
  - destruct Ho as (Hu & Hp & Hr & Ht). destruct (built_puts values upds s) as [Hps Hrefs]. unfold tx_commit. rewrite Hrefs.
    destruct (drain blake3 (f_puts f) (puts (built_tx values upds s)) s) as [[u|e] s1] eqn:Ed;
      destruct (drain_grows _ _ Hfp _ _ _ Hps Hs Ed) as (objs & G & O); [|intros [= <-]; exact (no_move _ _ _ G O)].
    unfold commit_updates. destruct upds as [|[name id] [|? ?]]; [intros [= <-]; exact (no_move _ _ _ G O)| |intros [= <-]; exact (no_move _ _ _ G O)].
    apply Forall_cons in Hu as [[Hn Hid] _]. destruct (validate_metadata pr rs), (validate_ref_name name); try (intros [= <-]; exact (no_move _ _ _ G O)).
    destruct (objects s1 !! id); [|intros [= <-]; exact (no_move _ _ _ G O)].
    destruct (move_ref _ _ _ _ _ _ _ _ _ _) as [[r s2]| |] eqn:Em; cbn; try discriminate. intros [= <-].
    exact (move_shape _ _ _ _ _ _ _ _ _ _ _ _ Hfl G O (or_introl eq_refl) Hn Hid Hp Hr Ht Em).
  - destruct Ho as (Hn & Hp & Hr & Ht). pose proof (grows_refl s Hs) as G. assert (O : Forall is_object []) by constructor. unfold rollback.
    destruct (validate_ref_name name), (validate_metadata pr rs); try (intros [= <-]; exact (no_move _ _ _ G O)).
    destruct (commits s !! target) as [info|] eqn:Ec; [|intros [= <-]; exact (no_move _ _ _ G O)].
    destruct (bool_decide _); [|intros [= <-]; exact (no_move _ _ _ G O)]. cbn [negb].
    destruct (move_ref _ _ _ _ _ _ _ _ _ _) as [[r s2]| |] eqn:Em; cbn; try discriminate. intros [= <-].
    exact (move_shape _ _ _ _ _ _ _ _ _ _ _ _ Hfl G O (or_intror eq_refl) Hn (sd_commits _ Hs _ _ Ec) Hp Hr Ht Em).
Qed.

Lemma run_ops_grows os : forall s s', steps_ok os -> sound s -> run_ops os s = Ret s' -> exists new, grows s s' new.
Proof.
  induction os as [|[f o] os IH]; intros s s' Ho Hs; cbn [run_ops]; [intros [= <-]; exists []; apply grows_refl, Hs|].
  apply Forall_cons in Ho as [[Hf Ho] Hos]. destruct (exec_op f o s) as [s1| |] eqn:E1; cbn; try discriminate. intros E2.
  destruct (exec_op_shape _ _ _ _ Hf Ho Hs E1) as (objs & mv & G1 & _). destruct (IH s1 s' Hos (gr_sound _ _ _ G1) E2) as [new G2].
  exists ((objs ++ mv) ++ new). exact (grows_trans _ _ _ _ _ G1 G2).
Qed.

Lemma empty_sound file : sound (empty_store file 0).
Proof. constructor; cbn; [intros n o; rewrite lookup_empty; discriminate|intros id i; rewrite lookup_empty; discriminate|unfold fits; lia]. Qed.

(** A session from a new store: its log is the records it made. *)
Lemma session_log os s : steps_ok os -> run_ops os (empty_store [] 0) = Ret s -> exists rs, Forall (rec_ok oc) rs /\ log s = frames rs /\
  same_view (foldl see (empty_store [] 0) rs) s /\ sound s.
Proof. intros Ho E. destruct (run_ops_grows os _ _ Ho (empty_sound []) E) as [rs [L R V S]]. exists rs. auto. Qed.

Lemma see_objects r s : objects s ⊆ objects (see s r).
Proof.
  destruct r as [id bytes|i q|i q]; cbn [see with_objects apply_commit objects]; try reflexivity.
  destruct (objects s !! id) eqn:E; [reflexivity|]. apply insert_subseteq, E.
Qed.
Lemma sees_objects rs : forall s, objects s ⊆ objects (foldl see s rs).
Proof. induction rs as [|r rs IH]; intros s; [reflexivity|]. etransitivity; [apply (see_objects r)|apply IH]. Qed.
Lemma sees_objects_only rs : forall s, Forall is_object rs -> refs (foldl see s rs) = refs s /\ commits (foldl see s rs) = commits s /\ ref_history (foldl see s rs) = ref_history s.
Proof.
  induction rs as [|r rs IH]; intros s Ho; [auto|]. apply Forall_cons in Ho as [Hr Hrs]. cbn [foldl]. destruct (IH (see s r) Hrs) as (-> & -> & ->).
  destruct r; [auto|destruct Hr|destruct Hr].
Qed.

(** A prefix of a log is whole records and a part of the next. *)
Lemma take_frames rs : forall n, Forall (rec_ok oc) rs -> (n <= length (frames rs))%nat ->
  exists j tail, (j <= length rs)%nat /\ take n (frames rs) = frames (take j rs) ++ tail /\ replay_step blake3 tail = Ret None /\
    (n = length (frames rs) -> j = length rs) /\ forall m, (m <= length rs)%nat -> (length (frames (take m rs)) <= n)%nat -> (m <= j)%nat.
Proof.
  induction rs as [|r rs IH]; intros n Hr Hn.
  { exists 0%nat, []. cbn in *. split; [lia|]. split; [apply take_nil|]. split; [reflexivity|]. split; lia. }
  apply Forall_cons in Hr as [Hr Hrs]. rewrite frames_cons in *. rewrite length_app in Hn.
  destruct (decide (n < length (rec_frame r))%nat) as [Hc|Hc].
  - exists 0%nat, (take n (rec_frame r)). split; [lia|]. split; [rewrite take_app_le by lia; reflexivity|].
    split; [exact (replay_step_torn r n Hr Hc)|]. split; [rewrite length_app; lia|].
    intros [|m] Hm Hl; [lia|]. cbn [take] in Hl. rewrite frames_cons, length_app in Hl. lia.
  - destruct (IH (n - length (rec_frame r))%nat Hrs ltac:(lia)) as (j & tail & Hj & Et & Es & Hf & Hx). exists (S j), tail. split; [cbn; lia|].
    split; [|split; [exact Es|split]].
    + rewrite take_app_ge by lia. rewrite Et. cbn [take]. rewrite frames_cons, app_assoc. reflexivity.
    + rewrite length_app. intros E. rewrite Hf by lia. reflexivity.
    + intros [|m] Hm Hl; [lia|]. cbn [take] in Hl. rewrite frames_cons, length_app in Hl. cbn in Hm. specialize (Hx m ltac:(lia) ltac:(lia)). lia.
Qed.

(** However its appends end, an operation writes a part of what it would have
    written. *)
Lemma append_prefix io p s r s' : append_record blake3 io p s = (r, s') -> log s `prefix_of` log s' /\ log s' `prefix_of` log s ++ frame blake3 p.
Proof.
  destruct io as [k|]; cbn; intros [= _ <-]; cbn; (split; [by eexists|]); [|reflexivity].
  apply prefix_app. exists (drop k (frame blake3 p)). by rewrite take_drop.
Qed.

Lemma put_object_prefix io id bytes s : let s1 := (put_object blake3 io id bytes s).2 in let s2 := (put_object blake3 None id bytes s).2 in
  (put_object blake3 io id bytes s = put_object blake3 None id bytes s \/ exists e, (put_object blake3 io id bytes s).1 = Err e) /\
  log s1 `prefix_of` log s2 /\ log s `prefix_of` log s2.
Proof.
  cbv zeta. unfold put_object. destruct (objects s !! id); [auto|]. destruct (encode_object id bytes) as [p|e]; [|auto].
  destruct io as [k|]; cbn [append_record].
  - split; [right; by exists IoFailed|]. cbn. split; [|by eexists]. apply prefix_app. exists (drop k (frame blake3 p)). by rewrite take_drop.
  - cbn. split; [auto|]. split; [reflexivity|by eexists].
Qed.

Lemma drain_prefix ios ps : forall s, let s1 := (drain blake3 ios ps s).2 in let s2 := (drain blake3 (fun _ => None) ps s).2 in
  (drain blake3 ios ps s = drain blake3 (fun _ => None) ps s \/ exists e, (drain blake3 ios ps s).1 = Err e) /\
  log s1 `prefix_of` log s2 /\ log s `prefix_of` log s2.
Proof.
  induction ps as [|[id bytes] ps IH]; intros s; cbn [drain]; [auto|]. cbv zeta in *.
  destruct (put_object_prefix (ios (length ps)) id bytes s) as (Hc & H1 & H2).
  destruct (put_object blake3 None id bytes s) as [[u|e] t] eqn:E; cbn [snd] in *.
  - destruct (IH t) as (Hc' & H3 & H4). destruct Hc as [->|[e He]]; [split; [exact Hc'|]; split; [exact H3|]; by etransitivity|].
    destruct (put_object blake3 (ios (length ps)) id bytes s) as [[u'|e'] t']; [discriminate He|]. cbn [snd] in *.
    split; [right; by exists e'|]. split; by etransitivity.
  - destruct Hc as [->|[e' He]]; [auto|].
    destruct (put_object blake3 (ios (length ps)) id bytes s) as [[u'|e2] t']; [discriminate He|]. cbn [snd] in *. split; [right; by exists e2|]. auto.
Qed.

Lemma move_prefix io ty name object pr rs now s r1 s1 r2 s2 :
  move_ref blake3 oc ty io name object pr rs now s = Ret (r1, s1) -> move_ref blake3 oc ty None name object pr rs now s = Ret (r2, s2) ->
  log s1 `prefix_of` log s2 /\ log s `prefix_of` log s2.
Proof.
  unfold move_ref. destruct (take_sequence oc s) as [[q t]| |] eqn:Eq; cbn [mbind outcome_bind]; try discriminate. cbv zeta.
  assert (Lt : log t = log s).
  { unfold take_sequence, uadd in Eq. repeat case_match; try discriminate; cbn in Eq; injection Eq as _ <-; reflexivity. }
  destruct (encode_ref_move _ _ _ _ _ _ _) as [p|e]; [|intros [= _ <-] [= _ <-]; rewrite Lt; auto].
  destruct (append_record blake3 io p t) as [ra ta] eqn:Ea. apply append_prefix in Ea as [_ Hp]. cbn [append_record].
  intros E1 [= _ <-]. cbn. rewrite Lt. split; [|by eexists]. rewrite Lt in Hp. destruct ra; injection E1 as _ <-; exact Hp.
Qed.

Lemma exec_prefix f o s s1 s2 : exec_op f o s = Ret s1 -> exec_op completes o s = Ret s2 -> log s1 `prefix_of` log s2 /\ log s `prefix_of` log s2.
Proof.
  destruct o as [bytes|values upds pr rs now|name target pr rs now]; cbn [exec_op completes f_puts f_last].
  - unfold put. intros [= <-] [= <-]. destruct (put_object_prefix (f_last f) (object_id blake3 bytes) bytes s) as (_ & H1 & H2).
    destruct (put_object _ _ _ _ _) as [[?|?] ?], (put_object _ _ _ _ _) as [[?|?] ?]; auto.
  - unfold tx_commit. destruct (drain_prefix (f_puts f) (puts (built_tx values upds s)) s) as (Hc & H1 & H2).
    destruct (drain blake3 (fun _ => None) _ s) as [[u|e] t] eqn:E; cbn [snd] in *.
    + destruct Hc as [-> |[e He]].
      * unfold commit_updates. destruct (ref_updates _) as [|[name id] [|? ?]]; [intros [= <-] [= <-]; auto| |intros [= <-] [= <-]; auto].
        destruct (validate_metadata pr rs), (validate_ref_name name); try (intros [= <-] [= <-]; auto; fail).
        destruct (objects t !! id); [|intros [= <-] [= <-]; auto].
        destruct (move_ref _ _ _ (f_last f) _ _ _ _ _ _) as [[r1 t1]| |] eqn:E1; cbn; try discriminate.
        destruct (move_ref _ _ _ None _ _ _ _ _ _) as [[r2 t2]| |] eqn:E2; cbn; try discriminate. intros [= <-] [= <-].
        destruct (move_prefix _ _ _ _ _ _ _ _ _ _ _ _ E1 E2) as [H3 H4]. split; [exact H3|by etransitivity].
      * destruct (drain blake3 (f_puts f) _ s) as [[u'|e'] t'] eqn:E'; [discriminate He|]. cbn [snd] in *. intros [= <-] E2.
        assert (Ht : log t `prefix_of` log s2); [|split; by etransitivity]. revert E2.
        unfold commit_updates. destruct (ref_updates _) as [|[name id] [|? ?]]; [intros [= <-]; reflexivity| |intros [= <-]; reflexivity].
        destruct (validate_metadata pr rs), (validate_ref_name name); try (intros [= <-]; reflexivity).
        destruct (objects t !! id); [|intros [= <-]; reflexivity].
        destruct (move_ref _ _ _ None _ _ _ _ _ _) as [[r2 t2]| |] eqn:E2; cbn; try discriminate. intros [= <-].
        exact (proj2 (move_prefix _ _ _ _ _ _ _ _ _ _ _ _ E2 E2)).
    + intros E1 [= <-]. split; [|exact H2]. destruct Hc as [Hc|[e' He]]; [rewrite Hc in E1; injection E1 as <-; reflexivity|].
      destruct (drain blake3 (f_puts f) _ s) as [[u'|e2] t']; [discriminate He|]. injection E1 as <-. exact H1.
  - unfold rollback. destruct (validate_ref_name name), (validate_metadata pr rs); try (intros [= <-] [= <-]; auto; fail).
    destruct (commits s !! target) as [info|]; [|intros [= <-] [= <-]; auto]. destruct (bool_decide _); [|intros [= <-] [= <-]; auto]. cbn [negb].
    destruct (move_ref _ _ _ (f_last f) _ _ _ _ _ _) as [[r1 t1]| |] eqn:E1; cbn; try discriminate.
    destruct (move_ref _ _ _ None _ _ _ _ _ _) as [[r2 t2]| |] eqn:E2; cbn; try discriminate. intros [= <-] [= <-].
    exact (move_prefix _ _ _ _ _ _ _ _ _ _ _ _ E1 E2).
Qed.

(** C16: Take any session of puts, transactions and rollbacks on a new object store in which each append
    completed or failed before its first byte, then one more operation whose appends may fail after any
    number of bytes, and cut the log anywhere inside what that operation wrote. Opening it gives the
    refs, commits and histories of the store before the operation or those of the operation completed,
    with every object of the earlier store and none beyond the completed one; the whole log of a
    completed operation gives the completed store. *)
Theorem crash_leaves_a_whole_operation (os : list (Fate * Op)) (f : Fate) (o : Op) (s s' s1 : CairnStore) (n : nat) :
  steps_ok os -> op_ok o -> run_ops os (empty_store [] 0) = Ret s -> exec_op completes o s = Ret s' -> exec_op f o s = Ret s1 ->
  (length (log s) <= n <= length (log s1))%nat ->
  exists t, open blake3 oc (take n (log s1)) = Ret t /\ objects s ⊆ objects t /\ objects t ⊆ objects s' /\
    (same_view s' t \/ refs t = refs s /\ commits t = commits s /\ ref_history t = ref_history s) /\
    (n = length (log s') -> same_view s' t).
Proof.
  intros Hos Ho Es Eo Ef Hn. destruct (session_log os s Hos Es) as (rs & Hr & Hl & Hv & Hsd).
  assert (Et1 : take n (log s1) = take n (log s')).
  { destruct (exec_prefix _ _ _ _ _ Ef Eo) as [[x ->] _]. by rewrite take_app_le by lia. }
  assert (Hn2 : (length (log s) <= n <= length (log s'))%nat).
  { destruct (exec_prefix _ _ _ _ _ Ef Eo) as [[x ->] _]. rewrite length_app. lia. }
  rewrite Et1. clear Et1 Hn Ef s1. rename Hn2 into Hn.
  destruct (exec_op_shape completes o s s' (conj (fun _ => or_introl eq_refl) (or_introl eq_refl)) Ho Hsd Eo) as (objs & mv & [Gl Gr Gv _] & Hob & Hmv). set (new := objs ++ mv) in *.
  assert (L' : log s' = frames (rs ++ new)) by (rewrite Gl, Hl, frames_app; reflexivity). rewrite L' in *. rewrite Hl in Hn.
  destruct (take_frames (rs ++ new) n) as (j & tail & Hj & Et & Est & Hfull & Hmax); [apply Forall_app; auto|lia|].
  assert (Hj' : (length rs <= j)%nat) by (apply Hmax; [rewrite length_app; lia|rewrite take_app_length; lia]).
  assert (Tj : take j (rs ++ new) = rs ++ take (j - length rs) new) by (rewrite take_app_ge by lia; reflexivity).
  destruct (open_frames (take j (rs ++ new)) tail) as (t & Ot & _ & Vt & _); [apply Forall_take, Forall_app; auto|exact Est|].
  exists t. rewrite Et. split; [exact Ot|]. rewrite Tj, foldl_app in Vt.
  assert (Vt' : same_view (foldl see s (take (j - length rs) new)) t) by (etransitivity; [symmetry; apply sees_proper, Hv|exact Vt]). clear Vt.
  set (k := (j - length rs)%nat) in *. split; [rewrite (sv_objects _ _ Vt'); apply sees_objects|].
  split.
  { rewrite (sv_objects _ _ Vt'), (sv_objects _ _ Gv). rewrite <- (take_drop k new) at 2. rewrite foldl_app. apply sees_objects. }
  assert (W : k = length new -> same_view s' t).
  { intros E. rewrite E, firstn_all in Vt'. etransitivity; [symmetry; exact Gv|exact Vt']. }
  split.
  - destruct (decide (k = length new)) as [E|E]; [left; exact (W E)|right].
    assert (Hk : (k <= length objs)%nat) 
      by (rewrite length_app in Hj; assert (length new = length objs + length mv)%nat by apply length_app; unfold k in *; lia).
    assert (Tk : take k new = take k objs) by (unfold new; apply take_app_le; exact Hk). rewrite Tk in Vt'.
    destruct (sees_objects_only (take k objs) s (Forall_take _ _ _ Hob)) as (E1 & E2 & E3). destruct Vt' as [_ -> -> ->]. auto.
  - intros E. apply W. unfold k. rewrite (Hfull E), length_app. lia.
Qed.

(** A crash that left a few bytes of the next record's magic. *)
Lemma torn_magic_stops k new : (0 < k < 8)%nat -> Forall (rec_ok oc) new -> replay_step blake3 (take k MAGIC ++ frames new) = Ret None.
Proof.
  intros Hk Hn. unfold replay_step. destruct (length (take k MAGIC ++ frames new) <? 8)%nat eqn:E; [reflexivity|]. cbn [orb].
  assert (take 8 (take k MAGIC ++ frames new) <> MAGIC) as Hne; [|rewrite bool_decide_eq_false_2 by exact Hne; reflexivity].
  apply Nat.ltb_ge in E. rewrite length_app, length_take in E. change (length MAGIC) with 8%nat in E. destruct new as [|r new]; [cbn in E; lia|].
  apply Forall_cons in Hn as [[_ [p Hp]] _]. rewrite frames_cons. unfold rec_frame. rewrite Hp. unfold frame. rewrite <- !app_assoc.
  destruct k as [|[|[|[|[|[|[|[|k]]]]]]]]; try lia; discriminate.
Qed.

(** When a crash leaves one to seven bytes of a record's magic, the store opens as it was before the
    crash, but whatever is then committed, and acknowledged, is invisible to every later open: the tail
    is never cut off before the log is appended to. *)
Theorem torn_tail_hides_every_later_commit (os later : list (Fate * Op)) (s s1 s2 : CairnStore) (k : nat) :
  steps_ok os -> steps_ok later -> (0 < k < 8)%nat -> run_ops os (empty_store [] 0) = Ret s ->
  open blake3 oc (log s ++ take k MAGIC) = Ret s1 -> run_ops later s1 = Ret s2 ->
  same_view s s1 /\ exists t, open blake3 oc (log s2) = Ret t /\ same_view s t.
Proof.
  intros Hos Hla Hk Es E1 E2. destruct (session_log os s Hos Es) as (rs & Hr & Hl & Hv & Hsd). rewrite Hl in E1.
  destruct (open_frames rs (take k MAGIC)) as (t1 & O1 & L1 & V1 & F1); [exact Hr| |].
  { pose proof (torn_magic_stops k [] Hk (Forall_nil_2 _)) as H. cbn [frames fmap list_fmap concat] in H. rewrite app_nil_r in H. exact H. }
  rewrite O1 in E1. injection E1 as <-.
  assert (V : same_view s t1) by (etransitivity; [symmetry; exact Hv|exact V1]). split; [exact V|].
  assert (S1 : sound t1) by (destruct V as [_ Vr Vc _]; constructor; [rewrite Vr; apply Hsd|rewrite Vc; apply Hsd|exact F1]).
  destruct (run_ops_grows later t1 s2 Hla S1 E2) as [new [Gl Gr _ _]].
  destruct (open_frames rs (take k MAGIC ++ frames new) Hr (torn_magic_stops k new Hk Gr)) as (t & Ot & _ & Vt & _).
  exists t. rewrite Gl, L1, <- app_assoc. split; [exact Ot|]. etransitivity; [symmetry; exact Hv|exact Vt].
Qed.
End Replay.

(** ** A store with a toy digest *)

Definition toy_digest (b : list Z) : list Z := take 32 (b ++ replicate 32 0).
Lemma toy_digest_length b : length (toy_digest b) = 32%nat.
Proof. unfold toy_digest. rewrite length_take, length_app, length_replicate. lia. Qed.

Definition save (value : string) (now : Z) : Op :=
  OTx [lit value] [(lit "doc", toy_digest (lit value))] (lit "human:ali") (lit "save") now.
Definition store_of (o : outcome CairnError CairnStore) : CairnStore := match o with Ret s => s | _ => empty_store [] 0 end.
Definition saves (value : string) (now : Z) : Fate * Op := (completes, save value now).
Definition first_saved : CairnStore := store_of (run_ops toy_digest true [saves "v1" 1] (empty_store [] 0)).
Definition second_saved : CairnStore := store_of (exec_op toy_digest true completes (save "v2" 2) first_saved).
(** The append of the commit fails after 20 bytes. *)
Definition fails_late : Fate := mkFate (fun _ => None) (Some 20%nat).
Definition second_failed : CairnStore := store_of (exec_op toy_digest true fails_late (save "v2" 2) first_saved).

Lemma save_keeps_log value now : valid_str (lit value) -> fits 128 now -> op_ok (save value now).
Proof.
  intros Hv Ht. split; [|split; [|split; [|exact Ht]]]; repeat constructor. apply toy_digest_length.
Qed.

Lemma saves_ok value now : valid_str (lit value) -> fits 128 now -> steps_ok [saves value now].
Proof. intros Hv Ht. constructor; [|constructor]. split; [split; [intros ?|]; by left|by apply save_keeps_log]. Qed.

Lemma crash_leaves_a_whole_operation_witness : exists t,
  open toy_digest true (take (length (log first_saved) + 60) (log second_failed)) = Ret t /\
  objects first_saved ⊆ objects t /\ (same_view second_saved t \/ refs t = refs first_saved).
Proof.
  destruct (crash_leaves_a_whole_operation toy_digest true toy_digest_length [saves "v1" 1] fails_late (save "v2" 2) first_saved second_saved second_failed
    (length (log first_saved) + 60)) as (t & Ot & O1 & _ & Hv & _).
  - apply saves_ok; [repeat constructor|split; done].
  - apply save_keeps_log; [repeat constructor|split; done].
  - vm_compute. reflexivity.
  - vm_compute. reflexivity.
  - vm_compute. reflexivity.
  - vm_compute. lia.
  - exists t. split; [exact Ot|]. split; [exact O1|]. destruct Hv as [Hv|(Hr & _)]; auto.
Defined.

Definition torn_reopened : CairnStore := store_of (open toy_digest true (log first_saved ++ take 3 MAGIC)).
Definition saved_after : CairnStore := store_of (run_ops toy_digest true [saves "v2" 2] torn_reopened).

Lemma torn_tail_hides_every_later_commit_witness :
  get_ref (lit "doc") saved_after = Some (toy_digest (lit "v2")) /\
  exists t, open toy_digest true (log saved_after) = Ret t /\ get_ref (lit "doc") t = Some (toy_digest (lit "v1")).
Proof.
  split; [vm_compute; reflexivity|].
  destruct (torn_tail_hides_every_later_commit toy_digest true toy_digest_length [saves "v1" 1] [saves "v2" 2] first_saved torn_reopened saved_after 3)
    as (_ & t & Ot & [_ Hr _ _]).
  - apply saves_ok; [repeat constructor|split; done].
  - apply saves_ok; [repeat constructor|split; done].
  - lia.
  - vm_compute. reflexivity.
  - vm_compute. reflexivity.
  - vm_compute. reflexivity.
  - exists t. split; [exact Ot|]. unfold get_ref. rewrite Hr. vm_compute. reflexivity.
Defined.
