(* ===== verification/Frames.v ===== *)
(** * Physical memory and its frame allocator ([src/dezh-boot/src/mm/frames.rs],
    [src/dezh-boot/src/mm/bump.rs])

    Memory is a function from physical addresses to bytes; a [u64] is read and
    written little-endian, as the RISC-V target does.  The free frames form a
    list threaded through their own first words, so the invariant [pool] speaks
    of that list: [frame_alloc] takes its head and zeroes it, [frame_free] puts a
    frame back.  The kernel heap is the bump allocator, one compare-exchange per
    attempt. *)

From Stdlib Require Import ZArith Lia.
From stdpp Require Import base option numbers list.
From S2P Require Import Prelude.

(** ** Bytes and words of physical memory *)

Definition mem := Z -> Z.

Definition ld64 (m : mem) (a : Z) : Z := le_val ((fun k => m (a + k)) <$> [0; 1; 2; 3; 4; 5; 6; 7]).
Definition st8 (m : mem) (a v : Z) : mem := fun x => if x =? a then v else m x.
Definition st64 (m : mem) (a v : Z) : mem := fun x =>
  if (a <=? x) && (x <? a + 8) then nth (Z.to_nat (x - a)) (le_bytes 8 v) 0 else m x.
Definition fill (m : mem) (a n v : Z) : mem := fun x => if (a <=? x) && (x <? a + n) then v else m x.

(** ** The allocator *)

Definition FRAME_SIZE : Z := 4096.
Definition FRAME_POOL_BASE : Z := 0x81000000.
Definition FRAME_POOL_END : Z := 0x88000000.

(** Memory with [FRAME_FREE_HEAD], [FRAME_TOTAL] and [FRAME_FREE]. *)
Record Pool := mkPool { p_mem : mem; p_head : Z; p_total : Z; p_free : Z }.

Definition with_mem (f : mem -> mem) (p : Pool) : Pool := mkPool (f (p_mem p)) (p_head p) (p_total p) (p_free p).

(** One turn of the loop of [frames_init]. *)
Definition link_frame (p : Pool) (a : Z) : Pool :=
  mkPool (st64 (p_mem p) a (p_head p)) a (p_total p + 1) (p_free p + 1).

(** The values [a] takes: the frames that fit between [base] and [limit]. *)
Definition frames_between (base limit : Z) : list Z :=
  (fun k => base + FRAME_SIZE * k) <$> seqZ 0 ((limit - base) / FRAME_SIZE).

Definition frames_init (p : Pool) : Pool :=
  foldl link_frame (mkPool (p_mem p) 0 0 0) (frames_between FRAME_POOL_BASE FRAME_POOL_END).

Definition frame_alloc (p : Pool) : Z * Pool :=
  let f := p_head p in
  if f =? 0 then (0, p)
  else (f, mkPool (fill (p_mem p) f FRAME_SIZE 0) (ld64 (p_mem p) f) (p_total p) (wrap 64 (p_free p - 1))).

Definition frame_free (f : Z) (p : Pool) : Pool :=
  mkPool (st64 (p_mem p) f (p_head p)) f (p_total p) (wrap 64 (p_free p + 1)).

(** ** The kernel heap *)

Definition HEAP_SIZE : Z := 2 ^ 20.

(** One attempt of [BumpHeap::alloc]: [cur] is the value loaded, [now] the value
    the compare-exchange finds. *)
Definition bump_attempt (base size align cur now : Z) : option (option Z) * Z :=
  let aligned := (base + cur + align - 1) & unot 64 (align - 1) in
  let new_next := aligned - base + size in
  if HEAP_SIZE <? new_next then (Some None, now)
  else if now =? cur then (Some (Some aligned), new_next) else (None, now).

(** ** Lemmas on memory *)

Lemma ld64_ext m m' a : (forall x, a <= x < a + 8 -> m' x = m x) -> ld64 m' a = ld64 m a.
Proof. intros H. unfold ld64. cbn [fmap list_fmap]. rewrite !H by lia. done. Qed.

Lemma ld64_st64 m a v : fits 64 v -> ld64 (st64 m a v) a = v.
Proof.
  intros Hv. rewrite <- (le_val_le_bytes 8 v) at 2 by exact Hv. unfold ld64. f_equal.
  unfold st64. cbn [fmap list_fmap].
  assert (E : forall k, 0 <= k < 8 ->
    (if (a <=? a + k) && (a + k <? a + 8) then nth (Z.to_nat (a + k - a)) (le_bytes 8 v) 0 else m (a + k))
    = nth (Z.to_nat k) (le_bytes 8 v) 0).
  { intros k Hk. rewrite (proj2 (Z.leb_le _ _)), (proj2 (Z.ltb_lt _ _)) by lia. cbn [andb].
    by replace (a + k - a) with k by lia. }
  rewrite !E by lia. reflexivity.
Qed.

Lemma st64_other m a v x : ~ (a <= x < a + 8) -> st64 m a v x = m x.
Proof.
  intros H. unfold st64. destruct ((a <=? x) && (x <? a + 8)) eqn:E; [|done]. bool_to_prop. lia.
Qed.

Lemma ld64_st64_other m a v b : b + 8 <= a \/ a + 8 <= b -> ld64 (st64 m a v) b = ld64 m b.
Proof. intros H. apply ld64_ext. intros x Hx. apply st64_other. lia. Qed.

Lemma fill_in m a n v x : a <= x < a + n -> fill m a n v x = v.
Proof. intros H. unfold fill. rewrite (proj2 (Z.leb_le _ _)), (proj2 (Z.ltb_lt _ _)) by lia. done. Qed.
Lemma fill_out m a n v x : ~ (a <= x < a + n) -> fill m a n v x = m x.
Proof. intros H. unfold fill. destruct ((a <=? x) && (x <? a + n)) eqn:E; [|done]. bool_to_prop. lia. Qed.

Lemma ld64_zero m a : (forall x, a <= x < a + 8 -> m x = 0) -> ld64 m a = 0.
Proof. intros H. unfold ld64. cbn [fmap list_fmap]. rewrite !H by lia. reflexivity. Qed.

(** ** Frames *)

Definition frame_ok (f : Z) : Prop := FRAME_POOL_BASE <= f /\ f + FRAME_SIZE <= FRAME_POOL_END /\ f mod FRAME_SIZE = 0.
Definition in_frame (f a : Z) : Prop := f <= a < f + FRAME_SIZE.
Definition in_frames (fs : list Z) (a : Z) : Prop := exists f, f ∈ fs /\ in_frame f a.

(** [m'] differs from [m] at most inside the frames [fs]. *)
Definition only_in (fs : list Z) (m m' : mem) : Prop := forall a, ~ in_frames fs a -> m' a = m a.

#[export] Instance frame_ok_dec f : Decision (frame_ok f).
Proof. unfold frame_ok. apply _. Defined.

Lemma frame_ok_nonzero f : frame_ok f -> f <> 0.
Proof. unfold frame_ok, FRAME_POOL_BASE. lia. Qed.
Lemma frame_ok_fits f : frame_ok f -> fits 64 f.
Proof. unfold frame_ok, FRAME_POOL_BASE, FRAME_POOL_END, FRAME_SIZE, fits. lia. Qed.

Lemma same_frame f g a : frame_ok f -> frame_ok g -> in_frame f a -> in_frame g a -> f = g.
Proof. unfold frame_ok, in_frame, FRAME_SIZE. intros (_ & _ & Hf) (_ & _ & Hg) ? ?. Z.to_euclidean_division_equations. lia. Qed.

Lemma in_frames_elem fs f a : Forall frame_ok fs -> frame_ok f -> in_frame f a -> in_frames fs a -> f ∈ fs.
Proof.
  intros Hfs Hf Ha (g & Hg & Hga). rewrite Forall_forall in Hfs.
  assert (f = g) as -> by (apply (same_frame f g a); auto). done.
Qed.

Lemma in_frames_mono fs gs a : fs ⊆ gs -> in_frames fs a -> in_frames gs a.
Proof. intros H (f & Hf & Ha). exists f. auto. Qed.

Lemma only_in_refl fs m : only_in fs m m.
Proof. by intros a _. Qed.
Lemma only_in_trans fs m1 m2 m3 : only_in fs m1 m2 -> only_in fs m2 m3 -> only_in fs m1 m3.
Proof. intros H1 H2 a Ha. rewrite H2, H1; done. Qed.
Lemma only_in_mono fs gs m m' : fs ⊆ gs -> only_in fs m m' -> only_in gs m m'.
Proof. intros Hs H a Ha. apply H. intros Hin. apply Ha. by eapply in_frames_mono. Qed.

Lemma only_in_st64 f m a v : f <= a -> a + 8 <= f + FRAME_SIZE -> only_in [f] m (st64 m a v).
Proof.
  intros H1 H2 x Hx. apply st64_other. intros Hc. apply Hx. exists f. split; [by left|]. unfold in_frame. lia.
Qed.
Lemma only_in_st8 f m a v : in_frame f a -> only_in [f] m (st8 m a v).
Proof.
  intros H1 x Hx. unfold st8. destruct (x =? a) eqn:E; [|done]. apply Z.eqb_eq in E. subst x.
  destruct Hx. exists f. split; [by left|done].
Qed.
Lemma only_in_fill f m v : only_in [f] m (fill m f FRAME_SIZE v).
Proof.
  intros x Hx. apply fill_out. intros Hc. apply Hx. exists f. split; [by left|]. done.
Qed.

(** A word of a frame outside [fs] is what it was. *)
Lemma only_in_ld64 fs m m' f a :
  only_in fs m m' -> Forall frame_ok fs -> frame_ok f -> (f ∉ fs) -> f <= a -> a + 8 <= f + FRAME_SIZE ->
  ld64 m' a = ld64 m a.
Proof.
  intros H Hfs Hf Hn H1 H2. apply ld64_ext. intros x Hx. apply H. intros Hin. apply Hn.
  eapply in_frames_elem; eauto. unfold in_frame. lia.
Qed.

Lemma only_in_byte fs m m' f a :
  only_in fs m m' -> Forall frame_ok fs -> frame_ok f -> (f ∉ fs) -> in_frame f a -> m' a = m a.
Proof. intros H Hfs Hf Hn Ha. apply H. intros Hin. apply Hn. eapply in_frames_elem; eauto. Qed.

(** ** The free list *)

Fixpoint chain (m : mem) (h : Z) (fl : list Z) : Prop :=
  match fl with
  | [] => h = 0
  | f :: fl => h = f /\ chain m (ld64 m f) fl
  end.

Record pool (p : Pool) (fl : list Z) : Prop := {
  pool_chain : chain (p_mem p) (p_head p) fl;
  pool_nodup : NoDup fl;
  pool_frames : Forall frame_ok fl;
  pool_count : p_free p = zlen fl }.

Lemma free_chain_ext m m' h fl :
  (forall f, f ∈ fl -> ld64 m' f = ld64 m f) -> chain m h fl -> chain m' h fl.
Proof.
  revert h. induction fl as [|f fl IH]; cbn; [done|]. intros h H [-> Hc]. split; [done|].
  rewrite (H f) by (by left). apply IH; [|done]. intros g Hg. apply H. by right.
Qed.

Lemma free_chain_only_in fs m m' h fl :
  only_in fs m m' -> Forall frame_ok fs -> Forall frame_ok fl -> (forall f, f ∈ fs -> f ∉ fl) ->
  chain m h fl -> chain m' h fl.
Proof.
  intros H Hfs Hfl Hd. apply free_chain_ext. intros f Hf. rewrite Forall_forall in Hfl.
  eapply only_in_ld64; eauto; try (unfold FRAME_SIZE; lia).
  intros Hc. by apply (Hd f).
Qed.

Lemma pool_length fl : NoDup fl -> Forall frame_ok fl -> zlen fl <= 28672.
Proof.
  intros Hn Hf. assert (H : length fl = length ((fun f => Z.to_nat ((f - FRAME_POOL_BASE) / FRAME_SIZE)) <$> fl))
    by by rewrite length_fmap.
  unfold zlen. rewrite H. assert (Hs : (fun f => Z.to_nat ((f - FRAME_POOL_BASE) / FRAME_SIZE)) <$> fl ⊆ seq 0 (Z.to_nat 28672)).
  { intros k Hk. apply list_elem_of_fmap in Hk as (f & -> & Hin). rewrite Forall_forall in Hf.
    destruct (Hf f Hin) as (H1 & H2 & H3). apply elem_of_seq. unfold FRAME_POOL_BASE, FRAME_POOL_END, FRAME_SIZE in *.
    Z.to_euclidean_division_equations. lia. }
  assert (Hd : NoDup ((fun f => Z.to_nat ((f - FRAME_POOL_BASE) / FRAME_SIZE)) <$> fl)).
  { apply NoDup_fmap_2_strong; [|done]. intros f g Hin Hig E. rewrite Forall_forall in Hf.
    destruct (Hf f Hin) as (H1 & H2 & H3), (Hf g Hig) as (H4 & H5 & H6).
    unfold FRAME_POOL_BASE, FRAME_POOL_END, FRAME_SIZE in *. Z.to_euclidean_division_equations. lia. }
  pose proof (submseteq_length _ _ (NoDup_submseteq _ _ Hd Hs)) as L. rewrite length_seq in L. lia.
Qed.

(** The counters fit: the pool has 28 672 frames. *)
Lemma pool_small p fl : pool p fl -> 0 <= p_free p <= 28672.
Proof. intros [_ Hn Hf ->]. split; [apply zlen_nonneg|by apply pool_length]. Qed.

Lemma pool_alloc p f fl :
  pool p (f :: fl) ->
  exists p', frame_alloc p = (f, p') /\ pool p' fl /\ only_in [f] (p_mem p) (p_mem p')
    /\ (forall a, in_frame f a -> p_mem p' a = 0).
Proof.
  intros Hp. pose proof (pool_small _ _ Hp) as Hs. destruct Hp as [[Hh Hc] Hn Hf Hcnt].
  apply NoDup_cons in Hn as [Hin Hn]. apply Forall_cons in Hf as [Hok Hf].
  unfold frame_alloc. rewrite Hh, (proj2 (Z.eqb_neq _ _)) by by apply frame_ok_nonzero.
  eexists. split; [done|]. cbn [p_mem]. split; [|split; [apply only_in_fill|intros a Ha; by apply fill_in]].
  split; cbn; [|done|done|].
  - eapply free_chain_only_in; [apply (only_in_fill f)|by apply Forall_singleton|done| |exact Hc].
    intros g Hg. apply list_elem_of_singleton in Hg. by subst g.
  - rewrite Hcnt in *. unfold zlen in *. cbn [length] in *. rewrite wrap_small; unfold fits; lia.
Qed.

Lemma pool_alloc_nil p : pool p [] -> frame_alloc p = (0, p).
Proof. intros [Hc _ _ _]. cbn in Hc. unfold frame_alloc. by rewrite Hc. Qed.

Lemma pool_free p f fl :
  pool p fl -> frame_ok f -> (f ∉ fl) -> pool (frame_free f p) (f :: fl) /\ only_in [f] (p_mem p) (p_mem (frame_free f p)).
Proof.
  intros Hp Hok Hin. pose proof Hp as [Hc Hn Hf Hcnt].
  assert (H0 : only_in [f] (p_mem p) (st64 (p_mem p) f (p_head p))) by (apply only_in_st64; unfold FRAME_SIZE; lia).
  split; [|exact H0].
  assert (Hd : NoDup (f :: fl)) by by constructor. assert (Hfs : Forall frame_ok (f :: fl)) by by constructor.
  split; cbn [frame_free p_mem p_head p_free p_total chain]; [split; [done|]|done|done|].
  - rewrite ld64_st64.
    + eapply free_chain_only_in; [exact H0|by apply Forall_singleton|done| |exact Hc].
      intros g Hg. apply list_elem_of_singleton in Hg. by subst g.
    + destruct fl as [|g fl]; cbn in Hc; [rewrite Hc; done|]. destruct Hc as [-> _].
      apply frame_ok_fits. by apply Forall_cons in Hf as [? _].
  - pose proof (pool_length _ Hd Hfs). pose proof (zlen_nonneg fl). unfold zlen in *. cbn [length] in *.
    rewrite Hcnt, wrap_small; [lia|]. unfold fits. lia.
Qed.

(** Writes outside the free frames leave the free list alone. *)
Lemma pool_write p fl fs g :
  pool p fl -> only_in fs (p_mem p) (g (p_mem p)) -> Forall frame_ok fs -> (forall f, f ∈ fs -> f ∉ fl) ->
  pool (with_mem g p) fl.
Proof.
  intros [Hc Hn Hf Hcnt] Ho Hfs Hd. split; cbn; [|done|done|done].
  eapply free_chain_only_in; eauto.
Qed.

(** ** What boot leaves behind *)

Lemma frames_between_ok base limit f :
  base mod FRAME_SIZE = 0 -> f ∈ frames_between base limit <-> (base <= f /\ f + FRAME_SIZE <= limit /\ f mod FRAME_SIZE = 0).
Proof.
  intros Hb. unfold frames_between. rewrite list_elem_of_fmap. unfold FRAME_SIZE in *. split.
  - intros (k & -> & Hk). apply elem_of_seqZ in Hk. Z.to_euclidean_division_equations. lia.
  - intros H. exists ((f - base) / 4096). rewrite elem_of_seqZ. Z.to_euclidean_division_equations. lia.
Qed.

Lemma frames_between_nodup base limit : NoDup (frames_between base limit).
Proof. apply NoDup_fmap_2_strong; [|apply NoDup_seqZ]. unfold FRAME_SIZE. intros; lia. Qed.

Lemma link_frames l p fl :
  pool p fl -> NoDup (l ++ fl) -> Forall frame_ok l -> pool (foldl link_frame p l) (reverse l ++ fl).
Proof.
  revert p fl. induction l as [|a l IH]; intros p fl Hp Hn Hl; [by rewrite reverse_nil|].
  cbn [foldl]. rewrite reverse_cons, <- app_assoc. cbn [app]. apply Forall_cons in Hl as [Ha Hl].
  rewrite <- app_comm_cons, NoDup_cons, elem_of_app in Hn. destruct Hn as [Ha' Hn].
  destruct (pool_free p a fl Hp Ha) as [[Hc Hn' Hf Hcnt] _]; [tauto|].
  apply IH; [|by rewrite <- Permutation_middle, NoDup_cons, elem_of_app|done].
  split; [exact Hc|exact Hn'|exact Hf|]. cbn. rewrite (pool_count p fl Hp). unfold zlen. cbn [length]. lia.
Qed.

Lemma link_frames_only l p : only_in l (p_mem p) (p_mem (foldl link_frame p l)).
Proof.
  revert p. induction l as [|a l IH]; intros p; [apply only_in_refl|]. cbn [foldl].
  eapply only_in_trans; eapply only_in_mono; [|apply (only_in_st64 a _ a (p_head p)); unfold FRAME_SIZE; lia| |apply IH]; intros x Hx.
  - apply list_elem_of_singleton in Hx as ->. by left.
  - by right.
Qed.

(** After [frames_init] every frame of the pool is free, once. *)
Lemma frames_init_pool p :
  pool (frames_init p) (reverse (frames_between FRAME_POOL_BASE FRAME_POOL_END)).
Proof.
  unfold frames_init. rewrite <- (app_nil_r (reverse _)). apply link_frames.
  - split; cbn; [done|constructor|constructor|done].
  - rewrite app_nil_r. apply frames_between_nodup.
  - apply Forall_forall. intros f Hf. by apply frames_between_ok in Hf.
Qed.

Lemma frames_init_only p : only_in (frames_between FRAME_POOL_BASE FRAME_POOL_END) (p_mem p) (p_mem (frames_init p)).
Proof. unfold frames_init. apply (link_frames_only _ (mkPool (p_mem p) 0 0 0)). Qed.

(** ** The kernel heap under concurrent allocation

    Harts race on [next]; each attempt uses a value it loaded at some earlier
    time.  [h_next] is the cell, [h_blocks] what was handed out. *)

Record Heap := mkHeap { h_next : Z; h_blocks : list (Z * Z) }.

Inductive heap_step (base : Z) : Heap -> Heap -> Prop :=
| heap_attempt h size k cur r next' :
    0 <= size -> 0 <= k < 64 -> 0 <= cur -> base + cur + 2 ^ k < 2 ^ 64 ->
    bump_attempt base size (2 ^ k) cur (h_next h) = (r, next') ->
    heap_step base h (mkHeap next' (match r with Some (Some a) => (a, size) :: h_blocks h | _ => h_blocks h end)).

Lemma round_up_spec x k : 0 <= k < 64 -> 0 <= x -> x + 2 ^ k < 2 ^ 64 ->
  let a := (x + 2 ^ k - 1) & unot 64 (2 ^ k - 1) in x <= a /\ a mod 2 ^ k = 0.
Proof.
  intros Hk Hx Hb. cbn zeta. assert (0 < 2 ^ k) by (apply Z.pow_pos_nonneg; lia).
  rewrite land_unot by (unfold fits; lia). assert (E : 2 ^ k - 1 = Z.ones k) by (rewrite Z.ones_equiv; lia).
  rewrite E, Z.ldiff_ones_r, Z.shiftl_mul_pow2, Z.shiftr_div_pow2 by lia. split; [|apply Z.mod_mul; lia].
  pose proof (Z.div_mod (x + 2 ^ k - 1) (2 ^ k)). pose proof (Z.mod_pos_bound (x + 2 ^ k - 1) (2 ^ k)). lia.
Qed.

Definition heap_ok (base : Z) (h : Heap) : Prop :=
  0 <= h_next h <= HEAP_SIZE
  /\ Forall (fun '(a, n) => base <= a /\ 0 <= n /\ a + n <= base + h_next h) (h_blocks h)
  /\ ForallOrdPairs (fun '(a, n) '(b, k) => b + k <= a) (h_blocks h).

(** Whatever the races, the blocks handed out lie in the arena and none
    overlaps another. *)
Theorem heap_blocks_never_overlap base h : 0 <= base -> reach (heap_step base) (mkHeap 0 []) h -> heap_ok base h.
Proof.
  intros Hbase. apply (reach_inv (heap_step base) (heap_ok base)).
  { unfold heap_ok, HEAP_SIZE. cbn. split; [lia|]. split; constructor. }
  intros h1 h2 (Hn & Hb & Ho) Hs. destruct Hs as [h0 size k cur r next' Hsz Hk Hcur Hfit E]. unfold bump_attempt in E.
  destruct (round_up_spec (base + cur) k) as [Hup _]; [lia|lia|lia|]. cbn zeta in Hup.
  set (a := (base + cur + 2 ^ k - 1) & unot 64 (2 ^ k - 1)) in *.
  destruct (HEAP_SIZE <? a - base + size) eqn:E1; [injection E as <- <-; by split|].
  destruct (h_next h0 =? cur) eqn:E2; injection E as <- <-; [|by split]. bool_to_prop.
  unfold heap_ok. cbn [h_next h_blocks]. split; [lia|]. split.
  - constructor; [lia|]. eapply Forall_impl; [exact Hb|]. intros [b n]. lia.
  - constructor; [|done]. eapply Forall_impl; [exact Hb|]. intros [b n]. lia.
Qed.
