(* ===== verification/Paging.v ===== *)
(** * Sv39 paging ([src/dezh-boot/src/mm/paging.rs])

    The page-table entries the kernel writes, the kernel's own root and level-1
    table, and the one switch made while tasks run: which task's stack megapage
    carries the user bit.  [user_access] is the hardware side, the Sv39 walk of
    the RISC-V privileged architecture for an access made in user mode; the
    theorems say what such an access can reach. *)

From Stdlib Require Import ZArith Lia.
From stdpp Require Import base option numbers list.
From S2P Require Import Prelude Frames Sched.

(** ** Entries *)

Definition PTE_V : Z := 1.
Definition PTE_R : Z := 2.
Definition PTE_W : Z := 4.
Definition PTE_X : Z := 8.
Definition PTE_U : Z := 16.
Definition PTE_A : Z := 64.
Definition PTE_D : Z := 128.

Definition RAM_BASE : Z := 0x80000000.
Definition MEGA : Z := 0x200000.

Definition pte (pa flags : Z) : Z := Z.shiftl (Z.shiftr pa 12) 10 .| PTE_V .| PTE_A .| PTE_D .| flags.

(** A pointer to a next-level table, as [build_page_tables], [walk_alloc] and
    [build_address_space] write it. *)
Definition table_entry (pa : Z) : Z := Z.shiftl (Z.shiftr pa 12) 10 .| PTE_V.

(** ** The hardware: Sv39 translation of a user-mode access *)

Inductive access := Load | Store | Fetch.
#[export] Instance access_eq : EqDecision access.
Proof. solve_decision. Defined.

Definition vpn (level va : Z) : Z := Z.shiftr va (12 + 9 * level) & 0x1ff.
Definition ppn (e : Z) : Z := Z.shiftr e 10 mod 2 ^ 44.

Fixpoint sv39_walk (level : nat) (m : mem) (table va : Z) : option (Z * Z) :=
  let e := ld64 m (table + 8 * vpn (Z.of_nat level) va) in
  let span := 2 ^ (12 + 9 * Z.of_nat level) in
  if negb (Z.testbit e 0) || (negb (Z.testbit e 1) && Z.testbit e 2) then None
  else if Z.testbit e 1 || Z.testbit e 3 then
    (if (ppn e * 4096) mod span =? 0 then Some (e, ppn e * 4096 + va mod span) else None)
  else match level with O => None | S l => sv39_walk l m (ppn e * 4096) va end.

Definition permits (e : Z) (acc : access) : bool :=
  Z.testbit e 4 && Z.testbit e 6
  && match acc with Load => Z.testbit e 1 | Store => Z.testbit e 2 && Z.testbit e 7 | Fetch => Z.testbit e 3 end.

Definition canonical (va : Z) : bool := (0 <=? va) && ((va <? 2 ^ 38) || ((2 ^ 64 - 2 ^ 38 <=? va) && (va <? 2 ^ 64))).

(** The physical address a user-mode access reaches, or [None]: a page fault. *)
Definition user_access (m : mem) (satp va : Z) (acc : access) : option Z :=
  if canonical va then
    match sv39_walk 2 m ((satp mod 2 ^ 44) * 4096) va with
    | Some (e, pa) => if permits e acc then Some pa else None
    | None => None
    end
  else None.

(** ** The kernel's tables

    [us] and [ue] are the linker's [__user_start] and [__user_end], [ROOT] and
    [L1] the addresses of the two static tables. *)

Section Kernel.
Context (us ue ROOT L1 : Z).

Definition stack_base : Z := ue.
Definition task_stack_top (i : Z) : Z := stack_base + (i + 1) * MEGA.
Definition stack_region_l1_index (i : Z) : Z := (stack_base - RAM_BASE) / MEGA + i.

Definition l1_flags (i : Z) : Z :=
  let pa := RAM_BASE + i * MEGA in
  let stacks_hi := stack_base + Z.of_nat MAX_TASKS * MEGA in
  if (us <=? pa) && (pa <? ue) then PTE_R .| PTE_X .| PTE_U
  else if (stack_base <=? pa) && (pa <? stacks_hi) then PTE_R .| PTE_W
  else PTE_R .| PTE_W .| PTE_X.

Definition l1_entry (m : mem) (i : Z) : mem := st64 m (L1 + 8 * i) (pte (RAM_BASE + i * MEGA) (l1_flags i)).

Definition build_page_tables (m : mem) : mem :=
  let m := st64 m ROOT (pte 0 (PTE_R .| PTE_W .| PTE_X)) in
  let m := st64 m (ROOT + 8 * 2) (table_entry L1) in
  foldl l1_entry m (seqZ 0 512).

(** One turn of [set_active_task_mem]; an index past the table panics. *)
Definition toggle_stack (active : Z) (m : mem) (i : Z) : outcome Empty_set mem :=
  let idx := stack_region_l1_index i in
  if (0 <=? idx) && (idx <? 512) then
    let e := ld64 m (L1 + 8 * idx) in
    Ret (st64 m (L1 + 8 * idx) (if i =? active then e .| PTE_U else e & unot 64 PTE_U))
  else Panic.

Definition set_active_task_mem (active : Z) (m : mem) : outcome Empty_set mem :=
  foldl (fun r i => m ← r; toggle_stack active m i) (Ret m) (seqZ 0 (Z.of_nat MAX_TASKS)).

(** What [enable_paging] writes to [satp]. *)
Definition enable_paging : Z := Z.shiftl 8 60 .| Z.shiftr ROOT 12.
Definition kernel_satp : Z := Z.shiftl 8 60 .| Z.shiftr ROOT 12.
Definition proc_satp (root : Z) : Z := Z.shiftl 8 60 .| Z.shiftr root 12.

End Kernel.

(** ** Entries read back *)

Lemma lor_low n c k : 0 <= k -> 0 <= c < 2 ^ k -> Z.shiftl n k .| c = n * 2 ^ k + c.
Proof.
  intros Hk Hc.
  assert (E : Z.shiftl n k & c = 0).
  { apply Z.bits_inj'. intros i Hi. rewrite Z.land_spec, Z.bits_0.
    destruct (decide (i < k)).
    - rewrite Z.shiftl_spec_low by lia. done.
    - rewrite (fits_testbit_high k c i) by (done || lia). by rewrite andb_false_r. }
  rewrite <- Z.lxor_lor by exact E. rewrite <- Z.add_nocarry_lxor by exact E.
  rewrite Z.shiftl_mul_pow2 by lia. done.
Qed.

Lemma flags_small fl : fits 8 fl -> 0 <= PTE_V .| PTE_A .| PTE_D .| fl < 2 ^ 10.
Proof.
  intros H. assert (fits 8 (PTE_V .| PTE_A .| PTE_D .| fl)) as [? ?].
  { apply lor_fits; [lia| |done]. by apply fitsb_spec. }
  lia.
Qed.

Lemma pte_value pa fl : fits 8 fl -> pte pa fl = (pa / 4096) * 1024 + (PTE_V .| PTE_A .| PTE_D .| fl).
Proof.
  intros H. unfold pte. rewrite <- !Z.lor_assoc.
  replace (PTE_V .| (PTE_A .| (PTE_D .| fl))) with (PTE_V .| PTE_A .| PTE_D .| fl) by by rewrite <- !Z.lor_assoc.
  rewrite lor_low; [|lia|by apply flags_small]. by rewrite Z.shiftr_div_pow2.
Qed.

Lemma table_entry_value pa : table_entry pa = (pa / 4096) * 1024 + 1.
Proof. unfold table_entry, PTE_V. rewrite lor_low by lia. by rewrite Z.shiftr_div_pow2 by lia. Qed.

Lemma pte_testbit pa fl k : fits 8 fl -> 0 <= k < 10 ->
  Z.testbit (pte pa fl) k = (k =? 0) || (k =? 6) || (k =? 7) || Z.testbit fl k.
Proof.
  intros H Hk. unfold pte. rewrite !Z.lor_spec, Z.shiftl_spec_low by lia. cbn [orb].
  assert (E : Z.testbit PTE_V k = (k =? 0) /\ Z.testbit PTE_A k = (k =? 6) /\ Z.testbit PTE_D k = (k =? 7)).
  { assert (Hc : k = 0 \/ k = 1 \/ k = 2 \/ k = 3 \/ k = 4 \/ k = 5 \/ k = 6 \/ k = 7 \/ k = 8 \/ k = 9) by lia.
    by repeat destruct Hc as [->|Hc]; [..|subst k]. }
  destruct E as (-> & -> & ->). done.
Qed.

Lemma table_entry_testbit pa k : 0 <= k < 10 -> Z.testbit (table_entry pa) k = (k =? 0).
Proof.
  intros Hk. unfold table_entry. rewrite Z.lor_spec, Z.shiftl_spec_low by lia. cbn [orb].
  assert (Hc : k = 0 \/ k = 1 \/ k = 2 \/ k = 3 \/ k = 4 \/ k = 5 \/ k = 6 \/ k = 7 \/ k = 8 \/ k = 9) by lia.
  by repeat destruct Hc as [->|Hc]; [..|subst k].
Qed.

Definition page_pa (pa : Z) : Prop := 0 <= pa < 2 ^ 56 /\ pa mod 4096 = 0.
#[export] Instance page_pa_dec pa : Decision (page_pa pa).
Proof. unfold page_pa. apply _. Defined.

Lemma shiftr_entry n c : 0 <= c < 1024 -> Z.shiftr (n * 1024 + c) 10 = n.
Proof. intros H. rewrite Z.shiftr_div_pow2 by lia. change (2 ^ 10) with 1024. rewrite Z.div_add_l, Z.div_small; lia. Qed.

Lemma pte_ppn pa fl : fits 8 fl -> page_pa pa -> ppn (pte pa fl) * 4096 = pa.
Proof.
  intros Hf [Hpa Hal]. unfold ppn. rewrite pte_value, shiftr_entry by (done || by apply flags_small).
  rewrite Z.mod_small; Z.to_euclidean_division_equations; lia.
Qed.

Lemma table_entry_ppn pa : page_pa pa -> ppn (table_entry pa) * 4096 = pa.
Proof.
  intros [Hpa Hal]. unfold ppn. rewrite table_entry_value, shiftr_entry by lia.
  rewrite Z.mod_small; Z.to_euclidean_division_equations; lia.
Qed.

Lemma pte_fits pa fl : fits 8 fl -> page_pa pa -> fits 64 (pte pa fl).
Proof.
  intros Hf [Hpa Hal]. rewrite pte_value by done. pose proof (flags_small fl Hf).
  unfold fits. Z.to_euclidean_division_equations; lia.
Qed.
Lemma table_entry_fits pa : page_pa pa -> fits 64 (table_entry pa).
Proof. intros [Hpa Hal]. rewrite table_entry_value. unfold fits. Z.to_euclidean_division_equations; lia. Qed.

Lemma frame_page f : frame_ok f -> page_pa f.
Proof. unfold frame_ok, page_pa, FRAME_POOL_BASE, FRAME_POOL_END, FRAME_SIZE. lia. Qed.

Lemma proc_satp_root root : page_pa root -> (proc_satp root mod 2 ^ 44) * 4096 = root.
Proof.
  intros [Hr Ha]. unfold proc_satp. change (Z.shiftl 8 60) with (Z.shiftl (2 ^ 19) 44).
  rewrite Z.shiftr_div_pow2 by lia. rewrite lor_low; [|lia|Z.to_euclidean_division_equations; lia].
  rewrite Z.add_comm, Z.mod_add, Z.mod_small by (Z.to_euclidean_division_equations; lia).
  Z.to_euclidean_division_equations; lia.
Qed.

Lemma vpn_range level va : 0 <= vpn level va < 512.
Proof.
  unfold vpn. change 0x1ff with (Z.ones 9). rewrite Z.land_ones by lia. apply Z.mod_pos_bound. lia.
Qed.

Lemma vpn_div level va : 0 <= level -> vpn level va = (va / 2 ^ (12 + 9 * level)) mod 512.
Proof. intros. unfold vpn. change 0x1ff with (Z.ones 9). by rewrite Z.land_ones, Z.shiftr_div_pow2 by lia. Qed.

(** ** One level of a walk *)

Lemma walk_empty l m table va : ld64 m (table + 8 * vpn (Z.of_nat l) va) = 0 -> sv39_walk l m table va = None.
Proof. intros E. destruct l; cbn [sv39_walk]; by rewrite E. Qed.

Lemma walk_table l m table va pa :
  ld64 m (table + 8 * vpn (Z.of_nat (S l)) va) = table_entry pa -> page_pa pa ->
  sv39_walk (S l) m table va = sv39_walk l m pa va.
Proof.
  intros E Hpa. cbn [sv39_walk]. rewrite E, !table_entry_testbit by lia. cbn. by rewrite table_entry_ppn.
Qed.

Lemma walk_leaf l m table va pa fl :
  ld64 m (table + 8 * vpn (Z.of_nat l) va) = pte pa fl -> fits 8 fl -> page_pa pa ->
  Z.testbit fl 1 = true -> pa mod 2 ^ (12 + 9 * Z.of_nat l) = 0 ->
  sv39_walk l m table va = Some (pte pa fl, pa + va mod 2 ^ (12 + 9 * Z.of_nat l)).
Proof.
  intros E Hf Hpa Hr Hal. destruct l; cbn [sv39_walk]; rewrite E, !pte_testbit, Hr, pte_ppn, Hal by (done || lia);
    reflexivity.
Qed.

Lemma permits_pte pa fl acc : fits 8 fl ->
  permits (pte pa fl) acc = Z.testbit fl 4 && Z.testbit fl (match acc with Load => 1 | Store => 2 | Fetch => 3 end).
Proof.
  intros Hf. unfold permits. destruct acc; rewrite !pte_testbit by (done || lia); cbn; by rewrite ?andb_true_r.
Qed.

(** ** Baked tasks: the kernel's tables while task [a] runs *)

Section KernelProofs.
Context (us ue ROOT L1 : Z).

(** What the linker script guarantees of the layout. *)
Record layout : Prop := {
  lay_us : us mod MEGA = 0;
  lay_ue : ue mod MEGA = 0;
  lay_order : RAM_BASE <= us <= ue;
  lay_top : ue + Z.of_nat MAX_TASKS * MEGA <= RAM_BASE + 512 * MEGA;
  lay_root : page_pa ROOT;
  lay_l1 : page_pa L1;
  lay_apart : ROOT <> L1 }.

Definition view_flags (a i : Z) : Z :=
  l1_flags us ue i .| (if (0 <=? a) && (a <? Z.of_nat MAX_TASKS) && (i =? stack_region_l1_index ue a) then PTE_U else 0).

(** The tables with the stack of task [a] open ([a] outside the table: none). *)
Record kernel_tables (a : Z) (m : mem) : Prop := {
  kt_root : forall i, 0 <= i < 512 ->
    ld64 m (ROOT + 8 * i) = if i =? 0 then pte 0 (PTE_R .| PTE_W .| PTE_X) else if i =? 2 then table_entry L1 else 0;
  kt_l1 : forall i, 0 <= i < 512 -> ld64 m (L1 + 8 * i) = pte (RAM_BASE + i * MEGA) (view_flags a i) }.

Context (Hlay : layout).

Lemma tables_apart i j : 0 <= i < 512 -> 0 <= j < 512 -> ROOT + 8 * i + 8 <= L1 + 8 * j \/ L1 + 8 * j + 8 <= ROOT + 8 * i.
Proof. destruct Hlay as [_ _ _ _ [_ H1] [_ H2] H3]. intros. Z.to_euclidean_division_equations; lia. Qed.

Lemma l1_flags_cases i :
  l1_flags us ue i = PTE_R .| PTE_X .| PTE_U \/ l1_flags us ue i = PTE_R .| PTE_W
  \/ l1_flags us ue i = PTE_R .| PTE_W .| PTE_X.
Proof. unfold l1_flags. repeat case_bool; auto. Qed.

Lemma view_flags_fits a i : fits 8 (view_flags a i) /\ Z.testbit (view_flags a i) 1 = true.
Proof.
  unfold view_flags. case_bool; destruct (l1_flags_cases i) as [->|[->| ->]];
    (split; [by apply fitsb_spec|reflexivity]).
Qed.

Lemma mega_page i : 0 <= i < 512 -> page_pa (RAM_BASE + i * MEGA) /\ (RAM_BASE + i * MEGA) mod 2 ^ 21 = 0.
Proof.
  unfold page_pa, RAM_BASE, MEGA. intros. split_and!; try lia; Z.to_euclidean_division_equations; lia.
Qed.

Lemma kt_fits a m i : kernel_tables a m -> 0 <= i < 512 -> fits 64 (ld64 m (L1 + 8 * i)).
Proof.
  intros H Hi. rewrite (kt_l1 _ _ H) by done. apply pte_fits; [apply view_flags_fits|by apply mega_page].
Qed.

Lemma stack_flags a : 0 <= a < Z.of_nat MAX_TASKS -> l1_flags us ue (stack_region_l1_index ue a) = PTE_R .| PTE_W.
Proof.
  intros Ha. unfold l1_flags, stack_region_l1_index, stack_base. destruct Hlay as [_ H2 H3 _ _ _ _].
  replace (RAM_BASE + ((ue - RAM_BASE) / MEGA + a) * MEGA) with (ue + a * MEGA)
    by (unfold MEGA, RAM_BASE in *; Z.to_euclidean_division_equations; lia).
  unfold MEGA in *.
  destruct ((us <=? _) && _) eqn:E1; bool_to_prop; [lia|].
  destruct ((ue <=? _) && _) eqn:E2; [done|]. apply andb_false_iff in E2 as [E2|E2]; bool_to_prop; lia.
Qed.

(** The exact reach of a user-mode access under the kernel's tables: shared code
    is readable and executable, the running task's stack readable and writable,
    both at their physical addresses, and everything else faults. *)
Definition baked_reach (a va : Z) (acc : access) : option Z :=
  if (us <=? va) && (va <? ue) then (if decide (acc = Store) then None else Some va)
  else if (0 <=? a) && (a <? Z.of_nat MAX_TASKS) && (ue + a * MEGA <=? va) && (va <? ue + (a + 1) * MEGA)
  then (if decide (acc = Fetch) then None else Some va)
  else None.

Lemma l1_index_reach a i va acc :
  RAM_BASE + i * MEGA <= va < RAM_BASE + (i + 1) * MEGA ->
  (if Z.testbit (view_flags a i) 4 && Z.testbit (view_flags a i) (match acc with Load => 1 | Store => 2 | Fetch => 3 end)
   then Some va else None) = baked_reach a va acc.
Proof.
  intros Hva. unfold view_flags, baked_reach.
  assert (Hidx : 0 <= a < Z.of_nat MAX_TASKS ->
    (i =? stack_region_l1_index ue a) = (ue + a * MEGA <=? va) && (va <? ue + (a + 1) * MEGA)).
  { intros Ha. destruct Hlay as [_ H2 H3 _ _ _ _]. apply eq_true_iff_eq.
    rewrite andb_true_iff, Z.eqb_eq, Z.leb_le, Z.ltb_lt.
    unfold stack_region_l1_index, stack_base, MEGA, RAM_BASE in *. Z.to_euclidean_division_equations; lia. }
  assert (Hcode : (us <=? RAM_BASE + i * MEGA) && (RAM_BASE + i * MEGA <? ue) = (us <=? va) && (va <? ue)).
  { destruct Hlay as [H1 H2 H3 _ _ _ _]. apply eq_true_iff_eq. rewrite !andb_true_iff, !Z.leb_le, !Z.ltb_lt.
    unfold MEGA, RAM_BASE in *. Z.to_euclidean_division_equations; lia. }
  destruct ((0 <=? a) && (a <? Z.of_nat MAX_TASKS)) eqn:Ea.
  - bool_to_prop. rewrite Hidx by lia. cbn [andb].
    destruct ((ue + a * MEGA <=? va) && (va <? ue + (a + 1) * MEGA)) eqn:Es.
    + destruct ((us <=? va) && (va <? ue)) eqn:Ec; [bool_to_prop; unfold MEGA in *; lia|].
      pose proof (Hidx ltac:(lia)) as Ei. rewrite ?Es in Ei. apply Z.eqb_eq in Ei. rewrite Ei, stack_flags by lia. by destruct acc.
    + unfold l1_flags. cbv zeta. rewrite Hcode. destruct ((us <=? va) && (va <? ue)); [by destruct acc|].
      destruct ((stack_base ue <=? _) && _); by destruct acc.
  - cbn [andb]. unfold l1_flags. cbv zeta. rewrite Hcode. destruct ((us <=? va) && (va <? ue)); [by destruct acc|].
      destruct ((stack_base ue <=? _) && _); by destruct acc.
Qed.

Definition reached (r : option (Z * Z)) (acc : access) : option Z :=
  match r with Some (e, pa) => if permits e acc then Some pa else None | None => None end.

(** Every root that shares the kernel's level-1 table sees the same upper half. *)
Lemma upper_half_reach m root a va acc :
  (forall i, 0 <= i < 512 -> ld64 m (L1 + 8 * i) = pte (RAM_BASE + i * MEGA) (view_flags a i)) ->
  ld64 m (root + 8 * 2) = table_entry L1 -> RAM_BASE <= va < RAM_BASE + 2 ^ 30 ->
  reached (sv39_walk 2 m root va) acc = baked_reach a va acc.
Proof.
  intros Hl1 Hr Hva. unfold RAM_BASE in Hva.
  assert (E2 : vpn 2 va = 2) by (rewrite vpn_div by lia; Z.to_euclidean_division_equations; lia).
  rewrite (walk_table 1 m root va L1); [|change (Z.of_nat 2) with 2; by rewrite E2|apply Hlay].
  set (i := (va - RAM_BASE) / MEGA).
  assert (Hi : 0 <= i < 512) by (unfold i, MEGA, RAM_BASE; Z.to_euclidean_division_equations; lia).
  assert (E1 : vpn 1 va = i)
    by (rewrite vpn_div by lia; unfold i, MEGA, RAM_BASE; Z.to_euclidean_division_equations; lia).
  rewrite (walk_leaf 1 m L1 va (RAM_BASE + i * MEGA) (view_flags a i));
    [|change (Z.of_nat 1) with 1; rewrite E1; by apply Hl1|apply view_flags_fits|by apply mega_page|apply view_flags_fits
     |by apply mega_page].
  cbn [reached]. rewrite permits_pte by apply view_flags_fits.
  replace (RAM_BASE + i * MEGA + va mod 2 ^ (12 + 9 * Z.of_nat 1)) with va
    by (unfold i, RAM_BASE, MEGA; change (2 ^ (12 + 9 * Z.of_nat 1)) with 2097152; Z.to_euclidean_division_equations; lia).
  apply l1_index_reach. unfold i, RAM_BASE, MEGA. Z.to_euclidean_division_equations; lia.
Qed.

Lemma gigapage_reach m root va acc :
  ld64 m root = pte 0 (PTE_R .| PTE_W .| PTE_X) -> 0 <= va < 2 ^ 30 -> reached (sv39_walk 2 m root va) acc = None.
Proof.
  intros Hr Hva. assert (E2 : vpn 2 va = 0) by (rewrite vpn_div by lia; Z.to_euclidean_division_equations; lia).
  rewrite (walk_leaf 2 m root va 0 (PTE_R .| PTE_W .| PTE_X)); try done.
  change (Z.of_nat 2) with 2. rewrite E2, Z.add_0_r. exact Hr.
Qed.

Lemma baked_reach_range a va acc : ~ (RAM_BASE <= va < RAM_BASE + 2 ^ 30) -> baked_reach a va acc = None.
Proof.
  intros H. unfold baked_reach. destruct Hlay as [_ _ H3 H4 _ _ _]. unfold MEGA, RAM_BASE, MAX_TASKS in *.
  repeat case_bool; bool_to_prop; try done; lia.
Qed.

Lemma canonical_vpn va : canonical va = true -> ~ (0 <= va < 2 ^ 30) -> ~ (RAM_BASE <= va < RAM_BASE + 2 ^ 30) ->
  vpn 2 va <> 0 /\ vpn 2 va <> 2.
Proof.
  unfold canonical, RAM_BASE. rewrite andb_true_iff, orb_true_iff, andb_true_iff, !Z.leb_le, !Z.ltb_lt. intros Hc H1 H2.
  rewrite vpn_div by lia. Z.to_euclidean_division_equations; lia.
Qed.

Lemma kernel_tables_reach a m va acc :
  kernel_tables a m -> user_access m (kernel_satp ROOT) va acc = baked_reach a va acc.
Proof.
  intros H. unfold user_access. change (kernel_satp ROOT) with (proc_satp ROOT). rewrite proc_satp_root by apply Hlay.
  pose proof (kt_root _ _ H) as Hr.
  destruct (canonical va) eqn:Ec.
  2: { symmetry. apply baked_reach_range. unfold canonical, RAM_BASE in *.
       apply andb_false_iff in Ec as [Ec|Ec]; [bool_to_prop; lia|]. apply orb_false_iff in Ec as [Ec _]. bool_to_prop. lia. }
  change (reached (sv39_walk 2 m ROOT va) acc = baked_reach a va acc).
  destruct (decide (RAM_BASE <= va < RAM_BASE + 2 ^ 30)) as [Hu|Hu].
  { apply upper_half_reach; [apply H| |done]. rewrite Hr by lia. done. }
  rewrite baked_reach_range by done. destruct (decide (0 <= va < 2 ^ 30)) as [Hg|Hg].
  { apply gigapage_reach; [|done]. rewrite <- (Z.add_0_r ROOT). change 0 with (8 * 0) at 1. rewrite Hr by lia. done. }
  destruct (canonical_vpn va Ec Hg Hu) as [N0 N2]. rewrite walk_empty; [done|]. change (Z.of_nat 2) with 2.
  rewrite Hr by apply vpn_range. rewrite !(proj2 (Z.eqb_neq _ _)) by lia. done.
Qed.

(** ** The kernel establishes and switches these tables *)

Lemma l1_entries l m i :
  NoDup l -> Forall (fun j => 0 <= j < 512) l -> 0 <= i < 512 ->
  ld64 (foldl (l1_entry us ue L1) m l) (L1 + 8 * i)
  = (if bool_decide (i ∈ l) then pte (RAM_BASE + i * MEGA) (l1_flags us ue i) else ld64 m (L1 + 8 * i)).
Proof.
  revert m. induction l as [|j l IH]; intros m Hn Hl Hi; [done|]. cbn [foldl].
  apply NoDup_cons in Hn as [Hj Hn]. apply Forall_cons in Hl as [Hj' Hl]. rewrite IH by done.
  destruct (decide (i = j)) as [->|Hne].
  - rewrite bool_decide_eq_false_2, bool_decide_eq_true_2 by (done || by left). apply ld64_st64.
    apply pte_fits; [|by apply mega_page]. by destruct (l1_flags_cases j) as [->|[->| ->]]; apply fitsb_spec.
  - rewrite (bool_decide_ext (i ∈ j :: l) (i ∈ l)) by (rewrite elem_of_cons; naive_solver).
    destruct (bool_decide (i ∈ l)); [done|]. apply ld64_st64_other. lia.
Qed.

Lemma l1_entries_root l m i :
  Forall (fun j => 0 <= j < 512) l -> 0 <= i < 512 ->
  ld64 (foldl (l1_entry us ue L1) m l) (ROOT + 8 * i) = ld64 m (ROOT + 8 * i).
Proof.
  revert m. induction l as [|j l IH]; intros m Hl Hi; [done|]. cbn [foldl].
  apply Forall_cons in Hl as [Hj Hl]. rewrite IH by done. apply ld64_st64_other. pose proof (tables_apart i j). lia.
Qed.

Lemma view_flags_none a i : ~ (0 <= a < Z.of_nat MAX_TASKS) -> view_flags a i = l1_flags us ue i.
Proof.
  intros Ha. unfold view_flags. destruct ((0 <=? a) && _) eqn:E; [bool_to_prop; lia|]. cbn [andb]. apply Z.lor_0_r.
Qed.

(** [ROOT] is zero-initialised. *)
Lemma build_page_tables_ok m a :
  (forall i, 0 <= i < 512 -> ld64 m (ROOT + 8 * i) = 0) -> ~ (0 <= a < Z.of_nat MAX_TASKS) ->
  kernel_tables a (build_page_tables us ue ROOT L1 m).
Proof.
  intros H0 Ha. unfold build_page_tables. assert (Hl : Forall (fun j => 0 <= j < 512) (seqZ 0 512)).
  { apply Forall_forall. intros j Hj. apply elem_of_seqZ in Hj. lia. }
  split; intros i Hi.
  - rewrite l1_entries_root by done. destruct (decide (i = 2)) as [->|N2].
    { rewrite ld64_st64 by (apply table_entry_fits, Hlay). done. }
    rewrite ld64_st64_other by lia. rewrite (proj2 (Z.eqb_neq i 2)) by done. destruct (decide (i = 0)) as [->|N0].
    { rewrite Z.mul_0_r, Z.add_0_r, ld64_st64 by by apply fitsb_spec. done. }
    rewrite ld64_st64_other by lia. rewrite (proj2 (Z.eqb_neq i 0)) by done. by apply H0.
  - rewrite l1_entries by (done || apply NoDup_seqZ). rewrite bool_decide_eq_true_2 by (apply elem_of_seqZ; lia).
    by rewrite view_flags_none.
Qed.

Lemma pte_open pa fl : pte pa fl .| PTE_U = pte pa (fl .| PTE_U).
Proof. unfold pte. by rewrite <- !Z.lor_assoc. Qed.

Lemma pte_close pa fl fl' : fits 64 (pte pa fl) ->
  (forall k, Z.testbit fl' k = Z.testbit fl k && negb (k =? 4)) -> pte pa fl & unot 64 PTE_U = pte pa fl'.
Proof.
  intros Hf H. rewrite land_unot by (lia || done). apply Z.bits_inj'. intros k Hk. rewrite Z.ldiff_spec. unfold pte.
  rewrite !Z.lor_spec, H. change PTE_U with (2 ^ 4). rewrite Z.pow2_bits_eqb by lia.
  destruct (decide (k = 4)) as [->|Hne].
  - rewrite Z.shiftl_spec_low by lia. cbn. by rewrite !andb_false_r.
  - rewrite (proj2 (Z.eqb_neq 4 k)), (proj2 (Z.eqb_neq k 4)) by lia. by rewrite !andb_true_r.
Qed.

Lemma stack_index_range a : 0 <= a < Z.of_nat MAX_TASKS -> 0 <= stack_region_l1_index ue a < 512.
Proof.
  intros Ha. unfold stack_region_l1_index, stack_base. destruct Hlay as [_ H2 H3 H4 _ _ _].
  unfold MEGA, RAM_BASE in *. Z.to_euclidean_division_equations; lia.
Qed.

Lemma toggle_flags a b i :
  0 <= i < Z.of_nat MAX_TASKS -> let idx := stack_region_l1_index ue i in
  (if i =? b then pte (RAM_BASE + idx * MEGA) (view_flags a idx) .| PTE_U
   else pte (RAM_BASE + idx * MEGA) (view_flags a idx) & unot 64 PTE_U)
  = pte (RAM_BASE + idx * MEGA) (view_flags b idx).
Proof.
  intros Hi idx. assert (Hs : l1_flags us ue idx = PTE_R .| PTE_W) by (by apply stack_flags).
  assert (Hv : forall c, view_flags c idx = PTE_R .| PTE_W .| (if i =? c then PTE_U else 0)).
  { intros c. unfold view_flags. rewrite Hs. f_equal. unfold idx, stack_region_l1_index.
    destruct (i =? c) eqn:E; bool_to_prop.
    - subst c. rewrite Z.eqb_refl, (proj2 (Z.leb_le _ _)), (proj2 (Z.ltb_lt _ _)) by lia. done.
    - rewrite (proj2 (Z.eqb_neq _ _)) by lia. by rewrite andb_false_r. }
  rewrite !Hv. destruct (i =? b).
  - rewrite pte_open. f_equal. by destruct (i =? a).
  - apply pte_close.
    + apply pte_fits; [by apply fitsb_spec; destruct (i =? a)|]. apply mega_page. by apply stack_index_range.
    + intros k. destruct (Z.eqb_spec k 4) as [->|Hk]; [by destruct (i =? a)|]. rewrite andb_true_r.
      destruct (i =? a); [|done]. rewrite !Z.lor_spec. change PTE_U with (2 ^ 4).
      rewrite Z.pow2_bits_eqb by lia. rewrite (proj2 (Z.eqb_neq 4 k)) by lia. by rewrite Z.bits_0.
Qed.

Definition in_l1 (x : Z) : Prop := L1 <= x < L1 + 4096.

Lemma toggle_stacks l m a b :
  NoDup l -> Forall (fun i => 0 <= i < Z.of_nat MAX_TASKS) l ->
  (forall i, i ∈ l -> ld64 m (L1 + 8 * stack_region_l1_index ue i)
    = pte (RAM_BASE + stack_region_l1_index ue i * MEGA) (view_flags a (stack_region_l1_index ue i))) ->
  exists m', foldl (fun r i => m ← r; toggle_stack ue L1 b m i) (Ret m) l = Ret m'
    /\ (forall i, i ∈ l -> ld64 m' (L1 + 8 * stack_region_l1_index ue i)
        = pte (RAM_BASE + stack_region_l1_index ue i * MEGA) (view_flags b (stack_region_l1_index ue i)))
    /\ (forall j, (forall i, i ∈ l -> j <> stack_region_l1_index ue i) -> ld64 m' (L1 + 8 * j) = ld64 m (L1 + 8 * j))
    /\ (forall x, ~ in_l1 x -> m' x = m x).
Proof.
  revert m. induction l as [|t l IH]; intros m Hn Hl Hm.
  { exists m. split_and!; [done|by intros i Hi%elem_of_nil|done|done]. }
  apply NoDup_cons in Hn as [Ht Hn]. apply Forall_cons in Hl as [Ht' Hl].
  pose proof (stack_index_range t Ht') as Hidx. set (idx := stack_region_l1_index ue t) in *.
  assert (Hdist : forall i, i ∈ l -> stack_region_l1_index ue i <> idx).
  { intros i Hi E. unfold idx, stack_region_l1_index in E. assert (i = t) as -> by lia. done. }
  set (v := pte (RAM_BASE + idx * MEGA) (view_flags b idx)).
  assert (Hstep : toggle_stack ue L1 b m t = Ret (st64 m (L1 + 8 * idx) v)).
  { unfold toggle_stack. cbv zeta. fold idx. rewrite (proj2 (Z.leb_le _ _)), (proj2 (Z.ltb_lt _ _)) by lia. cbn [andb].
    pose proof (Hm t ltac:(by left)) as Hmt. fold idx in Hmt. rewrite Hmt.
    unfold v, idx. rewrite <- (toggle_flags a b t Ht'). by destruct (t =? b). }
  cbn [foldl]. change (m0 ← Ret m; toggle_stack ue L1 b m0 t) with (toggle_stack ue L1 b m t). rewrite Hstep.
  assert (Hv : fits 64 v) by (apply pte_fits; [apply view_flags_fits|by apply mega_page]).
  destruct (IH (st64 m (L1 + 8 * idx) v) Hn Hl) as (m' & E & H1 & H2 & H3).
  { intros i Hi. rewrite ld64_st64_other by (pose proof (Hdist i Hi); lia). apply Hm. by right. }
  exists m'. split; [exact E|]. split_and!.
  - intros i [->|Hi]%elem_of_cons; [|by apply H1]. fold idx. rewrite H2 by (intros i Hi; by apply not_eq_sym, Hdist).
    by apply ld64_st64.
  - intros j Hj. rewrite H2 by (intros i Hi; apply Hj; by right). apply ld64_st64_other.
    pose proof (Hj t ltac:(by left)) as Hjt. fold idx in Hjt. lia.
  - intros x Hx. rewrite H3 by done. apply st64_other. unfold in_l1 in Hx. lia.
Qed.

Lemma view_flags_other a i :
  (forall t, t ∈ seqZ 0 (Z.of_nat MAX_TASKS) -> i <> stack_region_l1_index ue t) -> view_flags a i = l1_flags us ue i.
Proof.
  intros H. unfold view_flags. destruct ((0 <=? a) && (a <? Z.of_nat MAX_TASKS)) eqn:E; [|apply Z.lor_0_r].
  bool_to_prop. rewrite (proj2 (Z.eqb_neq _ _)); [apply Z.lor_0_r|]. apply H. apply elem_of_seqZ. lia.
Qed.

(** The level-1 table with the stack of task [a] open. *)
Definition l1_view (a : Z) (m : mem) : Prop :=
  forall i, 0 <= i < 512 -> ld64 m (L1 + 8 * i) = pte (RAM_BASE + i * MEGA) (view_flags a i).

(** Switching the active task: never a panic, and only the level-1 table changes. *)
Lemma set_active_l1 a b m :
  l1_view a m -> exists m', set_active_task_mem ue L1 b m = Ret m' /\ l1_view b m' /\ (forall x, ~ in_l1 x -> m' x = m x).
Proof.
  intros Hl. destruct (toggle_stacks (seqZ 0 (Z.of_nat MAX_TASKS)) m a b) as (m' & E & H1 & H2 & H3).
  - apply NoDup_seqZ.
  - apply Forall_forall. intros i Hi. apply elem_of_seqZ in Hi. lia.
  - intros i Hi. apply elem_of_seqZ in Hi. apply Hl, stack_index_range. lia.
  - exists m'. split; [exact E|]. split; [|done]. intros i Hi.
    destruct (decide (Exists (fun t => i = stack_region_l1_index ue t) (seqZ 0 (Z.of_nat MAX_TASKS)))) as [Hx|Hx].
    + apply Exists_exists in Hx as (t & Ht & ->). by apply H1.
    + assert (Hd : forall t, t ∈ seqZ 0 (Z.of_nat MAX_TASKS) -> i <> stack_region_l1_index ue t).
      { intros t Ht E'. apply Hx, Exists_exists. eauto. }
      rewrite H2, Hl, !view_flags_other by done. done.
Qed.

Lemma set_active_ok a b m :
  kernel_tables a m ->
  exists m', set_active_task_mem ue L1 b m = Ret m' /\ kernel_tables b m' /\ (forall x, ~ in_l1 x -> m' x = m x).
Proof.
  intros [Hr Hl]. destruct (set_active_l1 a b m Hl) as (m' & E & Hl' & H3). exists m'. split; [exact E|]. split; [|done].
  split; [|exact Hl']. intros i Hi. rewrite <- Hr by done. apply ld64_ext. intros x Hx. apply H3. unfold in_l1.
  pose proof (tables_apart i 0). pose proof (tables_apart i 511). destruct Hlay as [_ _ _ _ [_ ?] [_ ?] ?].
  Z.to_euclidean_division_equations; lia.
Qed.

(** The switches of a run, from the tables built at boot. *)
Definition activations (m : mem) (l : list Z) : outcome Empty_set mem :=
  foldl (fun r a => m ← r; set_active_task_mem ue L1 a m) (Ret (build_page_tables us ue ROOT L1 m)) l.

Lemma activations_ok m l :
  (forall i, 0 <= i < 512 -> ld64 m (ROOT + 8 * i) = 0) ->
  exists m', activations m l = Ret m' /\ kernel_tables (default (-1) (last l)) m'.
Proof.
  intros H0. induction l as [|a l IH] using rev_ind.
  - eexists. split; [done|]. apply build_page_tables_ok; [done|cbn; lia].
  - destruct IH as (m1 & E & Hm). destruct (set_active_ok _ a _ Hm) as (m2 & E2 & Hm2 & _).
    exists m2. unfold activations in *. rewrite foldl_app, last_snoc. cbn [foldl]. rewrite E. split; [exact E2|exact Hm2].
Qed.

End KernelProofs.

(** Under the kernel's own page tables a user access, after any sequence of task switches, reaches
    exactly the shared code (not to write) and the stack megapage of the task switched to last (not to
    execute); no switch panics. *)
Theorem baked_tasks_reach_only_their_stack us ue ROOT L1 m l a :
  layout us ue ROOT L1 -> (forall i, 0 <= i < 512 -> ld64 m (ROOT + 8 * i) = 0) ->
  exists m', activations us ue ROOT L1 m (l ++ [a]) = Ret m'
    /\ enable_paging ROOT = kernel_satp ROOT
    /\ forall va acc, user_access m' (kernel_satp ROOT) va acc = baked_reach us ue a va acc.
Proof.
  intros Hlay H0. destruct (activations_ok us ue ROOT L1 Hlay m (l ++ [a]) H0) as (m' & E & Hm).
  exists m'. split; [exact E|]. split; [done|]. rewrite last_snoc in Hm. intros va acc. by apply kernel_tables_reach with (L1 := L1).
Qed.

(** The image of [linker.ld]: one megapage of user code at 4 MiB. *)
Lemma demo_layout : layout 0x80400000 0x80600000 0x80300000 0x80301000.
Proof. split; vm_compute; (congruence || (split; congruence) || (split; [split|]; congruence)). Qed.

Lemma baked_tasks_witness :
  exists m', activations 0x80400000 0x80600000 0x80300000 0x80301000 (fun _ => 0) [0; 1] = Ret m'
    /\ user_access m' (kernel_satp 0x80300000) 0x80800010 Store = Some 0x80800010
    /\ user_access m' (kernel_satp 0x80300000) 0x80600010 Load = None.
Proof.
  destruct (baked_tasks_reach_only_their_stack 0x80400000 0x80600000 0x80300000 0x80301000 (fun _ => 0) [0] 1 demo_layout)
    as (m' & E & _ & H); [reflexivity|]. exists m'. split; [exact E|]. rewrite !H. split; reflexivity.
Defined.
