(* ===== verification/Loader.v ===== *)
(** * The program loader ([src/dezh-boot/src/proc/loader.rs],
    [src/dezh-boot/src/dev/virtio.rs])

    [build_address_space] takes frames from the allocator of [Frames], writes an
    Sv39 table of its own for one program, copies the program's segments and maps
    a stack and the devices the launch grants.  The state of the build is the
    allocator with physical memory and the [TaskResources] that remember the
    frames taken.  A step that runs out of frames gives up with [None], after
    which the caller returns every frame; an index out of the image, and with
    overflow checks an address that overflows, panics. *)

From Stdlib Require Import ZArith Lia.
From stdpp Require Import base option numbers list.
From S2P Require Import Prelude Sched Service Frames Paging.

Definition DEV_UART_VA : Z := 0x50000000.
Definition DEV_VIRTIO_BLK_VA : Z := 0x50000000.
Definition VIRTIO_BLK_MMIO_PA : Z := 0x10001000.
Definition VIRTIO_MMIO_STRIDE : Z := 0x1000.
Definition VIRTIO_MMIO_COUNT : Z := 8.
Definition VIRTIO_MMIO_MAGIC : Z := 0x74726976.
Definition VIRTIO_DEVICE_ID_NET : Z := 1.
Definition VIRTIO_DEVICE_ID_BLOCK : Z := 2.
Definition VIRTIO_MMIO_OFF_DEVICE_ID : Z := 8.
Definition DEV_VIRTIO_NET_VA : Z := 0x50020000.
Definition MARZ_DMA_VA : Z := 0x52000000.
Definition MARZ_DMA_SIZE : Z := 16 * 1024.
Definition VIRTIO_DMA_VA : Z := 0x51000000.
Definition VIRTIO_DMA_SIZE : Z := 16 * 1024.
Definition UART_BASE : Z := 0x10000000.
Definition TASK_DEVICE_VIRTIO_NET : Z := 64.

Definition USER_STACK_BOTTOM : Z := 0x406F0000.
Definition MAX_TASK_OWNED_FRAMES : Z := 384.

(** ** Launch specifications *)

Record ProcessSpec := mkProcessSpec {
  elf : list Z; caps : Z; arg0 : Z; arg1 : Z; arg2 : Z; arg3 : Z; personality : Z;
  map_uart : bool; map_virtio_blk : bool; map_virtio_net : bool; map_virtio_dma : bool }.

Definition new_spec (elf : list Z) (caps arg0 : Z) : ProcessSpec :=
  mkProcessSpec elf caps arg0 0 0 0 PERS_NATIVE false false false false.
Definition with_uart (s : ProcessSpec) : ProcessSpec :=
  mkProcessSpec (elf s) (caps s) (arg0 s) (arg1 s) (arg2 s) (arg3 s) (personality s) true (map_virtio_blk s) (map_virtio_net s) (map_virtio_dma s).
Definition with_virtio_blk (s : ProcessSpec) : ProcessSpec :=
  mkProcessSpec (elf s) (caps s) (arg0 s) (arg1 s) (arg2 s) (arg3 s) (personality s) (map_uart s) true (map_virtio_net s) (map_virtio_dma s).
Definition with_virtio_net (s : ProcessSpec) : ProcessSpec :=
  mkProcessSpec (elf s) (caps s) (arg0 s) (arg1 s) (arg2 s) (arg3 s) (personality s) (map_uart s) (map_virtio_blk s) true (map_virtio_dma s).
Definition with_virtio_dma (s : ProcessSpec) : ProcessSpec :=
  mkProcessSpec (elf s) (caps s) (arg0 s) (arg1 s) (arg2 s) (arg3 s) (personality s) (map_uart s) (map_virtio_blk s) (map_virtio_net s) true.
Definition with_args (a1 a2 a3 : Z) (s : ProcessSpec) : ProcessSpec :=
  mkProcessSpec (elf s) (caps s) (arg0 s) a1 a2 a3 (personality s) (map_uart s) (map_virtio_blk s) (map_virtio_net s) (map_virtio_dma s).
Definition with_linux (s : ProcessSpec) : ProcessSpec :=
  mkProcessSpec (elf s) (caps s) (arg0 s) (arg1 s) (arg2 s) (arg3 s) PERS_LINUX (map_uart s) (map_virtio_blk s) (map_virtio_net s) (map_virtio_dma s).

(** ** The frames a task owns: [r_frames] is [frames[..count]] *)

Record TaskResources := mkResources { r_kind : TaskKind; r_root : Z; r_frames : list Z }.
Definition EMPTY_TASK_RESOURCES : TaskResources := mkResources KEmpty 0 [].
Definition new_resources (kind : TaskKind) : TaskResources := mkResources kind 0 [].

Definition add_frame (frame : Z) (r : TaskResources) : bool * TaskResources :=
  if (frame =? 0) || (MAX_TASK_OWNED_FRAMES <=? zlen (r_frames r)) then (false, r)
  else (true, mkResources (r_kind r) (r_root r) (r_frames r ++ [frame])).

Record AddressSpaceBuild := mkBuilt { as_root : Z; as_entry : Z; as_resources : TaskResources }.

(** The state of a build. *)
Record LState := mkL { l_pool : Pool; l_res : TaskResources }.
Definition l_mem (s : LState) : mem := p_mem (l_pool s).
Definition poke (f : mem -> mem) (s : LState) : LState := mkL (with_mem f (l_pool s)) (l_res s).

Definition alloc_frame (s : LState) : Z * LState :=
  let '(frame, p) := frame_alloc (l_pool s) in
  if frame =? 0 then (0, mkL p (l_res s))
  else match add_frame frame (l_res s) with
       | (true, r) => (frame, mkL p r)
       | (false, r) => (0, mkL (frame_free frame p) r)
       end.

Definition reclaim_resources (p : Pool) (r : TaskResources) : Pool * TaskResources :=
  (foldl (fun p frame => if frame =? 0 then p else frame_free frame p) p (r_frames r), EMPTY_TASK_RESOURCES).

(** ** Page tables in memory *)

Definition next_table (e : Z) : Z := wrap 64 (Z.shiftl (Z.shiftr e 10) 12).

Definition walk_alloc (table idx : Z) (s : LState) : option Z * LState :=
  let e := ld64 (l_mem s) (table + 8 * idx) in
  if negb ((e & PTE_V) =? 0) then (Some (next_table e), s)
  else
    let '(frame, s) := alloc_frame s in
    if frame =? 0 then (None, s)
    else (Some frame, poke (fun m => st64 m (table + 8 * idx) (table_entry frame)) s).

Definition map_page (root va pa flags : Z) (s : LState) : bool * LState :=
  match walk_alloc root (vpn 2 va) s with
  | (None, s) => (false, s)
  | (Some l1, s) =>
      match walk_alloc l1 (vpn 1 va) s with
      | (None, s) => (false, s)
      | (Some l0, s) => (true, poke (fun m => st64 m (l0 + 8 * vpn 0 va) (pte pa flags)) s)
      end
  end.

Definition translate (m : mem) (root va : Z) : Z :=
  let l1 := next_table (ld64 m (root + 8 * vpn 2 va)) in
  let l0 := next_table (ld64 m (l1 + 8 * vpn 1 va)) in
  next_table (ld64 m (l0 + 8 * vpn 0 va)).

(** [find_virtio_mmio]: the first transport of the window with the wanted id. *)
Definition ld32 (m : mem) (a : Z) : Z := le_val ((fun k => m (a + k)) <$> [0; 1; 2; 3]).
Definition find_virtio_mmio (m : mem) (want_id : Z) : option Z :=
  head (filter (fun base => ld32 m base = VIRTIO_MMIO_MAGIC /\ ld32 m (base + VIRTIO_MMIO_OFF_DEVICE_ID) = want_id)
    ((fun i => VIRTIO_BLK_MMIO_PA + i * VIRTIO_MMIO_STRIDE) <$> seqZ 0 VIRTIO_MMIO_COUNT)).

(** ** Reading the image *)

Definition u16_at (b : list Z) (o : Z) : outcome Empty_set Z :=
  b0 ← index b o; b1 ← index b (o + 1); mret (le_val [b0; b1]).
Definition u32_at (b : list Z) (o : Z) : outcome Empty_set Z :=
  b0 ← index b o; b1 ← index b (o + 1); b2 ← index b (o + 2); b3 ← index b (o + 3); mret (le_val [b0; b1; b2; b3]).
Definition u64_at (b : list Z) (o : Z) : outcome Empty_set Z :=
  b0 ← index b o; b1 ← index b (o + 1); b2 ← index b (o + 2); b3 ← index b (o + 3);
  b4 ← index b (o + 4); b5 ← index b (o + 5); b6 ← index b (o + 6); b7 ← index b (o + 7);
  mret (le_val [b0; b1; b2; b3; b4; b5; b6; b7]).

(** [& !0xfff] *)
Definition page_down (x : Z) : Z := x & unot 64 0xfff.

(** ** The build *)

(** [Ret (None, s)] is the early return with [None]. *)
Definition M (A : Type) : Type := LState -> outcome Empty_set (option A * LState).
#[export] Instance M_ret : MRet M := fun A a s => Ret (Some a, s).
#[export] Instance M_bind : MBind M := fun A B f m s =>
  match m s with
  | Ret (Some a, s) => f a s
  | Ret (None, s) => Ret (None, s)
  | Trap e => Trap e
  | Panic => Panic
  end.
Definition fail {A} : M A := fun s => Ret (None, s).
Definition pure_m {A} (o : outcome Empty_set A) : M A := fun s => a ← o; Ret (Some a, s).
Definition read_mem : M mem := fun s => Ret (Some (l_mem s), s).
Definition poke_m (f : mem -> mem) : M unit := fun s => Ret (Some tt, poke f s).
Definition need_frame : M Z := fun s => let '(f, s) := alloc_frame s in if f =? 0 then Ret (None, s) else Ret (Some f, s).
Definition need_map (root va pa flags : Z) : M unit := fun s =>
  let '(ok, s) := map_page root va pa flags s in Ret (if ok then Some tt else None, s).
Definition each {A} (body : A -> M unit) (l : list A) : M unit := foldr (fun a k => body a ≫= fun _ => k) (mret tt) l.

(** The addresses a [while va < hi] loop in steps of a page goes through. *)
Definition pages (lo hi : Z) : list Z := (fun k => lo + FRAME_SIZE * k) <$> seqZ 0 ((hi - lo + FRAME_SIZE - 1) / FRAME_SIZE).

Section Build.
Context (checks : bool).
(** The addresses of the kernel's [L1], [VIRTIO_DMA] and [MARZ_DMA]. *)
Context (L1 VIRTIO_DMA MARZ_DMA : Z).

Section Image.
Context (img : list Z) (phoff phentsize phnum : Z).

Definition plus (a b : Z) : outcome Empty_set Z := uadd 64 checks a b.
Definition field (ph off : Z) : outcome Empty_set Z := o ← plus ph off; u64_at img o.

(** Run [body] on the program headers of type [PT_LOAD], threading [a]. *)
Definition for_loads {A} (body : Z -> A -> outcome Empty_set A) (a : A) : outcome Empty_set A :=
  foldl (fun r i => a ← r; ph ← plus phoff (i * phentsize); t ← u32_at img ph; if t =? 1 then body ph a else Ret a)
    (Ret a) (seqZ 0 phnum).

Definition page_end (ph pv : Z) : outcome Empty_set Z :=
  pm ← field ph 40; e ← plus pv pm; e ← plus e 0xfff; Ret (page_down e).

Definition load_span : outcome Empty_set (Z * Z) :=
  for_loads (fun ph '(lo, hi) => pv ← field ph 16; e ← page_end ph pv; Ret (lo `min` page_down pv, hi `max` e))
    (2 ^ 64 - 1, 0).

Definition page_flags (va : Z) : outcome Empty_set Z :=
  for_loads (fun ph fl =>
      pv ← field ph 16; e ← page_end ph pv;
      if (page_down pv <=? va) && (va <? e) then
        o ← plus ph 4; pf ← u32_at img o;
        let fl := if negb ((pf & 1) =? 0) then fl .| PTE_X else fl in
        let fl := if negb ((pf & 2) =? 0) then fl .| PTE_W else fl in
        Ret fl
      else Ret fl)
    (PTE_U .| PTE_R).

Definition map_segment_page (root va : Z) : M unit :=
  frame ← need_frame; fl ← pure_m (page_flags va); need_map root va frame fl.

Definition copy_byte (root poff pvaddr k : Z) : M unit :=
  dva ← pure_m (plus pvaddr k); m ← read_mem; src ← pure_m (plus poff k); b ← pure_m (index img src);
  poke_m (fun m' => st8 m' (wrap 64 (translate m root (page_down dva) + (dva & 0xfff))) b).

Definition copy_segment (root i : Z) : M unit :=
  ph ← pure_m (plus phoff (i * phentsize)); t ← pure_m (u32_at img ph);
  if t =? 1 then
    poff ← pure_m (field ph 8); pvaddr ← pure_m (field ph 16); pfilesz ← pure_m (field ph 32);
    each (copy_byte root poff pvaddr) (seqZ 0 pfilesz)
  else mret tt.

End Image.

Definition map_stack_page (root s : Z) : M unit :=
  frame ← need_frame; need_map root s frame (PTE_U .| PTE_R .| PTE_W).

Definition map_window (root va pa size : Z) : M unit :=
  each (fun off => need_map root (va + off) (pa + off) (PTE_U .| PTE_R .| PTE_W)) (pages 0 size).

Definition map_devices (spec : ProcessSpec) (root : Z) : M unit :=
  _ ← (if map_uart spec then need_map root DEV_UART_VA UART_BASE (PTE_U .| PTE_R .| PTE_W) else mret tt);
  _ ← (if map_virtio_blk spec && negb ((caps spec & TASK_DEVICE_VIRTIO_BLK) =? 0) then
         m ← read_mem;
         match find_virtio_mmio m VIRTIO_DEVICE_ID_BLOCK with
         | None => fail
         | Some blk_pa => need_map root DEV_VIRTIO_BLK_VA blk_pa (PTE_U .| PTE_R .| PTE_W)
         end
       else mret tt);
  _ ← (if map_virtio_net spec && negb ((caps spec & TASK_DEVICE_VIRTIO_NET) =? 0) then
         m ← read_mem;
         match find_virtio_mmio m VIRTIO_DEVICE_ID_NET with
         | None => fail
         | Some nic_pa =>
             _ ← need_map root DEV_VIRTIO_NET_VA nic_pa (PTE_U .| PTE_R .| PTE_W);
             map_window root MARZ_DMA_VA MARZ_DMA MARZ_DMA_SIZE
         end
       else mret tt);
  if map_virtio_dma spec && negb ((caps spec & (TASK_BLOCK_READ .| TASK_BLOCK_WRITE .| TASK_DEVICE_VIRTIO_NET)) =? 0)
  then map_window root VIRTIO_DMA_VA VIRTIO_DMA VIRTIO_DMA_SIZE
  else mret tt.

(** Everything after the root table: what the caller undoes on failure. *)
Definition fill_space (spec : ProcessSpec) (root : Z) : M Z :=
  let img := elf spec in
  _ ← poke_m (fun m => st64 (st64 m root (pte 0 (PTE_R .| PTE_W .| PTE_X))) (root + 8 * 2) (table_entry L1));
  entry ← pure_m (u64_at img 24); phoff ← pure_m (u64_at img 32);
  phentsize ← pure_m (u16_at img 54); phnum ← pure_m (u16_at img 56);
  '(lo, hi) ← pure_m (load_span img phoff phentsize phnum);
  _ ← each (map_segment_page img phoff phentsize phnum root) (pages lo hi);
  _ ← each (copy_segment img phoff phentsize root) (seqZ 0 phnum);
  _ ← each (map_stack_page root) (pages USER_STACK_BOTTOM USER_STACK_TOP);
  _ ← map_devices spec root;
  mret entry.

Definition set_root (root : Z) (s : LState) : LState :=
  mkL (l_pool s) (mkResources (r_kind (l_res s)) root (r_frames (l_res s))).

Definition build_address_space (spec : ProcessSpec) (kind : TaskKind) (p : Pool) : outcome Empty_set (option AddressSpaceBuild * Pool) :=
  let '(root, s) := alloc_frame (mkL p (new_resources kind)) in
  if root =? 0 then Ret (None, l_pool s)
  else
    '(r, s) ← fill_space spec root (set_root root s);
    match r with
    | None => Ret (None, fst (reclaim_resources (l_pool s) (l_res s)))
    | Some entry => Ret (Some (mkBuilt root entry (l_res s)), l_pool s)
    end.

End Build.
