(* ===== verification/LoaderTables.v ===== *)
(** * The tables a build writes, and the tree they represent

    [pt_rep] relates memory to a tree of tables: the root, one level-1 table for
    the gigabyte user programs live in, its level-0 tables and their leaves.
    [building] is the invariant of a build: the frames taken are exactly those of
    the tree and of the program's data, the rest of the pool is still free, and
    nothing outside the frames that were free at the start has been written. *)

From Stdlib Require Import ZArith Lia.
From stdpp Require Import base option numbers gmap list.
From S2P Require Import Prelude Sched Frames Paging Loader.

Record tables := mkTables { t_root : Z; t_l1 : option Z; t_l0 : gmap Z Z; t_leaf : gmap Z (Z * Z) }.

Definition table_frames (T : tables) : list Z := t_root T :: option_list (t_l1 T) ++ (map_to_list (t_l0 T)).*2.

Definition entry_of (o : option Z) : Z := match o with Some f => table_entry f | None => 0 end.
Definition leaf_word (o : option (Z * Z)) : Z := match o with Some (pa, fl) => pte pa fl | None => 0 end.

Definition set_l1 (f : Z) (T : tables) : tables := mkTables (t_root T) (Some f) (t_l0 T) (t_leaf T).
Definition add_l0 (i g : Z) (T : tables) : tables := mkTables (t_root T) (t_l1 T) (<[i := g]> (t_l0 T)) (t_leaf T).
Definition add_leaf (k : Z) (e : Z * Z) (T : tables) : tables :=
  mkTables (t_root T) (t_l1 T) (t_l0 T) (<[k := e]> (t_leaf T)).

(** The number of a page within the user gigabyte. *)
Definition page_no (va : Z) : Z := (va / 4096) mod 2 ^ 18.
Definition user_va (va : Z) : Prop := 2 ^ 30 <= va < 2 ^ 31.

Lemma vpn2_user va : user_va va -> vpn 2 va = 1.
Proof. unfold user_va. intros. rewrite vpn_div by lia. Z.to_euclidean_division_equations; lia. Qed.
Lemma vpn1_page va : vpn 1 va = page_no va / 512.
Proof. unfold page_no. rewrite vpn_div by lia. Z.to_euclidean_division_equations; lia. Qed.
Lemma vpn0_page va : vpn 0 va = page_no va mod 512.
Proof. unfold page_no. rewrite vpn_div by lia. Z.to_euclidean_division_equations; lia. Qed.
Lemma page_no_split va : vpn 1 va * 512 + vpn 0 va = page_no va.
Proof. rewrite vpn1_page, vpn0_page. Z.to_euclidean_division_equations; lia. Qed.

Section Rep.
Context (L1 : Z).

Definition root_word (T : tables) (i : Z) : Z :=
  if i =? 0 then pte 0 (PTE_R .| PTE_W .| PTE_X) else if i =? 2 then table_entry L1
  else if i =? 1 then entry_of (t_l1 T) else 0.

Record pt_rep (m : mem) (T : tables) : Prop := {
  rep_root : forall i, 0 <= i < 512 -> ld64 m (t_root T + 8 * i) = root_word T i;
  rep_l1 : forall f i, t_l1 T = Some f -> 0 <= i < 512 -> ld64 m (f + 8 * i) = entry_of (t_l0 T !! i);
  rep_l0 : forall i g j, t_l0 T !! i = Some g -> 0 <= j < 512 -> ld64 m (g + 8 * j) = leaf_word (t_leaf T !! (i * 512 + j));
  rep_none : t_l1 T = None -> t_l0 T = ∅;
  rep_leaf : forall k e, t_leaf T !! k = Some e -> is_Some (t_l0 T !! (k / 512)) }.

Lemma root_frame T : t_root T ∈ table_frames T.
Proof. by left. Qed.
Lemma l1_frame T f : t_l1 T = Some f -> f ∈ table_frames T.
Proof. intros E. unfold table_frames. rewrite E. cbn. right. by left. Qed.
Lemma l0_frame T i g : t_l0 T !! i = Some g -> g ∈ table_frames T.
Proof.
  intros E. unfold table_frames. right. apply elem_of_app. right. apply list_elem_of_fmap. exists (i, g).
  split; [done|]. by apply elem_of_map_to_list.
Qed.

(** Writes that miss the tables leave the tree alone. *)
Lemma pt_rep_only_in fs m m' T :
  pt_rep m T -> only_in fs m m' -> Forall frame_ok fs -> Forall frame_ok (table_frames T) ->
  (forall f, f ∈ table_frames T -> f ∉ fs) -> pt_rep m' T.
Proof.
  intros [H1 H2 H3 H4 H5] Ho Hfs Ht Hd. rewrite Forall_forall in Ht.
  assert (Hw : forall f i, f ∈ table_frames T -> 0 <= i < 512 -> ld64 m' (f + 8 * i) = ld64 m (f + 8 * i)).
  { intros f i Hf Hi. eapply only_in_ld64; eauto; unfold FRAME_SIZE; lia. }
  split; [..|done|done].
  - intros i Hi. rewrite Hw by (done || apply root_frame). by apply H1.
  - intros f i Hf Hi. rewrite Hw by (done || by apply l1_frame). by apply H2.
  - intros i g j Hg Hj. rewrite Hw by (done || by eapply l0_frame). by apply H3.
Qed.

(** ** The invariant of a build *)

Context (fl0 : list Z) (m0 : mem).
Context (Hnodup : NoDup fl0) (Hok : Forall frame_ok fl0).

Record building (s : LState) (T : tables) (data fl : list Z) : Prop := {
  b_pool : pool (l_pool s) fl;
  b_owned : r_frames (l_res s) ≡ₚ table_frames T ++ data;
  b_split : fl0 ≡ₚ r_frames (l_res s) ++ fl;
  b_rep : pt_rep (l_mem s) T;
  b_only : only_in fl0 m0 (l_mem s) }.

Lemma building_all s T data fl : building s T data fl -> fl0 ≡ₚ table_frames T ++ data ++ fl.
Proof. intros H. rewrite (b_split _ _ _ _ H), (b_owned _ _ _ _ H). by rewrite app_assoc. Qed.

Lemma building_nodup s T data fl : building s T data fl -> NoDup (table_frames T ++ data ++ fl).
Proof. intros H. by rewrite <- (building_all _ _ _ _ H). Qed.

Lemma building_ok s T data fl f : building s T data fl -> f ∈ table_frames T ++ data ++ fl -> frame_ok f.
Proof. intros H Hf. rewrite <- (building_all _ _ _ _ H) in Hf. rewrite Forall_forall in Hok. auto. Qed.

Lemma building_in s T data fl f : building s T data fl -> f ∈ table_frames T ++ data ++ fl -> f ∈ fl0.
Proof. intros H. by rewrite (building_all _ _ _ _ H). Qed.

(** A word or a byte written to a data frame. *)
Lemma building_data s T data fl f g :
  building s T data fl -> f ∈ data -> only_in [f] (l_mem s) (g (l_mem s)) -> building (poke g s) T data fl.
Proof.
  intros H Hf Ho. pose proof (building_nodup _ _ _ _ H) as Hn. pose proof H as [H1 H2 H3 H4 H5].
  assert (Hfs : Forall frame_ok [f]) by (apply Forall_singleton; eapply building_ok; eauto; set_solver).
  apply NoDup_app in Hn as (_ & Hd & Hn). apply NoDup_app in Hn as (_ & Hd' & _).
  split; cbn.
  - eapply pool_write; [done|exact Ho|done|]. intros x ->%list_elem_of_singleton. by apply Hd'.
  - done.
  - done.
  - eapply pt_rep_only_in; [done|exact Ho|done| |].
    + apply Forall_forall. intros x Hx. eapply building_ok; eauto. set_solver.
    + intros x Hx ->%list_elem_of_singleton. apply (Hd f Hx). set_solver.
  - eapply only_in_trans; [done|]. eapply only_in_mono; [|exact Ho].
    intros x ->%list_elem_of_singleton. eapply building_in; eauto. set_solver.
Qed.

(** Taking a frame: it joins the data frames, zeroed, or nothing changes hands. *)
Lemma alloc_frame_cases s T data fl :
  building s T data fl ->
  (exists s' fl', alloc_frame s = (0, s') /\ building s' T data fl' /\ fl' ≡ₚ fl
     /\ r_root (l_res s') = r_root (l_res s) /\ only_in fl (l_mem s) (l_mem s')
     /\ (fl = [] \/ MAX_TASK_OWNED_FRAMES <= zlen (r_frames (l_res s))))
  \/ (exists f s' fl', alloc_frame s = (f, s') /\ f <> 0 /\ building s' T (f :: data) fl' /\ fl = f :: fl'
     /\ r_root (l_res s') = r_root (l_res s) /\ only_in [f] (l_mem s) (l_mem s') /\ (forall a, in_frame f a -> l_mem s' a = 0)).
Proof.
  intros H. pose proof (building_nodup _ _ _ _ H) as Hn. pose proof H as [H1 H2 H3 H4 H5].
  unfold alloc_frame. destruct fl as [|f fl].
  { left. rewrite pool_alloc_nil by done. destruct s as [p r]. exists (mkL p r), []. split_and!; try done. by left. }
  destruct (pool_alloc _ _ _ H1) as (p' & E & Hp' & Ho & Hz). rewrite E.
  assert (Hfok : frame_ok f) by (eapply building_ok; eauto; set_solver).
  rewrite (proj2 (Z.eqb_neq _ _)) by by apply frame_ok_nonzero. unfold add_frame.
  rewrite (proj2 (Z.eqb_neq f 0)) by by apply frame_ok_nonzero. cbn [orb].
  pose proof (pool_nodup _ _ H1) as Hnf. apply NoDup_cons in Hnf as [Hnf _].
  assert (Hft : forall x, x ∈ table_frames T -> (x ∉ [f])).
  { intros x Hx ->%list_elem_of_singleton. apply NoDup_app in Hn as (_ & Hd & _). apply (Hd f Hx). set_solver. }
  assert (Htok : Forall frame_ok (table_frames T)).
  { apply Forall_forall. intros x Hx. eapply building_ok; eauto. set_solver. }
  assert (Hf0 : [f] ⊆ fl0).
  { intros x ->%list_elem_of_singleton. eapply building_in; eauto. set_solver. }
  destruct (_ <=? _) eqn:Ecap.
  - left. destruct (pool_free p' f fl Hp' Hfok Hnf) as [Hp2 Ho2].
    assert (Ho3 : only_in [f] (l_mem s) (p_mem (frame_free f p'))) by by eapply only_in_trans.
    eexists (mkL _ _), (f :: fl). split; [done|]. apply Z.leb_le in Ecap. split_and!; try done.
    + split; cbn; [done|done|done|eapply pt_rep_only_in; eauto; by apply Forall_singleton|].
      eapply only_in_trans; [done|]. by eapply only_in_mono.
    + eapply only_in_mono; [|exact Ho3]. set_solver.
    + by right.
  - right. eexists f, (mkL _ _), fl. split; [done|]. split; [by apply frame_ok_nonzero|]. split_and!; try done.
    split; cbn; [done|rewrite H2|rewrite H3; by rewrite <- app_assoc
      |eapply pt_rep_only_in; eauto; by apply Forall_singleton|].
    + rewrite <- app_assoc. by rewrite (Permutation_app_comm data [f]).
    + eapply only_in_trans; [done|]. by eapply only_in_mono.
Qed.

(** ** Linking tables into the tree *)

Lemma valid_table_entry f : negb ((table_entry f & PTE_V) =? 0) = true.
Proof. change PTE_V with (2 ^ 0). by rewrite land_bit_nonzero, table_entry_testbit by lia. Qed.

Lemma next_table_entry f : page_pa f -> next_table (table_entry f) = f.
Proof.
  intros [H1 H2]. unfold next_table. rewrite table_entry_value, shiftr_entry, Z.shiftl_mul_pow2 by lia.
  rewrite wrap_small; unfold fits; change (2 ^ 12) with 4096; Z.to_euclidean_division_equations; lia.
Qed.

Lemma next_table_pte pa fl : fits 8 fl -> page_pa pa -> next_table (pte pa fl) = pa.
Proof.
  intros Hf [H1 H2]. unfold next_table. rewrite pte_value, shiftr_entry, Z.shiftl_mul_pow2
    by (lia || done || by apply flags_small).
  rewrite wrap_small; unfold fits; change (2 ^ 12) with 4096; Z.to_euclidean_division_equations; lia.
Qed.

Lemma word_apart f g i j : frame_ok f -> frame_ok g -> f <> g -> 0 <= i < 512 -> 0 <= j < 512 ->
  f + 8 * i + 8 <= g + 8 * j \/ g + 8 * j + 8 <= f + 8 * i.
Proof. unfold frame_ok, FRAME_SIZE. intros (_ & _ & ?) (_ & _ & ?) ? ? ?. Z.to_euclidean_division_equations; lia. Qed.

(** The tree after a word [v] is written at index [i] of one of its tables. *)
Lemma rep_write m T t i v f j :
  Forall frame_ok (table_frames T) -> t ∈ table_frames T -> f ∈ table_frames T -> 0 <= i < 512 -> 0 <= j < 512 ->
  fits 64 v ->
  ld64 (st64 m (t + 8 * i) v) (f + 8 * j) = if decide (f = t /\ j = i) then v else ld64 m (f + 8 * j).
Proof.
  intros Hok' Ht Hf Hi Hj Hv. rewrite Forall_forall in Hok'. destruct (decide _) as [[-> ->]|Hne]; [by apply ld64_st64|].
  apply ld64_st64_other. destruct (decide (f = t)) as [->|Hft].
  - assert (i <> j) by naive_solver. lia.
  - destruct (word_apart f t j i); auto; lia.
Qed.

Lemma tables_distinct s T data fl : building s T data fl -> NoDup (table_frames T) /\ Forall frame_ok (table_frames T).
Proof.
  intros H. pose proof (building_nodup _ _ _ _ H) as Hn. apply NoDup_app in Hn as (Hn & _ & _). split; [done|].
  apply Forall_forall. intros f Hf. eapply building_ok; eauto. set_solver.
Qed.

Lemma l1_not_root T f : NoDup (table_frames T) -> t_l1 T = Some f -> f <> t_root T.
Proof. intros Hn E. unfold table_frames in Hn. rewrite E in Hn. cbn in Hn. apply NoDup_cons in Hn as [Hn _]. set_solver. Qed.

Lemma l0_not_upper T i g : NoDup (table_frames T) -> t_l0 T !! i = Some g -> g <> t_root T /\ t_l1 T <> Some g.
Proof.
  intros Hn E. assert (Hg : g ∈ (map_to_list (t_l0 T)).*2).
  { apply list_elem_of_fmap. exists (i, g). split; [done|]. by apply elem_of_map_to_list. }
  unfold table_frames in Hn. apply NoDup_cons in Hn as [Hn1 Hn2]. apply NoDup_app in Hn2 as (_ & Hd & _). split.
  - intros ->. apply Hn1. set_solver.
  - intros E1. rewrite E1 in Hd. apply (Hd g); [by left|done].
Qed.

Lemma l0_inj T i j g : NoDup (table_frames T) -> t_l0 T !! i = Some g -> t_l0 T !! j = Some g -> i = j.
Proof.
  intros Hn Hi Hj. unfold table_frames in Hn. apply NoDup_cons in Hn as [_ Hn]. apply NoDup_app in Hn as (_ & _ & Hn).
  apply elem_of_map_to_list in Hi, Hj. apply list_elem_of_lookup in Hi as [a Ha], Hj as [b Hb].
  assert (a = b) as ->. { eapply NoDup_lookup; [exact Hn|..]; rewrite list_lookup_fmap; by rewrite ?Ha, ?Hb. }
  congruence.
Qed.

(** Where the tree ends: a fresh zeroed frame becomes a table. *)
Definition zeroed (m : mem) (f : Z) : Prop := forall a, in_frame f a -> m a = 0.

Lemma zeroed_word m f i : zeroed m f -> 0 <= i < 512 -> ld64 m (f + 8 * i) = 0.
Proof. intros Hz Hi. apply ld64_zero. intros x Hx. apply Hz. unfold in_frame, FRAME_SIZE. lia. Qed.

(** A write to a table of the tree, whatever it does to the tree itself. *)
Lemma building_table_write s T T' data data' fl t i v :
  building s T data fl -> t ∈ table_frames T -> 0 <= i < 512 -> table_frames T ++ data ≡ₚ table_frames T' ++ data' ->
  pt_rep (st64 (l_mem s) (t + 8 * i) v) T' ->
  building (poke (fun m => st64 m (t + 8 * i) v) s) T' data' fl.
Proof.
  intros H Ht Hi Hp Hr. pose proof (building_nodup _ _ _ _ H) as Hn. pose proof H as [H1 H2 H3 H4 H5].
  assert (Ho : only_in [t] (l_mem s) (st64 (l_mem s) (t + 8 * i) v)) by (apply only_in_st64; unfold FRAME_SIZE; lia).
  split; cbn; [|by rewrite H2|done|done|].
  - eapply pool_write; [done|exact Ho|apply Forall_singleton; eapply building_ok; eauto; set_solver|].
    intros x ->%list_elem_of_singleton. apply NoDup_app in Hn as (_ & Hd & _). intros Hf. apply (Hd t Ht). set_solver.
  - eapply only_in_trans; [done|]. eapply only_in_mono; [|exact Ho].
    intros x ->%list_elem_of_singleton. eapply building_in; eauto. set_solver.
Qed.

Lemma link_l1 s T f data fl :
  building s T (f :: data) fl -> t_l1 T = None -> zeroed (l_mem s) f ->
  building (poke (fun m => st64 m (t_root T + 8 * 1) (table_entry f)) s) (set_l1 f T) data fl.
Proof.
  intros H E Hz. destruct (tables_distinct _ _ _ _ H) as [Hn Hok']. pose proof (b_rep _ _ _ _ H) as [R1 R2 R3 R4 R5].
  assert (Hf : frame_ok f) by (eapply building_ok; eauto; set_solver).
  assert (Hfr : f <> t_root T).
  { pose proof (building_nodup _ _ _ _ H) as Hn'. apply NoDup_app in Hn' as (_ & Hd & _). intros ->.
    apply (Hd (t_root T)); [apply root_frame|set_solver]. }
  assert (Hr : frame_ok (t_root T)) by (rewrite Forall_forall in Hok'; apply Hok', root_frame).
  eapply building_table_write; [exact H|apply root_frame|lia| |].
  { unfold table_frames, set_l1. cbn. rewrite E. cbn. constructor. by rewrite Permutation_middle. }
  split; cbn [t_root t_l1 t_l0 t_leaf set_l1].
  - intros i Hi. rewrite (rep_write _ T) by (done || apply root_frame || (apply table_entry_fits; by apply frame_page)).
    unfold root_word. cbn [t_l1]. destruct (decide _) as [[_ ->]|Hne]; [done|]. rewrite R1 by done. unfold root_word. rewrite E.
    destruct (i =? 0); [done|]. destruct (i =? 2); [done|]. destruct (Z.eqb_spec i 1); [naive_solver|done].
  - intros f' i [= <-] Hi. rewrite ld64_st64_other, zeroed_word by (done || (destruct (word_apart f (t_root T) i 1); auto; lia)).
    rewrite R4 by done. by rewrite lookup_empty.
  - intros i g j Hg. rewrite R4 in Hg by done. by rewrite lookup_empty in Hg.
  - done.
  - done.
Qed.

Lemma link_l0 s T f i g data fl :
  building s T (g :: data) fl -> t_l1 T = Some f -> t_l0 T !! i = None -> zeroed (l_mem s) g -> 0 <= i < 512 ->
  building (poke (fun m => st64 m (f + 8 * i) (table_entry g)) s) (add_l0 i g T) data fl.
Proof.
  intros H E Ei Hz Hi. destruct (tables_distinct _ _ _ _ H) as [Hn Hok']. pose proof (b_rep _ _ _ _ H) as [R1 R2 R3 R4 R5].
  assert (Hg : frame_ok g) by (eapply building_ok; eauto; set_solver).
  assert (Hgt : g ∉ table_frames T).
  { pose proof (building_nodup _ _ _ _ H) as Hn'. apply NoDup_app in Hn' as (_ & Hd & _). intros Hc. apply (Hd g Hc). set_solver. }
  assert (Hf : f ∈ table_frames T) by by apply l1_frame.
  assert (Hfok : frame_ok f) by (rewrite Forall_forall in Hok'; auto).
  assert (Hfg : g <> f) by (intros ->; done).
  assert (Hv : fits 64 (table_entry g)) by (apply table_entry_fits; by apply frame_page).
  eapply building_table_write; [exact H|exact Hf|done| |].
  { unfold table_frames, add_l0. cbn. rewrite map_to_list_insert by done. cbn. constructor. rewrite <- !app_assoc.
    apply Permutation_app_head. cbn. by rewrite Permutation_middle. }
  split; cbn [t_root t_l1 t_l0 t_leaf add_l0].
  - intros j Hj. rewrite (rep_write _ T) by (done || apply root_frame).
    destruct (decide _) as [[Hc _]|_]; [by destruct (l1_not_root T f)|]. by rewrite R1.
  - intros f' j E' Hj. assert (f' = f) as -> by congruence. rewrite (rep_write _ T) by done.
    destruct (decide _) as [[_ ->]|Hne]; [by rewrite lookup_insert_eq|].
    rewrite lookup_insert_ne by naive_solver. by apply R2.
  - intros j h k Hh Hk. destruct (decide (j = i)) as [->|Hji].
    + rewrite lookup_insert_eq in Hh. injection Hh as <-.
      rewrite ld64_st64_other, zeroed_word by (done || (destruct (word_apart g f k i); auto; lia)).
      destruct (t_leaf T !! (i * 512 + k)) as [e|] eqn:El; [|done]. apply R5 in El as [x Hx].
      rewrite Z.div_add_l, Z.div_small, Z.add_0_r in Hx by lia. congruence.
    + rewrite lookup_insert_ne in Hh by done. rewrite (rep_write _ T) by (done || by eapply l0_frame).
      destruct (decide _) as [[-> _]|_]; [|by apply R3]. by destruct (l0_not_upper T j f).
  - congruence.
  - intros k e Hk. destruct (R5 k e Hk) as [x Hx]. destruct (decide (k / 512 = i)) as [Hk'|Hne]; [rewrite Hk' in Hx; congruence|].
    rewrite lookup_insert_ne by done. eauto.
Qed.

Lemma link_leaf s T i g j pa flags data fl :
  building s T data fl -> t_l0 T !! i = Some g -> 0 <= j < 512 -> fits 8 flags -> page_pa pa ->
  building (poke (fun m => st64 m (g + 8 * j) (pte pa flags)) s) (add_leaf (i * 512 + j) (pa, flags) T) data fl.
Proof.
  intros H Ei Hj Hfl Hpa. destruct (tables_distinct _ _ _ _ H) as [Hn Hok']. pose proof (b_rep _ _ _ _ H) as [R1 R2 R3 R4 R5].
  destruct (l0_not_upper T i g Hn Ei) as [Hg1 Hg2]. assert (Hg : g ∈ table_frames T) by by eapply l0_frame.
  assert (Hv : fits 64 (pte pa flags)) by by apply pte_fits.
  eapply building_table_write; [exact H|exact Hg|done|done|].
  split; cbn [t_root t_l1 t_l0 t_leaf add_leaf].
  - intros k Hk. rewrite (rep_write _ T) by (done || apply root_frame).
    destruct (decide _) as [[Hc _]|_]; [congruence|]. by rewrite R1.
  - intros f k E' Hk. rewrite (rep_write _ T) by (done || by apply l1_frame).
    destruct (decide _) as [[-> _]|Hne]; [congruence|]. by apply R2.
  - intros i' h k Hh Hk. rewrite (rep_write _ T) by (done || by eapply l0_frame). destruct (decide _) as [[-> ->]|Hne].
    + assert (i' = i) as -> by by eapply l0_inj. by rewrite lookup_insert_eq.
    + rewrite (R3 i' h k) by done. rewrite lookup_insert_ne; [done|]. intros E. apply Hne.
      assert (i' = i) as -> by lia. split; [congruence|lia].
  - done.
  - intros k e. destruct (decide (k = i * 512 + j)) as [->|Hne].
    + intros _. rewrite Z.div_add_l, Z.div_small, Z.add_0_r by lia. eauto.
    + rewrite lookup_insert_ne by done. apply R5.
Qed.

(** ** [walk_alloc] and [map_page] on a tree *)

(** What a step of the build keeps: the kind of state, the root, and every data
    byte already written. *)
Record keeps (s s' : LState) (data : list Z) : Prop := {
  k_root : r_root (l_res s') = r_root (l_res s);
  k_data : forall f a, f ∈ data -> in_frame f a -> l_mem s' a = l_mem s a }.

Lemma keeps_refl s data : keeps s s data.
Proof. by split. Qed.
Lemma keeps_trans s1 s2 s3 data : keeps s1 s2 data -> keeps s2 s3 data -> keeps s1 s3 data.
Proof. intros [A1 A2] [B1 B2]. split; [congruence|]. intros f a Hf Ha. rewrite (B2 f a), (A2 f a); done. Qed.
Lemma keeps_mono s s' data data' : data ⊆ data' -> keeps s s' data' -> keeps s s' data.
Proof. intros Hs [A1 A2]. split; [done|]. intros f a Hf Ha. eapply A2; eauto. Qed.

Lemma keeps_table s T data fl t i v :
  building s T data fl -> t ∈ table_frames T -> 0 <= i < 512 -> keeps s (poke (fun m => st64 m (t + 8 * i) v) s) data.
Proof.
  intros H Ht Hi. split; [done|]. intros f a Hf Ha. cbn. apply st64_other. intros Hc.
  pose proof (building_nodup _ _ _ _ H) as Hn. apply NoDup_app in Hn as (_ & Hd & _). apply (Hd t Ht).
  assert (f = t) as ->; [|set_solver]. apply (same_frame f t a); [..|done|unfold in_frame, FRAME_SIZE; lia];
    (eapply building_ok; eauto; set_solver).
Qed.

(** A free frame being taken (or taken and given back) leaves the data frames alone. *)
Lemma keeps_alloc s s' T data fl fs :
  building s T data fl -> fs ⊆ fl -> only_in fs (l_mem s) (l_mem s') -> r_root (l_res s') = r_root (l_res s) -> keeps s s' data.
Proof.
  intros H Hfs Ho Hr. split; [done|]. intros f a Hf Ha.
  pose proof (building_nodup _ _ _ _ H) as Hn. apply NoDup_app in Hn as (_ & _ & Hn). apply NoDup_app in Hn as (_ & Hd & _).
  eapply (only_in_byte fs); [exact Ho| | | |exact Ha].
  - apply Forall_forall. intros x Hx. eapply building_ok; eauto. set_solver.
  - eapply building_ok; eauto. set_solver.
  - intros Hc. apply (Hd f Hf). auto.
Qed.

(** One level down: the table at the index, there or made. *)
Lemma walk_l1 s T data fl :
  building s T data fl -> r_root (l_res s) = t_root T ->
  exists o s' T' fl', walk_alloc (t_root T) 1 s = (o, s') /\ building s' T' data fl' /\ keeps s s' data
    /\ t_root T' = t_root T /\ t_leaf T' = t_leaf T
    /\ match o with
       | Some f => t_l1 T' = Some f
       | None => fl = [] \/ MAX_TASK_OWNED_FRAMES <= zlen (r_frames (l_res s))
       end.
Proof.
  intros H Hroot. unfold walk_alloc. rewrite (rep_root _ _ (b_rep _ _ _ _ H)) by lia. change (root_word T 1) with (entry_of (t_l1 T)).
  destruct (t_l1 T) as [f|] eqn:E; cbn [entry_of].
  - rewrite valid_table_entry, next_table_entry.
    2: { apply frame_page. eapply building_ok; eauto. apply elem_of_app. left. by apply l1_frame. }
    exists (Some f), s, T, fl. split_and!; auto using keeps_refl.
  - cbn [negb Z.eqb Z.land]. destruct (alloc_frame_cases _ _ _ _ H)
      as [(s' & fl' & Ea & H' & Hp & Hr & Ho & Hwhy)|(f & s' & fl' & Ea & Hf & H' & Efl & Hr & Ho & Hz)]; rewrite Ea.
    + exists None, s', T, fl'. split_and!; auto. by apply (keeps_alloc s s' T data fl fl).
    + rewrite (proj2 (Z.eqb_neq f 0)) by done. eexists (Some f), _, (set_l1 f T), fl'. split_and!; auto.
      * by apply link_l1.
      * apply keeps_trans with s'; [apply (keeps_alloc s s' T data fl [f]); [done|rewrite Efl; set_solver|done|done]|].
        eapply keeps_mono; [|eapply keeps_table; [exact H'|apply root_frame|lia]]. set_solver.
Qed.

Lemma walk_l0 s T data fl f i :
  building s T data fl -> t_l1 T = Some f -> 0 <= i < 512 ->
  exists o s' T' fl', walk_alloc f i s = (o, s') /\ building s' T' data fl' /\ keeps s s' data
    /\ t_root T' = t_root T /\ t_leaf T' = t_leaf T
    /\ match o with
       | Some g => t_l0 T' !! i = Some g
       | None => fl = [] \/ MAX_TASK_OWNED_FRAMES <= zlen (r_frames (l_res s))
       end.
Proof.
  intros H E1 Hi. unfold walk_alloc. rewrite (rep_l1 _ _ (b_rep _ _ _ _ H) f i) by done.
  destruct (t_l0 T !! i) as [g|] eqn:E; cbn [entry_of].
  - rewrite valid_table_entry, next_table_entry.
    2: { apply frame_page. eapply building_ok; eauto. apply elem_of_app. left. by eapply l0_frame. }
    exists (Some g), s, T, fl. split_and!; auto using keeps_refl.
  - cbn [negb Z.eqb Z.land]. destruct (alloc_frame_cases _ _ _ _ H)
      as [(s' & fl' & Ea & H' & Hp & Hr & Ho & Hwhy)|(g & s' & fl' & Ea & Hf & H' & Efl & Hr & Ho & Hz)]; rewrite Ea.
    + exists None, s', T, fl'. split_and!; auto. by apply (keeps_alloc s s' T data fl fl).
    + rewrite (proj2 (Z.eqb_neq g 0)) by done. eexists (Some g), _, (add_l0 i g T), fl'. split_and!; auto.
      * by apply link_l0.
      * apply keeps_trans with s'; [apply (keeps_alloc s s' T data fl [g]); [done|rewrite Efl; set_solver|done|done]|].
        eapply keeps_mono; [|eapply keeps_table; [exact H'|by apply l1_frame|lia]]. set_solver.
      * cbn. by rewrite lookup_insert_eq.
Qed.

(** Mapping one page of the user gigabyte adds exactly its leaf. *)
Lemma map_page_ok s T data fl va pa flags :
  building s T data fl -> r_root (l_res s) = t_root T -> user_va va -> fits 8 flags -> page_pa pa ->
  exists ok s' T' fl', map_page (t_root T) va pa flags s = (ok, s') /\ building s' T' data fl' /\ keeps s s' data
    /\ t_root T' = t_root T /\ t_leaf T' = (if ok : bool then <[page_no va := (pa, flags)]> (t_leaf T) else t_leaf T).
Proof.
  intros H Hroot Hva Hfl Hpa. unfold map_page. rewrite vpn2_user by done.
  destruct (walk_l1 s T data fl H Hroot) as (o & s1 & T1 & fl1 & E1 & H1 & K1 & R1 & L1' & C1). rewrite E1.
  destruct o as [f|]; [|exists false, s1, T1, fl1; split_and!; done].
  destruct (walk_l0 s1 T1 data fl1 f (vpn 1 va) H1 C1) as (o & s2 & T2 & fl2 & E2 & H2 & K2 & R2 & L2 & C2);
    [apply vpn_range|]. rewrite E2.
  destruct o as [g|].
  2: { exists false, s2, T2, fl2. split_and!; try done; try congruence. by eapply keeps_trans. }
  eexists true, _, (add_leaf (vpn 1 va * 512 + vpn 0 va) (pa, flags) T2), fl2. split; [done|]. split_and!.
  - apply link_leaf; auto. apply vpn_range.
  - eapply keeps_trans; [exact K1|]. eapply keeps_trans; [exact K2|].
    eapply keeps_table; [exact H2|by eapply l0_frame|apply vpn_range].
  - cbn. congruence.
  - cbn. rewrite page_no_split. congruence.
Qed.

End Rep.
