(* ===== verification/LoaderImage.v ===== *)
(** * What the loader reads of a program image

    [segments] is the list of loadable segments an image describes and [elf_ok]
    the images the loader is meant for: headers and segment bytes inside the
    image, segments inside the user gigabyte below the stack.  On such an image
    every read of [build_address_space] succeeds without overflow, whatever the
    build profile, and yields the span, the page permissions and the bytes
    computed here from the segments. *)

From Stdlib Require Import ZArith Lia.
From stdpp Require Import base option numbers sets list.
From S2P Require Import Prelude Sched Frames Paging Loader.

Definition rd (n : nat) (img : list Z) (o : Z) : Z := le_val (slice img (Z.to_nat o) n).

Record Seg := mkSeg { s_flags : Z; s_off : Z; s_vaddr : Z; s_filesz : Z; s_memsz : Z }.

Definition headers (img : list Z) : list Z := (fun i => rd 8 img 32 + i * rd 2 img 54) <$> seqZ 0 (rd 2 img 56).
Definition load_headers (img : list Z) : list Z := filter (fun ph => rd 4 img ph = 1) (headers img).
Definition seg_at (img : list Z) (ph : Z) : Seg :=
  mkSeg (rd 4 img (ph + 4)) (rd 8 img (ph + 8)) (rd 8 img (ph + 16)) (rd 8 img (ph + 32)) (rd 8 img (ph + 40)).
Definition segments (img : list Z) : list Seg := seg_at img <$> load_headers img.

Definition seg_ok (img : list Z) (s : Seg) : bool :=
  (s_off s + s_filesz s <=? zlen img) && (s_filesz s <=? s_memsz s) && (2 ^ 30 <=? s_vaddr s)
  && (s_vaddr s + s_memsz s <=? USER_STACK_BOTTOM).

Definition elf_ok (img : list Z) : bool :=
  bytes_okb img && (64 <=? zlen img) && (zlen img <? 2 ^ 63) && forallb (fun ph => ph + 56 <=? zlen img) (headers img)
  && forallb (seg_ok img) (segments img).

(** ** What the build makes of the segments *)

Definition seg_lo (s : Seg) : Z := page_down (s_vaddr s).
Definition seg_hi (s : Seg) : Z := page_down (s_vaddr s + s_memsz s + 0xfff).
Definition seg_covers (va : Z) (s : Seg) : bool := (seg_lo s <=? va) && (va <? seg_hi s).

Definition span (segs : list Seg) : Z * Z :=
  foldl (fun '(lo, hi) s => (lo `min` seg_lo s, hi `max` seg_hi s)) (2 ^ 64 - 1, 0) segs.

Definition add_flags (va fl : Z) (s : Seg) : Z :=
  if seg_covers va s then
    let fl := if negb ((s_flags s & 1) =? 0) then fl .| PTE_X else fl in
    if negb ((s_flags s & 2) =? 0) then fl .| PTE_W else fl
  else fl.
Definition flags_at (segs : list Seg) (va : Z) : Z := foldl (add_flags va) (PTE_U .| PTE_R) segs.

(** The bytes of the program: later segments over earlier ones, zero elsewhere. *)
Definition load_upto (img : list Z) (s : Seg) (k : Z) (c : Z -> Z) (va : Z) : Z :=
  if (s_vaddr s <=? va) && (va <? s_vaddr s + k) then nth (Z.to_nat (s_off s + (va - s_vaddr s))) img 0 else c va.
Definition image_byte (img : list Z) (va : Z) : Z :=
  foldl (fun c s => load_upto img s (s_filesz s) c) (fun _ => 0) (segments img) va.

(** ** Reads *)

Lemma slice_lookup (img : list Z) o n k :
  0 <= o -> o + Z.of_nat n <= zlen img -> (k < n)%nat -> slice img (Z.to_nat o) n !! k = img !! Z.to_nat (o + Z.of_nat k).
Proof.
  unfold zlen. intros Ho Hn Hk. unfold slice. rewrite lookup_take_lt by done. rewrite lookup_drop. f_equal. lia.
Qed.

Lemma index_slice (img : list Z) o n k x :
  0 <= o -> o + Z.of_nat n <= zlen img -> (k < n)%nat -> slice img (Z.to_nat o) n !! k = Some x ->
  index (E:=Empty_set) img (o + Z.of_nat k) = Ret x.
Proof.
  intros Ho Hn Hk E. rewrite slice_lookup in E by done. unfold index. rewrite (proj2 (Z.leb_le _ _)) by lia. by rewrite E.
Qed.

Lemma slice_length_in (img : list Z) o n : 0 <= o -> o + Z.of_nat n <= zlen img -> length (slice img (Z.to_nat o) n) = n.
Proof. unfold zlen. intros. apply length_slice. lia. Qed.

Ltac read_byte I k b :=
  let H := fresh in
  pose proof (I k b ltac:(lia) eq_refl) as H;
  let z := eval compute in (Z.of_nat k) in change (Z.of_nat k) with z in H; rewrite ?Z.add_0_r in H;
  rewrite H; clear H.

Lemma u16_at_rd img o : 0 <= o -> o + 2 <= zlen img -> u16_at img o = Ret (rd 2 img o).
Proof.
  intros Ho Hn. pose proof (slice_length_in img o 2 Ho Hn) as L. unfold rd.
  pose proof (fun k x => index_slice img o 2 k x Ho Hn) as I.
  destruct (slice img (Z.to_nat o) 2) as [|b0 [|b1 [|]]]; try discriminate L. unfold u16_at.
  read_byte I 0%nat b0. read_byte I 1%nat b1. reflexivity.
Qed.

Lemma u32_at_rd img o : 0 <= o -> o + 4 <= zlen img -> u32_at img o = Ret (rd 4 img o).
Proof.
  intros Ho Hn. pose proof (slice_length_in img o 4 Ho Hn) as L. unfold rd.
  pose proof (fun k x => index_slice img o 4 k x Ho Hn) as I.
  destruct (slice img (Z.to_nat o) 4) as [|b0 [|b1 [|b2 [|b3 [|]]]]]; try discriminate L. unfold u32_at.
  read_byte I 0%nat b0. read_byte I 1%nat b1. read_byte I 2%nat b2. read_byte I 3%nat b3. reflexivity.
Qed.

Lemma u64_at_rd img o : 0 <= o -> o + 8 <= zlen img -> u64_at img o = Ret (rd 8 img o).
Proof.
  intros Ho Hn. pose proof (slice_length_in img o 8 Ho Hn) as L. unfold rd.
  pose proof (fun k x => index_slice img o 8 k x Ho Hn) as I.
  destruct (slice img (Z.to_nat o) 8) as [|b0 [|b1 [|b2 [|b3 [|b4 [|b5 [|b6 [|b7 [|]]]]]]]]]; try discriminate L. unfold u64_at.
  read_byte I 0%nat b0. read_byte I 1%nat b1. read_byte I 2%nat b2. read_byte I 3%nat b3. read_byte I 4%nat b4. read_byte I 5%nat b5. read_byte I 6%nat b6. read_byte I 7%nat b7. reflexivity.
Qed.

Lemma rd_fits n img o : bytes_ok img -> 0 <= o -> o + Z.of_nat n <= zlen img -> fits (8 * Z.of_nat n) (rd n img o).
Proof.
  intros Hb Ho Hn. unfold rd. rewrite <- (slice_length_in img o n Ho Hn) at 1. apply le_val_fits.
  unfold slice. by apply Forall_take, Forall_drop.
Qed.

Lemma page_down_value x : fits 64 x -> page_down x = 4096 * (x / 4096).
Proof.
  intros Hx. unfold page_down. rewrite land_unot by (lia || done). change 0xfff with (Z.ones 12).
  rewrite Z.ldiff_ones_r, Z.shiftl_mul_pow2, Z.shiftr_div_pow2 by lia. change (2 ^ 12) with 4096. lia.
Qed.

(** ** Well-formed images *)

Section Good.
Context (checks : bool) (img : list Z) (Hgood : elf_ok img = true).

Lemma good_bytes : bytes_ok img /\ 64 <= zlen img < 2 ^ 63.
Proof.
  pose proof Hgood as H. unfold elf_ok in H. bool_to_prop. split; [by apply bytes_okb_spec|lia].
Qed.

Lemma good_header ph : ph ∈ headers img -> 0 <= ph /\ ph + 56 <= zlen img.
Proof.
  intros Hin. destruct good_bytes as [Hb Hl]. pose proof Hgood as H. unfold elf_ok in H. bool_to_prop. split.
  - unfold headers in Hin. apply list_elem_of_fmap in Hin as (i & -> & Hi). apply elem_of_seqZ in Hi.
    destruct (rd_fits 8 img 32 Hb ltac:(lia) ltac:(lia)), (rd_fits 2 img 54 Hb ltac:(lia) ltac:(lia)). nia.
  - match goal with H : forallb (fun ph => _ <=? _) _ = true |- _ =>
      rewrite forallb_forall in H; specialize (H ph) end.
    apply Z.leb_le. match goal with H : In ph _ -> _ |- _ => apply H end. by apply list_elem_of_In.
Qed.

Lemma load_header ph : ph ∈ load_headers img -> ph ∈ headers img /\ rd 4 img ph = 1.
Proof. unfold load_headers. rewrite list_elem_of_filter. tauto. Qed.

Record seg_good (s : Seg) : Prop := {
  sg_off : 0 <= s_off s;
  sg_file : s_off s + s_filesz s <= zlen img;
  sg_size : 0 <= s_filesz s <= s_memsz s;
  sg_lo : 2 ^ 30 <= s_vaddr s;
  sg_hi : s_vaddr s + s_memsz s <= USER_STACK_BOTTOM }.

Lemma good_seg s : s ∈ segments img -> seg_good s.
Proof.
  intros Hin. destruct good_bytes as [Hb Hl]. pose proof Hgood as H. unfold elf_ok in H. bool_to_prop.
  match goal with H : forallb (seg_ok img) _ = true |- _ => rewrite forallb_forall in H; specialize (H s); rename H into Hs end.
  assert (Hok : seg_ok img s = true) by (apply Hs, list_elem_of_In, Hin). unfold seg_ok in Hok. bool_to_prop.
  unfold segments in Hin. apply list_elem_of_fmap in Hin as (ph & -> & Hph). apply load_header in Hph as [Hph _].
  apply good_header in Hph as [P1 P2]. cbn [s_off s_filesz s_memsz s_vaddr seg_at] in *.
  destruct (rd_fits 8 img (ph + 8) Hb ltac:(lia) ltac:(lia)), (rd_fits 8 img (ph + 32) Hb ltac:(lia) ltac:(lia)).
  split; cbn; lia.
Qed.

Lemma for_loads_ok {A} (body : Z -> A -> outcome Empty_set A) (step : A -> Seg -> A) a :
  (forall ph a, ph ∈ load_headers img -> body ph a = Ret (step a (seg_at img ph))) ->
  for_loads checks img (rd 8 img 32) (rd 2 img 54) (rd 2 img 56) body a = Ret (foldl step a (segments img)).
Proof.
  intros Hbody. unfold for_loads, segments, load_headers.
  assert (Hall : forall ph, ph ∈ headers img -> 0 <= ph /\ ph + 56 <= zlen img) by exact good_header.
  assert (Hb : forall ph a, ph ∈ headers img -> rd 4 img ph = 1 -> body ph a = Ret (step a (seg_at img ph))).
  { intros ph b Hin E. apply Hbody. unfold load_headers. by rewrite list_elem_of_filter. }
  clear Hbody. unfold headers in *. revert a Hall Hb. induction (seqZ 0 (rd 2 img 56)) as [|i l IH]; intros a Hall Hb; [done|].
  cbn [foldl fmap list_fmap]. set (ph := rd 8 img 32 + i * rd 2 img 54) in *.
  destruct (Hall ph) as [P1 P2]; [by left|]. destruct good_bytes as [_ Hl].
  assert (E : forall a, (a0 ← Ret a; ph ← plus checks (rd 8 img 32) (i * rd 2 img 54); t ← u32_at img ph;
      if t =? 1 then body ph a0 else Ret a0) = (if rd 4 img ph =? 1 then body ph a else Ret a)).
  { intros b. cbn. unfold plus. rewrite uadd_small by (fold ph; lia). cbn. fold ph. by rewrite u32_at_rd by lia. }
  rewrite E. assert (Hrest : forall ph0, ph0 ∈ ((fun i => rd 8 img 32 + i * rd 2 img 54) <$> l) -> 0 <= ph0 /\ ph0 + 56 <= zlen img).
  { intros p Hp. apply Hall. by right. }
  destruct (Z.eqb_spec (rd 4 img ph) 1) as [E1|E1].
  - rewrite filter_cons_True by done. cbn [fmap list_fmap foldl]. rewrite Hb by (done || by left). apply IH; [done|].
    intros p b Hp. apply Hb. by right.
  - rewrite filter_cons_False by done. apply IH; [done|]. intros p b Hp. apply Hb. by right.
Qed.

Lemma field_ok ph off : ph ∈ load_headers img -> 0 <= off -> off + 8 <= 56 -> field checks img ph off = Ret (rd 8 img (ph + off)).
Proof.
  intros Hin H1 H2. apply load_header in Hin as [Hin _]. apply good_header in Hin as [P1 P2]. destruct good_bytes as [_ Hl].
  unfold field, plus. rewrite uadd_small by lia. cbn. apply u64_at_rd; lia.
Qed.

Lemma seg_mem ph : ph ∈ load_headers img -> seg_at img ph ∈ segments img.
Proof. intros H. unfold segments. by apply list_elem_of_fmap_2. Qed.

Lemma page_end_ok ph : ph ∈ load_headers img -> page_end checks img ph (rd 8 img (ph + 16)) = Ret (seg_hi (seg_at img ph)).
Proof.
  intros Hin. pose proof (good_seg _ (seg_mem ph Hin)) as [_ _ ? ? H]. cbn in *. unfold page_end. rewrite field_ok by (done || lia). cbn.
  unfold plus, USER_STACK_BOTTOM in *. rewrite uadd_small by lia. cbn. rewrite uadd_small by lia. done.
Qed.

Lemma load_span_ok : load_span checks img (rd 8 img 32) (rd 2 img 54) (rd 2 img 56) = Ret (span (segments img)).
Proof.
  unfold load_span. erewrite for_loads_ok; [reflexivity|]. intros ph [lo hi] Hin.
  rewrite field_ok by (done || lia). cbn. rewrite page_end_ok by done. reflexivity.
Qed.

Lemma page_flags_ok va : page_flags checks img (rd 8 img 32) (rd 2 img 54) (rd 2 img 56) va = Ret (flags_at (segments img) va).
Proof.
  unfold page_flags. erewrite for_loads_ok; [reflexivity|]. intros ph fl Hin. rewrite field_ok by (done || lia). cbn.
  rewrite page_end_ok by done. cbn. unfold add_flags, seg_covers, seg_lo. cbn [s_vaddr seg_at].
  destruct ((page_down _ <=? va) && _); [|done]. pose proof (load_header ph Hin) as [Hh _].
  apply good_header in Hh as [P1 P2]. destruct good_bytes as [_ Hl].
  unfold plus. rewrite uadd_small by lia. cbn. rewrite u32_at_rd by lia. reflexivity.
Qed.

(** ** Span and permissions *)

Lemma pages_elem lo hi va : lo mod 4096 = 0 -> va ∈ pages lo hi <-> (lo <= va < hi /\ va mod 4096 = 0).
Proof.
  intros Hlo. unfold pages. rewrite list_elem_of_fmap. unfold FRAME_SIZE. split.
  - intros (k & -> & Hk). apply elem_of_seqZ in Hk. Z.to_euclidean_division_equations; lia.
  - intros H. exists ((va - lo) / 4096). rewrite elem_of_seqZ. Z.to_euclidean_division_equations; lia.
Qed.

Lemma pages_nodup lo hi : NoDup (pages lo hi).
Proof. apply NoDup_fmap_2_strong; [|apply NoDup_seqZ]. unfold FRAME_SIZE. intros; lia. Qed.

Lemma seg_bounds s : s ∈ segments img ->
  2 ^ 30 <= seg_lo s /\ seg_hi s <= USER_STACK_BOTTOM /\ seg_lo s mod 4096 = 0 /\ seg_hi s mod 4096 = 0
  /\ seg_lo s <= s_vaddr s /\ s_vaddr s + s_memsz s <= seg_hi s.
Proof.
  intros Hs. apply good_seg in Hs as [? ? ? H1 H2]. unfold seg_lo, seg_hi, USER_STACK_BOTTOM in *.
  rewrite !page_down_value by (unfold fits; lia). Z.to_euclidean_division_equations; lia.
Qed.

Lemma span_fold segs : (forall s, s ∈ segs -> s ∈ segments img) -> forall lo hi,
  let r := foldl (fun '(lo, hi) s => (lo `min` seg_lo s, hi `max` seg_hi s)) (lo, hi) segs in
  r.1 <= lo /\ hi <= r.2 /\ (forall s, s ∈ segs -> r.1 <= seg_lo s /\ seg_hi s <= r.2)
  /\ (r.1 = lo \/ exists s, s ∈ segs /\ r.1 = seg_lo s) /\ (r.2 = hi \/ exists s, s ∈ segs /\ r.2 = seg_hi s).
Proof.
  intros Hsub. induction segs as [|t segs IH]; intros lo hi; cbn.
  { split_and!; try lia; auto. intros s Hs. by apply elem_of_nil in Hs. }
  destruct (IH (fun s Hs => Hsub s (list_elem_of_further _ _ _ Hs)) (lo `min` seg_lo t) (hi `max` seg_hi t)) as (A & B & C & D & F).
  split_and!; try lia.
  - intros s [->|Hs]%elem_of_cons; [lia|]. by apply C.
  - destruct D as [->|(s & Hs & ->)]; [|right; exists s; set_solver].
    destruct (Z.min_spec lo (seg_lo t)) as [[_ ->]|[_ ->]]; [by left|right; exists t; set_solver].
  - destruct F as [->|(s & Hs & ->)]; [|right; exists s; set_solver].
    destruct (Z.max_spec hi (seg_hi t)) as [[_ ->]|[_ ->]]; [right; exists t; set_solver|by left].
Qed.

Definition image_pages : list Z := pages (span (segments img)).1 (span (segments img)).2.

(** The pages mapped for the image lie between the base and the stack, and every
    byte of a segment has its page among them. *)
Lemma image_pages_range va : va ∈ image_pages -> 2 ^ 30 <= va /\ va + 4096 <= USER_STACK_BOTTOM /\ va mod 4096 = 0.
Proof.
  unfold image_pages, span. pose proof (span_fold (segments img) ltac:(done) (2 ^ 64 - 1) 0) as H. cbn zeta in H.
  destruct (foldl _ _ _) as [lo hi]. cbn [fst snd] in *. destruct H as (_ & _ & H3 & H4 & H5).
  destruct H4 as [->|(s & Hs & ->)].
  { intros Hin. unfold pages in Hin. apply list_elem_of_fmap in Hin as (k & -> & Hk). apply elem_of_seqZ in Hk.
    unfold FRAME_SIZE in *. destruct H5 as [->|(t & Ht & ->)]; [Z.to_euclidean_division_equations; lia|].
    pose proof (seg_bounds t Ht). unfold USER_STACK_BOTTOM in *. Z.to_euclidean_division_equations; lia. }
  pose proof (seg_bounds s Hs). rewrite pages_elem by lia. intros [Hva Hal].
  destruct H5 as [->|(t & Ht & ->)]; [lia|]. pose proof (seg_bounds t Ht). unfold USER_STACK_BOTTOM in *.
  Z.to_euclidean_division_equations; lia.
Qed.

Lemma image_pages_cover s va : s ∈ segments img -> s_vaddr s <= va < s_vaddr s + s_memsz s -> page_down va ∈ image_pages.
Proof.
  intros Hs Hva. pose proof (seg_bounds s Hs) as B. pose proof (good_seg s Hs) as [? ? ? ? G].
  unfold image_pages, span. pose proof (span_fold (segments img) ltac:(done) (2 ^ 64 - 1) 0) as H. cbn zeta in H.
  destruct (foldl _ _ _) as [lo hi]. cbn [fst snd] in *. destruct H as (_ & _ & H3 & H4 & H5).
  specialize (H3 s Hs). unfold USER_STACK_BOTTOM in *. rewrite page_down_value by (unfold fits; lia).
  destruct H4 as [->|(t & Ht & ->)]; [lia|]. pose proof (seg_bounds t Ht).
  apply pages_elem; [lia|]. Z.to_euclidean_division_equations; lia.
Qed.

Lemma add_flags_bits va fl s :
  fits 8 fl -> fits 8 (add_flags va fl s)
  /\ Z.testbit (add_flags va fl s) 1 = Z.testbit fl 1 /\ Z.testbit (add_flags va fl s) 4 = Z.testbit fl 4
  /\ Z.testbit (add_flags va fl s) 2 = Z.testbit fl 2 || (seg_covers va s && Z.testbit (s_flags s) 1)
  /\ Z.testbit (add_flags va fl s) 3 = Z.testbit fl 3 || (seg_covers va s && Z.testbit (s_flags s) 0).
Proof.
  intros Hf. unfold add_flags. change (s_flags s & 1) with (s_flags s & 2 ^ 0). change (s_flags s & 2) with (s_flags s & 2 ^ 1).
  rewrite !land_bit_nonzero by lia. change PTE_X with 8. change PTE_W with 4.
  assert (H8 : fits 8 8) by by apply fitsb_spec. assert (H4 : fits 8 4) by by apply fitsb_spec.
  destruct (seg_covers va s), (Z.testbit (s_flags s) 0), (Z.testbit (s_flags s) 1); cbn [andb];
    rewrite ?Z.lor_spec; cbn [Z.testbit]; rewrite ?orb_false_r, ?orb_true_r; split_and!; auto using lor_fits with lia.
  all: repeat apply lor_fits; done || lia.
Qed.

(** A page is readable and in user reach; it is executable, or writable, exactly
    when a segment covering it is. *)
Lemma flags_at_bits va : let fl := flags_at (segments img) va in
  fits 8 fl /\ Z.testbit fl 1 = true /\ Z.testbit fl 4 = true
  /\ Z.testbit fl 2 = existsb (fun s => seg_covers va s && Z.testbit (s_flags s) 1) (segments img)
  /\ Z.testbit fl 3 = existsb (fun s => seg_covers va s && Z.testbit (s_flags s) 0) (segments img).
Proof.
  cbn zeta. unfold flags_at. change (PTE_U .| PTE_R) with 18.
  assert (G : forall segs fl, fits 8 fl -> let r := foldl (add_flags va) fl segs in
    fits 8 r /\ Z.testbit r 1 = Z.testbit fl 1 /\ Z.testbit r 4 = Z.testbit fl 4
    /\ Z.testbit r 2 = Z.testbit fl 2 || existsb (fun s => seg_covers va s && Z.testbit (s_flags s) 1) segs
    /\ Z.testbit r 3 = Z.testbit fl 3 || existsb (fun s => seg_covers va s && Z.testbit (s_flags s) 0) segs).
  { induction segs as [|s segs IH]; intros fl Hf; cbn [foldl existsb]; cbv zeta.
    - rewrite !orb_false_r. done.
    - destruct (add_flags_bits va fl s Hf) as (A & B1 & B2 & B3 & B4). destruct (IH _ A) as (C & D1 & D2 & D3 & D4).
      rewrite D1, D2, D3, D4, B1, B2, B3, B4, !orb_assoc. done. }
  destruct (G (segments img) 18) as (A & B & C & D & F); [by apply fitsb_spec|]. done.
Qed.

End Good.
