(* ===== verification/LoaderSafe.v ===== *)
(** * A build does what the launch asks

    [stage] is the invariant of [LoaderTables] with the tree's leaves given by the
    log of the pages mapped so far.  Each loop of [build_address_space] extends
    the log by the pages it goes through, each on a frame of its own, so at the
    end the log is the image, the stack and the granted devices; a failed step
    keeps the invariant, which is what lets the caller return every frame. *)

From Stdlib Require Import ZArith Lia.
From stdpp Require Import base option numbers gmap list.
From S2P Require Import Prelude Sched Service Frames Paging Loader LoaderTables LoaderImage.

(** One page mapped: its address, what it is mapped to, its flags. *)
Definition mapping : Type := Z * Z * Z.
Definition leaf_of (log : list mapping) : gmap Z (Z * Z) :=
  foldl (fun M '(va, pa, fl) => <[page_no va := (pa, fl)]> M) ∅ log.

Lemma leaf_of_snoc log va pa fl : leaf_of (log ++ [(va, pa, fl)]) = <[page_no va := (pa, fl)]> (leaf_of log).
Proof. unfold leaf_of. by rewrite foldl_app. Qed.

Definition URW : Z := PTE_U .| PTE_R .| PTE_W.

Lemma URW_fits : fits 8 URW.
Proof. by apply fitsb_spec. Qed.

Lemma building_perm L1 fl0 m0 s T data data' fl :
  data ≡ₚ data' -> building L1 fl0 m0 s T data fl -> building L1 fl0 m0 s T data' fl.
Proof. intros Hp [H1 H2 H3 H4 H5]. split; try done. by rewrite H2, Hp. Qed.

(** A run of pages, each on its frame. *)
Definition page_log (flags : Z -> Z) (vas fs : list Z) : list mapping := zip_with (fun va f => (va, f, flags va)) vas fs.

Lemma page_log_snoc flags vas fs va f : length vas = length fs ->
  page_log flags (vas ++ [va]) (fs ++ [f]) = page_log flags vas fs ++ [(va, f, flags va)].
Proof. intros H. unfold page_log. by rewrite zip_with_app. Qed.

(** ** Looking a page up in the log *)

Lemma leaf_of_last log1 va pa fl log2 :
  (forall va' pa' fl', (va', pa', fl') ∈ log2 -> page_no va' <> page_no va) ->
  leaf_of (log1 ++ (va, pa, fl) :: log2) !! page_no va = Some (pa, fl).
Proof.
  intros H. induction log2 as [|[[va' pa'] fl'] log2 IH] using rev_ind.
  - rewrite leaf_of_snoc. apply lookup_insert_eq.
  - rewrite app_comm_cons, app_assoc, leaf_of_snoc. rewrite lookup_insert_ne
      by (apply (H va' pa' fl'), elem_of_app; right; by left).
    apply IH. intros x y z Hin. apply (H x y z). set_solver.
Qed.

Lemma leaf_of_none log k : (forall va pa fl, (va, pa, fl) ∈ log -> page_no va <> k) -> leaf_of log !! k = None.
Proof.
  intros H. induction log as [|[[va pa] fl] log IH] using rev_ind; [apply lookup_empty|].
  rewrite leaf_of_snoc, lookup_insert_ne by (apply (H va pa fl), elem_of_app; right; by left). apply IH. intros x y z Hin. apply (H x y z). set_solver.
Qed.

Lemma page_no_user va : user_va va -> page_no va = va / 4096 - 2 ^ 18.
Proof. unfold user_va, page_no. intros. Z.to_euclidean_division_equations; lia. Qed.

Lemma page_no_inj va va' : user_va va -> user_va va' -> va mod 4096 = 0 -> va' mod 4096 = 0 ->
  page_no va = page_no va' -> va = va'.
Proof. intros H H'. rewrite !page_no_user by done. Z.to_euclidean_division_equations; lia. Qed.

Definition user_page (va : Z) : Prop := user_va va /\ va mod 4096 = 0.

Lemma page_log_elem flags vas fs va pa fl : (va, pa, fl) ∈ page_log flags vas fs -> va ∈ vas.
Proof.
  intros H. unfold page_log in H. apply list_elem_of_lookup in H as [n Hn]. apply lookup_zip_with_Some in Hn as (x & y & E & Hx & Hy).
  simplify_eq. by eapply list_elem_of_lookup_2.
Qed.

(** The [n]th page of a run of pages, when what comes later is elsewhere. *)
Lemma leaf_of_page flags vas fs n va f log1 log2 :
  NoDup vas -> Forall user_page vas -> length vas = length fs -> vas !! n = Some va -> fs !! n = Some f ->
  (forall va' pa' fl', (va', pa', fl') ∈ log2 -> user_page va' /\ (va' ∉ vas)) ->
  leaf_of (log1 ++ page_log flags vas fs ++ log2) !! page_no va = Some (f, flags va).
Proof.
  intros Hn Hp Hlen Hva Hf H2. rewrite Forall_forall in Hp.
  rewrite <- (take_drop_middle vas n va Hva), <- (take_drop_middle fs n f Hf). unfold page_log.
  rewrite zip_with_app by (rewrite !length_take; lia). cbn [zip_with]. rewrite <- app_assoc. cbn [app]. rewrite app_assoc.
  apply leaf_of_last. intros va' pa' fl' Hin. intros E.
  assert (Hva' : user_page va' /\ va' <> va).
  { apply elem_of_app in Hin as [Hin|Hin].
    - apply page_log_elem in Hin. split.
      + apply Hp. rewrite <- (take_drop (S n) vas). set_solver.
      + intros ->. rewrite <- (take_drop_middle vas n va Hva) in Hn. apply NoDup_app in Hn as (_ & _ & Hn).
        by apply NoDup_cons in Hn as [? _].
    - destruct (H2 _ _ _ Hin) as [? Hne]. split; [done|]. intros ->. by apply Hne, (list_elem_of_lookup_2 _ n). }
  destruct Hva' as [[? ?] Hne]. apply Hne. destruct (Hp va) as [? ?]; [by eapply list_elem_of_lookup_2|]. by apply page_no_inj.
Qed.

Section Stages.
Context (L1 : Z) (fl0 : list Z) (m0 : mem).
Context (Hnodup : NoDup fl0) (Hok : Forall frame_ok fl0).
Context (root : Z).

Definition stage (s : LState) (log : list mapping) (data : list Z) : Prop :=
  exists T fl, building L1 fl0 m0 s T data fl /\ t_root T = root /\ r_root (l_res s) = root /\ t_leaf T = leaf_of log.

(** A step of the build either finishes in [Q] or gives up with the invariant intact. *)
Definition runs {A} (c : M A) (s : LState) (Q : A -> LState -> Prop) : Prop :=
  exists r s', c s = Ret (r, s') /\ match r with Some a => Q a s' | None => exists log data, stage s' log data end.

Lemma runs_ret {A} (a : A) s (Q : A -> LState -> Prop) : Q a s -> runs (mret a) s Q.
Proof. intros H. by exists (Some a), s. Qed.

Lemma runs_bind {A B} (c : M A) (f : A -> M B) s (P : A -> LState -> Prop) (Q : B -> LState -> Prop) :
  runs c s P -> (forall a s', P a s' -> runs (f a) s' Q) -> runs (c ≫= f) s Q.
Proof.
  intros ([a|] & s1 & E & H) Hf.
  - destruct (Hf a s1 H) as (r & s2 & E2 & H2). exists r, s2. split; [|done].
    unfold mbind, M_bind. by rewrite E.
  - exists None, s1. split; [|done]. unfold mbind, M_bind. by rewrite E.
Qed.

Lemma runs_bind_pure {A B} (o : outcome Empty_set A) a (f : A -> M B) s Q :
  o = Ret a -> runs (f a) s Q -> runs (pure_m o ≫= f) s Q.
Proof. intros -> H. exact H. Qed.

Lemma runs_bind_mem {B} (f : mem -> M B) s Q : runs (f (l_mem s)) s Q -> runs (read_mem ≫= f) s Q.
Proof. intros H. exact H. Qed.

Lemma runs_poke g s (Q : unit -> LState -> Prop) : Q tt (poke g s) -> runs (poke_m g) s Q.
Proof. intros H. by exists (Some tt), (poke g s). Qed.

Lemma runs_mono {A} (c : M A) s (P Q : A -> LState -> Prop) :
  runs c s P -> (forall a s', P a s' -> Q a s') -> runs c s Q.
Proof. intros (r & s' & E & H) HPQ. exists r, s'. split; [done|]. destruct r; auto. Qed.

(** A loop with an invariant on the elements done. *)
Lemma runs_each {A} (body : A -> M unit) l (I : list A -> LState -> Prop) s :
  I [] s ->
  (forall done x todo s, l = done ++ x :: todo -> I done s -> runs (body x) s (fun _ => I (done ++ [x]))) ->
  runs (each body l) s (fun _ => I l).
Proof.
  intros H0 Hstep.
  assert (G : forall todo done s, l = done ++ todo -> I done s -> runs (each body todo) s (fun _ => I l)).
  { induction todo as [|x todo IH]; intros dn s' El HI.
    - rewrite app_nil_r in El. subst dn. by apply runs_ret.
    - cbn. eapply runs_bind; [by apply (Hstep dn x todo)|]. intros [] s2 H2. apply (IH (dn ++ [x])); [|done].
      by rewrite <- app_assoc. }
  by apply (G l []).
Qed.

Lemma stage_data_ok s log data f : stage s log data -> f ∈ data -> frame_ok f.
Proof.
  intros (T & fl & H & _) Hf. eapply building_ok; [exact Hok|exact H|]. rewrite !elem_of_app. auto.
Qed.

Lemma stage_data_nodup s log data : stage s log data -> NoDup data.
Proof.
  intros (T & fl & H & _). pose proof (building_nodup _ _ _ Hnodup _ _ _ _ H) as Hn.
  apply NoDup_app in Hn as (_ & _ & Hn). by apply NoDup_app in Hn as (? & _ & _).
Qed.

(** ** The steps *)

Lemma need_frame_runs s log data :
  stage s log data ->
  runs need_frame s (fun f s' => stage s' log (data ++ [f]) /\ keeps s s' data /\ zeroed (l_mem s') f).
Proof.
  intros (T & fl & H & Ht & Hr & Hlf). unfold runs, need_frame.
  destruct (alloc_frame_cases L1 fl0 m0 Hnodup Hok s T data fl H)
    as [(s' & fl' & E & H' & Hp & Hr' & Ho & _)|(f & s' & fl' & E & Hf & H' & Efl & Hr' & Ho & Hz)]; rewrite E.
  - exists None, s'. split; [done|]. exists log, data, T, fl'. split_and!; auto; congruence.
  - rewrite (proj2 (Z.eqb_neq f 0)) by done. exists (Some f), s'. split; [done|]. split_and!; [|..|done].
    + exists T, fl'. split_and!; auto; [|congruence]. eapply building_perm; [|exact H'].
      by rewrite (Permutation_app_comm data [f]).
    + apply (keeps_alloc L1 fl0 m0 Hnodup Hok s s' T data fl [f]); auto. rewrite Efl. set_solver.
Qed.

Lemma need_map_runs s log data va pa flags :
  stage s log data -> user_va va -> fits 8 flags -> page_pa pa ->
  runs (need_map root va pa flags) s (fun _ s' => stage s' (log ++ [(va, pa, flags)]) data /\ keeps s s' data).
Proof.
  intros (T & fl & H & Ht & Hr & Hlf) Hva Hfl Hpa. unfold runs, need_map.
  destruct (map_page_ok L1 fl0 m0 Hnodup Hok s T data fl va pa flags H (eq_trans Hr (eq_sym Ht)) Hva Hfl Hpa)
    as (ok & s' & T' & fl' & E & H' & K & R & L). rewrite Ht in E, R. rewrite E.
  exists (if ok then Some tt else None), s'. split; [done|]. destruct ok.
  - split; [|done]. exists T', fl'. split_and!; auto; [rewrite (k_root _ _ _ K); done|]. by rewrite leaf_of_snoc, <- Hlf.
  - exists log, data, T', fl'. split_and!; auto; [rewrite (k_root _ _ _ K); done|]. congruence.
Qed.

(** Mapping on a frame of its own: the step both page loops share. *)
Lemma fresh_page_runs s log data va flags :
  stage s log data -> user_va va -> fits 8 flags ->
  runs (f ← need_frame; need_map root va f flags) s
    (fun _ s' => exists f, stage s' (log ++ [(va, f, flags)]) (data ++ [f]) /\ keeps s s' data /\ zeroed (l_mem s') f).
Proof.
  intros H Hva Hfl. eapply runs_bind; [by apply need_frame_runs|]. intros f s1 (H1 & K1 & Z1).
  assert (Hfok : frame_ok f) by (eapply stage_data_ok; [exact H1|set_solver]).
  eapply runs_mono; [apply need_map_runs; [exact H1|done|done|by apply frame_page]|]. intros _ s2 [H2 K2]. exists f.
  split_and!; [done|eapply keeps_trans; [exact K1|]; eapply keeps_mono; [|exact K2]; set_solver|].
  intros a Ha. rewrite (k_data _ _ _ K2 f a) by (done || set_solver). by apply Z1.
Qed.

(** [translate] finds the page mapped last at an address. *)
Lemma stage_translate s log data va pa fl :
  stage s log data -> user_va va -> leaf_of log !! page_no va = Some (pa, fl) -> fits 8 fl -> page_pa pa ->
  translate (l_mem s) root va = pa.
Proof.
  intros (T & fl' & H & Ht & _ & Hlf) Hva El Hfl Hpa. pose proof (b_rep _ _ _ _ _ _ _ H) as [R1 R2 R3 R4 R5].
  destruct (tables_distinct L1 fl0 m0 Hnodup Hok _ _ _ _ H) as [_ Htok]. rewrite Forall_forall in Htok.
  rewrite Ht in R1. unfold translate. rewrite vpn2_user by done. rewrite R1 by lia. change (root_word L1 T 1) with (entry_of (t_l1 T)).
  rewrite <- Hlf in El. destruct (R5 _ _ El) as [g Hg]. rewrite <- vpn1_page in Hg.
  destruct (t_l1 T) as [f|] eqn:E1; [|by rewrite R4, lookup_empty in Hg]. cbn [entry_of].
  rewrite (next_table_entry f) by (apply frame_page, Htok; by apply l1_frame).
  rewrite (R2 f) by (done || apply vpn_range). rewrite Hg. cbn [entry_of].
  rewrite (next_table_entry g) by (apply frame_page, Htok; by eapply l0_frame).
  rewrite (R3 (vpn 1 va) g) by (done || apply vpn_range). rewrite page_no_split, El. cbn [leaf_word]. by apply next_table_pte.
Qed.

Lemma runs_ext {A} (c c' : M A) s Q : c s = c' s -> runs c' s Q -> runs c s Q.
Proof. intros E (r & s' & E' & H). exists r, s'. by rewrite E. Qed.

(** ** Pages mapped on fresh frames *)

Lemma fresh_pages_runs (flags : Z -> Z) (body : Z -> M unit) vas s log data :
  stage s log data -> Forall user_va vas -> (forall va, va ∈ vas -> fits 8 (flags va)) ->
  (forall va s, va ∈ vas -> body va s = (f ← need_frame; need_map root va f (flags va)) s) ->
  runs (each body vas) s (fun _ s' => exists fs, length vas = length fs /\ stage s' (log ++ page_log flags vas fs) (data ++ fs)
    /\ keeps s s' data /\ forall f, f ∈ fs -> zeroed (l_mem s') f).
Proof.
  intros H Hva Hfl Hbody.
  apply (runs_each body vas (fun dn s' => exists fs, length dn = length fs /\ stage s' (log ++ page_log flags dn fs) (data ++ fs)
    /\ keeps s s' data /\ forall f, f ∈ fs -> zeroed (l_mem s') f)).
  - exists []. cbn. rewrite !app_nil_r. split_and!; auto using keeps_refl. intros f Hf. by apply elem_of_nil in Hf.
  - intros dn va todo s1 El (fs & Hlen & H1 & K1 & Z1). assert (Hin : va ∈ vas) by (rewrite El; set_solver).
    eapply runs_ext; [by apply Hbody|]. rewrite Forall_forall in Hva.
    eapply runs_mono; [apply (fresh_page_runs s1 _ _ va (flags va) H1); auto|].
    intros _ s2 (f & H2 & K2 & Z2). exists (fs ++ [f]). rewrite page_log_snoc by done. rewrite !length_app, !app_assoc.
    split_and!; [cbn; lia|done|eapply keeps_trans; [exact K1|]; eapply keeps_mono; [|exact K2]; set_solver|].
    intros g [Hg|Hg%list_elem_of_singleton]%elem_of_app; [|by subst g].
    intros a Ha. rewrite (k_data _ _ _ K2 g a) by (done || set_solver). by apply (Z1 g).
Qed.

(** ** Copying the segments *)

Section Copy.
Context (checks : bool) (img : list Z) (Hgood : elf_ok img = true).
Context (fs : list Z) (Hlen : length (image_pages img) = length fs).

Definition image_log : list mapping := page_log (flags_at (segments img)) (image_pages img) fs.

(** The image's frames hold [c]. *)
Definition holds (c : Z -> Z) (s : LState) : Prop :=
  forall n va f o, image_pages img !! n = Some va -> fs !! n = Some f -> 0 <= o < 4096 -> l_mem s (f + o) = c (va + o).

Lemma holds_ext c c' s : (forall x, c x = c' x) -> holds c s -> holds c' s.
Proof. intros E H n va f o Hv Hf Ho. by rewrite <- E, (H n va f o). Qed.

Lemma image_user_pages : Forall user_page (image_pages img).
Proof.
  clear Hlen.
  apply Forall_forall. intros va Hva. apply (image_pages_range img Hgood) in Hva as (? & ? & ?).
  unfold user_page, user_va, USER_STACK_BOTTOM in *. lia.
Qed.

Lemma land_fff x : x & 0xfff = x mod 4096.
Proof. change 0xfff with (Z.ones 12). by rewrite Z.land_ones by lia. Qed.

(** One byte lands in the frame of its page and nowhere else. *)
Lemma poke_byte s log data c x b :
  stage s (image_log ++ log) data -> fs ⊆ data -> NoDup fs -> holds c s -> page_down x ∈ image_pages img -> fits 64 x ->
  (forall va' pa' fl', (va', pa', fl') ∈ log -> user_page va' /\ (va' ∉ image_pages img)) ->
  let s' := poke (fun m => st8 m (wrap 64 (translate (l_mem s) root (page_down x) + (x & 0xfff))) b) s in
  stage s' (image_log ++ log) data /\ holds (fun y => if y =? x then b else c y) s'.
Proof.
  intros H Hsub Hnd Hc Hx Hfx Hlog. cbn zeta. pose proof image_user_pages as Hup. pose proof Hx as Hx0.
  apply list_elem_of_lookup in Hx as [n Hn]. destruct (lookup_lt_is_Some_2 fs n) as [f Hf].
  { rewrite <- Hlen. by eapply lookup_lt_Some. }
  assert (Hfd : f ∈ data) by by eapply Hsub, list_elem_of_lookup_2.
  rewrite Forall_forall in Hup. destruct (Hup _ Hx0) as [Hu Hal].
  assert (Hfok : frame_ok f) by by eapply stage_data_ok.
  assert (Htr : translate (l_mem s) root (page_down x) = f).
  { destruct (flags_at_bits img (page_down x)) as (Hfl & _).
    eapply stage_translate; [exact H|exact Hu| |exact Hfl|by apply frame_page].
    apply (leaf_of_page _ _ _ n _ _ []); auto; [apply pages_nodup|apply image_user_pages]. }
  rewrite Htr, land_fff. pose proof (page_down_value x Hfx) as Epd.
  pose proof (frame_ok_fits f Hfok). rewrite wrap_small.
  2: { unfold frame_ok, FRAME_POOL_BASE, FRAME_POOL_END, fits, FRAME_SIZE in *. Z.to_euclidean_division_equations; lia. }
  assert (Hmod : 0 <= x mod 4096 < 4096) by (apply Z.mod_pos_bound; lia). split.
  - destruct H as (T & fl & H & Ht & Hr & Hlf). exists T, fl. split_and!; auto.
    eapply building_data; eauto. apply only_in_st8. unfold in_frame, FRAME_SIZE. lia.
  - intros n' va f' o Hv Hf' Ho. cbn. unfold st8. destruct (Z.eqb_spec (f' + o) (f + x mod 4096)) as [Ea|Ea].
    + assert (f' = f) as ->.
      { assert (f' ∈ data) by by eapply Hsub, list_elem_of_lookup_2. apply (same_frame f' f (f' + o)); [|done|..].
        - by eapply stage_data_ok.
        - unfold in_frame, FRAME_SIZE. lia.
        - unfold in_frame, FRAME_SIZE. lia. }
      assert (n' = n) as -> by (eapply NoDup_lookup; [exact Hnd|exact Hf'|exact Hf]).
      rewrite Hn in Hv. injection Hv as <-. rewrite (proj2 (Z.eqb_eq _ _)); [done|].
      Z.to_euclidean_division_equations; lia.
    + rewrite (proj2 (Z.eqb_neq _ _)); [by apply (Hc n' va f' o)|]. intros Ex. apply Ea.
      assert (va = page_down x) as ->.
      { destruct (Hup va) as [? ?]; [by eapply list_elem_of_lookup_2|]. rewrite Epd. Z.to_euclidean_division_equations; lia. }
      assert (n' = n) as -> by (eapply NoDup_lookup; [apply pages_nodup|exact Hv|exact Hn]).
      rewrite Hf in Hf'. injection Hf' as <-. rewrite Epd in Ex. Z.to_euclidean_division_equations; lia.
Qed.

(** The image loaded so far. *)
Definition loaded (c : Z -> Z) (s : LState) : Prop := stage s image_log fs /\ holds c s.

Lemma load_upto_step seg c k x : 0 <= k ->
  (if x =? s_vaddr seg + k then nth (Z.to_nat (s_off seg + k)) img 0 else load_upto img seg k c x) = load_upto img seg (k + 1) c x.
Proof.
  intros Hk. unfold load_upto. destruct (Z.eqb_spec x (s_vaddr seg + k)) as [->|Hne].
  - rewrite (proj2 (Z.leb_le _ _)), (proj2 (Z.ltb_lt _ _)) by lia. cbn. do 2 f_equal. lia.
  - replace (x <? s_vaddr seg + (k + 1)) with (x <? s_vaddr seg + k); [done|]. apply eq_true_iff_eq. rewrite !Z.ltb_lt. lia.
Qed.

Lemma copy_byte_runs s seg c k :
  seg ∈ segments img -> loaded (load_upto img seg k c) s -> 0 <= k < s_filesz seg ->
  runs (copy_byte checks img root (s_off seg) (s_vaddr seg) k) s (fun _ => loaded (load_upto img seg (k + 1) c)).
Proof.
  intros Hs [H Hc] Hk. pose proof (good_seg img Hgood seg Hs) as [G1 G2 G3 G4 G5]. unfold USER_STACK_BOTTOM in G5.
  destruct (good_bytes img Hgood) as [_ Hl]. unfold copy_byte, plus.
  apply runs_bind_pure with (s_vaddr seg + k); [apply uadd_small; lia|]. apply runs_bind_mem.
  apply runs_bind_pure with (s_off seg + k); [apply uadd_small; lia|].
  apply runs_bind_pure with (nth (Z.to_nat (s_off seg + k)) img 0).
  { unfold index. rewrite (proj2 (Z.leb_le _ _)) by lia. unfold zlen in *.
    destruct (lookup_lt_is_Some_2 img (Z.to_nat (s_off seg + k))) as [b Hb]; [lia|].
    rewrite Hb. by rewrite (nth_lookup_Some _ _ _ _ Hb). }
  apply runs_poke. rewrite <- (app_nil_r image_log) in H.
  destruct (poke_byte s [] fs (load_upto img seg k c) (s_vaddr seg + k) (nth (Z.to_nat (s_off seg + k)) img 0) H)
    as [H' Hc']; [done|by eapply stage_data_nodup|done|apply (image_pages_cover img Hgood seg); [done|lia]|unfold fits; lia
    |by intros ? ? ? ?%elem_of_nil|].
  rewrite app_nil_r in H'. split; [exact H'|]. eapply holds_ext; [|exact Hc']. intros x. apply load_upto_step. lia.
Qed.

Lemma copy_segment_runs s ph c :
  ph ∈ load_headers img -> loaded c s ->
  runs (each (copy_byte checks img root (s_off (seg_at img ph)) (s_vaddr (seg_at img ph))) (seqZ 0 (s_filesz (seg_at img ph)))) s
    (fun _ => loaded (load_upto img (seg_at img ph) (s_filesz (seg_at img ph)) c)).
Proof.
  intros Hph H. set (seg := seg_at img ph). pose proof (seg_mem img ph Hph) as Hs. fold seg in Hs.
  pose proof (good_seg img Hgood seg Hs) as [_ _ G3 _ _].
  eapply runs_mono; [apply (runs_each _ _ (fun dn => loaded (load_upto img seg (Z.of_nat (length dn)) c)))|].
  - destruct H as [H Hc]. split; [exact H|]. eapply holds_ext; [|exact Hc]. intros x. unfold load_upto.
    change (Z.of_nat (length [])) with 0. destruct ((s_vaddr seg <=? x) && _) eqn:E; [bool_to_prop; lia|done].
  - intros dn k todo s1 El H1. assert (k = Z.of_nat (length dn)) as ->.
    { assert (Hk : seqZ 0 (s_filesz seg) !! length dn = Some k) by (rewrite El; by apply list_lookup_middle).
      apply lookup_seqZ in Hk. lia. }
    rewrite length_app. cbn [length]. rewrite Nat2Z.inj_add. apply copy_byte_runs; [done|done|].
    assert (length (seqZ 0 (s_filesz seg)) = length (dn ++ Z.of_nat (length dn) :: todo)) as E by by rewrite El.
    rewrite length_seqZ, length_app in E. cbn [length] in E. lia.
  - intros [] s1 H1. rewrite length_seqZ, Z2Nat.id in H1 by lia. exact H1.
Qed.

Definition header_no (i : Z) : Z := rd 8 img 32 + i * rd 2 img 54.

Lemma copy_all_runs s :
  loaded (fun _ => 0) s ->
  runs (each (copy_segment checks img (rd 8 img 32) (rd 2 img 54) root) (seqZ 0 (rd 2 img 56))) s
    (fun _ => loaded (image_byte img)).
Proof.
  intros H. set (c dn := foldl (fun c sg => load_upto img sg (s_filesz sg) c) (fun _ => 0)
    (seg_at img <$> filter (fun ph => rd 4 img ph = 1) (header_no <$> dn))).
  eapply runs_mono; [apply (runs_each _ _ (fun dn => loaded (c dn)))|].
  - exact H.
  - intros dn i todo s1 El H1. assert (Hh : header_no i ∈ headers img).
    { unfold headers. fold header_no. rewrite El, fmap_app, fmap_cons. apply elem_of_app. right. by left. }
    destruct (good_header img Hgood _ Hh) as [P1 P2]. destruct (good_bytes img Hgood) as [_ Hl]. unfold copy_segment.
    apply runs_bind_pure with (header_no i); [apply uadd_small; fold (header_no i); lia|].
    apply runs_bind_pure with (rd 4 img (header_no i)); [apply u32_at_rd; lia|].
    destruct (Z.eqb_spec (rd 4 img (header_no i)) 1) as [E1|E1].
    + assert (Hph : header_no i ∈ load_headers img) by (unfold load_headers; by rewrite list_elem_of_filter).
      apply runs_bind_pure with (s_off (seg_at img (header_no i))); [by apply field_ok|].
      apply runs_bind_pure with (s_vaddr (seg_at img (header_no i))); [by apply field_ok|].
      apply runs_bind_pure with (s_filesz (seg_at img (header_no i))); [by apply field_ok|].
      eapply runs_mono; [by apply copy_segment_runs|]. intros [] s2 H2. unfold c. rewrite fmap_app, filter_app, fmap_app, foldl_app.
      cbn [fmap list_fmap]. rewrite filter_cons_True by done. exact H2.
    + apply runs_ret. unfold c. rewrite fmap_app, filter_app, fmap_app, foldl_app. cbn [fmap list_fmap].
      rewrite filter_cons_False by done. exact H1.
  - intros [] s1 H1. exact H1.
Qed.
End Copy.

End Stages.
