(* ===== verification/LoaderSpace.v ===== *)
(** * The finished address space

    From a pool of free frames and a well-formed image, [build_address_space]
    never panics: it either gives up with every frame back in the pool, or returns
    a space whose user-mode reach is exactly the image, the stack and the granted
    devices, with the image's bytes in place and everything else zero. *)

From Stdlib Require Import ZArith Lia.
From stdpp Require Import base option numbers gmap list.
From S2P Require Import Prelude Sched Service Frames Paging Loader LoaderTables LoaderImage LoaderSafe.

(** ** The device pages of a launch *)

Definition window (va pa size : Z) : list mapping := (fun off => (va + off, pa + off, URW)) <$> pages 0 size.

Section Devices.
Context (VIRTIO_DMA MARZ_DMA : Z).

Definition grants_blk (spec : ProcessSpec) : bool := map_virtio_blk spec && negb ((caps spec & TASK_DEVICE_VIRTIO_BLK) =? 0).
Definition grants_net (spec : ProcessSpec) : bool := map_virtio_net spec && negb ((caps spec & TASK_DEVICE_VIRTIO_NET) =? 0).
Definition grants_dma (spec : ProcessSpec) : bool :=
  map_virtio_dma spec && negb ((caps spec & (TASK_BLOCK_READ .| TASK_BLOCK_WRITE .| TASK_DEVICE_VIRTIO_NET)) =? 0).

(** The pages each grant maps; a granted device that is not there is [None]. *)
Definition uart_pages (spec : ProcessSpec) : list mapping := if map_uart spec then [(DEV_UART_VA, UART_BASE, URW)] else [].
Definition blk_pages (spec : ProcessSpec) (m : mem) : option (list mapping) :=
  if grants_blk spec then pa ← find_virtio_mmio m VIRTIO_DEVICE_ID_BLOCK; Some [(DEV_VIRTIO_BLK_VA, pa, URW)] else Some [].
Definition net_pages (spec : ProcessSpec) (m : mem) : option (list mapping) :=
  if grants_net spec then
    pa ← find_virtio_mmio m VIRTIO_DEVICE_ID_NET;
    Some ((DEV_VIRTIO_NET_VA, pa, URW) :: window MARZ_DMA_VA MARZ_DMA MARZ_DMA_SIZE)
  else Some [].
Definition dma_pages (spec : ProcessSpec) : list mapping :=
  if grants_dma spec then window VIRTIO_DMA_VA VIRTIO_DMA VIRTIO_DMA_SIZE else [].
Definition device_pages (spec : ProcessSpec) (m : mem) : option (list mapping) :=
  blk ← blk_pages spec m; net ← net_pages spec m; Some (uart_pages spec ++ blk ++ net ++ dma_pages spec).

(** The two DMA windows are page-aligned kernel statics below the frame pool. *)
Definition dma_ok (pa : Z) : Prop := 0 <= pa /\ pa mod 4096 = 0 /\ pa + 16384 <= FRAME_POOL_BASE.
Context (Hvirtio : dma_ok VIRTIO_DMA) (Hmarz : dma_ok MARZ_DMA).

(** The physical pages the grants of a launch cover. *)
Definition granted (spec : ProcessSpec) (pa : Z) : Prop :=
  (map_uart spec = true /\ pa = UART_BASE)
  \/ ((grants_blk spec = true \/ grants_net spec = true) /\ VIRTIO_BLK_MMIO_PA <= pa < VIRTIO_BLK_MMIO_PA + VIRTIO_MMIO_COUNT * VIRTIO_MMIO_STRIDE)
  \/ (grants_net spec = true /\ MARZ_DMA <= pa < MARZ_DMA + MARZ_DMA_SIZE)
  \/ (grants_dma spec = true /\ VIRTIO_DMA <= pa < VIRTIO_DMA + VIRTIO_DMA_SIZE).

(** A device page: above the stack, on an aligned granted page that is not of the pool. *)
Definition device_mapping (spec : ProcessSpec) (e : mapping) : Prop :=
  let '(va, pa, fl) := e in
  user_page va /\ DEV_UART_VA <= va /\ page_pa pa /\ pa + 4096 <= FRAME_POOL_BASE /\ fl = URW /\ granted spec pa.

Lemma device_mapping_at spec va pa :
  DEV_UART_VA <= va < 2 ^ 31 -> va mod 4096 = 0 -> 0 <= pa -> pa mod 4096 = 0 -> pa + 4096 <= FRAME_POOL_BASE ->
  granted spec pa -> device_mapping spec (va, pa, URW).
Proof. unfold device_mapping, user_page, user_va, page_pa, DEV_UART_VA, FRAME_POOL_BASE. intros. split_and!; auto; lia. Qed.

Lemma window_mappings spec va pa :
  DEV_UART_VA <= va < 2 ^ 31 - 16384 -> va mod 4096 = 0 -> dma_ok pa ->
  (forall off, 0 <= off < 16384 -> granted spec (pa + off)) -> Forall (device_mapping spec) (window va pa 16384).
Proof.
  intros Hva Hal (H1 & H2 & H3) Hg. apply Forall_forall. intros e He. unfold window in He.
  apply list_elem_of_fmap in He as (off & -> & Hoff). apply pages_elem in Hoff; [|done].
  apply device_mapping_at; try (Z.to_euclidean_division_equations; lia). apply Hg. lia.
Qed.

Lemma find_virtio_page m id pa : find_virtio_mmio m id = Some pa -> 0x10001000 <= pa <= 0x10008000 /\ pa mod 4096 = 0.
Proof.
  unfold find_virtio_mmio. intros H. apply head_Some_elem_of in H. apply list_elem_of_filter in H as [_ H].
  apply list_elem_of_fmap in H as (i & -> & Hi). apply elem_of_seqZ in Hi.
  unfold VIRTIO_BLK_MMIO_PA, VIRTIO_MMIO_STRIDE, VIRTIO_MMIO_COUNT in *. Z.to_euclidean_division_equations; lia.
Qed.

Lemma virtio_mapping spec m va id pa :
  DEV_UART_VA <= va < 2 ^ 31 -> va mod 4096 = 0 -> find_virtio_mmio m id = Some pa ->
  grants_blk spec = true \/ grants_net spec = true -> device_mapping spec (va, pa, URW).
Proof.
  intros Hva Hal E Hg. apply find_virtio_page in E. apply device_mapping_at; try (unfold FRAME_POOL_BASE; lia).
  right; left. split; [done|]. unfold VIRTIO_BLK_MMIO_PA, VIRTIO_MMIO_STRIDE, VIRTIO_MMIO_COUNT. lia.
Qed.

Lemma marz_window spec : grants_net spec = true -> Forall (device_mapping spec) (window MARZ_DMA_VA MARZ_DMA MARZ_DMA_SIZE).
Proof. intros Hg. apply window_mappings; try done. intros off Ho. right; right; left. split; [done|]. unfold MARZ_DMA_SIZE. lia. Qed.
Lemma virtio_window spec : grants_dma spec = true -> Forall (device_mapping spec) (window VIRTIO_DMA_VA VIRTIO_DMA VIRTIO_DMA_SIZE).
Proof. intros Hg. apply window_mappings; try done. intros off Ho. right; right; right. split; [done|]. unfold VIRTIO_DMA_SIZE. lia. Qed.
Lemma uart_mapping spec : map_uart spec = true -> device_mapping spec (DEV_UART_VA, UART_BASE, URW).
Proof. intros Hu. apply device_mapping_at; try done. by left. Qed.

Lemma device_pages_ok spec m dl : device_pages spec m = Some dl -> Forall (device_mapping spec) dl.
Proof.
  unfold device_pages. intros H.
  apply bind_Some in H as (blk & Eb & Hb). apply bind_Some in Hb as (net & En & [= <-]).
  repeat apply Forall_app_2.
  - unfold uart_pages. destruct (map_uart spec) eqn:E; [|constructor]. apply Forall_singleton. by apply uart_mapping.
  - unfold blk_pages in Eb. destruct (grants_blk spec) eqn:G; [|injection Eb as <-; constructor].
    apply bind_Some in Eb as (pa & E & [= <-]). apply Forall_singleton. by eapply virtio_mapping; eauto.
  - unfold net_pages in En. destruct (grants_net spec) eqn:G; [|injection En as <-; constructor].
    apply bind_Some in En as (pa & E & [= <-]). constructor; [by eapply virtio_mapping; eauto|by apply marz_window].
  - unfold dma_pages. destruct (grants_dma spec) eqn:G; [by apply virtio_window|constructor].
Qed.
End Devices.

Lemma filter_same {A} (P Q : A -> Prop) `{!forall x, Decision (P x), !forall x, Decision (Q x)} (l : list A) :
  (forall x, x ∈ l -> P x <-> Q x) -> filter P l = filter Q l.
Proof.
  induction l as [|x l IH]; intros Hpq; [done|]. rewrite !filter_cons. rewrite IH by (intros; apply Hpq; by right).
  destruct (Hpq x) as [H1 H2]; [by left|]. by destruct (decide (P x)), (decide (Q x)); try tauto.
Qed.

(** The transports are read below the pool, where a build does not write. *)
Lemma find_virtio_same fl0 m m' id :
  Forall frame_ok fl0 -> only_in fl0 m m' -> find_virtio_mmio m' id = find_virtio_mmio m id.
Proof.
  intros Hok Ho. assert (Hb : forall a, a < FRAME_POOL_BASE -> m' a = m a).
  { intros a Ha. apply Ho. intros (f & Hf & Hin). rewrite Forall_forall in Hok. destruct (Hok f Hf) as (? & _).
    unfold in_frame in Hin. lia. }
  assert (Hl : forall a, a + 4 <= FRAME_POOL_BASE -> ld32 m' a = ld32 m a).
  { intros a Ha. unfold ld32. cbn [fmap list_fmap]. rewrite !Hb by lia. done. }
  unfold find_virtio_mmio. f_equal. apply filter_same. intros base Hin.
  apply list_elem_of_fmap in Hin as (i & -> & Hi). apply elem_of_seqZ in Hi.
  unfold VIRTIO_BLK_MMIO_PA, VIRTIO_MMIO_STRIDE, VIRTIO_MMIO_COUNT, VIRTIO_MMIO_OFF_DEVICE_ID, FRAME_POOL_BASE in *.
  rewrite !Hl by lia. done.
Qed.

(** ** Running the build *)

Section Build.
Context (checks : bool) (L1 VIRTIO_DMA MARZ_DMA : Z).
Context (HL1 : page_pa L1) (Hvirtio : dma_ok VIRTIO_DMA) (Hmarz : dma_ok MARZ_DMA).
Context (fl0 : list Z) (m0 : mem) (Hnodup : NoDup fl0) (Hok : Forall frame_ok fl0).
Context (root : Z).

Abbreviation stage := (stage L1 fl0 m0 root).
Abbreviation runs := (runs L1 fl0 m0 root).

Abbreviation device_mapping := (device_mapping VIRTIO_DMA MARZ_DMA).

Lemma map_device_runs spec s log data va pa :
  stage s log data -> device_mapping spec (va, pa, URW) ->
  runs (need_map root va pa URW) s (fun _ s' => stage s' (log ++ [(va, pa, URW)]) data /\ keeps s s' data).
Proof. intros H ([Hu _] & _ & Hp & _). apply need_map_runs; auto using URW_fits. Qed.

Lemma map_window_runs spec s log data va pa :
  stage s log data -> Forall (device_mapping spec) (window va pa 16384) ->
  runs (map_window root va pa 16384) s (fun _ s' => stage s' (log ++ window va pa 16384) data /\ keeps s s' data).
Proof.
  intros H Hw. unfold map_window, window in *. rewrite Forall_fmap, Forall_forall in Hw.
  apply (runs_each L1 fl0 m0 root _ _ (fun dn s' => stage s' (log ++ ((fun off => (va + off, pa + off, URW)) <$> dn)) data /\ keeps s s' data)).
  - cbn. rewrite app_nil_r. auto using keeps_refl.
  - intros dn off todo s1 El [H1 K1]. eapply runs_mono; [apply (map_device_runs spec); [exact H1|]|].
    + apply Hw. rewrite El. apply elem_of_app. right. by left.
    + intros _ s2 [H2 K2]. rewrite fmap_app, app_assoc. split; [exact H2|]. by eapply keeps_trans.
Qed.

Lemma runs_fail {A} s log data (Q : A -> LState -> Prop) : stage s log data -> runs fail s Q.
Proof. intros H. exists None, s. eauto. Qed.

(** A grant that maps [l] when [b] holds. *)
Lemma grant_runs (b : bool) (c : M unit) (l : list mapping) s log data :
  stage s log data ->
  (b = true -> runs c s (fun _ s' => stage s' (log ++ l) data /\ keeps s s' data)) ->
  runs (if b then c else mret tt) s (fun _ s' => stage s' (log ++ if b then l else []) data /\ keeps s s' data).
Proof.
  intros H Hc. destruct b; [by apply Hc|]. apply runs_ret. rewrite app_nil_r. auto using keeps_refl.
Qed.

Lemma stage_find s log data id : stage s log data -> find_virtio_mmio (l_mem s) id = find_virtio_mmio m0 id.
Proof. intros (T & fl & H & _). apply (find_virtio_same fl0); [done|]. by destruct H. Qed.

Lemma map_devices_runs spec s log data :
  stage s log data ->
  runs (map_devices VIRTIO_DMA MARZ_DMA spec root) s
    (fun _ s' => exists dl, device_pages VIRTIO_DMA MARZ_DMA spec m0 = Some dl /\ stage s' (log ++ dl) data /\ keeps s s' data).
Proof.
  intros H. unfold map_devices, device_pages. fold (grants_blk spec) (grants_net spec) (grants_dma spec). fold URW.
  eapply runs_bind.
  { apply (grant_runs (map_uart spec) _ [(DEV_UART_VA, UART_BASE, URW)] s log data H). intros Hu.
    apply (map_device_runs spec); [done|]. by apply uart_mapping. }
  fold (uart_pages spec). intros _ s1 [H1 K1]. eapply (runs_bind _ _ _ _ _ _ _ (fun _ s' => exists blk,
    blk_pages spec m0 = Some blk /\ stage s' ((log ++ uart_pages spec) ++ blk) data /\ keeps s1 s' data)).
  { unfold blk_pages. destruct (grants_blk spec) eqn:G; [|apply runs_ret; exists []; rewrite app_nil_r; auto using keeps_refl].
    apply runs_bind_mem. rewrite (stage_find _ _ _ _ H1).
    destruct (find_virtio_mmio m0 VIRTIO_DEVICE_ID_BLOCK) as [pa|] eqn:E; [|by eapply runs_fail].
    eapply runs_mono; [apply (map_device_runs spec); [exact H1|by eapply virtio_mapping; eauto]|]. intros _ s2 [H2 K2]. eauto. }
  intros _ s2 (blk & Eb & H2 & K2). rewrite Eb. cbn [mbind option_bind].
  eapply (runs_bind _ _ _ _ _ _ _ (fun _ s' => exists net,
    net_pages MARZ_DMA spec m0 = Some net
    /\ stage s' (((log ++ uart_pages spec) ++ blk) ++ net) data /\ keeps s2 s' data)).
  { unfold net_pages. destruct (grants_net spec) eqn:G; [|apply runs_ret; exists []; rewrite app_nil_r; auto using keeps_refl].
    apply runs_bind_mem. rewrite (stage_find _ _ _ _ H2).
    destruct (find_virtio_mmio m0 VIRTIO_DEVICE_ID_NET) as [pa|] eqn:E; [|by eapply runs_fail].
    eapply runs_bind; [apply (map_device_runs spec); [exact H2|by eapply virtio_mapping; eauto]|]. intros _ s3 [H3 K3].
    eapply runs_mono; [apply (map_window_runs spec); [exact H3|by apply marz_window]|]. intros _ s4 [H4 K4].
    eexists. split; [done|]. rewrite <- app_assoc in H4. split; [exact H4|]. by eapply keeps_trans. }
  intros _ s3 (net & En & H3 & K3). rewrite En. cbn [mbind option_bind].
  eapply runs_mono; [apply (grant_runs (grants_dma spec) _ (window VIRTIO_DMA_VA VIRTIO_DMA VIRTIO_DMA_SIZE) s3 _ data H3);
    intros Hg; apply (map_window_runs spec); [exact H3|by apply virtio_window]|].
  fold (dma_pages VIRTIO_DMA spec). intros _ s4 [H4 K4]. eexists. split; [done|]. rewrite <- !app_assoc in H4. split; [exact H4|].
  eapply keeps_trans; [exact K1|]. eapply keeps_trans; [exact K2|]. by eapply keeps_trans.
Qed.

Definition stack_pages : list Z := pages USER_STACK_BOTTOM USER_STACK_TOP.
Definition stack_log (sf : list Z) : list mapping := page_log (fun _ => URW) stack_pages sf.

Lemma stack_user_pages : Forall user_page stack_pages.
Proof.
  apply Forall_forall. intros va Hva. apply pages_elem in Hva; [|done]. unfold user_page, user_va, USER_STACK_BOTTOM, USER_STACK_TOP in *. lia.
Qed.

(** What a finished build holds: the log of its pages and their bytes. *)
Definition space_log (img : list Z) (fs sf : list Z) (dl : list mapping) : list mapping :=
  image_log img fs ++ stack_log sf ++ dl.

Record filled (spec : ProcessSpec) (s : LState) (fs sf : list Z) (dl : list mapping) : Prop := {
  f_stage : stage s (space_log (elf spec) fs sf dl) (fs ++ sf);
  f_image : length (image_pages (elf spec)) = length fs;
  f_stack : length stack_pages = length sf;
  f_devices : device_pages VIRTIO_DMA MARZ_DMA spec m0 = Some dl;
  f_bytes : holds (elf spec) fs (image_byte (elf spec)) s;
  f_zero : forall f, f ∈ sf -> zeroed (l_mem s) f }.

Lemma fill_rest_runs spec s :
  elf_ok (elf spec) = true -> stage s [] [] ->
  let img := elf spec in
  runs (_ ← each (map_segment_page checks img (rd 8 img 32) (rd 2 img 54) (rd 2 img 56) root) (image_pages img);
        _ ← each (copy_segment checks img (rd 8 img 32) (rd 2 img 54) root) (seqZ 0 (rd 2 img 56));
        _ ← each (map_stack_page root) stack_pages;
        _ ← map_devices VIRTIO_DMA MARZ_DMA spec root;
        mret (rd 8 img 24)) s
    (fun entry s' => entry = rd 8 img 24 /\ exists fs sf dl, filled spec s' fs sf dl).
Proof.
  intros Hgood H img. pose proof (image_user_pages img Hgood) as Hup.
  assert (Hu : Forall user_va (image_pages img)) by (eapply Forall_impl; [exact Hup|by intros ? [? _]]).
  eapply runs_bind; [apply (fresh_pages_runs L1 fl0 m0 Hnodup Hok root (flags_at (segments img)) _ _ s [] [] H Hu)|].
  { intros va _. apply flags_at_bits. }
  { intros va s' _. unfold map_segment_page. unfold mbind, M_bind. destruct (need_frame s') as [[[f|] s2]| |]; [|done..].
    by rewrite (page_flags_ok checks img Hgood). }
  intros _ s1 (fs & Hlen & H1 & _ & Z1). cbn [app] in H1.
  assert (Hc0 : holds img fs (fun _ => 0) s1).
  { intros n va f o _ Hf Ho. apply (Z1 f); [by eapply list_elem_of_lookup_2|]. unfold in_frame, FRAME_SIZE. lia. }
  eapply runs_bind; [apply (copy_all_runs L1 fl0 m0 Hnodup Hok root checks img Hgood fs Hlen s1); by split|].
  intros _ s2 [H2 C2].
  eapply runs_bind; [apply (fresh_pages_runs L1 fl0 m0 Hnodup Hok root (fun _ => URW) _ _ s2 _ _ H2)|].
  { eapply Forall_impl; [apply stack_user_pages|by intros ? [? _]]. }
  { intros va _. apply URW_fits. }
  { done. }
  intros _ s3 (sf & Hslen & H3 & K3 & Z3). eapply runs_bind; [by apply map_devices_runs|].
  intros _ s4 (dl & Ed & H4 & K4). apply runs_ret. split; [done|]. exists fs, sf, dl. split; [|done|done|done|..].
  - unfold space_log, stack_log. by rewrite app_assoc.
  - intros n va f o Hv Hf Ho. assert (f ∈ fs) by by eapply list_elem_of_lookup_2.
    assert (in_frame f (f + o)) by (unfold in_frame, FRAME_SIZE; lia).
    rewrite (k_data _ _ _ K4 f), (k_data _ _ _ K3 f) by (done || (rewrite ?elem_of_app; auto)). by eapply C2.
  - intros f Hf a Ha. rewrite (k_data _ _ _ K4 f) by (done || (rewrite ?elem_of_app; auto)). by apply (Z3 f).
Qed.

End Build.

(** ** Returning the frames *)

Lemma reclaim_frames l p fl :
  pool p fl -> NoDup (l ++ fl) -> Forall frame_ok l ->
  let p' := foldl (fun p frame => if frame =? 0 then p else frame_free frame p) p l in
  pool p' (reverse l ++ fl) /\ only_in l (p_mem p) (p_mem p').
Proof.
  revert p fl. induction l as [|f l IH]; intros p fl Hp Hn Hl; cbn zeta; cbn [foldl].
  { rewrite reverse_nil. split; [done|apply only_in_refl]. }
  apply Forall_cons in Hl as [Hf Hl]. rewrite <- app_comm_cons, NoDup_cons, elem_of_app in Hn. destruct Hn as [Hf' Hn].
  rewrite (proj2 (Z.eqb_neq f 0)) by by apply frame_ok_nonzero.
  destruct (pool_free p f fl Hp Hf) as [Hp' Ho]; [tauto|].
  destruct (IH (frame_free f p) (f :: fl) Hp') as [H1 H2]; [|done|].
  { rewrite <- Permutation_middle. by rewrite NoDup_cons, elem_of_app. }
  split; [by rewrite reverse_cons, <- app_assoc|].
  eapply only_in_trans; [eapply only_in_mono; [|exact Ho]|eapply only_in_mono; [|exact H2]]; set_solver.
Qed.

(** ** The build as a whole *)

Section Whole.
Context (checks : bool) (L1 VIRTIO_DMA MARZ_DMA : Z).
Context (HL1 : page_pa L1) (Hvirtio : dma_ok VIRTIO_DMA) (Hmarz : dma_ok MARZ_DMA).

Lemma start_stage p root fl kind :
  pool p (root :: fl) ->
  exists s, alloc_frame (mkL p (new_resources kind)) = (root, s) /\ root <> 0
    /\ stage L1 (root :: fl) (p_mem p) root
         (poke (fun m => st64 (st64 m root (pte 0 (PTE_R .| PTE_W .| PTE_X))) (root + 8 * 2) (table_entry L1)) (set_root root s)) [] [].
Proof.
  intros Hp. pose proof (pool_nodup _ _ Hp) as Hn. pose proof (pool_frames _ _ Hp) as Hf.
  apply NoDup_cons in Hn as [Hroot _]. apply Forall_cons in Hf as [Hrok Hf].
  destruct (pool_alloc p root fl Hp) as (p' & E & Hp' & Ho & Hz).
  exists (mkL p' (mkResources kind 0 [root])). unfold alloc_frame. cbn [l_pool l_res]. rewrite E.
  pose proof (frame_ok_nonzero root Hrok). rewrite (proj2 (Z.eqb_neq root 0)) by done. unfold add_frame.
  rewrite (proj2 (Z.eqb_neq root 0)) by done. cbn [orb r_frames new_resources r_kind r_root zlen length Z.of_nat Z.leb MAX_TASK_OWNED_FRAMES Z.compare].
  split; [done|]. split; [done|].
  set (g := fun m => st64 (st64 m root (pte 0 (PTE_R .| PTE_W .| PTE_X))) (root + 8 * 2) (table_entry L1)).
  assert (Hg : only_in [root] (p_mem p') (g (p_mem p'))).
  { eapply only_in_trans; [apply (only_in_st64 root _ root)|apply (only_in_st64 root)]; unfold FRAME_SIZE; lia. }
  exists (mkTables root None ∅ ∅), fl. split_and!; [|done..]. split; cbn [poke set_root l_pool l_res r_frames l_mem p_mem with_mem].
  - eapply pool_write; [done|exact Hg|by apply Forall_singleton|]. by intros x ->%list_elem_of_singleton.
  - unfold table_frames. cbn. by rewrite map_to_list_empty.
  - done.
  - split; cbn [t_root t_l1 t_l0 t_leaf]; try done. intros i Hi.
    assert (Hw : ld64 (p_mem p') (root + 8 * i) = 0) by by apply zeroed_word. unfold root_word. cbn [t_l1 entry_of]. unfold g.
    destruct (Z.eqb_spec i 2) as [->|N2]; [by rewrite ld64_st64 by by apply table_entry_fits|]. rewrite ld64_st64_other by lia.
    destruct (Z.eqb_spec i 0) as [->|N0]; [by rewrite Z.mul_0_r, Z.add_0_r, ld64_st64 by by apply fitsb_spec|].
    rewrite ld64_st64_other by lia. rewrite Hw. by destruct (i =? 1).
  - eapply only_in_trans; eapply only_in_mono; [|exact Ho| |exact Hg]; set_solver.
Qed.

(** A space the loader built, at any later time: the tree of its tables still
    in memory, on frames it owns and apart from its data. *)
Record space (m : mem) (b : AddressSpaceBuild) (log : list mapping) (data : list Z) : Prop := {
  sp_tree : exists T, pt_rep L1 m T /\ t_root T = as_root b /\ t_leaf T = leaf_of log
    /\ r_frames (as_resources b) ≡ₚ table_frames T ++ data;
  sp_root : r_root (as_resources b) = as_root b }.

(** Everything a finished build promises. *)
Record built (spec : ProcessSpec) (p p' : Pool) (b : AddressSpaceBuild) (fl fs sf : list Z) (dl : list mapping) : Prop := {
  bu_space : space (p_mem p') b (space_log (elf spec) fs sf dl) (fs ++ sf);
  bu_pool : pool p' fl;
  bu_entry : as_entry b = rd 8 (elf spec) 24;
  bu_image : length (image_pages (elf spec)) = length fs;
  bu_stack : length stack_pages = length sf;
  bu_devices : device_pages VIRTIO_DMA MARZ_DMA spec (p_mem p) = Some dl;
  bu_bytes : forall n va f o, image_pages (elf spec) !! n = Some va -> fs !! n = Some f -> 0 <= o < 4096 ->
    p_mem p' (f + o) = image_byte (elf spec) (va + o);
  bu_zero : forall f, f ∈ sf -> zeroed (p_mem p') f }.

Lemma build_cases spec kind p fl0 :
  pool p fl0 -> elf_ok (elf spec) = true ->
  exists r p', build_address_space checks L1 VIRTIO_DMA MARZ_DMA spec kind p = Ret (r, p')
    /\ only_in fl0 (p_mem p) (p_mem p')
    /\ match r with
       | None => exists fl, pool p' fl /\ fl ≡ₚ fl0
       | Some b => exists fl fs sf dl, built spec p p' b fl fs sf dl /\ fl0 ≡ₚ r_frames (as_resources b) ++ fl
       end.
Proof.
  intros Hp Hgood. pose proof (pool_nodup _ _ Hp) as Hn. pose proof (pool_frames _ _ Hp) as Hf. unfold build_address_space.
  destruct fl0 as [|root fl].
  { exists None, p. unfold alloc_frame. cbn [l_pool]. rewrite pool_alloc_nil by done. split_and!; [done|apply only_in_refl|]. eauto. }
  destruct (start_stage p root fl kind Hp) as (s & E & Hnz & Hst). rewrite E, (proj2 (Z.eqb_neq root 0)) by done.
  destruct (good_bytes _ Hgood) as [_ Hl].
  assert (R : runs L1 (root :: fl) (p_mem p) root (fill_space checks L1 VIRTIO_DMA MARZ_DMA spec root) (set_root root s)
    (fun entry s' => entry = rd 8 (elf spec) 24 /\ exists fs sf dl, filled L1 VIRTIO_DMA MARZ_DMA (root :: fl) (p_mem p) root spec s' fs sf dl)).
  { unfold fill_space. eapply (runs_bind _ _ _ _ _ _ _ (fun _ s' => stage L1 (root :: fl) (p_mem p) root s' [] [])); [by apply runs_poke|].
    intros _ s1 H1. apply runs_bind_pure with (rd 8 (elf spec) 24); [apply u64_at_rd; lia|].
    apply runs_bind_pure with (rd 8 (elf spec) 32); [apply u64_at_rd; lia|].
    apply runs_bind_pure with (rd 2 (elf spec) 54); [apply u16_at_rd; lia|].
    apply runs_bind_pure with (rd 2 (elf spec) 56); [apply u16_at_rd; lia|].
    apply runs_bind_pure with (span (segments (elf spec))); [by apply load_span_ok|].
    pose proof (fill_rest_runs checks L1 VIRTIO_DMA MARZ_DMA Hvirtio Hmarz (root :: fl) (p_mem p) Hn Hf root spec s1 Hgood H1) as Hfill.
    unfold image_pages in Hfill. destruct (span (segments (elf spec))) as [lo hi]. exact Hfill. }
  destruct R as (r & s' & Er & Hr). rewrite Er. cbn [mbind outcome_bind]. destruct r as [entry|].
  - destruct Hr as (-> & fs & sf & dl & [F1 F2 F3 F4 F5 F6]). exists (Some (mkBuilt root (rd 8 (elf spec) 24) (l_res s'))), (l_pool s').
    destruct F1 as (T & fl' & B & Ht & Hr & Hlf). split; [done|]. split; [by destruct B|].
    exists fl', fs, sf, dl. split; [|by destruct B]. split; try done; [|by destruct B].
    split; [|done]. exists T. split_and!; try done; by destruct B.
  - destruct Hr as (log & data & T & fl' & B & Ht & Hr & Hlf).
    exists None, (reclaim_resources (l_pool s') (l_res s')).1. split; [done|]. cbn [fst reclaim_resources].
    destruct (reclaim_frames (r_frames (l_res s')) (l_pool s') fl') as [R1 R2].
    + by destruct B.
    + rewrite <- (b_split _ _ _ _ _ _ _ B). done.
    + eapply Forall_forall. intros f Hin. rewrite Forall_forall in Hf. apply Hf. rewrite (b_split _ _ _ _ _ _ _ B). set_solver.
    + split.
      * eapply only_in_trans; [by destruct B|]. eapply only_in_mono; [|exact R2]. intros f Hin.
        rewrite (b_split _ _ _ _ _ _ _ B). set_solver.
      * eexists. split; [exact R1|]. rewrite reverse_Permutation. by rewrite (b_split _ _ _ _ _ _ _ B).
Qed.

End Whole.
