(* ===== verification/Isolation.v ===== *)
(** * Memory isolation between processes

    Processes come and go: a launch builds a space, an exit returns its frames,
    and in between a process stores to whatever its page table lets it reach.  The
    kernel opens and closes the stacks of its baked tasks in the shared level-1
    table ([set_active_task_mem]), and it and the devices may write anywhere else
    below the frame pool.  In every reachable state a process reaches only frames
    it owns, the device pages of its own launch, to read or execute the shared user
    code, and the stack of a baked task while that one is open.

    The images launched are the ones [elf_ok] accepts; the loader makes no such
    test, and [Launch] has an image outside it that breaks the kernel. *)

From Stdlib Require Import ZArith Lia.
From stdpp Require Import base option numbers gmap list.
From S2P Require Import Prelude Sched Service Frames Paging Loader LoaderTables LoaderImage LoaderSafe LoaderSpace.

(** ** What the hardware makes of a space *)

Definition mapping_ok (e : mapping) : Prop :=
  let '(va, pa, fl) := e in user_page va /\ page_pa pa /\ fits 8 fl /\ Z.testbit fl 1 = true.

Definition acc_bit (acc : access) : Z := match acc with Load => 1 | Store => 2 | Fetch => 3 end.

(** The reach of a log of mappings in the user gigabyte. *)
Definition log_reach (log : list mapping) (va : Z) (acc : access) : option Z :=
  match leaf_of log !! page_no va with
  | Some (pa, fl) => if Z.testbit fl 4 && Z.testbit fl (acc_bit acc) then Some (pa + va mod 4096) else None
  | None => None
  end.

Lemma leaf_of_in log k pa fl : leaf_of log !! k = Some (pa, fl) -> exists va, (va, pa, fl) ∈ log /\ page_no va = k.
Proof.
  induction log as [|[[va' pa'] fl'] log IH] using rev_ind; [intros H; change (leaf_of []) with (∅ : gmap Z (Z * Z)) in H; by rewrite lookup_empty in H|].
  rewrite leaf_of_snoc. destruct (decide (page_no va' = k)) as [<-|Hne].
  - rewrite lookup_insert_eq. intros [= -> ->]. exists va'. split; [|done]. apply elem_of_app. right. by left.
  - rewrite lookup_insert_ne by done. intros H. destruct (IH H) as (va & Hin & E). exists va. split; [|done].
    apply elem_of_app. by left.
Qed.

Section Access.
Context (us ue ROOT L1 : Z) (Hlay : layout us ue ROOT L1).

Definition user_gig (va : Z) : bool := (2 ^ 30 <=? va) && (va <? 2 ^ 31).

(** The shared level-1 table with no baked stack open. *)
Definition kernel_l1 (m : mem) : Prop := l1_view us ue L1 (-1) m.

Lemma tree_walk m T log va acc :
  pt_rep L1 m T -> Forall frame_ok (table_frames T) -> t_leaf T = leaf_of log -> Forall mapping_ok log ->
  user_va va -> reached (sv39_walk 2 m (t_root T) va) acc = log_reach log va acc.
Proof.
  intros [R1 R2 R3 R4 R5] Hf Hlf Hlog Hva. rewrite Forall_forall in Hf.
  pose proof (proj1 (Forall_forall _ _) Hlog) as Hlog'. unfold log_reach. rewrite <- Hlf.
  destruct (t_l1 T) as [f|] eqn:E1.
  2: { rewrite walk_empty.
       - destruct (t_leaf T !! page_no va) as [[pa fl]|] eqn:El; [|done]. apply R5 in El as [x Hx].
         by rewrite R4, lookup_empty in Hx.
       - change (Z.of_nat 2) with 2. rewrite vpn2_user by done. rewrite R1 by lia.
         change (root_word L1 T 1) with (entry_of (t_l1 T)). by rewrite E1. }
  rewrite (walk_table 1 m _ va f); [|change (Z.of_nat 2) with 2; rewrite vpn2_user by done; rewrite R1 by lia;
    change (root_word L1 T 1) with (entry_of (t_l1 T)); by rewrite E1|apply frame_page, Hf; by apply l1_frame].
  destruct (t_l0 T !! vpn 1 va) as [g|] eqn:E0.
  2: { rewrite walk_empty.
       - destruct (t_leaf T !! page_no va) as [[pa fl]|] eqn:El; [|done]. apply R5 in El as [x Hx].
         rewrite <- vpn1_page in Hx. congruence.
       - change (Z.of_nat 1) with 1. rewrite (R2 f) by (done || apply vpn_range). by rewrite E0. }
  rewrite (walk_table 0 m _ va g); [|change (Z.of_nat 1) with 1; rewrite (R2 f) by (done || apply vpn_range); by rewrite E0
    |apply frame_page, Hf; by eapply l0_frame].
  assert (Hw : ld64 m (g + 8 * vpn 0 va) = leaf_word (t_leaf T !! page_no va)).
  { rewrite (R3 (vpn 1 va) g) by (done || apply vpn_range). by rewrite page_no_split. }
  destruct (t_leaf T !! page_no va) as [[pa fl]|] eqn:El; [|rewrite walk_empty by exact Hw; done].
  rewrite Hlf in El. destruct (leaf_of_in _ _ _ _ El) as (va' & Hin & _).
  destruct (Hlog' _ Hin) as (_ & [Hpa Hal] & Hfl & Hr).
  rewrite (walk_leaf 0 m g va pa fl Hw) by (done || by split). cbn [reached]. by rewrite permits_pte.
Qed.

(** The exact reach of a built space while the stack of task [t] is open. *)
Lemma space_access_at t m b log data va acc :
  space L1 m b log data -> Forall frame_ok (r_frames (as_resources b)) -> Forall mapping_ok log -> l1_view us ue L1 t m ->
  user_access m (proc_satp (as_root b)) va acc = if user_gig va then log_reach log va acc else baked_reach us ue t va acc.
Proof.
  intros [(T & Hrep & Ht & Hlf & Hfr) _] Hf Hlog Hl1.
  assert (Htf : Forall frame_ok (table_frames T)) by (rewrite Hfr in Hf; by apply Forall_app in Hf as [? _]).
  assert (Hroot : frame_ok (t_root T)) by (rewrite Forall_forall in Htf; apply Htf, root_frame).
  unfold user_access. rewrite <- Ht, proc_satp_root by by apply frame_page.
  destruct (user_gig va) eqn:Eg.
  { unfold user_gig in Eg. bool_to_prop. assert (Hva : user_va va) by by split.
    assert (canonical va = true) as ->.
    { unfold canonical. rewrite (proj2 (Z.leb_le _ _)), (proj2 (Z.ltb_lt va _)) by lia. done. }
    change (reached (sv39_walk 2 m (t_root T) va) acc = log_reach log va acc). by apply tree_walk. }
  pose proof (rep_root _ _ _ Hrep) as Hr.
  destruct (canonical va) eqn:Ec.
  2: { symmetry. apply (baked_reach_range us ue ROOT L1 Hlay). unfold canonical, RAM_BASE in *.
       apply andb_false_iff in Ec as [Ec|Ec]; [bool_to_prop; lia|]. apply orb_false_iff in Ec as [Ec _]. bool_to_prop. lia. }
  change (reached (sv39_walk 2 m (t_root T) va) acc = baked_reach us ue t va acc).
  destruct (decide (RAM_BASE <= va < RAM_BASE + 2 ^ 30)) as [Hu|Hu].
  { apply (upper_half_reach us ue ROOT L1 Hlay); [done| |done]. rewrite Hr by lia. done. }
  rewrite (baked_reach_range us ue ROOT L1 Hlay) by done. destruct (decide (0 <= va < 2 ^ 30)) as [Hg|Hg].
  { apply gigapage_reach; [|done]. rewrite <- (Z.add_0_r (t_root T)). change 0 with (8 * 0) at 1. rewrite Hr by lia. done. }
  destruct (canonical_vpn va Ec Hg Hu) as [N0 N2].
  assert (N1 : vpn 2 va <> 1).
  { unfold canonical in Ec. rewrite andb_true_iff, orb_true_iff, andb_true_iff, !Z.leb_le, !Z.ltb_lt in Ec.
    unfold user_gig in Eg. apply andb_false_iff in Eg. rewrite Z.leb_gt, Z.ltb_ge in Eg. rewrite vpn_div by lia.
    Z.to_euclidean_division_equations; lia. }
  rewrite walk_empty; [done|]. change (Z.of_nat 2) with 2.
  rewrite Hr by apply vpn_range. unfold root_word. by rewrite !(proj2 (Z.eqb_neq _ _)) by lia.
Qed.

Lemma space_access m b log data va acc :
  space L1 m b log data -> Forall frame_ok (r_frames (as_resources b)) -> Forall mapping_ok log -> kernel_l1 m ->
  user_access m (proc_satp (as_root b)) va acc = if user_gig va then log_reach log va acc else baked_reach us ue (-1) va acc.
Proof. intros Hs Hf Hl Hk. exact (space_access_at (-1) m b log data va acc Hs Hf Hl Hk). Qed.

End Access.

(** ** Processes *)

Definition proc : Type := ProcessSpec * AddressSpaceBuild.
Definition owned (q : proc) : list Z := r_frames (as_resources q.2).
Definition satp_of (q : proc) : Z := proc_satp (as_root q.2).

(** [pm_open]: the baked task whose stack is open (none when it is no task). *)
Record Procs := mkProcs { pm_pool : Pool; pm_live : list proc; pm_open : Z }.
Definition pm_mem (s : Procs) : mem := p_mem (pm_pool s).
Definition owned_by (live : list proc) : list Z := live ≫= owned.

Section Procs.
Context (checks : bool) (us ue ROOT L1 VIRTIO_DMA MARZ_DMA : Z).

(** What the linker gives: the tables and the DMA windows are distinct aligned
    statics of the kernel image, below the frame pool. *)
Record machine_layout : Prop := {
  ml_layout : layout us ue ROOT L1;
  ml_l1 : RAM_BASE <= L1 /\ L1 + 4096 <= FRAME_POOL_BASE;
  ml_virtio : dma_ok VIRTIO_DMA;
  ml_marz : dma_ok MARZ_DMA;
  ml_l1_virtio : L1 + 4096 <= VIRTIO_DMA \/ VIRTIO_DMA + 16384 <= L1;
  ml_l1_marz : L1 + 4096 <= MARZ_DMA \/ MARZ_DMA + 16384 <= L1 }.

(** The stacks of the baked tasks lie between the image and the pool. *)
Record stacks_layout : Prop := {
  sl_below : ue + Z.of_nat MAX_TASKS * MEGA <= FRAME_POOL_BASE;
  sl_l1 : L1 + 4096 <= ue }.

Abbreviation in_l1 := (in_l1 L1).
Abbreviation granted := (granted VIRTIO_DMA MARZ_DMA).

Inductive pstep : Procs -> Procs -> Prop :=
| step_launch p live t spec kind b p' :
    elf_ok (elf spec) = true ->
    build_address_space checks L1 VIRTIO_DMA MARZ_DMA spec kind p = Ret (Some b, p') ->
    pstep (mkProcs p live t) (mkProcs p' (live ++ [(spec, b)]) t)
| step_launch_failed p live t spec kind p' :
    elf_ok (elf spec) = true ->
    build_address_space checks L1 VIRTIO_DMA MARZ_DMA spec kind p = Ret (None, p') ->
    pstep (mkProcs p live t) (mkProcs p' live t)
| step_exit p live t i q p' r :
    live !! i = Some q -> reclaim_resources p (as_resources q.2) = (p', r) ->
    pstep (mkProcs p live t) (mkProcs p' (delete i live) t)
| step_store p live t i q va v pa :
    live !! i = Some q -> user_access (p_mem p) (satp_of q) va Store = Some pa ->
    pstep (mkProcs p live t) (mkProcs (with_mem (fun m => st8 m pa v) p) live t)
| step_switch p live t t' m' :
    set_active_task_mem ue L1 t' (p_mem p) = Ret m' ->
    pstep (mkProcs p live t) (mkProcs (with_mem (fun _ => m') p) live t')
| step_outside p live t g :
    (forall a, FRAME_POOL_BASE <= a \/ in_l1 a -> g (p_mem p) a = p_mem p a) ->
    pstep (mkProcs p live t) (mkProcs (with_mem g p) live t).

(** ** The invariant *)

Definition target_ok (spec : ProcessSpec) (data : list Z) (e : mapping) : Prop :=
  let '(va, pa, fl) := e in pa ∈ data \/ (fl = URW /\ pa + 4096 <= FRAME_POOL_BASE /\ page_pa pa /\ granted spec pa).

Definition proc_ok (m : mem) (q : proc) : Prop :=
  exists log data, space L1 m q.2 log data /\ Forall mapping_ok log /\ Forall (target_ok q.1 data) log.

Record pinv (s : Procs) (fl : list Z) : Prop := {
  pi_pool : pool (pm_pool s) fl;
  pi_l1 : l1_view us ue L1 (pm_open s) (pm_mem s);
  pi_procs : Forall (proc_ok (pm_mem s)) (pm_live s);
  pi_apart : NoDup (owned_by (pm_live s) ++ fl);
  pi_frames : Forall frame_ok (owned_by (pm_live s) ++ fl) }.

Lemma pt_rep_ext m m' T :
  Forall frame_ok (table_frames T) -> (forall a, in_frames (table_frames T) a -> m' a = m a) -> pt_rep L1 m T -> pt_rep L1 m' T.
Proof.
  intros Hf Hm [R1 R2 R3 R4 R5].
  assert (Hw : forall f i, f ∈ table_frames T -> 0 <= i < 512 -> ld64 m' (f + 8 * i) = ld64 m (f + 8 * i)).
  { intros f i Hin Hi. apply ld64_ext. intros x Hx. apply Hm. exists f. split; [done|]. unfold in_frame, FRAME_SIZE. lia. }
  split; [..|done|done].
  - intros i Hi. rewrite Hw by (done || apply root_frame). by apply R1.
  - intros f i E Hi. rewrite Hw by (done || by apply l1_frame). by apply R2.
  - intros i g j E Hj. rewrite Hw by (done || by eapply l0_frame). by apply R3.
Qed.

(** A process is not disturbed by writes that miss its frames. *)
Lemma proc_ok_ext m m' q :
  Forall frame_ok (owned q) -> (forall a, in_frames (owned q) a -> m' a = m a) -> proc_ok m q -> proc_ok m' q.
Proof.
  intros Hf Hm (log & data & [(T & Hrep & Ht & Hlf & Hfr) Hr] & Hlog & Htgt). exists log, data. split; [|done].
  assert (Hsub : table_frames T ⊆ owned q). { intros f Hin. unfold owned. rewrite Hfr. apply elem_of_app. by left. }
  split; [|done]. exists T. split_and!; try done. apply pt_rep_ext with m; [|intros a Ha; apply Hm; by eapply in_frames_mono|done].
  rewrite Forall_forall in *. auto.
Qed.

(** ... nor by writes to its own data. *)
Lemma proc_ok_data m m' q log data f :
  NoDup (owned q) -> Forall frame_ok (owned q) -> space L1 m q.2 log data -> Forall mapping_ok log -> Forall (target_ok q.1 data) log ->
  f ∈ data -> only_in [f] m m' -> proc_ok m' q.
Proof.
  intros Hn Hf [(T & Hrep & Ht & Hlf & Hfr) Hr] Hlog Htgt Hin Ho. exists log, data. split; [|done]. split; [|done].
  exists T. split_and!; try done. unfold owned in *. rewrite Hfr in Hn, Hf. apply NoDup_app in Hn as (_ & Hd & _).
  apply Forall_app in Hf as [Hf1 Hf2]. rewrite Forall_forall in Hf2.
  eapply pt_rep_only_in; [exact Hrep|exact Ho|apply Forall_singleton; auto|exact Hf1|].
  intros x Hx ->%list_elem_of_singleton. by apply (Hd f Hx).
Qed.

Lemma owned_in live i q : live !! i = Some q -> owned q ⊆ owned_by live.
Proof. intros Hq f Hf. unfold owned_by. apply list_elem_of_bind. exists q. split; [done|]. by eapply list_elem_of_lookup_2. Qed.

Lemma owned_split live i q : live !! i = Some q -> owned_by live ≡ₚ owned q ++ owned_by (delete i live).
Proof. intros Hq. unfold owned_by. by rewrite (delete_Permutation live i q Hq) at 1. Qed.

Lemma owned_apart live i j q r f :
  NoDup (owned_by live) -> live !! i = Some q -> live !! j = Some r -> i <> j -> f ∈ owned q -> (f ∉ owned r).
Proof.
  intros Hn Hi Hj Hij Hf Hf'. rewrite (owned_split live i q Hi) in Hn. apply NoDup_app in Hn as (_ & Hd & _). apply (Hd f Hf).
  apply list_elem_of_bind. exists r. split; [done|]. rewrite delete_take_drop. apply elem_of_app.
  destruct (decide (j < i)%nat).
  - left. apply (list_elem_of_lookup_2 _ j). by rewrite lookup_take_lt.
  - right. apply (list_elem_of_lookup_2 _ (j - S i)). rewrite lookup_drop. rewrite <- Hj. f_equal. lia.
Qed.

Context (Hml : machine_layout) (Hsl : stacks_layout).

(** Where an access of a process can end. *)
Inductive lands (t : Z) (q : proc) (data : list Z) (va pa : Z) (acc : access) : Prop :=
| lands_own f : f ∈ data -> f ∈ owned q -> in_frame f pa -> lands t q data va pa acc
| lands_device page : granted q.1 page -> page <= pa < page + 4096 -> page_pa page -> page + 4096 <= FRAME_POOL_BASE ->
    lands t q data va pa acc
| lands_code : us <= va < ue -> pa = va -> acc <> Store -> lands t q data va pa acc
| lands_stack : 0 <= t < Z.of_nat MAX_TASKS -> ue + t * MEGA <= va < ue + (t + 1) * MEGA -> pa = va -> acc <> Fetch -> lands t q data va pa acc.

Lemma proc_lands t m q log data va acc pa :
  space L1 m q.2 log data -> Forall mapping_ok log -> Forall (target_ok q.1 data) log ->
  Forall frame_ok (owned q) -> l1_view us ue L1 t m -> user_access m (satp_of q) va acc = Some pa -> lands t q data va pa acc.
Proof.
  intros Hs Hlog Htgt Hf Hl1. unfold satp_of. rewrite (space_access_at us ue ROOT L1 (ml_layout Hml) t m q.2 log data) by done.
  destruct (user_gig va) eqn:Eg.
  - unfold log_reach. destruct (leaf_of log !! page_no va) as [[pa0 fl]|] eqn:El; [|done]. case_bool. intros [= <-].
    destruct (leaf_of_in _ _ _ _ El) as (va' & Hin & _). pose proof (proj1 (Forall_forall _ _) Htgt _ Hin) as Ht.
    pose proof (Z.mod_pos_bound va 4096 ltac:(lia)). destruct Ht as [Hd|(_ & Hb & Hp & Hg)].
    + apply lands_own with pa0; [done| |unfold in_frame, FRAME_SIZE; lia]. destruct Hs as [(T & _ & _ & _ & Hfr) _].
      unfold owned. rewrite Hfr. apply elem_of_app. by right.
    + apply lands_device with pa0; auto; lia.
  - unfold baked_reach. destruct ((us <=? va) && (va <? ue)) eqn:Ec.
    + destruct (decide (acc = Store)); [done|]. intros [= <-]. bool_to_prop. apply lands_code; auto; lia.
    + destruct ((0 <=? t) && (t <? Z.of_nat MAX_TASKS) && (ue + t * MEGA <=? va) && (va <? ue + (t + 1) * MEGA)) eqn:Et; [|done].
      destruct (decide (acc = Fetch)); [done|]. intros [= <-]. bool_to_prop. apply lands_stack; auto; lia.
Qed.

Lemma granted_not_l1 spec page a : granted spec page -> page <= a < page + 4096 -> page_pa page -> ~ in_l1 a.
Proof.
  intros Hg Ha [_ Hal] Hl. destruct Hml as [[_ _ _ _ _ [_ Hl1] _] [Hb _] _ _ H1 H2].
  unfold in_l1, granted, UART_BASE, VIRTIO_BLK_MMIO_PA, VIRTIO_MMIO_COUNT, VIRTIO_MMIO_STRIDE, MARZ_DMA_SIZE, VIRTIO_DMA_SIZE, RAM_BASE in *.
  Z.to_euclidean_division_equations; lia.
Qed.

Lemma frame_not_l1 f a : frame_ok f -> in_frame f a -> FRAME_POOL_BASE <= a /\ ~ in_l1 a.
Proof. destruct Hml as [_ [_ Hl] _ _ _ _]. unfold frame_ok, in_frame, in_l1. lia. Qed.

Lemma l1_view_ext t m m' : (forall a, in_l1 a -> m' a = m a) -> l1_view us ue L1 t m -> l1_view us ue L1 t m'.
Proof. intros Hm H i Hi. rewrite <- H by done. apply ld64_ext. intros x Hx. apply Hm. unfold in_l1. lia. Qed.

Lemma only_in_l1 fs m m' : Forall frame_ok fs -> only_in fs m m' -> forall a, in_l1 a -> m' a = m a.
Proof.
  intros Hf Ho a Ha. apply Ho. intros (f & Hin & Hfa). rewrite Forall_forall in Hf.
  by destruct (frame_not_l1 f a (Hf f Hin) Hfa).
Qed.

(** Writes to frames apart from every live process. *)
Lemma procs_undisturbed live m m' fs :
  Forall (proc_ok m) live -> Forall frame_ok (owned_by live) -> Forall frame_ok fs -> only_in fs m m' ->
  (forall f, f ∈ fs -> f ∉ owned_by live) -> Forall (proc_ok m') live.
Proof.
  intros Hp Hf Hfs Ho Hd. apply Forall_forall. intros q Hq. rewrite Forall_forall in Hp. rewrite Forall_forall in Hf.
  assert (Hsub : owned q ⊆ owned_by live) by (intros f Hin; apply list_elem_of_bind; eauto).
  apply proc_ok_ext with m; [apply Forall_forall; auto| |by apply Hp]. intros a (f & Hin & Hfa). apply Ho. intros Hc.
  apply (Hd f); [|auto]. apply (in_frames_elem fs f a); auto.
Qed.

(** Writes below the pool and off the level-1 table. *)
Lemma outside_pinv p live t fl g :
  pinv (mkProcs p live t) fl -> (forall a, FRAME_POOL_BASE <= a \/ in_l1 a -> g (p_mem p) a = p_mem p a) ->
  pinv (mkProcs (with_mem g p) live t) fl.
Proof.
  intros [H1 H2 H3 H4 H5] Hg. cbn in *. apply Forall_app in H5 as [H5 H6].
  assert (Hpool : forall a fs, Forall frame_ok fs -> in_frames fs a -> g (p_mem p) a = p_mem p a).
  { intros a fs Hfs (f & Hin & Ha). rewrite Forall_forall in Hfs. destruct (frame_not_l1 f a (Hfs f Hin) Ha). auto. }
  split; cbn; [|by apply l1_view_ext with (p_mem p); auto| |done|by apply Forall_app].
  - destruct H1 as [C1 C2 C3 C4]. split; cbn; try done. eapply free_chain_ext; [|exact C1]. intros f Hf. apply ld64_ext.
    intros x Hx. apply (Hpool x fl); [done|]. exists f. split; [done|]. unfold in_frame, FRAME_SIZE. lia.
  - rewrite Forall_forall in H3. apply Forall_forall. intros q Hq. assert (Hfq : Forall frame_ok (owned q)).
    { apply Forall_forall. intros f Hf. rewrite Forall_forall in H5. apply H5. apply list_elem_of_bind. eauto. }
    apply proc_ok_ext with (p_mem p); [done| |by apply H3]. intros a Ha. by apply (Hpool a (owned q)).
Qed.

Lemma page_log_entries flags vas fs e : e ∈ page_log flags vas fs -> exists va f, e = (va, f, flags va) /\ va ∈ vas /\ f ∈ fs.
Proof.
  intros H. unfold page_log in H. apply list_elem_of_lookup in H as [n Hn]. apply lookup_zip_with_Some in Hn as (x & y & -> & Hx & Hy).
  exists x, y. split; [done|]. split; by eapply list_elem_of_lookup_2.
Qed.

(** What a finished build is, in the terms of the invariant. *)
Lemma built_log spec p p' b fl fs sf dl :
  elf_ok (elf spec) = true -> built L1 VIRTIO_DMA MARZ_DMA spec p p' b fl fs sf dl -> Forall frame_ok (r_frames (as_resources b)) ->
  let log := space_log (elf spec) fs sf dl in Forall mapping_ok log /\ Forall (target_ok spec (fs ++ sf)) log.
Proof.
  intros Hgood Hb Hf. pose proof (device_pages_ok _ _ (ml_virtio Hml) (ml_marz Hml) _ _ _ (bu_devices _ _ _ _ _ _ _ _ _ _ _ Hb)) as Hd.
  assert (Hfs : forall f, f ∈ fs ++ sf -> frame_ok f).
  { intros f Hin. rewrite Forall_forall in Hf. apply Hf. destruct (bu_space _ _ _ _ _ _ _ _ _ _ _ Hb) as [(T & _ & _ & _ & E) _].
    rewrite E. apply elem_of_app. by right. }
  pose proof (image_user_pages (elf spec) Hgood) as Hip. rewrite Forall_forall in Hip.
  pose proof stack_user_pages as Hsp. rewrite Forall_forall in Hsp.
  cbn zeta. unfold space_log. rewrite !Forall_app. split; (split; [|split]).
  - apply Forall_forall. intros e He. apply page_log_entries in He as (va & f & -> & Hv & Hin).
    destruct (flags_at_bits (elf spec) va) as (F1 & F2 & _). split; [by apply Hip|]. split; [|by split].
    apply frame_page, Hfs, elem_of_app. by left.
  - apply Forall_forall. intros e He. apply page_log_entries in He as (va & f & -> & Hv & Hin).
    split; [by apply Hsp|]. split; [apply frame_page, Hfs, elem_of_app; by right|]. split; [apply URW_fits|done].
  - eapply Forall_impl; [exact Hd|]. intros [[va pa] fl'] (H1 & _ & H3 & _ & -> & _). split; [done|]. split; [done|].
    split; [apply URW_fits|done].
  - apply Forall_forall. intros e He. apply page_log_entries in He as (va & f & -> & Hv & Hin). left. apply elem_of_app. by left.
  - apply Forall_forall. intros e He. apply page_log_entries in He as (va & f & -> & Hv & Hin). left. apply elem_of_app. by right.
  - eapply Forall_impl; [exact Hd|]. intros [[va pa] fl'] (_ & _ & H3 & H4 & -> & H5). right. done.
Qed.

Lemma launch_pinv p live t fl0 spec kind r p' :
  pinv (mkProcs p live t) fl0 -> elf_ok (elf spec) = true ->
  build_address_space checks L1 VIRTIO_DMA MARZ_DMA spec kind p = Ret (r, p') ->
  exists fl, pinv (mkProcs p' (live ++ match r with Some b => [(spec, b)] | None => [] end) t) fl.
Proof.
  intros [H1 H2 H3 H4 H5] Hgood E. cbn in *. apply Forall_app in H5 as [H5 H6].
  destruct (build_cases checks L1 VIRTIO_DMA MARZ_DMA (lay_l1 _ _ _ _ (ml_layout Hml)) (ml_virtio Hml) (ml_marz Hml) spec kind p fl0 H1 Hgood)
    as (r' & p2 & E' & Ho & Hr). rewrite E in E'. injection E' as <- <-.
  assert (Hl1 : l1_view us ue L1 t (p_mem p')).
  { apply l1_view_ext with (p_mem p); [|done]. by apply (only_in_l1 fl0). }
  assert (Hlive : Forall (proc_ok (p_mem p')) live).
  { apply (procs_undisturbed live (p_mem p) _ fl0); auto. intros f Hf Hc. apply NoDup_app in H4 as (_ & Hd & _). by apply (Hd f). }
  destruct r as [b|].
  - destruct Hr as (fl & fs & sf & dl & Hb & Hp). exists fl.
    assert (Hown : owned_by (live ++ [(spec, b)]) ++ fl ≡ₚ owned_by live ++ fl0).
    { unfold owned_by. rewrite bind_app. cbn. rewrite app_nil_r, <- app_assoc. by rewrite Hp. }
    assert (Hfb : Forall frame_ok (r_frames (as_resources b))) by (rewrite Hp in H6; by apply Forall_app in H6 as [? _]).
    split; cbn [pm_pool pm_live pm_mem]; [by destruct Hb|done| |by rewrite Hown|rewrite Hown; by apply Forall_app].
    apply Forall_app. split; [done|]. apply Forall_singleton. destruct (built_log _ _ _ _ _ _ _ _ Hgood Hb Hfb) as [L1' L2].
    exists (space_log (elf spec) fs sf dl), (fs ++ sf). split; [by destruct Hb|done].
  - destruct Hr as (fl & Hp & Hfl). exists fl. rewrite app_nil_r. split; cbn [pm_pool pm_live pm_mem]; [done|done|done|by rewrite Hfl|].
    rewrite Hfl. by apply Forall_app.
Qed.

Lemma exit_pinv p live t fl i q :
  pinv (mkProcs p live t) fl -> live !! i = Some q ->
  exists fl', pinv (mkProcs (reclaim_resources p (as_resources q.2)).1 (delete i live) t) fl'.
Proof.
  intros [H1 H2 H3 H4 H5] Hq. cbn in *. rewrite (owned_split live i q Hq) in H4, H5. rewrite <- app_assoc in H4, H5.
  apply NoDup_app in H4 as (N1 & D1 & N2). apply Forall_app in H5 as [F1 F2].
  destruct (reclaim_frames (owned q) p fl) as [R1 R2]; [done| |done|].
  { apply NoDup_app in N2 as (_ & _ & N3). apply NoDup_app. split_and!; [done| |done]. intros f Hf Hc. apply (D1 f Hf).
    apply elem_of_app. by right. }
  assert (Hrest : Forall (proc_ok (p_mem p)) (delete i live)) by by apply Forall_delete.
  exists (reverse (owned q) ++ fl). apply Forall_app in F2 as [F2 F3]. split; cbn [pm_pool pm_live pm_mem].
  - exact R1.
  - apply l1_view_ext with (p_mem p); [|done]. by apply (only_in_l1 (owned q)).
  - apply (procs_undisturbed _ (p_mem p) _ (owned q)); auto. intros f Hf Hc. apply (D1 f Hf). apply elem_of_app. by left.
  - rewrite reverse_Permutation, (Permutation_app_swap_app _ (owned q)). apply NoDup_app. split_and!; done.
  - rewrite reverse_Permutation, (Permutation_app_swap_app _ (owned q)). by rewrite !Forall_app.
Qed.

Lemma store_pinv p live t fl i q va v pa :
  pinv (mkProcs p live t) fl -> live !! i = Some q -> user_access (p_mem p) (satp_of q) va Store = Some pa ->
  pinv (mkProcs (with_mem (fun m => st8 m pa v) p) live t) fl.
Proof.
  intros Hinv Hq Ha. pose proof Hinv as [H1 H2 H3 H4 H5]. cbn in *.
  assert (Hqf : Forall frame_ok (owned q)).
  { apply Forall_forall. intros f Hf. rewrite Forall_forall in H5. apply H5, elem_of_app. left. by eapply owned_in. }
  destruct (Forall_lookup_1 _ _ _ _ H3 Hq) as (log & data & Hs & Hlog & Htgt).
  destruct (proc_lands _ _ _ _ _ _ _ _ Hs Hlog Htgt Hqf H2 Ha) as [f Hd Hf Hfa|page Hg Hpa Hpp Hbase|_ _ Hne|Ht Hva -> _]; [|..|by destruct Hne|].
  3: { apply outside_pinv; [done|]. intros a Hca. unfold st8. destruct (Z.eqb_spec a va) as [->|]; [|done].
       destruct Hsl as [S1 S2]. unfold MEGA, in_l1 in *. lia. }
  2: { apply outside_pinv; [done|]. intros a Hca. unfold st8. destruct (Z.eqb_spec a pa) as [->|]; [|done].
       destruct Hca as [Hc|Hc]; [lia|]. by destruct (granted_not_l1 q.1 page pa). }
  assert (Hfok : frame_ok f) by (rewrite Forall_forall in Hqf; auto).
  assert (Ho : only_in [f] (p_mem p) (st8 (p_mem p) pa v)) by by apply only_in_st8.
  pose proof H4 as H4'. apply NoDup_app in H4' as (N1 & D1 & N2).
  assert (Hfl : f ∉ fl) by (apply D1; by eapply owned_in).
  split; cbn [pm_pool pm_live pm_mem p_mem with_mem]; [| | |done|done].
  - eapply pool_write; [done|exact Ho|by apply Forall_singleton|]. by intros x ->%list_elem_of_singleton.
  - apply l1_view_ext with (p_mem p); [|done]. apply (only_in_l1 [f]); [by apply Forall_singleton|done].
  - apply Forall_lookup_2. intros j r Hr. destruct (decide (i = j)) as [<-|Hne].
    + rewrite Hq in Hr. injection Hr as <-. apply (proc_ok_data (p_mem p) _ q log data f); auto.
      rewrite (owned_split live i q Hq) in N1. by apply NoDup_app in N1 as (? & _ & _).
    + apply proc_ok_ext with (p_mem p); [| |exact (Forall_lookup_1 _ _ _ _ H3 Hr)].
      * apply Forall_forall. intros g Hg. rewrite Forall_forall in H5. apply H5, elem_of_app. left. by eapply owned_in.
      * intros a (g & Hg & Hga). apply Ho. intros (x & ->%list_elem_of_singleton & Hxa).
        assert (g = f) as ->. { apply (same_frame g f a); auto. rewrite Forall_forall in H5. apply H5, elem_of_app. left. by eapply owned_in. }
        by apply (owned_apart live i j q r f).
Qed.

(** Opening and closing stacks rewrites only the level-1 table. *)
Lemma switch_pinv p live t t' fl m' :
  pinv (mkProcs p live t) fl -> set_active_task_mem ue L1 t' (p_mem p) = Ret m' -> pinv (mkProcs (with_mem (fun _ => m') p) live t') fl.
Proof.
  intros [H1 H2 H3 H4 H5] E. cbn in *. destruct (set_active_l1 us ue ROOT L1 (ml_layout Hml) t t' (p_mem p) H2) as (m2 & E2 & Hl & Ho).
  rewrite E in E2. injection E2 as <-. apply Forall_app in H5 as [H5 H6].
  assert (Hpool : forall a fs, Forall frame_ok fs -> in_frames fs a -> m' a = p_mem p a).
  { intros a fs Hfs (f & Hin & Ha). rewrite Forall_forall in Hfs. destruct (frame_not_l1 f a (Hfs f Hin) Ha). auto. }
  split; cbn; [|exact Hl| |done|by apply Forall_app].
  - destruct H1 as [C1 C2 C3 C4]. split; cbn; try done. eapply free_chain_ext; [|exact C1]. intros f Hf. apply ld64_ext.
    intros x Hx. apply (Hpool x fl); [done|]. exists f. split; [done|]. unfold in_frame, FRAME_SIZE. lia.
  - rewrite Forall_forall in H3. apply Forall_forall. intros q Hq. assert (Hfq : Forall frame_ok (owned q)).
    { apply Forall_forall. intros f Hf. rewrite Forall_forall in H5. apply H5. apply list_elem_of_bind. eauto. }
    apply proc_ok_ext with (p_mem p); [done| |by apply H3]. intros a Ha. by apply (Hpool a (owned q)).
Qed.

Lemma pstep_pinv s s' fl : pinv s fl -> pstep s s' -> exists fl', pinv s' fl'.
Proof.
  intros H Hs. destruct Hs as [p live t spec kind b p' Hg E|p live t spec kind p' Hg E|p live t i q p' r Hq E|p live t i q va v pa Hq E|p live t t' m' E|p live t g Hg].
  - by apply (launch_pinv p live t fl spec kind (Some b) p').
  - destruct (launch_pinv p live t fl spec kind None p' H Hg E) as (fl' & H'). rewrite app_nil_r in H'. eauto.
  - destruct (exit_pinv p live t fl i q H Hq) as (fl' & H'). rewrite E in H'. eauto.
  - exists fl. by eapply store_pinv.
  - exists fl. by eapply switch_pinv.
  - exists fl. by apply outside_pinv.
Qed.

(** Boot: page tables built over a zeroed [ROOT], then the frames [l] freed. *)
Definition booted_with (l : list Z) (m : mem) : Procs :=
  mkProcs (foldl link_frame (mkPool (build_page_tables us ue ROOT L1 m) 0 0 0) l) [] (-1).

Lemma booted_pinv l m :
  NoDup l -> Forall frame_ok l -> (forall i, 0 <= i < 512 -> ld64 m (ROOT + 8 * i) = 0) -> pinv (booted_with l m) (reverse l).
Proof.
  intros Hn Hf H0. unfold booted_with. set (p0 := mkPool (build_page_tables us ue ROOT L1 m) 0 0 0).
  assert (Hp0 : pool p0 []) by by split; cbn; [|constructor|constructor|].
  pose proof (link_frames l p0 [] Hp0) as Hp. rewrite !app_nil_r in Hp. specialize (Hp Hn Hf).
  assert (Hk : l1_view us ue L1 (-1) (p_mem p0)).
  { intros i Hi. apply (kt_l1 us ue ROOT L1 (-1)); [|exact Hi]. apply build_page_tables_ok; [apply (ml_layout Hml)|exact H0|lia]. }
  split; cbn [pm_pool pm_live]; [exact Hp| |constructor|by destruct Hp|by destruct Hp].
  apply (l1_view_ext (-1) (p_mem p0)); [|exact Hk]. apply (only_in_l1 l); [done|apply link_frames_only].
Qed.

Lemma reachable_pinv l m s :
  NoDup l -> Forall frame_ok l -> (forall i, 0 <= i < 512 -> ld64 m (ROOT + 8 * i) = 0) ->
  reach pstep (booted_with l m) s -> exists fl, pinv s fl.
Proof.
  intros Hn Hf H0. apply (reach_inv pstep (fun s => exists fl, pinv s fl)).
  - eexists. by apply booted_pinv.
  - intros s1 s2 [fl H] Hs. by eapply pstep_pinv.
Qed.

End Procs.

(** [frames_init] is the boot with all the frames of the pool. *)
Lemma booted_frames_init us ue ROOT L1 m :
  pm_pool (booted_with us ue ROOT L1 (frames_between FRAME_POOL_BASE FRAME_POOL_END) m)
  = frames_init (mkPool (build_page_tables us ue ROOT L1 m) 0 0 0).
Proof. unfold booted_with, frames_init. cbn [pm_pool p_mem]. reflexivity. Qed.

