(* ===== verification/Launch.v ===== *)
(** * What a launch gives a program

    The user-visible content of a finished address space: the image's bytes with
    the permissions of the segments, a zeroed stack, the granted devices and
    nothing else.  Two programs on small pools follow, one of them outside the
    images the loader is written for. *)

From Stdlib Require Import ZArith Lia.
From stdpp Require Import base option numbers gmap list.
From S2P Require Import Prelude Sched Service Frames Paging Loader LoaderTables LoaderImage LoaderSafe LoaderSpace Isolation.

Lemma leaf_of_skip log1 log2 k :
  (forall va pa fl, (va, pa, fl) ∈ log1 -> page_no va <> k) -> leaf_of (log1 ++ log2) !! k = leaf_of log2 !! k.
Proof.
  intros H. induction log2 as [|[[va pa] fl] log2 IH] using rev_ind.
  - rewrite app_nil_r. by rewrite (leaf_of_none log1 k).
  - rewrite app_assoc, !leaf_of_snoc. destruct (decide (page_no va = k)) as [<-|Hne].
    + by rewrite !lookup_insert_eq.
    + by rewrite !lookup_insert_ne.
Qed.

Lemma page_no_down va : fits 64 va -> page_no (page_down va) = page_no va.
Proof. intros H. rewrite page_down_value by done. unfold page_no. by rewrite Z.mul_comm, Z.div_mul by lia. Qed.

Lemma user_va_fits va : user_va va -> fits 64 va.
Proof. unfold user_va, fits. lia. Qed.

Lemma page_down_user va : user_va va -> user_page (page_down va) /\ page_down va <= va < page_down va + 4096.
Proof.
  intros H. rewrite page_down_value by by apply user_va_fits. unfold user_page, user_va in *.
  Z.to_euclidean_division_equations; lia.
Qed.

(** The user's rights on a page of the image: those of the segments covering it. *)
Definition segment_allows (img : list Z) (va : Z) (acc : access) : bool :=
  match acc with
  | Load => true
  | Store => existsb (fun s => seg_covers (page_down va) s && Z.testbit (s_flags s) 1) (segments img)
  | Fetch => existsb (fun s => seg_covers (page_down va) s && Z.testbit (s_flags s) 0) (segments img)
  end.

Section Reach.
Context (img : list Z) (Hgood : elf_ok img = true) (fs sf : list Z) (dl : list mapping).
Context (VIRTIO_DMA MARZ_DMA : Z) (spec : ProcessSpec).
Context (Hfs : length (image_pages img) = length fs) (Hsf : length stack_pages = length sf).
Context (Hdl : Forall (device_mapping VIRTIO_DMA MARZ_DMA spec) dl).

Abbreviation log := (space_log img fs sf dl).

Lemma image_below va : va ∈ image_pages img -> va < USER_STACK_BOTTOM.
Proof. intros H. apply (image_pages_range img Hgood) in H. lia. Qed.
Lemma stack_between va : va ∈ stack_pages <-> (USER_STACK_BOTTOM <= va < USER_STACK_TOP /\ va mod 4096 = 0).
Proof. by apply pages_elem. Qed.

Lemma device_entry va pa fl : (va, pa, fl) ∈ dl -> user_page va /\ DEV_UART_VA <= va.
Proof. intros H. pose proof (proj1 (Forall_forall _ _) Hdl _ H) as (H1 & H2 & _). done. Qed.

Lemma image_reach va : user_va va -> page_down va ∈ image_pages img ->
  exists n f, image_pages img !! n = Some (page_down va) /\ fs !! n = Some f
    /\ forall acc, log_reach log va acc = if segment_allows img va acc then Some (f + va mod 4096) else None.
Proof.
  intros Hu Hin. pose proof Hin as Hin'. apply list_elem_of_lookup in Hin as [n Hn].
  destruct (lookup_lt_is_Some_2 fs n) as [f Hf]; [rewrite <- Hfs; by eapply lookup_lt_Some|].
  exists n, f. split; [done|]. split; [done|]. intros acc. unfold log_reach. rewrite <- (page_no_down va) by by apply user_va_fits.
  assert (E : leaf_of log !! page_no (page_down va) = Some (f, flags_at (segments img) (page_down va))).
  { unfold space_log, image_log. apply (leaf_of_page _ _ _ n _ _ []); auto; [apply pages_nodup|by apply image_user_pages|].
    intros va' pa' fl' [H|H]%elem_of_app.
    - unfold stack_log in H. apply page_log_elem in H. split; [pose proof stack_user_pages as Hs; rewrite Forall_forall in Hs; auto|].
      intros Hc. apply image_below in Hc. apply stack_between in H. lia.
    - apply device_entry in H as [H1 H2]. split; [done|]. intros Hc. apply image_below in Hc.
      unfold DEV_UART_VA, USER_STACK_BOTTOM in *. lia. }
  rewrite E. destruct (flags_at_bits img (page_down va)) as (_ & F1 & F4 & F2 & F3). rewrite F4. cbn [andb].
  destruct acc; cbn [acc_bit segment_allows]; by rewrite ?F1, ?F2, ?F3.
Qed.

Lemma stack_reach va : USER_STACK_BOTTOM <= va < USER_STACK_TOP ->
  exists f, f ∈ sf /\ forall acc, log_reach log va acc = if decide (acc = Fetch) then None else Some (f + va mod 4096).
Proof.
  intros Hva. assert (Hu : user_va va) by (unfold user_va, USER_STACK_BOTTOM, USER_STACK_TOP in *; lia).
  destruct (page_down_user va Hu) as [[Hpu Hpa] Hpd].
  assert (Hin : page_down va ∈ stack_pages).
  { apply stack_between. unfold USER_STACK_BOTTOM, USER_STACK_TOP in *. Z.to_euclidean_division_equations; lia. }
  apply list_elem_of_lookup in Hin as [n Hn].
  destruct (lookup_lt_is_Some_2 sf n) as [f Hf]; [rewrite <- Hsf; by eapply lookup_lt_Some|].
  exists f. split; [by eapply list_elem_of_lookup_2|]. intros acc. unfold log_reach. rewrite <- (page_no_down va) by by apply user_va_fits.
  assert (E : leaf_of log !! page_no (page_down va) = Some (f, URW)).
  { unfold space_log, stack_log. apply (leaf_of_page (fun _ => URW) _ _ n _ _ (image_log img fs)); auto;
      [apply pages_nodup|apply stack_user_pages|].
    intros va' pa' fl' H. apply device_entry in H as [H1 H2]. split; [done|]. intros Hc. apply stack_between in Hc.
    unfold DEV_UART_VA, USER_STACK_TOP in *. lia. }
  rewrite E. by destruct acc.
Qed.

(** Off the image and the stack only the devices are left. *)
Lemma rest_reach va acc : user_va va -> (page_down va ∉ image_pages img) -> ~ (USER_STACK_BOTTOM <= va < USER_STACK_TOP) ->
  log_reach log va acc = log_reach dl va acc.
Proof.
  intros Hu Hi Hs. unfold log_reach, space_log. rewrite app_assoc.
  destruct (page_down_user va Hu) as [[Hpu Hpa] Hpd]. rewrite leaf_of_skip; [done|].
  intros va' pa' fl' [H|H]%elem_of_app; apply page_log_elem in H; rewrite <- (page_no_down va) by (by apply user_va_fits);
    intros E; apply page_no_inj in E; try done.
  - congruence.
  - pose proof (image_user_pages img Hgood) as Hp. rewrite Forall_forall in Hp. by apply Hp.
  - pose proof (image_user_pages img Hgood) as Hp. rewrite Forall_forall in Hp. by apply Hp.
  - apply stack_between in H. unfold USER_STACK_BOTTOM, USER_STACK_TOP in *. Z.to_euclidean_division_equations; lia.
  - pose proof stack_user_pages as Hp. rewrite Forall_forall in Hp. by apply Hp.
  - pose proof stack_user_pages as Hp. rewrite Forall_forall in Hp. by apply Hp.
Qed.

Lemma devices_above va acc : user_va va -> va < DEV_UART_VA -> log_reach dl va acc = None.
Proof.
  intros Hu Hva. unfold log_reach. rewrite leaf_of_none; [done|]. intros va' pa' fl' H E.
  apply device_entry in H as [[H1 H2] H3]. destruct (page_down_user va Hu) as [[Hpu Hpa] Hpd].
  rewrite <- (page_no_down va) in E by by apply user_va_fits. apply page_no_inj in E; try done. lia.
Qed.
End Reach.


(** ** Concrete launches *)

Definition ehdr (entry phnum : Z) : list Z :=
  replicate 24 0 ++ le_bytes 8 entry ++ le_bytes 8 64 ++ replicate 14 0 ++ le_bytes 2 56 ++ le_bytes 2 phnum ++ replicate 6 0.
Definition phdr (flags off va filesz memsz : Z) : list Z :=
  le_bytes 4 1 ++ le_bytes 4 flags ++ le_bytes 8 off ++ le_bytes 8 va ++ le_bytes 8 va ++ le_bytes 8 filesz
  ++ le_bytes 8 memsz ++ le_bytes 8 4096.

(** Four bytes of code, readable and executable, and a few bytes of bss. *)
Definition demo_elf : list Z := ehdr 0x40000000 1 ++ phdr 5 120 0x40000000 4 8 ++ [19; 0; 0; 0].
(** Code, and data eight bytes further on, as [userprog/linker.ld] places them. *)
Definition demo_shared : list Z :=
  ehdr 0x40000000 2 ++ phdr 5 176 0x40000000 8 8 ++ phdr 6 184 0x40000008 4 16 ++ [19; 0; 0; 0; 115; 0; 0; 0; 1; 2; 3; 4].
(** A segment at the address of the kernel's own text. *)
Definition demo_kernel_va : list Z := ehdr 0x80200000 1 ++ phdr 5 120 0x80200000 4 4 ++ [19; 0; 0; 0].

Definition demo_frames (n : Z) : list Z := (fun k => FRAME_POOL_BASE + 4096 * k) <$> seqZ 0 n.
Definition demo_boot (n : Z) : Procs := booted_with 0x80400000 0x80600000 0x80300000 0x80301000 (demo_frames n) (fun _ => 0).
Definition demo_build (img : list Z) (p : Pool) : outcome Empty_set (option AddressSpaceBuild * Pool) :=
  build_address_space true 0x80301000 0x80310000 0x80320000 (new_spec img 1 0) KForeground p.
Definition built_of (r : outcome Empty_set (option AddressSpaceBuild * Pool)) : option (AddressSpaceBuild * Pool) :=
  match r with Ret (Some b, p) => Some (b, p) | _ => None end.

Lemma built_of_Some r b p : built_of r = Some (b, p) -> r = Ret (Some b, p).
Proof. destruct r as [[[b'|] p']| |]; cbn; congruence. Qed.

Lemma demo_layout_ok : machine_layout 0x80400000 0x80600000 0x80300000 0x80301000 0x80310000 0x80320000.
Proof. split; [exact demo_layout|..]; unfold dma_ok; vm_compute; intuition congruence. Qed.

Lemma demo_stacks_ok : stacks_layout 0x80600000 0x80301000.
Proof. by split. Qed.

Lemma demo_frames_ok n : 0 <= n <= 100 -> NoDup (demo_frames n) /\ Forall frame_ok (demo_frames n).
Proof.
  intros Hn. split; [apply NoDup_fmap_2_strong; [intros; lia|apply NoDup_seqZ]|]. apply Forall_forall. intros f Hf.
  apply list_elem_of_fmap in Hf as (k & -> & Hk). apply elem_of_seqZ in Hk.
  unfold frame_ok, FRAME_POOL_BASE, FRAME_POOL_END, FRAME_SIZE. Z.to_euclidean_division_equations; lia.
Qed.

Lemma demo_boot_ready n : 0 <= n <= 100 ->
  kernel_l1 0x80400000 0x80600000 0x80301000 (pm_mem (demo_boot n)) /\ pool (pm_pool (demo_boot n)) (reverse (demo_frames n)).
Proof.
  intros Hn. destruct (demo_frames_ok n Hn) as [H1 H2].
  destruct (booted_pinv 0x80400000 0x80600000 0x80300000 0x80301000 0x80310000 0x80320000 demo_layout_ok (demo_frames n) (fun _ => 0) H1 H2)
    as [P1 P2 _ _ _]; [reflexivity|]. by split.
Qed.

(** The launch theorem on a 24-frame pool: the program's second byte, its bss and
    its stack. *)
Definition demo_view : option (option Z * option Z * option Z * option Z) :=
  '(b, p) ← built_of (demo_build demo_elf (pm_pool (demo_boot 24)));
  let see va acc := (p_mem p) <$> user_access (p_mem p) (proc_satp (as_root b)) va acc in
  Some (see 0x40000000 Fetch, see 0x40000005 Load, see 0x40000000 Store, see 0x406F0010 Store).


(** Two processes of the same image. *)
Definition demo_pair : option Procs :=
  '(b1, p1) ← built_of (demo_build demo_elf (pm_pool (demo_boot 48)));
  '(b2, p2) ← built_of (demo_build demo_elf p1);
  Some (mkProcs p2 [(new_spec demo_elf 1 0, b1); (new_spec demo_elf 1 0, b2)] (-1)).

Lemma two_launches p0 img b1 p1 b2 p2 :
  elf_ok img = true -> demo_build img p0 = Ret (Some b1, p1) -> demo_build img p1 = Ret (Some b2, p2) ->
  reach (pstep true 0x80600000 0x80301000 0x80310000 0x80320000) (mkProcs p0 [] (-1)) (mkProcs p2 [(new_spec img 1 0, b1); (new_spec img 1 0, b2)] (-1)).
Proof.
  intros Hok E1 E2. eapply reach_step; [eapply reach_step; [apply reach_refl|]|].
  - apply (step_launch true _ _ _ _ p0 [] (-1) (new_spec img 1 0) KForeground b1 p1 Hok E1).
  - apply (step_launch true _ _ _ _ p1 [(new_spec img 1 0, b1)] (-1) (new_spec img 1 0) KForeground b2 p2 Hok E2).
Qed.

Lemma demo_boot_empty n : demo_boot n = mkProcs (pm_pool (demo_boot n)) [] (-1).
Proof. unfold demo_boot, booted_with. cbn [pm_pool]. reflexivity. Qed.

Lemma demo_pair_reach s : demo_pair = Some s -> reach (pstep true 0x80600000 0x80301000 0x80310000 0x80320000) (demo_boot 48) s.
Proof.
  rewrite (demo_boot_empty 48). unfold demo_pair. generalize (pm_pool (demo_boot 48)) as p0. intros p0.
  destruct (built_of (demo_build demo_elf p0)) as [[b1 p1]|] eqn:E1; [|discriminate].
  cbn [mbind option_bind]. destruct (built_of (demo_build demo_elf p1)) as [[b2 p2]|] eqn:E2; [|discriminate].
  cbn [mbind option_bind]. intros [= <-]. apply built_of_Some in E1, E2. apply two_launches with p1; [vm_compute; reflexivity|done|done].
Qed.

Definition demo_store : option Z := s ← demo_pair; q ← pm_live s !! 0%nat; user_access (pm_mem s) (satp_of q) 0x406F0010 Store.


Lemma some_pair {A B} (a c : A) (b d : B) : Some (a, b) = Some (c, d) -> a = c /\ b = d.
Proof. intros [= -> ->]. done. Qed.

(** A page shared by an executable and a writable segment is mapped both writable and executable. *)
Theorem shared_page_is_writable_and_executable :
  elf_ok demo_shared = true
  /\ exists b p, demo_build demo_shared (pm_pool (demo_boot 24)) = Ret (Some b, p)
     /\ user_access (p_mem p) (proc_satp (as_root b)) 0x40000000 Fetch = Some 0x81016000
     /\ user_access (p_mem p) (proc_satp (as_root b)) 0x40000000 Store = Some 0x81016000.
Proof.
  split; [vm_compute; reflexivity|].
  assert (C : ('(b, p) ← built_of (demo_build demo_shared (pm_pool (demo_boot 24)));
      Some (user_access (p_mem p) (proc_satp (as_root b)) 0x40000000 Fetch, user_access (p_mem p) (proc_satp (as_root b)) 0x40000000 Store))
    = Some (Some 0x81016000, Some 0x81016000)) by (vm_compute; reflexivity).
  destruct (built_of _) as [[b p]|] eqn:E; [|discriminate C]. cbn [mbind option_bind] in C. apply some_pair in C as [C1 C2].
  apply built_of_Some in E. exists b, p. split; [exact E|]. split; [exact C1|exact C2].
Qed.

(** A segment addressed in the kernel's half is mapped through the shared level-1 table: the loader
    takes a kernel megapage for a page table and overwrites the kernel's text. *)
Theorem kernel_segment_overwrites_the_kernel :
  elf_ok demo_kernel_va = false
  /\ exists b p, demo_build demo_kernel_va (pm_pool (demo_boot 24)) = Ret (Some b, p)
     /\ ld64 (pm_mem (demo_boot 24)) 0x80200000 = 0
     /\ ld64 (p_mem p) 0x80200000 = pte 0x81016000 (PTE_U .| PTE_R .| PTE_X).
Proof.
  split; [vm_compute; reflexivity|].
  assert (C : ('(b, p) ← built_of (demo_build demo_kernel_va (pm_pool (demo_boot 24))); Some (ld64 (p_mem p) 0x80200000))
    = Some (pte 0x81016000 (PTE_U .| PTE_R .| PTE_X))) by (vm_compute; reflexivity).
  destruct (built_of _) as [[b p]|] eqn:E; [|discriminate C]. cbn [mbind option_bind] in C. pose proof (Some_inj _ _ C) as C1.
  apply built_of_Some in E. exists b, p. split; [exact E|]. split; [vm_compute; reflexivity|exact C1].
Qed.
