(* ===== verification/MarzIo.v ===== *)
(** * What the egress daemon runs on (dezh-boot/marz/src/main.rs, the accessors)

    The daemon reaches two things: the page of NIC registers and a 16 KiB window
    it shares with the NIC.  The NIC is the environment: it answers every
    register read as it likes and may rewrite the window before every access of
    the daemon.  A run ends in [sys_exit], in a fault (an access outside the two
    grants or misaligned), in a panic (whose handler spins), or parked for ever
    in [SYS_IRQ_WAIT]. *)

From Stdlib Require Import ZArith Lia String.
From stdpp Require Import base option strings numbers list.
From S2P Require Import Prelude Text Net.

Definition WINDOW : Z := 0x4000.
Definition NIC_PAGE : Z := 4096.

(** [mmio t off] is what register [off] reads at step [t]; [device t w] is the
    window after the NIC has acted before step [t]; [irq t prev] is what
    [SYS_IRQ_WAIT] returns, [None] when the kernel never wakes the daemon. *)
Record Env := mkEnv { mmio : nat -> Z -> Z; device : nat -> (Z -> Z) -> Z -> Z; irq : nat -> Z -> option Z }.

(** A register write is logged with the window the NIC finds at that moment. *)
Inductive Event := MmioRead (off v : Z) | MmioWrite (off v : Z) (seen : Z -> Z) | Printed (s : list Z).

(** The window, the step count, and the events, newest first. *)
Record St := mkSt { win : Z -> Z; time : nat; trace : list Event }.

Inductive run (A : Type) :=
| Done (a : A) (s : St)
| Exited (code : Z) (s : St)
| Faulted (s : St)
| Parked (s : St)
| Spinning (s : St)
| OutOfSteps.
Arguments Done {A} a s.
Arguments Exited {A} code s.
Arguments Faulted {A} s.
Arguments Parked {A} s.
Arguments Spinning {A} s.
Arguments OutOfSteps {A}.

Definition DM (A : Type) : Type := St -> run A.
#[export] Instance dm_ret : MRet DM := fun A a s => Done a s.
#[export] Instance dm_bind : MBind DM := fun A B f m s =>
  match m s with
  | Done a s => f a s
  | Exited c s => Exited c s | Faulted s => Faulted s | Parked s => Parked s | Spinning s => Spinning s
  | OutOfSteps => OutOfSteps
  end.

(** ** Bytes of the window *)

Definition peek (w : Z -> Z) (off n : Z) : list Z := (fun i => wrap 8 (w (off + Z.of_nat i))) <$> seq 0 (Z.to_nat n).
Definition poke (w : Z -> Z) (off : Z) (bs : list Z) : Z -> Z :=
  fun i => if (off <=? i) && (i <? off + zlen bs) then default 0 (bs !! Z.to_nat (i - off)) else w i.
Definition granted (size off n : Z) : bool := (0 <=? off) && (off + n <=? size) && (off mod n =? 0).

Section Io.
Context (env : Env).

Definition step (s : St) : St := mkSt (device env (time s) (win s)) (S (time s)) (trace s).
Definition emit (e : Event) (s : St) : St := mkSt (win s) (time s) (e :: trace s).

Definition rd (n off : Z) : DM Z := fun s =>
  let s := step s in if granted WINDOW off n then Done (le_val (peek (win s) off n)) s else Faulted s.
Definition wr (n off v : Z) : DM unit := fun s =>
  let s := step s in
  if granted WINDOW off n then Done tt (mkSt (poke (win s) off (le_bytes (Z.to_nat n) v)) (time s) (trace s)) else Faulted s.
Definition rd8 : Z -> DM Z := rd 1.
Definition rd16 : Z -> DM Z := rd 2.
Definition rd32 : Z -> DM Z := rd 4.
Definition wr8 : Z -> Z -> DM unit := wr 1.
Definition wr16 : Z -> Z -> DM unit := wr 2.
Definition wr32 : Z -> Z -> DM unit := wr 4.
Definition wr64 : Z -> Z -> DM unit := wr 8.

Definition r32 (off : Z) : DM Z := fun s =>
  let s := step s in
  if granted NIC_PAGE off 4 then let v := wrap 32 (mmio env (time s) off) in Done v (emit (MmioRead off v) s) else Faulted s.
Definition w32 (off v : Z) : DM unit := fun s =>
  let s := step s in
  if granted NIC_PAGE off 4 then Done tt (emit (MmioWrite off (wrap 32 v) (win s)) s) else Faulted s.

Definition sys_print (m : list Z) : DM unit := fun s => Done tt (emit (Printed m) (step s)).
Definition sys_exit {A} (code : Z) : DM A := fun s => Exited code (step s).
Definition sys_irq_wait (prev : Z) : DM Z := fun s =>
  let s := step s in match irq env (time s) prev with Some v => Done v s | None => Parked s end.
Definition panic {A} : DM A := fun s => Spinning s.
Definition out_of_steps {A} : DM A := fun _ => OutOfSteps.

(** [while i < n { body(i); i += 1 }] from [i]. *)
Fixpoint each (n : nat) (i : Z) (body : Z -> DM unit) : DM unit :=
  match n with O => mret tt | S n => body i ;; each n (i + 1) body end.

(** The [n] bytes at [off], read one by one. *)
Fixpoint rd_bytes (n : nat) (off : Z) : DM (list Z) :=
  match n with O => mret [] | S n => b ← rd8 off; bs ← rd_bytes n (off + 1); mret (b :: bs) end.

(** Are the [length ip] bytes at [off] those of [ip]?  Stops at the first that
    differs. *)
Fixpoint same_bytes (off : Z) (ip : list Z) : DM bool :=
  match ip with [] => mret true | b :: ip => v ← rd8 off; if v =? b then same_bytes (off + 1) ip else mret false end.

(** A big-endian 16-bit field. *)
Definition rd_be16 (off : Z) : DM Z := hi ← rd8 off; lo ← rd8 (off + 1); mret (Z.shiftl hi 8 .| lo).
End Io.

(** ** Bytes: the lemmas *)

Lemma peek_length w off n : length (peek w off n) = Z.to_nat n.
Proof. unfold peek. by rewrite length_fmap, length_seq. Qed.
Lemma peek_ok w off n : bytes_ok (peek w off n).
Proof.
  unfold bytes_ok, peek. rewrite Forall_fmap. apply Forall_forall. intros i _. cbn. apply wrap_fits. lia.
Qed.
Lemma peek_ext w w2 off n :
  (forall i, off <= i < off + n -> w i = w2 i) -> peek w off n = peek w2 off n.
Proof.
  intros H. unfold peek. apply list_fmap_ext. intros i x Hx. apply lookup_seq in Hx as [-> Hx]. f_equal. apply H. lia.
Qed.
Lemma peek_lookup w off n i : 0 <= i < n -> peek w off n !! Z.to_nat i = Some (wrap 8 (w (off + i))).
Proof.
  intros Hi. unfold peek. rewrite list_lookup_fmap, lookup_seq_lt by lia. cbn. by rewrite Z2Nat.id by lia.
Qed.

(** A window is a list once every byte of it is. *)
Lemma peek_is w off bs :
  (forall i b, bs !! i = Some b -> wrap 8 (w (off + Z.of_nat i)) = b) -> peek w off (zlen bs) = bs.
Proof.
  intros H. apply list_eq. intros i. destruct (decide (i < length bs)%nat) as [Hi|Hi].
  - destruct (lookup_lt_is_Some_2 bs i Hi) as [b Hb]. rewrite Hb.
    pose proof (peek_lookup w off (zlen bs) (Z.of_nat i)) as P. rewrite Nat2Z.id in P. rewrite P by (unfold zlen; lia).
    f_equal. by apply H.
  - rewrite !lookup_ge_None_2; [done|lia|rewrite peek_length; unfold zlen; lia].
Qed.
Lemma peek_app w off a b : 0 <= a -> 0 <= b -> peek w off (a + b) = peek w off a ++ peek w (off + a) b.
Proof.
  intros Ha Hb. apply list_eq. intros i. destruct (decide (i < Z.to_nat a)%nat) as [Hi|Hi].
  - rewrite lookup_app_l by (rewrite peek_length; lia).
    pose proof (peek_lookup w off (a + b) (Z.of_nat i)) as P. pose proof (peek_lookup w off a (Z.of_nat i)) as Q.
    rewrite Nat2Z.id in P, Q. rewrite P, Q by lia. done.
  - rewrite lookup_app_r by (rewrite peek_length; lia). rewrite peek_length. destruct (decide (i < Z.to_nat (a + b))%nat).
    + pose proof (peek_lookup w off (a + b) (Z.of_nat i)) as P. rewrite Nat2Z.id in P. rewrite P by lia.
      pose proof (peek_lookup w (off + a) b (Z.of_nat i - a)) as Q.
      replace (Z.to_nat (Z.of_nat i - a)) with (i - Z.to_nat a)%nat in Q by lia. rewrite Q by lia. do 3 f_equal. lia.
    + rewrite !lookup_ge_None_2; [done|rewrite peek_length; lia|rewrite peek_length; lia].
Qed.

Lemma poke_other w off bs i : ~ off <= i < off + zlen bs -> poke w off bs i = w i.
Proof.
  intros H. unfold poke. destruct (Z.leb_spec off i), (Z.ltb_spec i (off + zlen bs)); try done. lia.
Qed.
Lemma poke_here w off bs i b : bs !! Z.to_nat (i - off) = Some b -> off <= i -> poke w off bs i = b.
Proof.
  intros H Hi. apply lookup_lt_Some in H as Hl. unfold poke.
  rewrite (proj2 (Z.leb_le _ _)), (proj2 (Z.ltb_lt _ _)) by (unfold zlen; lia). cbn. by rewrite H.
Qed.
Lemma poke_ext w w2 off bs i : (off <= i < off + zlen bs \/ w i = w2 i) -> poke w off bs i = poke w2 off bs i.
Proof.
  intros H. unfold poke. destruct (Z.leb_spec off i), (Z.ltb_spec i (off + zlen bs)); cbn; try done; destruct H as [H|H]; try done; lia.
Qed.
Lemma peek_poke_same w off bs : bytes_ok bs -> peek (poke w off bs) off (zlen bs) = bs.
Proof.
  intros Hb. apply peek_is. intros i b Hi. rewrite (poke_here _ _ _ _ b) by (try (rewrite <- Hi; f_equal); lia).
  apply wrap_small. eapply Forall_lookup_1; [exact Hb|exact Hi].
Qed.
Lemma peek_poke_other w off bs o n : o + n <= off \/ off + zlen bs <= o -> peek (poke w off bs) o n = peek w o n.
Proof. intros H. apply peek_ext. intros i Hi. apply poke_other. lia. Qed.
Lemma zlen_le_word n v : zlen (le_bytes n v) = Z.of_nat n.
Proof. unfold zlen. by rewrite length_le_bytes. Qed.

Lemma granted_true size off n : 0 <= off -> off + n <= size -> off mod n = 0 -> granted size off n = true.
Proof.
  intros. unfold granted. by rewrite (proj2 (Z.leb_le _ _)), (proj2 (Z.leb_le _ _)), (proj2 (Z.eqb_eq _ _)).
Qed.
Lemma poke_snoc w off d b j : poke (poke w off d) (off + zlen d) [b] j = poke w off (d ++ [b]) j.
Proof.
  destruct (decide (j = off + zlen d)) as [->|Hne].
  - rewrite (poke_here _ (off + zlen d) [b] _ b); [|by rewrite Z.sub_diag|lia].
    symmetry. apply poke_here; [|pose proof (zlen_nonneg d); lia].
    unfold zlen. replace (Z.to_nat (off + Z.of_nat (length d) - off)) with (length d) by lia.
    by rewrite lookup_app_r, Nat.sub_diag by lia.
  - rewrite poke_other by (change (zlen [b]) with 1; lia). unfold poke. rewrite zlen_app. change (zlen [b]) with 1.
    destruct (Z.leb_spec off j), (Z.ltb_spec j (off + zlen d)), (Z.ltb_spec j (off + (zlen d + 1))); cbn; try done; try lia.
    rewrite lookup_app_l; [done|]. unfold zlen in *. lia.
Qed.
