(* ===== verification/Marz.v ===== *)
(** * The egress daemon (dezh-boot/marz/src/main.rs)

    The daemon that owns the NIC: bring-up, the two rings, the frames it builds
    and the replies it parses, and its three operations (send a frame, ping,
    perform an effect and wait for the answer).  The retry loops run on fuel
    that the source's own counters bound. *)

From Stdlib Require Import ZArith Lia String.
From stdpp Require Import base option strings numbers list.
From S2P Require Import Prelude Text Net MarzIo.

Definition VIRTIO_MAGIC : Z := 0x74726976.
Definition VIRTIO_ID_NET : Z := 1.
Definition VR_MAGIC : Z := 0x000.
Definition VR_DEVICE_ID : Z := 0x008.
Definition VR_HOST_FEATURES : Z := 0x010.
Definition VR_HOST_FEATURES_SEL : Z := 0x014.
Definition VR_GUEST_FEATURES : Z := 0x020.
Definition VR_GUEST_FEATURES_SEL : Z := 0x024.
Definition VR_GUEST_PAGE_SIZE : Z := 0x028.
Definition VR_QUEUE_SEL : Z := 0x030.
Definition VR_QUEUE_NUM_MAX : Z := 0x034.
Definition VR_QUEUE_NUM : Z := 0x038.
Definition VR_QUEUE_ALIGN : Z := 0x03c.
Definition VR_QUEUE_PFN : Z := 0x040.
Definition VR_QUEUE_NOTIFY : Z := 0x050.
Definition VR_STATUS : Z := 0x070.
Definition ST_ACK : Z := 1.
Definition ST_DRIVER : Z := 2.
Definition ST_DRIVER_OK : Z := 4.
Definition VQ_SIZE : Z := 8.
Definition VIRTQ_DESC_F_NEXT : Z := 1.
Definition VIRTQ_DESC_F_WRITE : Z := 2.
Definition Q_RX : Z := 0.
Definition Q_TX : Z := 1.
Definition TX_RING_OFF : Z := 0.
Definition RX_RING_OFF : Z := 0x2000.
Definition DESC_OFF : Z := 0.
Definition AVAIL_OFF : Z := 128.
Definition USED_OFF : Z := 4096.
Definition HDR_OFF : Z := 0x3100.
Definition REQ_OFF : Z := 0x3120.
Definition REQ_MAX : Z := 0xE0.
Definition FRAME_OFF : Z := 0x3200.
Definition RX_BUF0_OFF : Z := 0x3400.
Definition RX_BUF_SZ : Z := 0x600.
Definition RX_NBUF : Z := 2.
Definition NET_HDR_LEN : Z := 10.
Definition ETHERTYPE_IPV4 : Z := 0x0800.
Definition ETHERTYPE_ARP : Z := 0x0806.
Definition IP_PROTO_ICMP : Z := 1.
Definition IP_PROTO_UDP : Z := 17.
Definition OP_PING : Z := 1.
Definition OP_EFFECT : Z := 2.
Definition SRC_PORT : Z := 12345.
Definition SRC_IP : list Z := [10; 0; 2; 15].
Definition SRC_MAC : list Z := [0x52; 0x54; 0x00; 0x12; 0x34; 0x56].
Definition PING_ID : Z := 0xDE20.
Definition PING_SEQ : Z := 1.
Definition BROADCAST : list Z := replicate 6 0xff.
Definition USIZE_MAX : Z := 2 ^ 64 - 1.

(** Element [i] of a fixed-size array. *)
Definition at_ (a : list Z) (i : Z) : Z := default 0 (a !! Z.to_nat i).

Section Daemon.
Context (env : Env).
Abbreviation rd8 := (rd8 env).
Abbreviation rd16 := (rd16 env).
Abbreviation rd32 := (rd32 env).
Abbreviation wr8 := (wr8 env).
Abbreviation wr16 := (wr16 env).
Abbreviation wr32 := (wr32 env).
Abbreviation wr64 := (wr64 env).
Abbreviation r32 := (r32 env).
Abbreviation w32 := (w32 env).
Abbreviation sys_print := (sys_print env).
Abbreviation sys_exit := (sys_exit env).
Abbreviation sys_irq_wait := (sys_irq_wait env).

(** The decimal digits of a [usize]: twenty are enough. *)
Fixpoint digits (fuel : nat) (v : Z) (acc : list Z) : DM (list Z) :=
  match fuel with
  | O => panic
  | S fuel => let acc := (48 + v mod 10) :: acc in if v / 10 =? 0 then mret acc else digits fuel (v / 10) acc
  end.
Definition print_num (v : Z) : DM unit := ds ← digits 20 v []; sys_print ds.

Definition put_desc (i addr len flags next : Z) : DM unit :=
  let e := TX_RING_OFF + DESC_OFF + i * 16 in
  wr64 e addr ;; wr32 (e + 8) len ;; wr16 (e + 12) flags ;; wr16 (e + 14) next.

Definition zero_ring (base : Z) : DM unit :=
  each 256 0 (fun i => wr8 (base + i) 0) ;; each 16 0 (fun i => wr8 (base + USED_OFF + i) 0).

(** The ring of queue [q] at [ring].  [dma_pa] is a physical address, below 2^56
    on Sv39, so the sum is far from the width of [usize]. *)
Definition queue_setup (q ring dma_pa : Z) : DM bool :=
  w32 VR_QUEUE_SEL q ;;
  max ← r32 VR_QUEUE_NUM_MAX;
  if max =? 0 then mret false else
  w32 VR_QUEUE_NUM VQ_SIZE ;; w32 VR_QUEUE_ALIGN 4096 ;; w32 VR_QUEUE_PFN (Z.shiftr (dma_pa + ring) 12) ;; mret true.

(** [||] reads the second register only when the first one matches. *)
Definition nic_init (dma_pa : Z) : DM bool :=
  magic ← r32 VR_MAGIC;
  bad ← (if negb (magic =? VIRTIO_MAGIC) then mret true else id ← r32 VR_DEVICE_ID; mret (negb (id =? VIRTIO_ID_NET)));
  if bad : bool then mret false else
  w32 VR_STATUS 0 ;; w32 VR_STATUS ST_ACK ;; w32 VR_STATUS (ST_ACK .| ST_DRIVER) ;;
  w32 VR_HOST_FEATURES_SEL 0 ;; r32 VR_HOST_FEATURES ;; w32 VR_GUEST_FEATURES_SEL 0 ;; w32 VR_GUEST_FEATURES 0 ;;
  w32 VR_GUEST_PAGE_SIZE 4096 ;;
  zero_ring TX_RING_OFF ;; zero_ring RX_RING_OFF ;;
  rx ← queue_setup Q_RX RX_RING_OFF dma_pa;
  if negb rx then mret false else
  tx ← queue_setup Q_TX TX_RING_OFF dma_pa;
  if negb tx then mret false else
  w32 VR_STATUS (ST_ACK .| ST_DRIVER .| ST_DRIVER_OK) ;; mret true.

(** [internet_checksum] calls its accessor once per byte, in order. *)
Definition ip_checksum (off len : Z) : DM Z :=
  bs ← rd_bytes env (Z.to_nat len) off;
  match internet_checksum_bytes true bs with Ret c => mret c | _ => panic end.

(** ** Frames *)

Definition build_frame_to (dst_mac payload dst_ip : list Z) (dst_port : Z) : DM Z :=
  let o := FRAME_OFF in
  each 6 0 (fun i => wr8 (o + i) (at_ dst_mac i)) ;;
  each 6 0 (fun i => wr8 (o + 6 + i) (at_ SRC_MAC i)) ;;
  wr8 (o + 12) 0x08 ;; wr8 (o + 13) 0x00 ;;
  let o := FRAME_OFF + 14 in
  let udp_len := 8 + zlen payload in
  let ip_len := 20 + udp_len in
  wr8 o 0x45 ;; wr8 (o + 1) 0x00 ;; wr8 (o + 2) (Z.shiftr ip_len 8) ;; wr8 (o + 3) ip_len ;;
  wr8 (o + 4) 0x4d ;; wr8 (o + 5) 0x5a ;; wr8 (o + 6) 0x00 ;; wr8 (o + 7) 0x00 ;;
  wr8 (o + 8) 64 ;; wr8 (o + 9) 17 ;; wr8 (o + 10) 0 ;; wr8 (o + 11) 0 ;;
  each 4 0 (fun i => wr8 (o + 12 + i) (at_ SRC_IP i) ;; wr8 (o + 16 + i) (at_ dst_ip i)) ;;
  csum ← ip_checksum o 20;
  wr8 (o + 10) (Z.shiftr csum 8) ;; wr8 (o + 11) csum ;;
  let o := FRAME_OFF + 34 in
  wr8 o 0x30 ;; wr8 (o + 1) 0x39 ;; wr8 (o + 2) (Z.shiftr dst_port 8) ;; wr8 (o + 3) dst_port ;;
  wr8 (o + 4) (Z.shiftr udp_len 8) ;; wr8 (o + 5) udp_len ;; wr8 (o + 6) 0 ;; wr8 (o + 7) 0 ;;
  let o := FRAME_OFF + 42 in
  each (length payload) 0 (fun i => wr8 (o + i) (at_ payload i)) ;;
  mret (14 + ip_len).

Definition build_frame (payload dst_ip : list Z) (dst_port : Z) : DM Z := build_frame_to BROADCAST payload dst_ip dst_port.

Definition put_eth (o : Z) (dst : list Z) (ethertype : Z) : DM Z :=
  each 6 0 (fun i => wr8 (o + i) (at_ dst i) ;; wr8 (o + 6 + i) (at_ SRC_MAC i)) ;;
  wr8 (o + 12) (Z.shiftr ethertype 8) ;; wr8 (o + 13) ethertype ;; mret (o + 14).

Definition build_arp_request (target_ip : list Z) : DM Z :=
  o ← put_eth FRAME_OFF BROADCAST ETHERTYPE_ARP;
  wr8 o 0 ;; wr8 (o + 1) 1 ;; wr8 (o + 2) 0x08 ;; wr8 (o + 3) 0x00 ;; wr8 (o + 4) 6 ;; wr8 (o + 5) 4 ;;
  wr8 (o + 6) 0 ;; wr8 (o + 7) 1 ;;
  each 6 0 (fun i => wr8 (o + 8 + i) (at_ SRC_MAC i) ;; wr8 (o + 18 + i) 0) ;;
  each 4 0 (fun i => wr8 (o + 14 + i) (at_ SRC_IP i) ;; wr8 (o + 24 + i) (at_ target_ip i)) ;;
  mret (14 + 28).

Definition PING_PAYLOAD : list Z := lit "DEZH-PING".

Definition build_icmp_echo (dst_mac dst_ip : list Z) : DM Z :=
  let icmp_len := 8 + zlen PING_PAYLOAD in
  let ip_len := 20 + icmp_len in
  o ← put_eth FRAME_OFF dst_mac ETHERTYPE_IPV4;
  wr8 o 0x45 ;; wr8 (o + 1) 0x00 ;; wr8 (o + 2) (Z.shiftr ip_len 8) ;; wr8 (o + 3) ip_len ;;
  wr8 (o + 4) 0x4d ;; wr8 (o + 5) 0x5b ;; wr8 (o + 6) 0x00 ;; wr8 (o + 7) 0x00 ;;
  wr8 (o + 8) 64 ;; wr8 (o + 9) IP_PROTO_ICMP ;; wr8 (o + 10) 0 ;; wr8 (o + 11) 0 ;;
  each 4 0 (fun i => wr8 (o + 12 + i) (at_ SRC_IP i) ;; wr8 (o + 16 + i) (at_ dst_ip i)) ;;
  csum ← ip_checksum o 20;
  wr8 (o + 10) (Z.shiftr csum 8) ;; wr8 (o + 11) csum ;;
  let c := o + 20 in
  wr8 c 8 ;; wr8 (c + 1) 0 ;; wr8 (c + 2) 0 ;; wr8 (c + 3) 0 ;;
  wr8 (c + 4) (Z.shiftr PING_ID 8) ;; wr8 (c + 5) PING_ID ;; wr8 (c + 6) (Z.shiftr PING_SEQ 8) ;; wr8 (c + 7) PING_SEQ ;;
  each (length PING_PAYLOAD) 0 (fun i => wr8 (c + 8 + i) (at_ PING_PAYLOAD i)) ;;
  icsum ← ip_checksum c icmp_len;
  wr8 (c + 2) (Z.shiftr icsum 8) ;; wr8 (c + 3) icsum ;;
  mret (14 + ip_len).

(** ** Replies *)

Definition parse_arp_reply (off len : Z) (from_ip : list Z) : DM (option (list Z)) :=
  if len <? 42 then mret None else
  ethertype ← rd_be16 env (off + 12);
  if negb (ethertype =? ETHERTYPE_ARP) then mret None else
  let a := off + 14 in
  opcode ← rd_be16 env (a + 6);
  if negb (opcode =? 2) then mret None else
  from ← same_bytes env (a + 14) from_ip;
  if negb from then mret None else
  mac ← rd_bytes env 6 (a + 8); mret (Some mac).

Definition is_our_echo_reply (off len : Z) (from_ip : list Z) : DM bool :=
  if len <? 42 then mret false else
  ethertype ← rd_be16 env (off + 12);
  if negb (ethertype =? ETHERTYPE_IPV4) then mret false else
  let ip := off + 14 in
  b ← rd8 ip;
  let ihl := (b & 0x0f) * 4 in
  v ← rd8 ip;
  bad ← (if negb (Z.shiftr v 4 =? 4) then mret true else p ← rd8 (ip + 9); mret (negb (p =? IP_PROTO_ICMP)));
  if bad : bool then mret false else
  from ← same_bytes env (ip + 12) from_ip;
  if negb from then mret false else
  let c := ip + ihl in
  ty ← rd8 c;
  if negb (ty =? 0) then mret false else
  id ← rd_be16 env (c + 4);
  seq ← rd_be16 env (c + 6);
  mret ((id =? PING_ID) && (seq =? PING_SEQ)).

Definition parse_udp_reply (off len : Z) (src_ip : list Z) : DM (option (Z * Z)) :=
  if len <? 14 + 20 + 8 then mret None else
  let o := off in
  ethertype ← rd_be16 env (o + 12);
  if negb (ethertype =? ETHERTYPE_IPV4) then mret None else
  let ip := o + 14 in
  b ← rd8 ip;
  let ihl := (b & 0x0f) * 4 in
  bad ← (if ihl <? 20 then mret true else p ← rd8 (ip + 9); mret (negb (p =? IP_PROTO_UDP)));
  if bad : bool then mret None else
  from ← same_bytes env (ip + 12) src_ip;
  if negb from then mret None else
  let udp := ip + ihl in
  dport ← rd_be16 env (udp + 2);
  if negb (dport =? SRC_PORT) then mret None else
  l ← rd_be16 env (udp + 4);
  mret (Some (udp + 8, Z.max 0 (l - 8))).

Definition stage_reply (off len : Z) : DM unit :=
  let n := if REQ_MAX - 1 <? len then REQ_MAX - 1 else len in
  each (Z.to_nat n) 0 (fun i => b ← rd8 (off + i); wr8 (REQ_OFF + i) b) ;;
  wr8 (REQ_OFF + n) 0.

(** [staged_request] is a slice over the window: each byte is read when the
    frame builder copies it, and no write of the builder is into the slice. *)
Definition staged_request (len : Z) : DM (list Z) :=
  let n := if REQ_MAX <? len then REQ_MAX else len in rd_bytes env (Z.to_nat n) REQ_OFF.

(** ** Rings *)

Definition put_rx_desc (i addr len : Z) : DM unit :=
  let e := RX_RING_OFF + DESC_OFF + i * 16 in
  wr64 e addr ;; wr32 (e + 8) len ;; wr16 (e + 12) VIRTQ_DESC_F_WRITE ;; wr16 (e + 14) 0.

Definition rx_offer (dma_pa id : Z) : DM unit :=
  put_rx_desc id (dma_pa + RX_BUF0_OFF + id * RX_BUF_SZ) RX_BUF_SZ ;;
  let avail := RX_RING_OFF + AVAIL_OFF in
  idx ← rd16 (avail + 2);
  wr16 (avail + 4 + idx mod VQ_SIZE * 2) id ;;
  wr16 (avail + 2) (wrap 16 (idx + 1)) ;;
  w32 VR_QUEUE_NOTIFY Q_RX.

Definition rx_arm (dma_pa : Z) : DM unit := each (Z.to_nat RX_NBUF) 0 (rx_offer dma_pa).

(** Sleep while the used index of a ring is [old], at most [limit] times. *)
Fixpoint wait_used (fuel : nat) (limit addr old seen waits : Z) : DM bool :=
  v ← rd16 addr;
  if negb (v =? old) then mret true else
  match fuel with
  | O => out_of_steps
  | S fuel =>
    seen ← sys_irq_wait seen;
    let waits := waits + 1 in
    if limit <? waits then mret false else wait_used fuel limit addr old seen waits
  end.

Definition RX_WAITS : Z := 20000.
Definition TX_WAITS : Z := 10000.

(** [rx_wait(&mut last)] returns the new [last]. *)
Definition rx_wait (last : Z) : DM (option (Z * Z * Z) * Z) :=
  let used := RX_RING_OFF + USED_OFF in
  seen ← sys_irq_wait USIZE_MAX;
  woken ← wait_used (Z.to_nat (RX_WAITS + 1)) RX_WAITS (used + 2) last seen 0;
  if negb woken then mret (None, last) else
  let slot := last mod VQ_SIZE in
  id ← rd32 (used + 4 + slot * 8);
  len ← rd32 (used + 4 + slot * 8 + 4);
  let last := wrap 16 (last + 1) in
  if (RX_NBUF <=? id) || (len <=? NET_HDR_LEN) then mret (None, last)
  else mret (Some (id, RX_BUF0_OFF + id * RX_BUF_SZ + NET_HDR_LEN, len - NET_HDR_LEN), last).

Definition transmit (dma_pa frame_len : Z) : DM bool :=
  each (Z.to_nat NET_HDR_LEN) 0 (fun i => wr8 (HDR_OFF + i) 0) ;;
  put_desc 0 (dma_pa + HDR_OFF) NET_HDR_LEN VIRTQ_DESC_F_NEXT 1 ;;
  put_desc 1 (dma_pa + FRAME_OFF) frame_len 0 0 ;;
  let avail := TX_RING_OFF + AVAIL_OFF in
  let used := TX_RING_OFF + USED_OFF in
  idx ← rd16 (avail + 2);
  wr16 (avail + 4 + idx mod VQ_SIZE * 2) 0 ;;
  wr16 (avail + 2) (wrap 16 (idx + 1)) ;;
  before ← rd16 (used + 2);
  seen ← sys_irq_wait USIZE_MAX;
  w32 VR_QUEUE_NOTIFY Q_TX ;;
  wait_used (Z.to_nat (TX_WAITS + 1)) TX_WAITS (used + 2) before seen 0.

(** ** The operations *)

Definition no_arp : list Z := lit "  [marz] no ARP reply arrived".

(** The loop that waits for the ARP reply. *)
Fixpoint arp_loop (fuel : nat) (dma_pa : Z) (dst_ip : list Z) (last tries : Z) : DM (list Z * Z) :=
  match fuel with
  | O => out_of_steps
  | S fuel =>
    '(got, last) ← rx_wait last;
    match got with
    | None => sys_print no_arp ;; sys_exit 1
    | Some (id, off, len) =>
      hit ← parse_arp_reply off len dst_ip;
      rx_offer dma_pa id ;;
      match hit with
      | Some mac => mret (mac, last)
      | None =>
        let tries := tries + 1 in
        if 8 <? tries then sys_print no_arp ;; sys_exit 1 else arp_loop fuel dma_pa dst_ip last tries
      end
    end
  end.

Definition no_reply : list Z := lit "  [marz] no reply from the gateway".

Fixpoint reply_loop (fuel : nat) (dma_pa : Z) (dst_ip : list Z) (last tries : Z) : DM unit :=
  match fuel with
  | O => out_of_steps
  | S fuel =>
    '(got, last) ← rx_wait last;
    match got with
    | None => sys_print no_reply ;; sys_exit 2
    | Some (id, off, len) =>
      hit ← parse_udp_reply off len dst_ip;
      match hit with
      | Some (poff, plen) =>
        stage_reply poff plen ;; rx_offer dma_pa id ;;
        sys_print (lit "  [marz] EFFECT-REPLY: the gateway answered") ;; sys_exit 0
      | None =>
        rx_offer dma_pa id ;;
        let tries := tries + 1 in
        if 8 <? tries then sys_print no_reply ;; sys_exit 2 else reply_loop fuel dma_pa dst_ip last tries
      end
    end
  end.

Definition no_echo : list Z := lit "  [marz] no ICMP echo reply arrived".

Fixpoint echo_loop (fuel : nat) (dma_pa : Z) (dst_ip : list Z) (last tries : Z) : DM unit :=
  match fuel with
  | O => out_of_steps
  | S fuel =>
    '(got, last) ← rx_wait last;
    match got with
    | None => sys_print no_echo ;; sys_exit 1
    | Some (id, off, len) =>
      hit ← is_our_echo_reply off len dst_ip;
      rx_offer dma_pa id ;;
      if hit : bool then sys_print (lit "  [marz] PING-OK: ICMP echo reply received and matched (id+seq)") ;; sys_exit 0
      else
        let tries := tries + 1 in
        if 8 <? tries then sys_print no_echo ;; sys_exit 1 else echo_loop fuel dma_pa dst_ip last tries
    end
  end.

(** Nine rounds: the tenth would need [tries] at most 8 after nine misses. *)
Definition ROUNDS : nat := 9.

Definition do_effect (dma_pa : Z) (dst_ip : list Z) (dst_port req_len : Z) : DM unit :=
  rx_arm dma_pa ;;
  arp_len ← build_arp_request dst_ip;
  sent ← transmit dma_pa arp_len;
  if negb sent then sys_print (lit "  [marz] ARP request transmit timed out") ;; sys_exit 1 else
  '(gw_mac, last) ← arp_loop ROUNDS dma_pa dst_ip 0 0;
  payload ← staged_request req_len;
  frame_len ← build_frame_to gw_mac payload dst_ip dst_port;
  sent ← transmit dma_pa frame_len;
  if negb sent then sys_print (lit "  [marz] effect request transmit timed out") ;; sys_exit 1 else
  sys_print (lit "  [marz] effect request left the machine; waiting for the outcome") ;;
  reply_loop ROUNDS dma_pa dst_ip last 0.

Definition do_ping (dma_pa : Z) (dst_ip : list Z) : DM unit :=
  rx_arm dma_pa ;;
  sys_print (lit "  [marz] receive queue armed (buffers offered to the NIC)") ;;
  arp_len ← build_arp_request dst_ip;
  sent ← transmit dma_pa arp_len;
  if negb sent then sys_print (lit "  [marz] ARP request transmit timed out") ;; sys_exit 1 else
  sys_print (lit "  [marz] ARP request sent; waiting for a reply from the wire") ;;
  '(gw_mac, last) ← arp_loop ROUNDS dma_pa dst_ip 0 0;
  sys_print (lit "  [marz] ARP reply received: the destination is reachable") ;;
  icmp_len ← build_icmp_echo gw_mac dst_ip;
  sent ← transmit dma_pa icmp_len;
  if negb sent then sys_print (lit "  [marz] ICMP echo transmit timed out") ;; sys_exit 1 else
  sys_print (lit "  [marz] ICMP echo request sent; waiting for the reply") ;;
  echo_loop ROUNDS dma_pa dst_ip last 0.

Definition dest_ip (dest : Z) : list Z :=
  [wrap 8 (Z.shiftr dest 24); wrap 8 (Z.shiftr dest 16); wrap 8 (Z.shiftr dest 8); wrap 8 dest].
Definition dest_port (dest : Z) : Z := wrap 16 (Z.shiftr dest 32).
Definition SEND_PAYLOAD : list Z := lit "DEZH-MARZ-EGRESS-v0".

Definition main (op dma_pa dest a3 : Z) : DM unit :=
  sys_print (lit "  [marz] egress daemon started; holds ONLY the granted NIC page + DMA") ;;
  up ← nic_init dma_pa;
  if negb up then sys_print (lit "  [marz] no virtio-net on the granted page (device init failed)") ;; sys_exit 1 else
  sys_print (lit "  [marz] virtio-net ready (no features negotiated, transmit queue armed)") ;;
  let dst_ip := dest_ip dest in
  let dst_port := dest_port dest in
  (if op =? OP_PING then do_ping dma_pa dst_ip else mret tt) ;;
  (if op =? OP_EFFECT then do_effect dma_pa dst_ip dst_port a3 else mret tt) ;;
  frame_len ← build_frame SEND_PAYLOAD dst_ip dst_port;
  sys_print (lit "  [marz] frame built: Ethernet+IPv4+UDP len=") ;;
  print_num frame_len ;;
  sys_print (lit " payload=DEZH-MARZ-EGRESS-v0") ;;
  sent ← transmit dma_pa frame_len;
  if sent : bool then sys_print (lit "  [marz] EGRESS: frame left the machine (device consumed the buffer)") ;; sys_exit 0 else
  sys_print (lit "  [marz] transmit timed out; nothing left the machine") ;;
  sys_exit 1.
End Daemon.
