(* ===== verification/MarzSafe.v ===== *)
(** * The egress daemon ends and stays inside its grants

    For every NIC, however it answers register reads and rewrites the shared
    window, the daemon touches only its two grants, never panics and never runs
    out of the bounds of its loops: it exits with status 0, 1 or 2, unless the
    kernel leaves it asleep. *)

From Stdlib Require Import ZArith Lia String.
From stdpp Require Import base option strings numbers list.
From S2P Require Import Prelude Text Net MarzIo Marz.

Section Total.
Context (env : Env).

Definition ends {A} (Q : A -> Prop) (r : run A) : Prop :=
  match r with
  | Done a _ => Q a
  | Exited c _ => c = 0 \/ c = 1 \/ c = 2
  | Parked _ => exists t prev, irq env t prev = None
  | Faulted _ | Spinning _ | OutOfSteps => False
  end.
Definition total {A} (m : DM A) (Q : A -> Prop) : Prop := forall s, ends Q (m s).

Lemma t_ret {A} (a : A) (Q : A -> Prop) : Q a -> total (mret a) Q.
Proof. intros H s. exact H. Qed.
Lemma t_bind {A B} (m : DM A) (f : A -> DM B) (P : A -> Prop) (Q : B -> Prop) :
  total m P -> (forall a, P a -> total (f a) Q) -> total (m ≫= f) Q.
Proof.
  intros Hm Hf s. specialize (Hm s). unfold mbind, dm_bind. destruct (m s); try done. by apply Hf.
Qed.
Lemma t_seq {A B} (m : DM A) (k : DM B) (Q : B -> Prop) :
  total m (fun _ => True) -> total k Q -> total (m ;; k) Q.
Proof. intros Hm Hk. eapply t_bind; [exact Hm|]. intros _ _. exact Hk. Qed.
Lemma t_weaken {A} (m : DM A) (P Q : A -> Prop) : total m P -> (forall a, P a -> Q a) -> total m Q.
Proof. intros Hm HPQ s. specialize (Hm s). destruct (m s); try done. by apply HPQ. Qed.

Lemma t_exit {A} code (Q : A -> Prop) : code = 0 \/ code = 1 \/ code = 2 -> total (sys_exit env code) Q.
Proof. intros H s. exact H. Qed.
Lemma t_print m : total (sys_print env m) (fun _ => True).
Proof. done. Qed.
Lemma t_irq prev : total (sys_irq_wait env prev) (fun _ => True).
Proof. intros s. unfold sys_irq_wait. cbv zeta. destruct (irq _ _ _) eqn:E; cbn; eauto. Qed.
Lemma t_rd n off : granted WINDOW off n = true -> 0 <= n -> total (rd env n off) (fun v => fits (8 * n) v).
Proof.
  intros H Hn s. unfold rd. cbv zeta. rewrite H. cbn. pose proof (le_val_fits _ (peek_ok (device env (time s) (win s)) off n)) as F.
  by rewrite peek_length, Z2Nat.id in F.
Qed.
Lemma t_wr n off v : granted WINDOW off n = true -> total (wr env n off v) (fun _ => True).
Proof. intros H s. unfold wr. cbv zeta. by rewrite H. Qed.
Lemma t_r32 off : granted NIC_PAGE off 4 = true -> total (r32 env off) (fun _ => True).
Proof. intros H s. unfold r32. cbv zeta. by rewrite H. Qed.
Lemma t_w32 off v : granted NIC_PAGE off 4 = true -> total (w32 env off v) (fun _ => True).
Proof. intros H s. unfold w32. cbv zeta. by rewrite H. Qed.

Lemma t_each n a body :
  (forall i, a <= i < a + Z.of_nat n -> total (body i) (fun _ => True)) -> total (each n a body) (fun _ => True).
Proof.
  revert a. induction n as [|n IH]; intros a H; [by apply t_ret|]. cbn [each].
  eapply t_bind; [apply H; lia|]. intros _ _. apply IH. intros i Hi. apply H. lia.
Qed.
End Total.

Ltac marz_consts := unfold WINDOW, NIC_PAGE, VQ_SIZE, TX_RING_OFF, RX_RING_OFF, DESC_OFF, AVAIL_OFF, USED_OFF, HDR_OFF, REQ_OFF,
  REQ_MAX, FRAME_OFF, RX_BUF0_OFF, RX_BUF_SZ, RX_NBUF, NET_HDR_LEN, fits in *.
Ltac marz_arith := marz_consts; Z.to_euclidean_division_equations; lia.
Ltac in_grant := first [reflexivity | apply granted_true; marz_arith].

(** One step of the daemon, chosen by the operation at its head. *)
Ltac total_step :=
  cbv zeta;
  lazymatch goal with
  | |- total _ (mret _) _ => apply t_ret
  | |- total _ (sys_exit _ _) _ => apply t_exit; lia
  | |- total _ (mbind (fun _ => _) ?m) _ =>
    lazymatch m with
    | wr8 _ _ _ => apply t_seq; [apply (t_wr _ 1); in_grant|]
    | wr16 _ _ _ => apply t_seq; [apply (t_wr _ 2); in_grant|]
    | wr32 _ _ _ => apply t_seq; [apply (t_wr _ 4); in_grant|]
    | wr64 _ _ _ => apply t_seq; [apply (t_wr _ 8); in_grant|]
    | w32 _ _ _ => apply t_seq; [apply t_w32; in_grant|]
    | sys_print _ _ => apply t_seq; [apply t_print|]
    | each _ _ _ => apply t_seq; [apply t_each; intros ? ?|]
    | _ => fail
    end
  | |- total _ (if ?b then _ else _) _ => destruct b eqn:?
  | |- total _ (wr8 _ _ _) _ => apply (t_wr _ 1); in_grant
  | |- total _ (wr16 _ _ _) _ => apply (t_wr _ 2); in_grant
  | |- total _ (w32 _ _ _) _ => apply t_w32; in_grant
  | |- total _ (each _ _ _) _ => apply t_each; intros ? ?
  end.

Section Daemon.
Context (env : Env).
Abbreviation total := (total env).

Lemma t_rd8 off : 0 <= off < WINDOW -> total (rd8 env off) (fun v => fits 8 v).
Proof. intros. apply (t_rd env 1); [in_grant|lia]. Qed.
Lemma t_rd16 off : 0 <= off -> off + 2 <= WINDOW -> off mod 2 = 0 -> total (rd16 env off) (fun v => fits 16 v).
Proof. intros. apply (t_rd env 2); [in_grant|lia]. Qed.
Lemma t_rd32 off : 0 <= off -> off + 4 <= WINDOW -> off mod 4 = 0 -> total (rd32 env off) (fun v => fits 32 v).
Proof. intros. apply (t_rd env 4); [in_grant|lia]. Qed.

Lemma t_rd_bytes n off : 0 <= off -> off + Z.of_nat n <= WINDOW ->
  total (rd_bytes env n off) (fun bs => length bs = n /\ bytes_ok bs).
Proof.
  revert off. induction n as [|n IH]; intros off H0 H1; cbn [rd_bytes]; [apply t_ret; split; [done|constructor]|].
  eapply t_bind; [apply t_rd8; lia|]. intros b Hb. eapply t_bind; [apply IH; lia|]. intros bs [Hl Hbs].
  apply t_ret. split; [cbn; lia|]. by constructor.
Qed.
Lemma t_same_bytes off ip : 0 <= off -> off + zlen ip <= WINDOW -> total (same_bytes env off ip) (fun _ => True).
Proof.
  revert off. induction ip as [|b ip IH]; intros off H0 H1; cbn [same_bytes]; [by apply t_ret|].
  unfold zlen in *. cbn [length] in H1. eapply t_bind; [apply t_rd8; lia|]. intros v _. destruct (v =? b); [apply IH; lia|by apply t_ret].
Qed.
Lemma t_rd_be16 off : 0 <= off -> off + 2 <= WINDOW -> total (rd_be16 env off) (fun v => fits 16 v).
Proof.
  intros H0 H1. unfold rd_be16. eapply t_bind; [apply t_rd8; lia|]. intros hi Hhi.
  eapply t_bind; [apply t_rd8; lia|]. intros lo Hlo. apply t_ret. rewrite word_lor by done. unfold fits in *. lia.
Qed.
Lemma t_ip_checksum off len : 0 <= off -> 0 <= len -> off + len <= WINDOW -> total (ip_checksum env off len) (fun c => fits 16 c).
Proof.
  intros H0 Hl H1. unfold ip_checksum. eapply t_bind; [apply t_rd_bytes; lia|]. intros bs [Hlen Hb].
  assert (Hz : zlen bs <= MAX_CHECKSUM_LEN) by (unfold zlen, MAX_CHECKSUM_LEN, WINDOW in *; lia).
  rewrite checksum_value by done. apply t_ret. destruct (word_sum_bound bs Hb) as [Hw _].
  pose proof (residue_range (word_sum bs) Hw). unfold fits. lia.
Qed.
End Daemon.

(** One step that reads, with what is known of the value. *)
Ltac read_step :=
  cbv zeta;
  lazymatch goal with
  | |- total _ (mbind _ ?m) _ =>
    lazymatch m with
    | rd8 _ _ => eapply t_bind; [apply t_rd8; marz_arith|intros ? ?]
    | rd16 _ _ => eapply t_bind; [apply t_rd16; marz_arith|intros ? ?]
    | rd32 _ _ => eapply t_bind; [apply t_rd32; marz_arith|intros ? ?]
    | rd_be16 _ _ => eapply t_bind; [apply t_rd_be16; marz_arith|intros ? ?]
    | rd_bytes _ _ _ => eapply t_bind; [apply t_rd_bytes; marz_arith|intros ? ?]
    | same_bytes _ _ _ => eapply t_bind; [apply t_same_bytes; unfold zlen in *; marz_arith|intros ? _]
    | ip_checksum _ _ _ => eapply t_bind; [apply t_ip_checksum; marz_arith|intros ? ?]
    | r32 _ _ => eapply t_bind; [apply t_r32; in_grant|intros ? _]
    | sys_irq_wait _ _ => eapply t_bind; [apply t_irq|intros ? _]
    end
  end.
Ltac total_go := repeat first [total_step | read_step].

Section Frames.
Context (env : Env).
Abbreviation total := (total env).

Lemma t_build_frame_to mac payload ip port : zlen payload <= REQ_MAX ->
  total (build_frame_to env mac payload ip port) (fun n => n = 42 + zlen payload).
Proof.
  intros Hp. unfold build_frame_to. unfold zlen in *. total_go. lia.
Qed.
Lemma t_put_eth o mac ty : o = FRAME_OFF -> total (put_eth env o mac ty) (fun o' => o' = o + 14).
Proof. intros ->. unfold put_eth. total_go. done. Qed.
Lemma t_build_arp ip : total (build_arp_request env ip) (fun n => n = 42).
Proof.
  unfold build_arp_request. eapply t_bind; [by apply t_put_eth|]. intros o ->. total_go. done.
Qed.
Lemma t_build_icmp mac ip : total (build_icmp_echo env mac ip) (fun n => n = 51).
Proof.
  unfold build_icmp_echo. cbv zeta. eapply t_bind; [by apply t_put_eth|]. intros o ->.
  change (zlen PING_PAYLOAD) with 9. change (length PING_PAYLOAD) with 9%nat. total_go. done.
Qed.

(** ** Received frames: [off] is the start of one of the two buffers *)

Definition buffer_off (off : Z) : Prop := off = 0x340a \/ off = 0x3a0a.

Lemma t_parse_arp off len ip : buffer_off off -> length ip = 4%nat ->
  total (parse_arp_reply env off len ip) (fun r => match r with Some mac => length mac = 6%nat /\ bytes_ok mac | None => True end).
Proof.
  intros Ho Hip. unfold parse_arp_reply. unfold buffer_off in Ho. total_go; done.
Qed.
Lemma nibble_bound b : fits 8 b -> 0 <= b & 0x0f <= 15.
Proof. intros Hb. rewrite (Z.land_ones b 4 ltac:(lia) : b & 0x0f = _). change (2 ^ 4) with 16. pose proof (Z.mod_pos_bound b 16). lia. Qed.

Lemma t_is_echo off len ip : buffer_off off -> length ip = 4%nat -> total (is_our_echo_reply env off len ip) (fun _ => True).
Proof.
  intros Ho Hip. unfold is_our_echo_reply. unfold buffer_off in Ho.
  total_step; [by apply t_ret|]. read_step. total_step; [by apply t_ret|]. read_step.
  pose proof (nibble_bound a0 H0). set (ihl := (a0 & 0x0f) * 4). read_step.
  eapply (t_bind env _ _ (fun _ => True)); [total_go; done|]. intros bad _. subst ihl. total_go; done.
Qed.
Lemma t_parse_udp off len ip : buffer_off off -> length ip = 4%nat ->
  total (parse_udp_reply env off len ip)
    (fun r => match r with Some (o, n) => 0 <= o <= 0x3a60 /\ 0 <= n < 65536 | None => True end).
Proof.
  intros Ho Hip. unfold parse_udp_reply. unfold buffer_off in Ho.
  total_step; [by apply t_ret|]. read_step. total_step; [by apply t_ret|]. read_step.
  pose proof (nibble_bound a0 H0).
  eapply (t_bind env _ _ (fun _ => True)); [total_go; done|]. intros bad _.
  total_go; try done; marz_consts; lia.
Qed.
Lemma t_stage_reply o n : 0 <= o <= 0x3a60 -> 0 <= n -> total (stage_reply env o n) (fun _ => True).
Proof.
  intros Ho Hn. unfold stage_reply. cbv zeta. match goal with |- context [if ?b then ?x else ?y] => set (m := if b then x else y) end.
  assert (Hm : 0 <= m <= REQ_MAX - 1) by (subst m; destruct (Z.ltb_spec (REQ_MAX - 1) n); unfold REQ_MAX in *; lia).
  clearbody m. total_go.
Qed.
Lemma t_staged n : 0 <= n -> total (staged_request env n) (fun bs => zlen bs <= REQ_MAX /\ bytes_ok bs).
Proof.
  intros Hn. unfold staged_request. cbv zeta. match goal with |- context [if ?b then ?x else ?y] => set (m := if b then x else y) end.
  assert (Hm : 0 <= m <= REQ_MAX) by (subst m; destruct (Z.ltb_spec REQ_MAX n); unfold REQ_MAX in *; lia).
  clearbody m. eapply t_weaken; [apply t_rd_bytes; marz_arith|]. cbn. intros bs [Hl Hb]. split; [unfold zlen; lia|done].
Qed.

(** ** Rings *)

Lemma t_put_desc i a l f n : 0 <= i < 8 -> total (put_desc env i a l f n) (fun _ => True).
Proof. intros Hi. unfold put_desc. total_go. Qed.
Lemma t_rx_offer pa i : 0 <= i < RX_NBUF -> total (rx_offer env pa i) (fun _ => True).
Proof. intros Hi. unfold rx_offer. apply t_seq; [unfold put_rx_desc; total_go|]. total_go. Qed.
Lemma t_rx_arm pa : total (rx_arm env pa) (fun _ => True).
Proof. unfold rx_arm. apply t_each. intros i Hi. apply t_rx_offer. unfold RX_NBUF in *. lia. Qed.

Lemma t_wait_used fuel limit addr old seen waits :
  0 <= addr -> addr + 2 <= WINDOW -> addr mod 2 = 0 -> waits <= limit < waits + Z.of_nat fuel ->
  total (wait_used env fuel limit addr old seen waits) (fun _ => True).
Proof.
  intros H0 H1 H2. revert seen waits. induction fuel as [|fuel IH]; intros seen waits Hf; [lia|]. cbn [wait_used].
  read_step. total_step; [by apply t_ret|]. read_step. total_step; [by apply t_ret|]. apply IH. lia.
Qed.
Lemma t_rx_wait last : 0 <= last -> total (rx_wait env last)
  (fun r => 0 <= r.2 /\ match r.1 with Some (id, off, len) => 0 <= id < RX_NBUF /\ buffer_off off | None => True end).
Proof.
  intros Hl. unfold rx_wait. read_step. eapply t_bind; [apply t_wait_used; try done; unfold RX_WAITS; lia|]. intros woken _.
  assert (0 <= wrap 16 (last + 1)) by (apply wrap_fits; lia).
  total_step; [by apply t_ret|]. pose proof (Z.mod_pos_bound last VQ_SIZE ltac:(done)).
  read_step. read_step. total_step; apply t_ret; [done|]. cbn. apply orb_false_iff in Heqb0 as [Hid _]. apply Z.leb_gt in Hid.
  split; [done|]. unfold buffer_off. marz_consts. lia.
Qed.
Lemma t_transmit pa len : total (transmit env pa len) (fun _ => True).
Proof.
  unfold transmit. total_step; [total_go|]. apply t_seq; [by apply t_put_desc|]. apply t_seq; [by apply t_put_desc|].
  total_go. apply t_wait_used; try done; unfold TX_WAITS; lia.
Qed.

(** ** Loops *)

Lemma t_arp_loop fuel pa ip last tries : length ip = 4%nat -> 0 <= last -> tries <= 8 < tries + Z.of_nat fuel ->
  total (arp_loop env fuel pa ip last tries) (fun r => 0 <= r.2 /\ length r.1 = 6%nat /\ bytes_ok r.1).
Proof.
  intros Hip. revert last tries. induction fuel as [|fuel IH]; intros last tries Hl Ht; [lia|]. cbn [arp_loop].
  eapply t_bind; [by apply t_rx_wait|]. intros [[[[id off] len]|] l2] [Hl2 Hr]; cbn in Hl2, Hr; [|total_go].
  destruct Hr as [Hid Ho]. eapply t_bind; [by apply t_parse_arp|]. intros hit Hhit.
  apply t_seq; [by apply t_rx_offer|]. destruct hit as [mac|]; [by apply t_ret|]. total_step; [total_go|]. apply IH; [done|lia].
Qed.
Lemma t_reply_loop fuel pa ip last tries : length ip = 4%nat -> 0 <= last -> tries <= 8 < tries + Z.of_nat fuel ->
  total (reply_loop env fuel pa ip last tries) (fun _ => False).
Proof.
  intros Hip. revert last tries. induction fuel as [|fuel IH]; intros last tries Hl Ht; [lia|]. cbn [reply_loop].
  eapply t_bind; [by apply t_rx_wait|]. intros [[[[id off] len]|] l2] [Hl2 Hr]; cbn in Hl2, Hr; [|total_go].
  destruct Hr as [Hid Ho]. eapply t_bind; [by apply t_parse_udp|]. intros [[po pl]|] Hhit.
  - apply t_seq; [apply t_stage_reply; lia|]. apply t_seq; [by apply t_rx_offer|]. total_go.
  - apply t_seq; [by apply t_rx_offer|]. total_step; [total_go|]. apply IH; [done|lia].
Qed.
Lemma t_echo_loop fuel pa ip last tries : length ip = 4%nat -> 0 <= last -> tries <= 8 < tries + Z.of_nat fuel ->
  total (echo_loop env fuel pa ip last tries) (fun _ => False).
Proof.
  intros Hip. revert last tries. induction fuel as [|fuel IH]; intros last tries Hl Ht; [lia|]. cbn [echo_loop].
  eapply t_bind; [by apply t_rx_wait|]. intros [[[[id off] len]|] l2] [Hl2 Hr]; cbn in Hl2, Hr; [|total_go].
  destruct Hr as [Hid Ho]. eapply t_bind; [by apply t_is_echo|]. intros hit _.
  apply t_seq; [by apply t_rx_offer|]. total_step; [total_go|]. total_step; [total_go|]. apply IH; [done|lia].
Qed.

(** ** The operations *)

Lemma t_do_effect pa ip port len : length ip = 4%nat -> 0 <= len -> total (do_effect env pa ip port len) (fun _ => False).
Proof.
  intros Hip Hl. unfold do_effect. apply t_seq; [apply t_rx_arm|].
  eapply t_bind; [apply t_build_arp|]. intros n _. eapply t_bind; [apply t_transmit|]. intros sent _. total_step; [total_go|].
  eapply t_bind; [by apply t_arp_loop|]. intros [mac last] (Hlast & Hmac & _).
  eapply t_bind; [by apply t_staged|]. intros payload [Hp _].
  eapply t_bind; [by apply t_build_frame_to|]. intros m _. eapply t_bind; [apply t_transmit|]. intros sent2 _.
  total_step; [total_go|]. total_step. by apply t_reply_loop.
Qed.
Lemma t_do_ping pa ip : length ip = 4%nat -> total (do_ping env pa ip) (fun _ => False).
Proof.
  intros Hip. unfold do_ping. apply t_seq; [apply t_rx_arm|]. total_step.
  eapply t_bind; [apply t_build_arp|]. intros n _. eapply t_bind; [apply t_transmit|]. intros sent _. total_step; [total_go|].
  total_step. eapply t_bind; [by apply t_arp_loop|]. intros [mac last] (Hlast & Hmac & _). total_step.
  eapply t_bind; [apply t_build_icmp|]. intros m _. eapply t_bind; [apply t_transmit|]. intros sent2 _.
  total_step; [total_go|]. total_step. by apply t_echo_loop.
Qed.
Lemma t_zero_ring base : base = TX_RING_OFF \/ base = RX_RING_OFF -> total (zero_ring env base) (fun _ => True).
Proof. intros Hb. unfold zero_ring. total_go. Qed.
Lemma t_queue_setup q ring pa : total (queue_setup env q ring pa) (fun _ => True).
Proof. unfold queue_setup. total_go; done. Qed.
Lemma t_nic_init pa : total (nic_init env pa) (fun _ => True).
Proof.
  unfold nic_init. read_step. eapply (t_bind env _ _ (fun _ => True)); [total_go; done|]. intros bad _.
  total_step; [by apply t_ret|]. total_go.
  apply t_seq; [apply t_zero_ring; by left|]. apply t_seq; [apply t_zero_ring; by right|].
  eapply t_bind; [apply t_queue_setup|]. intros rx _. total_step; [by apply t_ret|].
  eapply t_bind; [apply t_queue_setup|]. intros tx _. total_go; done.
Qed.
Lemma t_main op pa dest a3 : 0 <= a3 -> total (main env op pa dest a3) (fun _ => False).
Proof.
  intros Ha. unfold main. total_step. eapply t_bind; [apply t_nic_init|]. intros up _. total_step; [total_go|]. total_step.
  cbv zeta. eapply (t_bind env _ _ (fun _ => True)).
  { destruct (op =? OP_PING); [|by apply t_ret]. eapply t_weaken; [by apply t_do_ping|done]. }
  intros _ _. eapply (t_bind env _ _ (fun _ => True)).
  { destruct (op =? OP_EFFECT); [|by apply t_ret]. eapply t_weaken; [by apply t_do_effect|done]. }
  intros _ _. eapply t_bind; [by apply t_build_frame_to|]. cbn beta. intros n ->. total_step.
  apply t_seq; [done|]. total_step. eapply t_bind; [apply t_transmit|]. intros sent _. total_go.
Qed.
End Frames.

(** C10: For every NIC, however it answers registers and rewrites the shared window between any two
    accesses, the egress daemon makes only aligned accesses inside its two grants, never panics, and
    exits with status 0, 1 or 2, unless a call of SYS_IRQ_WAIT never returns. *)
Theorem the_daemon_ends_inside_its_grants env op dma_pa dest a3 s :
  0 <= a3 ->
  (exists code s', main env op dma_pa dest a3 s = Exited code s' /\ (code = 0 \/ code = 1 \/ code = 2)) \/
  (exists s' t prev, main env op dma_pa dest a3 s = Parked s' /\ irq env t prev = None).
Proof.
  intros Ha. pose proof (t_main env op dma_pa dest a3 Ha s) as H. unfold ends in H.
  destruct (main env op dma_pa dest a3 s) as [|code s'|s'|s'|s'|]; try done; [left; by exists code, s'|right].
  destruct H as (t & p & H). by exists s', t, p.
Qed.

(** A silent NIC: its registers read as a virtio-net device, it never uses a buffer. *)
Definition silent_nic : Env :=
  mkEnv (fun _ off => if off =? VR_MAGIC then VIRTIO_MAGIC else if off =? VR_DEVICE_ID then VIRTIO_ID_NET else 8) (fun _ w => w) (fun t _ => Some (Z.of_nat t)).

Lemma the_daemon_ends_witness :
  let m := main silent_nic 0 0x80000000 0x22b80a000202 0 (mkSt (fun _ => 0) 0 []) in
  (exists code s', m = Exited code s' /\ (code = 0 \/ code = 1 \/ code = 2)) \/ (exists s' t prev, m = Parked s' /\ irq silent_nic t prev = None).
Proof. apply (the_daemon_ends_inside_its_grants silent_nic 0 0x80000000 0x22b80a000202 0). lia. Defined.
