(* ===== verification/MarzFrames.v ===== *)
(** * What the egress daemon puts on the wire

    Against a NIC that writes only where a virtio device may (the used rings and
    the receive buffers), every frame the daemon offers to the NIC names the
    destination it was started for: an ARP request for it, or a well-formed IPv4
    datagram to it whose checksums a receiver accepts.  [tx_frame] is the NIC's
    side of the transmit ring. *)

From Stdlib Require Import ZArith Lia String.
From stdpp Require Import base option strings numbers list.
From S2P Require Import Prelude Text Net MarzIo Marz MarzSafe.

(** The parts of the window no device-writable descriptor or used ring covers. *)
Definition private (i : Z) : bool :=
  (0 <=? i) && (i <? 0x1000) || (0x2000 <=? i) && (i <? 0x3000) || (0x3100 <=? i) && (i <? 0x3400).
Definition well_behaved (env : Env) : Prop := forall t w i, private i = true -> device env t w i = w i.

Definition agree (w w2 : Z -> Z) : Prop := forall i, private i = true -> w2 i = w i.
#[export] Instance agree_refl : Reflexive agree.
Proof. by intros w i. Qed.
#[export] Instance agree_trans : Transitive agree.
Proof. intros a b c H1 H2 i Hi. by rewrite H2, H1. Qed.

(** Every byte of [off, off + n) is private. *)
Definition private_range (off n : Z) : Prop := forall i, off <= i < off + n -> private i = true.

Ltac private_arith :=
  unfold private;
  repeat match goal with
  | |- context [?a <=? ?b] => destruct (Z.leb_spec a b)
  | |- context [?a <? ?b] => destruct (Z.ltb_spec a b)
  end; cbn; try done; exfalso; marz_consts; lia.

Lemma private_tx off n : 0 <= off -> off + n <= 0x1000 -> private_range off n.
Proof. intros H0 H1 i Hi. private_arith. Qed.
Lemma private_rx off n : 0x2000 <= off -> off + n <= 0x3000 -> private_range off n.
Proof. intros H0 H1 i Hi. private_arith. Qed.
Lemma private_staging off n : 0x3100 <= off -> off + n <= 0x3400 -> private_range off n.
Proof. intros H0 H1 i Hi. private_arith. Qed.
Ltac in_private := first [apply private_tx; marz_consts; lia | apply private_rx; marz_consts; lia | apply private_staging; marz_consts; lia
  | apply private_tx; marz_arith | apply private_rx; marz_arith | apply private_staging; marz_arith].

Lemma agree_peek w w2 off n : agree w w2 -> private_range off n -> peek w2 off n = peek w off n.
Proof. intros H Hp. apply peek_ext. intros i Hi. by apply H, Hp. Qed.
Lemma agree_poke w w2 off bs : agree w w2 -> agree (poke w off bs) (poke w2 off bs).
Proof. intros H i Hi. apply poke_ext. right. by apply H. Qed.

(** ** The NIC's side: the frame behind the newest entry of the available ring *)

Definition field (w : Z -> Z) (off n : Z) : Z := le_val (peek w off n).

(** The bytes of a descriptor chain. *)
Fixpoint chain (fuel : nat) (w : Z -> Z) (pa i : Z) : list Z :=
  match fuel with
  | O => []
  | S fuel =>
    let e := TX_RING_OFF + DESC_OFF + i * 16 in
    peek w (field w e 8 - pa) (field w (e + 8) 4) ++
    (if field w (e + 12) 2 & VIRTQ_DESC_F_NEXT =? 0 then [] else chain fuel w pa (field w (e + 14) 2))
  end.
Definition tx_frame (pa : Z) (w : Z -> Z) : list Z :=
  let avail := TX_RING_OFF + AVAIL_OFF in
  let head := field w (avail + 4 + (field w (avail + 2) 2 - 1) mod VQ_SIZE * 2) 2 in
  drop (Z.to_nat NET_HDR_LEN) (chain (Z.to_nat VQ_SIZE) w pa head).

(** ** Frames *)

Definition be16 (v : Z) : list Z := [wrap 8 (Z.shiftr v 8); wrap 8 v].

Definition arp_request (ip : list Z) : list Z :=
  BROADCAST ++ SRC_MAC ++ [8; 6] ++ [0; 1; 8; 0; 6; 4; 0; 1] ++ SRC_MAC ++ SRC_IP ++ replicate 6 0 ++ ip.
Definition arp_for (ip f : list Z) : Prop := f = arp_request ip.

Definition ip_header (len id proto csum : Z) (ip : list Z) : list Z :=
  [0x45; 0] ++ be16 len ++ [0x4d; id; 0; 0; 64; proto] ++ be16 csum ++ SRC_IP ++ ip.

(** An Ethernet frame from this machine with one unfragmented IPv4 datagram for
    [ip], whose header checksum a receiver accepts. *)
Definition ipv4_to (ip : list Z) (proto : Z) (body f : list Z) : Prop :=
  exists mac id csum,
    let h := ip_header (20 + zlen body) id proto csum ip in
    length mac = 6%nat /\ f = mac ++ SRC_MAC ++ [8; 0] ++ h ++ body /\ internet_checksum_bytes true h = Ret 0.
Definition udp_to (ip : list Z) (port : Z) (payload f : list Z) : Prop :=
  ipv4_to ip IP_PROTO_UDP (be16 SRC_PORT ++ be16 port ++ be16 (8 + zlen payload) ++ [0; 0] ++ payload) f.
Definition echo_to (ip f : list Z) : Prop :=
  exists csum,
    let body := [8; 0] ++ be16 csum ++ be16 PING_ID ++ be16 PING_SEQ ++ PING_PAYLOAD in
    ipv4_to ip IP_PROTO_ICMP body f /\ internet_checksum_bytes true body = Ret 0.

(** ** A program logic for the private part of the window

    [E] holds of every event; [P] and [Q] speak of the window, and a stable
    predicate only of its private part. *)

Definition stable (P : (Z -> Z) -> Prop) : Prop := forall w w2, agree w w2 -> P w -> P w2.

Section Logic.
Context (env : Env) (Henv : well_behaved env) (E : Event -> Prop).
Context (E_read : forall off v, E (MmioRead off v)) (E_print : forall m, E (Printed m)).
Context (E_other : forall off v w, off <> VR_QUEUE_NOTIFY \/ v <> Q_TX -> E (MmioWrite off v w)).

Definition spec {A} (P : (Z -> Z) -> Prop) (m : DM A) (Q : A -> (Z -> Z) -> Prop) : Prop :=
  forall s, P (win s) -> Forall E (trace s) ->
  match m s with
  | Done a s' => Q a (win s') /\ Forall E (trace s')
  | Exited _ s' | Faulted s' | Parked s' | Spinning s' => Forall E (trace s')
  | OutOfSteps => True
  end.

Lemma step_agree s : agree (win s) (win (step env s)).
Proof. intros i Hi. by apply Henv. Qed.

Lemma s_ret {A} (a : A) (P : (Z -> Z) -> Prop) (Q : A -> (Z -> Z) -> Prop) : (forall w, P w -> Q a w) -> spec P (mret a) Q.
Proof. intros H s HP HT. split; [by apply H|done]. Qed.
Lemma s_bind {A B} (m : DM A) (f : A -> DM B) P R Q : spec P m R -> (forall a, spec (R a) (f a) Q) -> spec P (m ≫= f) Q.
Proof.
  intros Hm Hf s HP HT. specialize (Hm s HP HT). unfold mbind, dm_bind. destruct (m s); try done.
  destruct Hm. by apply Hf.
Qed.
Lemma s_conseq {A} (m : DM A) (P P2 : (Z -> Z) -> Prop) (Q Q2 : A -> (Z -> Z) -> Prop) :
  spec P2 m Q2 -> (forall w, P w -> P2 w) -> (forall a w, Q2 a w -> Q a w) -> spec P m Q.
Proof.
  intros Hm HP HQ s Hs HT. specialize (Hm s (HP _ Hs) HT). destruct (m s); try done. destruct Hm. split; [by apply HQ|done].
Qed.
(** Fix the private part of the window on entry. *)
Lemma s_exact {A} (m : DM A) (P : (Z -> Z) -> Prop) Q : (forall w, P w -> spec (agree w) m Q) -> spec P m Q.
Proof. intros H s HP HT. exact (H (win s) HP s (agree_refl _) HT). Qed.

Lemma s_exit {A} code P (Q : A -> (Z -> Z) -> Prop) : spec P (sys_exit env code) Q.
Proof. by intros s HP HT. Qed.
Lemma s_print P m : stable P -> spec P (sys_print env m) (fun _ => P).
Proof. intros HP s Hs HT. split; [exact (HP _ _ (step_agree s) Hs)|]. by constructor. Qed.
Lemma s_irq P prev : stable P -> spec P (sys_irq_wait env prev) (fun _ => P).
Proof.
  intros HP s Hs HT. unfold sys_irq_wait. cbv zeta. destruct (irq _ _ _); [|done].
  split; [exact (HP _ _ (step_agree s) Hs)|done].
Qed.
Lemma s_r32 P off : stable P -> spec P (r32 env off) (fun _ => P).
Proof.
  intros HP s Hs HT. unfold r32. cbv zeta. destruct (granted _ _ _); [|done].
  split; [exact (HP _ _ (step_agree s) Hs)|]. by constructor.
Qed.
Lemma s_w32 P off v : stable P -> (forall w, P w -> E (MmioWrite off (wrap 32 v) w)) -> spec P (w32 env off v) (fun _ => P).
Proof.
  intros HP HE s Hs HT. unfold w32. cbv zeta. destruct (granted _ _ _); [|done].
  pose proof (HP _ _ (step_agree s) Hs). split; [done|]. constructor; [by apply HE|done].
Qed.
Lemma s_rd P n off : stable P ->
  spec P (rd env n off) (fun v w => P w /\ (private_range off n -> v = field w off n)).
Proof.
  intros HP s Hs HT. unfold rd. cbv zeta. destruct (granted _ _ _); [|done].
  pose proof (HP _ _ (step_agree s) Hs). done.
Qed.
Lemma s_wr P (Q : unit -> (Z -> Z) -> Prop) n off v : stable P ->
  (forall w, P w -> Q tt (poke w off (le_bytes (Z.to_nat n) v))) -> spec P (wr env n off v) Q.
Proof.
  intros HP HQ s Hs HT. unfold wr. cbv zeta. destruct (granted _ _ _); [|done]. split; [|done]. apply HQ.
  exact (HP _ _ (step_agree s) Hs).
Qed.

Lemma stable_agree w : stable (agree w).
Proof. intros a b Hab Ha. by etrans. Qed.
Lemma stable_true : stable (fun _ => True).
Proof. done. Qed.

(** ** Straight-line code on a known private window *)

Lemma x_wr {B} w n off v (k : DM B) Q :
  spec (agree (poke w off (le_bytes (Z.to_nat n) v))) k Q -> spec (agree w) (wr env n off v ;; k) Q.
Proof.
  intros Hk. eapply (s_bind _ _ _ (fun _ => agree _)); [|intros ?; exact Hk]. apply s_wr; [apply stable_agree|]. intros w2 Hw. by apply agree_poke.
Qed.
Lemma x_rd {B} w n off (k : Z -> DM B) Q :
  private_range off n -> spec (agree w) (k (field w off n)) Q -> spec (agree w) (rd env n off ≫= k) Q.
Proof.
  intros Hp Hk. eapply s_bind; [apply s_rd, stable_agree|]. intros v s [Hw Hv] HT.
  rewrite (Hv Hp). unfold field. rewrite (agree_peek w) by done. by apply Hk.
Qed.
Lemma x_ret {A} w (a : A) (Q : A -> (Z -> Z) -> Prop) : (forall w2, agree w w2 -> Q a w2) -> spec (agree w) (mret a) Q.
Proof. apply s_ret. Qed.
Lemma x_assoc {A B C} (m : DM A) (f : A -> DM B) (g : B -> DM C) P Q :
  spec P (m ≫= fun a => f a ≫= g) Q -> spec P ((m ≫= f) ≫= g) Q.
Proof.
  intros H s HP HT. specialize (H s HP HT). unfold mbind, dm_bind in *. by destruct (m s).
Qed.
Lemma x_ret_bind {A B} (a : A) (k : A -> DM B) P Q : spec P (k a) Q -> spec P (mret a ≫= k) Q.
Proof. done. Qed.

Lemma x_rd_bytes {B} w n off (k : list Z -> DM B) Q :
  private_range off (Z.of_nat n) -> spec (agree w) (k (peek w off (Z.of_nat n))) Q -> spec (agree w) (rd_bytes env n off ≫= k) Q.
Proof.
  revert off k. induction n as [|n IH]; intros off k Hp Hk; [exact Hk|]. cbn [rd_bytes]. apply x_assoc, x_rd.
  { intros i Hi. apply Hp. lia. }
  apply x_assoc, IH. { intros i Hi. apply Hp. lia. }
  cbv beta. apply x_ret_bind. replace (Z.of_nat (S n)) with (1 + Z.of_nat n) in Hk by lia. rewrite peek_app in Hk by lia.
  unfold field. change (peek w off 1) with [wrap 8 (w (off + 0))] in *. cbn [le_val app] in *.
  by rewrite Z.shiftl_0_l, Z.lor_0_r.
Qed.
Lemma x_checksum {B} w off len (k : Z -> DM B) Q :
  private_range off len -> 0 <= len <= WINDOW ->
  spec (agree w) (k (65535 - residue (word_sum (peek w off len)))) Q -> spec (agree w) (ip_checksum env off len ≫= k) Q.
Proof.
  intros Hp Hl Hk. unfold ip_checksum. apply x_assoc, x_rd_bytes; rewrite Z2Nat.id by lia; [done|].
  rewrite checksum_value; [exact Hk|apply peek_ok|]. unfold zlen. rewrite peek_length. unfold MAX_CHECKSUM_LEN, WINDOW in *. lia.
Qed.

Lemma x_put_bytes {B} w off i bs done_ (k : DM B) Q :
  bytes_ok bs -> bs = done_ ++ drop (length done_) bs -> i = zlen done_ ->
  spec (agree (poke w off bs)) k Q ->
  spec (agree (poke w off done_)) (each (length bs - length done_) i (fun i => wr8 env (off + i) (at_ bs i)) ;; k) Q.
Proof.
  intros Hb. remember (length bs - length done_)%nat as n eqn:En. revert i done_ En. induction n as [|n IH]; intros i done_ En Hd Hi Hk.
  - cbn [each]. apply x_ret_bind. rewrite drop_ge, app_nil_r in Hd by lia. by rewrite <- Hd.
  - cbn [each]. apply x_assoc, x_wr. cbv beta. destruct (lookup_lt_is_Some_2 bs (length done_)) as [b Hbl]; [lia|].
    assert (Eat : at_ bs i = b) by (unfold at_; subst i; unfold zlen; by rewrite Nat2Z.id, Hbl). rewrite Eat.
    change (le_bytes (Z.to_nat 1) b) with [wrap 8 b]. rewrite wrap_small by (eapply Forall_lookup_1; [exact Hb|exact Hbl]).
    assert (Hd2 : bs = (done_ ++ [b]) ++ drop (length (done_ ++ [b])) bs).
    { rewrite length_app, Nat.add_1_r. rewrite Hd at 1. rewrite <- app_assoc. f_equal. cbn. by apply drop_S. }
    pose proof (IH (i + 1) (done_ ++ [b]) ltac:(rewrite length_app; cbn; lia) Hd2 ltac:(rewrite zlen_app; unfold zlen in *; cbn; lia) Hk) as H.
    intros s Hs HT. apply H; [|done]. etrans; [|exact Hs]. intros j _. subst i. apply poke_snoc.
Qed.
Lemma x_put_all {B} w off bs (k : DM B) Q :
  bytes_ok bs -> spec (agree (poke w off bs)) k Q ->
  spec (agree w) (each (length bs) 0 (fun i => wr8 env (off + i) (at_ bs i)) ;; k) Q.
Proof.
  intros Hb Hk. pose proof (x_put_bytes w off 0 bs [] k Q Hb eq_refl eq_refl Hk) as H. cbn [length] in H.
  rewrite Nat.sub_0_r in H. intros s Hs HT. apply H; [|done]. etrans; [|exact Hs]. intros j _. symmetry. apply poke_other.
  change (zlen []) with 0. lia.
Qed.

(** ** Code that keeps a stable predicate *)

Lemma s_total {A} P (m : DM A) T Q : total env m T -> spec P m Q -> spec P m (fun a w => T a /\ Q a w).
Proof. intros HT HS s HP HE. specialize (HT s). specialize (HS s HP HE). destruct (m s); try done. by destruct HS. Qed.
Lemma s_false {A} (m : DM A) Q : spec (fun _ => False) m Q.
Proof. by intros s []. Qed.
Lemma q_bind {A B} P (m : DM A) (k : A -> DM B) Q :
  spec P m (fun _ => P) -> (forall a, spec P (k a) Q) -> spec P (m ≫= k) Q.
Proof. intros Hm Hk. eapply s_bind; [exact Hm|exact Hk]. Qed.
Lemma q_rd P n off : stable P -> spec P (rd env n off) (fun _ => P).
Proof. intros HP. eapply s_conseq; [by apply s_rd|done|]. by intros a w [H _]. Qed.
Lemma q_ret {A} (a : A) P : spec P (mret a) (fun _ => P).
Proof. by apply s_ret. Qed.
Lemma q_w32 P off v : stable P -> off <> VR_QUEUE_NOTIFY \/ wrap 32 v <> Q_TX -> spec P (w32 env off v) (fun _ => P).
Proof. intros HP Ho. apply s_w32; [done|]. intros w _. by apply E_other. Qed.
Lemma q_each P n a body :
  (forall i, a <= i < a + Z.of_nat n -> spec P (body i) (fun _ => P)) -> spec P (each n a body) (fun _ => P).
Proof.
  revert a. induction n as [|n IH]; intros a H; [apply q_ret|]. cbn [each]. apply q_bind; [apply H; lia|].
  intros _. apply IH. intros i Hi. apply H. lia.
Qed.
Lemma q_rd_bytes P n off : stable P -> spec P (rd_bytes env n off) (fun _ => P).
Proof.
  intros HP. revert off. induction n as [|n IH]; intros off; cbn [rd_bytes]; [apply q_ret|].
  apply q_bind; [by apply q_rd|]. intros b. apply q_bind; [apply IH|]. intros bs. apply q_ret.
Qed.
Lemma q_same_bytes P off ip : stable P -> spec P (same_bytes env off ip) (fun _ => P).
Proof.
  intros HP. revert off. induction ip as [|b ip IH]; intros off; cbn [same_bytes]; [apply q_ret|].
  apply q_bind; [by apply q_rd|]. intros v. destruct (v =? b); [apply IH|apply q_ret].
Qed.
Lemma q_rd_be16 P off : stable P -> spec P (rd_be16 env off) (fun _ => P).
Proof. intros HP. apply q_bind; [by apply q_rd|]. intros hi. apply q_bind; [by apply q_rd|]. intros lo. apply q_ret. Qed.
Lemma q_wait_used P fuel limit addr old seen waits : stable P -> spec P (wait_used env fuel limit addr old seen waits) (fun _ => P).
Proof.
  intros HP. revert seen waits. induction fuel as [|fuel IH]; intros seen waits; cbn [wait_used];
    (apply q_bind; [by apply q_rd|]; intros v; destruct (negb _); [apply q_ret|]); [by intros s|].
  apply q_bind; [by apply s_irq|]. intros x. cbv zeta. destruct (_ <? _); [apply q_ret|apply IH].
Qed.
End Logic.
