(* ===== verification/MarzWire.v ===== *)
(** * The frames of the egress daemon, built and offered

    What each builder leaves in the frame buffer and what [transmit] makes of
    it, then the daemon's whole run: every frame it offers to the NIC names the
    destination it was started for. *)

From Stdlib Require Import ZArith Lia String.
From stdpp Require Import base option strings numbers list.
From S2P Require Import Prelude Text Net MarzIo Marz MarzSafe MarzFrames.

(** The staged request is as it was. *)
Definition same_req (w0 w : Z -> Z) : Prop := forall i, REQ_OFF <= i < REQ_OFF + REQ_MAX -> w i = w0 i.

Lemma stable_same_req w0 : stable (same_req w0).
Proof. intros w w2 Ha H i Hi. rewrite (Ha i); [by apply H|]. by apply (private_staging REQ_OFF REQ_MAX). Qed.
Lemma same_req_poke w0 w off bs :
  off + zlen bs <= REQ_OFF \/ REQ_OFF + REQ_MAX <= off -> same_req w0 w -> same_req w0 (poke w off bs).
Proof. intros Ho H i Hi. rewrite poke_other by lia. by apply H. Qed.
Lemma peek_raw w off n l : ((fun i => w (off + Z.of_nat i)) <$> seq 0 (Z.to_nat n)) = l -> bytes_ok l -> peek w off n = l.
Proof.
  intros Hl Hb. rewrite <- Hl in *. apply list_fmap_ext. intros i x Hx. apply wrap_small.
  apply (Forall_lookup_1 _ _ i _ Hb). by rewrite list_lookup_fmap, Hx.
Qed.

Lemma wrap_bytes l : bytes_ok l -> wrap 8 <$> l = l.
Proof. induction 1 as [|b l Hb _ IH]; cbn; [done|]. f_equal; [by apply wrap_small|exact IH]. Qed.
Lemma be16_ok v : bytes_ok (be16 v).
Proof. repeat constructor; apply wrap_fits; lia. Qed.
Lemma ip_header_ok len id proto csum ip : fits 8 id -> fits 8 proto -> bytes_ok ip -> bytes_ok (ip_header len id proto csum ip).
Proof.
  intros Hi Hp Hip. unfold ip_header, bytes_ok. rewrite !Forall_app.
  split; [by apply bytes_okb_spec|]. split; [apply be16_ok|].
  split; [repeat (apply Forall_cons; split; [first [assumption|by vm_compute]|]); constructor|].
  split; [apply be16_ok|]. split; [by apply bytes_okb_spec|done].
Qed.
(** The header checksum makes the header sum to zero. *)
Lemma ip_header_checks len id proto ip : fits 8 id -> fits 8 proto -> bytes_ok ip -> length ip = 4%nat ->
  internet_checksum_bytes true (ip_header len id proto (65535 - residue (word_sum (ip_header len id proto 0 ip))) ip) = Ret 0.
Proof.
  intros Hi Hp Hip Hl. set (c := 65535 - _).
  pose proof (ip_header_ok len id proto 0 ip Hi Hp Hip) as Hok.
  set (l := [0x45; 0] ++ be16 len ++ [0x4d; id; 0; 0; 64; proto]).
  assert (E0 : forall x, ip_header len id proto x ip = l ++ be16 x ++ SRC_IP ++ ip) by (intros; unfold l; by rewrite <- !app_assoc).
  rewrite E0 in *. unfold bytes_ok in Hok. rewrite !Forall_app in Hok. destruct Hok as (Hl1 & _ & Hr).
  assert (Hz : zlen (SRC_IP ++ ip) = 8) by (unfold zlen; rewrite length_app, Hl; done).
  assert (Hc : fits 16 c).
  { subst c. rewrite E0. destruct (word_sum_bound (l ++ be16 0 ++ SRC_IP ++ ip)) as [Hw _].
    { unfold bytes_ok. rewrite !Forall_app. split; [done|]. split; [apply be16_ok|exact Hr]. }
    destruct (residue_range _ Hw). unfold fits. lia. }
  unfold be16 at 1. rewrite (wrap_small 8 (Z.shiftr c 8)).
  2: { rewrite Z.shiftr_div_pow2 by lia. unfold fits in *. split; [apply Z.div_pos; lia|apply Z.div_lt_upper_bound; lia]. }
  apply (checksum_in_its_field_sums_to_zero true l (SRC_IP ++ ip) c); [done|by apply Forall_app|done|change (zlen l) with 10; rewrite Hz; by vm_compute|].
  rewrite checksum_value; [subst c; by rewrite E0| |].
  - unfold bytes_ok. rewrite Forall_app. split; [done|]. apply Forall_cons. split; [by vm_compute|]. apply Forall_cons. split; [by vm_compute|by apply Forall_app].
  - unfold zlen, MAX_CHECKSUM_LEN. rewrite length_app. cbn [length]. rewrite length_app, Hl. change (length l) with 10%nat. cbn. lia.
Qed.

(** One step of straight-line code. *)
Ltac x_step Henv :=
  cbv zeta;
  lazymatch goal with
  | |- spec _ _ (mbind _ ?m) _ =>
    lazymatch m with
    | wr8 _ _ _ => apply (x_wr _ Henv)
    | wr16 _ _ _ => apply (x_wr _ Henv)
    | wr32 _ _ _ => apply (x_wr _ Henv)
    | wr64 _ _ _ => apply (x_wr _ Henv)
    | mbind _ _ => apply x_assoc
    | mret _ => apply x_ret_bind
    | each _ _ _ => progress cbn [each]
    end
  end.

Ltac bytes_split :=
  repeat (apply Forall_app; split);
  first [assumption | apply be16_ok | apply ip_header_ok; [by vm_compute|by vm_compute|assumption] | by apply bytes_okb_spec].

(** Writes outside the staged request keep it. *)
Ltac req_kept := repeat (apply same_req_poke; [rewrite ?zlen_le_word; marz_consts; lia|]).

Section Wire.
Context (env : Env) (Henv : well_behaved env) (E : Event -> Prop).
Context (E_read : forall off v, E (MmioRead off v)) (E_print : forall m, E (Printed m)).
Context (E_other : forall off v w, off <> VR_QUEUE_NOTIFY \/ v <> Q_TX -> E (MmioWrite off v w)).
Abbreviation spec := (spec E).

Lemma s_build_frame_to w0 mac payload ip port :
  length mac = 6%nat -> bytes_ok mac -> length ip = 4%nat -> bytes_ok ip -> bytes_ok payload -> zlen payload <= REQ_MAX ->
  spec (same_req w0) (build_frame_to env mac payload ip port)
    (fun n w => same_req w0 w /\ n = 42 + zlen payload /\ udp_to ip port payload (peek w FRAME_OFF n)).
Proof.
  intros Hlm Hm Hli Hi Hp Hlp. apply s_exact. intros w1 Hw1.
  destruct mac as [|m0 [|m1 [|m2 [|m3 [|m4 [|m5 [|]]]]]]]; try discriminate Hlm. destruct ip as [|i0 [|i1 [|i2 [|i3 [|]]]]]; try discriminate Hli.
  unfold build_frame_to. repeat x_step Henv. apply (x_checksum _ Henv); [in_private|unfold WINDOW; lia|].
  pose proof (wrap_bytes _ Hm) as Em. pose proof (wrap_bytes _ Hi) as Ei.
  rewrite (peek_raw _ (FRAME_OFF + 14) 20 (ip_header (20 + (8 + zlen payload)) 0x5a 17 0 (wrap 8 <$> [i0; i1; i2; i3])));
    [|reflexivity|rewrite Ei; by apply ip_header_ok].
  rewrite Ei. set (csum := 65535 - _). repeat x_step Henv. apply (x_put_all _ Henv); [done|]. apply x_ret. intros w2 Hw2.
  split; [|split; [lia|]].
  { apply (stable_same_req w0 _ _ Hw2). req_kept. exact Hw1. }
  rewrite (agree_peek _ _ _ _ Hw2) by in_private. replace (14 + (20 + (8 + zlen payload))) with (42 + zlen payload) by lia.
  rewrite peek_app, peek_poke_same, peek_poke_other by (done || lia || (pose proof (zlen_nonneg payload); lia)).
  rewrite (peek_raw _ FRAME_OFF 42 ((wrap 8 <$> [m0; m1; m2; m3; m4; m5]) ++ SRC_MAC ++ [8; 0] ++
    ip_header (20 + (8 + zlen payload)) 0x5a 17 csum (wrap 8 <$> [i0; i1; i2; i3]) ++
    be16 SRC_PORT ++ be16 port ++ be16 (8 + zlen payload) ++ [0; 0])); [|reflexivity|].
  - rewrite Em, Ei, <- !app_assoc. exists [m0; m1; m2; m3; m4; m5], 0x5a, csum. cbv zeta.
    rewrite !zlen_app. change (zlen (be16 SRC_PORT)) with 2. change (zlen (be16 port)) with 2.
    change (zlen (be16 (8 + zlen payload))) with 2. change (zlen [0; 0]) with 2.
    replace (20 + (2 + (2 + (2 + (2 + zlen payload))))) with (20 + (8 + zlen payload)) by lia.
    split; [done|]. split; [done|]. by apply ip_header_checks.
  - rewrite Em, Ei. bytes_split.
Qed.

Lemma s_build_arp w0 ip : length ip = 4%nat -> bytes_ok ip ->
  spec (same_req w0) (build_arp_request env ip) (fun n w => same_req w0 w /\ n = 42 /\ arp_for ip (peek w FRAME_OFF n)).
Proof.
  intros Hli Hi. apply s_exact. intros w1 Hw1. destruct ip as [|i0 [|i1 [|i2 [|i3 [|]]]]]; try discriminate Hli.
  unfold build_arp_request, put_eth. repeat x_step Henv. apply x_ret. intros w2 Hw2. pose proof (wrap_bytes _ Hi) as Ei.
  split; [|split; [done|]].
  { apply (stable_same_req w0 _ _ Hw2). req_kept. exact Hw1. }
  rewrite (agree_peek _ _ _ _ Hw2) by in_private. unfold arp_for.
  rewrite (peek_raw _ _ _ (arp_request (wrap 8 <$> [i0; i1; i2; i3]))); [by rewrite Ei|reflexivity|].
  rewrite Ei. unfold arp_request. bytes_split.
Qed.

Lemma s_build_icmp w0 mac ip : length mac = 6%nat -> bytes_ok mac -> length ip = 4%nat -> bytes_ok ip ->
  spec (same_req w0) (build_icmp_echo env mac ip) (fun n w => same_req w0 w /\ n = 51 /\ echo_to ip (peek w FRAME_OFF n)).
Proof.
  intros Hlm Hm Hli Hi. apply s_exact. intros w1 Hw1.
  destruct mac as [|m0 [|m1 [|m2 [|m3 [|m4 [|m5 [|]]]]]]]; try discriminate Hlm.
  destruct ip as [|i0 [|i1 [|i2 [|i3 [|]]]]]; try discriminate Hli.
  unfold build_icmp_echo, put_eth. change (length PING_PAYLOAD) with 9%nat. change (zlen PING_PAYLOAD) with 9.
  repeat x_step Henv. apply (x_checksum _ Henv); [in_private|unfold WINDOW; lia|].
  pose proof (wrap_bytes _ Hm) as Em. pose proof (wrap_bytes _ Hi) as Ei.
  rewrite (peek_raw _ (FRAME_OFF + 14) 20 (ip_header 37 0x5b 1 0 (wrap 8 <$> [i0; i1; i2; i3])));
    [|reflexivity|rewrite Ei; by apply ip_header_ok].
  rewrite Ei. set (csum := 65535 - _). repeat x_step Henv. apply (x_checksum _ Henv); [in_private|unfold WINDOW; lia|].
  set (body c := [8; 0] ++ be16 c ++ be16 PING_ID ++ be16 PING_SEQ ++ PING_PAYLOAD).
  rewrite (peek_raw _ (FRAME_OFF + 14 + 20) (8 + 9) (body 0)); [|reflexivity|by apply bytes_okb_spec].
  set (icsum := 65535 - _). repeat x_step Henv. apply x_ret. intros w2 Hw2.
  split; [|split; [done|]].
  { apply (stable_same_req w0 _ _ Hw2). req_kept. exact Hw1. }
  rewrite (agree_peek _ _ _ _ Hw2) by in_private. change (14 + (20 + (8 + 9))) with 51.
  rewrite (peek_raw _ FRAME_OFF 51 ((wrap 8 <$> [m0; m1; m2; m3; m4; m5]) ++ SRC_MAC ++ [8; 0] ++
    ip_header 37 0x5b 1 csum (wrap 8 <$> [i0; i1; i2; i3]) ++ body icsum)); [|reflexivity|].
  - rewrite Em, Ei. exists icsum. split; [|by vm_compute].
    exists [m0; m1; m2; m3; m4; m5], 0x5b, csum. split; [done|]. split; [done|]. by apply ip_header_checks.
  - rewrite Em, Ei. subst body. cbv beta. bytes_split.
Qed.


(** ** Offering a frame *)

Lemma field_poke_same w off n v : fits (8 * n) v -> 0 <= n -> field (poke w off (le_bytes (Z.to_nat n) v)) off n = v.
Proof.
  intros Hv Hn. unfold field. pose proof (peek_poke_same w off (le_bytes (Z.to_nat n) v) (le_bytes_ok _ _)) as H.
  rewrite zlen_le_word, Z2Nat.id in H by done. rewrite H. apply le_val_le_bytes. by rewrite Z2Nat.id.
Qed.
Lemma field_poke_other w off bs o n : o + n <= off \/ off + zlen bs <= o -> field (poke w off bs) o n = field w o n.
Proof. intros H. unfold field. by rewrite peek_poke_other. Qed.
Lemma agree_field w w2 off n : agree w w2 -> private_range off n -> field w2 off n = field w off n.
Proof. intros H Hp. unfold field. by rewrite (agree_peek w). Qed.

Lemma field_fits w o : fits 16 (field w o 2).
Proof. exact (le_val_fits (peek w o 2) (peek_ok w o 2)). Qed.

(** The transmit ring with one two-part chain whose entry is the newest. *)
Record offered (pa n : Z) (w : Z -> Z) : Prop := {
  of_head : field w (AVAIL_OFF + 4 + (field w (AVAIL_OFF + 2) 2 - 1) mod VQ_SIZE * 2) 2 = 0;
  of_addr0 : field w 0 8 = pa + HDR_OFF; of_len0 : field w 8 4 = NET_HDR_LEN;
  of_flags0 : field w 12 2 = VIRTQ_DESC_F_NEXT; of_next0 : field w 14 2 = 1;
  of_addr1 : field w 16 8 = pa + FRAME_OFF; of_len1 : field w 24 4 = n; of_flags1 : field w 28 2 = 0 }.

Lemma offered_frame pa n w : offered pa n w -> tx_frame pa w = peek w FRAME_OFF n.
Proof.
  intros [Hh A0 L0 F0 N0 A1 L1 F1]. unfold tx_frame. cbv zeta. change (TX_RING_OFF + AVAIL_OFF) with AVAIL_OFF. rewrite Hh.
  change (Z.to_nat VQ_SIZE) with 8%nat. cbn [chain]. change (TX_RING_OFF + DESC_OFF + 0 * 16) with 0.
  change (0 + 8) with 8. change (0 + 12) with 12. change (0 + 14) with 14. rewrite A0, L0, F0, N0.
  change (VIRTQ_DESC_F_NEXT & VIRTQ_DESC_F_NEXT =? 0) with false. cbv iota. change (TX_RING_OFF + DESC_OFF + 1 * 16) with 16.
  change (16 + 8) with 24. change (16 + 12) with 28. rewrite A1, L1, F1. change (0 & VIRTQ_DESC_F_NEXT =? 0) with true. cbv iota.
  rewrite app_nil_r, drop_app_le, drop_ge by (rewrite peek_length; done). cbn [app]. f_equal. lia.
Qed.

Lemma offered_agree pa n w w2 : offered pa n w -> agree w w2 -> offered pa n w2.
Proof.
  intros [Hh A0 L0 F0 N0 A1 L1 F1] Ha.
  pose proof (Z.mod_pos_bound (field w (AVAIL_OFF + 2) 2 - 1) VQ_SIZE ltac:(done)).
  constructor; rewrite ?(agree_field w w2 (AVAIL_OFF + 2) 2) by (done || in_private);
    (rewrite (agree_field w w2); [done|done|in_private]).
Qed.

(** Read a field of the ring through the writes of [transmit]. *)
Ltac ring_field :=
  repeat (rewrite field_poke_other by (rewrite ?zlen_le_word; marz_consts; lia));
  first [rewrite (field_poke_same _ _ 8) | rewrite (field_poke_same _ _ 4) | rewrite (field_poke_same _ _ 2)];
  [done|first [marz_consts; lia|by vm_compute]|lia].

Lemma s_transmit w0 pa n f : fits 56 pa -> 0 <= n <= 0x200 ->
  (forall w, tx_frame pa w = f -> E (MmioWrite VR_QUEUE_NOTIFY Q_TX w)) ->
  spec (fun w => same_req w0 w /\ peek w FRAME_OFF n = f) (transmit env pa n) (fun _ => same_req w0).
Proof.
  intros Hpa Hn HE. apply s_exact. intros w1 [Hr Hf]. unfold transmit, put_desc.
  change (Z.to_nat NET_HDR_LEN) with 10%nat. repeat x_step Henv. apply (x_rd _ Henv); [in_private|].
  match goal with |- context [field ?w ?o 2 mod _] => set (idx := field w o 2); assert (Hidx : fits 16 idx) end.
  { apply field_fits. }
  clearbody idx. repeat x_step Henv.
  match goal with |- MarzFrames.spec _ (agree ?W) _ _ => set (w2 := W) end.
  assert (Hw2 : same_req w0 w2). { subst w2. pose proof (Z.mod_pos_bound idx VQ_SIZE ltac:(done)). req_kept. exact Hr. }
  assert (Hoff : offered pa n w2 /\ peek w2 FRAME_OFF n = f).
  { subst w2. clear Hw2 HE. pose proof (Z.mod_pos_bound idx VQ_SIZE ltac:(done)) as Hslot. split; [constructor|].
    - change (AVAIL_OFF + 2) with (TX_RING_OFF + AVAIL_OFF + 2). rewrite (field_poke_same _ _ 2) by (try apply wrap_fits; lia).
      assert (Em : (wrap 16 (idx + 1) - 1) mod VQ_SIZE = idx mod VQ_SIZE).
      { unfold wrap, VQ_SIZE in *. marz_arith. }
      rewrite Em. ring_field.
    - ring_field.
    - ring_field.
    - ring_field.
    - ring_field.
    - ring_field.
    - ring_field.
    - ring_field.
    - rewrite !peek_poke_other by (rewrite ?zlen_le_word; marz_consts; lia). exact Hf. }
  clearbody w2. destruct Hoff as [Hoff Hpk].
  eapply s_bind; [apply (q_rd _ Henv), stable_agree|]. intros before. eapply s_bind; [apply (s_irq _ Henv), stable_agree|]. intros seen.
  eapply s_bind; [apply (s_w32 _ Henv); [apply stable_agree|]|].
  { intros w Hw. apply HE. rewrite (offered_frame pa n) by (by apply (offered_agree pa n w2)). rewrite (agree_peek w2) by (done || in_private). done. }
  intros u. eapply s_conseq; [apply (q_wait_used _ Henv), stable_agree|done|]. intros b w Hw. by apply (stable_same_req w0 _ _ Hw).
Qed.

(** ** Everything else keeps the request and offers nothing *)

Definition free (P : (Z -> Z) -> Prop) : Prop :=
  stable P /\ forall w off bs, off + zlen bs <= REQ_OFF \/ REQ_OFF + REQ_MAX <= off -> P w -> P (poke w off bs).
Lemma free_same_req w0 : free (same_req w0).
Proof. split; [apply stable_same_req|]. intros. by apply same_req_poke. Qed.
Lemma free_true : free (fun _ => True).
Proof. done. Qed.

Section Quiet.
Context (P : (Z -> Z) -> Prop) (HP : free P).
Abbreviation quiet m := (spec P m (fun _ => P)).

Lemma q_wr n off v : off + n <= REQ_OFF \/ REQ_OFF + REQ_MAX <= off -> 0 <= n -> quiet (wr env n off v).
Proof.
  intros Ho Hn. destruct HP as [Hs Hf]. apply (s_wr _ Henv); [done|]. intros w Hw. apply Hf; [|done].
  rewrite zlen_le_word. lia.
Qed.

Ltac q_atom m :=
  lazymatch m with
  | wr8 _ _ _ => apply (q_wr 1); [marz_arith|lia]
  | wr16 _ _ _ => apply (q_wr 2); [marz_arith|lia]
  | wr32 _ _ _ => apply (q_wr 4); [marz_arith|lia]
  | wr64 _ _ _ => apply (q_wr 8); [marz_arith|lia]
  | rd8 _ _ => apply (q_rd _ Henv), HP
  | rd16 _ _ => apply (q_rd _ Henv), HP
  | rd32 _ _ => apply (q_rd _ Henv), HP
  | rd_be16 _ _ => apply (q_rd_be16 _ Henv), HP
  | rd_bytes _ _ _ => apply (q_rd_bytes _ Henv), HP
  | same_bytes _ _ _ => apply (q_same_bytes _ Henv), HP
  | r32 _ _ => apply (s_r32 _ Henv); [exact E_read|apply HP]
  | w32 _ _ _ => apply (q_w32 _ Henv); [exact E_other|apply HP|first [left; discriminate|right; discriminate]]
  | sys_print _ _ => apply (s_print _ Henv); [exact E_print|apply HP]
  | sys_irq_wait _ _ => apply (s_irq _ Henv), HP
  | sys_exit _ _ => apply s_exit
  | wait_used _ _ _ _ _ _ _ => apply (q_wait_used _ Henv), HP
  | mret _ => apply q_ret
  | each _ _ _ => apply q_each; intros ? ?
  end.
Ltac q_go :=
  repeat (cbv zeta;
  lazymatch goal with
  | |- MarzFrames.spec _ _ (mbind _ ?m) _ =>
    lazymatch m with
    | (if ?b then _ else _) => destruct b eqn:?
    | mbind _ _ => apply x_assoc
    | _ => apply q_bind; [q_atom m|intros ?]
    end
  | |- MarzFrames.spec _ _ (if ?b then _ else _) _ => destruct b eqn:?
  | |- MarzFrames.spec _ _ ?m _ => q_atom m
  end).

Lemma q_nic_init pa : quiet (nic_init env pa).
Proof. unfold nic_init, zero_ring, queue_setup. q_go. Qed.
Lemma q_rx_offer pa i : 0 <= i < RX_NBUF -> quiet (rx_offer env pa i).
Proof.
  intros Hi. unfold rx_offer, put_rx_desc. q_go. all: pose proof (Z.mod_pos_bound a VQ_SIZE ltac:(done)); q_go.
Qed.
Lemma q_rx_arm pa : quiet (rx_arm env pa).
Proof. unfold rx_arm. apply q_each. intros i Hi. apply q_rx_offer. unfold RX_NBUF in *. lia. Qed.
Lemma q_rx_wait last : quiet (rx_wait env last).
Proof. unfold rx_wait. q_go. Qed.
Lemma q_parse_arp off len ip : quiet (parse_arp_reply env off len ip).
Proof. unfold parse_arp_reply. q_go. Qed.
Lemma q_parse_udp off len ip : quiet (parse_udp_reply env off len ip).
Proof. unfold parse_udp_reply. q_go. Qed.
Lemma q_is_echo off len ip : quiet (is_our_echo_reply env off len ip).
Proof. unfold is_our_echo_reply. q_go. Qed.

(** A receive with what is known of the buffer. *)
Lemma q_received last : 0 <= last -> spec P (rx_wait env last) (fun r w =>
  (0 <= r.2 /\ match r.1 with Some (id, off, len) => 0 <= id < RX_NBUF /\ buffer_off off | None => True end) /\ P w).
Proof. intros Hl. eapply s_total; [by apply t_rx_wait|apply q_rx_wait]. Qed.
Lemma s_pure {A} (R : Prop) (m : DM A) Q : (R -> spec P m Q) -> spec (fun w => R /\ P w) m Q.
Proof. intros H s [HR Hs] HT. by apply H. Qed.

Lemma q_arp_loop fuel pa ip last tries : 0 <= last -> quiet (arp_loop env fuel pa ip last tries).
Proof.
  revert last tries. induction fuel as [|fuel IH]; intros last tries Hl; [by intros s|]. cbn [arp_loop].
  eapply s_bind; [by apply q_received|]. intros [[[[id off] len]|] l2]; cbn [fst snd]; apply s_pure.
  - intros [Hl2 [Hid _]]. apply q_bind; [apply q_parse_arp|]. intros hit. apply q_bind; [by apply q_rx_offer|]. intros _.
    destruct hit as [mac|]; [apply q_ret|]. q_go. by apply IH.
  - intros _. q_go.
Qed.
Lemma q_echo_loop fuel pa ip last tries : 0 <= last -> quiet (echo_loop env fuel pa ip last tries).
Proof.
  revert last tries. induction fuel as [|fuel IH]; intros last tries Hl; [by intros s|]. cbn [echo_loop].
  eapply s_bind; [by apply q_received|]. intros [[[[id off] len]|] l2]; cbn [fst snd]; apply s_pure.
  - intros [Hl2 [Hid _]]. apply q_bind; [apply q_is_echo|]. intros hit. apply q_bind; [by apply q_rx_offer|]. intros _.
    q_go. by apply IH.
  - intros _. q_go.
Qed.
End Quiet.

Abbreviation silent m := (spec (fun _ => True) m (fun _ _ => True)).
Lemma q_stage_reply off n : silent (stage_reply env off n).
Proof.
  unfold stage_reply. cbv zeta. apply q_bind; [|intros _; by apply (s_wr _ Henv)].
  apply q_each. intros i Hi. apply q_bind; [by apply (q_rd _ Henv)|]. intros b. by apply (s_wr _ Henv).
Qed.
Lemma q_reply_loop fuel pa ip last tries : 0 <= last -> silent (reply_loop env fuel pa ip last tries).
Proof.
  revert last tries. induction fuel as [|fuel IH]; intros last tries Hl; [by intros s|]. cbn [reply_loop].
  eapply s_bind; [apply (q_received _ free_true); exact Hl|]. intros [[[[id off] len]|] l2]; cbn [fst snd]; apply s_pure.
  - intros [Hl2 [Hid _]]. apply q_bind; [apply (q_parse_udp _ free_true)|]. intros [[po pl]|].
    + apply q_bind; [apply q_stage_reply|]. intros _. apply q_bind; [by apply (q_rx_offer _ free_true)|]. intros _.
      apply q_bind; [by apply (s_print _ Henv)|]. intros _. apply s_exit.
    + apply q_bind; [by apply (q_rx_offer _ free_true)|]. intros _. cbv zeta. destruct (8 <? tries + 1); [|by apply IH].
      apply q_bind; [by apply (s_print _ Henv)|]. intros _. apply s_exit.
  - intros _. apply q_bind; [by apply (s_print _ Henv)|]. intros _. apply s_exit.
Qed.

(** ** The operations *)

Section Ops.
Context (w0 : Z -> Z) (pa : Z) (Hpa : fits 56 pa).
Abbreviation P := (same_req w0).
Let HP : free P := free_same_req w0.

Lemma q_printed m : spec P (sys_print env m) (fun _ => P).
Proof. apply (s_print _ Henv); [exact E_print|apply HP]. Qed.

(** Build a frame and offer it. *)
Lemma s_send {B} (build : DM Z) (F : list Z -> Prop) (k : bool -> DM B) Q n :
  0 <= n <= 0x200 ->
  spec P build (fun m w => P w /\ m = n /\ F (peek w FRAME_OFF m)) ->
  (forall w, F (tx_frame pa w) -> E (MmioWrite VR_QUEUE_NOTIFY Q_TX w)) ->
  (forall b, spec P (k b) Q) -> spec P (m ← build; transmit env pa m ≫= k) Q.
Proof.
  intros Hn Hb HE Hk. eapply s_bind; [exact Hb|]. intros m. apply s_exact. intros w (Hw & -> & HF).
  eapply (s_bind _ _ _ _ (fun _ => P)); [|exact Hk].
  eapply s_conseq; [apply (s_transmit w0 pa n (peek w FRAME_OFF n) Hpa Hn)| |done].
  - intros w2 E2. apply HE. by rewrite E2.
  - intros w2 Hw2. split; [by apply (stable_same_req w0 w)|]. apply agree_peek; [done|in_private].
Qed.

Lemma s_do_ping ip : length ip = 4%nat -> bytes_ok ip ->
  (forall w, arp_for ip (tx_frame pa w) \/ echo_to ip (tx_frame pa w) -> E (MmioWrite VR_QUEUE_NOTIFY Q_TX w)) ->
  spec P (do_ping env pa ip) (fun _ _ => True).
Proof.
  intros Hl Hi HE. unfold do_ping. apply q_bind; [by apply q_rx_arm|]. intros _. apply q_bind; [apply q_printed|]. intros _.
  apply (s_send _ (arp_for ip) _ _ 42); [lia|by apply s_build_arp|by auto|]. intros sent.
  destruct (negb sent). { apply q_bind; [apply q_printed|]. intros _. apply s_exit. }
  apply q_bind; [apply q_printed|]. intros _.
  eapply s_bind; [eapply s_total; [apply (t_arp_loop env ROUNDS pa ip 0 0); done|by apply q_arp_loop]|].
  intros [mac last]. apply s_pure. cbn [fst snd]. intros (Hlast & Hm & Hb).
  apply q_bind; [apply q_printed|]. intros _.
  apply (s_send _ (echo_to ip) _ _ 51); [lia|by apply s_build_icmp|by auto|]. intros sent2.
  destruct (negb sent2). { apply q_bind; [apply q_printed|]. intros _. apply s_exit. }
  apply q_bind; [apply q_printed|]. intros _. eapply s_conseq; [by apply (q_echo_loop P HP)|done|done].
Qed.

Definition request (len : Z) : list Z := peek w0 REQ_OFF (Z.min len REQ_MAX).

Lemma s_staged {B} len (k : list Z -> DM B) Q : 0 <= len ->
  spec P (k (request len)) Q -> spec P (staged_request env len ≫= k) Q.
Proof.
  intros Hl Hk. apply s_exact. intros w Hw. unfold staged_request. cbv zeta.
  replace (if REQ_MAX <? len then REQ_MAX else len) with (Z.min len REQ_MAX)
    by (destruct (Z.ltb_spec REQ_MAX len); unfold REQ_MAX in *; lia).
  assert (Hm : 0 <= Z.min len REQ_MAX <= REQ_MAX) by (unfold REQ_MAX; lia).
  apply (x_rd_bytes _ Henv); rewrite Z2Nat.id by lia; [in_private|].
  assert (Er : peek w REQ_OFF (Z.min len REQ_MAX) = request len) by (apply peek_ext; intros i Hi; apply Hw; lia).
  rewrite Er. eapply s_conseq; [exact Hk| |done]. intros w2 H2. by apply (stable_same_req w0 w).
Qed.

Lemma s_do_effect ip port len : length ip = 4%nat -> bytes_ok ip -> 0 <= len ->
  (forall w, arp_for ip (tx_frame pa w) \/ udp_to ip port (request len) (tx_frame pa w) -> E (MmioWrite VR_QUEUE_NOTIFY Q_TX w)) ->
  spec P (do_effect env pa ip port len) (fun _ _ => True).
Proof.
  intros Hl Hi Hlen HE. unfold do_effect. apply q_bind; [by apply q_rx_arm|]. intros _.
  apply (s_send _ (arp_for ip) _ _ 42); [lia|by apply s_build_arp|by auto|]. intros sent.
  destruct (negb sent). { apply q_bind; [apply q_printed|]. intros _. apply s_exit. }
  eapply s_bind; [eapply s_total; [apply (t_arp_loop env ROUNDS pa ip 0 0); done|by apply q_arp_loop]|].
  intros [mac last]. apply s_pure. cbn [fst snd]. intros (Hlast & Hm & Hb).
  apply s_staged; [done|].
  assert (Hr : zlen (request len) <= REQ_MAX) by (unfold zlen, request; rewrite peek_length; unfold REQ_MAX; lia).
  pose proof (zlen_nonneg (request len)).
  apply (s_send _ (udp_to ip port (request len)) _ _ (42 + zlen (request len))); [unfold REQ_MAX in *; lia|apply s_build_frame_to; try done; apply peek_ok|by auto|].
  intros sent2. destruct (negb sent2). { apply q_bind; [apply q_printed|]. intros _. apply s_exit. }
  apply q_bind; [apply q_printed|]. intros _. eapply s_conseq; [by apply q_reply_loop|done|done].
Qed.
End Ops.
End Wire.

(** ** Runs *)

Definition last_state {A} (r : run A) : option St :=
  match r with Done _ s | Exited _ s | Faulted s | Parked s | Spinning s => Some s | OutOfSteps => None end.

(** The frames a run offered to the NIC, newest first. *)
Definition offer_of (pa : Z) (e : Event) : option (list Z) :=
  match e with
  | MmioWrite off v w => if (off =? VR_QUEUE_NOTIFY) && (v =? Q_TX) then Some (tx_frame pa w) else None
  | _ => None
  end.
Definition offers (pa : Z) (s : St) : list (list Z) := omap (offer_of pa) (trace s).

(** What a run started with [op] for [dest] may send; [req] is the staged request. *)
Definition allowed (op dest : Z) (req f : list Z) : Prop :=
  let ip := dest_ip dest in
  if op =? OP_PING then arp_for ip f \/ echo_to ip f
  else if op =? OP_EFFECT then arp_for ip f \/ udp_to ip (dest_port dest) req f
  else udp_to ip (dest_port dest) SEND_PAYLOAD f.

Definition good_event (pa op dest : Z) (req : list Z) (e : Event) : Prop :=
  match offer_of pa e with Some f => allowed op dest req f | None => True end.

Lemma offers_good pa op dest req s : Forall (good_event pa op dest req) (trace s) -> Forall (allowed op dest req) (offers pa s).
Proof.
  unfold offers. induction 1 as [|e l He _ IH]; [constructor|]. cbn. unfold good_event in He. destruct (offer_of pa e); [by constructor|done].
Qed.
Lemma dest_ip_ok dest : bytes_ok (dest_ip dest).
Proof. repeat (constructor; [apply wrap_fits; lia|]). constructor. Qed.

Lemma main_events env op pa dest a3 s :
  well_behaved env -> fits 56 pa -> 0 <= a3 -> Forall (good_event pa op dest (request (win s) a3)) (trace s) ->
  exists s', last_state (main env op pa dest a3 s) = Some s' /\ Forall (good_event pa op dest (request (win s) a3)) (trace s').
Proof.
  intros Henv Hpa Ha HT. set (req := request (win s) a3) in *. set (E := good_event pa op dest req) in *.
  assert (E_read : forall off v, E (MmioRead off v)) by done. assert (E_print : forall m, E (Printed m)) by done.
  assert (E_other : forall off v w, off <> VR_QUEUE_NOTIFY \/ v <> Q_TX -> E (MmioWrite off v w)).
  { intros off v w Ho. unfold E, good_event, offer_of. destruct (Z.eqb_spec off VR_QUEUE_NOTIFY), (Z.eqb_spec v Q_TX); cbn; try done. naive_solver. }
  assert (E_tx : forall w, allowed op dest req (tx_frame pa w) -> E (MmioWrite VR_QUEUE_NOTIFY Q_TX w)) by done.
  pose proof (free_same_req (win s)) as HP. pose proof (dest_ip_ok dest) as Hip.
  assert (H : spec E (same_req (win s)) (main env op pa dest a3) (fun _ _ => True)).
  { unfold main. apply q_bind; [by apply q_printed|]. intros _. apply q_bind; [by apply q_nic_init|]. intros up.
    destruct (negb up). { apply q_bind; [by apply q_printed|]. intros _. apply s_exit. }
    apply q_bind; [by apply q_printed|]. intros _. cbv zeta.
    destruct (op =? OP_PING) eqn:E1.
    { eapply s_bind; [eapply s_total; [by apply t_do_ping|apply (s_do_ping env Henv E E_print E_other (win s) pa Hpa); [done|done|]]|].
      - intros w Hw. apply E_tx. unfold allowed. rewrite E1. exact Hw.
      - intros a s0 [[] _]. }
    apply q_bind; [apply q_ret|]. intros _. destruct (op =? OP_EFFECT) eqn:E2.
    { eapply s_bind; [eapply s_total; [by apply t_do_effect|apply (s_do_effect env Henv E E_print E_other (win s) pa Hpa _ _ a3); [done|done|done|]]|].
      - intros w Hw. apply E_tx. unfold allowed. rewrite E1, E2. exact Hw.
      - intros a s0 [[] _]. }
    apply q_bind; [apply q_ret|]. intros _.
    unfold build_frame. eapply s_bind; [apply (s_build_frame_to env Henv E (win s)); [done|by apply bytes_okb_spec|done|done|by apply bytes_okb_spec|by vm_compute]|].
    intros n. apply s_exact. intros w (Hw & -> & HF).
    apply q_bind; [apply (s_print _ Henv); [done|apply stable_agree]|]. intros _.
    apply q_bind; [apply (s_print _ Henv); [done|apply stable_agree]|]. intros _.
    apply q_bind; [apply (s_print _ Henv); [done|apply stable_agree]|]. intros _.
    eapply (s_bind _ _ _ _ (fun _ => same_req (win s))).
    - eapply s_conseq; [apply (s_transmit env Henv E (win s) pa 61 (peek w FRAME_OFF 61) Hpa)| |done]; [lia| |].
      + intros w2 E2w. apply E_tx. unfold allowed. rewrite E1, E2, E2w. exact HF.
      + intros w2 Hw2. split; [by apply (stable_same_req (win s) w)|]. apply agree_peek; [done|in_private].
    - intros sent. destruct sent; (apply q_bind; [by apply q_printed|]; intros _; apply s_exit). }
  specialize (H s (fun i _ => eq_refl) HT). pose proof (t_main env op pa dest a3 Ha s) as Ht. unfold ends in Ht.
  destruct (main env op pa dest a3 s) as [|code s'|s'|s'|s'|]; try done; by exists s'.
Qed.

(** C11: With a NIC that writes only the used rings and the receive buffers, every frame the daemon
    offers, as the NIC reads it out of the transmit ring, is an ARP request for the destination it was
    started for or a well-formed IPv4 datagram to it: right lengths, checksums that verify, and the
    fixed, echo or staged payload of the operation. *)
Theorem the_daemon_sends_only_to_its_destination env op dma_pa dest a3 w0 :
  well_behaved env -> fits 56 dma_pa -> 0 <= a3 ->
  exists s, last_state (main env op dma_pa dest a3 (mkSt w0 0 [])) = Some s /\
    Forall (allowed op dest (request w0 a3)) (offers dma_pa s).
Proof.
  intros Henv Hpa Ha. destruct (main_events env op dma_pa dest a3 (mkSt w0 0 []) Henv Hpa Ha (Forall_nil_2 _)) as (s & Hs & HT).
  exists s. split; [exact Hs|]. by apply offers_good.
Qed.

(** A NIC that from step [start] on takes every frame in the ring, and does nothing else. *)
Definition sink_nic (start : nat) : Env :=
  mkEnv (mmio silent_nic)
    (fun t w => if (t <? start)%nat || (field w (USED_OFF + 2) 2 =? field w (AVAIL_OFF + 2) 2) then w
                else poke w (USED_OFF + 2) (peek w (AVAIL_OFF + 2) 2))
    (irq silent_nic).
Lemma sink_nic_ok start : well_behaved (sink_nic start).
Proof.
  intros t w i Hi. cbn. destruct (_ || _); [done|]. apply poke_other. unfold zlen. rewrite peek_length. intros Hr.
  assert (i = 4098 \/ i = 4099) as [-> | ->] by (unfold USED_OFF in Hr; lia); discriminate Hi.
Qed.

Definition send_run (start : nat) : run unit := main (sink_nic start) 0 0x80000000 0x22b80a000202 0 (mkSt (fun _ => 0) 0 []).

Lemma the_daemon_sends_witness :
  exists s, last_state (send_run 700) = Some s /\ Forall (allowed 0 0x22b80a000202 (request (fun _ => 0) 0)) (offers 0x80000000 s).
Proof.
  unfold send_run. apply (the_daemon_sends_only_to_its_destination (sink_nic 700) 0 0x80000000 0x22b80a000202 0 (fun _ => 0));
    [apply sink_nic_ok|split; [lia|reflexivity]|lia].
Defined.

Definition status_and_frames (r : run unit) : option (Z * list Z) :=
  match r with Exited c s => Some (c, zlen <$> offers 0x80000000 s) | _ => None end.

(** The NIC takes the frame after it is notified: status 0 and one frame of 61 bytes. *)
Example a_frame_is_sent : status_and_frames (send_run 700) = Some (0, [61]).
Proof. vm_compute. reflexivity. Qed.

(** [transmit] publishes the frame before it samples the used index it waits on:
    a NIC that takes the frame in between is waited for in vain, and [transmit]
    reports a time-out although the frame is gone. *)
Theorem a_frame_taken_early_is_reported_unsent :
  match transmit (sink_nic 0) 0x80000000 61 (mkSt (fun _ => 0) 0 []) with
  | Done sent s => (sent, zlen <$> offers 0x80000000 s, field (win s) (USED_OFF + 2) 2) = (false, [61], 1)
  | _ => False
  end.
Proof. vm_compute. reflexivity. Qed.

(** A frame of 42 bytes whose UDP header announces 100: the daemon takes the 92
    bytes that follow the frame in the buffer for the gateway's answer. *)
Definition short_frame : list Z :=
  replicate 12 0 ++ [8; 0] ++ [0x45; 0; 0; 120; 0; 0; 0; 0; 64; 17; 0; 0; 10; 0; 2; 2; 10; 0; 2; 15] ++ [0; 0; 0x30; 0x39; 0; 100; 0; 0].
Theorem a_truncated_datagram_is_an_answer :
  zlen short_frame = 42 /\
  match parse_udp_reply silent_nic 0x340a 42 [10; 0; 2; 2] (mkSt (poke (fun _ => 0) 0x340a short_frame) 0 []) with
  | Done (Some (off, n)) _ => (off, n) = (0x340a + 42, 92)
  | _ => False
  end.
Proof. split; [reflexivity|]. vm_compute. reflexivity. Qed.
