(* ===== verification/MarzResume.v ===== *)
(** * A daemon that is woken late

    The kernel gives up waiting for a daemon asleep on its device, but the task
    stays in its slot and runs on when an interrupt wakes it (dezh-boot/src/sched.rs,
    [idle_until_device] and [wake_irq_waiters]).  [splice] is the environment of
    such a run: the old one up to the sleep, a new one after it.  Here the
    daemon's whole program is shown to be the same run continued: everything it
    had done it has done, and what follows comes after. *)

From Stdlib Require Import ZArith Lia String.
From stdpp Require Import base option strings numbers list.
From S2P Require Import Prelude Text Net MarzIo Marz MarzFrames MarzWire.

(** [e1] before step [t], [e2] from it on. *)
Definition splice (t : nat) (e1 e2 : Env) : Env :=
  mkEnv (fun u => if (u <? t)%nat then mmio e1 u else mmio e2 u)
        (fun u => if (u <? t)%nat then device e1 u else device e2 u)
        (fun u => if (u <? t)%nat then irq e1 u else irq e2 u).

Lemma splice_ok t e1 e2 : well_behaved e1 -> well_behaved e2 -> well_behaved (splice t e1 e2).
Proof. intros H1 H2 u w i Hi. unfold splice. cbn [device]. destruct (u <? t)%nat; [by apply H1|by apply H2]. Qed.

(** A run that got as far as [s] or further. *)
Definition grows {A} (s : St) (r : run A) : Prop :=
  match last_state r with Some s' => (time s <= time s')%nat /\ exists l, trace s' = l ++ trace s | None => True end.

Lemma grows_self {A} (r : run A) s : last_state r = Some s -> grows s r.
Proof. intros E. unfold grows. rewrite E. split; [lia|by exists []]. Qed.
Lemma offers_grow_on {A B} s (r : run A) s1 (r2 : run B) : last_state r = Some s1 -> grows s r -> grows s1 r2 -> grows s r2.
Proof.
  unfold grows. intros E. rewrite E. intros [H1 [l1 E1]]. destruct (last_state r2) as [s2|]; [|done]. intros [H2 [l2 E2]].
  split; [lia|]. exists (l2 ++ l1). by rewrite E2, E1, app_assoc.
Qed.

(** A program whose run under a spliced environment is the old run, continued. *)
Record resumes {A} (m : Env -> DM A) : Prop := {
  re_grows e s : grows s (m e s);
  re_parks e s s1 : m e s = Parked s1 -> (time s < time s1)%nat;
  re_agrees e1 e2 t s a s1 : m e1 s = Done a s1 -> (time s1 < t)%nat -> m (splice t e1 e2) s = Done a s1;
  re_wakes e1 e2 s s1 : m e1 s = Parked s1 -> grows s1 (m (splice (time s1) e1 e2) s) }.

Lemma re_ret {A} (a : A) : resumes (fun _ => mret a).
Proof. split; [intros; by apply grows_self|done..]. Qed.
Lemma re_panic {A} : resumes (fun _ => panic (A := A)).
Proof. split; [intros; by apply grows_self|done..]. Qed.
Lemma re_out {A} : resumes (fun _ => out_of_steps (A := A)).
Proof. by split. Qed.

Lemma re_bind {A B} (m : Env -> DM A) (f : Env -> A -> DM B) :
  resumes m -> (forall a, resumes (fun e => f e a)) -> resumes (fun e => m e ≫= f e).
Proof.
  intros [Mg Mp Ma Mw] Hf. unfold mbind, dm_bind. split.
  - intros e s. pose proof (Mg e s) as G. destruct (m e s) as [a s1|c s1|s1|s1|s1|] eqn:E; try exact G.
    eapply (offers_grow_on s (Done a s1)); [reflexivity|exact G|apply (re_grows _ (Hf a))].
  - intros e s s1. pose proof (Mg e s) as G. destruct (m e s) as [a s2|c s2|s2|s2|s2|] eqn:E; try done.
    + intros Ef. apply (re_parks (fun e => f e a) (Hf a)) in Ef. destruct G as [G _]. lia.
    + intros [= <-]. by eapply Mp.
  - intros e1 e2 t s b s1. destruct (m e1 s) as [a s2|c s2|s2|s2|s2|] eqn:E; try done. intros Ef Ht.
    assert (Hle : (time s2 <= time s1)%nat).
    { pose proof (re_grows _ (Hf a) e1 s2) as G. cbn beta in G. rewrite Ef in G. apply G. }
    rewrite (Ma e1 e2 t s a s2 E) by lia. by apply (re_agrees _ (Hf a)).
  - intros e1 e2 s s1. destruct (m e1 s) as [a s2|c s2|s2|s2|s2|] eqn:E; try done.
    + intros Ef. rewrite (Ma e1 e2 _ s a s2 E) by exact (re_parks _ (Hf a) _ _ _ Ef). by apply (re_wakes _ (Hf a)).
    + intros [= <-]. pose proof (Mw e1 e2 s s2 E) as G.
      destruct (m (splice (time s2) e1 e2) s) as [a s3|c s3|s3|s3|s3|]; try exact G.
      eapply (offers_grow_on s2 (Done a s3)); [reflexivity|exact G|apply (re_grows _ (Hf a))].
Qed.

(** ** The accesses *)

Lemma splice_before t e1 e2 u : (u < t)%nat ->
  mmio (splice t e1 e2) u = mmio e1 u /\ device (splice t e1 e2) u = device e1 u /\ irq (splice t e1 e2) u = irq e1 u.
Proof. intros H. unfold splice. cbn [mmio device irq]. by rewrite (proj2 (Nat.ltb_lt _ _) H). Qed.

Lemma grows_step {A} e s (r : run A) l : last_state r = Some (mkSt (win (step e s)) (S (time s)) (l ++ trace s)) -> grows s r.
Proof. intros E. unfold grows. rewrite E. cbn. split; [lia|by exists l]. Qed.

Ltac access :=
  split;
  [ intros e s; cbv zeta; repeat case_match; unfold grows; cbn; (split; [lia|]); (by exists []) || (by eexists [_])
  | intros e s s1; cbv zeta; repeat case_match; discriminate
  | intros e1 e2 t s a s1; unfold step, emit; cbn [time win trace];
    intros E Ht; assert (Hlt : (S (time s) < t)%nat) by (revert E; cbv zeta; repeat case_match; intros [= _ <-]; exact Ht);
    destruct (splice_before t e1 e2 (time s) ltac:(lia)) as (M0 & D0 & I0);
    destruct (splice_before t e1 e2 (S (time s)) ltac:(lia)) as (M1 & D1 & I1); rewrite ?D0, ?M1, ?I1; exact E
  | intros e1 e2 s s1; cbv zeta; repeat case_match; discriminate ].

Lemma re_rd n off : resumes (fun e => rd e n off).
Proof. unfold rd. access. Qed.
Lemma re_wr n off v : resumes (fun e => wr e n off v).
Proof. unfold wr. access. Qed.
Lemma re_rd8 off : resumes (fun e => rd8 e off).
Proof. apply re_rd. Qed.
Lemma re_rd16 off : resumes (fun e => rd16 e off).
Proof. apply re_rd. Qed.
Lemma re_rd32 off : resumes (fun e => rd32 e off).
Proof. apply re_rd. Qed.
Lemma re_wr8 off v : resumes (fun e => wr8 e off v).
Proof. apply re_wr. Qed.
Lemma re_wr16 off v : resumes (fun e => wr16 e off v).
Proof. apply re_wr. Qed.
Lemma re_wr32 off v : resumes (fun e => wr32 e off v).
Proof. apply re_wr. Qed.
Lemma re_wr64 off v : resumes (fun e => wr64 e off v).
Proof. apply re_wr. Qed.
Lemma re_r32 off : resumes (fun e => r32 e off).
Proof. unfold r32. access. Qed.
Lemma re_w32 off v : resumes (fun e => w32 e off v).
Proof. unfold w32. access. Qed.
Lemma re_print m : resumes (fun e => sys_print e m).
Proof. unfold sys_print. access. Qed.
Lemma re_exit {A} c : resumes (fun e => sys_exit e c : DM A).
Proof. unfold sys_exit. access. Qed.

(** The one place where the daemon sleeps. *)
Lemma re_irq prev : resumes (fun e => sys_irq_wait e prev).
Proof.
  unfold sys_irq_wait. split.
  - intros e s. cbv zeta. destruct (irq _ _ _); unfold grows; cbn; (split; [lia|by exists []]).
  - intros e s s1. cbv zeta. destruct (irq _ _ _); [discriminate|]. intros [= <-]. cbn. lia.
  - intros e1 e2 t s a s1. unfold step. cbn [time win trace]. intros E Ht.
    assert (Hlt : (S (time s) < t)%nat) by (revert E; cbv zeta; destruct (irq _ _ _); intros [= _ <-]; exact Ht).
    destruct (splice_before t e1 e2 (time s) ltac:(lia)) as (_ & -> & _). destruct (splice_before t e1 e2 (S (time s)) ltac:(lia)) as (_ & _ & ->). exact E.
  - intros e1 e2 s s1. cbv zeta. destruct (irq e1 _ _); [discriminate|]. intros [= <-].
    destruct (irq (splice _ e1 e2) _ _); unfold grows; cbn; (split; [lia|by exists []]).
Qed.

Lemma re_each n : forall i (body : Env -> Z -> DM unit), (forall i, resumes (fun e => body e i)) -> resumes (fun e => each n i (body e)).
Proof.
  induction n as [|n IH]; intros i body Hb; cbn [each]; [apply re_ret|].
  apply (re_bind (fun e => body e i) (fun e _ => each n (i + 1) (body e))); [apply Hb|]. intros _. by apply IH.
Qed.

(** ** The daemon *)

Create HintDb resume.
#[export] Hint Resolve re_ret re_panic re_out re_rd re_wr re_rd8 re_rd16 re_rd32 re_wr8 re_wr16 re_wr32 re_wr64 re_r32 re_w32 re_print re_exit re_irq : resume.

Ltac resume_go :=
  repeat first
    [ solve [auto with resume nocore]
    | progress cbn beta
    | match goal with
      | |- resumes (fun _ => mbind _ _) => apply re_bind; [|intros ?]
      | |- resumes (fun _ => each _ _ _) => apply re_each; intros ?
      | |- resumes (fun _ => if ?b then _ else _) => destruct b
      | |- resumes (fun _ => match ?x with _ => _ end) => destruct x
      end ].

Lemma re_bytes n : forall off, resumes (fun e => rd_bytes e n off).
Proof. induction n as [|n IH]; intros off; cbn [rd_bytes]; resume_go. Qed.
Lemma re_same ip : forall off, resumes (fun e => same_bytes e off ip).
Proof. induction ip as [|b ip IH]; intros off; cbn [same_bytes]; resume_go. Qed.
Lemma re_be16 off : resumes (fun e => rd_be16 e off).
Proof. unfold rd_be16. resume_go. Qed.
#[export] Hint Resolve re_bytes re_same re_be16 : resume.
Lemma re_digits fuel : forall v acc, resumes (fun _ => digits fuel v acc).
Proof. induction fuel as [|fuel IH]; intros v acc; cbn [digits]; cbv zeta; resume_go. Qed.
#[export] Hint Resolve re_digits : resume.
Lemma re_print_num v : resumes (fun e => print_num e v).
Proof. unfold print_num. cbv zeta. resume_go. Qed.
#[export] Hint Resolve re_print_num : resume.
Lemma re_put_desc i addr len flags next : resumes (fun e => put_desc e i addr len flags next).
Proof. unfold put_desc. cbv zeta. resume_go. Qed.
#[export] Hint Resolve re_put_desc : resume.
Lemma re_zero_ring base : resumes (fun e => zero_ring e base).
Proof. unfold zero_ring. cbv zeta. resume_go. Qed.
#[export] Hint Resolve re_zero_ring : resume.
Lemma re_queue_setup q ring pa : resumes (fun e => queue_setup e q ring pa).
Proof. unfold queue_setup. cbv zeta. resume_go. Qed.
#[export] Hint Resolve re_queue_setup : resume.
Lemma re_nic_init pa : resumes (fun e => nic_init e pa).
Proof. unfold nic_init. cbv zeta. resume_go. Qed.
#[export] Hint Resolve re_nic_init : resume.
Lemma re_ip_checksum off len : resumes (fun e => ip_checksum e off len).
Proof. unfold ip_checksum. cbv zeta. resume_go. Qed.
#[export] Hint Resolve re_ip_checksum : resume.
Lemma re_build_frame_to mac payload ip port : resumes (fun e => build_frame_to e mac payload ip port).
Proof. unfold build_frame_to. cbv zeta. resume_go. Qed.
#[export] Hint Resolve re_build_frame_to : resume.
Lemma re_build_frame payload ip port : resumes (fun e => build_frame e payload ip port).
Proof. unfold build_frame. cbv zeta. resume_go. Qed.
#[export] Hint Resolve re_build_frame : resume.
Lemma re_put_eth o dst ty : resumes (fun e => put_eth e o dst ty).
Proof. unfold put_eth. cbv zeta. resume_go. Qed.
#[export] Hint Resolve re_put_eth : resume.
Lemma re_build_arp_request ip : resumes (fun e => build_arp_request e ip).
Proof. unfold build_arp_request. cbv zeta. resume_go. Qed.
#[export] Hint Resolve re_build_arp_request : resume.
Lemma re_build_icmp_echo mac ip : resumes (fun e => build_icmp_echo e mac ip).
Proof. unfold build_icmp_echo. cbv zeta. resume_go. Qed.
#[export] Hint Resolve re_build_icmp_echo : resume.
Lemma re_parse_arp_reply off len ip : resumes (fun e => parse_arp_reply e off len ip).
Proof. unfold parse_arp_reply. cbv zeta. resume_go. Qed.
#[export] Hint Resolve re_parse_arp_reply : resume.
Lemma re_is_our_echo_reply off len ip : resumes (fun e => is_our_echo_reply e off len ip).
Proof. unfold is_our_echo_reply. cbv zeta. resume_go. Qed.
#[export] Hint Resolve re_is_our_echo_reply : resume.
Lemma re_parse_udp_reply off len ip : resumes (fun e => parse_udp_reply e off len ip).
Proof. unfold parse_udp_reply. cbv zeta. resume_go. Qed.
#[export] Hint Resolve re_parse_udp_reply : resume.
Lemma re_stage_reply off len : resumes (fun e => stage_reply e off len).
Proof. unfold stage_reply. cbv zeta. resume_go. Qed.
#[export] Hint Resolve re_stage_reply : resume.
Lemma re_staged_request len : resumes (fun e => staged_request e len).
Proof. unfold staged_request. cbv zeta. resume_go. Qed.
#[export] Hint Resolve re_staged_request : resume.
Lemma re_put_rx_desc i addr len : resumes (fun e => put_rx_desc e i addr len).
Proof. unfold put_rx_desc. cbv zeta. resume_go. Qed.
#[export] Hint Resolve re_put_rx_desc : resume.
Lemma re_rx_offer pa id : resumes (fun e => rx_offer e pa id).
Proof. unfold rx_offer. cbv zeta. resume_go. Qed.
#[export] Hint Resolve re_rx_offer : resume.
Lemma re_rx_arm pa : resumes (fun e => rx_arm e pa).
Proof. unfold rx_arm. cbv zeta. resume_go. Qed.
#[export] Hint Resolve re_rx_arm : resume.
Lemma re_wait_used fuel : forall limit addr old seen waits, resumes (fun e => wait_used e fuel limit addr old seen waits).
Proof. induction fuel as [|fuel IH]; intros limit addr old seen waits; cbn [wait_used]; cbv zeta; resume_go. Qed.
#[export] Hint Resolve re_wait_used : resume.
Lemma re_rx_wait last : resumes (fun e => rx_wait e last).
Proof. unfold rx_wait. cbv zeta. resume_go. Qed.
#[export] Hint Resolve re_rx_wait : resume.
Lemma re_transmit pa len : resumes (fun e => transmit e pa len).
Proof. unfold transmit. cbv zeta. resume_go. Qed.
#[export] Hint Resolve re_transmit : resume.
Lemma re_arp_loop fuel : forall pa ip last tries, resumes (fun e => arp_loop e fuel pa ip last tries).
Proof. induction fuel as [|fuel IH]; intros pa ip last tries; cbn [arp_loop]; cbv zeta; resume_go. Qed.
#[export] Hint Resolve re_arp_loop : resume.
Lemma re_reply_loop fuel : forall pa ip last tries, resumes (fun e => reply_loop e fuel pa ip last tries).
Proof. induction fuel as [|fuel IH]; intros pa ip last tries; cbn [reply_loop]; cbv zeta; resume_go. Qed.
#[export] Hint Resolve re_reply_loop : resume.
Lemma re_echo_loop fuel : forall pa ip last tries, resumes (fun e => echo_loop e fuel pa ip last tries).
Proof. induction fuel as [|fuel IH]; intros pa ip last tries; cbn [echo_loop]; cbv zeta; resume_go. Qed.
#[export] Hint Resolve re_echo_loop : resume.
Lemma re_do_effect pa ip port len : resumes (fun e => do_effect e pa ip port len).
Proof. unfold do_effect. cbv zeta. resume_go. Qed.
#[export] Hint Resolve re_do_effect : resume.
Lemma re_do_ping pa ip : resumes (fun e => do_ping e pa ip).
Proof. unfold do_ping. cbv zeta. resume_go. Qed.
#[export] Hint Resolve re_do_ping : resume.
Lemma re_main op pa dest len : resumes (fun e => main e op pa dest len).
Proof. unfold main. cbv zeta. resume_go. Qed.
#[export] Hint Resolve re_main : resume.

(** A daemon left asleep at [s] and run on against [e]: what it has sent it has
    sent, and everything else it sends comes after. *)
Theorem a_woken_daemon_goes_on env e op pa dest len w s s1 :
  main env op pa dest len (mkSt w 0 []) = Parked s ->
  last_state (main (splice (time s) env e) op pa dest len (mkSt w 0 [])) = Some s1 ->
  exists l, reverse (offers pa s1) = reverse (offers pa s) ++ l.
Proof.
  intros Hp Hl. pose proof (re_wakes _ (re_main op pa dest len) env e _ _ Hp) as G. unfold grows in G. cbn beta in G. rewrite Hl in G.
  destruct G as [_ [l El]]. exists (reverse (omap (offer_of pa) l)). unfold offers. rewrite El, omap_app. apply reverse_app.
Qed.
