(* ===== verification/Operator.v ===== *)
(** * The console operator's authority

    The kernel state the console commands of storage and egress share, and the
    gates over it: the operator's taint (dezh-boot/src/difc.rs), the handles on
    namespaces (dezh-boot/src/ocap/ns.rs) and on devices
    (dezh-boot/src/ocap/device.rs), and the Cairn, Sand and Sfar commands
    (dezh-boot/src/cairn/console.rs).  Requests reach the ledger of [Ledger]
    through the client of [Client].  Console text is not modelled; every event
    recorded in the ring is.  [None] is a command that never returns. *)

From Stdlib Require Import ZArith Lia String.
From stdpp Require Import base option strings numbers list.
From S2P Require Import Prelude Text EventLog Mcap Ocap Difc Intent Cairn Ledger LedgerInv Daemon Client MarzIo Marz MarzFrames MarzWire MarzResume.

(** ** State *)

(** The two tables of capabilities with the operator's handles in them. *)
Record Authority := mkAuth { gens : list Z; held : list (option Cap); inited : bool }.

(** An egress daemon the kernel gave up on: it sleeps in the foreground slot, and
    runs on when it is woken.  What it was started with, and where it is. *)
Record Sleeper := mkSleeper { z_env : Env; z_op : Z; z_pa : Z; z_dest : Z; z_len : Z; z_start : Z -> Z; z_at : St }.

(** [wire] is a ghost: the frames offered to the NIC, oldest first. *)
Record Op := mkOp {
  taint : Taint; ns_auth : Authority; dev_auth : Authority; egress : Z; intents : AhdTable;
  ledger : Led; marz_dma : Z -> Z; events : EventRing; now : Z;
  wire : list (list Z); asleep : option Sleeper }.

Definition set_taint (t : Taint) (k : Op) : Op :=
  mkOp t (ns_auth k) (dev_auth k) (egress k) (intents k) (ledger k) (marz_dma k) (events k) (now k) (wire k) (asleep k).
Definition set_ns (a : Authority) (k : Op) : Op :=
  mkOp (taint k) a (dev_auth k) (egress k) (intents k) (ledger k) (marz_dma k) (events k) (now k) (wire k) (asleep k).
Definition set_dev (a : Authority) (k : Op) : Op :=
  mkOp (taint k) (ns_auth k) a (egress k) (intents k) (ledger k) (marz_dma k) (events k) (now k) (wire k) (asleep k).
Definition set_egress (e : Z) (k : Op) : Op :=
  mkOp (taint k) (ns_auth k) (dev_auth k) e (intents k) (ledger k) (marz_dma k) (events k) (now k) (wire k) (asleep k).
Definition set_intents (T : AhdTable) (k : Op) : Op :=
  mkOp (taint k) (ns_auth k) (dev_auth k) (egress k) T (ledger k) (marz_dma k) (events k) (now k) (wire k) (asleep k).
Definition set_ledger (l : Led) (k : Op) : Op :=
  mkOp (taint k) (ns_auth k) (dev_auth k) (egress k) (intents k) l (marz_dma k) (events k) (now k) (wire k) (asleep k).
Definition set_window (w : Z -> Z) (k : Op) : Op :=
  mkOp (taint k) (ns_auth k) (dev_auth k) (egress k) (intents k) (ledger k) w (events k) (now k) (wire k) (asleep k).
Definition set_events (r : EventRing) (k : Op) : Op :=
  mkOp (taint k) (ns_auth k) (dev_auth k) (egress k) (intents k) (ledger k) (marz_dma k) r (now k) (wire k) (asleep k).
Definition add_wire (fs : list (list Z)) (k : Op) : Op :=
  mkOp (taint k) (ns_auth k) (dev_auth k) (egress k) (intents k) (ledger k) (marz_dma k) (events k) (now k) (wire k ++ fs) (asleep k).
Definition set_asleep (z : option Sleeper) (k : Op) : Op :=
  mkOp (taint k) (ns_auth k) (dev_auth k) (egress k) (intents k) (ledger k) (marz_dma k) (events k) (now k) (wire k) z.

Definition OM (A : Type) : Type := Op -> option (A * Op).
#[export] Instance om_ret : MRet OM := fun A a k => Some (a, k).
#[export] Instance om_bind : MBind OM := fun A B f m k => match m k with Some (a, k) => f a k | None => None end.
Definition get : OM Op := fun k => Some (k, k).
Definition modify (f : Op -> Op) : OM unit := fun k => Some (tt, f k).
Definition record (actor action target res : str) : OM unit :=
  modify (fun k => set_events (record_event (mkEvent (now k) actor action target res) (events k)) k).

(** What lies outside the kernel during one command: the disk, what becomes of a
    storage request, whether the block service is started for it with a sleeping
    daemon awake by then, and the NIC that daemon meets, whether a NIC answers on
    the bus, whether the egress daemon could be given an address space, the NIC,
    and the physical address of its window. *)
Record Outside := mkOut {
  block_dev : nat -> Z -> bool -> Page -> option (Z * Page); service : ClientFate; wake : option Env;
  nic_found : bool; space : bool; nic : Env; marz_dma_pa : Z }.

(** ** The egress daemon in its slot

    The daemon's run from [w], of which [sent] frames are on the wire already.
    The exit code of a slot is 0 from the moment it is cleared until its task
    exits: that is what is read when the kernel gave up on a daemon asleep on a
    silent device.  Such a daemon is not reclaimed (only finished tasks are). *)
Definition run_daemon (env : Env) (op pa dest len : Z) (w : Z -> Z) (sent : nat) : OM Z := fun k =>
  let leave s z k := set_asleep z (add_wire (drop sent (reverse (offers pa s))) (set_window (win s) k)) in
  match main env op pa dest len (mkSt w 0 []) with
  | Exited code s => Some (code, leave s None k)
  | Parked s => Some (0, leave s (Some (mkSleeper env op pa dest len w s)) k)
  | Faulted s => Some (SYS_DENIED, leave s None k)
  | Done _ s => None
  | Spinning _ | OutOfSteps => None
  end.

(** The sleeper runs on against [e]. *)
Definition resume (e : Env) : OM unit :=
  k ← get;
  match asleep k with
  | None => mret tt
  | Some z =>
    run_daemon (splice (time (z_at z)) (z_env z) e) (z_op z) (z_pa z) (z_dest z) (z_len z) (z_start z)
      (length (offers (z_pa z) (z_at z))) ;; mret tt
  end.

(** ** Storage requests

    What [ensure_virtio_block_service] answers is part of [service o] (the
    registry itself is [Service]); what matters here is that it may have to start
    the service and then runs every task that is ready with it, a sleeper an
    interrupt has woken ([wake o]) included.  [run_foreground_processes] then
    clears the foreground slots before it launches the client. *)
Definition ensure_virtio_block_service (o : Outside) : OM unit := match wake o with Some e => resume e | None => mret tt end.
Definition clear_foreground (o : Outside) : OM unit :=
  match service o with NoService => mret tt | _ => modify (set_asleep None) end.
Definition in_ledger (m : LedM Z) : OM Z := fun k =>
  match m (ledger k) with Some (st, l) => Some (st, set_ledger l k) | None => None end.

Definition storage (o : Outside) (req : Z) (text : str) (caps : Z) : OM Z :=
  ensure_virtio_block_service o ;; clear_foreground o ;;
  in_ledger (run_registered_virtio_client_ns (block_dev o) (service o) req (utf8_encode text) caps).

(** ** Labels and taint (difc.rs)

    [difc_init] runs before every use of the two tables; these are the tables
    after it. *)

Definition NS_SECRET_VAULT : Z := 1.
Definition NS_ENDORSED : Z := 1.
Definition NS_LABEL : list Z := <[3%nat := NS_SECRET_VAULT]> (replicate 8 0).
Definition NS_REQUIRES : list Z := <[3%nat := NS_ENDORSED]> (<[0%nat := NS_ENDORSED]> (replicate 8 0)).
Definition ns_label (ns : Z) : Z := default 0 (NS_LABEL !! Z.to_nat ns).
Definition ns_requires (ns : Z) : Z := default 0 (NS_REQUIRES !! Z.to_nat ns).

Definition difc_observe (ns : Z) : OM unit :=
  let l := ns_label ns in
  if negb (l =? 0) then modify (fun k => set_taint (observe (taint k) l) k) else mret tt.

Definition difc_may_write (ns : Z) : OM bool :=
  k ← get; mret (may_flow_to (taint k) (ns_label ns) && may_endorse_to (taint k) (ns_requires ns)).

Definition difc_ingress (source : str) : OM unit :=
  modify (fun k => set_taint (observe_input (taint k) UNTRUSTED) k) ;;
  record (lit "kernel") (lit "difc.ingress") source (lit "tainted").

Definition declassify : OM unit :=
  k ← get;
  let i := integrity (taint k) in
  modify (set_taint taint_new) ;;
  (if negb (i =? TRUSTED) then modify (fun k => set_taint (observe_input (taint k) i) k) else mret tt) ;;
  record (lit "kernel") (lit "difc.declassify") (lit "operator") (lit "OK").

Definition endorse_op : OM unit :=
  modify (fun k => set_taint (endorse (taint k)) k) ;;
  record (lit "kernel") (lit "difc.endorse") (lit "operator") (lit "OK").

(** ** Handles (ocap/ns.rs, ocap/device.rs) *)

Definition put_handle (i : nat) (c : option Cap) (a : Authority) : Authority := mkAuth (gens a) (<[i := c]> (held a)) (inited a).
(** The init of either table: one handle per name. *)
Definition authority_init (names : nat) (rights : Z) (a : Authority) : Authority :=
  if inited a then a
  else let a := foldl (fun a i => put_handle i (mint (gens a) (Z.of_nat i) rights) a) a (seq 0 names) in
       mkAuth (gens a) (held a) true.
Definition authority_ok (a : Authority) (o : Z) : bool :=
  bool_decide ((fun h => check (gens a) h R_READ) <$> mjoin (held a !! Z.to_nat o) = Some CapOk).

Definition NS_RIGHTS : Z := R_READ .| R_WRITE .| R_DELEGATE.
Definition ns_authority_init (k : Op) : Op := set_ns (authority_init 5 NS_RIGHTS (ns_auth k)) k.
Definition ns_authority_ok (ns : Z) : OM bool :=
  modify ns_authority_init ;; k ← get; mret (authority_ok (ns_auth k) ns).
Definition ns_authority_live : Z -> OM bool := ns_authority_ok.
Definition ns_revoke_local (ns : Z) : OM unit :=
  modify ns_authority_init ;; modify (fun k => set_ns (mkAuth (revoke (gens (ns_auth k)) ns) (held (ns_auth k)) (inited (ns_auth k))) k).
Definition ns_remint_local (ns : Z) : OM unit :=
  modify ns_authority_init ;;
  modify (fun k => set_ns (put_handle (Z.to_nat ns) (mint (gens (ns_auth k)) ns NS_RIGHTS) (ns_auth k)) k).

Definition DEV_OBJ_NET : Z := 1.
Definition DEV_NAMES : list str := [lit "block"; lit "net"].
Definition DEV_RIGHTS : Z := R_READ .| R_WRITE.
Definition dev_authority_init (k : Op) : Op := set_dev (authority_init (length DEV_NAMES) DEV_RIGHTS (dev_auth k)) k.
Definition dev_authority_ok (obj : Z) : OM bool :=
  modify dev_authority_init ;; k ← get; mret (authority_ok (dev_auth k) obj).
Definition dev_authority_live : Z -> OM bool := dev_authority_ok.
Definition dev_name_id (name : str) : option Z := position (fun n => str_eqb n name) DEV_NAMES.
Definition dev_authority_set (arg : str) (grant : bool) : OM unit :=
  match dev_name_id (trim arg) with
  | None => mret tt
  | Some obj =>
    modify dev_authority_init ;;
    modify (fun k => let a := dev_auth k in
      set_dev (if grant then put_handle (Z.to_nat obj) (mint (gens a) obj DEV_RIGHTS) a
               else mkAuth (revoke (gens a) obj) (held a) (inited a)) k) ;;
    record (lit "kernel") (if grant then lit "dev.grant" else lit "dev.revoke") (default [] (DEV_NAMES !! Z.to_nat obj)) (lit "OK")
  end.

(** ** The Cairn commands (cairn/console.rs, ocap/ns.rs) *)

Definition cairn_parse_ns (arg : str) : option (Z * str) :=
  let '(ns_name, rest) := match split_once 32 arg with Some (n, r) => (n, trim r) | None => (arg, []) end in
  (fun ns => (ns, rest)) <$> cairn_ns_id ns_name.
Definition ns_name (ns : Z) : str := default [] (CAIRN_NS_NAMES !! Z.to_nat ns).
Definition ok_fail (st : Z) : str := if st =? 0 then lit "ok" else lit "fail".

Section Commands.
Context (o : Outside).

Definition cairn_cmd_commit (arg : str) : OM unit :=
  match cairn_parse_ns arg with
  | None => mret tt
  | Some (ns, text) =>
    if bool_decide (text = []) then mret tt else
    live ← ns_authority_live ns;
    if negb live then record (lit "console") (lit "cairn.commit") (ns_name ns) (lit "DENIED") else
    may ← difc_may_write ns;
    if negb may then record (lit "console") (lit "cairn.commit") (ns_name ns) (lit "DENIED") else
    st ← storage o (cairn_req REQ_CAIRN_COMMIT ns 0) text (task_ns_cap ns);
    record (lit "console") (lit "cairn.commit") (ns_name ns) (ok_fail st)
  end.

Definition cairn_cmd_simple (base : Z) (arg : str) : OM unit :=
  match cairn_parse_ns arg with
  | None => mret tt
  | Some (ns, _) =>
    live ← ns_authority_live ns;
    if negb live then mret tt else
    st ← storage o (cairn_req base ns 0) [] (task_ns_cap ns);
    if (base =? REQ_CAIRN_GET) && (st =? 0) then difc_observe ns else mret tt
  end.

Definition cairn_cmd_rollback (arg : str) : OM unit :=
  match cairn_parse_ns arg with
  | None => mret tt
  | Some (ns, rest) =>
    let steps := Z.max (default 1 (parse_unsigned 64 rest)) 1 in
    st ← storage o (cairn_req REQ_CAIRN_ROLLBACK ns steps) [] (task_ns_cap ns);
    record (lit "console") (lit "cairn.rollback") (ns_name ns) (ok_fail st)
  end.

Definition sand_cmd (base : Z) (arg : str) : OM unit :=
  match cairn_parse_ns arg with
  | None => mret tt
  | Some (ns, _) => storage o (cairn_req base ns 0) [] (task_ns_cap ns) ;; mret tt
  end.

Definition all_cairn_ns_caps : Z := foldl (fun caps ns => caps .| task_ns_cap (Z.of_nat ns)) 0 (seq 0 (length CAIRN_NS_NAMES)).

Definition sfar_cmd (base : Z) (arg : str) : OM unit :=
  let ev_action := if base =? REQ_SFAR_ROLLBACK then lit "sfar.rollback" else if base =? REQ_TBAR then lit "tbar.query" else lit "sfar.plan" in
  match parse_unsigned 16 (trim arg) with
  | None => mret tt
  | Some id =>
    if id =? 0 then mret tt else
    st ← storage o (sfar_req base 4 id) [] all_cairn_ns_caps;
    record (lit "console") ev_action (lit "mission") (ok_fail st)
  end.

Definition ns_revoke (arg : str) : OM unit :=
  match cairn_parse_ns arg with
  | None => mret tt
  | Some (ns, _) =>
    ns_revoke_local ns ;;
    storage o (cairn_req REQ_NS_REVOKE ns 0) [] (task_ns_cap ns) ;;
    record (lit "kernel") (lit "ns.revoke") (ns_name ns) (lit "OK")
  end.
Definition ns_grant (arg : str) : OM unit :=
  match cairn_parse_ns arg with
  | None => mret tt
  | Some (ns, _) =>
    ns_remint_local ns ;;
    storage o (cairn_req REQ_NS_GRANT ns 0) [] (task_ns_cap ns) ;;
    record (lit "kernel") (lit "ns.grant") (ns_name ns) (lit "OK")
  end.
End Commands.

(** The state at boot. *)
Definition boot_op (l : Led) : Op :=
  mkOp taint_new (mkAuth (Ocap.new 8) (replicate 8 None) false) (mkAuth (Ocap.new 4) (replicate 4 None) false)
    (Z.shiftl 1 16 .| Z.shiftl 1 17) ahd_boot l (fun _ => 0) ring_start 0 [] None.
