(* ===== verification/KHost.v ===== *)
(** * The kernel as host of a Dezh-IR guest (dezh-boot/src/main.rs)

    [KHost] is what the interpreter of [Ir] calls out to when the kernel runs a
    package: the capability test, the console, and the app's namespace of the
    Cairn store behind the block daemon of [Client], with the operator's
    revocations of [Operator] in between.  The theorem bounds what a guest does
    through it by the manifest of its package. *)

From Stdlib Require Import ZArith Lia String.
From stdpp Require Import base option strings numbers list.
From S2P Require Import Prelude Text Dzp Ir IrVerify IrSafety EventLog Mcap Ocap Difc Intent Cairn Ledger LedgerInv LedgerSafe LedgerSpec Daemon Client MarzIo Marz MarzFrames MarzWire MarzResume Operator.

(** ** State

    The struct, and what its methods reach: the kernel's state, the lines on the
    console, what lies outside the kernel during each storage call, and how many
    of those were made.  [kh_hung]: the last of them never returned, so nothing
    follows it. *)
Inductive Line := LineNum (v : Z) | LineText (s : str).
Record KHost := mkKHost {
  kh_caps : Z; kh_cairn : option Z; kh_intent : Z; kh_derived : Z;
  kh_kernel : Op; kh_console : list Line; kh_outside : nat -> Outside; kh_calls : nat; kh_hung : bool }.

Definition set_kernel (k : Op) (h : KHost) : KHost :=
  mkKHost (kh_caps h) (kh_cairn h) (kh_intent h) (kh_derived h) k (kh_console h) (kh_outside h) (kh_calls h) (kh_hung h).
Definition add_line (l : Line) (h : KHost) : KHost :=
  mkKHost (kh_caps h) (kh_cairn h) (kh_intent h) (kh_derived h) (kh_kernel h) (kh_console h ++ [l]) (kh_outside h) (kh_calls h) (kh_hung h).
Definition count_call (h : KHost) : KHost :=
  mkKHost (kh_caps h) (kh_cairn h) (kh_intent h) (kh_derived h) (kh_kernel h) (kh_console h) (kh_outside h) (S (kh_calls h)) (kh_hung h).
Definition hang (h : KHost) : KHost :=
  mkKHost (kh_caps h) (kh_cairn h) (kh_intent h) (kh_derived h) (kh_kernel h) (kh_console h) (kh_outside h) (kh_calls h) true.

(** ** The methods *)

Definition SAND_REV_REVERSIBLE : Z := 0.

(** [run_virtio_client_ns_raw], the window being prepared. *)
Definition storage_raw (o : Outside) (req input_len caps : Z) : OM Z :=
  ensure_virtio_block_service o ;; clear_foreground o ;;
  in_ledger (run_virtio_client_ns_raw (block_dev o) (service o) req input_len caps).

Definition kh_put (intent derived ns : Z) (o : Outside) (bytes : list Z) : OM bool :=
  live ← ns_authority_ok ns;
  if negb live then mret false else
  in_ledger (prepare_virtio_input_bytes bytes ;; mret 0) ;;
  st ← storage_raw o (cairn_req_intent REQ_CAIRN_COMMIT ns intent derived SAND_REV_REVERSIBLE) (zlen bytes) (task_ns_cap ns);
  mret (st =? 0).

(** The window after the call holds a zero-terminated value; [buf] is the guest's
    memory it is copied to. *)
Definition kh_get (ns : Z) (o : Outside) (buf : list Z) : OM (list Z * option Z) :=
  live ← ns_authority_ok ns;
  if negb live then mret (buf, None) else
  st ← storage_raw o (cairn_req REQ_CAIRN_GET ns 0) 0 (task_ns_cap ns);
  if negb (st =? 0) then mret (buf, None) else
  k ← get;
  let sector := window_bytes (data (ledger k)) in
  let n := Z.min (default 448 (position (fun b => b =? 0) sector)) (zlen buf) in
  mret (take (Z.to_nat n) sector ++ drop (Z.to_nat n) buf, Some n).

(** A storage call on the kernel's state. *)
Definition call_kernel {A} (m : Outside -> OM A) (refused : A) (h : KHost) : KHost * A :=
  if kh_hung h then (h, refused) else
  match m (kh_outside h (kh_calls h)) (kh_kernel h) with
  | Some (a, k) => (count_call (set_kernel k h), a)
  | None => (hang h, refused)
  end.

Definition kh_can (h : KHost) (cap : Z) : bool := negb (kh_caps h & cap =? 0).
Definition kh_print_num (h : KHost) (v : Z) : KHost := if kh_hung h then h else add_line (LineNum v) h.
Definition kh_print_str (h : KHost) (s : list Z) : KHost :=
  if kh_hung h then h else add_line (LineText (default (lit "<non-utf8>") (utf8_decode s))) h.
Definition kh_cairn_put (h : KHost) (bytes : list Z) : KHost * bool :=
  match kh_cairn h with
  | None => (h, false)
  | Some ns => call_kernel (fun o => kh_put (kh_intent h) (kh_derived h) ns o bytes) false h
  end.
Definition kh_cairn_get (h : KHost) (buf : list Z) : KHost * list Z * option Z :=
  match kh_cairn h with
  | None => (h, buf, None)
  | Some ns => let '(h, (buf, r)) := call_kernel (fun o => kh_get ns o buf) (buf, None) h in (h, buf, r)
  end.

#[export] Instance khost_host : Host KHost := {
  can := kh_can; print_num := kh_print_num; print_str := kh_print_str; cairn_put := kh_cairn_put; cairn_get := kh_cairn_get }.

(** The host [run_ir] of a package gives a guest with the effective capability
    set [mcaps]. *)
Definition package_host (mcaps : Z) (name : str) (ahd_id : Z) (k : Op) (outside : nat -> Outside) : KHost :=
  mkKHost (ir_caps_from mcaps) (app_cairn_ns mcaps name) ahd_id mcaps k [] outside 0 false.

(** ** It is a host *)

Lemma window_bytes_ok p : bytes_ok (window_bytes p) /\ zlen (window_bytes p) = 512.
Proof.
  unfold window_bytes, zlen. rewrite length_map, length_seq. split; [|done].
  apply Forall_map, Forall_true. intros i. by apply wrap_fits.
Qed.

Lemma position_bound {A} (p : A -> bool) l i : position p l = Some i -> 0 <= i < zlen l.
Proof.
  intros Hp. apply position_Some in Hp as (? & x & Hx & _). apply lookup_lt_Some in Hx. unfold zlen. lia.
Qed.

Lemma kh_get_spec ns o buf k buf' r k' : kh_get ns o buf k = Some ((buf', r), k') ->
  length buf' = length buf /\ (bytes_ok buf -> bytes_ok buf') /\ (forall n, r = Some n -> fits 64 n).
Proof.
  unfold kh_get, mbind, om_bind, mret, om_ret. destruct (ns_authority_ok ns k) as [[live k1]|]; [|done].
  destruct live; cbn [negb]; [|intros [= <- <- <-]; done].
  destruct (storage_raw _ _ _ _ k1) as [[st k2]|]; [|done]. destruct (st =? 0); cbn [negb]; [|intros [= <- <- <-]; done].
  unfold get. destruct (window_bytes_ok (data (ledger k2))) as [Hb Hl]. revert Hb Hl. generalize (window_bytes (data (ledger k2))) as w.
  intros w Hb Hl. pose proof (position_bound (fun b => b =? 0) w) as Hp.
  assert (Hd : 0 <= default 448 (position (fun b => b =? 0) w) <= 512).
  { destruct (position _ w) as [i|]; cbn; [specialize (Hp i eq_refl)|]; lia. }
  revert Hd. generalize (default 448 (position (fun b => b =? 0) w)) as d. intros d Hd [= <- <- _].
  pose proof (zlen_nonneg buf). unfold zlen in *. split; [rewrite length_app, length_take, length_drop; lia|]. split.
  - intros Hbuf. apply Forall_app_2; [by apply Forall_take|by apply Forall_drop].
  - intros n [= <-]. unfold fits. lia.
Qed.

#[export] Instance khost_laws : HostLaws KHost.
Proof.
  assert (Hs : forall h buf h' buf' r, Ir.cairn_get h buf = (h', buf', r) ->
    length buf' = length buf /\ (bytes_ok buf -> bytes_ok buf') /\ (forall n, r = Some n -> fits 64 n)).
  { intros h buf h' buf' r. cbn. unfold kh_cairn_get. destruct (kh_cairn h) as [ns|]; [|by intros [= <- <- <-]]. unfold call_kernel.
    destruct (kh_hung h); [by intros [= <- <- <-]|].
    destruct (kh_get ns _ buf (kh_kernel h)) as [[[b q] k]|] eqn:E; [|by intros [= <- <- <-]].
    intros [= <- <- <-]. by eapply kh_get_spec. }
  split; intros; by edestruct Hs as (? & ? & ?); eauto.
Qed.

(** ** What a guest does through it *)

(** The four calls of the boundary, and the manifest capability each needs. *)
Inductive HostCall := CPrintNum (v : Z) | CPrintStr (bs : list Z) | CPut (bs : list Z) | CGet (buf : list Z).
Definition perform (h : KHost) (c : HostCall) : KHost :=
  match c with
  | CPrintNum v => Ir.print_num h v
  | CPrintStr bs => Ir.print_str h bs
  | CPut bs => (Ir.cairn_put h bs).1
  | CGet buf => (Ir.cairn_get h buf).1.1
  end.
Definition call_cap (c : HostCall) : Z :=
  match c with CPrintNum _ | CPrintStr _ => CAP_PRINT | CPut _ => CAP_WRITE | CGet _ => CAP_READ end.
Definition call_mcap (c : HostCall) : Z :=
  match c with CPrintNum _ | CPrintStr _ => MCAP_PRINT | CPut _ => MCAP_CAIRN_WRITE | CGet _ => MCAP_CAIRN_READ end.

Lemma call_kernel_keeps {A} (m : Outside -> OM A) refused h :
  kh_caps (call_kernel m refused h).1 = kh_caps h /\ kh_cairn (call_kernel m refused h).1 = kh_cairn h.
Proof. unfold call_kernel. destruct (kh_hung h); [done|]. by destruct (m _ _) as [[]|]. Qed.

Lemma perform_keeps h c : kh_caps (perform h c) = kh_caps h /\ kh_cairn (perform h c) = kh_cairn h.
Proof.
  destruct c; cbn; unfold kh_print_num, kh_print_str, kh_cairn_put, kh_cairn_get; [by destruct (kh_hung h)..| |]; destruct (kh_cairn h) as [ns|] eqn:E; try done.
  - destruct (call_kernel_keeps (fun o => kh_put (kh_intent h) (kh_derived h) ns o bs) false h). by rewrite <- E.
  - destruct (call_kernel_keeps (fun o => kh_get ns o buf) (buf, None) h) as [H1 H2]. rewrite <- E.
    by destruct (call_kernel _ _ h) as [h' [b r]].
Qed.

Lemma performs_keep cs h : kh_caps (foldl perform h cs) = kh_caps h /\ kh_cairn (foldl perform h cs) = kh_cairn h.
Proof.
  revert h. induction cs as [|c cs IH]; intros h; cbn; [done|].
  destruct (perform_keeps h c) as [<- <-]. apply IH.
Qed.

(** What is gated is a sequence of calls the capabilities allow. *)
Lemma gated_performs h h' : IrSafety.gated h h' ->
  exists cs, h' = foldl perform h cs /\ Forall (fun c => kh_caps h & call_cap c <> 0) cs.
Proof.
  assert (Hsnoc : forall h0 h1 c, (exists cs, h1 = foldl perform h0 cs /\ Forall (fun c => kh_caps h0 & call_cap c <> 0) cs) ->
    can h1 (call_cap c) = true -> exists cs, perform h1 c = foldl perform h0 cs /\ Forall (fun c => kh_caps h0 & call_cap c <> 0) cs).
  { intros h0 h1 c (cs & -> & Hcs) Hc. exists (cs ++ [c]). rewrite foldl_app. split; [done|]. apply Forall_app_2; [done|].
    constructor; [|done]. cbn in Hc. unfold kh_can in Hc. destruct (performs_keep cs h0) as [E _]. rewrite E in Hc. by apply negb_true_iff, Z.eqb_neq in Hc. }
  induction 1 as [h|h h' v Hg IH Hc|h h' v Hg IH Hc|h h' v Hg IH Hc|h h' v Hg IH Hc].
  - by exists [].
  - by apply (Hsnoc h h' (CPrintNum v)).
  - by apply (Hsnoc h h' (CPrintStr v)).
  - by apply (Hsnoc h h' (CPut v)).
  - by apply (Hsnoc h h' (CGet v)).
Qed.

Lemma ir_caps_call m c : ir_caps_from m & call_cap c <> 0 -> m & call_mcap c <> 0.
Proof.
  rewrite ir_caps_bits. destruct (mcap_bits m) as (H1 & _ & _ & H2 & H3). intros Hc Hm. apply Z.eqb_eq, negb_false_iff in Hm.
  apply Hc. destruct c; cbn [call_cap call_mcap] in *; rewrite ?H1, ?H2, ?H3 in Hm; rewrite Hm;
    by destruct (Z.testbit m 0), (Z.testbit m 3), (Z.testbit m 4).
Qed.

Definition lists (manifest : str) (bit : Z) : Prop :=
  exists cap, cap ∈ manifest_list manifest (lit "caps") /\ mcap_lookup cap = Some bit.

Lemma call_listed manifest set m c : parse_mcaps manifest = Ok set -> subset_bits m set -> m & call_mcap c <> 0 ->
  lists manifest (call_mcap c).
Proof.
  intros Hp Hsub Hc. assert (Hk : exists k, 0 <= k /\ call_mcap c = 2 ^ k) by (destruct c; [by exists 0|by exists 0|by exists 4|by exists 3]).
  destruct Hk as (k & Hk & Ek). rewrite Ek in *. apply Z.eqb_neq, negb_true_iff in Hc. rewrite land_bit_nonzero in Hc by done.
  apply (proj1 (subset_bits_spec m set) Hsub) in Hc; [|done].
  destruct (parse_mcaps_bit _ _ _ Hp Hk Hc) as (cap & bit & Hin & Hlk & Ht).
  exists cap. split; [done|]. by rewrite (mcap_lookup_bit _ _ _ Hlk Hk Ht) in Hlk.
Qed.

(** Without a namespace the kernel's state stays as it is. *)
Lemma performs_kernel cs h : kh_cairn h = None -> kh_kernel (foldl perform h cs) = kh_kernel h.
Proof.
  revert h. induction cs as [|c cs IH]; intros h Hh; [done|]. cbn [foldl]. rewrite IH.
  - destruct c; cbn; unfold kh_print_num, kh_print_str, kh_cairn_put, kh_cairn_get; [by destruct (kh_hung h)..| |]; by rewrite Hh.
  - by rewrite (proj2 (perform_keeps h c)).
Qed.

(** A namespace is bound only to the app it is named after, and only when the
    manifest asks for storage. *)
Lemma namespace_asked manifest set m name ns : parse_mcaps manifest = Ok set -> subset_bits m set -> app_cairn_ns m name = Some ns ->
  CAIRN_NS_NAMES !! Z.to_nat ns = Some name /\ (lists manifest MCAP_CAIRN_READ \/ lists manifest MCAP_CAIRN_WRITE).
Proof.
  intros Hp Hsub. unfold app_cairn_ns. rewrite cairn_bits. destruct (mcap_bits m) as (_ & _ & _ & H3 & H4).
  destruct (Z.testbit m 3 || Z.testbit m 4) eqn:E; [|done]. cbn. intros Hns. split; [by apply cairn_ns_id_name|].
  apply orb_true_iff in E as [E|E]; [left; apply (call_listed manifest set m (CGet []))|right; apply (call_listed manifest set m (CPut []))];
    try done; cbn; apply Z.eqb_neq, negb_true_iff; by rewrite ?H3, ?H4.
Qed.

(** C8: A Dezh-IR guest run by the kernel with the host built from its package's manifest, or from a
    smaller set under an intent, whatever its bytes and at every moment of its run, halting or not:
    everything it has done to the kernel's host is a sequence of prints, Cairn commits and Cairn reads
    whose capability names the manifest lists, and the kernel's state (ledger, taint, authority, wire)
    has not changed at all unless the app's own name is a Cairn namespace and the manifest lists a Cairn
    capability. *)
Theorem manifest_bounds_guest_effects manifest set m name ahd_id k outside oc n code :
  bytes_ok code -> parse_mcaps manifest = Ok set -> subset_bits m set ->
  let h := package_host m name ahd_id k outside in
  let h' := (turns oc n code 0 (vm0, h)).2 in
  (exists cs, h' = foldl perform h cs /\ Forall (fun c => lists manifest (call_mcap c)) cs) /\
  (kh_kernel h' = k \/
   exists ns, kh_cairn h = Some ns /\ CAIRN_NS_NAMES !! Z.to_nat ns = Some name /\
     (lists manifest MCAP_CAIRN_READ \/ lists manifest MCAP_CAIRN_WRITE)).
Proof.
  intros Hok Hp Hsub h h'. destruct (gated_performs h h' (turns_gated oc n code h Hok)) as (cs & Hcs & Hall). split.
  - exists cs. split; [exact Hcs|]. eapply Forall_impl; [exact Hall|]. intros c Hc. by eapply call_listed, ir_caps_call.
  - destruct (app_cairn_ns m name) as [ns|] eqn:E; [right|left].
    + exists ns. split; [exact E|]. by eapply namespace_asked.
    + rewrite Hcs. by apply (performs_kernel cs h).
Qed.

(** ** At work *)

(** The demo program of the store, in a package named after the agent namespace
    that asks for all three capabilities, on a blank disk. *)
Definition storage_manifest : str :=
  lit "caps = [" ++ [34] ++ lit "print" ++ [34] ++ lit ", " ++ [34] ++ lit "cairn-read" ++ [34] ++ lit ", " ++ [34] ++ lit "cairn-write" ++ [34] ++ lit "]".
Definition cairn_code : list Z := Eval vm_compute in asm_or_nil (demo_cairn scratch).
Definition blank_kernel : Op := let z : Page := fun _ => 0 in boot_op (mkLed (fun _ => z) z z 0 []).
Definition served : nat -> Outside := fun _ => mkOut (fun _ _ _ _ => None) (Serves true) None true true (sink_nic 0) 0x80000000.
Definition agent_host : KHost := package_host 25 (lit "agent") 7 blank_kernel served.

(** It writes to its own namespace under its intent, and prints what it reads back. *)
Example the_store_demo_runs :
  let h := (turns true 200 cairn_code 0 (vm0, agent_host)).2 in
  kh_console h = [LineText (lit "ir-wrote-this-durably")] /\
  (fun e => (e_value e, intent (e_head e))) <$> history (disk (ledger (kh_kernel h))) 4 = [(lit "ir-wrote-this-durably", 7)].
Proof. vm_compute. done. Qed.

Lemma manifest_bounds_guest_effects_witness :
  let h' := (turns true 200 cairn_code 0 (vm0, agent_host)).2 in
  kh_calls h' = 2%nat /\ exists cs, h' = foldl perform agent_host cs /\ Forall (fun c => lists storage_manifest (call_mcap c)) cs.
Proof.
  intros h'. split; [vm_compute; reflexivity|].
  apply (manifest_bounds_guest_effects storage_manifest 25 25 (lit "agent") 7 blank_kernel served true 200 cairn_code).
  - by apply bytes_okb_spec.
  - vm_compute. reflexivity.
  - done.
Defined.
