(* ===== verification/Egress.v ===== *)
(** * The egress boundary (dezh-boot/src/net/marz.rs)

    Destinations with their labels, the gate, the staged request and its reply,
    and the commands that run the daemon of [Marz] on the shared window.  A
    command that launches the daemon composes three parts: the request staged
    by the kernel, the daemon's run against the NIC, and what the kernel makes
    of its exit status. *)

From Stdlib Require Import ZArith Lia String.
From stdpp Require Import base option strings numbers list.
From S2P Require Import Prelude Text EventLog Mcap Ocap Difc Intent Cairn Ledger LedgerInv Daemon Client MarzIo Marz MarzFrames MarzWire MarzResume Operator.

Record MarzDest := mkDest { d_name : str; d_ip : list Z; d_port : Z; d_label : Z; d_record : str; d_record_effect : str }.

Definition MARZ_DESTS : list MarzDest :=
  [mkDest (lit "ops") [10; 0; 2; 2] 8888 0
     (lit "egress -> ops 10.0.2.2:8888 [REAL external send, on the wire]")
     (lit "effect -> ops 10.0.2.2:8888 [REAL external effect via gateway; compensatable, gateway outside the TCB]");
   mkDest (lit "vault-sync") [10; 0; 2; 3] 9999 NS_SECRET_VAULT
     (lit "egress -> vault-sync 10.0.2.3:9999 [REAL external send, on the wire]")
     (lit "effect -> vault-sync 10.0.2.3:9999 [REAL external effect via gateway; compensatable, gateway outside the TCB]")].

Definition MARZ_DEST_BASE : Z := 16.
Definition marz_dest_cap (d : Z) : Z := Z.shiftl 1 (MARZ_DEST_BASE + d).
Definition marz_dest_id (name : str) : option Z := position (fun d => str_eqb (d_name d) name) MARZ_DESTS.
Definition no_dest : MarzDest := mkDest [] [] 0 0 [] [].
Definition dest_at (d : Z) : MarzDest := default no_dest (MARZ_DESTS !! Z.to_nat d).

Definition marz_dest_packed (d : MarzDest) : Z :=
  Z.shiftl (at_ (d_ip d) 0) 24 .| Z.shiftl (at_ (d_ip d) 1) 16 .| Z.shiftl (at_ (d_ip d) 2) 8 .| at_ (d_ip d) 3 .| Z.shiftl (d_port d) 32.

Definition marz_gate (d : Z) : OM bool :=
  k ← get;
  mret (if egress k & marz_dest_cap d =? 0 then false else may_flow_to (taint k) (d_label (dest_at d))).

(** ** The request and its reply *)

Definition MARZ_REQ_OFF : Z := 0x3120.
Definition MARZ_REQ_MAX : Z := 0xE0.
Definition FX_MAGIC : str := lit "DEZHFX1".

Definition marz_stage_request (text : str) : OM (option Z) :=
  let b := utf8_encode text in
  if MARZ_REQ_MAX <? zlen b then mret None
  else modify (fun k => set_window (poke (marz_dma k) MARZ_REQ_OFF b) k) ;; mret (Some (zlen b)).

(** The bytes up to the terminator; [None] when one is not printable or there is
    no terminator in [MARZ_REQ_MAX] bytes. *)
Fixpoint read_reply (fuel : nat) (w : Z -> Z) (off : Z) : option (list Z) :=
  match fuel with
  | O => None
  | S fuel =>
    let c := wrap 8 (w off) in
    if c =? 0 then Some []
    else if negb ((0x20 <=? c) && (c <? 0x7f)) then None
    else cons c <$> read_reply fuel w (off + 1)
  end.
Definition marz_read_reply (w : Z -> Z) : option (list Z) := read_reply (Z.to_nat MARZ_REQ_MAX) w MARZ_REQ_OFF.

Definition fx_parse (reply : str) : option (bool * str) :=
  match split 32 reply with
  | m :: v :: rest =>
    if negb (str_eqb m FX_MAGIC) then None
    else let token := match rest with t :: _ => t | [] => lit "-" end in
         if str_eqb v (lit "OK") then Some (true, token)
         else if str_eqb v (lit "ERR") then Some (false, token) else None
  | _ => None
  end.

(** Bytes are dropped once the buffer is full. *)
Definition fx_put (out : list Z) (s : str) : list Z := take (Z.to_nat MARZ_REQ_MAX) (out ++ utf8_encode s).
Definition fx_compose_record (forward dest token : str) : list Z :=
  let out := fx_put [] forward in
  let out := if zlen out <? MARZ_REQ_MAX then out ++ [0x1f] else out in
  fx_put (fx_put (fx_put (fx_put out (lit "marz-effect ")) dest) (lit " git.revert ")) token.

(** A part is appended only if all of it fits. *)
Definition fx_append (out : list Z) (s : str) : option (list Z) :=
  let b := utf8_encode s in if MARZ_REQ_MAX <? zlen out + zlen b then None else Some (out ++ b).
(** The digits of a [u16], in the six bytes of [num]. *)
Fixpoint u16_digits (fuel : nat) (v : Z) (acc : str) : str :=
  match fuel with
  | O => acc
  | S fuel => let acc := (48 + v mod 10) :: acc in if v / 10 =? 0 then acc else u16_digits fuel (v / 10) acc
  end.
Definition marz_stage_fx (ahd : Z) (verb arg : str) : OM (option Z) :=
  let line :=
    out ← fx_append [] FX_MAGIC; out ← fx_append out (lit " "); out ← fx_append out (u16_digits 6 ahd []);
    out ← fx_append out (lit " "); out ← fx_append out verb; out ← fx_append out (lit " "); fx_append out arg in
  match line ≫= utf8_decode with None => mret None | Some text => marz_stage_request text end.

(** ** Running the daemon *)

Section Egress.
Context (o : Outside).

(** [run_foreground_processes] on the daemon, then [foreground_exit_code]: the
    slots are cleared whether or not an address space can be built. *)
Definition run_marz (op dest len : Z) : OM Z :=
  modify (set_asleep None) ;;
  if negb (space o) then mret 0 else
  k ← get; run_daemon (nic o) op (marz_dma_pa o) dest len (marz_dma k) 0.

Definition LAB : Z := 1.
Definition SAND_REV_COMPENSATABLE : Z := 1.
Definition SAND_REV_IRREVERSIBLE : Z := 2.
Definition or_ops (name : str) : str := if bool_decide (name = []) then lit "ops" else name.

Definition marz_send_to (arg : str) (ahd : Z) : OM unit :=
  match marz_dest_id (or_ops (trim arg)) with
  | None => mret tt
  | Some d =>
    let dest := dest_at d in
    if negb (nic_found o) then record (lit "kernel") (lit "marz.send") (lit "virtio-net") (lit "absent") else
    live ← dev_authority_live DEV_OBJ_NET;
    if negb live then record (lit "kernel") (lit "marz.send") (lit "device") (lit "DENIED") else
    pass ← marz_gate d;
    if negb pass then record (lit "kernel") (lit "marz.send") (d_name dest) (lit "DENIED") else
    st ← run_marz 0 (marz_dest_packed dest) 0;
    record (lit "kernel") (lit "marz.send") (d_name dest) (if st =? 0 then lit "OK" else lit "fail") ;;
    if negb (st =? 0) then mret tt else
    storage o (cairn_req_intent REQ_CAIRN_COMMIT LAB ahd MCAP_PRINT SAND_REV_IRREVERSIBLE) (d_record dest) (task_ns_cap LAB) ;;
    mret tt
  end.
Definition run_marz_send (arg : str) : OM unit := marz_send_to arg 0.

Definition run_marz_ping (arg : str) : OM unit :=
  match marz_dest_id (or_ops (trim arg)) with
  | None => mret tt
  | Some d =>
    let dest := dest_at d in
    if negb (nic_found o) then mret tt else
    live ← dev_authority_live DEV_OBJ_NET;
    if negb live then record (lit "kernel") (lit "marz.ping") (lit "device") (lit "DENIED") else
    pass ← marz_gate d;
    if negb pass then record (lit "kernel") (lit "marz.ping") (d_name dest) (lit "DENIED") else
    st ← run_marz 1 (marz_dest_packed dest) 0;
    record (lit "kernel") (lit "marz.ping") (d_name dest) (if st =? 0 then lit "OK" else lit "fail") ;;
    if st =? 0 then difc_ingress (lit "the network") else mret tt
  end.

(** What the kernel makes of the daemon's answer. *)
Definition effect_outcome (dest : MarzDest) (ahd st : Z) : OM unit :=
  let ev res := record (lit "kernel") (lit "marz.effect") (d_name dest) res in
  if negb (st =? 0) then ev (lit "no-reply") else
  k ← get;
  match marz_read_reply (marz_dma k) with
  | None => ev (lit "bad-reply")
  | Some bytes =>
    let reply := default [] (utf8_decode bytes) in
    difc_ingress (lit "marz-effect gateway reply") ;;
    match fx_parse reply with
    | None => ev (lit "malformed")
    | Some (false, _) => ev (lit "refused")
    | Some (true, token) =>
      let value := default (d_record_effect dest) (utf8_decode (fx_compose_record (d_record_effect dest) (d_name dest) token)) in
      storage o (cairn_req_intent REQ_CAIRN_COMMIT LAB ahd MCAP_PRINT SAND_REV_COMPENSATABLE) value (task_ns_cap LAB) ;;
      ev (lit "OK")
    end
  end.

Definition split_arg (arg : str) : str * str := default (trim arg, []) (split_once 32 (trim arg)).

Definition marz_effect (arg : str) (ahd : Z) : OM unit :=
  ahd ← (if negb (ahd =? 0) then mret ahd
         else k ← get;
              match open_intent (lit "writer") (intents k) with
              | Some (id, _, T) => modify (set_intents T) ;; mret id
              | None => mret 0
              end);
  let '(dname, rest) := split_arg arg in
  let '(verb, slug) := split_arg rest in
  let verb := if bool_decide (verb = []) then lit "git.commit" else verb in
  if bool_decide (slug = []) then mret tt else
  match marz_dest_id (or_ops dname) with
  | None => mret tt
  | Some d =>
    let dest := dest_at d in
    if negb (nic_found o) then record (lit "kernel") (lit "marz.effect") (lit "virtio-net") (lit "absent") else
    live ← dev_authority_live DEV_OBJ_NET;
    if negb live then record (lit "kernel") (lit "marz.effect") (lit "device") (lit "DENIED") else
    pass ← marz_gate d;
    if negb pass then record (lit "kernel") (lit "marz.effect") (d_name dest) (lit "DENIED") else
    staged ← marz_stage_fx ahd verb slug;
    match staged with
    | None => record (lit "kernel") (lit "marz.effect") (d_name dest) (lit "too-long")
    | Some len => st ← run_marz 2 (marz_dest_packed dest) len; effect_outcome dest ahd st
    end
  end.
End Egress.

Definition marz_egress_reset_all : OM unit := modify (set_egress (marz_dest_cap 0 .| marz_dest_cap 1)).

Definition marz_dest_authority (arg : str) (grant : bool) : OM unit :=
  match marz_dest_id (trim arg) with
  | None => mret tt
  | Some d =>
    modify (fun k => set_egress (if grant then egress k .| marz_dest_cap d else egress k & unot 64 (marz_dest_cap d)) k) ;;
    record (lit "kernel") (if grant then lit "marz.grant" else lit "marz.revoke") (d_name (dest_at d)) (lit "OK")
  end.

(** ** Sessions *)

Inductive Cmd :=
| CCommit (arg : str) | CSimple (base : Z) (arg : str) | CRollback (arg : str) | CSand (base : Z) (arg : str)
| CSfar (base : Z) (arg : str) | CNsRevoke (arg : str) | CNsGrant (arg : str) | CDev (arg : str) (grant : bool)
| CDeclassify | CEndorse | CSend (arg : str) (ahd : Z) | CPing (arg : str) | CEffect (arg : str) (ahd : Z)
| CDest (arg : str) (grant : bool) | CResetEgress.

Definition run_cmd (o : Outside) (c : Cmd) : OM unit :=
  match c with
  | CCommit a => cairn_cmd_commit o a
  | CSimple b a => cairn_cmd_simple o b a
  | CRollback a => cairn_cmd_rollback o a
  | CSand b a => sand_cmd o b a
  | CSfar b a => sfar_cmd o b a
  | CNsRevoke a => ns_revoke o a
  | CNsGrant a => ns_grant o a
  | CDev a g => dev_authority_set a g
  | CDeclassify => declassify
  | CEndorse => endorse_op
  | CSend a ahd => marz_send_to o a ahd
  | CPing a => run_marz_ping o a
  | CEffect a ahd => marz_effect o a ahd
  | CDest a g => marz_dest_authority a g
  | CResetEgress => marz_egress_reset_all
  end.

(** Arguments are Rust strings. *)
Definition cmd_ok (c : Cmd) : Prop := match c with CEffect arg _ => valid_str arg | _ => True end.

(** The NICs write only what a virtio NIC may, and physical addresses have 56
    bits. *)
Record outside_ok (o : Outside) : Prop := {
  oo_nic : well_behaved (nic o); oo_pa : fits 56 (marz_dma_pa o); oo_wake e : wake o = Some e -> well_behaved e }.

(** The states a session passes through, one per command that returns. *)
Inductive session : Op -> list (Op * Cmd * Op) -> Op -> Prop :=
| session_nil k : session k [] k
| session_cons o c k k1 k2 l :
    outside_ok o -> cmd_ok c -> run_cmd o c k = Some (tt, k1) -> session k1 l k2 ->
    session k ((k, c, k1) :: l) k2.
