(* ===== verification/EgressSafe.v ===== *)
(** * Nothing leaves the machine without authority

    Every frame a session of console commands puts on the wire was sent by a
    command that named its destination while the operator held the capability
    for it, a live handle on the NIC, and a taint that may flow to it.  A secret
    read from the vault stays in: until it is declassified, no frame goes to a
    destination not cleared for it and no commit writes it down. *)

From Stdlib Require Import ZArith Lia String.
From stdpp Require Import base option strings numbers list.
From S2P Require Import Prelude Text EventLog Mcap Ocap Difc Intent Cairn Ledger LedgerInv Daemon Client MarzIo Marz MarzSafe MarzFrames MarzWire MarzResume Operator Egress.

(** ** A program logic for the commands *)

Definition hoare {A} (P : Op -> Prop) (m : OM A) (Q : A -> Op -> Prop) : Prop :=
  forall k a k', P k -> m k = Some (a, k') -> Q a k'.

Lemma h_ret {A} (a : A) (P : Op -> Prop) (Q : A -> Op -> Prop) : (forall k, P k -> Q a k) -> hoare P (mret a) Q.
Proof. intros H k b k' HP E. injection E as <- <-. by apply H. Qed.
Lemma h_bind {A B} (m : OM A) (f : A -> OM B) P R Q : hoare P m R -> (forall a, hoare (R a) (f a) Q) -> hoare P (m ≫= f) Q.
Proof.
  intros Hm Hf k b k' HP E. unfold mbind, om_bind in E. destruct (m k) as [[a k1]|] eqn:E1; [|done]. exact (Hf a k1 b k' (Hm k a k1 HP E1) E).
Qed.
Lemma h_modify f (P : Op -> Prop) (Q : unit -> Op -> Prop) : (forall k, P k -> Q tt (f k)) -> hoare P (modify f) Q.
Proof. intros H k b k' HP E. injection E as <- <-. by apply H. Qed.
Lemma h_get P : hoare P get (fun a k => P k /\ a = k).
Proof. intros k b k' HP E. by injection E as <- <-. Qed.
Lemma h_conseq {A} (m : OM A) (P P2 : Op -> Prop) (Q Q2 : A -> Op -> Prop) :
  hoare P2 m Q2 -> (forall k, P k -> P2 k) -> (forall a k, Q2 a k -> Q a k) -> hoare P m Q.
Proof. intros H HP HQ k a k' Hk E. by eapply HQ, H; [apply HP|]. Qed.

(** A predicate that no storage request can break, whatever daemon it wakes. *)
Record calm (P : Op -> Prop) : Prop := {
  calm_cleared : forall k, P k -> P (set_asleep None k);
  calm_resumed : forall e k k', well_behaved e -> P k -> resume e k = Some (tt, k') -> P k';
  calm_events : forall r k, P k -> P (set_events r k);
  calm_ledger : forall l k, P k -> P (set_ledger l k);
  calm_ns : forall a k, P k -> P (set_ns a k) }.

Section Calm.
Context (P : Op -> Prop) (HP : calm P) (o : Outside) (Hwake : forall e, wake o = Some e -> well_behaved e).

Lemma h_record a b c d : hoare P (record a b c d) (fun _ => P).
Proof. apply h_modify. intros k Hk. by apply HP. Qed.
Lemma h_storage req text caps : hoare P (storage o req text caps) (fun _ => P).
Proof.
  unfold storage. eapply (h_bind _ _ _ (fun _ => P)).
  { unfold ensure_virtio_block_service. destruct (wake o) as [e|] eqn:Ew; [|by apply h_ret].
    intros k [] k' Hk E. exact (calm_resumed _ HP e k k' (Hwake e eq_refl) Hk E). }
  intros ?. eapply (h_bind _ _ _ (fun _ => P)).
  { unfold clear_foreground. destruct (service o); try (by apply h_ret); apply h_modify; intros k Hk; by apply HP. }
  intros ? k st0 k' Hk E. unfold in_ledger in E. destruct (run_registered_virtio_client_ns _ _ _ _ _ _) as [[st l]|]; [|done].
  injection E as <- <-. by apply HP.
Qed.
Lemma h_ns_live ns : hoare P (ns_authority_live ns) (fun _ => P).
Proof.
  eapply h_bind; [apply (h_modify _ _ (fun _ => P)); intros k Hk; by apply HP|]. intros ?.
  eapply h_bind; [apply h_get|]. intros k. apply h_ret. by intros k2 [H _].
Qed.
Lemma h_ns_revoke_local ns : hoare P (ns_revoke_local ns) (fun _ => P).
Proof. eapply h_bind; [apply (h_modify _ _ (fun _ => P))|intros ?; apply h_modify]; intros k Hk; by apply HP. Qed.
Lemma h_ns_remint_local ns : hoare P (ns_remint_local ns) (fun _ => P).
Proof. eapply h_bind; [apply (h_modify _ _ (fun _ => P))|intros ?; apply h_modify]; intros k Hk; by apply HP. Qed.

Ltac calm_atom :=
  first [apply h_record | apply h_storage | apply h_ns_live | apply h_ns_revoke_local | apply h_ns_remint_local].
Ltac calm_go :=
  repeat lazymatch goal with
  | |- hoare _ (mret _) _ => apply h_ret; by intros
  | |- hoare _ (mbind _ _) _ => eapply h_bind; [calm_atom|intros ?]
  | |- hoare _ (if ?b then _ else _) _ => destruct b
  | |- hoare _ (match ?x with _ => _ end) _ => destruct x as [[? ?]|]
  | |- _ => calm_atom
  end.

Lemma h_commit arg : hoare P (cairn_cmd_commit o arg) (fun _ => P).
Proof.
  unfold cairn_cmd_commit. destruct (cairn_parse_ns arg) as [[ns text]|]; [|by apply h_ret]. destruct (bool_decide _); [by apply h_ret|].
  eapply h_bind; [apply h_ns_live|]. intros live. destruct (negb live); [apply h_record|].
  eapply h_bind.
  { eapply h_bind; [apply h_get|]. intros k. apply (h_ret _ _ (fun _ => P)). by intros k2 [H _]. }
  intros may. calm_go.
Qed.
Lemma h_rollback arg : hoare P (cairn_cmd_rollback o arg) (fun _ => P).
Proof. unfold cairn_cmd_rollback. calm_go. Qed.
Lemma h_sand b arg : hoare P (sand_cmd o b arg) (fun _ => P).
Proof. unfold sand_cmd. calm_go. Qed.
Lemma h_sfar b arg : hoare P (sfar_cmd o b arg) (fun _ => P).
Proof. unfold sfar_cmd. cbv zeta. destruct (parse_unsigned 16 (trim arg)); calm_go. Qed.
Lemma h_ns_revoke arg : hoare P (ns_revoke o arg) (fun _ => P).
Proof. unfold ns_revoke. calm_go. Qed.
Lemma h_ns_grant arg : hoare P (ns_grant o arg) (fun _ => P).
Proof. unfold ns_grant. calm_go. Qed.
Lemma h_simple b arg :
  (forall k ns, P k -> P (set_taint (observe (taint k) (ns_label ns)) k)) -> hoare P (cairn_cmd_simple o b arg) (fun _ => P).
Proof.
  intros Ht. unfold cairn_cmd_simple. calm_go. unfold difc_observe. cbv zeta. destruct (negb _); [apply h_modify; intros k Hk; by apply Ht|by apply h_ret].
Qed.
Lemma h_ingress src :
  (forall k, P k -> P (set_taint (observe_input (taint k) UNTRUSTED) k)) -> hoare P (difc_ingress src) (fun _ => P).
Proof. intros Ht. eapply h_bind; [apply (h_modify _ _ (fun _ => P)); exact Ht|intros ?; apply h_record]. Qed.
Lemma h_dev_set arg g : (forall a k, P k -> P (set_dev a k)) -> hoare P (dev_authority_set arg g) (fun _ => P).
Proof.
  intros Hd. unfold dev_authority_set. destruct (dev_name_id _); [|by apply h_ret].
  eapply h_bind; [apply (h_modify _ _ (fun _ => P)); intros k Hk; by apply Hd|]. intros ?.
  eapply h_bind; [apply (h_modify _ _ (fun _ => P)); intros k Hk; by apply Hd|]. intros ?. apply h_record.
Qed.
Lemma h_declassify : (forall t k, P k -> P (set_taint t k)) -> hoare P declassify (fun _ => P).
Proof.
  intros Ht. unfold declassify. eapply h_bind; [apply h_get|]. intros k0. cbv zeta.
  eapply h_bind; [apply (h_modify _ _ (fun _ => P)); intros k [Hk _]; by apply Ht|]. intros ?.
  eapply (h_bind _ _ _ (fun _ => P)); [|intros ?; apply h_record].
  destruct (negb _); [apply h_modify; intros k Hk; by apply Ht|by apply h_ret].
Qed.
Lemma h_endorse : (forall k, P k -> P (set_taint (endorse (taint k)) k)) -> hoare P endorse_op (fun _ => P).
Proof. intros Ht. eapply h_bind; [apply (h_modify _ _ (fun _ => P)); exact Ht|intros ?; apply h_record]. Qed.
Lemma h_dest arg g : (forall e k, P k -> P (set_egress e k)) -> hoare P (marz_dest_authority arg g) (fun _ => P).
Proof.
  intros He. unfold marz_dest_authority. destruct (marz_dest_id _); [|by apply h_ret].
  eapply h_bind; [apply (h_modify _ _ (fun _ => P)); intros k Hk; by apply He|intros ?; apply h_record].
Qed.
End Calm.

(** ** What a command may send *)

(** The destination, verb and argument of an effect. *)
Definition effect_parts (arg : str) : str * str * str :=
  let '(dname, rest) := split_arg arg in
  let '(verb, slug) := split_arg rest in
  (dname, if bool_decide (verb = []) then lit "git.commit" else verb, slug).
Definition effect_line (ahd : Z) (verb slug : str) : str :=
  FX_MAGIC ++ lit " " ++ u16_digits 6 ahd [] ++ lit " " ++ verb ++ lit " " ++ slug.

Definition names (c : Cmd) : option Z :=
  match c with
  | CSend arg _ | CPing arg => marz_dest_id (or_ops (trim arg))
  | CEffect arg _ => marz_dest_id (or_ops (effect_parts arg).1.1)
  | _ => None
  end.

(** A frame of command [c] for destination [dest]. *)
Definition frame_for (dest : MarzDest) (c : Cmd) (f : list Z) : Prop :=
  match c with
  | CSend _ _ => udp_to (d_ip dest) (d_port dest) SEND_PAYLOAD f
  | CPing _ => arp_for (d_ip dest) f \/ echo_to (d_ip dest) f
  | CEffect arg _ =>
    let '(_, verb, slug) := effect_parts arg in
    arp_for (d_ip dest) f \/ exists ahd, udp_to (d_ip dest) (d_port dest) (utf8_encode (effect_line ahd verb slug)) f
  | _ => False
  end.

Definition nic_live (k : Op) : bool := authority_ok (dev_auth (dev_authority_init k)) DEV_OBJ_NET.

(** [c], issued in state [k], may send [f]. *)
Definition egress_ok (c : Cmd) (k : Op) (f : list Z) : Prop :=
  exists d, names c = Some d /\ nic_live k = true /\ Z.testbit (egress k) (MARZ_DEST_BASE + d) = true /\
    may_flow_to (taint k) (d_label (dest_at d)) = true /\ frame_for (dest_at d) c f.
(** A sleeping daemon that can only send what [A] allows. *)
Record launched (A : list Z -> Prop) (z : Sleeper) : Prop := {
  la_env : well_behaved (z_env z); la_pa : fits 56 (z_pa z); la_len : 0 <= z_len z;
  la_sends f : allowed (z_op z) (z_dest z) (request (z_start z) (z_len z)) f -> A f }.
Definition sleeper_ok (A : list Z -> Prop) (k : Op) : Prop := forall z, asleep k = Some z -> launched A z.
(** From [k] to [k'] only frames [A] allows were sent, and none else is to come. *)
Definition sends (A : list Z -> Prop) (k k' : Op) : Prop :=
  (exists fs, wire k' = wire k ++ fs /\ Forall A fs) /\ sleeper_ok A k'.
(** [A] are the frames of earlier commands, [c] is the command issued in [k]. *)
Definition sent (A : list Z -> Prop) (c : Cmd) (k k' : Op) : Prop := sends (fun f => A f \/ egress_ok c k f) k k'.

Lemma sleeper_mono (A B : list Z -> Prop) k : (forall f, A f -> B f) -> sleeper_ok A k -> sleeper_ok B k.
Proof. intros H Hz z E. destruct (Hz z E) as [He Hp Hl Hs]. split; auto. Qed.

Lemma daemon_sends A k0 k env op pa dest len w n st k' :
  well_behaved env -> fits 56 pa -> 0 <= len -> (forall f, allowed op dest (request w len) f -> A f) ->
  (exists fs, wire k = wire k0 ++ fs /\ Forall A fs) -> run_daemon env op pa dest len w n k = Some (st, k') -> sends A k0 k'.
Proof.
  intros He Hp Hl HA (fs & Hw & Hfs) E. unfold run_daemon in E.
  destruct (main_events env op pa dest len (mkSt w 0 []) He Hp Hl (Forall_nil_2 _)) as (s & Hs & HT).
  apply offers_good in HT. cbn [win] in HT.
  assert (Hsent : forall z, (z = None \/ z = Some (mkSleeper env op pa dest len w s)) ->
    sends A k0 (set_asleep z (add_wire (drop n (reverse (offers pa s))) (set_window (win s) k)))).
  { intros z Hz. split.
    - exists (fs ++ drop n (reverse (offers pa s))). cbn [wire set_asleep add_wire set_window]. rewrite Hw, app_assoc. split; [done|].
      apply Forall_app. split; [done|]. apply Forall_drop, Forall_reverse. eapply Forall_impl; [exact HT|exact HA].
    - intros z' Ez. cbn [asleep set_asleep] in Ez. destruct Hz as [->| ->]; [done|]. injection Ez as <-. by split. }
  destruct (main _ _ _ _ _ _); cbn in Hs; try discriminate E; injection Hs as ->; injection E as _ <-; apply Hsent; auto.
Qed.

Lemma sends_calm A k : calm (sends A k).
Proof.
  split; try done.
  - intros k1 [H _]. split; [exact H|done].
  - intros e k1 k2 He [Hw Hz] E. unfold resume in E. cbv beta iota delta [mbind om_bind get mret om_ret] in E.
    destruct (asleep k1) as [z|] eqn:Ez; [|injection E as <-; by split].
    destruct (Hz z Ez) as [Le Lp Ll Ls].
    destruct (run_daemon _ _ _ _ _ _ _ k1) as [[st k3]|] eqn:E3; [|done]. injection E as <-.
    by eapply daemon_sends in E3; [|apply splice_ok|..].
Qed.
Lemma sent_calm A c k : calm (sent A c k).
Proof. apply sends_calm. Qed.
Lemma sent_nothing A c k k' : sleeper_ok A k -> wire k' = wire k -> asleep k' = asleep k -> sent A c k k'.
Proof.
  intros Hz Ew Ez. split; [exists []; by rewrite Ew, app_nil_r|]. intros z E. rewrite Ez in E.
  apply (sleeper_mono A (fun f => A f \/ egress_ok c k f) k); auto.
Qed.

(** ** Destinations *)

Lemma marz_dest_cases name d : marz_dest_id name = Some d -> d = 0 \/ d = 1.
Proof.
  unfold marz_dest_id, MARZ_DESTS. cbn [position]. destruct (str_eqb _ _); [naive_solver|]. destruct (str_eqb _ _); cbn; naive_solver.
Qed.
Lemma packed_dest d : d = 0 \/ d = 1 ->
  dest_ip (marz_dest_packed (dest_at d)) = d_ip (dest_at d) /\ dest_port (marz_dest_packed (dest_at d)) = d_port (dest_at d).
Proof. intros [-> | ->]; by vm_compute. Qed.
Lemma gate_cap k d : d = 0 \/ d = 1 -> (egress k & marz_dest_cap d =? 0) = negb (Z.testbit (egress k) (MARZ_DEST_BASE + d)).
Proof.
  intros Hd. assert (0 <= MARZ_DEST_BASE + d) by (unfold MARZ_DEST_BASE; lia).
  rewrite <- (land_bit_nonzero (egress k)), negb_involutive by done. unfold marz_dest_cap. by rewrite Z.shiftl_1_l.
Qed.

(** The state as the gate sees it. *)
Definition same_gate (k0 k : Op) : Prop :=
  taint k = taint k0 /\ egress k = egress k0 /\ nic_live k = nic_live k0 /\ wire k = wire k0 /\ asleep k = asleep k0.
Definition passes (k : Op) (d : Z) : Prop :=
  nic_live k = true /\ Z.testbit (egress k) (MARZ_DEST_BASE + d) = true /\ may_flow_to (taint k) (d_label (dest_at d)) = true.

Lemma authority_init_twice n r a : authority_init n r (authority_init n r a) = authority_init n r a.
Proof. unfold authority_init at 1. unfold authority_init. destruct (inited a) eqn:E; [by rewrite E|]. done. Qed.
Lemma nic_live_init k : nic_live (dev_authority_init k) = nic_live k.
Proof. unfold nic_live, dev_authority_init. cbn [dev_auth set_dev]. by rewrite authority_init_twice. Qed.

Lemma h_dev_live k0 : hoare (same_gate k0) (dev_authority_live DEV_OBJ_NET) (fun b k => b = nic_live k0 /\ same_gate k0 k).
Proof.
  intros k a k' (Ht & He & Hn & Hw & Hz) E. injection E as <- <-. split; [exact Hn|].
  split; [done|]. split; [done|]. split; [by rewrite nic_live_init|done].
Qed.
Lemma h_gate k0 d : d = 0 \/ d = 1 ->
  hoare (fun k => true = nic_live k0 /\ same_gate k0 k) (marz_gate d) (fun b k => same_gate k0 k /\ (b = true -> passes k0 d)).
Proof.
  intros Hd k a k' [Hl Hs] E. unfold marz_gate in E. injection E as <- <-. split; [done|]. rewrite gate_cap by done.
  destruct Hs as (Ht & He & _). rewrite He, Ht. destruct (Z.testbit _ _) eqn:Eb; [|done]. cbn. intros Hf. by split; [|split].
Qed.

Lemma h_run_marz A o k0 c d op len req : sleeper_ok A k0 ->
  outside_ok o -> d = 0 \/ d = 1 -> 0 <= len -> names c = Some d -> passes k0 d ->
  (forall f, allowed op (marz_dest_packed (dest_at d)) req f -> frame_for (dest_at d) c f) ->
  hoare (fun k => same_gate k0 k /\ request (marz_dma k) len = req) (run_marz o op (marz_dest_packed (dest_at d)) len) (fun _ => sent A c k0).
Proof.
  intros Hz [Hwb Hpa _] Hd Hlen Hn (Hl & He & Hf) Hfr k st k' [(_ & _ & _ & Hw & _) Hreq] E. unfold run_marz in E.
  cbv beta iota delta [mbind om_bind modify get] in E. destruct (space o); cbn [negb] in E.
  - refine (daemon_sends _ k0 _ _ _ _ _ _ _ _ _ _ Hwb Hpa Hlen _ _ E).
    + intros f Hal. right. cbn [marz_dma set_asleep] in Hal. rewrite Hreq in Hal. exists d. split; [done|]. split; [done|]. split; [done|]. split; [done|by apply Hfr].
    + exists []. cbn [wire set_asleep]. by rewrite Hw, app_nil_r.
  - injection E as <- <-. split; [exists []; cbn [wire set_asleep]; by rewrite Hw, app_nil_r|done].
Qed.

(** ** The staged request *)

Lemma fx_append_ok out s out' : fx_append out s = Some out' -> out' = out ++ utf8_encode s /\ zlen out' <= MARZ_REQ_MAX.
Proof.
  unfold fx_append. cbv zeta. destruct (Z.ltb_spec MARZ_REQ_MAX (zlen out + zlen (utf8_encode s))); [done|]. intros [= <-].
  split; [done|]. rewrite zlen_app. lia.
Qed.
Lemma utf8_encode_app a b : utf8_encode (a ++ b) = utf8_encode a ++ utf8_encode b.
Proof. apply flat_map_app. Qed.

Lemma u16_digits_valid fuel v acc : valid_str acc -> valid_str (u16_digits fuel v acc).
Proof.
  revert v acc. induction fuel as [|fuel IH]; intros v acc Ha; [done|]. cbn [u16_digits]. cbv zeta.
  assert (Hc : valid_str ((48 + v mod 10) :: acc)).
  { constructor; [|done]. pose proof (Z.mod_pos_bound v 10). unfold scalarb. rewrite !andb_true_iff, negb_true_iff, andb_false_iff.
    rewrite Z.leb_le, Z.ltb_lt, Z.leb_gt. lia. }
  destruct (_ =? _); [done|by apply IH].
Qed.
Lemma effect_line_valid ahd verb slug : valid_str verb -> valid_str slug -> valid_str (effect_line ahd verb slug).
Proof.
  intros Hv Hs. unfold effect_line, valid_str. rewrite !Forall_app.
  assert (Hlit : forall s, forallb scalarb s = true -> valid_str s).
  { intros s. induction s as [|x s IH]; cbn; [constructor|]. intros [? ?]%andb_true_iff. constructor; [done|by apply IH]. }
  split; [by apply Hlit|]. split; [by apply Hlit|]. split; [apply u16_digits_valid; constructor|]. split; [by apply Hlit|].
  split; [done|]. split; [by apply Hlit|done].
Qed.

Lemma trim_start_valid s : valid_str s -> valid_str (trim_start s).
Proof. induction 1 as [|c s Hc Hs IH]; cbn; [constructor|]. destruct (is_whitespace c); [done|by constructor]. Qed.
Lemma trim_valid s : valid_str s -> valid_str (trim s).
Proof. intros H. unfold trim. apply Forall_reverse, trim_start_valid, Forall_reverse, trim_start_valid, H. Qed.
Lemma split_arg_valid s : valid_str s -> valid_str (split_arg s).1 /\ valid_str (split_arg s).2.
Proof.
  intros H%trim_valid. unfold split_arg. destruct (split_once 32 (trim s)) as [[a b]|] eqn:E; cbn; [|split; [done|constructor]].
  apply split_once_spec in E as [E _]. rewrite E in H. unfold valid_str in H. rewrite Forall_app, Forall_cons in H. split; [apply H|apply H].
Qed.
Lemma effect_parts_valid arg dname verb slug : valid_str arg -> effect_parts arg = (dname, verb, slug) -> valid_str verb /\ valid_str slug.
Proof.
  intros H. unfold effect_parts. destruct (split_arg_valid arg H) as [_ Hr]. destruct (split_arg arg) as [dn rest]. cbn in Hr.
  destruct (split_arg_valid rest Hr) as [Hv Hs]. destruct (split_arg rest) as [v s]. cbn in Hv, Hs. intros [= _ <- <-].
  split; [|done]. destruct (bool_decide _); [|done]. repeat (constructor; [by vm_compute|]). constructor.
Qed.

(** The request is staged whole or not at all. *)
Lemma h_stage k0 ahd verb slug : valid_str verb -> valid_str slug ->
  hoare (same_gate k0) (marz_stage_fx ahd verb slug) (fun r k => same_gate k0 k /\
    match r with Some len => 0 <= len /\ request (marz_dma k) len = utf8_encode (effect_line ahd verb slug) | None => True end).
Proof.
  intros Hv Hs. pose proof (effect_line_valid ahd verb slug Hv Hs) as Hval. unfold marz_stage_fx. cbv zeta.
  match goal with |- context [match ?l ≫= utf8_decode with _ => _ end] => destruct l as [out|] eqn:El end.
  2: { cbn. apply h_ret. done. }
  repeat (apply bind_Some in El as (? & [-> _]%fx_append_ok & El)). apply fx_append_ok in El as [-> Hlen].
  cbn [mbind option_bind]. cbn [app] in *. rewrite <- !utf8_encode_app, <- !app_assoc in *. fold (effect_line ahd verb slug) in *.
  rewrite utf8_decode_encode by done. unfold marz_stage_request. cbv zeta.
  rewrite (proj2 (Z.ltb_ge _ _)) by exact Hlen. set (b := utf8_encode (effect_line ahd verb slug)) in *.
  eapply (h_bind _ _ _ (fun _ k => same_gate k0 k /\ request (marz_dma k) (zlen b) = b)).
  - apply h_modify. intros k (Ht & He & Hn & Hw & Hz). split; [done|]. cbn [marz_dma set_window]. unfold request.
    rewrite Z.min_l by exact Hlen. apply peek_poke_same, utf8_encode_bytes, Hval.
  - intros ?. apply h_ret. intros k [Hk Hr]. split; [done|]. split; [apply zlen_nonneg|done].
Qed.

(** ** The three commands *)

Ltac calm_sent := first [apply h_record, sent_calm | apply h_storage; [apply sent_calm|by apply oo_wake]].

Lemma h_sent_start {B} A c k0 (m : OM B) : sleeper_ok A k0 ->
  hoare (sent A c k0) m (fun _ => sent A c k0) -> hoare (same_gate k0) m (fun _ => sent A c k0).
Proof. intros Hz H. eapply h_conseq; [exact H| |done]. intros k (_ & _ & _ & Hw & Ha). by apply sent_nothing. Qed.

(** The checks before a launch, with what follows when they pass. *)
Lemma h_launch {B} A o k0 c d (denied : str -> OM B) (k : OM B) : sleeper_ok A k0 -> d = 0 \/ d = 1 ->
  (forall s, hoare (sent A c k0) (denied s) (fun _ => sent A c k0)) ->
  (passes k0 d -> hoare (same_gate k0) k (fun _ => sent A c k0)) ->
  forall absent, hoare (sent A c k0) absent (fun _ => sent A c k0) ->
  hoare (same_gate k0)
    (if negb (nic_found o) then absent else
     live ← dev_authority_live DEV_OBJ_NET;
     if negb live then denied (lit "device") else
     pass ← marz_gate d;
     if negb pass then denied (d_name (dest_at d)) else k) (fun _ => sent A c k0).
Proof.
  intros Hz Hd Hden Hk absent Habs. destruct (nic_found o); cbn [negb]; [|by apply h_sent_start].
  eapply h_bind; [apply h_dev_live|]. intros live. destruct live; cbn [negb].
  - eapply h_bind; [by apply h_gate|]. intros pass. destruct pass; cbn [negb].
    + intros k1 b k' [Hs Hp] E. exact (Hk (Hp eq_refl) k1 b k' Hs E).
    + eapply h_conseq; [apply h_sent_start, Hden; exact Hz| |done]. by intros k1 [Hs _].
  - eapply h_conseq; [apply h_sent_start, Hden; exact Hz| |done]. by intros k1 [_ Hs].
Qed.

Section Send.
Context (A : list Z -> Prop) (o : Outside) (Ho : outside_ok o) (k0 : Op) (Hz : sleeper_ok A k0).

Lemma send_sends arg ahd : hoare (same_gate k0) (marz_send_to o arg ahd) (fun _ => sent A (CSend arg ahd) k0).
Proof.
  unfold marz_send_to. destruct (marz_dest_id _) as [d|] eqn:Ed; [|by apply h_sent_start; [exact Hz|apply h_ret]].
  pose proof (marz_dest_cases _ _ Ed) as Hd. destruct (packed_dest d Hd) as [Eip Eport]. cbv zeta.
  apply (h_launch A o k0 _ d (fun s => record _ _ s _)); [exact Hz|done|intros s; calm_sent| |calm_sent]. intros Hp.
  eapply h_bind.
  { eapply h_conseq; [eapply (h_run_marz A o k0 (CSend arg ahd) d 0 0 (request (marz_dma k0) 0)); try done| |intros ? ?; exact id].
    - intros f Hf. unfold allowed in Hf. cbn in Hf. rewrite Eip, Eport in Hf. exact Hf.
    - intros k Hs. split; [exact Hs|done]. }
  intros st. eapply h_bind; [calm_sent|]. intros ?. destruct (negb _); [by apply h_ret|].
  eapply h_bind; [calm_sent|]. intros ?. by apply h_ret.
Qed.

Lemma ping_sends arg : hoare (same_gate k0) (run_marz_ping o arg) (fun _ => sent A (CPing arg) k0).
Proof.
  unfold run_marz_ping. destruct (marz_dest_id _) as [d|] eqn:Ed; [|by apply h_sent_start; [exact Hz|apply h_ret]].
  pose proof (marz_dest_cases _ _ Ed) as Hd. destruct (packed_dest d Hd) as [Eip Eport]. cbv zeta.
  apply (h_launch A o k0 _ d (fun s => record _ _ s _)); [exact Hz|done|intros s; calm_sent| |by apply h_ret]. intros Hp.
  eapply h_bind.
  { eapply h_conseq; [eapply (h_run_marz A o k0 (CPing arg) d 1 0 (request (marz_dma k0) 0)); try done| |intros ? ?; exact id].
    - intros f Hf. unfold allowed in Hf. cbn in Hf. rewrite Eip in Hf. exact Hf.
    - intros k Hs. split; [exact Hs|done]. }
  intros st. eapply h_bind; [calm_sent|]. intros ?. destruct (_ =? _); [|by apply h_ret].
  apply h_ingress; [apply sent_calm|done].
Qed.

Lemma outcome_calm c dest ahd st : hoare (sent A c k0) (effect_outcome o dest ahd st) (fun _ => sent A c k0).
Proof.
  unfold effect_outcome. cbv zeta. destruct (negb _); [calm_sent|]. eapply h_bind; [apply h_get|]. intros k.
  eapply h_conseq; [|intros k1 [H _]; exact H|intros ? ?; exact id].
  destruct (marz_read_reply _); [|calm_sent]. eapply h_bind; [apply h_ingress; [apply sent_calm|done]|]. intros ?.
  destruct (fx_parse _) as [[[|] token]|]; [|calm_sent..]. eapply h_bind; [calm_sent|]. intros ?. calm_sent.
Qed.

Lemma effect_sends arg ahd : valid_str arg -> hoare (same_gate k0) (marz_effect o arg ahd) (fun _ => sent A (CEffect arg ahd) k0).
Proof.
  intros Hval. unfold marz_effect. eapply (h_bind _ _ _ (fun _ => same_gate k0)).
  { destruct (negb _); [by apply h_ret|]. eapply h_bind; [apply h_get|]. intros k.
    eapply h_conseq; [|intros k1 [H _]; exact H|intros ? ?; exact id].
    destruct (open_intent _ _) as [[[id ceil] T]|]; [|by apply h_ret].
    eapply (h_bind _ _ _ (fun _ => same_gate k0)); [by apply h_modify|]. intros ?. by apply h_ret. }
  intros a. destruct (effect_parts arg) as [[dname verb] slug] eqn:Ep.
  destruct (effect_parts_valid _ _ _ _ Hval Ep) as [Hv Hs]. pose proof Ep as Ep2. unfold effect_parts in Ep2.
  destruct (split_arg arg) as [dn rest]. destruct (split_arg rest) as [vb sl]. 
  apply pair_eq in Ep2 as [[-> Evb]%pair_eq ->]. rewrite Evb.
  destruct (bool_decide (slug = [])); [by apply h_sent_start; [exact Hz|apply h_ret]|].
  destruct (marz_dest_id _) as [d|] eqn:Ed; [|by apply h_sent_start; [exact Hz|apply h_ret]].
  pose proof (marz_dest_cases _ _ Ed) as Hd. destruct (packed_dest d Hd) as [Eip Eport]. cbv zeta.
  apply (h_launch A o k0 _ d (fun s => record _ _ s _)); [exact Hz|done|intros s; calm_sent| |calm_sent]. intros Hp.
  eapply h_bind; [by apply h_stage|]. intros [len|].
  - eapply h_bind; [|intros st; apply outcome_calm].
    intros k st k' [Hg [Hlen Hreq]] E.
    refine (h_run_marz A o k0 (CEffect arg ahd) d 2 len _ Hz Ho Hd Hlen _ Hp _ k st k' (conj Hg Hreq) E).
    + cbn [names]. rewrite Ep. exact Ed.
    + intros f Hf. unfold allowed in Hf. cbn in Hf. rewrite Eip, Eport in Hf. cbn [frame_for]. rewrite Ep. destruct Hf as [Hf|Hf]; [by left|]. right. by exists a.
  - eapply h_conseq; [apply h_sent_start; [exact Hz|calm_sent]|intros k [H _]; exact H|intros ? ?; exact id].
Qed.
End Send.

(** ** Every command *)

Lemma same_gate_refl k : same_gate k k.
Proof. done. Qed.

Lemma command_sends A o c k k' : outside_ok o -> sleeper_ok A k -> cmd_ok c -> run_cmd o c k = Some (tt, k') -> sent A c k k'.
Proof.
  intros Ho Hz Hc E. pose proof (sent_nothing A c k k Hz eq_refl eq_refl) as Hk. pose proof (sent_calm A c k) as HC.
  pose proof (oo_wake _ Ho) as Hw. destruct c; cbn [run_cmd] in E.
  - exact (h_commit _ HC o Hw arg k tt k' Hk E).
  - refine (h_simple _ HC o Hw base arg _ k tt k' Hk E). done.
  - exact (h_rollback _ HC o Hw arg k tt k' Hk E).
  - exact (h_sand _ HC o Hw base arg k tt k' Hk E).
  - exact (h_sfar _ HC o Hw base arg k tt k' Hk E).
  - exact (h_ns_revoke _ HC o Hw arg k tt k' Hk E).
  - exact (h_ns_grant _ HC o Hw arg k tt k' Hk E).
  - refine (h_dev_set _ HC arg grant _ k tt k' Hk E). done.
  - refine (h_declassify _ HC _ k tt k' Hk E). done.
  - refine (h_endorse _ HC _ k tt k' Hk E). done.
  - exact (send_sends A o Ho k Hz arg ahd k tt k' (same_gate_refl k) E).
  - exact (ping_sends A o Ho k Hz arg k tt k' (same_gate_refl k) E).
  - exact (effect_sends A o Ho k Hz arg ahd Hc k tt k' (same_gate_refl k) E).
  - refine (h_dest _ HC arg grant _ k tt k' Hk E). done.
  - injection E as <-. exact Hk.
Qed.

(** The frames of each command of a session are [ok] for it or for an earlier
    one, in the state that one was issued in. *)
Definition session_sends (ok : Op -> Cmd -> list Z -> Prop) (l : list (Op * Cmd * Op)) : Prop :=
  forall l1 before c after l2, l = l1 ++ (before, c, after) :: l2 ->
  exists fs, wire after = wire before ++ fs /\
    Forall (fun f => exists b c' a, (b, c', a) ∈ l1 ++ [(before, c, after)] /\ ok b c' f) fs.

Lemma session_sends_from A k l k' : session k l k' -> sleeper_ok A k ->
  forall l1 before c after l2, l = l1 ++ (before, c, after) :: l2 ->
  exists fs, wire after = wire before ++ fs /\
    Forall (fun f => A f \/ exists b c' a, (b, c', a) ∈ l1 ++ [(before, c, after)] /\ egress_ok c' b f) fs.
Proof.
  intros Hs. revert A. induction Hs as [|o c k k1 k2 l Ho Hc E _ IH]; intros A Hz l1 b c' a l2 El.
  { by destruct l1. }
  pose proof (command_sends A o c k k1 Ho Hz Hc E) as [(fs & Hw & Hfs) Hz1]. destruct l1 as [|x l1].
  - injection El as <- <- <- _. exists fs. split; [done|]. eapply Forall_impl; [exact Hfs|]. intros f [Hf|Hf]; [by left|right].
    exists k, c, k1. split; [by apply elem_of_cons; left|done].
  - injection El as <- El. destruct (IH _ Hz1 l1 b c' a l2 El) as (fs2 & Hw2 & Hf2). exists fs2. split; [done|].
    eapply Forall_impl; [exact Hf2|]. intros f [[Hf|Hf]|(b2 & c2 & a2 & Hin & Hf)]; [by left|right|right].
    + exists k, c, k1. split; [by apply elem_of_cons; left|done].
    + exists b2, c2, a2. split; [by apply elem_of_cons; right|done].
Qed.

Lemma session_frames k l k' : session k l k' -> asleep k = None -> session_sends (fun b c f => egress_ok c b f) l.
Proof.
  intros Hs Hz l1 b c a l2 El. destruct (session_sends_from (fun _ => False) k l k' Hs) with (l1 := l1) (before := b) (c := c) (after := a) (l2 := l2) as (fs & Hw & Hf);
    [intros z E; congruence|done|]. exists fs. split; [done|]. eapply Forall_impl; [exact Hf|]. by intros f [[]|Hf2].
Qed.

(** C7: In every session of storage, authority and egress commands that starts with no daemon asleep,
    against any virtio-conforming NICs and any disk, each frame offered to the NIC comes from a daemon
    launched by that command or an earlier one of the session (a daemon left asleep may be resumed
    inside a later storage command). The launching command names the frame's destination and was issued
    when the operator held the capability for that destination, a live handle on the NIC and a taint
    that may flow to it; the frame is addressed to that destination and carries exactly that command's
    payload. (A right revoked between launch and resumption does not stop the frame: a finding.) *)
Theorem every_frame_was_authorized k l k' :
  asleep k = None -> session k l k' -> session_sends (fun before c f => egress_ok c before f) l.
Proof. intros Hz Hs. by eapply session_frames. Qed.

(** ** A secret that was read *)

Definition VAULT : Z := 3.
Definition tainted (k : Op) : Prop := Z.testbit (secrecy (taint k)) 0 = true.

Lemma tainted_no_flow k : tainted k -> may_flow_to (taint k) PUBLIC = false.
Proof.
  intros H. unfold may_flow_to, can_flow. apply Z.eqb_neq. intros E.
  assert (Z.testbit (secrecy (taint k) & unot 32 PUBLIC) 0 = false) as Hb by (rewrite E; done).
  rewrite Z.land_spec, H in Hb. by vm_compute in Hb.
Qed.

(** Predicates that no part of an egress command can break. *)
Record steady (P : Op -> Prop) : Prop := {
  steady_calm : calm P;
  steady_dev : forall a k, P k -> P (set_dev a k);
  steady_window : forall w k, P k -> P (set_window w k);
  steady_wire : forall fs k, P k -> P (add_wire fs k);
  steady_asleep : forall z k, P k -> P (set_asleep z k);
  steady_intents : forall T k, P k -> P (set_intents T k);
  steady_ingress : forall k, P k -> P (set_taint (observe_input (taint k) UNTRUSTED) k) }.

(** A daemon's run changes the window, the wire and the slot. *)
Lemma daemon_steady (P : Op -> Prop) env op pa dest len w n k st k' :
  (forall w k, P k -> P (set_window w k)) -> (forall fs k, P k -> P (add_wire fs k)) -> (forall z k, P k -> P (set_asleep z k)) ->
  P k -> run_daemon env op pa dest len w n k = Some (st, k') -> P k'.
Proof.
  intros Hw Hf Hz Hk E. unfold run_daemon in E. destruct (main _ _ _ _ _ _); try discriminate E; injection E as _ <-; auto.
Qed.
Lemma resume_steady (P : Op -> Prop) e k k' :
  (forall w k, P k -> P (set_window w k)) -> (forall fs k, P k -> P (add_wire fs k)) -> (forall z k, P k -> P (set_asleep z k)) ->
  P k -> resume e k = Some (tt, k') -> P k'.
Proof.
  intros Hw Hf Hz Hk E. unfold resume in E. cbv beta iota delta [mbind om_bind get mret om_ret] in E.
  destruct (asleep k) as [z|]; [|by injection E as <-]. destruct (run_daemon _ _ _ _ _ _ _ k) as [[st k3]|] eqn:E3; [|done]. injection E as <-.
  eapply daemon_steady; [exact Hw|exact Hf|exact Hz|exact Hk|exact E3].
Qed.

Section Steady.
Context (P : Op -> Prop) (HP : steady P) (o : Outside) (Hwake : forall e, wake o = Some e -> well_behaved e).

Lemma h_live_steady : hoare P (dev_authority_live DEV_OBJ_NET) (fun _ => P).
Proof.
  eapply h_bind; [apply (h_modify _ _ (fun _ => P)); intros k Hk; by apply HP|]. intros ?.
  eapply h_bind; [apply h_get|]. intros k. apply h_ret. by intros k2 [H _].
Qed.
Lemma h_gate_steady d : hoare P (marz_gate d) (fun _ => P).
Proof. eapply h_bind; [apply h_get|]. intros k. apply h_ret. by intros k2 [H _]. Qed.
Lemma h_run_steady op dest len : hoare P (run_marz o op dest len) (fun _ => P).
Proof.
  eapply h_bind; [apply (h_modify _ _ (fun _ => P)); intros k Hk; by apply HP|]. intros ?. destruct (negb _); [by apply h_ret|].
  eapply h_bind; [apply h_get|]. intros k k1 st k' [Hk _] E. eapply daemon_steady; [apply HP..|exact Hk|exact E].
Qed.
Lemma h_stage_steady ahd verb slug : hoare P (marz_stage_fx ahd verb slug) (fun _ => P).
Proof.
  unfold marz_stage_fx. cbv zeta. destruct (_ ≫= utf8_decode); [|by apply h_ret]. unfold marz_stage_request. cbv zeta.
  destruct (_ <? _); [by apply h_ret|]. eapply h_bind; [apply (h_modify _ _ (fun _ => P)); intros k Hk; by apply HP|].
  intros ?. by apply h_ret.
Qed.
Ltac steady_go :=
  repeat lazymatch goal with
  | |- hoare _ (mret _) _ => apply h_ret; by intros
  | |- hoare _ (mbind _ _) _ =>
    eapply h_bind; [first [apply h_record, HP | apply h_storage; [apply HP|exact Hwake] | apply h_live_steady | apply h_gate_steady | apply h_run_steady | apply h_stage_steady
      | apply h_ingress; [apply HP|apply HP]]|intros ?]
  | |- hoare _ (if ?b then _ else _) _ => destruct b
  | |- hoare _ (record _ _ _ _) _ => apply h_record, HP
  | |- hoare _ (difc_ingress _) _ => apply h_ingress; [apply HP|apply HP]
  end.
Lemma h_send_steady arg ahd : hoare P (marz_send_to o arg ahd) (fun _ => P).
Proof. unfold marz_send_to. destruct (marz_dest_id _); [|by apply h_ret]. cbv zeta. steady_go. Qed.
Lemma h_ping_steady arg : hoare P (run_marz_ping o arg) (fun _ => P).
Proof. unfold run_marz_ping. destruct (marz_dest_id _); [|by apply h_ret]. cbv zeta. steady_go. Qed.
Lemma h_outcome_steady dest ahd st : hoare P (effect_outcome o dest ahd st) (fun _ => P).
Proof.
  unfold effect_outcome. cbv zeta. destruct (negb _); [apply h_record, HP|]. eapply h_bind; [apply h_get|]. intros k.
  eapply h_conseq; [|intros k1 [H _]; exact H|intros ? ?; exact id].
  destruct (marz_read_reply _); [|apply h_record, HP]. eapply h_bind; [apply h_ingress; apply HP|]. intros ?.
  destruct (fx_parse _) as [[[|] token]|]; steady_go.
Qed.
Lemma h_effect_steady arg ahd : hoare P (marz_effect o arg ahd) (fun _ => P).
Proof.
  unfold marz_effect. eapply (h_bind _ _ _ (fun _ => P)).
  { destruct (negb _); [by apply h_ret|]. eapply h_bind; [apply h_get|]. intros k.
    eapply h_conseq; [|intros k1 [H _]; exact H|intros ? ?; exact id].
    destruct (open_intent _ _) as [[[id ceil] T]|]; [|by apply h_ret].
    eapply h_bind; [apply (h_modify _ _ (fun _ => P)); intros k1 Hk; by apply HP|]. intros ?. by apply h_ret. }
  intros a. destruct (split_arg arg) as [dn rest]. destruct (split_arg rest) as [vb sl]. cbv zeta.
  destruct (bool_decide _); [by apply h_ret|]. destruct (marz_dest_id _) as [d|]; [|by apply h_ret].
  steady_go. destruct a2 as [len|]; [|apply h_record, HP]. eapply h_bind; [apply h_run_steady|]. intros ?. apply h_outcome_steady.
Qed.
End Steady.

Lemma tainted_steady : steady tainted.
Proof. split; try done. split; try done. intros e k k' _ Hk E. by eapply (resume_steady tainted). Qed.

Lemma tainted_stays o c k k' : outside_ok o -> c <> CDeclassify -> tainted k -> run_cmd o c k = Some (tt, k') -> tainted k'.
Proof.
  intros Ho Hc Hk E. pose proof (steady_calm _ tainted_steady) as HC. pose proof (oo_wake _ Ho) as Hw. destruct c; cbn [run_cmd] in E.
  - exact (h_commit _ HC o Hw arg k tt k' Hk E).
  - refine (h_simple _ HC o Hw base arg _ k tt k' Hk E). intros k1 ns H. unfold tainted in *. cbn [secrecy taint set_taint observe]. by rewrite Z.lor_spec, H.
  - exact (h_rollback _ HC o Hw arg k tt k' Hk E).
  - exact (h_sand _ HC o Hw base arg k tt k' Hk E).
  - exact (h_sfar _ HC o Hw base arg k tt k' Hk E).
  - exact (h_ns_revoke _ HC o Hw arg k tt k' Hk E).
  - exact (h_ns_grant _ HC o Hw arg k tt k' Hk E).
  - refine (h_dev_set _ HC arg grant _ k tt k' Hk E). done.
  - done.
  - refine (h_endorse _ HC _ k tt k' Hk E). done.
  - exact (h_send_steady _ tainted_steady o Hw arg ahd k tt k' Hk E).
  - exact (h_ping_steady _ tainted_steady o arg k tt k' Hk E).
  - exact (h_effect_steady _ tainted_steady o Hw arg ahd k tt k' Hk E).
  - refine (h_dest _ HC arg grant _ k tt k' Hk E). done.
  - injection E as <-. exact Hk.
Qed.

(** A tainted operator's frames go to the cleared destination. *)
Lemma tainted_egress c k f : tainted k -> egress_ok c k f -> frame_for (dest_at 1) c f.
Proof.
  intros Hk (d & Hn & _ & _ & Hflow & Hfr). assert (Hd : d = 0 \/ d = 1).
  { destruct c; cbn [names] in Hn; try discriminate Hn; exact (marz_dest_cases _ _ Hn). }
  destruct Hd as [-> | ->]; [|exact Hfr]. change (d_label (dest_at 0)) with PUBLIC in Hflow. by rewrite tainted_no_flow in Hflow.
Qed.

Lemma tainted_session k l k' : session k l k' -> tainted k -> Forall (fun '(_, c, _) => c <> CDeclassify) l ->
  Forall (fun '(before, _, _) => tainted before) l.
Proof.
  induction 1 as [|o c k k1 k2 l Ho Hc E _ IH]; intros Hk Hd; [constructor|]. apply Forall_cons in Hd as [Hc2 Hd].
  constructor; [done|]. apply IH; [|done]. by eapply tainted_stays.
Qed.

Lemma public_label ns : ns <> VAULT -> 0 <= ns -> ns_label ns = PUBLIC.
Proof.
  intros Hn H0. unfold ns_label, NS_LABEL. destruct (decide (Z.to_nat ns < 8)%nat) as [Hl|Hl].
  - rewrite list_lookup_insert_ne by (unfold VAULT in Hn; lia). by rewrite lookup_replicate_2.
  - by rewrite lookup_ge_None_2 by (rewrite length_insert, length_replicate; lia).
Qed.
Lemma parse_ns_nonneg arg ns text : cairn_parse_ns arg = Some (ns, text) -> 0 <= ns.
Proof.
  unfold cairn_parse_ns. destruct (match split_once 32 arg with Some _ => _ | None => _ end) as [n r].
  intros (ns' & E & [= -> _])%fmap_Some. apply cairn_ns_id_name in E as [H _]. lia.
Qed.

Lemma om_bind_eq {A B} (m : OM A) (f : A -> OM B) k a k1 : m k = Some (a, k1) -> (m ≫= f) k = f a k1.
Proof. intros E. unfold mbind, om_bind. by rewrite E. Qed.
Lemma ns_live_run ns k : ns_authority_live ns k = Some (authority_ok (ns_auth (ns_authority_init k)) ns, ns_authority_init k).
Proof. done. Qed.
Lemma may_write_run ns k :
  difc_may_write ns k = Some (may_flow_to (taint k) (ns_label ns) && may_endorse_to (taint k) (ns_requires ns), k).
Proof. done. Qed.

(** A tainted operator's commit to another namespace than the vault is refused. *)
Lemma tainted_commit o arg ns text k k' : tainted k -> cairn_parse_ns arg = Some (ns, text) -> ns <> VAULT ->
  run_cmd o (CCommit arg) k = Some (tt, k') -> ledger k' = ledger k.
Proof.
  intros Hk Hp Hn E. cbn [run_cmd] in E. unfold cairn_cmd_commit in E. rewrite Hp in E. destruct (bool_decide _); [by injection E as <-|].
  rewrite (om_bind_eq _ _ _ _ _ (ns_live_run ns k)) in E. destruct (negb (authority_ok _ _)); [by injection E as <-|].
  rewrite (om_bind_eq _ _ _ _ _ (may_write_run ns _)) in E. change (taint (ns_authority_init k)) with (taint k) in E.
  rewrite (public_label ns Hn (parse_ns_nonneg _ _ _ Hp)), (tainted_no_flow k Hk) in E. by injection E as <-.
Qed.

(** A storage request that reached a client, or failed to launch one, leaves no
    sleeper in the foreground slot. *)
Lemma storage_clears o req text caps k st k' : storage o req text caps k = Some (st, k') -> st <> SYS_DENIED -> asleep k' = None.
Proof.
  unfold storage. intros E Hst. unfold mbind, om_bind in E. destruct (ensure_virtio_block_service o k) as [[? k1]|]; [|done].
  unfold clear_foreground, modify in E. destruct (service o) as [| | |up] eqn:Ef; unfold mret, om_ret, in_ledger in E.
  2-4: destruct (run_registered_virtio_client_ns _ _ _ _ _ _) as [[st1 l]|]; [|done]; by injection E as <- <-.
  exfalso. apply Hst. unfold run_registered_virtio_client_ns, run_virtio_client_ns_raw, run_client, prepare_virtio_input, stage_input in E.
  cbv beta iota delta [mbind LedM_bind mret LedM_ret] in E. by injection E as <- _.
Qed.

(** C9: Once the vault has been read with success, then in every session without a declassification all
    frames offered to the NIC, those of resumed daemons included, go to the destination cleared for
    vault secrets, and every cairn-commit command to another namespace leaves the ledger as it was. (The
    records marz-send and marz-effect write into lab by themselves are not covered: that they are
    written is a finding.) *)
Theorem a_read_secret_stays_in o arg rest k kr k1 l k2 :
  cairn_parse_ns arg = Some (VAULT, rest) -> authority_ok (ns_auth (ns_authority_init k)) VAULT = true ->
  storage o (cairn_req REQ_CAIRN_GET VAULT 0) [] (task_ns_cap VAULT) (ns_authority_init k) = Some (0, kr) ->
  run_cmd o (CSimple REQ_CAIRN_GET arg) k = Some (tt, k1) ->
  session k1 l k2 -> Forall (fun '(_, c, _) => c <> CDeclassify) l ->
  session_sends (fun _ c f => frame_for (dest_at 1) c f) l /\
  Forall (fun '(before, c, after) => forall a ns text,
    c = CCommit a -> cairn_parse_ns a = Some (ns, text) -> ns <> VAULT -> ledger after = ledger before) l.
Proof.
  intros Hp Hl Hst E Hs Hd. assert (Hk : tainted k1 /\ asleep k1 = None).
  { cbn [run_cmd] in E. unfold cairn_cmd_simple in E. rewrite Hp in E.
    rewrite (om_bind_eq _ _ _ _ _ (ns_live_run VAULT k)), Hl in E. cbn [negb] in E. rewrite (om_bind_eq _ _ _ _ _ Hst) in E.
    change ((REQ_CAIRN_GET =? REQ_CAIRN_GET) && (0 =? 0)) with true in E. cbv iota in E.
    unfold difc_observe, modify in E. change (negb (ns_label VAULT =? 0)) with true in E. cbv zeta iota in E. injection E as <-.
    split; [|by apply (storage_clears _ _ _ _ _ _ _ Hst)].
    unfold tainted. cbn [secrecy taint set_taint observe]. rewrite Z.lor_spec. apply orb_true_r. }
  destruct Hk as [Hk Hz]. pose proof (tainted_session _ _ _ Hs Hk Hd) as Ht. split.
  - intros l1 b c a l2 El. destruct (session_frames _ _ _ Hs Hz l1 b c a l2 El) as (fs & Hw & Hf). exists fs. split; [done|].
    eapply Forall_impl; [exact Hf|]. intros f (b2 & c2 & a2 & Hin & Hok). exists b2, c2, a2. split; [done|].
    eapply tainted_egress; [|exact Hok]. rewrite Forall_forall in Ht. apply (Ht (b2, c2, a2)). rewrite El.
    apply elem_of_app in Hin as [Hin|Hin]; apply elem_of_app; [by left|right]. apply list_elem_of_singleton in Hin as ->. by apply elem_of_cons; left.
  - clear -Hs Ht. induction Hs as [|o2 c ka kb kc l Ho Hc E _ IH]; [constructor|]. apply Forall_cons in Ht as [Hk Ht].
    constructor; [|by apply IH]. intros a ns text -> Hp Hn. by eapply tainted_commit.
Qed.
