(* ===== verification/EgressDemo.v ===== *)
(** * Egress at work

    A NIC with a gateway behind it and whole commands run against it: the
    sessions that show the egress theorems are not vacuous, and the commands
    whose record differs from what happened on the wire. *)

From Stdlib Require Import ZArith Lia String.
From stdpp Require Import base option strings numbers list.
From S2P Require Import Prelude Text EventLog Mcap Ocap Sched SchedSafe Difc Intent Cairn Ledger LedgerInv LedgerSafe LedgerSpec Daemon Client.
From S2P Require Import MarzIo Marz MarzSafe MarzFrames MarzWire MarzResume Operator Egress EgressSafe.

(** ** A gateway *)

(** The NIC takes what is in the transmit ring. *)
Definition take_all (w : Z -> Z) : Z -> Z := poke w (USED_OFF + 2) (peek w (AVAIL_OFF + 2) 2).
(** The NIC delivers a frame into the next receive buffer. *)
Definition deliver (w : Z -> Z) (f : list Z) : Z -> Z :=
  let r := field w (RX_RING_OFF + USED_OFF + 2) 2 in
  let id := r mod RX_NBUF in
  let w := poke w (RX_BUF0_OFF + id * RX_BUF_SZ + NET_HDR_LEN) (take 1500 f) in
  let w := poke w (RX_RING_OFF + USED_OFF + 4 + r mod VQ_SIZE * 8) (le_bytes 4 id ++ le_bytes 4 (NET_HDR_LEN + zlen f)) in
  poke w (RX_RING_OFF + USED_OFF + 2) (le_bytes 2 (r + 1)).

Definition GW_MAC : list Z := [2; 0; 0; 0; 0; 1].
Definition arp_reply (ip : list Z) : list Z :=
  SRC_MAC ++ GW_MAC ++ [8; 6] ++ [0; 1; 8; 0; 6; 4; 0; 2] ++ GW_MAC ++ ip ++ SRC_MAC ++ SRC_IP.
Definition udp_reply (ip msg : list Z) : list Z :=
  SRC_MAC ++ GW_MAC ++ [8; 0] ++ [0x45; 0] ++ be16 (28 + zlen msg) ++ [0; 0; 0; 0; 64; 17; 0; 0] ++ ip ++ SRC_IP ++
  [0; 0] ++ be16 SRC_PORT ++ be16 (8 + zlen msg) ++ [0; 0] ++ msg.

(** It answers the ARP request at step 1000 and the datagram at step 2000, when
    the daemon is waiting. *)
Definition gateway_nic (ip msg : list Z) : Env :=
  mkEnv (mmio silent_nic)
    (fun t w => if (t =? 1000)%nat then deliver (take_all w) (arp_reply ip)
                else if (t =? 2000)%nat then deliver (take_all w) (udp_reply ip msg) else w)
    (irq silent_nic).

(** Writes of a range the NIC may write. *)
Lemma poke_public w off bs : (forall i, off <= i < off + zlen bs -> private i = false) -> agree w (poke w off bs).
Proof. intros H i Hi. apply poke_other. intros Hr. by rewrite (H i Hr) in Hi. Qed.
Lemma take_all_ok w : agree w (take_all w).
Proof.
  apply poke_public. intros i Hi. unfold zlen in Hi. rewrite peek_length in Hi.
  assert (i = 4098 \/ i = 4099) as [-> | ->] by (unfold USED_OFF in Hi; lia); done.
Qed.
Lemma deliver_ok w f : agree w (deliver w f).
Proof.
  unfold deliver. cbv zeta. set (r := field _ _ _). pose proof (Z.mod_pos_bound r RX_NBUF ltac:(done)).
  pose proof (Z.mod_pos_bound r VQ_SIZE ltac:(done)).
  assert (Hpub : forall i, 0x3000 <= i < 0x3100 \/ 0x3400 <= i -> private i = false) by (intros i Hi; private_arith).
  etrans; [|apply poke_public]; [etrans; [|apply poke_public]; [apply poke_public|]|].
  - intros i Hi. apply Hpub. right. marz_consts. lia.
  - intros i Hi. apply Hpub. rewrite zlen_app, !zlen_le_word in Hi. left. marz_consts. lia.
  - intros i Hi. apply Hpub. rewrite zlen_le_word in Hi. left. marz_consts. lia.
Qed.
Lemma gateway_nic_ok ip msg : well_behaved (gateway_nic ip msg).
Proof.
  intros t w i Hi. cbn. destruct (t =? 1000)%nat; [|destruct (t =? 2000)%nat; [|done]];
    (etrans; [apply deliver_ok, Hi|apply take_all_ok, Hi]).
Qed.

(** ** Commands at a blank machine *)

Definition blank_led : Led := let z : Page := fun _ => 0 in mkLed (fun _ => z) z z 0 [].
Definition outside (n : Env) (sp : bool) : Outside := mkOut (fun _ _ _ _ => None) (Serves true) None true sp n 0x80000000.

(** The effects on record in the lab namespace: value and class. *)
Definition lab_log (k : Op) : list (list Z * Z) := (fun e => (e_value e, rev_class (e_head e))) <$> history (disk (ledger k)) LAB.
Definition results (k : Op) : list str := ev_result <$> print_events (events k).

Definition after (o : Outside) (c : Cmd) (k : Op) : Op := match run_cmd o c k with Some (_, k') => k' | None => k end.
Definition returns (o : Outside) (c : Cmd) (k : Op) : bool := match run_cmd o c k with Some _ => true | None => false end.
Lemma returns_after o c k : returns o c k = true -> run_cmd o c k = Some (tt, after o c k).
Proof. unfold returns, after. by destruct (run_cmd o c k) as [[[] k']|]. Qed.

Definition ops_gateway : Outside := outside (gateway_nic [10; 0; 2; 2] (lit "DEZHFX1 OK c0ffee done")) true.
Definition nightly : Cmd := CEffect (lit "ops git.commit nightly") 0.

(** An effect end to end: an ARP request and the request datagram on the wire,
    the reply read, and the compensation registered in the ledger. *)
Example an_effect_end_to_end :
  let k := after ops_gateway nightly (boot_op blank_led) in
  (zlen <$> wire k) = [42; 70] /\ results k = [lit "tainted"; lit "OK"] /\
  lab_log k = [(lit "effect -> ops 10.0.2.2:8888 [REAL external effect via gateway; compensatable, gateway outside the TCB]" ++
                [0x1f] ++ lit "marz-effect ops git.revert c0ffee", SAND_REV_COMPENSATABLE)].
Proof. vm_compute. done. Qed.

Lemma every_frame_was_authorized_witness :
  let k1 := after ops_gateway nightly (boot_op blank_led) in
  session (boot_op blank_led) [(boot_op blank_led, nightly, k1)] k1 /\
  session_sends (fun before c f => egress_ok c before f) [(boot_op blank_led, nightly, k1)].
Proof.
  intros k1. assert (Hs : session (boot_op blank_led) [(boot_op blank_led, nightly, k1)] k1).
  { apply (session_cons ops_gateway); [split; [apply gateway_nic_ok|by vm_compute|done]| | |constructor].
    - cbn [cmd_ok nightly]. repeat (apply Forall_cons; split; [reflexivity|]). apply Forall_nil_2.
    - apply returns_after. vm_compute. reflexivity. }
  split; [exact Hs|]. apply (every_frame_was_authorized (boot_op blank_led) [(boot_op blank_led, nightly, k1)] k1); [reflexivity|exact Hs].
Defined.

(** ** Reading the vault *)

Definition quiet_net : Outside := outside silent_nic true.
Definition with_secret : Op := after quiet_net (CCommit (lit "vault launch-code")) (boot_op blank_led).
Definition get_vault : Cmd := CSimple REQ_CAIRN_GET (lit "vault").
Definition knows : Op := after quiet_net get_vault with_secret.
Definition leak : Cmd := CSend (lit "ops") 0.
Definition write_down : Cmd := CCommit (lit "lab launch-code").

Definition got : Op :=
  match storage quiet_net (cairn_req REQ_CAIRN_GET VAULT 0) [] (task_ns_cap VAULT) (ns_authority_init with_secret) with
  | Some (_, k) => k | None => with_secret end.

Lemma a_read_secret_stays_in_witness :
  let k1 := after quiet_net leak knows in
  let k2 := after quiet_net write_down k1 in
  session_sends (fun _ c f => frame_for (dest_at 1) c f) [(knows, leak, k1); (k1, write_down, k2)] /\
  Forall (fun '(before, c, aft) => forall a ns text,
    c = CCommit a -> cairn_parse_ns a = Some (ns, text) -> ns <> VAULT -> ledger aft = ledger before)
    [(knows, leak, k1); (k1, write_down, k2)].
Proof.
  intros k1 k2.
  apply (a_read_secret_stays_in quiet_net (lit "vault") [] with_secret got knows [(knows, leak, k1); (k1, write_down, k2)] k2).
  - reflexivity.
  - vm_compute. reflexivity.
  - unfold got. destruct (storage _ _ _ _ _) as [[st k]|] eqn:E; [|vm_compute in E; discriminate E].
    assert (Hst : st = 0); [|by rewrite Hst]. apply (f_equal (fmap fst)) in E. cbn [fmap option_fmap option_map fst] in E.
    vm_compute in E. by injection E as <-.
  - apply returns_after. vm_compute. reflexivity.
  - apply (session_cons quiet_net); [by split|done|apply returns_after; vm_compute; reflexivity|].
    apply (session_cons quiet_net); [by split|done|apply returns_after; vm_compute; reflexivity|]. constructor.
  - repeat constructor; discriminate.
Defined.

(** ** Records that differ from the wire *)

(** A foreground slot whose launch failed reads as a clean exit. *)
Lemma failed_launch_exit_code p s : foreground_exit_code (launch_foreground [(p, None)] s).1 = 0.
Proof.
  unfold launch_foreground, foreground_exit_code, spawn_place, spawn_reclaim, upd_task, task. cbn -[alter].
  rewrite !list_lookup_alter, list_lookup_imap. destruct (tasks s !! _) as [t|]; [|done]. cbn.
  unfold reclaim_row. repeat (destruct (_ =? _); cbn); done.
Qed.

(** When no address space can be built for the daemon, nothing leaves the machine, yet the send is
    reported OK and the ledger gets an irreversible effect for it. *)
Theorem a_send_that_never_ran_is_on_record :
  let k := after (outside silent_nic false) leak (boot_op blank_led) in
  wire k = [] /\ results k = [lit "OK"] /\
  lab_log k = [(lit "egress -> ops 10.0.2.2:8888 [REAL external send, on the wire]", SAND_REV_IRREVERSIBLE)].
Proof. vm_compute. done. Qed.

(** The same when the NIC stays silent and the kernel gives up on the daemon. *)
Definition dead_nic : Env := mkEnv (mmio silent_nic) (fun _ w => w) (fun _ prev => if prev =? USIZE_MAX then Some 0 else None).
Theorem a_send_to_a_dead_nic_is_on_record :
  results (after (outside dead_nic true) leak (boot_op blank_led)) = [lit "OK"].
Proof. vm_compute. reflexivity. Qed.

(** The daemon of a ping falls asleep on a silent NIC; its destination is revoked;
    then a storage command starts the block service, and the daemon, awake again,
    finds a gateway. *)
Definition ping_ops : Cmd := CPing (lit "ops").
Definition slept : Op := after (outside dead_nic true) ping_ops (boot_op blank_led).
Definition revoked_ops : Op := after quiet_net (CDest (lit "ops") false) slept.
Definition waking : Outside :=
  mkOut (fun _ _ _ _ => None) (Serves true) (Some (gateway_nic [10; 0; 2; 2] [])) true true silent_nic 0x80000000.

(** The ping is reported OK although its daemon only fell asleep, and the echo request leaves the machine
    inside a later storage command, after the operator's capability for the destination was revoked. *)
Theorem a_revoked_daemon_still_sends :
  let k := after waking (CSimple REQ_CAIRN_GET (lit "note")) revoked_ops in
  results slept = [lit "OK"; lit "tainted"] /\ (zlen <$> wire slept) = [42] /\
  (egress revoked_ops & marz_dest_cap 0 =? 0) = true /\ wire revoked_ops = wire slept /\ (zlen <$> wire k) = [42; 51].
Proof. vm_compute. done. Qed.

(** The operator has read the vault; the answer of the destination cleared for
    secrets is then written into the public lab namespace, past the gate that
    refuses the operator's own commits there. *)
Definition sync_gateway : Outside := outside (gateway_nic [10; 0; 2; 3] (lit "DEZHFX1 OK launch-code")) true.
Definition sync : Cmd := CEffect (lit "vault-sync git.commit nightly") 0.
Theorem an_answer_is_written_down :
  let k := after sync_gateway sync knows in
  Z.testbit (secrecy (taint knows)) 0 = true /\ ns_label LAB = PUBLIC /\ lab_log knows = [] /\
  (fst <$> lab_log k) = [lit "effect -> vault-sync 10.0.2.3:9999 [REAL external effect via gateway; compensatable, gateway outside the TCB]" ++
    [0x1f] ++ lit "marz-effect vault-sync git.revert launch-code"].
Proof. vm_compute. done. Qed.

(** A token the reply has room for is cut in the registered compensation. *)
Theorem a_long_token_is_cut :
  let token := replicate 100 97 in
  fx_parse (lit "DEZHFX1 OK " ++ token) = Some (true, token) /\ zlen (lit "DEZHFX1 OK " ++ token) < MARZ_REQ_MAX /\
  exists cut, (cut < 100)%nat /\ forall d, d = dest_at 0 ->
    fx_compose_record (d_record_effect d) (d_name d) token =
    utf8_encode (d_record_effect d) ++ [0x1f] ++ lit "marz-effect ops git.revert " ++ replicate cut 97.
Proof.
  split; [by vm_compute|]. split; [by vm_compute|]. exists 94%nat. split; [lia|]. intros d ->. by vm_compute.
Qed.

(** Sixteen effect commands without an argument use up every intent: each opens
    one before it looks at its argument, and none is ever closed. *)
Fixpoint repeat_cmd (n : nat) (c : Cmd) (k : Op) : Op :=
  match n with O => k | S n => repeat_cmd n c (after quiet_net c k) end.
Theorem bare_effects_use_up_the_intents :
  let k := repeat_cmd MAX_AHD (CEffect [] 0) (boot_op blank_led) in
  open_intent (lit "writer") (intents k) = None /\ wire k = [] /\ results k = [].
Proof. vm_compute. done. Qed.
