(* ===== verification/Identity.v ===== *)
(** * Identity, delegation and provenance (spikes/dezh-identity/src/lib.rs)

    Principals, authority sets, scopes, grants with their delegation chain, and
    invocation records.  BLAKE3 is a third-party crate and a parameter; the clock
    is an argument.  The theorems say what a delegation chain proves about the
    grant that carries it, that scopes are ordered as paths are, and which fields
    an identifier really separates. *)

From Stdlib Require Import ZArith Lia String.
From stdpp Require Import base option strings numbers list.
From S2P Require Import Prelude Text.

Inductive PrincipalKind := Human | Service | Agent.
#[export] Instance PrincipalKind_eq_dec : EqDecision PrincipalKind.
Proof. solve_decision. Defined.

Definition kind_tag (k : PrincipalKind) : str :=
  match k with Human => lit "human" | Service => lit "service" | Agent => lit "agent" end.

Record Principal := mkPrincipal { pr_id : list Z; pr_kind : PrincipalKind; pr_name : str }.
#[export] Instance Principal_eq_dec : EqDecision Principal.
Proof. solve_decision. Defined.

Inductive IdentityError :=
| InvalidPrincipal | InvalidScope | InvalidReason | InvalidArtifact | EmptyAuthority | DelegationNotPermitted | AuthorityWidening
| ScopeWidening | AuthorityNotHeld | NoOutputs.
#[export] Instance IdentityError_eq_dec : EqDecision IdentityError.
Proof. solve_decision. Defined.

(** ** Authority: a [u32] of named bits *)

Definition READ_OBJECT : Z := 1.
Definition READ_REF : Z := 2.
Definition UPDATE_REF : Z := 4.
Definition ROLLBACK_REF : Z := 8.
Definition DELEGATE : Z := 16.
Definition NONE : Z := 0.
Definition ALL_BITS : Z := READ_OBJECT .| READ_REF .| UPDATE_REF .| ROLLBACK_REF .| DELEGATE.

Definition from_bits_truncate (raw : Z) : Z := raw & ALL_BITS.
Definition auth_contains (a other : Z) : bool := a & other =? other.
Definition auth_union (a other : Z) : Z := a .| other.
Definition auth_intersect (a other : Z) : Z := a & other.
Definition auth_is_empty (a : Z) : bool := a =? 0.

(** ** Scopes: relative paths *)

Definition scope_new (value : str) : result IdentityError str :=
  if bool_decide (value = []) || starts_with 47 value || ends_with 47 value then Err InvalidScope else Ok value.
Definition scope_contains (scope child : str) : bool :=
  str_eqb child scope || match strip_prefix scope child with Some rest => starts_with 47 rest | None => false end.

(** ** Grants *)

Record DelegationLink := mkLink {
  l_from : list Z; l_to : list Z; l_scope : str; l_authority : Z; l_reason : str; l_time : Z }.
Record AuthorityGrant := mkGrant { g_holder : Principal; g_scope : str; g_authority : Z; g_chain : list DelegationLink }.
#[export] Instance DelegationLink_eq_dec : EqDecision DelegationLink.
Proof. solve_decision. Defined.
#[export] Instance AuthorityGrant_eq_dec : EqDecision AuthorityGrant.
Proof. solve_decision. Defined.

Definition grant_root (holder : Principal) (scope : str) (authority : Z) : result IdentityError AuthorityGrant :=
  if auth_is_empty authority then Err EmptyAuthority else Ok (mkGrant holder scope authority []).

Definition delegate (g : AuthorityGrant) (child : Principal) (requested_scope : str) (requested_authority : Z) (reason : str) (now : Z)
  : result IdentityError AuthorityGrant :=
  if bool_decide (reason = []) then Err InvalidReason else
  if auth_is_empty requested_authority then Err EmptyAuthority else
  if negb (auth_contains (g_authority g) DELEGATE) then Err DelegationNotPermitted else
  if negb (auth_contains (g_authority g) requested_authority) then Err AuthorityWidening else
  if negb (scope_contains (g_scope g) requested_scope) then Err ScopeWidening else
  let effective := auth_intersect (g_authority g) requested_authority in
  let link := mkLink (pr_id (g_holder g)) (pr_id child) requested_scope effective reason now in
  Ok (mkGrant child requested_scope effective (g_chain g ++ [link])).

(** ** Invocations *)

Inductive ArtifactKind := AObject | ACommit | ARef | AMessage.
Definition artifact_tag (k : ArtifactKind) : str :=
  match k with AObject => lit "object" | ACommit => lit "commit" | ARef => lit "ref" | AMessage => lit "message" end.
Record Artifact := mkArtifact { ar_kind : ArtifactKind; ar_id : str }.
Definition artifact_new (kind : ArtifactKind) (id : str) : result IdentityError Artifact :=
  if bool_decide (id = []) then Err InvalidArtifact else Ok (mkArtifact kind id).

Record Invocation := mkInvocation {
  in_id : list Z; in_actor : list Z; in_scope : str; in_authority : Z; in_action : str; in_reason : str;
  in_outputs : list Artifact; in_chain : list DelegationLink; in_time : Z }.

Section Hash.
Context (blake3 : list Z -> list Z).

Definition principal_preimage (kind : PrincipalKind) (name : str) : list Z := utf8_encode (kind_tag kind) ++ utf8_encode name.
Definition principal_new (kind : PrincipalKind) (name : str) : result IdentityError Principal :=
  if bool_decide (name = []) then Err InvalidPrincipal
  else Ok (mkPrincipal (blake3 (principal_preimage kind name)) kind name).

(** What [invocation_id] feeds the hasher, in order. *)
Definition invocation_preimage (actor : list Z) (scope : str) (required_authority : Z) (action reason : str) (outputs : list Artifact)
    (chain : list DelegationLink) (now : Z) : list Z :=
  actor ++ utf8_encode scope ++ le_bytes 4 required_authority ++ utf8_encode action ++ utf8_encode reason
  ++ flat_map (fun o => utf8_encode (artifact_tag (ar_kind o)) ++ utf8_encode (ar_id o)) outputs
  ++ flat_map (fun l => l_from l ++ l_to l ++ utf8_encode (l_scope l) ++ le_bytes 4 (l_authority l) ++ utf8_encode (l_reason l)
                        ++ le_bytes 16 (l_time l)) chain
  ++ le_bytes 16 now.
Definition invocation_id (actor : list Z) (scope : str) (required_authority : Z) (action reason : str) (outputs : list Artifact)
    (chain : list DelegationLink) (now : Z) : list Z :=
  blake3 (invocation_preimage actor scope required_authority action reason outputs chain now).

Definition invocation_record (g : AuthorityGrant) (required_authority : Z) (action reason : str) (outputs : list Artifact) (now : Z)
  : result IdentityError Invocation :=
  if bool_decide (action = []) || bool_decide (reason = []) then Err InvalidReason else
  if bool_decide (outputs = []) then Err NoOutputs else
  if negb (auth_contains (g_authority g) required_authority) then Err AuthorityNotHeld else
  let id := invocation_id (pr_id (g_holder g)) (g_scope g) required_authority action reason outputs (g_chain g) now in
  Ok (mkInvocation id (pr_id (g_holder g)) (g_scope g) required_authority action reason outputs (g_chain g) now).
End Hash.

(** [hex]: the text of an identifier. *)
Definition HEX : list Z := lit "0123456789abcdef".
Definition hex_digit (n : Z) : Z := nth (Z.to_nat n) HEX 0.
Definition hex (bytes : list Z) : str := flat_map (fun b => [hex_digit (Z.shiftr b 4); hex_digit (b & 0x0f)]) bytes.

(** ** Scopes are paths *)

Lemma split_cons_ne c s : split c s <> [].
Proof. destruct s as [|d s]; [discriminate|]. cbn. destruct (d =? c); [discriminate|]. destruct (split c s); discriminate. Qed.

Lemma split_app_sep c p r : split c (p ++ c :: r) = split c p ++ split c r.
Proof.
  induction p as [|d p IH]; cbn; [by rewrite Z.eqb_refl|]. destruct (d =? c); [by rewrite IH|]. rewrite IH.
  destruct (split c p) eqn:E; [by destruct (split_cons_ne c p)|]. reflexivity.
Qed.

Lemma join_split c s : join c (split c s) = s.
Proof.
  induction s as [|d s IH]; [done|]. cbn. destruct (Z.eqb_spec d c) as [->|Hd].
  - destruct (split c s) eqn:E; [by destruct (split_cons_ne c s)|]. cbn [join app] in *. by rewrite IH.
  - destruct (split c s) as [|h [|t ts]] eqn:E; [by destruct (split_cons_ne c s)| |]; cbn [join app] in *; by rewrite IH.
Qed.

Lemma join_app c a b : a <> [] -> b <> [] -> join c (a ++ b) = join c a ++ c :: join c b.
Proof.
  induction a as [|x a IH]; [done|]. intros _ Hb. destruct a as [|y a].
  - cbn [app]. destruct b; [done|]. reflexivity.
  - change (join c ((x :: y :: a) ++ b)) with (x ++ c :: join c ((y :: a) ++ b)). rewrite IH by done.
    change (join c (x :: y :: a)) with (x ++ c :: join c (y :: a)). by rewrite <- app_assoc.
Qed.

(** A scope contains another exactly when its path components are a prefix. *)
Lemma scope_contains_spec p c : scope_contains p c = true <-> split 47 p `prefix_of` split 47 c.
Proof.
  unfold scope_contains. rewrite orb_true_iff, str_eqb_eq. split.
  - intros [->|H]; [done|]. destruct (strip_prefix p c) as [[|d r]|] eqn:E; try discriminate. cbn in H. apply Z.eqb_eq in H as ->.
    apply strip_prefix_spec in E as ->. rewrite split_app_sep. by eexists.
  - intros [k Hk]. destruct k as [|x k].
    + left. rewrite <- (join_split 47 c), Hk, app_nil_r. apply join_split.
    + right. assert (strip_prefix p c = Some (47 :: join 47 (x :: k))) as ->; [|done].
      apply strip_prefix_spec. rewrite <- (join_split 47 c), Hk, join_app, join_split; [done|apply split_cons_ne|done].
Qed.

Lemma scope_contains_refl p : scope_contains p p = true.
Proof. by apply scope_contains_spec. Qed.
Lemma scope_contains_trans a b c : scope_contains a b = true -> scope_contains b c = true -> scope_contains a c = true.
Proof. rewrite !scope_contains_spec. intros H1 H2. by etrans. Qed.
#[export] Hint Resolve scope_contains_refl scope_contains_trans : dezh.

Lemma scope_contains_antisym a b : scope_contains a b = true -> scope_contains b a = true -> a = b.
Proof.
  rewrite !scope_contains_spec. intros [k1 E1] [k2 E2]. rewrite <- (join_split 47 a), <- (join_split 47 b). f_equal.
  rewrite E1 in E2. rewrite <- app_assoc in E2. rewrite <- (app_nil_r (split 47 a)) in E2 at 1. apply app_inv_head in E2.
  symmetry in E2. apply app_nil in E2 as [-> ->]. rewrite E1. by rewrite app_nil_r.
Qed.

(** ** Authority sets *)

Lemma auth_contains_subset a b : auth_contains a b = true <-> subset_bits b a.
Proof. unfold auth_contains. rewrite Z.eqb_eq, subset_bits_land_eq, Z.land_comm. done. Qed.

(** What one grant may hand on: the order every delegation descends. *)
Record within (scope : str) (authority : Z) (s : str) (a : Z) : Prop := {
  wi_scope : scope_contains scope s = true;
  wi_authority : subset_bits a authority }.

Lemma within_refl s a : within s a s a.
Proof. split; [apply scope_contains_refl|done]. Qed.
Lemma within_trans s1 a1 s2 a2 s3 a3 : within s1 a1 s2 a2 -> within s2 a2 s3 a3 -> within s1 a1 s3 a3.
Proof. intros [S1 A1] [S2 A2]. split; [by eapply scope_contains_trans|by etrans]. Qed.

(** ** Delegation chains *)

(** [chain_ok holder scope authority links]: each link is handed on by the
    holder before it, who holds DELEGATE, and lies within what that holder has. *)
Fixpoint chain_ok (holder : list Z) (scope : str) (authority : Z) (links : list DelegationLink) : Prop :=
  match links with
  | [] => True
  | l :: links =>
    l_from l = holder /\ auth_contains authority DELEGATE = true /\ within scope authority (l_scope l) (l_authority l)
    /\ l_authority l <> 0 /\ l_reason l <> [] /\ chain_ok (l_to l) (l_scope l) (l_authority l) links
  end.

(** Who holds what at the end of a chain. *)
Fixpoint chain_end (holder : list Z) (scope : str) (authority : Z) (links : list DelegationLink) : list Z * str * Z :=
  match links with
  | [] => (holder, scope, authority)
  | l :: links => chain_end (l_to l) (l_scope l) (l_authority l) links
  end.

Lemma chain_ok_snoc links : forall h s a l, chain_ok h s a links ->
  (let '(h1, s1, a1) := chain_end h s a links in
   l_from l = h1 /\ auth_contains a1 DELEGATE = true /\ within s1 a1 (l_scope l) (l_authority l) /\ l_authority l <> 0 /\ l_reason l <> []) ->
  chain_ok h s a (links ++ [l]).
Proof.
  induction links as [|l0 links IH]; intros h s a l H Hl; cbn in *; [by destruct Hl as (? & ? & ? & ? & ?)|].
  destruct H as (? & ? & ? & ? & ? & H). repeat split; try done; try apply H2. by apply IH.
Qed.
Lemma chain_end_snoc links : forall h s a l, chain_end h s a (links ++ [l]) = (l_to l, l_scope l, l_authority l).
Proof. induction links as [|l0 links IH]; intros h s a l; cbn; [done|apply IH]. Qed.

Lemma chain_narrows links : forall h s a, chain_ok h s a links ->
  let '(_, s1, a1) := chain_end h s a links in within s a s1 a1.
Proof.
  induction links as [|l links IH]; intros h s a H; cbn in *; [apply within_refl|]. destruct H as (_ & _ & Hw & _ & _ & H). specialize (IH _ _ _ H).
  destruct (chain_end (l_to l) (l_scope l) (l_authority l) links) as [[? s1] a1]. by eapply within_trans.
Qed.

Lemma delegate_ok g child scope authority reason now g' : delegate g child scope authority reason now = Ok g' ->
  g_holder g' = child /\ g_scope g' = scope /\ g_authority g' = authority /\ within (g_scope g) (g_authority g) scope authority
  /\ auth_contains (g_authority g) DELEGATE = true /\ authority <> 0 /\ reason <> []
  /\ g_chain g' = g_chain g ++ [mkLink (pr_id (g_holder g)) (pr_id child) scope authority reason now].
Proof.
  unfold delegate. case_bool_decide as Hr; [done|]. destruct (auth_is_empty authority) eqn:E1; [done|].
  destruct (auth_contains (g_authority g) DELEGATE) eqn:E2; [|done]. destruct (auth_contains (g_authority g) authority) eqn:E3; [|done].
  destruct (scope_contains (g_scope g) scope) eqn:E4; [|done]. cbn [negb]. intros [= <-]. cbn.
  assert (Hs := proj1 (auth_contains_subset _ _) E3).
  assert (auth_intersect (g_authority g) authority = authority) as ->.
  { unfold auth_intersect. rewrite Z.land_comm. by apply subset_bits_land_eq. }
  unfold auth_is_empty in E1. apply Z.eqb_neq in E1. repeat split; done.
Qed.

(** Everything that can be made of a grant by delegation. *)
Inductive descends (r : AuthorityGrant) : AuthorityGrant -> Prop :=
| descends_self : descends r r
| descends_by g child scope authority reason now g' :
    descends r g -> delegate g child scope authority reason now = Ok g' -> descends r g'.
#[export] Hint Constructors descends : dezh.

Lemma descends_trans r g h : descends r g -> descends g h -> descends r h.
Proof. intros Hr Hg. induction Hg; [done|]. by eapply descends_by. Qed.

Lemma descends_chain r g : descends r g -> exists links, g_chain g = g_chain r ++ links
  /\ chain_ok (pr_id (g_holder r)) (g_scope r) (g_authority r) links
  /\ chain_end (pr_id (g_holder r)) (g_scope r) (g_authority r) links = (pr_id (g_holder g), g_scope g, g_authority g).
Proof.
  induction 1 as [|g child scope authority reason now g' _ (links & Hc & Hok & He) Hd].
  - exists []. by rewrite app_nil_r.
  - apply delegate_ok in Hd as (Hh & Hs & Ha & Hw & HD & Hne & Hr & Hch). rewrite Hch, Hc, <- app_assoc. eexists. split; [done|]. split.
    + apply chain_ok_snoc; [done|]. rewrite He. by cbn.
    + rewrite chain_end_snoc. cbn. by rewrite Hh, Hs, Ha.
Qed.

Lemma descends_within r g : descends r g -> within (g_scope r) (g_authority r) (g_scope g) (g_authority g).
Proof.
  intros H. apply descends_chain in H as (links & _ & Hok & He). pose proof (chain_narrows _ _ _ _ Hok) as Hw. by rewrite He in Hw.
Qed.

(** Only a grant that holds DELEGATE has descendants of its own. *)
Lemma descends_needs_delegate r g : descends r g -> g = r \/ auth_contains (g_authority r) DELEGATE = true.
Proof.
  induction 1 as [|g child scope authority reason now g' _ [->|IH] Hd]; [by left| |by right]. right.
  by apply delegate_ok in Hd as (_ & _ & _ & _ & HD & _).
Qed.

Section Records.
Context (blake3 : list Z -> list Z).

Lemma invocation_record_ok g required action reason outputs now i : invocation_record blake3 g required action reason outputs now = Ok i ->
  auth_contains (g_authority g) required = true /\ in_actor i = pr_id (g_holder g) /\ in_scope i = g_scope g /\ in_authority i = required
  /\ in_chain i = g_chain g /\ in_action i = action /\ in_reason i = reason /\ in_outputs i = outputs /\ in_time i = now.
Proof.
  unfold invocation_record. destruct (bool_decide (action = []) || bool_decide (reason = [])); [done|].
  case_bool_decide; [done|]. destruct (auth_contains (g_authority g) required) eqn:E; [|done]. cbn [negb]. intros [= <-]. done.
Qed.

(** An invocation record proves the authority it was made with:
    recorded under any grant that descends from a root grant, its chain is
    connected from the root's holder to the actor, each link was handed on by a
    holder of DELEGATE and lies within what that holder had, the record's scope
    is the last link's, and the authority used is within the last link and so
    within the root. *)
Theorem an_invocation_proves_its_authority holder scope authority r g required action reason outputs now i :
  grant_root holder scope authority = Ok r -> descends r g ->
  invocation_record blake3 g required action reason outputs now = Ok i ->
  chain_ok (pr_id holder) scope authority (in_chain i)
  /\ (exists held, chain_end (pr_id holder) scope authority (in_chain i) = (in_actor i, in_scope i, held) /\ subset_bits (in_authority i) held)
  /\ within scope authority (in_scope i) (in_authority i).
Proof.
  unfold grant_root. destruct (auth_is_empty authority); [done|]. intros [= <-] Hd Hi.
  apply invocation_record_ok in Hi as (Hc & -> & -> & -> & -> & _). apply auth_contains_subset in Hc.
  pose proof (descends_within _ _ Hd) as [Ws Wa]. apply descends_chain in Hd as (links & Hch & Hok & He). cbn in *. rewrite Hch. split; [done|].
  split; [by eexists|]. split; [done|]. by etrans.
Qed.
End Records.

(** ** What identifiers separate *)

Lemma utf8_encode_inj a b : valid_str a -> valid_str b -> utf8_encode a = utf8_encode b -> a = b.
Proof. intros Ha Hb E. apply utf8_decode_encode in Ha, Hb. rewrite E in Ha. congruence. Qed.

(** Two principals with the same hash input are the same: no tag is a prefix
    of another. *)
Theorem principal_ids_separate_principals k1 k2 n1 n2 : valid_str n1 -> valid_str n2 ->
  principal_preimage k1 n1 = principal_preimage k2 n2 -> k1 = k2 /\ n1 = n2.
Proof.
  intros H1 H2. unfold principal_preimage. destruct k1, k2; cbn; intros E; try discriminate E; (split; [reflexivity|]);
    injection E as E; by apply utf8_encode_inj.
Qed.

(** The action and the reason are hashed without a separator: two records that
    split the same text differently have one identifier, whatever the hash. *)
Theorem action_and_reason_run_together blake3 actor scope required a b c outputs chain now :
  invocation_id blake3 actor scope required (a ++ b) c outputs chain now = invocation_id blake3 actor scope required a (b ++ c) outputs chain now.
Proof. unfold invocation_id, invocation_preimage, utf8_encode. rewrite !flat_map_app, <- !app_assoc. reflexivity. Qed.

(** ** At work *)

Definition demo_digest (b : list Z) : list Z := take 32 (b ++ replicate 32 0).
Definition ali : Principal := mkPrincipal (demo_digest (principal_preimage Human (lit "ali"))) Human (lit "ali").
Definition writer : Principal := mkPrincipal (demo_digest (principal_preimage Agent (lit "writer"))) Agent (lit "writer").
Definition demo_root : AuthorityGrant := mkGrant ali (lit "refs/projects/dezh") (READ_OBJECT .| UPDATE_REF .| DELEGATE) [].
Definition demo_child : AuthorityGrant :=
  mkGrant writer (lit "refs/projects/dezh/docs") UPDATE_REF
    [mkLink (pr_id ali) (pr_id writer) (lit "refs/projects/dezh/docs") UPDATE_REF (lit "edit docs only") 7].
Definition demo_outputs : list Artifact := [mkArtifact ACommit (lit "commit:def")].

Lemma an_invocation_proves_its_authority_witness : exists i,
  chain_ok (pr_id ali) (lit "refs/projects/dezh") 21 (in_chain i) /\ in_actor i = pr_id writer /\ within (lit "refs/projects/dezh") 21 (in_scope i) 4.
Proof.
  destruct (invocation_record demo_digest demo_child UPDATE_REF (lit "cairn.commit") (lit "note") demo_outputs 8) as [i|e] eqn:E; [|discriminate E].
  exists i. destruct (an_invocation_proves_its_authority demo_digest ali (lit "refs/projects/dezh") 21 demo_root demo_child UPDATE_REF
    (lit "cairn.commit") (lit "note") demo_outputs 8 i) as (H1 & H2 & H3); [reflexivity| |exact E|].
  - apply (descends_by demo_root demo_root writer (lit "refs/projects/dezh/docs") UPDATE_REF (lit "edit docs only") 7);
      [constructor|vm_compute; reflexivity].
  - vm_compute in E. injection E as <-. split; [exact H1|]. split; [reflexivity|exact H3].
Defined.
