(* ===== verification/HostCaps.v ===== *)
(** * The capability core (spikes/dezh-host/src/lib.rs)

    Operation sets, capabilities, the per-guest table and the four host
    functions.  The guest is any program: a function of everything it has seen,
    which rewrites its memory as it likes and then calls the host or returns.
    The theorems compare whole runs: a guest acts only through the capabilities
    it was granted, and what it sees does not depend on a resource it may not
    read. *)

From Stdlib Require Import ZArith Lia.
From stdpp Require Import base option numbers list gmap.
From S2P Require Import Prelude.

(** ** Operation sets *)

Definition OPS_READ : Z := 1.
Definition OPS_WRITE : Z := 2.
Definition OPS_PRINT : Z := 4.
Definition OPS_NONE : Z := 0.
Definition OPS_ALL_BITS : Z := OPS_READ .| OPS_WRITE .| OPS_PRINT.
Definition ops_from_bits_truncate (raw : Z) : Z := raw & OPS_ALL_BITS.
Definition ops_contains (a other : Z) : bool := a & other =? other.
Definition ops_intersect (a other : Z) : Z := a & other.

Inductive CapError := NoSuchHandle | OpNotPermitted | Widening | NotNarrower | NoResource | BadMemory.
Definition cap_error_code (e : CapError) : Z :=
  match e with
  | NoSuchHandle => -1 | OpNotPermitted => -2 | Widening => -3 | NotNarrower => -4 | NoResource => -5 | BadMemory => -6
  end.

(** ** Capabilities and the table of one guest *)

Record Capability := mkCapability { cap_resource : Z; cap_ops : Z }.
#[export] Instance Capability_eq_dec : EqDecision Capability.
Proof. solve_decision. Defined.

Definition derive (c : Capability) (requested : Z) : result CapError Capability :=
  if negb (ops_contains (cap_ops c) requested) then Err Widening else
  if requested =? cap_ops c then Err NotNarrower else
  Ok (mkCapability (cap_resource c) (ops_intersect (cap_ops c) requested)).

Record HostState := mkHost { resources : gmap Z (list Z); slots : list Capability; stdout : list Z }.

(** The new handle is the old length, as a [u32]. *)
Definition install (cap : Capability) (s : HostState) : Z * HostState :=
  (wrap 32 (zlen (slots s)), mkHost (resources s) (slots s ++ [cap]) (stdout s)).
Definition check (handle op : Z) (s : HostState) : result CapError Capability :=
  match slots s !! Z.to_nat handle with
  | None => Err NoSuchHandle
  | Some cap => if negb (ops_contains (cap_ops cap) op) then Err OpNotPermitted else Ok cap
  end.
Definition grant (resource ops : Z) (s : HostState) : Z * HostState := install (mkCapability resource ops) s.

(** ** The host functions *)

Abbreviation memory := (option (list Z)).

Definition range (ptr len mem_len : Z) : result CapError (Z * Z) :=
  match checked_add ptr len with
  | None => Err BadMemory
  | Some e => if mem_len <? e then Err BadMemory else Ok (ptr, e)
  end.

(** [n as i32] *)
Definition as_i32 (n : Z) : Z := let u := wrap 32 n in if u <? 2 ^ 31 then u else u - 2 ^ 32.

(** The guest's bytes [start .. end], once [range] has accepted them. *)
Definition window (data : list Z) (r : Z * Z) : list Z := slice data (Z.to_nat r.1) (Z.to_nat (r.2 - r.1)).

Definition cap_read (handle out_ptr out_cap : Z) (mem : memory) (s : HostState) : Z * memory * HostState :=
  match mem with
  | None => (cap_error_code BadMemory, mem, s)
  | Some data =>
    match check handle OPS_READ s with
    | Err e => (cap_error_code e, mem, s)
    | Ok cap =>
      match resources s !! cap_resource cap with
      | None => (cap_error_code NoResource, mem, s)
      | Some bytes =>
        let n := Z.min (zlen bytes) out_cap in
        match range out_ptr (wrap 32 n) (zlen data) with
        | Err e => (cap_error_code e, mem, s)
        | Ok (start, _) => (as_i32 n, Some (update_slice data (Z.to_nat start) (take (Z.to_nat n) bytes)), s)
        end
      end
    end
  end.

Definition cap_write (handle src_ptr src_len : Z) (mem : memory) (s : HostState) : Z * memory * HostState :=
  match mem with
  | None => (cap_error_code BadMemory, mem, s)
  | Some data =>
    match check handle OPS_WRITE s with
    | Err e => (cap_error_code e, mem, s)
    | Ok cap =>
      match range src_ptr src_len (zlen data) with
      | Err e => (cap_error_code e, mem, s)
      | Ok r =>
        match resources s !! cap_resource cap with
        | None => (cap_error_code NoResource, mem, s)
        | Some _ => (as_i32 src_len, mem, mkHost (<[cap_resource cap := window data r]> (resources s)) (slots s) (stdout s))
        end
      end
    end
  end.

Definition cap_print (handle src_ptr src_len : Z) (mem : memory) (s : HostState) : Z * memory * HostState :=
  match mem with
  | None => (cap_error_code BadMemory, mem, s)
  | Some data =>
    match check handle OPS_PRINT s with
    | Err e => (cap_error_code e, mem, s)
    | Ok _ =>
      match range src_ptr src_len (zlen data) with
      | Err e => (cap_error_code e, mem, s)
      | Ok r => (as_i32 src_len, mem, mkHost (resources s) (slots s) (stdout s ++ window data r))
      end
    end
  end.

Definition cap_attenuate (handle requested_ops : Z) (mem : memory) (s : HostState) : Z * memory * HostState :=
  match check handle OPS_NONE s with
  | Err e => (cap_error_code e, mem, s)
  | Ok parent =>
    match derive parent (ops_from_bits_truncate requested_ops) with
    | Err e => (cap_error_code e, mem, s)
    | Ok child => let '(h, s) := install child s in (h, mem, s)
    end
  end.

(** What [build_linker] offers, and nothing else. *)
Inductive HostCall :=
| CapRead (handle out_ptr out_cap : Z)
| CapWrite (handle src_ptr src_len : Z)
| CapPrint (handle src_ptr src_len : Z)
| CapAttenuate (handle requested_ops : Z).

Definition host_call (c : HostCall) : memory -> HostState -> Z * memory * HostState :=
  match c with
  | CapRead h p n => cap_read h p n
  | CapWrite h p n => cap_write h p n
  | CapPrint h p n => cap_print h p n
  | CapAttenuate h o => cap_attenuate h o
  end.

(** ** Runs of a guest

    After the answers and memories it has seen, a guest makes its next call with
    a memory of its choice, or returns. *)
Definition Guest : Type := list (Z * memory) -> option (memory * HostCall).

Fixpoint run_calls (n : nat) (g : Guest) (seen : list (Z * memory)) (s : HostState) : list (Z * memory) * HostState :=
  match n with
  | O => (seen, s)
  | S n =>
    match g seen with
    | None => (seen, s)
    | Some (mem, c) => let '(r, mem, s) := host_call c mem s in run_calls n g (seen ++ [(r, mem)]) s
    end
  end.

(** ** Acting through capabilities only *)

Definition allows (s : HostState) (resource op : Z) : Prop :=
  exists c, c ∈ slots s /\ cap_resource c = resource /\ subset_bits op (cap_ops c).

Lemma ops_contains_subset a b : ops_contains a b = true <-> subset_bits b a.
Proof. unfold ops_contains. rewrite Z.eqb_eq, subset_bits_land_eq, Z.land_comm. done. Qed.

Lemma check_allows handle op s c : check handle op s = Ok c -> c ∈ slots s /\ subset_bits op (cap_ops c).
Proof.
  unfold check. destruct (slots s !! Z.to_nat handle) eqn:E; [|done]. destruct (ops_contains (cap_ops c0) op) eqn:Eo; [|done].
  intros [= <-]. split; [by eapply list_elem_of_lookup_2|by apply ops_contains_subset].
Qed.

Lemma derive_narrows c requested d : derive c requested = Ok d ->
  cap_resource d = cap_resource c /\ subset_bits (cap_ops d) (cap_ops c) /\ cap_ops d <> cap_ops c.
Proof.
  unfold derive. destruct (ops_contains (cap_ops c) requested) eqn:E; [|done]. destruct (Z.eqb_spec requested (cap_ops c)) as [|Hne]; [done|].
  intros [= <-]. cbn. apply ops_contains_subset in E. unfold ops_intersect. rewrite Z.land_comm, (proj1 (subset_bits_land_eq _ _) E). done.
Qed.

(** What one call may change: the laws every host function keeps. *)
Record call_laws (s s' : HostState) : Prop := {
  cl_slots : exists new, slots s' = slots s ++ new /\
    Forall (fun d => exists c, c ∈ slots s /\ cap_resource d = cap_resource c /\ subset_bits (cap_ops d) (cap_ops c) /\ cap_ops d <> cap_ops c) new;
  cl_stdout : exists out, stdout s' = stdout s ++ out /\ (out <> [] -> exists r, allows s r OPS_PRINT);
  cl_written r : resources s' !! r <> resources s !! r -> allows s r OPS_WRITE;
  cl_dom r : is_Some (resources s' !! r) <-> is_Some (resources s !! r) }.

Ltac nothing_new := exists []; rewrite app_nil_r; split; [reflexivity|(constructor || congruence)].

Lemma call_laws_refl s : call_laws s s.
Proof. split; [nothing_new|nothing_new|done|done]. Qed.
#[export] Hint Resolve call_laws_refl : dezh.

Lemma host_call_laws c mem s r mem' s' : host_call c mem s = (r, mem', s') -> call_laws s s'.
Proof.
  destruct c; cbn; unfold cap_read, cap_write, cap_print, cap_attenuate; intros H; repeat case_match; simplify_eq; auto with dezh.
  - match goal with H : check _ _ _ = Ok ?c |- _ => apply check_allows in H as [Hin Ho]; rename c into cap end.
    split; cbn; [nothing_new|nothing_new| |].
    + intros r Hr. destruct (decide (cap_resource cap = r)) as [Er|Hne]; [by exists cap|]. by rewrite lookup_insert_ne in Hr.
    + intros r. destruct (decide (cap_resource cap = r)) as [Er|Hne]; [subst r; rewrite lookup_insert_eq|by rewrite lookup_insert_ne].
      split; eauto.
  - match goal with H : check _ _ _ = Ok ?c |- _ => apply check_allows in H as [Hin Ho]; rename c into cap end.
    split; cbn; [nothing_new| |done|done]. eexists. split; [done|]. intros _. exists (cap_resource cap). by exists cap.
  - match goal with H : check _ _ _ = Ok _ |- _ => apply check_allows in H as [Hin Ho] end.
    match goal with H : derive _ _ = Ok _ |- _ => apply derive_narrows in H as (Hr & Hs & Hne) end.
    match goal with H : install _ _ = _ |- _ => injection H as <- <- end.
    split; cbn; [|nothing_new|done|done]. eexists. split; [done|]. constructor; [|constructor]. eauto.
Qed.

(** A later slot stands for authority that was there before. *)
Lemma allows_after s s' r op : call_laws s s' -> allows s' r op -> allows s r op.
Proof.
  intros [(new & Hs & Hn) _ _ _] (c & Hc & Hr & Ho). rewrite Hs, elem_of_app in Hc. destruct Hc as [Hc|Hc]; [by exists c|].
  rewrite Forall_forall in Hn. destruct (Hn c Hc) as (p & Hp & Hpr & Hps & _). exists p. split; [done|]. split; [congruence|by etrans].
Qed.

Lemma call_laws_trans s1 s2 s3 :
  call_laws s1 s2 -> call_laws s2 s3 ->
  call_laws s1 s3.
Proof.
  intros L1 L2. destruct (L1) as [(n1 & S1 & N1) (o1 & O1 & P1) W1 D1], L2 as [(n2 & S2 & N2) (o2 & O2 & P2) W2 D2]. split.
  - exists (n1 ++ n2). rewrite S2, S1, app_assoc. split; [done|]. apply Forall_app. split; [done|]. apply Forall_forall. intros d Hd.
    rewrite Forall_forall in N2. destruct (N2 d Hd) as (p & Hp & Hr & Hs & Hne).
    rewrite S1, elem_of_app in Hp. destruct Hp as [Hp|Hp]; [by exists p|]. rewrite Forall_forall in N1. destruct (N1 p Hp) as (q & Hq & Hqr & Hqs & Hqn).
    exists q. repeat split; [done|congruence|by etrans|]. intros E. rewrite E in Hs. apply Hqn. by apply subset_bits_antisym.
  - exists (o1 ++ o2). rewrite O2, O1, app_assoc. split; [done|]. intros Ho. destruct o1 as [|x o1]; [|by apply P1].
    destruct (P2 Ho) as [r Hr]. exists r. by eapply allows_after.
  - intros r Hr. destruct (decide (resources s2 !! r = resources s1 !! r)) as [E|E]; [|by apply W1].
    eapply allows_after; [done|]. apply W2. congruence.
  - intros r. by rewrite D2, D1.
Qed.

Lemma run_calls_laws n g : forall seen s seen' s', run_calls n g seen s = (seen', s') -> call_laws s s'.
Proof.
  induction n as [|n IH]; cbn; intros seen s seen' s' H; [injection H as <- <-; auto with dezh|].
  destruct (g seen) as [[mem c]|]; [|injection H as <- <-; auto with dezh].
  destruct (host_call c mem s) as [[r mem'] s1] eqn:E. eapply call_laws_trans; [by eapply host_call_laws|by eapply IH].
Qed.

(** ** Seeing only what may be read *)

(** Two hosts a guest cannot tell apart: the same capabilities, the same bytes
    wherever it may read, the same resources existing wherever it holds any. *)
Record alike (s1 s2 : HostState) : Prop := {
  ak_slots : slots s1 = slots s2;
  ak_exists r : allows s1 r OPS_NONE -> is_Some (resources s1 !! r) <-> is_Some (resources s2 !! r);
  ak_read r : allows s1 r OPS_READ -> resources s1 !! r = resources s2 !! r }.

Lemma allows_none s r op : allows s r op -> allows s r OPS_NONE.
Proof. intros (c & Hc & Hr & _). exists c. by repeat split. Qed.

Lemma check_alike s1 s2 handle op : alike s1 s2 -> check handle op s1 = check handle op s2.
Proof. intros [Hs _ _]. unfold check. by rewrite Hs. Qed.

Lemma alike_write s1 s2 c b : alike s1 s2 -> c ∈ slots s1 -> is_Some (resources s1 !! cap_resource c) ->
  alike (mkHost (<[cap_resource c := b]> (resources s1)) (slots s1) (stdout s1)) (mkHost (<[cap_resource c := b]> (resources s2)) (slots s2) (stdout s2)).
Proof.
  intros [Hs He Hr] Hc Hx. split; cbn; [done| |]; intros r Hal.
  - destruct (decide (cap_resource c = r)) as [<-|Hne]; [by rewrite !lookup_insert_eq|]. rewrite !lookup_insert_ne by done. by apply He.
  - destruct (decide (cap_resource c = r)) as [<-|Hne]; [by rewrite !lookup_insert_eq|]. rewrite !lookup_insert_ne by done. by apply Hr.
Qed.

Lemma alike_install s1 s2 d p : alike s1 s2 -> p ∈ slots s1 -> cap_resource d = cap_resource p -> subset_bits (cap_ops d) (cap_ops p) ->
  alike (install d s1).2 (install d s2).2.
Proof.
  intros [Hs He Hr] Hp Hd Ho.
  assert (Hback : forall r op, allows (install d s1).2 r op -> allows s1 r op).
  { intros r op (c & Hc & Hcr & Hco). cbn in Hc. rewrite elem_of_app, list_elem_of_singleton in Hc. destruct Hc as [Hc| ->]; [by exists c|].
    exists p. split; [done|]. split; [congruence|by etrans]. }
  split; cbn; [by rewrite Hs|intros r Hal; by apply He, (Hback _ _ Hal)|intros r Hal; by apply Hr, (Hback _ _ Hal)].
Qed.

(** One call: the same answer and memory, the same bytes printed, and hosts
    that still cannot be told apart. *)
Lemma host_call_alike c mem s1 s2 r1 m1 t1 r2 m2 t2 : alike s1 s2 ->
  host_call c mem s1 = (r1, m1, t1) -> host_call c mem s2 = (r2, m2, t2) ->
  r1 = r2 /\ m1 = m2 /\ alike t1 t2 /\ (stdout s1 = stdout s2 -> stdout t1 = stdout t2).
Proof.
  intros Ha. pose proof Ha as [Hs He Hr]. destruct c; cbn; unfold cap_read, cap_write, cap_print, cap_attenuate.
  - rewrite <- (check_alike _ _ _ _ Ha). destruct mem as [data|]; [|by intros [= <- <- <-] [= <- <- <-]].
    destruct (check handle OPS_READ s1) as [cap|e] eqn:E; [|by intros [= <- <- <-] [= <- <- <-]]. apply check_allows in E as [Hin Ho].
    rewrite <- (Hr (cap_resource cap)) by (by exists cap). repeat case_match; intros [= <- <- <-] [= <- <- <-]; done.
  - rewrite <- (check_alike _ _ _ _ Ha). destruct mem as [data|]; [|by intros [= <- <- <-] [= <- <- <-]].
    destruct (check handle OPS_WRITE s1) as [cap|e] eqn:E; [|by intros [= <- <- <-] [= <- <- <-]]. apply check_allows in E as [Hin Ho].
    destruct (range src_ptr src_len (zlen data)) as [rg|e]; [|by intros [= <- <- <-] [= <- <- <-]].
    assert (Hx := He (cap_resource cap) (allows_none _ _ _ (ex_intro _ cap (conj Hin (conj eq_refl Ho))))).
    destruct (resources s1 !! cap_resource cap) eqn:E1, (resources s2 !! cap_resource cap) eqn:E2; intros [= <- <- <-] [= <- <- <-];
      try (exfalso; by destruct Hx as [Hx1 Hx2]; (destruct (Hx1 (ex_intro _ _ eq_refl)) || destruct (Hx2 (ex_intro _ _ eq_refl)))); [|done].
    split; [done|]. split; [done|]. split; [|done]. apply alike_write; [done|done|by rewrite E1].
  - rewrite <- (check_alike _ _ _ _ Ha). destruct mem as [data|]; [|by intros [= <- <- <-] [= <- <- <-]].
    destruct (check handle OPS_PRINT s1); [|by intros [= <- <- <-] [= <- <- <-]]. destruct (range src_ptr src_len (zlen data));
      intros [= <- <- <-] [= <- <- <-]; [|done]. split; [done|]. split; [done|]. split; [by split|]. cbn. by intros ->.
  - rewrite <- (check_alike _ _ _ _ Ha). destruct (check handle OPS_NONE s1) as [p|e] eqn:E; [|by intros [= <- <- <-] [= <- <- <-]].
    apply check_allows in E as [Hin _]. destruct (derive p (ops_from_bits_truncate requested_ops)) as [d|e] eqn:Ed; [|by intros [= <- <- <-] [= <- <- <-]].
    apply derive_narrows in Ed as (Hdr & Hdo & _). pose proof (alike_install _ _ d p Ha Hin Hdr Hdo) as Hi. unfold install in *. cbn in Hi.
    rewrite Hs in *. intros [= <- <- <-] [= <- <- <-]. done.
Qed.

Lemma run_calls_alike n g : forall seen s1 s2 h1 t1 h2 t2, alike s1 s2 ->
  run_calls n g seen s1 = (h1, t1) -> run_calls n g seen s2 = (h2, t2) -> h1 = h2 /\ alike t1 t2 /\ (stdout s1 = stdout s2 -> stdout t1 = stdout t2).
Proof.
  induction n as [|n IH]; cbn; intros seen s1 s2 h1 t1 h2 t2 Ha H1 H2; [by simplify_eq|].
  destruct (g seen) as [[mem c]|]; [|by simplify_eq].
  destruct (host_call c mem s1) as [[r1 m1] u1] eqn:E1, (host_call c mem s2) as [[r2 m2] u2] eqn:E2.
  destruct (host_call_alike _ _ _ _ _ _ _ _ _ _ Ha E1 E2) as (-> & -> & Hu & Ho).
  destruct (IH _ _ _ _ _ _ _ Hu H1 H2) as (? & ? & ?). auto.
Qed.

(** C20: A WebAssembly guest has no ambient authority. In any run of any guest: the capabilities it ends
    with are those it was granted and strictly narrower copies of them; a resource changes only where it
    was granted WRITE, none appears or disappears, and it prints only if it was granted PRINT. And a
    second host that differs only in bytes the guest was not granted READ for gives it the same answers
    and the same memory, call by call. *)
Theorem a_guest_has_no_ambient_authority (n : nat) (g : Guest) (s1 s2 : HostState) : alike s1 s2 ->
  call_laws s1 (run_calls n g [] s1).2
  /\ (run_calls n g [] s1).1 = (run_calls n g [] s2).1
  /\ alike (run_calls n g [] s1).2 (run_calls n g [] s2).2.
Proof.
  intros Ha. destruct (run_calls n g [] s1) as [h1 t1] eqn:E1, (run_calls n g [] s2) as [h2 t2] eqn:E2.
  split; [by eapply run_calls_laws|]. by destruct (run_calls_alike _ _ _ _ _ _ _ _ _ Ha E1 E2) as (? & ? & ?).
Qed.

(** ** At work *)

(** The guest of the third demonstration: it narrows READ+WRITE to READ, then
    tries to write through the copy and to widen it again. *)
Definition narrowing_guest : Guest := fun seen =>
  match length seen with
  | O => Some (Some [1; 2; 3; 4; 0; 0; 0; 0], CapAttenuate 0 OPS_READ)
  | 1%nat => Some (Some [1; 2; 3; 4; 0; 0; 0; 0], CapWrite 1 0 4)
  | 2%nat => Some (Some [1; 2; 3; 4; 0; 0; 0; 0], CapAttenuate 1 (OPS_READ .| OPS_WRITE))
  | 3%nat => Some (Some [1; 2; 3; 4; 0; 0; 0; 0], CapRead 1 4 4)
  | 4%nat => Some (Some [1; 2; 3; 4; 0; 0; 0; 0], CapRead 2 4 4)
  | _ => None
  end.
Definition host_with (secret : list Z) : HostState :=
  mkHost (<[1 := [100; 97; 116; 97]]> (<[2 := secret]> ∅)) [mkCapability 1 (OPS_READ .| OPS_WRITE)] [].

Lemma a_guest_has_no_ambient_authority_witness :
  (run_calls 9 narrowing_guest [] (host_with [83])).1 = (run_calls 9 narrowing_guest [] (host_with [84; 85])).1
  /\ fst <$> (run_calls 9 narrowing_guest [] (host_with [83])).1 = [1; -2; -3; 4; -1].
Proof.
  split; [|vm_compute; reflexivity]. apply (a_guest_has_no_ambient_authority 9 narrowing_guest (host_with [83]) (host_with [84; 85])).
  split; [reflexivity| |]; intros r (c & Hc & <- & Ho); apply list_elem_of_singleton in Hc as ->; vm_compute; done.
Defined.

(** A write of 2^32 - 1 bytes succeeds and answers -1, the code of a handle that
    does not exist: [src_len as i32] of a length above [i32::MAX] is negative. *)
Theorem a_huge_write_answers_no_such_handle data c old s : zlen data = 2 ^ 32 -> slots s !! 0%nat = Some c ->
  ops_contains (cap_ops c) OPS_WRITE = true -> resources s !! cap_resource c = Some old ->
  exists s', cap_write 0 0 (2 ^ 32 - 1) (Some data) s = (cap_error_code NoSuchHandle, Some data, s')
    /\ resources s' !! cap_resource c = Some (slice data 0 (Z.to_nat (2 ^ 32 - 1))).
Proof.
  intros Hl Hs Ho Hr. unfold cap_write, check. change (Z.to_nat 0) with 0%nat. rewrite Hs, Ho. cbn [negb]. unfold range, checked_add.
  change (0 + (2 ^ 32 - 1) <? 2 ^ 64) with true. cbn match. rewrite Hl. change (2 ^ 32 <? 0 + (2 ^ 32 - 1)) with false. cbn match. rewrite Hr.
  change (as_i32 (2 ^ 32 - 1)) with (cap_error_code NoSuchHandle). eexists. split; [reflexivity|]. cbn [resources]. rewrite lookup_insert_eq. unfold window.
  cbn [fst snd]. reflexivity.
Qed.
