(* ===== verification/Contract.v ===== *)
(** * The WebAssembly contract (spikes/dezh-ir/src/lib.rs)

    What a module may import and must export before a host runs it.  The
    compiler that reads the module is a third-party crate and a parameter; what
    the validator sees of a module is its imports and exports with their types.
    The theorems give exactly the modules the validator accepts, and that it
    reports a violation for every import it refuses. *)

From Stdlib Require Import ZArith Lia String.
From stdpp Require Import base option strings numbers list.
From S2P Require Import Prelude Text.

Definition CONTRACT_VERSION : str := lit "dezh-ir-v0".
Definition DEZH_IMPORT_MODULE : str := lit "dezh".
Definition MEMORY_EXPORT : str := lit "memory".
Definition ENTRYPOINT_EXPORT : str := lit "run".

(** ** Types *)

(** The types a compiled module reports. *)
Inductive ValType := TI32 | TI64 | TF32 | TF64 | TV128 | TRef.
Record FuncType := mkFuncType { ft_params : list ValType; ft_results : list ValType }.
Inductive ExternType := EFunc (f : FuncType) | EGlobal | ETable | EMemory.
Record WasmModule := mkModule { m_imports : list (str * str * ExternType); m_exports : list (str * ExternType) }.

Inductive ValueKind := KI32 | KI64 | KF32 | KF64 | KV128 | KFuncRef | KExternRef | KUnknown.
#[export] Instance ValueKind_eq_dec : EqDecision ValueKind.
Proof. solve_decision. Defined.

Definition kind_of (v : ValType) : ValueKind :=
  match v with TI32 => KI32 | TI64 => KI64 | TF32 => KF32 | TF64 => KF64 | TV128 => KV128 | TRef => KUnknown end.
Definition fmt_kind (k : ValueKind) : str :=
  match k with
  | KI32 => lit "i32" | KI64 => lit "i64" | KF32 => lit "f32" | KF64 => lit "f64" | KV128 => lit "v128"
  | KFuncRef => lit "funcref" | KExternRef => lit "externref" | KUnknown => lit "unknown"
  end.

Record FunctionSig := mkSig { fs_params : list ValueKind; fs_results : list ValueKind }.
#[export] Instance FunctionSig_eq_dec : EqDecision FunctionSig.
Proof. solve_decision. Defined.

Fixpoint fmt_list (ks : list ValueKind) : str :=
  match ks with [] => [] | [k] => fmt_kind k | k :: ks => fmt_kind k ++ lit ", " ++ fmt_list ks end.
Definition fmt_sig (s : FunctionSig) : str :=
  lit "(" ++ fmt_list (fs_params s) ++ lit ") -> "
  ++ match fs_results s with [] => lit "()" | [one] => fmt_kind one | many => lit "(" ++ fmt_list many ++ lit ")" end.

Definition function_sig (f : FuncType) : FunctionSig := mkSig (kind_of <$> ft_params f) (kind_of <$> ft_results f).
Definition extern_kind (t : ExternType) : str :=
  match t with EFunc _ => lit "func" | EGlobal => lit "global" | ETable => lit "table" | EMemory => lit "memory" end.

(** ** The host surface *)

Inductive HostImport := ICapRead | ICapWrite | ICapPrint | ICapAttenuate.
#[export] Instance HostImport_eq_dec : EqDecision HostImport.
Proof. solve_decision. Defined.

Definition import_name (h : HostImport) : str :=
  match h with
  | ICapRead => lit "cap_read" | ICapWrite => lit "cap_write" | ICapPrint => lit "cap_print" | ICapAttenuate => lit "cap_attenuate"
  end.
Definition signature (h : HostImport) : FunctionSig :=
  match h with
  | ICapRead | ICapWrite | ICapPrint => mkSig [KI32; KI32; KI32] [KI32]
  | ICapAttenuate => mkSig [KI32; KI32] [KI64]
  end.
Definition by_name (name : str) : option HostImport :=
  if str_eqb name (lit "cap_read") then Some ICapRead
  else if str_eqb name (lit "cap_write") then Some ICapWrite
  else if str_eqb name (lit "cap_print") then Some ICapPrint
  else if str_eqb name (lit "cap_attenuate") then Some ICapAttenuate
  else None.
Definition ALL : list HostImport := [ICapRead; ICapWrite; ICapPrint; ICapAttenuate].

(** ** Reports and violations *)

Record ImportUse := mkImportUse { iu_module : str; iu_name : str; iu_signature : FunctionSig }.
Inductive ExportUse :=
| ExMemory (name : str)
| ExFunction (name : str) (sig : FunctionSig)
| ExOther (name kind : str).
Record ModuleReport := mkReport { contract_version : str; rp_imports : list ImportUse; rp_exports : list ExportUse; cache_key : str }.

Inductive ContractViolation :=
| InvalidWasm (e : str)
| ForbiddenImport (module name : str)
| UnknownDezhImport (name : str)
| DisallowedDezhImport (name : str)
| ImportMustBeFunction (name found : str)
| WrongImportSignature (name : str) (expected found : FunctionSig)
| MissingMemoryExport
| MissingRunExport
| RunMustBeFunction (found : str)
| WrongRunSignature (expected found : FunctionSig).

Definition fmt_violation (v : ContractViolation) : str :=
  match v with
  | InvalidWasm e => lit "invalid wasm: " ++ e
  | ForbiddenImport m n => lit "forbidden import " ++ m ++ lit "::" ++ n
  | UnknownDezhImport n => lit "unknown dezh import " ++ n
  | DisallowedDezhImport n => lit "dezh import " ++ n ++ lit " is not offered by this host"
  | ImportMustBeFunction n f => lit "dezh import " ++ n ++ lit " must be a function, found " ++ f
  | WrongImportSignature n e f =>
    lit "dezh import " ++ n ++ lit " has wrong signature: expected " ++ fmt_sig e ++ lit ", found " ++ fmt_sig f
  | MissingMemoryExport => lit "missing exported memory"
  | MissingRunExport => lit "missing run export"
  | RunMustBeFunction f => lit "run export must be a function, found " ++ f
  | WrongRunSignature e f => lit "run export has wrong signature: expected " ++ fmt_sig e ++ lit ", found " ++ fmt_sig f
  end.

(** ** Validation *)

(** One turn of the loop over the imports. *)
Definition check_import (allowed : list HostImport) (i : str * str * ExternType) (acc : list ContractViolation * list ImportUse)
  : list ContractViolation * list ImportUse :=
  let '(violations, imports) := acc in
  let '(module_name, name, ty) := i in
  if negb (str_eqb module_name DEZH_IMPORT_MODULE) then (violations ++ [ForbiddenImport module_name name], imports) else
  match by_name name with
  | None => (violations ++ [UnknownDezhImport name], imports)
  | Some known =>
    if negb (bool_decide (known ∈ allowed)) then (violations ++ [DisallowedDezhImport name], imports) else
    match ty with
    | EFunc f =>
      let found := function_sig f in
      let expected := signature known in
      (if bool_decide (found = expected) then violations else violations ++ [WrongImportSignature name expected found],
       imports ++ [mkImportUse module_name name found])
    | other => (violations ++ [ImportMustBeFunction name (extern_kind other)], imports)
    end
  end.

Record ExportState := mkExportState {
  es_violations : list ContractViolation; es_exports : list ExportUse; es_has_memory : bool; es_run : option FunctionSig }.

(** One turn of the loop over the exports. *)
Definition check_export (e : str * ExternType) (s : ExportState) : ExportState :=
  let '(name, ty) := e in
  match ty with
  | EMemory =>
    mkExportState (es_violations s) (es_exports s ++ [ExMemory name]) (es_has_memory s || str_eqb name MEMORY_EXPORT) (es_run s)
  | EFunc f =>
    let sig := function_sig f in
    mkExportState (es_violations s) (es_exports s ++ [ExFunction name sig]) (es_has_memory s)
      (if str_eqb name ENTRYPOINT_EXPORT then Some sig else es_run s)
  | other =>
    mkExportState (if str_eqb name ENTRYPOINT_EXPORT then es_violations s ++ [RunMustBeFunction (extern_kind other)] else es_violations s)
      (es_exports s ++ [ExOther name (extern_kind other)]) (es_has_memory s) (es_run s)
  end.

Definition is_run_must_be_function (v : ContractViolation) : bool := match v with RunMustBeFunction _ => true | _ => false end.

Section Validate.
Context (compile : list Z -> result str WasmModule) (blake3_hex : list Z -> str).

Definition compiled_cache_key (wasm : list Z) : str := blake3_hex (utf8_encode CONTRACT_VERSION ++ [0] ++ wasm).

Definition validate_module_with (wasm : list Z) (allowed : list HostImport) : result (list ContractViolation) ModuleReport :=
  match compile wasm with
  | Err e => Err [InvalidWasm e]
  | Ok m =>
    let '(violations, imports) := foldl (fun acc i => check_import allowed i acc) ([], []) (m_imports m) in
    let es := foldl (fun s e => check_export e s) (mkExportState violations [] false None) (m_exports m) in
    let violations := if negb (es_has_memory es) then es_violations es ++ [MissingMemoryExport] else es_violations es in
    let violations :=
      match es_run es with
      | Some found => let expected := mkSig [] [KI64] in
                      if bool_decide (found = expected) then violations else violations ++ [WrongRunSignature expected found]
      | None => if existsb is_run_must_be_function violations then violations else violations ++ [MissingRunExport]
      end in
    match violations with
    | [] => Ok (mkReport CONTRACT_VERSION imports (es_exports es) (compiled_cache_key wasm))
    | _ => Err violations
    end
  end.
Definition validate_module (wasm : list Z) : result (list ContractViolation) ModuleReport := validate_module_with wasm ALL.
End Validate.

Record ModuleMetadata := mkMetadata { md_name : str; principal_hint : option str; provenance_hook : option str }.
Definition metadata_new (name : str) : ModuleMetadata := mkMetadata name None None.
Definition with_principal_hint (p : str) (m : ModuleMetadata) : ModuleMetadata := mkMetadata (md_name m) (Some p) (provenance_hook m).
Definition with_provenance_hook (h : str) (m : ModuleMetadata) : ModuleMetadata := mkMetadata (md_name m) (principal_hint m) (Some h).

(** ** What is accepted *)

(** The function type of a host function. *)
Definition host_type (h : HostImport) : FuncType :=
  match h with
  | ICapRead | ICapWrite | ICapPrint => mkFuncType [TI32; TI32; TI32] [TI32]
  | ICapAttenuate => mkFuncType [TI32; TI32] [TI64]
  end.

Lemma by_name_iff name h : by_name name = Some h <-> name = import_name h.
Proof.
  unfold by_name, str_eqb. split.
  - intros E. repeat case_bool_decide; simplify_eq; done.
  - intros ->. by destruct h.
Qed.

Lemma kind_of_i32 v : kind_of v = KI32 -> v = TI32.
Proof. by destruct v. Qed.
Lemma kind_of_i64 v : kind_of v = KI64 -> v = TI64.
Proof. by destruct v. Qed.

(** Kinds are coarser than types, but not on the signatures the contract names. *)
Lemma function_sig_signature f h : function_sig f = signature h <-> f = host_type h.
Proof.
  split; [|intros ->; by destruct h]. destruct f as [ps rs]. unfold function_sig. cbn. intros E.
  destruct h; cbn in E; injection E as Ep Er; cbn;
    repeat match goal with
           | H : _ <$> ?l = _ :: _ |- _ => destruct l; [discriminate H|]; cbn in H; injection H as ? H
           | H : _ <$> ?l = [] |- _ => destruct l; [clear H|discriminate H]
           | H : kind_of _ = KI32 |- _ => apply kind_of_i32 in H as ->
           | H : kind_of _ = KI64 |- _ => apply kind_of_i64 in H as ->
           end; done.
Qed.
Lemma function_sig_run f : function_sig f = mkSig [] [KI64] <-> f = mkFuncType [] [TI64].
Proof.
  split; [|by intros ->]. destruct f as [ps rs]. unfold function_sig. cbn. intros E. injection E as Ep Er.
  destruct ps; [|discriminate Ep]. destruct rs as [|v [|]]; try discriminate Er. cbn in Er. injection Er as Er. by rewrite (kind_of_i64 _ Er).
Qed.

Definition import_ok (allowed : list HostImport) (i : str * str * ExternType) : Prop :=
  exists h, h ∈ allowed /\ i = (DEZH_IMPORT_MODULE, import_name h, EFunc (host_type h)).

Lemma snoc_not_nil {A} (l : list A) x : l ++ [x] <> [].
Proof. by destruct l. Qed.
#[local] Hint Resolve snoc_not_nil : core.

Lemma check_import_ok allowed i vs us : (check_import allowed i (vs, us)).1 = [] <-> vs = [] /\ import_ok allowed i.
Proof.
  destruct i as [[m n] ty]. unfold check_import. split.
  - unfold str_eqb. case_bool_decide as Em; cbn [negb]; [|by intros ?%snoc_not_nil]. subst m.
    destruct (by_name n) as [h|] eqn:En; [|by intros ?%snoc_not_nil]. apply by_name_iff in En as ->.
    case_bool_decide as Ha; cbn [negb]; [|by intros ?%snoc_not_nil]. destruct ty as [f| | |]; try by intros ?%snoc_not_nil.
    cbn. case_bool_decide as Es; [|by intros ?%snoc_not_nil]. intros ->. split; [done|]. apply function_sig_signature in Es as ->. by exists h.
  - intros [-> (h & Hh & [= -> -> ->])]. unfold str_eqb. rewrite bool_decide_eq_true_2 by done. cbn [negb].
    rewrite (proj2 (by_name_iff _ h) eq_refl). rewrite bool_decide_eq_true_2 by done. cbn.
    rewrite bool_decide_eq_true_2; [done|]. by apply function_sig_signature.
Qed.
Lemma check_imports_ok allowed imps : forall vs us,
  (foldl (fun acc i => check_import allowed i acc) (vs, us) imps).1 = [] <-> vs = [] /\ Forall (import_ok allowed) imps.
Proof.
  induction imps as [|i imps IH]; intros vs us; cbn [foldl fst]; [split; [intros ->; by split|by intros [-> _]]|].
  destruct (check_import allowed i (vs, us)) as [vs1 us1] eqn:E. rewrite IH. pose proof (check_import_ok allowed i vs us) as Hi.
  rewrite E in Hi. cbn [fst] in Hi. rewrite Forall_cons. tauto.
Qed.

(** What the loop over the exports has learnt. *)

(** What the loop over the exports has learnt. *)
Abbreviation exports_state es s := (foldl (fun s e => check_export e s) s es).

Lemma exports_memory es : forall s,
  es_has_memory (exports_state es s) = true <-> es_has_memory s = true \/ (MEMORY_EXPORT, EMemory) ∈ es.
Proof.
  induction es as [|[n ty] es IH]; intros s; cbn [foldl]; [rewrite elem_of_nil; tauto|]. rewrite IH, elem_of_cons. destruct ty; cbn.
  1-3: split; [tauto|intros [?|[E|?]]; [tauto|discriminate E|tauto]].
  rewrite orb_true_iff, str_eqb_eq. split; [intros [[?|E]|?]; [tauto|rewrite E; tauto|tauto]|intros [?|[E|?]]; [tauto|injection E as <-; left; right; reflexivity|tauto]].
Qed.

(** An export that may not be called [run]. *)
Definition not_callable (t : ExternType) : Prop := match t with EGlobal | ETable => True | _ => False end.

Lemma exports_violations es : forall s,
  es_violations (exports_state es s) = [] <-> es_violations s = [] /\ Forall (fun e => e.1 = ENTRYPOINT_EXPORT -> ~ not_callable e.2) es.
Proof.
  induction es as [|[n ty] es IH]; intros s; cbn [foldl]; [split; [done|by intros []]|]. rewrite IH, Forall_cons. destruct ty; cbn [check_export es_violations fst snd].
  1, 4: split; [intros [? ?]|intros (? & _ & ?)]; repeat split; try done; intros _ [].
  all: unfold str_eqb; case_bool_decide as E; [|tauto]; split; [by intros [?%snoc_not_nil _]|].
  all: intros (_ & H & _); destruct (H E); exact I.
Qed.

Lemma exports_run es : forall s, ENTRYPOINT_EXPORT ∉ es.*1 -> es_run (exports_state es s) = es_run s.
Proof.
  induction es as [|[n ty] es IH]; intros s; cbn [foldl]; [done|]. rewrite fmap_cons, not_elem_of_cons. cbn [fst]. intros [Hn Hes]. rewrite IH by done.
  destruct ty; cbn; try done. unfold str_eqb. by rewrite bool_decide_eq_false_2.
Qed.
Lemma exports_run_at es ty : forall s, NoDup es.*1 -> (ENTRYPOINT_EXPORT, ty) ∈ es ->
  es_run (exports_state es s) = match ty with EFunc f => Some (function_sig f) | _ => es_run s end.
Proof.
  induction es as [|[n t] es IH]; intros s Hnd Hin; [by apply elem_of_nil in Hin|]. cbn [foldl]. rewrite fmap_cons in Hnd. apply NoDup_cons in Hnd as [Hn Hnd].
  apply elem_of_cons in Hin as [[= <- <-]|Hin].
  - rewrite exports_run by done. destruct ty; cbn; try done.
  - rewrite IH by done. destruct ty; try done; destruct t; cbn; try done; unfold str_eqb; rewrite bool_decide_eq_false_2; try done; intros ->;
      apply Hn; by apply (list_elem_of_fmap_2 fst _ _ Hin).
Qed.

(** The contract: only host functions the host offers, at their types, a memory
    called [memory] and an entry point [run : () -> i64]. *)
Record honours (allowed : list HostImport) (m : WasmModule) : Prop := {
  ho_imports : Forall (import_ok allowed) (m_imports m);
  ho_memory : (MEMORY_EXPORT, EMemory) ∈ m_exports m;
  ho_run : (ENTRYPOINT_EXPORT, EFunc (mkFuncType [] [TI64])) ∈ m_exports m }.

Lemma unique_export {A} (es : list (str * A)) n a b : NoDup es.*1 -> (n, a) ∈ es -> (n, b) ∈ es -> a = b.
Proof.
  intros Hnd Ha Hb. apply list_elem_of_lookup in Ha as [i Hi], Hb as [j Hj].
  assert (i = j) as <-; [|congruence]. eapply NoDup_lookup; [done| |]; rewrite list_lookup_fmap; [by rewrite Hi|by rewrite Hj].
Qed.

Section Accepted.
Context (compile : list Z -> result str WasmModule) (blake3_hex : list Z -> str).
(** A validated WebAssembly module has no two exports of one name. *)
Context (unique_exports : forall wasm m, compile wasm = Ok m -> NoDup (m_exports m).*1).

Abbreviation validate := (validate_module_with compile blake3_hex).

Lemma validate_spec wasm allowed m : compile wasm = Ok m ->
  (exists r, validate wasm allowed = Ok r) <-> honours allowed m.
Proof.
  intros Em. pose proof (unique_exports _ _ Em) as Hnd. unfold validate_module_with. rewrite Em.
  pose proof (check_imports_ok allowed (m_imports m) [] []) as Hi.
  destruct (foldl (fun acc i => check_import allowed i acc) ([], []) (m_imports m)) as [vs us]. cbn [fst] in Hi.
  set (s0 := mkExportState vs [] false None). pose proof (exports_memory (m_exports m) s0) as Hm.
  pose proof (exports_violations (m_exports m) s0) as Hv. pose proof (fun ty => exports_run_at (m_exports m) ty s0 Hnd) as Hr.
  pose proof (exports_run (m_exports m) s0) as Hr0. set (t := exports_state (m_exports m) s0) in *. cbn [es_has_memory es_violations es_run s0] in Hm, Hv, Hr, Hr0.
  split.
  - intros [r E]. destruct (es_has_memory t) eqn:Et; cbn [negb] in E.
    + destruct (es_run t) as [sig|] eqn:Er.
      * revert E. case_bool_decide as Es; [|by destruct (es_violations t)]. destruct (es_violations t) eqn:Ev; [|done]. intros _.
        destruct Hv as [[Hv1 Hv2] _]; [done|]. destruct Hi as [[_ Hi] _]; [done|]. split; [done|by destruct Hm as [[|] _]|].
        destruct (decide (ENTRYPOINT_EXPORT ∈ (m_exports m).*1)) as [Hin|Hout]; [|discriminate (Hr0 Hout)].
        apply list_elem_of_fmap in Hin as ([n ty] & En & Hin). cbn in En. subst n. pose proof (Hr ty Hin) as E.
        destruct ty; try done. injection E as ->. apply function_sig_run in Es. by subst f.
      * destruct (existsb is_run_must_be_function (es_violations t)) eqn:Ex; [|by destruct (es_violations t)].
        by destruct (es_violations t).
    + exfalso. destruct (es_violations t); cbn in E; repeat case_match; simplify_eq.
  - intros [H1 H2 H3]. pose proof (Hr _ H3) as Er. cbn in Er. rewrite Er. rewrite (proj2 Hm (or_intror H2)). cbn [negb].
    rewrite bool_decide_eq_true_2 by done. assert (es_violations t = []) as ->; [|by eexists]. apply Hv. split; [by apply Hi|].
    apply Forall_forall. intros [n ty] Hin En. cbn in En. subst n. rewrite (unique_export _ _ _ _ Hnd Hin H3). by intros [].
Qed.

(** The validator accepts a module exactly when it honours the
    contract: every import is a [dezh] function the host offers, at that
    function's WebAssembly type, the module exports a memory called [memory] and
    a function [run] of type [() -> i64].  A module the compiler refuses is
    never accepted. *)
Theorem the_contract_is_exact (wasm : list Z) (allowed : list HostImport) :
  (exists r, validate wasm allowed = Ok r) <-> (exists m, compile wasm = Ok m /\ honours allowed m).
Proof.
  destruct (compile wasm) as [m|e] eqn:E.
  - rewrite (validate_spec _ _ _ E). split; [by eexists|]. by intros (m1 & [= <-] & H).
  - unfold validate_module_with. rewrite E. split; [by intros [r Hr]|by intros (m & Hm & _)].
Qed.
End Accepted.

(** ** At work *)

(** The valid module of the crate's tests. *)
Definition demo_module : WasmModule :=
  mkModule ((fun h => (DEZH_IMPORT_MODULE, import_name h, EFunc (host_type h))) <$> ALL)
    [(MEMORY_EXPORT, EMemory); (ENTRYPOINT_EXPORT, EFunc (mkFuncType [] [TI64]))].
Definition demo_compile (wasm : list Z) : result str WasmModule := if bool_decide (wasm = []) then Err (lit "empty") else Ok demo_module.

Lemma demo_unique_exports wasm m : demo_compile wasm = Ok m -> NoDup (m_exports m).*1.
Proof. unfold demo_compile. case_bool_decide; [done|]. intros [= <-]. apply (bool_decide_eq_true_1 _). vm_compute. reflexivity. Qed.

Lemma the_contract_at_work :
  (exists r, validate_module_with demo_compile id [1] ALL = Ok r) /\ ~ (exists m, demo_compile [1] = Ok m /\ honours [ICapRead] m).
Proof.
  split.
  - apply (the_contract_is_exact demo_compile id demo_unique_exports [1] ALL). exists demo_module. split; [reflexivity|].
    split; [|by left|by right; left]. apply Forall_forall. intros i Hi. apply list_elem_of_fmap in Hi as (h & -> & Hh). by exists h.
  - intros H. apply (the_contract_is_exact demo_compile id demo_unique_exports [1] [ICapRead]) in H as [r Hr]. vm_compute in Hr. discriminate Hr.
Defined.
