(* ===== verification/Provenance.v ===== *)
(** * Recorded writes (the common core of spikes/dezh-runtime and spikes/dezh-linux)

    Both prototypes write a Cairn ref in the same way: store the bytes, move the
    ref in a one-entry transaction, and record an invocation with the grant that
    allowed it.  Here is that sequence over the object store of [CairnLog] and
    the grants of [Identity], and what it does on every outcome. *)

From Stdlib Require Import ZArith Lia String.
From stdpp Require Import base option strings numbers list gmap.
From S2P Require Import Prelude Text CairnLog Identity.

(** How the two appends end and what the clock says. *)
Record WriteEnv := mkWriteEnv { we_put : option nat; we_append : option nat; we_now : Z; we_recorded : Z }.

Section Write.
Context (blake3 : list Z -> list Z) (oc : bool).

Definition put_and_move (env : WriteEnv) (name : str) (bytes : list Z) (pr rs : str) (s : CairnStore)
  : outcome CairnError (result CairnError (list Z * list Z) * CairnStore) :=
  match put blake3 (we_put env) bytes s with
  | (Err e, s) => Ret (Err e, s)
  | (Ok object, s) =>
    '(r, s) ← tx_commit blake3 oc (fun _ => None) (we_append env) (set_ref name object begin_tx) pr rs (we_now env) s;
    Ret (match r with Err e => Err e | Ok commit => Ok (object, commit) end, s)
  end.

(** The artifacts of a write, as text. *)
Definition write_artifacts (object commit : list Z) : result IdentityError (list Artifact) :=
  o ← artifact_new AObject (lit "object:" ++ hex object);
  c ← artifact_new ACommit (lit "commit:" ++ hex commit);
  Ok [o; c].

(** The store's objects with the bytes [b] added under their digest, unless the
    digest is taken. *)
Definition with_object (m : gmap (list Z) (list Z)) (b : list Z) : gmap (list Z) (list Z) :=
  <[blake3 b := default b (m !! blake3 b)]> m.

(** [s'] is [s] after moving refs by [infos], in order, and storing the objects
    [stored], in order.  An object whose commit could not be appended stays. *)
Record moved (s s' : CairnStore) (infos : list CommitInfo) (stored : list (list Z)) : Prop := {
  mv_refs : refs s' = foldl (fun m i => <[ref_name i := ci_object i]> m) (refs s) infos;
  mv_commits : commits s' = foldl (fun m i => <[ci_id i := i]> m) (commits s) infos;
  mv_history : ref_history s' = foldl (fun m i => <[ref_name i := default [] (m !! ref_name i) ++ [ci_id i]]> m) (ref_history s) infos;
  mv_objects : objects s' = foldl with_object (objects s) stored }.

Lemma moved_refl s : moved s s [] [].
Proof. by split. Qed.
Lemma moved_trans s1 s2 s3 a b x y : moved s1 s2 a x -> moved s2 s3 b y -> moved s1 s3 (a ++ b) (x ++ y).
Proof. intros [R1 C1 H1 O1] [R2 C2 H2 O2]. split; rewrite foldl_app; congruence. Qed.
#[local] Hint Resolve moved_refl : core.

Lemma put_spec io bytes s r s' : put blake3 io bytes s = (r, s') ->
  next_sequence s' = next_sequence s
  /\ match r with
     | Ok id => id = blake3 bytes /\ moved s s' [] [bytes] /\ objects s' !! id = Some (default bytes (objects s !! id))
     | Err _ => moved s s' [] []
     end.
Proof.
  unfold put, put_object, object_id. destruct (objects s !! blake3 bytes) as [b|] eqn:Eo.
  - intros [= <- <-]. rewrite Eo. split; [done|]. split; [done|]. split; [|done]. split; try done. cbn. unfold with_object.
    rewrite Eo. cbn. by rewrite insert_id.
  - destruct (encode_object (blake3 bytes) bytes) as [rec|e]; [|intros [= <- <-]; split; [done|apply moved_refl]]. unfold append_record.
    destruct io as [k|]; intros [= <- <-]; [split; [done|by split]|]. split; [done|]. split; [done|]. split.
    + split; try done. cbn. unfold with_object. by rewrite Eo.
    + cbn. by rewrite lookup_insert_eq, Eo.
Qed.

(** The end of a write: the ref moved, or only objects stored. *)
Record write_done (name : str) (bytes : list Z) (pr rs : str) (now : Z) (s s' : CairnStore) (object commit : list Z) : Prop := {
  wd_object : object = blake3 bytes;
  wd_moved : moved s s' [mkInfo commit name object (refs s !! name) (mkProv pr rs now)] [bytes];
  wd_bytes : objects s' !! object = Some (default bytes (objects s !! object)) }.

Lemma move_ref_spec io name object pr rs now s : next_sequence s + 1 < 2 ^ 64 ->
  exists r s', move_ref blake3 oc TYPE_COMMIT io name object pr rs now s = Ret (r, s') /\ objects s' = objects s
    /\ next_sequence s' = next_sequence s + 1
    /\ match r with
       | Ok commit => moved s s' [mkInfo commit name object (refs s !! name) (mkProv pr rs now)] []
       | Err _ => moved s s' [] []
       end.
Proof.
  intros Hn. unfold move_ref, take_sequence. rewrite uadd_small by done. cbn [mbind outcome_bind].
  destruct (encode_ref_move _ _ _ _ _ _ _) as [rec|e]; [|eexists _, _; split; [reflexivity|done]].
  unfold append_record. destruct io as [k|]; eexists _, _; (split; [reflexivity|done]).
Qed.

(** A write that fails may have stored its object. *)
Lemma put_and_move_spec env name bytes pr rs s : next_sequence s + 1 < 2 ^ 64 ->
  exists r s', put_and_move env name bytes pr rs s = Ret (r, s') /\ next_sequence s' <= next_sequence s + 1
    /\ match r with
       | Ok (object, commit) => write_done name bytes pr rs (we_now env) s s' object commit
       | Err _ => exists stored, moved s s' [] stored /\ Forall (eq bytes) stored
       end.
Proof.
  intros Hn. unfold put_and_move. destruct (put blake3 (we_put env) bytes s) as [[object|e] s1] eqn:E; apply put_spec in E as (Hs & Ho);
    [|exists (Err e), s1; split; [done|]; split; [lia|]; by exists []].
  destruct Ho as (-> & Hm & Ho). unfold tx_commit, commit_updates. cbn [set_ref begin_tx puts ref_updates drain app].
  assert (Hone : exists stored, moved s s1 [] stored /\ Forall (eq bytes) stored) by (exists [bytes]; split; [done|by constructor]).
  assert (Hfail : forall e, exists r s', (Ret (Err e, s1) : outcome CairnError (result CairnError (list Z * list Z) * CairnStore)) = Ret (r, s')
    /\ next_sequence s' <= next_sequence s + 1
    /\ match r with Ok (o, c) => write_done name bytes pr rs (we_now env) s s' o c | Err _ => exists stored, moved s s' [] stored /\ Forall (eq bytes) stored end).
  { intros e. exists (Err e), s1. split; [done|]. split; [lia|done]. }
  destruct (validate_metadata pr rs) as [?|e]; [|apply Hfail]. destruct (validate_ref_name name) as [?|e]; [|apply Hfail].
  rewrite Ho. destruct (move_ref_spec (we_append env) name (blake3 bytes) pr rs (we_now env) s1) as (r & s2 & -> & Hob & Hs2 & Hr); [lia|].
  cbn [mbind outcome_bind]. assert (Hrefs : refs s1 = refs s) by apply (mv_refs _ _ _ _ Hm). rewrite Hrefs in Hr. eexists _, _. split; [done|]. split; [lia|].
  destruct r as [commit|e]; [|exists [bytes]; split; [by apply (moved_trans _ _ _ [] [] [bytes] [] Hm)|by constructor]].
  split; [done|by apply (moved_trans _ _ _ [] _ [bytes] [] Hm)|]. by rewrite Hob.
Qed.

(** ** A write on record *)

(** The invocation [i] accounts for the commit [info] made under [g]. *)
Record on_record (g : AuthorityGrant) (info : CommitInfo) (i : Invocation) : Prop := {
  or_authority : auth_contains (g_authority g) UPDATE_REF = true;
  or_scope : scope_contains (g_scope g) (ref_name info) = true;
  or_principal : principal (provenance info) = pr_name (g_holder g);
  or_actor : in_actor i = pr_id (g_holder g);
  or_used : in_authority i = UPDATE_REF;
  or_granted : in_scope i = g_scope g;
  or_chain : in_chain i = g_chain g;
  or_outputs : in_outputs i = [mkArtifact AObject (lit "object:" ++ hex (ci_object info)); mkArtifact ACommit (lit "commit:" ++ hex (ci_id info))] }.

Lemma write_artifacts_ok object commit :
  write_artifacts object commit = Ok [mkArtifact AObject (lit "object:" ++ hex object); mkArtifact ACommit (lit "commit:" ++ hex commit)].
Proof. unfold write_artifacts, artifact_new. rewrite !bool_decide_eq_false_2 by done. reflexivity. Qed.

(** Recording cannot fail once the grant was checked for UPDATE_REF. *)
Lemma write_is_recorded g action reason object commit now : auth_contains (g_authority g) UPDATE_REF = true -> action <> [] -> reason <> [] ->
  exists outs i, write_artifacts object commit = Ok outs /\ invocation_record blake3 g UPDATE_REF action reason outs now = Ok i
    /\ in_action i = action /\ forall info, scope_contains (g_scope g) (ref_name info) = true -> principal (provenance info) = pr_name (g_holder g) ->
      ci_object info = object -> ci_id info = commit -> on_record g info i.
Proof.
  intros Hg Ha Hr. rewrite write_artifacts_ok. eexists _, _. split; [done|]. split.
  - unfold invocation_record. rewrite !bool_decide_eq_false_2 by done. cbn [orb]. rewrite Hg. reflexivity.
  - split; [done|]. intros info Hs Hp <- <-. split; done.
Qed.
End Write.
