(* ===== verification/Runtime.v ===== *)
(** * The guest runtime (spikes/dezh-runtime/src/lib.rs)

    WebAssembly guests that read and write Cairn refs through granted handles.
    The runtime composes the contract of [Contract], the grants of [Identity] and
    the object store of [CairnLog].  WebAssembly itself is third-party code: the
    compiler, the linker's resolution of imports, the initialisation of the module
    and the lookup of [run] are parameters, and the guest is any program, as in
    [HostCaps]. *)

From Stdlib Require Import ZArith Lia String.
From stdpp Require Import base option strings numbers list gmap.
From S2P Require Import Prelude Text CairnLog Identity HostCaps Contract Provenance.

(** The texts inside [Store] and [Identity] are kept as the errors they print. *)
Inductive RuntimeError :=
| RNoSuchHandle | ROpNotPermitted | RNoRef | RNoObject | RBadMemory | RStore (e : CairnError) | RIdentity (e : IdentityError)
| RInvalidGrantScope | RContract (detail : str).
Definition runtime_code (e : RuntimeError) : Z :=
  match e with
  | RNoSuchHandle => -1 | ROpNotPermitted => -2 | RNoRef => -3 | RNoObject => -4 | RBadMemory => -5 | RStore _ => -6 | RIdentity _ => -7
  | RInvalidGrantScope => -8 | RContract _ => -9
  end.

Record RuntimeCapability := mkRtCap { rc_ref_name : str; rc_grant : AuthorityGrant }.
Record RuntimeState := mkRuntime { rt_cairn : CairnStore; rt_caps : list RuntimeCapability; rt_invocations : list Invocation }.

Definition rt_cap_new (name : str) (g : AuthorityGrant) : result RuntimeError RuntimeCapability :=
  match scope_new name with
  | Err _ => Err RInvalidGrantScope
  | Ok ref_scope => if negb (scope_contains (g_scope g) ref_scope) then Err RInvalidGrantScope else Ok (mkRtCap name g)
  end.
Definition rt_install (cap : RuntimeCapability) (s : RuntimeState) : Z * RuntimeState :=
  (wrap 32 (zlen (rt_caps s)), mkRuntime (rt_cairn s) (rt_caps s ++ [cap]) (rt_invocations s)).
Definition rt_check (handle required : Z) (s : RuntimeState) : result RuntimeError RuntimeCapability :=
  match rt_caps s !! Z.to_nat handle with
  | None => Err RNoSuchHandle
  | Some cap => if negb (auth_contains (g_authority (rc_grant cap)) required) then Err ROpNotPermitted else Ok cap
  end.
Definition runtime_new (cairn : CairnStore) : RuntimeState := mkRuntime cairn [] [].
Definition grant_ref (name : str) (g : AuthorityGrant) (s : RuntimeState) : result RuntimeError Z * RuntimeState :=
  match rt_cap_new name g with
  | Err e => (Err e, s)
  | Ok cap => let '(h, s) := rt_install cap s in (Ok h, s)
  end.

Definition rt_range (ptr len mem_len : Z) : result RuntimeError (Z * Z) :=
  match checked_add ptr len with
  | None => Err RBadMemory
  | Some e => if mem_len <? e then Err RBadMemory else Ok (ptr, e)
  end.

Section Runtime.
Context (blake3 : list Z -> list Z) (oc : bool).

(** ** The host functions *)

Definition rt_read_inner (handle out_ptr out_cap : Z) (mem : memory) (s : RuntimeState) : result RuntimeError (Z * memory) :=
  match mem with
  | None => Err RBadMemory
  | Some data =>
    cap ← rt_check handle (auth_union READ_REF READ_OBJECT) s;
    object_id ← ok_or (get_ref (rc_ref_name cap) (rt_cairn s)) RNoRef;
    bytes ← ok_or (get object_id (rt_cairn s)) RNoObject;
    let n := Z.min (zlen bytes) out_cap in
    '(start, _) ← rt_range out_ptr (wrap 32 n) (zlen data);
    Ok (n, Some (update_slice data (Z.to_nat start) (take (Z.to_nat n) bytes)))
  end.
Definition rt_read (handle out_ptr out_cap : Z) (mem : memory) (s : RuntimeState) : Z * memory * RuntimeState :=
  match rt_read_inner handle out_ptr out_cap mem s with
  | Ok (n, mem) => (as_i32 n, mem, s)
  | Err e => (runtime_code e, mem, s)
  end.

Definition record_write_invocation (g : AuthorityGrant) (object commit : list Z) (now : Z) : result RuntimeError Invocation :=
  match write_artifacts object commit with
  | Err e => Err (RIdentity e)
  | Ok outputs =>
    match invocation_record blake3 g UPDATE_REF (lit "cairn.commit") (lit "wasm cap_write") outputs now with
    | Err e => Err (RIdentity e)
    | Ok i => Ok i
    end
  end.

Definition rt_write_inner (env : WriteEnv) (handle src_ptr src_len : Z) (mem : memory) (s : RuntimeState)
  : outcome CairnError (result RuntimeError Z * RuntimeState) :=
  match mem with
  | None => Ret (Err RBadMemory, s)
  | Some data =>
    match rt_check handle UPDATE_REF s with
    | Err e => Ret (Err e, s)
    | Ok cap =>
      match rt_range src_ptr src_len (zlen data) with
      | Err e => Ret (Err e, s)
      | Ok r =>
        let bytes := window data r in
        '(w, cairn) ← put_and_move blake3 oc env (rc_ref_name cap) bytes (pr_name (g_holder (rc_grant cap))) (lit "wasm cap_write") (rt_cairn s);
        let s := mkRuntime cairn (rt_caps s) (rt_invocations s) in
        Ret (match w with
             | Err e => (Err (RStore e), s)
             | Ok (object, commit) =>
               match record_write_invocation (rc_grant cap) object commit (we_recorded env) with
               | Err e => (Err e, s)
               | Ok invocation => (Ok src_len, mkRuntime cairn (rt_caps s) (rt_invocations s ++ [invocation]))
               end
             end)
      end
    end
  end.
Definition rt_write (env : WriteEnv) (handle src_ptr src_len : Z) (mem : memory) (s : RuntimeState)
  : outcome CairnError (Z * memory * RuntimeState) :=
  '(r, s) ← rt_write_inner env handle src_ptr src_len mem s;
  Ret (match r with Ok n => as_i32 n | Err e => runtime_code e end, mem, s).

(** What [build_linker] offers. *)
Inductive RtCall := RtRead (handle out_ptr out_cap : Z) | RtWrite (handle src_ptr src_len : Z).
Definition rt_call (env : WriteEnv) (c : RtCall) (mem : memory) (s : RuntimeState) : outcome CairnError (Z * memory * RuntimeState) :=
  match c with RtRead h p n => Ret (rt_read h p n mem s) | RtWrite h p n => rt_write env h p n mem s end.

(** A guest: what it has seen decides whether it has returned, or which host
    function it calls next on which memory.  The first [n] calls of a run: whether
    the guest has returned by then ([false]: it wants another), what it was
    answered, and the state. *)
Definition RtGuest : Type := list (Z * memory) -> option (memory * RtCall).
Fixpoint rt_run (n : nat) (envs : nat -> WriteEnv) (g : RtGuest) (seen : list (Z * memory)) (s : RuntimeState)
  : outcome CairnError (bool * list (Z * memory) * RuntimeState) :=
  match g seen with
  | None => Ret (true, seen, s)
  | Some (mem, c) =>
    match n with
    | O => Ret (false, seen, s)
    | S n => '(r, mem, s) ← rt_call (envs n) c mem s; rt_run n envs g (seen ++ [(r, mem)]) s
    end
  end.

(** ** Every write is on record *)

(** What [RuntimeCapability::new] guarantees. *)
Definition rt_cap_ok (c : RuntimeCapability) : Prop := scope_contains (g_scope (rc_grant c)) (rc_ref_name c) = true.

Definition grant_all (gs : list (str * AuthorityGrant)) (s : RuntimeState) : RuntimeState :=
  foldl (fun s p => (grant_ref p.1 p.2 s).2) s gs.

Lemma rt_cap_new_ok name g c : rt_cap_new name g = Ok c -> rt_cap_ok c /\ c = mkRtCap name g.
Proof.
  unfold rt_cap_new, scope_new. destruct (bool_decide (name = []) || starts_with 47 name || ends_with 47 name); [done|].
  destruct (scope_contains (g_scope g) name) eqn:E; [|done]. intros [= <-]. done.
Qed.
Lemma grant_all_ok gs : forall s, Forall rt_cap_ok (rt_caps s) -> Forall rt_cap_ok (rt_caps (grant_all gs s))
  /\ rt_cairn (grant_all gs s) = rt_cairn s /\ rt_invocations (grant_all gs s) = rt_invocations s.
Proof.
  induction gs as [|[name g] gs IH]; intros s Hs; [done|]. unfold grant_all. cbn [foldl fst snd]. fold (grant_all gs). unfold grant_ref.
  destruct (rt_cap_new name g) as [c|e] eqn:E; [|by apply IH]. apply rt_cap_new_ok in E as [Hc _]. apply (IH (mkRuntime _ _ _)). cbn.
  apply Forall_app. split; [done|]. by constructor.
Qed.

(** The writes of a run: the commits made and their invocations, in step, and the
    objects stored, each handed in through a handle that may write. *)
Record accounted (caps : list RuntimeCapability) (s s' : RuntimeState) (writes : list (CommitInfo * Invocation)) (stored : list (list Z)) : Prop := {
  ac_caps : rt_caps s' = rt_caps s;
  ac_moved : moved blake3 (rt_cairn s) (rt_cairn s') writes.*1 stored;
  ac_invocations : rt_invocations s' = rt_invocations s ++ writes.*2;
  ac_each : Forall (fun w => exists cap, cap ∈ caps /\ ref_name w.1 = rc_ref_name cap /\ on_record (rc_grant cap) w.1 w.2) writes;
  ac_stored : Forall (fun _ => exists cap, cap ∈ caps /\ auth_contains (g_authority (rc_grant cap)) UPDATE_REF = true) stored }.

Lemma accounted_refl caps s : accounted caps s s [] [].
Proof. split; [done|apply moved_refl|by rewrite app_nil_r|constructor|constructor]. Qed.
Lemma accounted_trans caps s1 s2 s3 a b x y : accounted caps s1 s2 a x -> accounted caps s2 s3 b y -> accounted caps s1 s3 (a ++ b) (x ++ y).
Proof.
  intros [C1 M1 I1 E1 S1] [C2 M2 I2 E2 S2]. split; [congruence| | |by apply Forall_app|by apply Forall_app].
  - rewrite fmap_app. by eapply moved_trans.
  - by rewrite I2, I1, fmap_app, app_assoc.
Qed.

Lemma rt_check_ok handle required s cap : rt_check handle required s = Ok cap ->
  cap ∈ rt_caps s /\ auth_contains (g_authority (rc_grant cap)) required = true.
Proof.
  unfold rt_check. destruct (rt_caps s !! Z.to_nat handle) eqn:E; [|done]. destruct (auth_contains _ required) eqn:Ea; [|done].
  intros [= <-]. split; [by eapply list_elem_of_lookup_2|done].
Qed.

Lemma rt_write_accounted env handle src_ptr src_len mem s : Forall rt_cap_ok (rt_caps s) -> next_sequence (rt_cairn s) + 1 < 2 ^ 64 ->
  exists r s' writes stored, rt_write_inner env handle src_ptr src_len mem s = Ret (r, s') /\ accounted (rt_caps s) s s' writes stored
    /\ next_sequence (rt_cairn s') <= next_sequence (rt_cairn s) + 1.
Proof.
  intros Hok Hn. assert (Hfail : forall e, exists r s' writes stored, (Ret (Err e, s) : outcome CairnError (result RuntimeError Z * RuntimeState)) = Ret (r, s')
    /\ accounted (rt_caps s) s s' writes stored /\ next_sequence (rt_cairn s') <= next_sequence (rt_cairn s) + 1).
  { intros e. exists (Err e), s, [], []. split; [done|]. split; [apply accounted_refl|lia]. }
  unfold rt_write_inner. destruct mem as [data|]; [|apply Hfail]. destruct (rt_check handle UPDATE_REF s) as [cap|e] eqn:Ec; [|apply Hfail].
  destruct (rt_range src_ptr src_len (zlen data)) as [rg|e]; [|apply Hfail]. clear Hfail. apply rt_check_ok in Ec as [Hin Hg].
  destruct (put_and_move_spec blake3 oc env (rc_ref_name cap) (window data rg) (pr_name (g_holder (rc_grant cap))) (lit "wasm cap_write") (rt_cairn s) Hn)
    as (w & cairn & -> & Hs & Hw). cbn [mbind outcome_bind]. rewrite Forall_forall in Hok. specialize (Hok _ Hin).
  assert (Hst : forall l : list (list Z), Forall (fun _ => exists cap, cap ∈ rt_caps s /\ auth_contains (g_authority (rc_grant cap)) UPDATE_REF = true) l)
    by (intros l; apply Forall_forall; eauto).
  destruct w as [[object commit]|e].
  - destruct (write_is_recorded blake3 (rc_grant cap) (lit "cairn.commit") (lit "wasm cap_write") object commit (we_recorded env) Hg) as (outs & i & Eo & Ei & _ & Hi);
      [done|done|]. unfold record_write_invocation. rewrite Eo, Ei. destruct Hw as [Hobj Hm _]. cbn [rt_caps rt_invocations].
    eexists _, _, [(_, i)], _. split; [done|]. split; [|done]. split; [done|exact Hm|done| |apply Hst]. constructor; [|constructor].
    exists cap. split; [done|]. split; [done|]. by apply Hi.
  - destruct Hw as (stored & Hm & _). exists (Err (RStore e)), (mkRuntime cairn (rt_caps s) (rt_invocations s)), [], stored.
    split; [done|]. split; [split; [done|exact Hm|by rewrite app_nil_r|constructor|apply Hst]|done].
Qed.

Lemma rt_call_accounted env c mem s : Forall rt_cap_ok (rt_caps s) -> next_sequence (rt_cairn s) + 1 < 2 ^ 64 ->
  exists r mem' s' writes stored, rt_call env c mem s = Ret (r, mem', s') /\ accounted (rt_caps s) s s' writes stored
    /\ next_sequence (rt_cairn s') <= next_sequence (rt_cairn s) + 1.
Proof.
  intros Hok Hn. destruct c as [h p n|h p n]; cbn.
  - unfold rt_read. destruct (rt_read_inner h p n mem s) as [[k m]|e]; eexists _, _, _, [], []; (split; [done|]; split; [apply accounted_refl|lia]).
  - unfold rt_write. destruct (rt_write_accounted env h p n mem s Hok Hn) as (r & s' & writes & stored & -> & Ha & Hs). cbn [mbind outcome_bind]. by eexists _, _, _, _, _.
Qed.

Lemma rt_run_accounted n envs g : forall seen s, Forall rt_cap_ok (rt_caps s) -> next_sequence (rt_cairn s) + Z.of_nat n < 2 ^ 64 ->
  exists fin seen' s' writes stored, rt_run n envs g seen s = Ret (fin, seen', s') /\ accounted (rt_caps s) s s' writes stored.
Proof.
  induction n as [|n IH]; intros seen s Hok Hn; cbn [rt_run]; (destruct (g seen) as [[mem c]|]; [|eexists _, _, _, [], []; split; [done|apply accounted_refl]]);
    [eexists _, _, _, [], []; split; [done|apply accounted_refl]|].
  destruct (rt_call_accounted (envs n) c mem s Hok) as (r & mem' & s1 & w1 & x1 & -> & Ha & Hs); [lia|]. cbn [mbind outcome_bind].
  destruct (IH (seen ++ [(r, mem')]) s1) as (fin & seen2 & s2 & w2 & x2 & -> & Hb); [by rewrite (ac_caps _ _ _ _ _ Ha)|lia|].
  rewrite (ac_caps _ _ _ _ _ Ha) in Hb. eexists _, _, _, _, _. split; [done|]. by eapply accounted_trans.
Qed.

(** C22: After any number of host calls of any WebAssembly guest, finished or not, and however the
    store's appends fail (while its 64-bit sequence numbers last): no host call panics; the refs,
    commits and histories are those at the start with exactly the new commits applied in order, and the
    i-th invocation accounts for the i-th new commit, naming its object and commit and the holder, scope
    and delegation chain of a granted handle for that very ref whose grant covers the ref and holds
    UPDATE_REF; the objects have grown exactly by values stored through a handle that holds UPDATE_REF;
    a value whose commit could not be appended stays without a record. *)
Theorem every_guest_write_is_on_record (n : nat) (envs : nat -> WriteEnv) (g : RtGuest) (cairn : CairnStore) (gs : list (str * AuthorityGrant)) :
  next_sequence cairn + Z.of_nat n < 2 ^ 64 ->
  let s := grant_all gs (runtime_new cairn) in
  exists fin seen s' writes stored, rt_run n envs g [] s = Ret (fin, seen, s')
    /\ moved blake3 cairn (rt_cairn s') writes.*1 stored /\ rt_invocations s' = writes.*2
    /\ Forall (fun w => exists cap, cap ∈ rt_caps s /\ ref_name w.1 = rc_ref_name cap /\ on_record (rc_grant cap) w.1 w.2) writes
    /\ Forall (fun _ => exists cap, cap ∈ rt_caps s /\ auth_contains (g_authority (rc_grant cap)) UPDATE_REF = true) stored.
Proof.
  intros Hn s. destruct (grant_all_ok gs (runtime_new cairn)) as (Hok & Hc & Hi); [constructor|]. fold s in Hok, Hc, Hi. cbn in Hc, Hi.
  destruct (rt_run_accounted n envs g [] s Hok) as (fin & seen & s' & writes & stored & E & [_ Hm Hinv He Hst]); [by rewrite Hc|].
  exists fin, seen, s', writes, stored. rewrite <- Hc. rewrite Hi in Hinv. done.
Qed.

(** ** Starting a guest *)

Definition HOST_SURFACE : list HostImport := [ICapRead; ICapWrite].
Definition rt_linker : list (str * str * FuncType) :=
  [(DEZH_IMPORT_MODULE, lit "cap_read", mkFuncType [TI32; TI32; TI32] [TI32]);
   (DEZH_IMPORT_MODULE, lit "cap_write", mkFuncType [TI32; TI32; TI32] [TI32])].

(** What is third-party here: [compile] is [Module::new]; [linker.instantiate] is
    the resolution of the imports ([resolves]), then the module's start function,
    guest code that may call the host ([start]), and the way the initialisation
    ends given what that function was answered ([initialised]: an out-of-bounds
    segment, a trap or a lack of memory is an error); [typed_run] is
    [get_typed_func]; [behaviour] is the exported function. *)
Section Wasm.
Context (compile : list Z -> result str WasmModule) (blake3_hex : list Z -> str)
        (resolves : list (str * str * FuncType) -> WasmModule -> bool) (start : WasmModule -> RtGuest)
        (initialised : WasmModule -> list (Z * memory) -> result str unit) (typed_run : WasmModule -> bool) (behaviour : WasmModule -> RtGuest).

Fixpoint join_text (sep : str) (parts : list str) : str :=
  match parts with [] => [] | [p] => p | p :: ps => p ++ sep ++ join_text sep ps end.
Definition enforce_contract (wasm : list Z) : result RuntimeError unit :=
  match validate_module_with compile blake3_hex wasm HOST_SURFACE with
  | Ok _ => Ok tt
  | Err violations => Err (RContract (join_text (lit "; ") (fmt_violation <$> violations)))
  end.

(** Why a guest does not start. *)
Inductive StartError := Refused (e : RuntimeError) | NotWasm (e : str) | Unresolved | InitFailed (e : str) | NoEntry.
Inductive Started := Failed (e : StartError) | Starting | Ready (m : WasmModule).
(** [RuntimeInstance::new], when the start function makes up to [n] host calls. *)
Definition instance_new (n : nat) (envs : nat -> WriteEnv) (wasm : list Z) (s : RuntimeState) : outcome CairnError (Started * RuntimeState) :=
  match enforce_contract wasm with
  | Err e => Ret (Failed (Refused e), s)
  | Ok _ =>
    match compile wasm with
    | Err e => Ret (Failed (NotWasm e), s)
    | Ok m =>
      if negb (resolves rt_linker m) then Ret (Failed Unresolved, s) else
      '(fin, seen, s) ← rt_run n envs (start m) [] s;
      if negb fin then Ret (Starting, s) else
      match initialised m seen with
      | Err e => Ret (Failed (InitFailed e), s)
      | Ok _ => Ret (if negb (typed_run m) then Failed NoEntry else Ready m, s)
      end
    end
  end.
(** [run_guest]: start and call [run], with up to [n] and [n'] host calls. *)
Definition run_guest (n n' : nat) (envs envs' : nat -> WriteEnv) (wasm : list Z) (s : RuntimeState)
  : outcome CairnError (Started * option (bool * list (Z * memory)) * RuntimeState) :=
  '(st, s) ← instance_new n envs wasm s;
  match st with
  | Ready m => '(fin, seen, s) ← rt_run n' envs' (behaviour m) [] s; Ret (st, Some (fin, seen), s)
  | _ => Ret (st, None, s)
  end.

(** What wasmtime documents: export names are unique; an import is unresolved
    only when the linker has no definition of it at its type; a function exported
    at the requested type is found. *)
Context (unique_exports : forall wasm m, compile wasm = Ok m -> NoDup (m_exports m).*1)
        (resolves_defined : forall linker m, Forall (fun i => exists m n f, i = (m, n, EFunc f) /\ (m, n, f) ∈ linker) (m_imports m) -> resolves linker m = true)
        (typed_run_found : forall m, (ENTRYPOINT_EXPORT, EFunc (mkFuncType [] [TI64])) ∈ m_exports m -> typed_run m = true).

(** The linker defines every function of the surface at the type the contract
    asks for. *)
Lemma linker_covers_surface i : import_ok HOST_SURFACE i -> exists m n f, i = (m, n, EFunc f) /\ (m, n, f) ∈ rt_linker.
Proof.
  intros (h & Hh & ->). eexists _, _, _. split; [done|]. unfold HOST_SURFACE in Hh. rewrite !elem_of_cons, elem_of_nil in Hh.
  destruct Hh as [->|[->|[]]]; [by left|by right; left].
Qed.

(** C24: The contract gate is sound and complete for linking, given what wasmtime documents of export
    names, import resolution and typed lookup: a guest is refused by the contract, with nothing changed,
    exactly when its module does not compile or does not import only this runtime's host functions at
    their exact types and export a memory and run : () -> i64; an accepted one never fails at compiling,
    at resolving its imports or at the lookup of its entry point, so what is left is its own
    initialisation (start function, segments, memory), which may fail, not end, or make it ready. *)
Theorem an_accepted_guest_links (n : nat) (envs : nat -> WriteEnv) (wasm : list Z) (cairn : CairnStore) (gs : list (str * AuthorityGrant)) :
  next_sequence cairn + Z.of_nat n < 2 ^ 64 ->
  let s := grant_all gs (runtime_new cairn) in
  exists st s', instance_new n envs wasm s = Ret (st, s') /\
  match st with
  | Failed (Refused e) => (exists d, e = RContract d) /\ s' = s /\ ~ exists m, compile wasm = Ok m /\ honours HOST_SURFACE m
  | Failed (InitFailed _) | Starting => exists m, compile wasm = Ok m /\ honours HOST_SURFACE m
  | Ready m => compile wasm = Ok m /\ honours HOST_SURFACE m
  | Failed (NotWasm _) | Failed Unresolved | Failed NoEntry => False
  end.
Proof.
  intros Hn s. destruct (grant_all_ok gs (runtime_new cairn)) as (Hok & Hc & _); [constructor|]. fold s in Hok, Hc. cbn in Hc.
  pose proof (the_contract_is_exact compile blake3_hex unique_exports wasm HOST_SURFACE) as Hv. unfold instance_new, enforce_contract.
  destruct (validate_module_with compile blake3_hex wasm HOST_SURFACE) as [r|vs].
  - destruct Hv as [[m [Em Hm]] _]; [by eexists|]. rewrite Em. pose proof Hm as [Hi _ Hr].
    rewrite resolves_defined; [|eapply Forall_impl; [exact Hi|apply linker_covers_surface]]. cbn [negb].
    destruct (rt_run_accounted n envs (start m) [] s Hok) as (fin & seen & s' & _ & _ & -> & _); [by rewrite Hc|]. cbn [mbind outcome_bind].
    destruct fin; cbn [negb]; [|by eexists _, _; split; [done|]; exists m].
    destruct (initialised m seen) as [?|e]; [|by eexists _, _; split; [done|]; exists m].
    eexists _, _. split; [done|]. by rewrite typed_run_found.
  - eexists _, _. split; [done|]. cbn. split; [by eexists|]. split; [done|]. intros Hm. apply Hv in Hm as [r Hr]. discriminate Hr.
Qed.
End Wasm.
End Runtime.

(** ** At work *)

(** A guest that writes four bytes through handle 0 twice, the first time with a
    full disk, then tries the handle it only may read. *)
Definition writing_guest : RtGuest := fun seen =>
  match length seen with
  | O | 1%nat => Some (Some [104; 101; 121; 33], RtWrite 0 0 4)
  | 2%nat => Some (Some [104; 101; 121; 33], RtWrite 1 0 4)
  | 3%nat => Some (Some [0; 0; 0; 0], RtRead 1 0 4)
  | _ => None
  end.
Definition demo_grants : list (str * AuthorityGrant) :=
  [(lit "refs/projects/dezh/docs", demo_child);
   (lit "refs/projects/dezh/docs", mkGrant ali (lit "refs/projects") (auth_union READ_REF READ_OBJECT) [])].
Definition full_then_fine (k : nat) : WriteEnv := mkWriteEnv None (if (k =? 3)%nat then Some 5%nat else None) 1 2.

Definition demo_run : outcome CairnError (bool * list (Z * memory) * RuntimeState) :=
  rt_run demo_digest true 4 full_then_fine writing_guest [] (grant_all demo_grants (runtime_new (empty_store [] 0))).

(** The object of the first write, whose commit failed, stays; the second write
    finds it there. *)
Lemma every_guest_write_is_on_record_witness : exists seen s' writes stored,
  demo_run = Ret (true, seen, s') /\ rt_invocations s' = writes.*2 /\ moved demo_digest (empty_store [] 0) (rt_cairn s') writes.*1 stored
  /\ seen.*1 = [-6; 4; -2; 4] /\ in_actor <$> writes.*2 = [pr_id writer].
Proof.
  destruct (every_guest_write_is_on_record demo_digest true 4 full_then_fine writing_guest (empty_store [] 0) demo_grants)
    as (fin & seen & s' & writes & stored & E & Hm & Hi & _); [reflexivity|]. fold demo_run in E.
  assert (H : match demo_run with Ret (f, h, s) => (f, h.*1, in_actor <$> rt_invocations s) | _ => (false, [], []) end = (true, [-6; 4; -2; 4], [pr_id writer]))
    by (vm_compute; reflexivity).
  rewrite E, Hi in H. injection H as H0 H1 H2. subst fin. exists seen, s', writes, stored.
  split; [exact E|]. split; [exact Hi|]. split; [exact Hm|]. split; assumption.
Defined.

(** WebAssembly with the test module of [Contract]. *)
Definition demo_resolves (linker : list (str * str * FuncType)) (m : WasmModule) : bool :=
  forallb (fun i => existsb (fun d => match i.2 with EFunc f => bool_decide (i.1 = d.1) && bool_decide (function_sig f = function_sig d.2) | _ => false end) linker) (m_imports m).
Definition demo_typed_run (m : WasmModule) : bool :=
  existsb (fun e => match e.2 with EFunc f => bool_decide (e.1 = ENTRYPOINT_EXPORT) && bool_decide (function_sig f = mkSig [] [KI64]) | _ => false end) (m_exports m).

Lemma demo_resolves_defined linker m :
  Forall (fun i => exists m n f, i = (m, n, EFunc f) /\ (m, n, f) ∈ linker) (m_imports m) -> demo_resolves linker m = true.
Proof.
  intros H. apply forallb_forall. intros i Hi. rewrite Forall_forall in H. destruct (H i) as (mm & n & f & -> & Hl); [by apply list_elem_of_In|].
  apply existsb_exists. exists (mm, n, f). split; [by apply list_elem_of_In|]. cbn. by rewrite !bool_decide_eq_true_2.
Qed.
Lemma demo_typed_run_found m : (ENTRYPOINT_EXPORT, EFunc (mkFuncType [] [TI64])) ∈ m_exports m -> demo_typed_run m = true.
Proof. intros H. apply existsb_exists. eexists. split; [by apply list_elem_of_In|]. reflexivity. Qed.

(** The test module asks for [cap_print], which this host does not offer. *)
Definition narrow_module : WasmModule :=
  mkModule ((fun h => (DEZH_IMPORT_MODULE, import_name h, EFunc (host_type h))) <$> HOST_SURFACE) (m_exports demo_module).
Definition two_modules (wasm : list Z) : result str WasmModule :=
  match wasm with [1] => Ok demo_module | [2] => Ok narrow_module | _ => Err (lit "bad magic") end.
Lemma two_modules_unique wasm m : two_modules wasm = Ok m -> NoDup (m_exports m).*1.
Proof.
  intros H. assert (m_exports m = m_exports demo_module) as ->.
  { unfold two_modules in H. repeat case_match; simplify_eq; reflexivity. }
  apply (demo_unique_exports [1]). reflexivity.
Qed.

(** A start function that makes no calls and ends well. *)
Definition idle_start (m : WasmModule) : RtGuest := fun _ => None.
Definition ends_well (m : WasmModule) (seen : list (Z * memory)) : result str unit := Ok tt.
Definition demo_start (wasm : list Z) : outcome CairnError (Started * RuntimeState) :=
  instance_new demo_digest true two_modules id demo_resolves idle_start ends_well demo_typed_run 4 full_then_fine wasm
    (grant_all demo_grants (runtime_new (empty_store [] 0))).

Lemma an_accepted_guest_links_witness :
  (exists m s', demo_start [2] = Ret (Ready m, s') /\ honours HOST_SURFACE m)
  /\ (exists d s', demo_start [1] = Ret (Failed (Refused (RContract d)), s')
      /\ ~ exists m, two_modules [1] = Ok m /\ honours HOST_SURFACE m).
Proof.
  pose proof (fun wasm => an_accepted_guest_links demo_digest true two_modules id demo_resolves idle_start ends_well demo_typed_run
    two_modules_unique demo_resolves_defined demo_typed_run_found 4 full_then_fine wasm (empty_store [] 0) demo_grants eq_refl) as H. split.
  - destruct (H [2]) as (st & s' & E & Hst). fold (demo_start [2]) in E.
    assert (Hc : match demo_start [2] with Ret (Ready _, _) => true | _ => false end = true) by (vm_compute; reflexivity).
    rewrite E in Hc. destruct st as [e| |m]; [discriminate Hc|discriminate Hc|]. exists m, s'. split; [exact E|exact (proj2 Hst)].
  - destruct (H [1]) as (st & s' & E & Hst). fold (demo_start [1]) in E.
    assert (Hc : match demo_start [1] with Ret (Failed (Refused _), _) => true | _ => false end = true) by (vm_compute; reflexivity).
    rewrite E in Hc. destruct st as [e| |m]; [|discriminate Hc|discriminate Hc]. destruct e as [e|e| |e|]; try discriminate Hc.
    destruct Hst as ([d ->] & _ & Hn). exists d, s'. split; [exact E|exact Hn].
Defined.
