(* ===== verification/Personality.v ===== *)
(** * The Linux personality (spikes/dezh-linux/src/lib.rs)

    A file-system view for legacy programs: paths are mapped through mounts to
    Cairn refs, every operation is checked against the mount's grant, and every
    write is a recorded commit.  [LinuxPersonality] composes the object store of
    [CairnLog] with the grants of [Identity]; a write is the recorded write of
    [Provenance]. *)

From Stdlib Require Import ZArith Lia String Sorted.
From stdpp Require Import base option strings numbers list gmap.
From S2P Require Import Prelude Text CairnLog Identity Provenance.

Definition O_RDONLY : Z := 0.
Definition O_WRONLY : Z := 1.
Definition O_RDWR : Z := 2.
Definition O_CREAT : Z := 4.
Definition O_TRUNC : Z := 8.

Inductive LinuxErrno := Eacces | Ebadf | Eexist | Einval | Enoent | Enosys.
Definition errno_code (e : LinuxErrno) : Z :=
  match e with Eacces => 13 | Ebadf => 9 | Eexist => 17 | Einval => 22 | Enoent => 2 | Enosys => 38 end.

(** ** Paths *)

Definition DOT : str := lit ".".
Definition DOTDOT : str := lit "..".

(** The loop over the components. *)
Fixpoint normal_parts (parts : list str) : result LinuxErrno (list str) :=
  match parts with
  | [] => Ok []
  | p :: parts =>
    if str_eqb p [] || str_eqb p DOT then normal_parts parts
    else if str_eqb p DOTDOT then Err Eacces
    else ps ← normal_parts parts; Ok (p :: ps)
  end.
Definition normalize_guest_path (path : str) : result LinuxErrno str :=
  if negb (starts_with 47 path) then Err Einval else
  parts ← normal_parts (split 47 path);
  Ok (47 :: join 47 parts).

Definition normalize_ref_prefix (prefix : str) : result LinuxErrno str :=
  if bool_decide (prefix = []) || starts_with 47 prefix || ends_with 47 prefix then Err Einval else
  if existsb (fun p => str_eqb p [] || str_eqb p DOT || str_eqb p DOTDOT) (split 47 prefix) then Err Einval else Ok prefix.

Definition path_suffix (path prefix : str) : option str :=
  if str_eqb path prefix then Some [] else rest ← strip_prefix prefix path; strip_char_prefix 47 rest.
Definition ref_suffix (name prefix : str) : option str :=
  if str_eqb name prefix then Some [] else rest ← strip_prefix prefix name; strip_char_prefix 47 rest.

(** ** Mounts, files and the server *)

Record Mount := mkMount { guest_prefix : str; ref_prefix : str; mt_grant : AuthorityGrant }.
Definition mount_new (guest ref : str) (g : AuthorityGrant) : result LinuxErrno Mount :=
  guest ← normalize_guest_path guest;
  ref ← normalize_ref_prefix ref;
  match scope_new ref with
  | Err _ => Err Einval
  | Ok ref_scope => if negb (scope_contains (g_scope g) ref_scope) then Err Eacces else Ok (mkMount guest ref g)
  end.

Record OpenFile := mkFile { fl_ref_name : str; readable : bool; writable : bool; position : Z }.
Record WriteReceipt := mkReceipt { bytes_written : Z; rc_object : list Z; rc_commit : list Z }.
Record LinuxPersonality := mkLinux {
  lx_cairn : CairnStore; lx_mounts : list Mount; lx_files : gmap Z OpenFile; lx_next_fd : Z; lx_invocations : list Invocation }.

Definition linux_new (cairn : CairnStore) : LinuxPersonality := mkLinux cairn [] ∅ 3 [].

(** [sort_by_key] with [Reverse(len)]: a stable sort, longest prefix first. *)
Definition prefix_len (m : Mount) : Z := zlen (utf8_encode (guest_prefix m)).
Fixpoint insert_mount (m : Mount) (l : list Mount) : list Mount :=
  match l with [] => [m] | x :: l => if prefix_len x <? prefix_len m then m :: x :: l else x :: insert_mount m l end.
Definition sort_mounts (l : list Mount) : list Mount := foldl (fun acc m => insert_mount m acc) [] l.
Definition lx_mount (m : Mount) (s : LinuxPersonality) : LinuxPersonality :=
  mkLinux (lx_cairn s) (sort_mounts (lx_mounts s ++ [m])) (lx_files s) (lx_next_fd s) (lx_invocations s).

Definition flags_has (flags bit : Z) : bool := flags & bit =? bit.
Inductive AccessMode := ReadOnly | WriteOnly | ReadWrite.
Definition from_flags (flags : Z) : result LinuxErrno AccessMode :=
  match flags_has flags O_WRONLY, flags_has flags O_RDWR with
  | false, false => Ok ReadOnly
  | true, false => Ok WriteOnly
  | false, true => Ok ReadWrite
  | true, true => Err Einval
  end.
Definition mode_readable (a : AccessMode) : bool := match a with WriteOnly => false | _ => true end.
Definition mode_writable (a : AccessMode) : bool := match a with ReadOnly => false | _ => true end.

Fixpoint resolve_in (mounts : list Mount) (normalized : str) : result LinuxErrno (str * AuthorityGrant) :=
  match mounts with
  | [] => Err Eacces
  | m :: mounts =>
    match path_suffix normalized (guest_prefix m) with
    | Some [] => Ok (ref_prefix m, mt_grant m)
    | Some suffix => Ok (ref_prefix m ++ 47 :: suffix, mt_grant m)
    | None => resolve_in mounts normalized
    end
  end.
Definition resolve (guest_path : str) (s : LinuxPersonality) : result LinuxErrno (str * AuthorityGrant) :=
  normalized ← normalize_guest_path guest_path; resolve_in (lx_mounts s) normalized.

Fixpoint mount_for_ref (mounts : list Mount) (name : str) : option Mount :=
  match mounts with
  | [] => None
  | m :: mounts => match ref_suffix name (ref_prefix m) with Some _ => Some m | None => mount_for_ref mounts name end
  end.

Section Linux.
Context (blake3 : list Z -> list Z) (oc : bool).

Definition MUTATION : str := lit "linux personality filesystem mutation".

Definition commit_bytes (env : WriteEnv) (name : str) (g : AuthorityGrant) (bytes : list Z) (action : str) (s : LinuxPersonality)
  : outcome CairnError (result LinuxErrno WriteReceipt * LinuxPersonality) :=
  if negb (auth_contains (g_authority g) UPDATE_REF) then Ret (Err Eacces, s) else
  match scope_new name with
  | Err _ => Ret (Err Einval, s)
  | Ok ref_scope =>
    if negb (scope_contains (g_scope g) ref_scope) then Ret (Err Eacces, s) else
    '(w, cairn) ← put_and_move blake3 oc env name bytes (pr_name (g_holder g)) action (lx_cairn s);
    let s := mkLinux cairn (lx_mounts s) (lx_files s) (lx_next_fd s) (lx_invocations s) in
    Ret (match w with
         | Err _ => (Err Einval, s)
         | Ok (object, commit) =>
           match write_artifacts object commit with
           | Err _ => (Err Einval, s)
           | Ok outputs =>
             match invocation_record blake3 g UPDATE_REF action MUTATION outputs (we_recorded env) with
             | Err _ => (Err Eacces, s)
             | Ok i => (Ok (mkReceipt (zlen bytes) object commit),
                        mkLinux cairn (lx_mounts s) (lx_files s) (lx_next_fd s) (lx_invocations s ++ [i]))
             end
           end
         end)
  end.

(** The end of [open]: the descriptor is allocated. *)
Definition open_fd (name : str) (access : AccessMode) (s : LinuxPersonality) : result LinuxErrno Z * LinuxPersonality :=
  let fd := lx_next_fd s in
  if fd + 1 <? 2 ^ 32 then
    (Ok fd, mkLinux (lx_cairn s) (lx_mounts s) (<[fd := mkFile name (mode_readable access) (mode_writable access) 0]> (lx_files s)) (fd + 1) (lx_invocations s))
  else (Err Einval, s).

Definition lx_open (env : WriteEnv) (path : str) (flags : Z) (s : LinuxPersonality) : outcome CairnError (result LinuxErrno Z * LinuxPersonality) :=
  match from_flags flags with
  | Err e => Ret (Err e, s)
  | Ok access =>
    match resolve path s with
    | Err e => Ret (Err e, s)
    | Ok (name, g) =>
      match scope_new name with
      | Err _ => Ret (Err Einval, s)
      | Ok ref_scope =>
        if negb (scope_contains (g_scope g) ref_scope) then Ret (Err Eacces, s) else
        if mode_readable access && negb (auth_contains (g_authority g) (auth_union READ_REF READ_OBJECT)) then Ret (Err Eacces, s) else
        if mode_writable access && negb (auth_contains (g_authority g) UPDATE_REF) then Ret (Err Eacces, s) else
        let exists_ := match get_ref name (lx_cairn s) with Some _ => true | None => false end in
        if negb exists_ && negb (flags_has flags O_CREAT) then Ret (Err Enoent, s) else
        if flags_has flags O_TRUNC && negb (mode_writable access) then Ret (Err Einval, s) else
        '(r, s) ← (if flags_has flags O_TRUNC then commit_bytes env name g [] (lit "linux.open.truncate") s
                   else if negb exists_ && flags_has flags O_CREAT then commit_bytes env name g [] (lit "linux.open.create") s
                   else Ret (Ok (mkReceipt 0 [] []), s));
        Ret (match r with Err e => (Err e, s) | Ok _ => open_fd name access s end)
      end
    end
  end.

(** [read] into a buffer of [out_len] bytes; the answer is the bytes copied. *)
Definition lx_read (fd out_len : Z) (s : LinuxPersonality) : result LinuxErrno (list Z) * LinuxPersonality :=
  match lx_files s !! fd with
  | None => (Err Ebadf, s)
  | Some file =>
    if negb (readable file) then (Err Ebadf, s) else
    match get_ref (fl_ref_name file) (lx_cairn s) with
    | None => (Err Enoent, s)
    | Some object =>
      match get object (lx_cairn s) with
      | None => (Err Enoent, s)
      | Some bytes =>
        let start := Z.min (position file) (zlen bytes) in
        let n := Z.min out_len (zlen bytes - start) in
        (Ok (slice bytes (Z.to_nat start) (Z.to_nat n)),
         mkLinux (lx_cairn s) (lx_mounts s) (<[fd := mkFile (fl_ref_name file) (readable file) (writable file) (position file + n)]> (lx_files s))
           (lx_next_fd s) (lx_invocations s))
      end
    end
  end.

Definition lx_write (env : WriteEnv) (fd : Z) (bytes : list Z) (s : LinuxPersonality) : outcome CairnError (result LinuxErrno WriteReceipt * LinuxPersonality) :=
  match lx_files s !! fd with
  | None => Ret (Err Ebadf, s)
  | Some file =>
    if negb (writable file) then Ret (Err Ebadf, s) else
    match mount_for_ref (lx_mounts s) (fl_ref_name file) with
    | None => Ret (Err Eacces, s)
    | Some m => commit_bytes env (fl_ref_name file) (mt_grant m) bytes (lit "linux.write") s
    end
  end.

Definition lx_close (fd : Z) (s : LinuxPersonality) : result LinuxErrno unit * LinuxPersonality :=
  match lx_files s !! fd with
  | None => (Err Ebadf, s)
  | Some _ => (Ok tt, mkLinux (lx_cairn s) (lx_mounts s) (delete fd (lx_files s)) (lx_next_fd s) (lx_invocations s))
  end.
Definition unsupported_syscall (number : Z) : result LinuxErrno unit := Err Enosys.
End Linux.

(** ** Paths and mounts *)

Lemma path_suffix_spec path prefix suf : path_suffix path prefix = Some suf <->
  path = prefix /\ suf = [] \/ path <> prefix /\ path = prefix ++ 47 :: suf.
Proof.
  unfold path_suffix, str_eqb. case_bool_decide as E.
  - split; [intros [= <-]; by left|by intros [[_ ->]|[? _]]].
  - split.
    + destruct (strip_prefix prefix path) as [[|d r]|] eqn:Es; cbn; try discriminate. apply strip_prefix_spec in Es as ->.
      destruct (Z.eqb_spec d 47) as [->|]; [|discriminate]. intros [= <-]. by right.
    + intros [[? _]|[_ ->]]; [done|]. rewrite (proj2 (strip_prefix_spec prefix _ (47 :: suf)) eq_refl). reflexivity.
Qed.
Lemma path_suffix_contains path prefix : is_Some (path_suffix path prefix) <-> scope_contains prefix path = true.
Proof.
  unfold scope_contains, path_suffix. destruct (str_eqb path prefix); cbn [orb]; [by split; [|eexists]|].
  destruct (strip_prefix prefix path) as [[|d r]|]; cbn; [split; [by intros []|done]| |split; [by intros []|done]].
  destruct (d =? 47); [by split; [|eexists]|]. split; [by intros []|done].
Qed.

(** Appending a path below a prefix stays below it. *)
Lemma scope_contains_below p suf : scope_contains p (p ++ 47 :: suf) = true.
Proof. apply path_suffix_contains. destruct (decide (p ++ 47 :: suf = p)) as [E|E]; [exists []|exists suf]; apply path_suffix_spec; auto. Qed.

Lemma insert_mount_perm m l : insert_mount m l ≡ₚ m :: l.
Proof. induction l as [|x l IH]; cbn; [done|]. destruct (prefix_len x <? prefix_len m); [done|]. rewrite IH. apply Permutation_swap. Qed.
Lemma sort_fold_perm l : forall acc, foldl (fun acc m => insert_mount m acc) acc l ≡ₚ l ++ acc.
Proof. induction l as [|m l IH]; intros acc; cbn; [done|]. rewrite IH, insert_mount_perm. symmetry. apply Permutation_middle. Qed.
Lemma sort_mounts_perm l : sort_mounts l ≡ₚ l.
Proof. unfold sort_mounts. by rewrite sort_fold_perm, app_nil_r. Qed.

Definition longer (a b : Mount) : Prop := prefix_len b <= prefix_len a.
Lemma insert_mount_sorted m l : StronglySorted longer l -> StronglySorted longer (insert_mount m l).
Proof.
  induction 1 as [|x l Hl IH Hx]; cbn; [by repeat constructor|]. destruct (Z.ltb_spec (prefix_len x) (prefix_len m)).
  - constructor; [by constructor|]. constructor; [unfold longer; lia|]. eapply Forall_impl; [exact Hx|]. unfold longer. lia.
  - constructor; [done|]. rewrite insert_mount_perm. constructor; [done|exact Hx].
Qed.
Lemma sort_mounts_sorted l : StronglySorted longer (sort_mounts l).
Proof.
  unfold sort_mounts. assert (H : forall acc, StronglySorted longer acc -> StronglySorted longer (foldl (fun acc m => insert_mount m acc) acc l)).
  { induction l as [|m l IH]; intros acc Ha; cbn; [done|]. by apply IH, insert_mount_sorted. }
  apply H. constructor.
Qed.

Definition ref_below (m : Mount) (suf : str) : str := match suf with [] => ref_prefix m | _ => ref_prefix m ++ 47 :: suf end.

Lemma ref_below_contains m suf : scope_contains (ref_prefix m) (ref_below m suf) = true.
Proof. destruct suf; [apply scope_contains_refl|apply scope_contains_below]. Qed.

(** [resolve] takes the most specific mount: of the mounts whose guest prefix
    covers the path, one with the longest prefix, and the rest of the path below
    its ref prefix. *)
Lemma resolve_in_spec mounts path name g : StronglySorted longer mounts -> resolve_in mounts path = Ok (name, g) ->
  exists m suf, m ∈ mounts /\ g = mt_grant m /\ path_suffix path (guest_prefix m) = Some suf /\ name = ref_below m suf
    /\ forall m', m' ∈ mounts -> scope_contains (guest_prefix m') path = true -> prefix_len m' <= prefix_len m.
Proof.
  induction 1 as [|m mounts Hs IH Hm]; cbn; [done|]. destruct (path_suffix path (guest_prefix m)) as [suf|] eqn:E.
  - intros H. assert (name = ref_below m suf /\ g = mt_grant m) as [-> ->] by (destruct suf; injection H as <- <-; done).
    exists m, suf. split; [by left|]. split; [done|]. split; [done|]. split; [done|]. intros m' [->|Hin]%elem_of_cons _; [done|].
    rewrite Forall_forall in Hm. by apply (Hm m').
  - intros H. destruct (IH H) as (m1 & suf & Hin & -> & Hsuf & -> & Hl). exists m1, suf. split; [by right|]. split; [done|]. split; [done|]. split; [done|].
    intros m' [->|Hin']%elem_of_cons Hc; [|by apply Hl]. apply path_suffix_contains in Hc. rewrite E in Hc. by destruct Hc.
Qed.

Lemma mount_for_ref_spec mounts name m : mount_for_ref mounts name = Some m -> m ∈ mounts /\ scope_contains (ref_prefix m) name = true.
Proof.
  induction mounts as [|m0 mounts IH]; cbn; [done|]. destruct (ref_suffix name (ref_prefix m0)) eqn:E.
  - intros [= <-]. split; [by left|]. apply path_suffix_contains. by exists s.
  - intros H. destruct (IH H). split; [by right|done].
Qed.

(** ** Sessions *)

Inductive LxCall :=
| LMount (guest ref : str) (g : AuthorityGrant)
| LOpen (path : str) (flags : Z)
| LRead (fd out_len : Z)
| LWrite (fd : Z) (bytes : list Z)
| LClose (fd : Z)
| LOther (number : Z).
Inductive LxReply :=
| RMount (r : result LinuxErrno unit) | RFd (r : result LinuxErrno Z) | RBytes (r : result LinuxErrno (list Z))
| RWritten (r : result LinuxErrno WriteReceipt) | RDone (r : result LinuxErrno unit).

Section Sessions.
Context (blake3 : list Z -> list Z) (oc : bool).

Definition lx_call (env : WriteEnv) (c : LxCall) (s : LinuxPersonality) : outcome CairnError (LxReply * LinuxPersonality) :=
  match c with
  | LMount guest ref g => Ret (match mount_new guest ref g with Ok m => (RMount (Ok tt), lx_mount m s) | Err e => (RMount (Err e), s) end)
  | LOpen path flags => '(r, s) ← lx_open blake3 oc env path flags s; Ret (RFd r, s)
  | LRead fd n => let '(r, s) := lx_read fd n s in Ret (RBytes r, s)
  | LWrite fd bytes => '(r, s) ← lx_write blake3 oc env fd bytes s; Ret (RWritten r, s)
  | LClose fd => let '(r, s) := lx_close fd s in Ret (RDone r, s)
  | LOther n => Ret (RDone (unsupported_syscall n), s)
  end.
Fixpoint lx_session (envs : nat -> WriteEnv) (cs : list LxCall) (s : LinuxPersonality) : outcome CairnError (list LxReply * LinuxPersonality) :=
  match cs with
  | [] => Ret ([], s)
  | c :: cs => '(r, s) ← lx_call (envs (length cs)) c s; '(rs, s) ← lx_session envs cs s; Ret (r :: rs, s)
  end.

(** A mount lets a ref through with an authority. *)
Record lets (m : Mount) (name : str) (authority : Z) : Prop := {
  le_below : scope_contains (ref_prefix m) name = true;
  le_scope : scope_contains (g_scope (mt_grant m)) name = true;
  le_authority : auth_contains (g_authority (mt_grant m)) authority = true }.

(** One mount lets the file through with all its mode needs. *)
Definition file_ok (mounts : list Mount) (f : OpenFile) : Prop :=
  exists m, m ∈ mounts /\ scope_contains (ref_prefix m) (fl_ref_name f) = true /\ scope_contains (g_scope (mt_grant m)) (fl_ref_name f) = true
    /\ (readable f = true -> auth_contains (g_authority (mt_grant m)) (auth_union READ_REF READ_OBJECT) = true)
    /\ (writable f = true -> auth_contains (g_authority (mt_grant m)) UPDATE_REF = true).

Record lx_inv (s : LinuxPersonality) : Prop := {
  li_mounts : Forall (fun m => scope_contains (g_scope (mt_grant m)) (ref_prefix m) = true) (lx_mounts s);
  li_sorted : StronglySorted longer (lx_mounts s);
  li_files : map_Forall (fun _ f => file_ok (lx_mounts s) f) (lx_files s) }.

(** The effects of a session: mounts are only added, refs move by recorded writes
    through mounts that let them, and objects are stored only for such writes. *)
Record lx_accounted (s s' : LinuxPersonality) (writes : list (CommitInfo * Invocation)) (stored : list (list Z)) : Prop := {
  la_mounts : forall m, m ∈ lx_mounts s -> m ∈ lx_mounts s';
  la_moved : moved blake3 (lx_cairn s) (lx_cairn s') writes.*1 stored;
  la_invocations : lx_invocations s' = lx_invocations s ++ writes.*2;
  la_each : Forall (fun w => exists m, m ∈ lx_mounts s' /\ lets m (ref_name w.1) UPDATE_REF /\ on_record (mt_grant m) w.1 w.2) writes;
  la_stored : Forall (fun _ => exists m name, m ∈ lx_mounts s' /\ lets m name UPDATE_REF) stored }.

Lemma lx_accounted_refl s s' : lx_cairn s' = lx_cairn s -> lx_invocations s' = lx_invocations s ->
  (forall m, m ∈ lx_mounts s -> m ∈ lx_mounts s') -> lx_accounted s s' [] [].
Proof. intros Hc Hi Hm. split; [done|rewrite Hc; apply moved_refl|by rewrite Hi, app_nil_r|constructor|constructor]. Qed.
Lemma lx_accounted_trans s1 s2 s3 a b x y : lx_accounted s1 s2 a x -> lx_accounted s2 s3 b y -> lx_accounted s1 s3 (a ++ b) (x ++ y).
Proof.
  intros [M1 C1 I1 E1 S1] [M2 C2 I2 E2 S2]. split; [auto| | | |].
  - rewrite fmap_app. by eapply moved_trans.
  - by rewrite I2, I1, fmap_app, app_assoc.
  - apply Forall_app. split; [|done]. eapply Forall_impl; [exact E1|]. intros w (m & Hm & Hw). eauto.
  - apply Forall_app. split; [|done]. eapply Forall_impl; [exact S1|]. intros w (m & name & Hm & Hw). eauto.
Qed.

Lemma file_ok_mono ms ms' f : (forall m, m ∈ ms -> m ∈ ms') -> file_ok ms f -> file_ok ms' f.
Proof. intros Hm (m & Hin & H). exists m. split; [by apply Hm|done]. Qed.

(** What a call leaves: the invariant, and its writes. *)
Definition lx_result (s s' : LinuxPersonality) : Prop :=
  lx_inv s' /\ next_sequence (lx_cairn s') <= next_sequence (lx_cairn s) + 1 /\ exists writes stored, lx_accounted s s' writes stored.

Lemma lx_result_self s : lx_inv s -> lx_result s s.
Proof. intros H. split; [done|]. split; [lia|]. exists [], []. by apply lx_accounted_refl. Qed.
#[local] Hint Resolve lx_result_self : core.

Lemma commit_bytes_result env m name bytes action s : lx_inv s -> m ∈ lx_mounts s -> scope_contains (ref_prefix m) name = true ->
  action <> [] -> next_sequence (lx_cairn s) + 1 < 2 ^ 64 ->
  exists r s', commit_bytes blake3 oc env name (mt_grant m) bytes action s = Ret (r, s') /\ lx_result s s'
    /\ lx_mounts s' = lx_mounts s /\ lx_files s' = lx_files s /\ lx_next_fd s' = lx_next_fd s
    /\ match r with
       | Ok rc => exists pr, write_done blake3 name bytes pr action (we_now env) (lx_cairn s) (lx_cairn s') (rc_object rc) (rc_commit rc)
                  /\ bytes_written rc = zlen bytes
       | Err _ => refs (lx_cairn s') = refs (lx_cairn s)
       end.
Proof.
  intros Hinv Hin Hbelow Ha Hn.
  unfold commit_bytes. destruct (auth_contains (g_authority (mt_grant m)) UPDATE_REF) eqn:Eu; cbn [negb]; [|eexists _, _; split; [done|]; auto].
  destruct (scope_new name) as [sc|e] eqn:Es; [|eexists _, _; split; [done|]; auto].
  assert (sc = name) as -> by (unfold scope_new in Es; repeat case_match; by simplify_eq).
  destruct (scope_contains (g_scope (mt_grant m)) name) eqn:Esc; cbn [negb]; [|eexists _, _; split; [done|]; auto].
  destruct (put_and_move_spec blake3 oc env name bytes (pr_name (g_holder (mt_grant m))) action (lx_cairn s) Hn) as (w & cairn & -> & Hs & Hw).
  cbn [mbind outcome_bind]. destruct Hinv as [I1 I2 I3].
  destruct w as [[object commit]|e].
  - destruct (write_is_recorded blake3 (mt_grant m) action MUTATION object commit (we_recorded env) Eu) as (outs & i & Eo & Ei & _ & Hi); [done|done|].
    rewrite Eo, Ei. pose proof Hw as [Hobj Hm _]. eexists _, _. split; [done|]. cbn [lx_mounts lx_files lx_next_fd lx_cairn lx_invocations].
    split; [|split; [done|]; split; [done|]; split; [done|]; by eexists]. split; [by split|]. split; [done|]. eexists [(_, i)], _.
    split; [done|exact Hm|done| |apply Forall_forall; intros; by exists m, name].
    constructor; [|constructor]. exists m. split; [done|]. split; [by split|]. by apply Hi.
  - destruct Hw as (stored & Hw & _). eexists _, _. split; [done|]. cbn [lx_mounts lx_files lx_next_fd lx_cairn lx_invocations].
    split; [|by rewrite (mv_refs _ _ _ _ _ Hw)].
    split; [by split|]. split; [done|]. exists [], stored. split; [done|exact Hw|by rewrite app_nil_r|constructor|apply Forall_forall; intros; by exists m, name].
Qed.

Lemma lx_result_trans s1 s2 s3 : lx_result s1 s2 -> next_sequence (lx_cairn s3) = next_sequence (lx_cairn s2) -> lx_inv s3 ->
  lx_accounted s2 s3 [] [] -> lx_result s1 s3.
Proof.
  intros (_ & Hn & w & x & Hw) Hs Hinv Ha. split; [done|]. split; [lia|]. exists (w ++ []), (x ++ []). by eapply lx_accounted_trans.
Qed.

(** The file a call of [open_fd] adds is one the mounts let through. *)
Lemma open_fd_result name access s : lx_inv s -> file_ok (lx_mounts s) (mkFile name (mode_readable access) (mode_writable access) 0) ->
  lx_inv (open_fd name access s).2 /\ lx_accounted s (open_fd name access s).2 [] [] /\ lx_cairn (open_fd name access s).2 = lx_cairn s.
Proof.
  intros [I1 I2 I3] Hf. unfold open_fd. destruct (lx_next_fd s + 1 <? 2 ^ 32); cbn; [|split; [by split|]; split; [by apply lx_accounted_refl|done]].
  split; [|split; [by apply lx_accounted_refl|done]]. split; [done|done|]. cbn. by apply map_Forall_insert_2.
Qed.

(** The mount an open goes through. *)
Lemma open_authorized path name g access s : lx_inv s -> resolve path s = Ok (name, g) ->
  (mode_readable access && negb (auth_contains (g_authority g) (auth_union READ_REF READ_OBJECT)) = false) ->
  (mode_writable access && negb (auth_contains (g_authority g) UPDATE_REF) = false) ->
  exists m, m ∈ lx_mounts s /\ g = mt_grant m /\ scope_contains (ref_prefix m) name = true
    /\ file_ok (lx_mounts s) (mkFile name (mode_readable access) (mode_writable access) 0).
Proof.
  intros [I1 I2 _] Hr H1 H2. unfold resolve in Hr. destruct (normalize_guest_path path) as [p|]; [|done]. cbn in Hr.
  apply resolve_in_spec in Hr as (m & suf & Hin & -> & _ & -> & _); [|done]. pose proof (ref_below_contains m suf) as Hb.
  rewrite Forall_forall in I1. assert (Hsc : scope_contains (g_scope (mt_grant m)) (ref_below m suf) = true) by (eapply scope_contains_trans; [by apply I1|done]).
  exists m. split; [done|]. split; [done|]. split; [done|]. exists m. cbn. do 3 (split; [done|]). split; intros Hm.
  - by rewrite Hm in H1; apply negb_false_iff in H1.
  - by rewrite Hm in H2; apply negb_false_iff in H2.
Qed.

Lemma lx_open_result env path flags s : lx_inv s -> next_sequence (lx_cairn s) + 1 < 2 ^ 64 ->
  exists r s', lx_open blake3 oc env path flags s = Ret (r, s') /\ lx_result s s'.
Proof.
  intros Hinv Hn. unfold lx_open. destruct (from_flags flags) as [access|e]; [|eexists _, _; split; [done|]; auto].
  destruct (resolve path s) as [[name g]|e] eqn:Er; [|eexists _, _; split; [done|]; auto].
  destruct (scope_new name) as [sc|e]; [|eexists _, _; split; [done|]; auto].
  destruct (scope_contains (g_scope g) sc); cbn [negb]; [|eexists _, _; split; [done|]; auto].
  destruct (mode_readable access && _) eqn:E1; [eexists _, _; split; [done|]; auto|].
  destruct (mode_writable access && _) eqn:E2; [eexists _, _; split; [done|]; auto|].
  destruct (open_authorized path name g access s Hinv Er E1 E2) as (m & Hin & -> & Hb & Hf).
  set (ex := match get_ref name (lx_cairn s) with Some _ => true | None => false end).
  destruct (negb ex && negb (flags_has flags O_CREAT)); [eexists _, _; split; [done|]; auto|].
  destruct (flags_has flags O_TRUNC && negb (mode_writable access)); [eexists _, _; split; [done|]; auto|].
  assert (Hc : exists r s1, (if flags_has flags O_TRUNC then commit_bytes blake3 oc env name (mt_grant m) [] (lit "linux.open.truncate") s
     else if negb ex && flags_has flags O_CREAT then commit_bytes blake3 oc env name (mt_grant m) [] (lit "linux.open.create") s
     else Ret (Ok (mkReceipt 0 [] []), s)) = Ret (r, s1) /\ lx_result s s1 /\ lx_mounts s1 = lx_mounts s).
  { destruct (flags_has flags O_TRUNC); [|destruct (negb ex && flags_has flags O_CREAT)].
    - destruct (commit_bytes_result env m name [] (lit "linux.open.truncate") s Hinv Hin Hb) as (r & s1 & ? & ? & ? & _); [done|done|]. eauto.
    - destruct (commit_bytes_result env m name [] (lit "linux.open.create") s Hinv Hin Hb) as (r & s1 & ? & ? & ? & _); [done|done|]. eauto.
    - eexists _, _. split; [done|]. auto. }
  destruct Hc as (r & s1 & -> & Hres & Hms). cbn [mbind outcome_bind]. destruct r as [rc|e]; [|eauto].
  destruct (open_fd_result name access s1) as (Hi & Hac & Hcairn); [apply Hres|by rewrite Hms|].
  destruct (open_fd name access s1) as [r s2]. eexists _, _. split; [done|]. cbn in *. eapply lx_result_trans; [done|by rewrite Hcairn|done|done].
Qed.

Lemma lx_call_result env c s : lx_inv s -> next_sequence (lx_cairn s) + 1 < 2 ^ 64 ->
  exists r s', lx_call env c s = Ret (r, s') /\ lx_result s s'.
Proof.
  intros Hinv Hn. pose proof Hinv as [I1 I2 I3]. destruct c as [guest ref g|path flags|fd n|fd bytes|fd|n]; cbn.
  - destruct (mount_new guest ref g) as [m|e] eqn:E; [|eexists _, _; split; [done|]; auto]. eexists _, _. split; [done|].
    assert (Hperm : forall x, x ∈ lx_mounts s -> x ∈ sort_mounts (lx_mounts s ++ [m])).
    { intros x Hx. rewrite sort_mounts_perm. apply elem_of_app. by left. }
    split; [|split; [cbn; lia|exists [], []; by apply lx_accounted_refl]]. split; cbn.
    + rewrite sort_mounts_perm. apply Forall_app. split; [done|]. constructor; [|constructor]. unfold mount_new in E.
      destruct (normalize_guest_path guest); [|done]. cbn in E. destruct (normalize_ref_prefix ref) as [ref'|]; [|done]. cbn in E.
      unfold scope_new in E. destruct (bool_decide (ref' = []) || _ || _); [done|]. destruct (scope_contains (g_scope g) ref') eqn:Es; [|done]. by injection E as <-.
    + apply sort_mounts_sorted.
    + eapply map_Forall_impl; [exact I3|]. intros k f Hf. by eapply file_ok_mono.
  - destruct (lx_open_result env path flags s Hinv Hn) as (r & s' & -> & Hr). cbn. eauto.
  - unfold lx_read. destruct (lx_files s !! fd) as [f|] eqn:Ef; [|eexists _, _; split; [done|]; auto].
    destruct (readable f) eqn:Erd; cbn [negb]; [|eexists _, _; split; [done|]; auto]. destruct (get_ref (fl_ref_name f) (lx_cairn s)) as [o|]; [|eexists _, _; split; [done|]; auto].
    destruct (get o (lx_cairn s)); [|eexists _, _; split; [done|]; auto]. eexists _, _. split; [done|].
    split; [|split; [cbn; lia|exists [], []; by apply lx_accounted_refl]]. split; [done|done|]. cbn. apply map_Forall_insert_2; [|done].
    rewrite <- Erd. exact (I3 fd f Ef).
  - unfold lx_write. destruct (lx_files s !! fd) as [f|] eqn:Ef; [|eexists _, _; split; [done|]; auto].
    destruct (writable f); cbn [negb]; [|eexists _, _; split; [done|]; auto].
    destruct (mount_for_ref (lx_mounts s) (fl_ref_name f)) as [m|] eqn:Em; [|eexists _, _; split; [done|]; auto].
    apply mount_for_ref_spec in Em as [Hin Hb].
    destruct (commit_bytes_result env m (fl_ref_name f) bytes (lit "linux.write") s Hinv Hin Hb) as (r & s1 & -> & ? & _); [done|done|]. cbn. eauto.
  - unfold lx_close. destruct (lx_files s !! fd); [|eexists _, _; split; [done|]; auto]. eexists _, _. split; [done|].
    split; [|split; [cbn; lia|exists [], []; by apply lx_accounted_refl]]. split; [done|done|]. cbn. by apply map_Forall_delete.
  - eexists _, _. split; [done|]. auto.
Qed.

Lemma lx_session_result envs cs : forall s, lx_inv s -> next_sequence (lx_cairn s) + zlen cs < 2 ^ 64 ->
  exists rs s' writes stored, lx_session envs cs s = Ret (rs, s') /\ lx_inv s' /\ lx_accounted s s' writes stored.
Proof.
  induction cs as [|c cs IH]; intros s Hinv Hn; cbn [lx_session]; [eexists _, _, [], []; split; [done|]; split; [done|by apply lx_accounted_refl]|].
  unfold zlen in Hn. cbn [length] in Hn.
  destruct (lx_call_result (envs (length cs)) c s Hinv) as (r & s1 & -> & Hi & Hs & w1 & x1 & H1); [lia|]. cbn [mbind outcome_bind].
  destruct (IH s1 Hi) as (rs & s2 & w2 & x2 & -> & Hi2 & H2); [unfold zlen; lia|]. cbn [mbind outcome_bind].
  eexists _, _, _, _. split; [done|]. split; [done|]. by eapply lx_accounted_trans.
Qed.

(** C21: After any session of mount, open, read, write and close calls with any paths, flags and store
    failures (while the store's 64-bit sequence numbers last): every open file names a ref below the ref
    prefix of one mount, inside the scope of that mount's grant, and that grant holds what the file's
    mode needs; the refs, commits and histories have changed exactly by the writes on record, each below
    a mount's ref prefix, inside its grant's scope, with UPDATE_REF held and the grant's holder and
    delegation chain in the invocation; and the objects have grown exactly by values stored under a
    mount that may update some ref; a value whose commit could not be appended stays without a record. *)
Theorem legacy_programs_stay_in_their_mounts (envs : nat -> WriteEnv) (cs : list LxCall) (cairn : CairnStore) :
  next_sequence cairn + zlen cs < 2 ^ 64 ->
  exists rs s writes stored, lx_session envs cs (linux_new cairn) = Ret (rs, s)
    /\ map_Forall (fun _ f => file_ok (lx_mounts s) f) (lx_files s)
    /\ moved blake3 cairn (lx_cairn s) writes.*1 stored /\ lx_invocations s = writes.*2
    /\ Forall (fun w => exists m, m ∈ lx_mounts s /\ lets m (ref_name w.1) UPDATE_REF /\ on_record (mt_grant m) w.1 w.2) writes
    /\ Forall (fun _ => exists m name, m ∈ lx_mounts s /\ lets m name UPDATE_REF) stored.
Proof.
  intros Hn. destruct (lx_session_result envs cs (linux_new cairn)) as (rs & s & writes & stored & E & [_ _ Hf] & [_ Hm Hi He Hst]); [|done|].
  - split; [constructor|constructor|apply map_Forall_empty].
  - by exists rs, s, writes, stored.
Qed.

(** ** What was written is read *)

Lemma lx_write_ok env fd bytes s rc s1 f : lx_inv s -> next_sequence (lx_cairn s) + 1 < 2 ^ 64 -> lx_files s !! fd = Some f ->
  lx_write blake3 oc env fd bytes s = Ret (Ok rc, s1) ->
  lx_inv s1 /\ lx_mounts s1 = lx_mounts s /\ lx_next_fd s1 = lx_next_fd s /\ scope_new (fl_ref_name f) = Ok (fl_ref_name f)
  /\ refs (lx_cairn s1) !! fl_ref_name f = Some (blake3 bytes) /\ bytes_written rc = zlen bytes
  /\ objects (lx_cairn s1) !! blake3 bytes = Some (default bytes (objects (lx_cairn s) !! blake3 bytes)).
Proof.
  intros Hinv Hn Hf. unfold lx_write. rewrite Hf. destruct (writable f); cbn [negb]; [|done].
  destruct (mount_for_ref (lx_mounts s) (fl_ref_name f)) as [m|] eqn:Em; [|done]. apply mount_for_ref_spec in Em as [Hin Hb]. intros E.
  destruct (commit_bytes_result env m (fl_ref_name f) bytes (lit "linux.write") s Hinv Hin Hb) as (r & s' & E' & (Hi & _) & Hms & _ & Hfd & Hr); [done|done|].
  assert (Hsc : scope_new (fl_ref_name f) = Ok (fl_ref_name f)).
  { revert E. unfold commit_bytes. destruct (negb _); [done|]. destruct (scope_new (fl_ref_name f)) as [sc|] eqn:Es; [|done].
    intros _. unfold scope_new in Es. by destruct (bool_decide _ || _ || _); simplify_eq. }
  rewrite E in E'. injection E' as <- <-. destruct Hr as (pr & [Hobj Hmv Hby] & Hw). rewrite Hobj in Hmv, Hby.
  split; [exact Hi|]. split; [done|]. split; [done|]. split; [done|]. split; [|done].
  rewrite (mv_refs _ _ _ _ _ Hmv). cbn. by rewrite lookup_insert_eq.
Qed.

(** C25: After a successful write through an open file, opening any path that resolves to the same ref
    under a grant that may read it, and reading into a large enough buffer, returns exactly the bytes of
    that write (the writer's file position plays no part), for a store in which the digest of those
    bytes does not already name other bytes. *)
Theorem the_last_write_is_what_is_read env env2 fd f bytes s rc s1 path g n :
  lx_inv s -> next_sequence (lx_cairn s) + 1 < 2 ^ 64 -> lx_next_fd s + 1 < 2 ^ 32 -> lx_files s !! fd = Some f ->
  lx_write blake3 oc env fd bytes s = Ret (Ok rc, s1) ->
  (forall b, objects (lx_cairn s) !! blake3 bytes = Some b -> b = bytes) ->
  resolve path s = Ok (fl_ref_name f, g) -> auth_contains (g_authority g) (auth_union READ_REF READ_OBJECT) = true -> zlen bytes <= n ->
  bytes_written rc = zlen bytes
  /\ exists s2 s3, lx_open blake3 oc env2 path O_RDONLY s1 = Ret (Ok (lx_next_fd s), s2) /\ lx_read (lx_next_fd s) n s2 = (Ok bytes, s3).
Proof.
  intros Hinv Hn Hfd Hf Hw Hcol Hres Hau Hlen. destruct (lx_write_ok _ _ _ _ _ _ _ Hinv Hn Hf Hw) as (Hi1 & Hms & Hnf & Hsc & Href & Hbw & Hob).
  split; [done|]. assert (Hres1 : resolve path s1 = Ok (fl_ref_name f, g)) by (unfold resolve; rewrite Hms; exact Hres).
  destruct (open_authorized path (fl_ref_name f) g ReadOnly s1 Hi1 Hres1) as (m & Hin & Hg & Hb & _); [cbn; by rewrite Hau|done|].
  pose proof Hi1 as [I1 _ _]. rewrite Forall_forall in I1. subst g.
  assert (Hscope : scope_contains (g_scope (mt_grant m)) (fl_ref_name f) = true) by (eapply scope_contains_trans; [by apply I1|done]).
  unfold lx_open. cbn [from_flags flags_has O_RDONLY O_WRONLY O_RDWR]. change (from_flags O_RDONLY) with (Ok ReadOnly : result LinuxErrno AccessMode).
  rewrite Hres1, Hsc, Hscope. cbn [mode_readable mode_writable negb andb]. rewrite Hau. cbn [negb andb]. unfold get_ref. rewrite Href. cbn [negb andb].
  change (flags_has O_RDONLY O_TRUNC) with false. cbn [andb mbind outcome_bind]. unfold open_fd. rewrite Hnf. rewrite (proj2 (Z.ltb_lt _ _) Hfd).
  eexists _, _. split; [reflexivity|]. unfold lx_read. cbn [lx_files lx_cairn lx_mounts lx_next_fd lx_invocations]. rewrite lookup_insert_eq. cbn [readable negb fl_ref_name].
  unfold get_ref. rewrite Href. unfold get. rewrite Hob. cbn [position].
  assert (default bytes (objects (lx_cairn s) !! blake3 bytes) = bytes) as ->.
  { destruct (objects (lx_cairn s) !! blake3 bytes) as [b|] eqn:Eb; [|done]. cbn. by apply Hcol. }
  pose proof (zlen_nonneg bytes). rewrite Z.min_l by lia. rewrite Z.min_r by lia. do 2 f_equal. unfold slice. rewrite drop_0.
  apply take_ge. unfold zlen in *. lia.
Qed.
End Sessions.

(** ** A mount at the root *)

Lemma split_parts_no_sep c s p : p ∈ split c s -> c ∉ p.
Proof.
  revert p. induction s as [|d s IH]; intros p; cbn; [intros ->%list_elem_of_singleton; apply not_elem_of_nil|].
  destruct (Z.eqb_spec d c) as [->|Hd]; [intros [->|?]%elem_of_cons; [apply not_elem_of_nil|by apply IH]|].
  destruct (split c s) as [|h t] eqn:Es; [by destruct (split_cons_ne c s)|]. intros [->|Hp]%elem_of_cons; [|apply IH; by right].
  intros [->|Hc]%elem_of_cons; [done|]. by apply (IH h); [left|].
Qed.
Lemma normal_parts_in parts ps : normal_parts parts = Ok ps -> forall p, p ∈ ps -> p ∈ parts /\ p <> [].
Proof.
  revert ps. induction parts as [|q parts IH]; intros ps; cbn [normal_parts]; [intros [= <-] p Hp; by apply elem_of_nil in Hp|].
  destruct (str_eqb q [] || str_eqb q DOT) eqn:E1; [intros H p Hp; destruct (IH _ H p Hp); split; [by right|done]|].
  destruct (str_eqb q DOTDOT); [done|]. destruct (normal_parts parts) as [ps'|]; [|done]. intros [= <-] p [->|Hp]%elem_of_cons.
  - split; [by left|]. intros ->. by rewrite (proj2 (str_eqb_eq [] []) eq_refl) in E1.
  - destruct (IH _ eq_refl p Hp). split; [by right|done].
Qed.

(** A normal path is the root, or starts with a component that is not empty. *)
Lemma normal_path_start path n : normalize_guest_path path = Ok n -> n = [47] \/ exists c r, n = 47 :: c :: r /\ c <> 47.
Proof.
  unfold normalize_guest_path. destruct (starts_with 47 path); [|done]. cbn [negb].
  destruct (normal_parts (split 47 path)) as [ps|] eqn:E; [|done]. intros [= <-]. destruct ps as [|p ps]; [by left|]. right.
  destruct (normal_parts_in _ _ E p) as [Hin Hne]; [by left|]. pose proof (split_parts_no_sep _ _ _ Hin) as Hsep.
  destruct p as [|c p]; [done|]. destruct ps as [|q ps]; eexists c, _; (split; [reflexivity|]); intros ->; apply Hsep; by left.
Qed.

(** A mount at "/" serves the path "/" and nothing below it: the prefix already
    ends in the separator that is stripped again. *)
Theorem a_root_mount_serves_only_the_root s ref g path n : lx_mounts s = [mkMount [47] ref g] -> normalize_guest_path path = Ok n ->
  resolve path s = if bool_decide (n = [47]) then Ok (ref, g) else Err Eacces.
Proof.
  intros Hm En. unfold resolve. rewrite En, Hm. cbn [mbind result_bind resolve_in guest_prefix ref_prefix mt_grant]. case_bool_decide as E; [by rewrite E|].
  destruct (path_suffix n [47]) as [suf|] eqn:Es; [|done]. apply path_suffix_spec in Es as [[? _]|[_ Es]]; [done|].
  destruct (normal_path_start _ _ En) as [->|(c & r & -> & Hc)]; [done|]. by injection Es as -> _.
Qed.

(** ** At work *)

Definition files_of (who : Principal) (scope : string) (authority : Z) : AuthorityGrant := mkGrant who (lit scope) authority [].
Definition full_access : Z := auth_union (auth_union READ_REF READ_OBJECT) UPDATE_REF.
Definition demo_session : list LxCall :=
  [LMount (lit "/home//app/") (lit "refs/legacy/home") (files_of ali "refs/legacy" full_access);
   LOpen (lit "/home/app/./new.txt") (O_RDWR .| O_CREAT);
   LWrite 3 [104; 105];
   LWrite 3 [33];
   LOpen (lit "/home/app/new.txt") O_RDONLY;
   LRead 4 16;
   LOpen (lit "/home/app/../secret") O_RDONLY;
   LOpen (lit "/etc/passwd") O_RDONLY].
Definition no_failures (k : nat) : WriteEnv := mkWriteEnv None None 1 2.
Definition demo_linux : LinuxPersonality := linux_new (empty_store [] 0).

Lemma legacy_programs_stay_in_their_mounts_witness : exists rs s (writes : list (CommitInfo * Invocation)),
  lx_session demo_digest true no_failures demo_session demo_linux = Ret (rs, s)
  /\ lx_invocations s = writes.*2 /\ length writes = 3%nat
  /\ nth_error rs 5 = Some (RBytes (Ok [33])) /\ nth_error rs 6 = Some (RFd (Err Eacces)) /\ nth_error rs 7 = Some (RFd (Err Eacces)).
Proof.
  destruct (legacy_programs_stay_in_their_mounts demo_digest true no_failures demo_session (empty_store [] 0)) as (rs & s & writes & stored & E & _ & _ & Hi & _);
    [reflexivity|]. fold demo_linux in E. exists rs, s, writes.
  assert (H : match lx_session demo_digest true no_failures demo_session demo_linux with
              | Ret (rs, s) => (length (lx_invocations s), nth_error rs 5, nth_error rs 6, nth_error rs 7) | _ => (0%nat, None, None, None) end
    = (3%nat, Some (RBytes (Ok [33])), Some (RFd (Err Eacces)), Some (RFd (Err Eacces)))) by (vm_compute; reflexivity).
  rewrite E, Hi, length_fmap in H. injection H as H1 H2 H3 H4. repeat (split; [assumption|]). assumption.
Defined.

(** The session up to the first write, and the write. *)
Definition after_open : LinuxPersonality :=
  match lx_session demo_digest true no_failures (take 2 demo_session) demo_linux with Ret (_, s) => s | _ => demo_linux end.
Definition written : option (WriteReceipt * LinuxPersonality) :=
  match lx_write demo_digest true (no_failures 0) 3 [104; 105] after_open with Ret (Ok rc, s) => Some (rc, s) | _ => None end.

Lemma after_open_inv : lx_inv after_open.
Proof.
  destruct (lx_session_result demo_digest true no_failures (take 2 demo_session) demo_linux) as (rs & s & w & x & E & Hi & _);
    [split; [constructor|constructor|apply map_Forall_empty]|reflexivity|]. unfold after_open. rewrite E. exact Hi.
Qed.

Lemma the_last_write_is_what_is_read_witness : exists rc s1 s2 s3, written = Some (rc, s1) /\ bytes_written rc = 2
  /\ lx_open demo_digest true (no_failures 0) (lit "/home/app/new.txt") O_RDONLY s1 = Ret (Ok 4, s2) /\ lx_read 4 16 s2 = (Ok [104; 105], s3).
Proof.
  destruct (lx_write demo_digest true (no_failures 0) 3 [104; 105] after_open) as [[[rc|e] s1]|e|] eqn:E;
    [|exfalso; apply (f_equal (fun o => match o with Ret (Ok _, _) => true | _ => false end)) in E; vm_compute in E; discriminate E ..].
  destruct (the_last_write_is_what_is_read demo_digest true (no_failures 0) (no_failures 0) 3
    (mkFile (lit "refs/legacy/home/new.txt") true true 0) [104; 105] after_open rc s1 (lit "/home/app/new.txt") (files_of ali "refs/legacy" full_access) 16)
    as (Hb & s2 & s3 & Ho & Hr).
  - apply after_open_inv.
  - vm_compute. reflexivity.
  - vm_compute. reflexivity.
  - vm_compute. reflexivity.
  - exact E.
  - intros b Hb. assert (Hn : objects (lx_cairn after_open) !! demo_digest [104; 105] = None) by (vm_compute; reflexivity). rewrite Hn in Hb. discriminate Hb.
  - vm_compute. reflexivity.
  - reflexivity.
  - vm_compute. discriminate.
  - exists rc, s1, s2, s3. split; [unfold written; rewrite E; reflexivity|]. split; [exact Hb|]. split; [|exact Hr].
    change 4 with (lx_next_fd after_open) at 1. exact Ho.
Defined.

(** Two mounts show one ref: ali's at "/app" and the writer's at "/shared".  A
    file opened through ali's mount is written under the writer's grant, because
    [write] searches the mounts again, longest guest prefix first: the commit and
    the invocation name a principal that did not open the file. *)
Definition shared_session : list LxCall :=
  [LMount (lit "/app") (lit "refs/data") (files_of ali "refs/data" full_access);
   LMount (lit "/shared") (lit "refs/data") (files_of writer "refs/data" full_access);
   LOpen (lit "/app/a.txt") (O_WRONLY .| O_CREAT);
   LWrite 3 [1]].
Theorem a_write_is_recorded_under_another_mount :
  match lx_session demo_digest true no_failures shared_session demo_linux with
  | Ret (_, s) => (fun i => (in_action i, in_actor i)) <$> lx_invocations s = [(lit "linux.open.create", pr_id ali); (lit "linux.write", pr_id writer)]
  | _ => False
  end.
Proof. vm_compute. reflexivity. Qed.
