(* ===== verification/Actors.v ===== *)
(** * Actor messages and transferred grants (spikes/dezh-ipc/src/lib.rs)

    Actors run on threads of their own and reach each other through unbounded
    channels; a grant travels only as a delegation inside a message.  A schedule
    is a list of events, each one call of an actor or of the system's owner; an
    event that would block, or that an actor which has ended would make, does
    not happen.  An actor's context lives as long as its thread: returning and
    panicking both drop it, the receiver and the senders with it. *)

From Stdlib Require Import ZArith Lia String.
From stdpp Require Import base option strings numbers list gmap.
From S2P Require Import Prelude Text Identity.

Record Message := mkMessage { msg_from : Z; msg_body : list Z; msg_grant : option AuthorityGrant }.
Inductive ActorExit := Completed | Panicked.
Inductive IpcError := NoSuchActor | NoSuchGrant | ActorStopped | InboxClosed | Timeout | JoinFailed | Identity (e : IdentityError).

(** An actor's context, its channel, and how it ended. *)
Record Actor := mkActor {
  a_principal : Principal; a_outboxes : gset Z; a_directory : gmap Z Principal; a_held : list AuthorityGrant;
  a_inbox : list Message; a_exit : option ActorExit }.
Record ActorSystem := mkSystem {
  next_id : Z; senders : gset Z; principals : gmap Z Principal; handles : gset Z; actors : gmap Z Actor }.

Definition system_new : ActorSystem := mkSystem 0 ∅ ∅ ∅ ∅.
Definition with_actors (m : gmap Z Actor) (s : ActorSystem) : ActorSystem := mkSystem (next_id s) (senders s) (principals s) (handles s) m.

(** A running actor. *)
Definition running (s : ActorSystem) (id : Z) : option Actor :=
  a ← actors s !! id; match a_exit a with None => Some a | Some _ => None end.

(** ** Channels *)

(** [Sender::send]: the message is queued unless the receiver is gone. *)
Definition channel_send (to : Z) (m : Message) (s : ActorSystem) : result IpcError unit * ActorSystem :=
  match running s to with
  | None => (Err ActorStopped, s)
  | Some a => (Ok tt, with_actors (<[to := mkActor (a_principal a) (a_outboxes a) (a_directory a) (a_held a) (a_inbox a ++ [m]) None]> (actors s)) s)
  end.

(** Some sender of the channel still exists. *)
Definition sender_alive (s : ActorSystem) (id : Z) : bool :=
  bool_decide (id ∈ senders s)
  || existsb (fun p => match a_exit p.2 with None => bool_decide (id ∈ a_outboxes p.2) | Some _ => false end) (map_to_list (actors s)).

(** What [recv] does with a message: a grant in it is held from then on. *)
Definition take_message (me : Z) (a : Actor) (m : Message) (rest : list Message) (s : ActorSystem) : ActorSystem :=
  with_actors (<[me := mkActor (a_principal a) (a_outboxes a) (a_directory a)
                         (match msg_grant m with Some g => a_held a ++ [g] | None => a_held a end) rest None]> (actors s)) s.

(** ** Calls of an actor; [None] blocks *)

Definition recv (me : Z) (a : Actor) (s : ActorSystem) : option (result IpcError Message * ActorSystem) :=
  match a_inbox a with
  | m :: rest => Some (Ok m, take_message me a m rest s)
  | [] => if sender_alive s me then None else Some (Err InboxClosed, s)
  end.
(** The same with a deadline; [expired] is whether it passes while waiting. *)
Definition recv_timeout (me : Z) (a : Actor) (expired : bool) (s : ActorSystem) : option (result IpcError Message * ActorSystem) :=
  match a_inbox a with
  | m :: rest => Some (Ok m, take_message me a m rest s)
  | [] => if negb (sender_alive s me) then Some (Err InboxClosed, s) else if expired then Some (Err Timeout, s) else None
  end.

Definition send_message (me : Z) (a : Actor) (to : Z) (body : list Z) (g : option AuthorityGrant) (s : ActorSystem)
  : result IpcError unit * ActorSystem :=
  if bool_decide (to ∈ a_outboxes a) then channel_send to (mkMessage me body g) s else (Err NoSuchActor, s).
Definition send (me : Z) (a : Actor) (to : Z) (body : list Z) (s : ActorSystem) : result IpcError unit * ActorSystem :=
  send_message me a to body None s.

Definition delegate_to (me : Z) (a : Actor) (to parent_grant_index : Z) (requested_scope : str) (requested_authority : Z) (reason : str) (now : Z)
    (body : list Z) (s : ActorSystem) : result IpcError unit * ActorSystem :=
  match a_held a !! Z.to_nat parent_grant_index with
  | None => (Err NoSuchGrant, s)
  | Some parent =>
    match a_directory a !! to with
    | None => (Err NoSuchActor, s)
    | Some target =>
      match delegate parent target requested_scope requested_authority reason now with
      | Err e => (Err (Identity e), s)
      | Ok child => send_message me a to body (Some child) s
      end
    end
  end.

(** The closure returns or panics: its context is dropped. *)
Definition finish (me : Z) (a : Actor) (e : ActorExit) (s : ActorSystem) : ActorSystem :=
  with_actors (<[me := mkActor (a_principal a) ∅ (a_directory a) (a_held a) [] (Some e)]> (actors s)) s.

(** ** Calls of the owner *)

Definition spawn (oc : bool) (principal : Principal) (initial_grants : list AuthorityGrant) (s : ActorSystem) : outcome IpcError (Z * ActorSystem) :=
  let id := next_id s in
  next ← uadd 64 oc id 1;
  let senders := {[id]} ∪ senders s in
  let principals := <[id := principal]> (principals s) in
  Ret (id, mkSystem next senders principals ({[id]} ∪ handles s)
             (<[id := mkActor principal senders principals initial_grants [] None]> (actors s))).

Definition sys_send (from to : Z) (body : list Z) (s : ActorSystem) : result IpcError unit * ActorSystem :=
  if bool_decide (to ∈ senders s) then channel_send to (mkMessage from body None) s else (Err NoSuchActor, s).

(** [join] waits for the thread; the closure's panic was already caught. *)
Definition join_actor (id : Z) (s : ActorSystem) : option (result IpcError ActorExit * ActorSystem) :=
  if negb (bool_decide (id ∈ handles s)) then Some (Err NoSuchActor, s) else
  match a ← actors s !! id; a_exit a with
  | None => None
  | Some e => Some (Ok e, mkSystem (next_id s) (senders s ∖ {[id]}) (delete id (principals s)) (handles s ∖ {[id]}) (actors s))
  end.

(** ** Schedules *)

Inductive Event :=
| ESpawn (p : Principal) (grants : list AuthorityGrant)
| ERecv (me : Z)
| ERecvTimeout (me : Z) (expired : bool)
| ESend (me to : Z) (body : list Z)
| EDelegate (me to index : Z) (scope : str) (authority : Z) (reason : str) (now : Z) (body : list Z)
| EExit (me : Z) (e : ActorExit)
| ESysSend (from to : Z) (body : list Z)
| EJoin (id : Z).
Inductive Reply :=
| RSpawned (id : Z) | RMessage (r : result IpcError Message) | RSent (r : result IpcError unit) | RExited | RJoined (r : result IpcError ActorExit).

Definition actor_step (oc : bool) (e : Event) (s : ActorSystem) : option (Reply * ActorSystem) :=
  match e with
  | ESpawn p gs => match spawn oc p gs s with Ret (id, s) => Some (RSpawned id, s) | _ => None end
  | ERecv me => a ← running s me; '(r, s) ← recv me a s; Some (RMessage r, s)
  | ERecvTimeout me x => a ← running s me; '(r, s) ← recv_timeout me a x s; Some (RMessage r, s)
  | ESend me to body => a ← running s me; let '(r, s) := send me a to body s in Some (RSent r, s)
  | EDelegate me to i sc au re now body => a ← running s me; let '(r, s) := delegate_to me a to i sc au re now body s in Some (RSent r, s)
  | EExit me x => a ← running s me; Some (RExited, finish me a x s)
  | ESysSend from to body => let '(r, s) := sys_send from to body s in Some (RSent r, s)
  | EJoin id => '(r, s) ← join_actor id s; Some (RJoined r, s)
  end.

(** The events that happened, with their answers. *)
Fixpoint actor_run (oc : bool) (es : list Event) (s : ActorSystem) : list (Event * Reply) * ActorSystem :=
  match es with
  | [] => ([], s)
  | e :: es =>
    match actor_step oc e s with
    | None => actor_run oc es s
    | Some (r, s) => let '(tr, s) := actor_run oc es s in ((e, r) :: tr, s)
    end
  end.

(** ** Grants travel only by delegation *)

Section Grants.
Context (R : AuthorityGrant -> Prop).

(** A grant of [p]: handed out at a spawn, or made for [p] by delegations. *)
Record grant_ok (p : Principal) (g : AuthorityGrant) : Prop := {
  go_root : exists r, R r /\ descends r g;
  go_holder : R g \/ g_holder g = p }.
(** A grant in a message was made for the actor it is sent to. *)
Definition message_ok (p : Principal) (m : Message) : Prop :=
  match msg_grant m with Some g => (exists r, R r /\ descends r g) /\ g_holder g = p | None => True end.

Record actor_ok (s : ActorSystem) (id : Z) (a : Actor) : Prop := {
  ao_directory k p : a_directory a !! k = Some p -> exists b, actors s !! k = Some b /\ a_principal b = p;
  ao_outboxes : a_exit a = None -> id ∈ a_outboxes a;
  ao_held : Forall (grant_ok (a_principal a)) (a_held a);
  ao_inbox : Forall (message_ok (a_principal a)) (a_inbox a) }.

Record sys_ok (s : ActorSystem) : Prop := {
  so_ids id a : actors s !! id = Some a -> 0 <= id < next_id s;
  so_next : 0 <= next_id s;
  so_principals k p : principals s !! k = Some p -> exists b, actors s !! k = Some b /\ a_principal b = p;
  so_actors id a : actors s !! id = Some a -> actor_ok s id a }.

Lemma sys_new_ok : sys_ok system_new.
Proof. split; cbn; try done; intros *; rewrite lookup_empty; done. Qed.

Lemma running_Some s id a : running s id = Some a <-> actors s !! id = Some a /\ a_exit a = None.
Proof.
  unfold running. destruct (actors s !! id) as [b|]; cbn; [|by split; [|intros [? _]]].
  destruct (a_exit b) eqn:E; split; [done|by intros [[= <-] ?]; congruence|by intros [= <-]|by intros [[= <-] _]].
Qed.

(** The known principals stay known when a row is rewritten. *)
Lemma known_update s id a a' k p : actors s !! id = Some a -> a_principal a' = a_principal a ->
  (exists b, actors s !! k = Some b /\ a_principal b = p) -> exists b, (<[id := a']> (actors s)) !! k = Some b /\ a_principal b = p.
Proof.
  intros Ha Hp (b & Hb & <-). destruct (decide (id = k)) as [<-|Hne].
  - exists a'. rewrite lookup_insert_eq. split; [done|]. congruence.
  - exists b. by rewrite lookup_insert_ne.
Qed.

(** Rewriting the row of one actor. *)
Lemma actor_update_ok s id a a' : sys_ok s -> actors s !! id = Some a -> a_principal a' = a_principal a -> a_directory a' = a_directory a ->
  (a_exit a' = None -> id ∈ a_outboxes a') -> Forall (grant_ok (a_principal a)) (a_held a') -> Forall (message_ok (a_principal a)) (a_inbox a') ->
  sys_ok (with_actors (<[id := a']> (actors s)) s).
Proof.
  intros [H1 H2 H3 H4] Ha Hp Hd Ho Hh Hi. split; cbn; [|done| |].
  - intros k b. destruct (decide (id = k)) as [<-|Hne]; [intros _; by eapply H1|]. rewrite lookup_insert_ne by done. apply H1.
  - intros k p Hk. eapply known_update; [done|done|]. by apply H3.
  - intros k b. destruct (decide (id = k)) as [<-|Hne].
    + rewrite lookup_insert_eq. intros [= <-]. split; cbn; [|done|by rewrite Hp|by rewrite Hp]. intros j p. rewrite Hd. intros Hj.
      eapply known_update; [done|done|]. by eapply (ao_directory _ _ _ (H4 _ _ Ha)).
    + rewrite lookup_insert_ne by done. intros Hb. destruct (H4 _ _ Hb) as [Q1 Q2 Q3 Q4]. split; cbn; [|done|done|done].
      intros j p Hj. eapply known_update; [done|done|]. by apply Q1.
Qed.

Lemma channel_send_ok to m s r s' : sys_ok s -> (forall a, actors s !! to = Some a -> message_ok (a_principal a) m) ->
  channel_send to m s = (r, s') -> sys_ok s'.
Proof.
  intros Hs Hm. unfold channel_send. destruct (running s to) as [a|] eqn:E; intros [= <- <-]; [|done].
  apply running_Some in E as [Ha He]. pose proof (so_actors _ Hs _ _ Ha) as [Q1 Q2 Q3 Q4]. eapply actor_update_ok; cbn; try done.
  - intros _. by apply Q2.
  - apply Forall_app. split; [done|]. constructor; [by apply Hm|constructor].
Qed.

Lemma send_message_ok me a to body g s r s' : sys_ok s -> (forall b, actors s !! to = Some b -> message_ok (a_principal b) (mkMessage me body g)) ->
  send_message me a to body g s = (r, s') -> sys_ok s'.
Proof. intros Hs Hm. unfold send_message. case_bool_decide; [by apply channel_send_ok|]. by intros [= <- <-]. Qed.

Lemma take_message_ok me a m rest s : sys_ok s -> actors s !! me = Some a -> a_exit a = None -> a_inbox a = m :: rest ->
  sys_ok (take_message me a m rest s).
Proof.
  intros Hs Ha He Hi. pose proof (so_actors _ Hs _ _ Ha) as [Q1 Q2 Q3 Q4]. rewrite Hi in Q4. apply Forall_cons in Q4 as [Qm Qr].
  eapply actor_update_ok; cbn; try done; [intros _; by apply Q2|]. unfold message_ok in Qm. destruct (msg_grant m) as [g|]; [|done].
  apply Forall_app. split; [done|]. constructor; [|constructor]. destruct Qm as [Qg Qh]. split; [done|by right].
Qed.

(** The grants a schedule hands out at spawns. *)
Definition spawns_from (e : Event) : Prop := match e with ESpawn _ gs => Forall R gs | _ => True end.

Lemma spawn_ok oc p gs s id s' : sys_ok s -> Forall R gs -> next_id s + 1 < 2 ^ 64 -> spawn oc p gs s = Ret (id, s') ->
  sys_ok s' /\ next_id s' = next_id s + 1 /\ id = next_id s /\ actors s !! id = None.
Proof.
  intros Hs Hg Hn. unfold spawn. rewrite uadd_small by done. cbn [mbind outcome_bind]. intros [= <- <-]. destruct Hs as [H1 H2 H3 H4].
  assert (Hnone : actors s !! next_id s = None).
  { destruct (actors s !! next_id s) eqn:E; [|done]. apply H1 in E. lia. }
  assert (Hknown : forall k q, <[next_id s := p]> (principals s) !! k = Some q ->
    exists b, <[next_id s := mkActor p ({[next_id s]} ∪ senders s) (<[next_id s := p]> (principals s)) gs [] None]> (actors s) !! k = Some b /\ a_principal b = q).
  { intros k q. destruct (decide (next_id s = k)) as [<-|Hne].
    - rewrite !lookup_insert_eq. intros [= <-]. by eexists.
    - rewrite !lookup_insert_ne by done. apply H3. }
  split; [|done]. split; cbn; [|lia|exact Hknown|].
  - intros k b. destruct (decide (next_id s = k)) as [<-|Hne]; [lia|]. rewrite lookup_insert_ne by done. intros Hb. apply H1 in Hb. lia.
  - intros k b. destruct (decide (next_id s = k)) as [<-|Hne].
    + rewrite lookup_insert_eq. intros [= <-]. split; cbn; [exact Hknown|by set_solver| |constructor].
      eapply Forall_impl; [exact Hg|]. intros g Hr. split; [exists g; split; [done|constructor]|by left].
    + rewrite lookup_insert_ne by done. intros Hb. destruct (H4 _ _ Hb) as [Q1 Q2 Q3 Q4]. split; cbn; [|done|done|done].
      intros j q Hj. destruct (Q1 _ _ Hj) as (c & Hc & <-). exists c. rewrite lookup_insert_ne; [done|]. intros Ej. rewrite Ej in Hnone. congruence.
Qed.

Lemma actor_step_ok oc e s r s' : sys_ok s -> spawns_from e -> next_id s + 1 < 2 ^ 64 -> actor_step oc e s = Some (r, s') ->
  sys_ok s' /\ next_id s <= next_id s' <= next_id s + 1.
Proof.
  intros Hs Hsp Hn.
  assert (Hcs : forall to m r1 s1, channel_send to m s = (r1, s1) -> next_id s1 = next_id s).
  { intros to m r1 s1. unfold channel_send. destruct (running s to); intros [= _ <-]; done. }
  assert (Hsm : forall me a to body g r1 s1, send_message me a to body g s = (r1, s1) -> next_id s1 = next_id s).
  { intros me a to body g r1 s1. unfold send_message. case_bool_decide; [apply Hcs|]. by intros [= _ <-]. }
  destruct e as [p gs|me|me x|me to body|me to i sc au re now body|me x|from to body|id]; cbn.
  - destruct (spawn oc p gs s) as [[id s1]| |] eqn:E; [|done|done]. intros [= <- <-]. destruct (spawn_ok _ _ _ _ _ _ Hs Hsp Hn E) as (? & -> & _). split; [done|lia].
  - destruct (running s me) as [a|] eqn:Ea; [|done]. apply running_Some in Ea as [Ha He]. cbn. unfold recv.
    destruct (a_inbox a) as [|m rest] eqn:Ei; [destruct (sender_alive s me); [done|]|]; cbn; intros [= <- <-]; (split; [|cbn; lia]); [done|by apply take_message_ok].
  - destruct (running s me) as [a|] eqn:Ea; [|done]. apply running_Some in Ea as [Ha He]. cbn. unfold recv_timeout.
    destruct (a_inbox a) as [|m rest] eqn:Ei.
    + destruct (negb (sender_alive s me)); [|destruct x; [|done]]; cbn; intros [= <- <-]; (split; [done|lia]).
    + cbn; intros [= <- <-]. split; [by apply take_message_ok|cbn; lia].
  - destruct (running s me) as [a|]; [|done]. cbn. unfold send. destruct (send_message me a to body None s) as [r1 s1] eqn:E. intros [= <- <-].
    split; [|rewrite (Hsm _ _ _ _ _ _ _ E); lia]. eapply send_message_ok; [done| |exact E]. by intros b _.
  - destruct (running s me) as [a|] eqn:Ea; [|done]. apply running_Some in Ea as [Ha He]. cbn. unfold delegate_to.
    destruct (a_held a !! Z.to_nat i) as [parent|] eqn:Ep; [|intros [= <- <-]; split; [done|lia]].
    destruct (a_directory a !! to) as [target|] eqn:Et; [|intros [= <- <-]; split; [done|lia]].
    destruct (delegate parent target sc au re now) as [child|err] eqn:Ed; [|intros [= <- <-]; split; [done|lia]].
    destruct (send_message me a to body (Some child) s) as [r1 s1] eqn:E. intros [= <- <-].
    split; [|rewrite (Hsm _ _ _ _ _ _ _ E); lia]. eapply send_message_ok; [done| |exact E]. intros b Hb. unfold message_ok. cbn.
    pose proof (so_actors _ Hs _ _ Ha) as [Q1 _ Q3 _]. destruct (Q1 _ _ Et) as (b' & Hb' & Hp). assert (b' = b) as -> by congruence.
    rewrite Forall_forall in Q3. destruct (Q3 parent) as [(r0 & Hr0 & Hd0) _]; [by eapply list_elem_of_lookup_2|].
    pose proof (delegate_ok _ _ _ _ _ _ _ Ed) as (Hh & _). split; [exists r0; split; [done|by eapply descends_by]|congruence].
  - destruct (running s me) as [a|] eqn:Ea; [|done]. apply running_Some in Ea as [Ha He]. cbn. intros [= <- <-]. split; [|cbn; lia].
    pose proof (so_actors _ Hs _ _ Ha) as [Q1 Q2 Q3 Q4]. eapply actor_update_ok; cbn; try done.
  - unfold sys_send. case_bool_decide; [|intros [= <- <-]; split; [done|lia]]. destruct (channel_send to (mkMessage from body None) s) as [r1 s1] eqn:E.
    intros [= <- <-]. split; [|rewrite (Hcs _ _ _ _ E); lia]. eapply channel_send_ok; [done| |exact E]. by intros a _.
  - unfold join_actor. case_bool_decide; cbn [negb]; [|intros [= <- <-]; split; [done|lia]].
    destruct (a ← actors s !! id; a_exit a) as [x|]; [|done]. cbn. intros [= <- <-]. split; [|cbn; lia]. destruct Hs as [H1 H2 H3 H4].
    split; cbn; [done|done| |]. intros k p Hk. apply lookup_delete_Some in Hk as [_ Hk]. by apply H3. intros k a Hk. destruct (H4 _ _ Hk) as [Q1 Q2 Q3 Q4]. by split.
Qed.

Lemma actor_run_ok oc es : forall s tr s', sys_ok s -> Forall spawns_from es -> next_id s + zlen es < 2 ^ 64 -> actor_run oc es s = (tr, s') -> sys_ok s'.
Proof.
  induction es as [|e es IH]; intros s tr s' Hs Hsp Hn; cbn; [by intros [= _ <-]|]. apply Forall_cons in Hsp as [He Hes]. unfold zlen in *. cbn [length] in Hn.
  destruct (actor_step oc e s) as [[r s1]|] eqn:E; [|apply IH; [done|done|lia]]. destruct (actor_step_ok _ _ _ _ _ Hs He ltac:(lia) E) as [Hs1 Hn1].
  destruct (actor_run oc es s1) as [tr1 s2] eqn:E2. intros [= _ <-]. eapply IH; [exact Hs1|done|lia|exact E2].
Qed.

(** C23: In every schedule of spawns, sends, delegations, receives, exits, panics and joins: each grant
    an actor holds, and each grant waiting in its inbox, descends by recorded delegations from a grant
    handed out at some spawn, so its scope and authority are within that grant's; and one that came in a
    message names the receiving actor's own principal as its holder. *)
Theorem grants_travel_only_by_delegation (oc : bool) (es : list Event) (tr : list (Event * Reply)) (s : ActorSystem) (id : Z) (a : Actor) :
  Forall spawns_from es -> zlen es < 2 ^ 64 -> actor_run oc es system_new = (tr, s) -> actors s !! id = Some a ->
  Forall (fun g => exists r, R r /\ descends r g /\ within (g_scope r) (g_authority r) (g_scope g) (g_authority g) /\ (R g \/ g_holder g = a_principal a)) (a_held a)
  /\ Forall (fun m => forall g, msg_grant m = Some g ->
       g_holder g = a_principal a /\ exists r, R r /\ descends r g /\ within (g_scope r) (g_authority r) (g_scope g) (g_authority g)) (a_inbox a).
Proof.
  intros Hsp Hn Hr Ha. pose proof (actor_run_ok oc es _ _ _ sys_new_ok Hsp ltac:(cbn; lia) Hr) as Hs. destruct (so_actors _ Hs _ _ Ha) as [_ _ Hh Hi]. split.
  - eapply Forall_impl; [exact Hh|]. intros g [(r & Hr0 & Hd) Hg]. exists r. split; [done|]. split; [done|]. split; [by apply descends_within|done].
  - eapply Forall_impl; [exact Hi|]. intros m Hm g Hg. unfold message_ok in Hm. rewrite Hg in Hm. destruct Hm as [(r & Hr0 & Hd) Hh2].
    split; [done|]. exists r. split; [done|]. split; [done|by apply descends_within].
Qed.

(** An actor's own context holds a sender of its inbox, so the inbox of a
    running actor is never closed: [recv] on an empty one waits for ever when
    nobody is left to send, and [InboxClosed] is never answered. *)
Theorem an_inbox_is_never_closed oc es tr s me a : Forall spawns_from es -> zlen es < 2 ^ 64 -> actor_run oc es system_new = (tr, s) ->
  running s me = Some a -> a_inbox a = [] -> recv me a s = None /\ recv_timeout me a false s = None.
Proof.
  intros Hsp Hn Hr Ha Hi. pose proof (actor_run_ok oc es _ _ _ sys_new_ok Hsp ltac:(cbn; lia) Hr) as Hs. apply running_Some in Ha as [Ha He].
  assert (sender_alive s me = true) as Hal.
  { unfold sender_alive. apply orb_true_iff. right. apply existsb_exists. exists (me, a). split; [by apply list_elem_of_In, elem_of_map_to_list|]. cbn. rewrite He.
    apply bool_decide_eq_true_2. by apply (ao_outboxes _ _ _ (so_actors _ Hs _ _ Ha)). }
  unfold recv, recv_timeout. by rewrite Hi, Hal.
Qed.
End Grants.

(** ** Messages arrive once and in order *)

Definition key (m : Message) : Z * list Z := (msg_from m, msg_body m).

(** What an event puts into the channel of [id], and what it takes out. *)
Definition puts_in (id : Z) (er : Event * Reply) : list (Z * list Z) :=
  match er with
  | (ESend me to body, RSent (Ok _)) | (EDelegate me to _ _ _ _ _ body, RSent (Ok _)) | (ESysSend me to body, RSent (Ok _)) =>
    if to =? id then [(me, body)] else []
  | _ => []
  end.
Definition takes_out (id : Z) (er : Event * Reply) : list (Z * list Z) :=
  match er with
  | (ERecv me, RMessage (Ok m)) | (ERecvTimeout me _, RMessage (Ok m)) => if me =? id then [key m] else []
  | _ => []
  end.

(** The channel of a running actor. *)
Definition channel (s : ActorSystem) (id : Z) : list (Z * list Z) :=
  match running s id with Some a => key <$> a_inbox a | None => [] end.

(** One event: the channel is a queue, and an actor that has ended stays so. *)
Definition queue_step (s s' : ActorSystem) (er : Event * Reply) : Prop :=
  forall id, (is_Some (running s' id) -> channel s id ++ puts_in id er = takes_out id er ++ channel s' id)
    /\ (is_Some (actors s !! id) -> running s id = None -> running s' id = None /\ puts_in id er = [] /\ takes_out id er = [])
    /\ (actors s !! id = None -> puts_in id er = [] /\ takes_out id er = [] /\ channel s' id = [])
    /\ (is_Some (actors s !! id) -> is_Some (actors s' !! id)).

Lemma running_update s id a b k : running (with_actors (<[id := a]> (actors s)) b) k
  = if decide (id = k) then match a_exit a with None => Some a | Some _ => None end else running s k.
Proof. unfold running. cbn. case_decide as E; [subst k; by rewrite lookup_insert_eq|by rewrite lookup_insert_ne]. Qed.

Lemma queue_same s er : (forall id, puts_in id er = [] /\ takes_out id er = []) -> queue_step s s er.
Proof.
  intros H id. destruct (H id) as [-> ->]. split; [by rewrite app_nil_r|]. split; [done|]. split; [|done].
  intros Hn. unfold channel, running. by rewrite Hn.
Qed.

(** A row of a running actor is rewritten: its queue by the law, others kept. *)
Lemma queue_update s me a a' er : running s me = Some a ->
  (a_exit a' = None -> (key <$> a_inbox a) ++ puts_in me er = takes_out me er ++ (key <$> a_inbox a')) ->
  (forall id, id <> me -> puts_in id er = [] /\ takes_out id er = []) ->
  queue_step s (with_actors (<[me := a']> (actors s)) s) er.
Proof.
  intros Ha Hq Ho id. pose proof Ha as Ha0. apply running_Some in Ha as [Hl He]. unfold channel. rewrite running_update.
  destruct (decide (me = id)) as [<-|Hne].
  - rewrite Ha0. split; [destruct (a_exit a'); [by intros []|intros _; by apply Hq]|]. split; [by intros _ [=]|]. split; [congruence|].
    intros _. cbn. by rewrite lookup_insert_eq.
  - destruct (Ho id) as [-> ->]; [done|]. rewrite app_nil_r. split; [done|]. split; [done|]. split.
    + intros Hn. split; [done|]. split; [done|]. unfold running. by rewrite Hn.
    + cbn. by rewrite lookup_insert_ne.
Qed.

Lemma other_ne to id : id <> to -> (to =? id) = false.
Proof. intros. apply Z.eqb_neq. congruence. Qed.

(** A message put into a channel. *)
Lemma queue_send to m s r s' er : channel_send to m s = (r, s') ->
  (forall id, takes_out id er = []) -> (forall id, puts_in id er = match r with Ok _ => if to =? id then [key m] else [] | Err _ => [] end) -> queue_step s s' er.
Proof.
  intros H Ht Hp. unfold channel_send in H. destruct (running s to) as [a|] eqn:E; injection H as <- <-.
  - eapply queue_update; [exact E| |].
    + intros _. cbn. rewrite Hp, Ht, Z.eqb_refl, fmap_app. done.
    + intros id Hid. by rewrite Hp, Ht, other_ne.
  - apply queue_same. intros id. by rewrite Hp, Ht.
Qed.
Lemma queue_send_message me a to body g s r s' er : send_message me a to body g s = (r, s') ->
  (forall id, takes_out id er = []) -> (forall id, puts_in id er = match r with Ok _ => if to =? id then [(me, body)] else [] | Err _ => [] end) -> queue_step s s' er.
Proof.
  unfold send_message. case_bool_decide; [intros H1 H2 H3; by eapply queue_send|]. intros [= <- <-] Ht Hp. apply queue_same. intros id. by rewrite Hp, Ht.
Qed.
Lemma queue_take me a m rest s er : running s me = Some a -> a_inbox a = m :: rest ->
  (forall id, puts_in id er = []) -> (forall id, takes_out id er = if me =? id then [key m] else []) -> queue_step s (take_message me a m rest s) er.
Proof.
  intros Ha Hi Hp Ht. eapply queue_update; [exact Ha| |].
  - intros _. cbn. by rewrite Hi, Hp, Ht, Z.eqb_refl, app_nil_r.
  - intros id Hid. by rewrite Hp, Ht, other_ne.
Qed.

Lemma actor_step_queue R oc e s r s' : sys_ok R s -> next_id s + 1 < 2 ^ 64 -> actor_step oc e s = Some (r, s') -> queue_step s s' (e, r).
Proof.
  intros Hs Hn. destruct e as [p gs|me|me x|me to body|me to i sc au re now body|me x|from to body|id]; cbn.
  - unfold spawn. rewrite uadd_small by done. cbn [mbind outcome_bind]. intros [= <- <-] id. cbn [puts_in takes_out app]. rewrite app_nil_r.
    assert (Hnone : actors s !! next_id s = None).
    { destruct (actors s !! next_id s) eqn:E; [|done]. apply (so_ids _ _ Hs) in E. lia. }
    unfold channel, running. cbn [actors]. destruct (decide (next_id s = id)) as [<-|Hne].
    + rewrite lookup_insert_eq, Hnone. cbn. split; [done|]. split; [by intros []|]. split; [done|by eexists].
    + rewrite lookup_insert_ne by done. split; [done|]. split; [done|]. split; [|done]. intros ->. done.
  - destruct (running s me) as [a|] eqn:Ea; [|done]. cbn. unfold recv.
    destruct (a_inbox a) as [|m rest] eqn:Ei; [destruct (sender_alive s me); [done|]|]; cbn; intros [= <- <-]; [by apply queue_same|by apply queue_take].
  - destruct (running s me) as [a|] eqn:Ea; [|done]. cbn. unfold recv_timeout. destruct (a_inbox a) as [|m rest] eqn:Ei.
    + destruct (negb (sender_alive s me)); [|destruct x; [|done]]; cbn; intros [= <- <-]; by apply queue_same.
    + cbn; intros [= <- <-]. by apply queue_take.
  - destruct (running s me) as [a|]; [|done]. cbn. unfold send. destruct (send_message me a to body None s) as [r1 s1] eqn:E. intros [= <- <-].
    eapply queue_send_message; [exact E|done|]. intros id. by destruct r1.
  - destruct (running s me) as [a|] eqn:Ea; [|done]. cbn. unfold delegate_to.
    destruct (a_held a !! Z.to_nat i); [|intros [= <- <-]; by apply queue_same]. destruct (a_directory a !! to); [|intros [= <- <-]; by apply queue_same].
    destruct (delegate _ _ sc au re now) as [child|err]; [|intros [= <- <-]; by apply queue_same].
    destruct (send_message me a to body (Some child) s) as [r1 s1] eqn:E. intros [= <- <-].
    eapply queue_send_message; [exact E|done|]. intros id. by destruct r1.
  - destruct (running s me) as [a|] eqn:Ea; [|done]. cbn. intros [= <- <-]. eapply queue_update; [exact Ea|done|done].
  - unfold sys_send. case_bool_decide; [|intros [= <- <-]; by apply queue_same]. destruct (channel_send to (mkMessage from body None) s) as [r1 s1] eqn:E.
    intros [= <- <-]. eapply queue_send; [exact E|done|]. intros id. by destruct r1.
  - unfold join_actor. case_bool_decide; cbn [negb]; [|intros [= <- <-]; by apply queue_same].
    destruct (a ← actors s !! id; a_exit a) as [x|]; [|done]. cbn. intros [= <- <-] k. cbn [puts_in takes_out app]. rewrite app_nil_r.
    split; [done|]. split; [done|]. split; [|done]. intros Hk. unfold channel, running. cbn. by rewrite Hk.
Qed.

Lemma ended_for_good R oc es : forall s tr s' id, sys_ok R s -> Forall (spawns_from R) es -> next_id s + zlen es < 2 ^ 64 ->
  actor_run oc es s = (tr, s') -> is_Some (actors s !! id) -> running s id = None -> running s' id = None.
Proof.
  induction es as [|e es IH]; intros s tr s' id Hs Hsp Hn; cbn; [by intros [= _ <-]|]. apply Forall_cons in Hsp as [He Hes]. unfold zlen in *. cbn [length] in Hn.
  destruct (actor_step oc e s) as [[r s1]|] eqn:E; [|apply IH; [done|done|lia]]. destruct (actor_step_ok _ _ _ _ _ _ Hs He ltac:(lia) E) as [Hs1 Hn1].
  destruct (actor_run oc es s1) as [tr1 s2] eqn:E2. intros [= _ <-] Hx Hr. destruct (actor_step_queue _ _ _ _ _ _ Hs ltac:(lia) E id) as (_ & H2 & _ & H4).
  eapply IH; [exact Hs1|done|lia|exact E2|by apply H4|by apply H2].
Qed.

Lemma actor_run_queue R oc es : forall s tr s' id, sys_ok R s -> Forall (spawns_from R) es -> next_id s + zlen es < 2 ^ 64 ->
  actor_run oc es s = (tr, s') -> is_Some (running s' id) -> channel s id ++ flat_map (puts_in id) tr = flat_map (takes_out id) tr ++ channel s' id.
Proof.
  induction es as [|e es IH]; intros s tr s' id Hs Hsp Hn; cbn; [intros [= <- <-] _; by rewrite app_nil_r|].
  apply Forall_cons in Hsp as [He Hes]. unfold zlen in *. cbn [length] in Hn.
  destruct (actor_step oc e s) as [[r s1]|] eqn:E; [|apply IH; [done|done|lia]]. destruct (actor_step_ok _ _ _ _ _ _ Hs He ltac:(lia) E) as [Hs1 Hn1].
  destruct (actor_run oc es s1) as [tr1 s2] eqn:E2. intros [= <- <-] Hr. cbn [flat_map].
  destruct (actor_step_queue _ _ _ _ _ _ Hs ltac:(lia) E id) as (H1 & H2 & H3 & H4).
  pose proof (IH _ _ _ id Hs1 Hes ltac:(lia) E2 Hr) as Hq.
  destruct (running s1 id) as [a|] eqn:E1; [rewrite app_assoc, (H1 ltac:(by eexists)), <- !app_assoc; by rewrite Hq|].
  destruct (actors s1 !! id) as [a|] eqn:Ea.
  - rewrite (ended_for_good R oc es s1 tr1 s2 id Hs1 Hes ltac:(unfold zlen; lia) E2 ltac:(by eexists) E1) in Hr. by destruct Hr.
  - assert (Hn0 : actors s !! id = None) by (destruct (actors s !! id); [destruct (H4 ltac:(by eexists)); congruence|done]).
    destruct (H3 Hn0) as (-> & -> & Hc). rewrite Hc in Hq. cbn [app] in *. unfold channel at 1, running. by rewrite Hn0.
Qed.

(** In every schedule, what a running actor has been sent, by actors and by the
    owner, in the order the sends happened, is what it has received followed by
    what waits in its inbox: nothing is lost, doubled or reordered. *)
Theorem messages_arrive_once_and_in_order R oc es tr s id a : Forall (spawns_from R) es -> zlen es < 2 ^ 64 ->
  actor_run oc es system_new = (tr, s) -> running s id = Some a -> flat_map (puts_in id) tr = flat_map (takes_out id) tr ++ (key <$> a_inbox a).
Proof.
  intros Hsp Hn Hr Ha. pose proof (actor_run_queue R oc es _ _ _ id (sys_new_ok R) Hsp ltac:(cbn; lia) Hr ltac:(by eexists)) as H.
  unfold channel in H. rewrite Ha in H. unfold running in H at 1. cbn in H. exact H.
Qed.

(** ** At work *)

(** The crate's transfer: a sender delegates read access to a receiver, then
    tries to widen it. *)
Definition sender_grant : AuthorityGrant := mkGrant writer (lit "refs/projects/dezh") (READ_OBJECT .| DELEGATE) [].
Definition transfer : list Event :=
  [ESpawn ali []; ESpawn writer [sender_grant];
   EDelegate 1 0 0 (lit "refs/projects/dezh/docs") READ_OBJECT (lit "share read-only docs") 5 [1];
   EDelegate 1 0 0 (lit "refs/projects/dezh/docs") (READ_OBJECT .| UPDATE_REF) (lit "try widen") 6 [2];
   ERecv 0; EExit 1 Panicked; EJoin 1; ESysSend 9 0 [3]; ERecv 0; ERecv 0].

Definition transferred : option Actor := actors (actor_run true transfer system_new).2 !! 0.
Definition received_grant : option AuthorityGrant := a ← transferred; head (a_held a).

Lemma grants_travel_only_by_delegation_witness : exists g, received_grant = Some g /\ g_authority g = READ_OBJECT /\ g_holder g = ali
  /\ within (g_scope sender_grant) (g_authority sender_grant) (g_scope g) (g_authority g).
Proof.
  destruct (actor_run true transfer system_new) as [tr s] eqn:E. destruct (actors s !! 0) as [a|] eqn:Ea.
  - destruct (grants_travel_only_by_delegation (eq sender_grant) true transfer tr s 0 a) as [Hh _]; [repeat constructor|reflexivity|exact E|exact Ea|].
    assert (Ht : transferred = Some a) by (unfold transferred; rewrite E; exact Ea).
    assert (H : (g ← received_grant; Some (g_authority g, g_holder g)) = Some (READ_OBJECT, ali)) by (vm_compute; reflexivity).
    unfold received_grant in *. rewrite Ht in *. cbn in *. destruct (a_held a) as [|g gs]; [discriminate H|]. cbn in *. injection H as H1 H2.
    exists g. split; [reflexivity|]. split; [exact H1|]. split; [exact H2|]. apply Forall_cons in Hh as [(r & <- & _ & Hw & _) _]. exact Hw.
  - exfalso. assert (H : match transferred with Some _ => true | None => false end = true) by (vm_compute; reflexivity).
    unfold transferred in H. rewrite E in H. cbn [snd] in H. rewrite Ea in H. discriminate H.
Defined.
