(* ===== verification/Placement.v ===== *)
(** * Task placement (spikes/dezh-scheduler/src/lib.rs)

    The engine scores every resource for a task and takes the best.  An [f64] is
    the Standard Library's executable specification of binary64 arithmetic
    ([SpecFloat], 53 bits of precision, exponents below 1024), so scores are
    computed with the rounding of the code; a decimal literal is the correctly
    rounded quotient of two integers. *)

From Stdlib Require Import ZArith Lia SpecFloat.
From stdpp Require Import base option numbers list gmap.
From S2P Require Import Prelude.

Definition f64 : Type := spec_float.
Definition fadd : f64 -> f64 -> f64 := SFadd 53 1024.
Definition fsub : f64 -> f64 -> f64 := SFsub 53 1024.
Definition fmul : f64 -> f64 -> f64 := SFmul 53 1024.
Definition fdiv : f64 -> f64 -> f64 := SFdiv 53 1024.
(** An integer as an [f64], and a decimal literal [n / d]. *)
Definition f_of_Z (n : Z) : f64 := binary_normalize 53 1024 n 0 false.
Definition f_lit (n d : Z) : f64 := fdiv (f_of_Z n) (f_of_Z d).
Definition is_finite (x : f64) : bool := match x with S754_infinity _ | S754_nan => false | _ => true end.

(** ** Data *)

Inductive ResourceKind := EfficiencyCpu | PerformanceCpu | Gpu | Npu.
Record Resource := mkResource {
  node : Z; kind : ResourceKind; compute_score : f64; energy_cost : f64; queue_depth : Z; numa_distance : Z }.
Inductive TaskClass := TLatencySensitive | TBatch | TInteractive.
Inductive WorkloadHint := Scalar | DataParallel | Tensor.
Record PlacedTask := mkTask { t_class : TaskClass; t_hint : WorkloadHint; required_objects : list Z }.
Inductive Policy := Mobile | Desktop | Server | LatencySensitive | Batch.
Record PlacementExplanation := mkExplanation {
  x_compute : f64; x_accelerator_fit : f64; x_data_locality : f64; x_energy_penalty : f64; x_queue_penalty : f64; x_numa_penalty : f64; x_policy : Policy }.
Record Placement := mkPlacement { p_resource : Resource; p_score : f64; p_explanation : PlacementExplanation }.
Inductive SchedulerError := NoResources | InvalidResource.

Definition ObjectLocations : Type := gmap Z Z.
Definition locations_set (object node : Z) (l : ObjectLocations) : ObjectLocations := <[object := node]> l.
Definition locations_get (object : Z) (l : ObjectLocations) : option Z := l !! object.

Record PlacementEngine := mkEngine { pe_resources : list Resource; pe_locations : ObjectLocations }.

Definition invalid_resource (r : Resource) : bool :=
  negb (is_finite (compute_score r)) || negb (is_finite (energy_cost r))
  || SFleb (compute_score r) (S754_zero false) || SFleb (energy_cost r) (S754_zero false).
Definition engine_new (resources : list Resource) (locations : ObjectLocations) : result SchedulerError PlacementEngine :=
  if bool_decide (length resources = 0%nat) then Err NoResources else
  if existsb invalid_resource resources then Err InvalidResource else Ok (mkEngine resources locations).

(** ** Weights *)

Definition compute_weight (p : Policy) (c : TaskClass) : f64 :=
  match p, c with
  | Mobile, _ => f_lit 7 10
  | Desktop, TInteractive => f_lit 12 10
  | Server, TBatch => f_lit 13 10
  | LatencySensitive, _ => f_of_Z 1
  | Batch, _ => f_lit 14 10
  | _, _ => f_of_Z 1
  end.
Definition accelerator_weight (p : Policy) : f64 :=
  match p with Mobile => f_of_Z 3 | Desktop => f_of_Z 2 | Server => f_lit 22 10 | LatencySensitive => f_of_Z 1 | Batch => f_lit 24 10 end.
Definition accelerator_fit (h : WorkloadHint) (k : ResourceKind) : f64 :=
  match h, k with
  | Tensor, Npu => f_of_Z 12
  | Tensor, Gpu => f_of_Z 8
  | DataParallel, Gpu => f_of_Z 10
  | DataParallel, Npu => f_of_Z 5
  | Scalar, PerformanceCpu => f_of_Z 5
  | Scalar, EfficiencyCpu => f_of_Z 3
  | _, _ => f_of_Z 0
  end.
Definition locality_weight (p : Policy) : f64 :=
  match p with Mobile => f_of_Z 4 | Desktop => f_of_Z 5 | Server => f_of_Z 12 | LatencySensitive => f_of_Z 10 | Batch => f_of_Z 8 end.
Definition energy_weight (p : Policy) : f64 :=
  match p with Mobile => f_lit 35 10 | Desktop => f_lit 8 10 | Server => f_lit 5 10 | LatencySensitive => f_lit 3 10 | Batch => f_lit 6 10 end.
Definition queue_weight (p : Policy) (c : TaskClass) : f64 :=
  match p, c with
  | LatencySensitive, _ | _, TLatencySensitive => f_lit 25 10
  | Desktop, TInteractive => f_lit 18 10
  | Batch, _ => f_lit 2 10
  | _, _ => f_lit 8 10
  end.
Definition numa_weight (p : Policy) : f64 :=
  match p with Server => f_lit 16 10 | LatencySensitive => f_of_Z 2 | Batch => f_lit 7 10 | Mobile | Desktop => f_lit 5 10 end.

(** ** Scoring and placement *)

Definition data_locality (e : PlacementEngine) (t : PlacedTask) (n : Z) : f64 :=
  if bool_decide (length (required_objects t) = 0%nat) then f_of_Z 0 else
  let local := length (filter (fun o => locations_get o (pe_locations e) = Some n) (required_objects t)) in
  fdiv (f_of_Z (Z.of_nat local)) (f_of_Z (zlen (required_objects t))).

Definition score (e : PlacementEngine) (t : PlacedTask) (policy : Policy) (r : Resource) : Placement :=
  let compute := fmul (compute_score r) (compute_weight policy (t_class t)) in
  let fit := fmul (accelerator_fit (t_hint t) (kind r)) (accelerator_weight policy) in
  let locality := fmul (data_locality e t (node r)) (locality_weight policy) in
  let energy := fmul (energy_cost r) (energy_weight policy) in
  let queue := fmul (f_of_Z (queue_depth r)) (queue_weight policy (t_class t)) in
  let numa := fmul (f_of_Z (numa_distance r)) (numa_weight policy) in
  let total := fsub (fsub (fsub (fadd (fadd compute fit) locality) energy) queue) numa in
  mkPlacement r total (mkExplanation compute fit locality energy queue numa policy).

(** [Iterator::max_by]: the later of two elements unless the earlier is greater;
    scores that do not compare count as equal. *)
Definition later_max (a b : Placement) : Placement :=
  match SFcompare (p_score a) (p_score b) with Some Gt => a | _ => b end.
Definition place (e : PlacementEngine) (t : PlacedTask) (policy : Policy) : outcome SchedulerError Placement :=
  match score e t policy <$> pe_resources e with
  | [] => Panic
  | p :: ps => Ret (foldl later_max p ps)
  end.

(** ** Binary64 comparison is a total preorder, NaN apart *)

(** The place of a float in the order, lexicographically. *)
Definition rank (x : f64) : Z * Z * Z :=
  match x with
  | S754_infinity true => (-2, 0, 0)
  | S754_finite true m e => (-1, - e, - Z.pos m)
  | S754_zero _ | S754_nan => (0, 0, 0)
  | S754_finite false m e => (1, e, Z.pos m)
  | S754_infinity false => (2, 0, 0)
  end.
Definition lex (a b : Z * Z * Z) : comparison :=
  match Z.compare a.1.1 b.1.1 with
  | Eq => match Z.compare a.1.2 b.1.2 with Eq => Z.compare a.2 b.2 | c => c end
  | c => c
  end.

Definition not_nan (x : f64) : Prop := match x with S754_nan => False | _ => True end.

Lemma SFcompare_rank x y : not_nan x -> not_nan y -> SFcompare x y = Some (lex (rank x) (rank y)).
Proof.
  destruct x as [sx|sx| |sx mx ex], y as [sy|sy| |sy my ey]; try done; intros _ _; destruct sx; try destruct sy; try reflexivity; unfold lex; cbn.
  rewrite Z.compare_opp, (Z.compare_antisym ex ey). destruct (Z.compare ex ey); reflexivity.
Qed.

Lemma lex_le a b : lex a b <> Gt <-> (a.1.1 < b.1.1 \/ a.1.1 = b.1.1 /\ (a.1.2 < b.1.2 \/ a.1.2 = b.1.2 /\ a.2 <= b.2)).
Proof.
  unfold lex. destruct (Z.compare_spec a.1.1 b.1.1); [destruct (Z.compare_spec a.1.2 b.1.2); [destruct (Z.compare_spec a.2 b.2)| |]| |];
    split; intros; try done; try lia; try congruence; exfalso; lia.
Qed.
Lemma lex_trans a b c : lex a b <> Gt -> lex b c <> Gt -> lex a c <> Gt.
Proof. rewrite !lex_le. lia. Qed.
Lemma lex_gt a b : lex a b = Gt -> lex b a <> Gt.
Proof. intros H. rewrite lex_le. destruct (decide (lex a b <> Gt)) as [?|Hn]; [done|]. rewrite lex_le in Hn. lia. Qed.

(** [a] scores no more than [b]. *)
Definition no_more (a b : Placement) : Prop := lex (rank (p_score a)) (rank (p_score b)) <> Gt.

Lemma later_max_spec a b : not_nan (p_score a) -> not_nan (p_score b) ->
  (later_max a b = a \/ later_max a b = b) /\ no_more a (later_max a b) /\ no_more b (later_max a b).
Proof.
  intros Ha Hb. unfold later_max. rewrite SFcompare_rank by done. assert (Hr : forall p, no_more p p) by (intros p; apply lex_le; lia).
  destruct (lex (rank (p_score a)) (rank (p_score b))) eqn:E; (split; [by auto|]); (split; [|by auto || by apply lex_gt]); try apply Hr; unfold no_more; by rewrite E.
Qed.

Lemma foldl_later_max ps : forall p, not_nan (p_score p) -> Forall (fun q => not_nan (p_score q)) ps ->
  let best := foldl later_max p ps in best ∈ p :: ps /\ Forall (fun q => no_more q best) (p :: ps).
Proof.
  induction ps as [|q ps IH]; intros p Hp Hps; cbn; [split; [by left|]; constructor; [apply lex_le; lia|constructor]|].
  apply Forall_cons in Hps as [Hq Hps]. destruct (later_max_spec p q Hp Hq) as (Hor & Hpm & Hqm).
  assert (Hm : not_nan (p_score (later_max p q))) by (destruct Hor as [->| ->]; done). destruct (IH _ Hm Hps) as [Hin Hall].
  apply Forall_cons in Hall as [Hmb Hall]. split.
  - apply elem_of_cons in Hin as [Hin|Hin]; [|by do 2 right]. rewrite Hin. destruct Hor as [->| ->]; [by left|by right; left].
  - constructor; [by eapply lex_trans|]. constructor; [by eapply lex_trans|done].
Qed.

Lemma no_more_leb a b : not_nan (p_score a) -> not_nan (p_score b) -> no_more a b -> SFleb (p_score a) (p_score b) = true.
Proof. intros Ha Hb H. unfold SFleb. rewrite SFcompare_rank by done. unfold no_more in H. by destruct (lex (rank (p_score a)) (rank (p_score b))). Qed.

(** An engine that was accepted always places a task, without
    panicking, on one of its own resources, and no resource scores higher in
    binary64 arithmetic, as long as no score is a NaN. *)
Theorem place_picks_the_best (resources : list Resource) (locations : ObjectLocations) (e : PlacementEngine) (t : PlacedTask) (policy : Policy) :
  engine_new resources locations = Ok e -> Forall (fun r => not_nan (p_score (score e t policy r))) resources ->
  exists p, place e t policy = Ret p /\ (exists r, r ∈ resources /\ p = score e t policy r)
    /\ Forall (fun r => SFleb (p_score (score e t policy r)) (p_score p) = true) resources.
Proof.
  unfold engine_new. case_bool_decide as Hl; [done|]. destruct (existsb invalid_resource resources); [done|]. intros [= <-] Hn.
  unfold place. cbn [pe_resources]. set (sc := score _ t policy) in *. destruct resources as [|r0 rs]; [done|]. cbn [fmap list_fmap].
  apply Forall_cons in Hn as [Hn0 Hns].
  destruct (foldl_later_max (sc <$> rs) (sc r0)) as [Hin Hall]; [done|by apply Forall_fmap|]. eexists. split; [reflexivity|].
  assert (Hr : exists r, r ∈ r0 :: rs /\ foldl later_max (sc r0) (sc <$> rs) = sc r).
  { change (sc r0 :: (sc <$> rs)) with (sc <$> r0 :: rs) in Hin. apply list_elem_of_fmap in Hin as (r & Hr & Hi). by exists r. }
  split; [exact Hr|]. destruct Hr as (r & Hr & Er). change (sc r0 :: (sc <$> rs)) with (sc <$> r0 :: rs) in Hall. rewrite Forall_fmap in Hall. apply Forall_forall. intros q Hq.
  rewrite Forall_forall in Hall. assert (Hnn : forall x, x ∈ r0 :: rs -> not_nan (p_score (sc x))).
  { intros x [->|Hx]%elem_of_cons; [done|]. rewrite Forall_forall in Hns. by apply Hns. }
  apply no_more_leb; [by apply Hnn|rewrite Er; by apply Hnn|by apply (Hall q)].
Qed.

(** ** At work: the crate's example machine *)

Definition example_resources : list Resource :=
  [mkResource 0 EfficiencyCpu (f_of_Z 3) (f_of_Z 1) 0 0; mkResource 1 PerformanceCpu (f_of_Z 9) (f_of_Z 4) 3 1;
   mkResource 2 Gpu (f_of_Z 14) (f_of_Z 8) 1 2; mkResource 3 Npu (f_of_Z 8) (f_of_Z 2) 0 1].
Definition example_locations : ObjectLocations := locations_set 3 2 (locations_set 2 1 (locations_set 1 1 ∅)).
Definition example_engine : PlacementEngine := mkEngine example_resources example_locations.
Definition tensor_task : PlacedTask := mkTask TInteractive Tensor [].
Definition batch_task : PlacedTask := mkTask TBatch Scalar [1; 2].

Lemma place_picks_the_best_witness :
  (exists p, place example_engine tensor_task Mobile = Ret p /\ node (p_resource p) = 3
     /\ Forall (fun r => SFleb (p_score (score example_engine tensor_task Mobile r)) (p_score p) = true) example_resources)
  /\ (exists p, place example_engine batch_task Server = Ret p /\ node (p_resource p) = 1).
Proof.
  split; [|eexists; split; [vm_compute; reflexivity|reflexivity]].
  destruct (place_picks_the_best example_resources example_locations example_engine tensor_task Mobile) as (p & Hp & _ & Hb);
    [reflexivity|unfold example_resources; repeat (apply Forall_cons_2; [vm_compute; exact I|]); apply Forall_nil_2|]. exists p. split; [exact Hp|]. split; [|exact Hb].
  assert (H : match place example_engine tensor_task Mobile with Ret p => node (p_resource p) | _ => -1 end = 3) by (vm_compute; reflexivity).
  rewrite Hp in H. exact H.
Defined.
