(* ===== verification/Smp.v ===== *)
(** * Secondary harts and the parallel round (dezh-boot/src/smp.rs)

    The boot hart starts the others through the firmware ([smp_bringup]) and
    opens rounds of parallel work ([smp_round]); a secondary ([hart_main])
    checks in, waits for the generation to move, drains the shared run queue,
    adds to the atomic counter, adds to the plain counter under the lock, and
    reports.  Every hart is a program counter with its local generation; a
    schedule says which hart performs its next access to shared memory, and
    the accesses interleave in every order.  They are not reordered: the
    Acquire/Release pairs of the source are taken at their word.

    [SMP_LOCK] is its holder, which is what the ticket lock provides (file
    Ticket); the load and the store it protects are two accesses.  A pop or a
    push of the run queue, under the queue's own lock, is one.  The merged
    scheduler and the task window of the wait loop are closed during a round.
    The firmware's answer to HART_START is a parameter. *)

From Stdlib Require Import ZArith Lia.
From stdpp Require Import base option numbers list.
From S2P Require Import Prelude Runq.

Definition MAX_HARTS : nat := 8.
Definition SMP_WORK : Z := 200000.
Definition SMP_LOCK_WORK : Z := 50000.
Definition SMP_SPIN_LIMIT : Z := 300000000.
Definition NJOBS : nat := 48.
Definition RUNQ_CAP : Z := 64.

(** The result of one parallel round. *)
Record SmpRound := mkSmpRound {
  r_parts : Z; r_counter : Z; r_guarded : Z; r_contributors : Z; r_mask : Z;
  r_jobs_done : Z; r_each_once : bool; r_job_harts : Z }.

Definition no_round : SmpRound := mkSmpRound 0 0 0 0 0 0 false 0.

(** ** Shared memory *)

Record Mem := mkMem {
  m_started : Z;            (* SMP_STARTED *)
  m_ran : list bool;        (* HART_RAN *)
  m_online : Z;             (* HARTS_ONLINE *)
  m_gen : Z;                (* SMP_GEN *)
  m_counter : Z;            (* SMP_COUNTER *)
  m_guarded : Z;            (* SMP_GUARDED, a plain u64 *)
  m_lock : option nat;      (* SMP_LOCK: who is inside *)
  m_runq : RunQueue;        (* RUNQ *)
  m_runs : list Z;          (* JOB_RUNS *)
  m_jhart : list Z;         (* JOB_HART *)
  m_done : Z;               (* JOBS_DONE *)
  m_rounds : list Z         (* HART_ROUNDS *) }.

Definition with_started v m := mkMem v (m_ran m) (m_online m) (m_gen m) (m_counter m) (m_guarded m) (m_lock m) (m_runq m) (m_runs m) (m_jhart m) (m_done m) (m_rounds m).
Definition with_ran v m := mkMem (m_started m) v (m_online m) (m_gen m) (m_counter m) (m_guarded m) (m_lock m) (m_runq m) (m_runs m) (m_jhart m) (m_done m) (m_rounds m).
Definition with_online v m := mkMem (m_started m) (m_ran m) v (m_gen m) (m_counter m) (m_guarded m) (m_lock m) (m_runq m) (m_runs m) (m_jhart m) (m_done m) (m_rounds m).
Definition with_gen v m := mkMem (m_started m) (m_ran m) (m_online m) v (m_counter m) (m_guarded m) (m_lock m) (m_runq m) (m_runs m) (m_jhart m) (m_done m) (m_rounds m).
Definition with_counter v m := mkMem (m_started m) (m_ran m) (m_online m) (m_gen m) v (m_guarded m) (m_lock m) (m_runq m) (m_runs m) (m_jhart m) (m_done m) (m_rounds m).
Definition with_guarded v m := mkMem (m_started m) (m_ran m) (m_online m) (m_gen m) (m_counter m) v (m_lock m) (m_runq m) (m_runs m) (m_jhart m) (m_done m) (m_rounds m).
Definition with_lock v m := mkMem (m_started m) (m_ran m) (m_online m) (m_gen m) (m_counter m) (m_guarded m) v (m_runq m) (m_runs m) (m_jhart m) (m_done m) (m_rounds m).
Definition with_runq v m := mkMem (m_started m) (m_ran m) (m_online m) (m_gen m) (m_counter m) (m_guarded m) (m_lock m) v (m_runs m) (m_jhart m) (m_done m) (m_rounds m).
Definition with_runs v m := mkMem (m_started m) (m_ran m) (m_online m) (m_gen m) (m_counter m) (m_guarded m) (m_lock m) (m_runq m) v (m_jhart m) (m_done m) (m_rounds m).
Definition with_jhart v m := mkMem (m_started m) (m_ran m) (m_online m) (m_gen m) (m_counter m) (m_guarded m) (m_lock m) (m_runq m) (m_runs m) v (m_done m) (m_rounds m).
Definition with_done v m := mkMem (m_started m) (m_ran m) (m_online m) (m_gen m) (m_counter m) (m_guarded m) (m_lock m) (m_runq m) (m_runs m) (m_jhart m) v (m_rounds m).
Definition with_rounds v m := mkMem (m_started m) (m_ran m) (m_online m) (m_gen m) (m_counter m) (m_guarded m) (m_lock m) (m_runq m) (m_runs m) (m_jhart m) (m_done m) v.

Definition mem_new : Mem :=
  mkMem 0 (replicate MAX_HARTS false) 0 0 0 0 None (rq_new RUNQ_CAP) (replicate NJOBS 0)
    (replicate NJOBS (2 ^ 32 - 1)) 0 (replicate MAX_HARTS 0).

(** ** Where a hart is: the next access it makes *)

Inductive Pc :=
(* parked in the firmware; the prologue of hart_main *)
| Off | Enter | Online | Serve
(* its wait loop *)
| Wait | Load
(* drain_runq *)
| Pop | MarkRun (id : Z) | MarkHart (id : Z) | MarkDone
(* the atomic and the guarded work, the report *)
| Count (n : Z) | Take (m : Z) | Read (m : Z) | Store (m v : Z) | Unlock (m : Z) | Report
(* smp_bringup *)
| Start (hid : nat) (started : Z) | CheckIn (started spins : Z)
(* smp_round up to the new generation *)
| Begin | Clear | ClearGuarded | ClearDone | ClearRuns (i : nat) | ClearHart (i : nat) | Push (i : nat) | Open
(* its wait for the reports, then the verdict; [in_time] says why the wait ended *)
| Scan (spins : Z) (h : nat) (done : Z)
| GetCounter (in_time : bool) | GetGuarded (in_time : bool) (r : SmpRound) | Tally (in_time : bool) (r : SmpRound) (h : nat)
| GetDone (in_time : bool) (r : SmpRound) | Verdict (in_time : bool) (r : SmpRound) (i : nat) (seen : Z)
| Done (in_time : bool) (r : SmpRound).

(** [h_gen] is [served] of a secondary and [round_gen] of the boot hart. *)
Record Hart := mkHart { h_gen : Z; h_pc : Pc }.

Section Round.
Context (work lock_work spin_limit : Z) (checks : bool).

(** One access of [drain_runq]. *)
Definition drain_access (hartid : nat) (after : Pc) (p : Pc) (m : Mem) : option (outcome Empty_set (Pc * Mem)) :=
  match p with
  | Pop => Some ('(v, q) ← rq_pop RUNQ_CAP checks (m_runq m);
      let m := with_runq q m in
      match v with
      | None => Ret (after, m)
      | Some id => Ret (if id <? Z.of_nat NJOBS then MarkRun id else MarkDone, m)
      end)
  | MarkRun id => Some (Ret (MarkHart id, with_runs (alter (fun n => wrap 32 (n + 1)) (Z.to_nat id) (m_runs m)) m))
  | MarkHart id => Some (Ret (MarkDone, with_jhart (<[Z.to_nat id := wrap 32 (Z.of_nat hartid)]> (m_jhart m)) m))
  | MarkDone => Some (Ret (Pop, with_done (wrap 64 (m_done m + 1)) m))
  | _ => None
  end.

(** One access of the loop of guarded increments: entering the lock (a hart
    that finds it held spins), the load, the store, the release. *)
Definition locked_access (hartid : nat) (after : Pc) (p : Pc) (m : Mem) : option (outcome Empty_set (Pc * Mem)) :=
  match p with
  | Take k => Some (Ret (
      if k <? lock_work then match m_lock m with None => (Read k, with_lock (Some hartid) m) | Some _ => (Take k, m) end
      else (after, m)))
  | Read k => Some (Ret (Store k (m_guarded m), m))
  | Store k v => Some (w ← uadd 64 checks v 1; Ret (Unlock k, with_guarded w m))
  | Unlock k => Some (Ret (Take (k + 1), with_lock None m))
  | _ => None
  end.

(** One access of [hart_main]. *)
Definition hart_main_access (hartid : nat) (x : Hart) (m : Mem) : outcome Empty_set (Hart * Mem) :=
  let g := h_gen x in
  match drain_access hartid (Count 0) (h_pc x) m, locked_access hartid Report (h_pc x) m with
  | Some r, _ | None, Some r => '(p, m) ← r; Ret (mkHart g p, m)
  | None, None =>
    match h_pc x with
    | Enter => Ret (mkHart g Online, if (hartid <? MAX_HARTS)%nat then with_ran (<[hartid := true]> (m_ran m)) m else m)
    | Online => Ret (mkHart g Serve, with_online (wrap 64 (m_online m + 1)) m)
    | Serve => Ret (mkHart (m_gen m) Wait, m)
    | Wait => Ret (if m_gen m =? g then (x, m) else (mkHart g Load, m))
    | Load => Ret (mkHart (m_gen m) Pop, m)
    | Count n => Ret (if n <? work then (mkHart g (Count (n + 1)), with_counter (wrap 64 (m_counter m + 1)) m) else (mkHart g (Take 0), m))
    | Report => Ret (mkHart g Wait, if (hartid <? MAX_HARTS)%nat then with_rounds (alter (fun n => wrap 64 (n + 1)) hartid (m_rounds m)) m else m)
    | _ => Ret (x, m)
    end
  end.

(** [u64::count_ones] *)
Definition count_ones (x : Z) : Z := foldr (fun i n => if Z.testbit x i then n + 1 else n) 0 (seqZ 0 64).

(** The wait loop of [smp_round]: one load of a hart's round count, or the
    test at the end of a pass. *)
Definition scan_access (g spins : Z) (h : nat) (done : Z) (m : Mem) : Pc :=
  match m_rounds m !! h with
  | Some n => Scan spins (S h) (if g <=? n then done + 1 else done)
  | None => if (m_started m <=? done) || (spin_limit <=? spins) then GetCounter (m_started m <=? done) else Scan (spins + 1) 0 0
  end.

(** The verdict: the totals, the tally of participants, the jobs. *)
Definition verdict_access (g : Z) (p : Pc) (m : Mem) : Pc :=
  match p with
  | GetCounter t => GetGuarded t (mkSmpRound 0 (m_counter m) 0 0 0 0 true 0)
  | GetGuarded t r => Tally t (mkSmpRound 0 (r_counter r) (m_guarded m) 0 0 0 true 0) 0
  | Tally t r h =>
    match m_rounds m !! h with
    | Some n => Tally t (if g <=? n
        then mkSmpRound (r_parts r + 1) (r_counter r) (r_guarded r) 0 (Z.lor (r_mask r) (Z.shiftl 1 (Z.of_nat h))) 0 true 0
        else r) (S h)
    | None => GetDone t r
    end
  | GetDone t r => Verdict t (mkSmpRound (r_parts r) (r_counter r) (r_guarded r) 0 (r_mask r) (m_done m) true 0) 0 0
  | Verdict t r i seen =>
    match m_runs m !! i, m_jhart m !! i with
    | Some n, Some h => Verdict t
        (mkSmpRound (r_parts r) (r_counter r) (r_guarded r) 0 (r_mask r) (r_jobs_done r) (r_each_once r && (n =? 1)) 0)
        (S i) (if h <? Z.of_nat MAX_HARTS then Z.lor seen (Z.shiftl 1 h) else seen)
    | _, _ => Done t
        (mkSmpRound (r_parts r) (r_counter r) (r_guarded r) (r_parts r + 1) (r_mask r) (r_jobs_done r) (r_each_once r) (count_ones seen))
    end
  | _ => p
  end.

(** One access of [smp_round]; it is called at [Begin] and returns at [Done]. *)
Definition smp_round_access (boot : nat) (x : Hart) (m : Mem) : outcome Empty_set (Hart * Mem) :=
  let g := h_gen x in
  match drain_access boot (Take 0) (h_pc x) m, locked_access boot (Scan 0 0 0) (h_pc x) m with
  | Some r, _ | None, Some r => '(p, m) ← r; Ret (mkHart g p, m)
  | None, None =>
    match h_pc x with
    | Begin => Ret (mkHart g (if m_started m =? 0 then Done false no_round else Clear), m)
    | Clear => Ret (mkHart g ClearGuarded, with_counter 0 m)
    | ClearGuarded => Ret (mkHart g ClearDone, with_guarded 0 m)
    | ClearDone => Ret (mkHart g (ClearRuns 0), with_done 0 m)
    | ClearRuns i => Ret (if (i <? NJOBS)%nat then (mkHart g (ClearHart i), with_runs (<[i := 0]> (m_runs m)) m) else (mkHart g (Push 0), m))
    | ClearHart i => Ret (mkHart g (ClearRuns (S i)), with_jhart (<[i := 2 ^ 32 - 1]> (m_jhart m)) m)
    | Push i =>
      if (i <? NJOBS)%nat then
        '(ok, q) ← rq_push RUNQ_CAP checks (Z.of_nat i) (m_runq m);
        Ret (mkHart g (if ok : bool then Push (S i) else Open), with_runq q m)
      else Ret (mkHart g Open, m)
    | Open => g ← uadd 64 checks (m_gen m) 1; Ret (mkHart g Pop, with_gen (wrap 64 (m_gen m + 1)) m)
    | Scan spins h done => Ret (mkHart g (scan_access g spins h done m), m)
    | p => Ret (mkHart g (verdict_access g p m), m)
    end
  end.

(** ** The machine *)

Record Smp := mkSmp { s_boot : nat; s_mem : Mem; s_harts : list Hart }.

(** [smp_bringup]: the firmware accepts a present hart that is still parked,
    which then runs [hart_main]; an absent one is skipped. *)
Definition smp_bringup_access (present : nat -> bool) (hid : nat) (started : Z) (s : Smp) : Pc * Smp :=
  if (hid <? MAX_HARTS)%nat then
    if (hid =? s_boot s)%nat then (Start (S hid) started, s) else
    match s_harts s !! hid with
    | Some (mkHart _ Off) =>
      if present hid then (Start (S hid) (started + 1), mkSmp (s_boot s) (s_mem s) (<[hid := mkHart 0 Enter]> (s_harts s)))
      else (Start (S hid) started, s)
    | _ => (Start (S hid) started, s)
    end
  else (CheckIn started 0, mkSmp (s_boot s) (with_started started (s_mem s)) (s_harts s)).

Definition check_in_access (started spins : Z) (m : Mem) : Pc :=
  if (m_online m <? started) && (spins <? spin_limit) then CheckIn started (spins + 1) else Begin.

Definition hart_access (i : nat) (x : Hart) (s : Smp) : outcome Empty_set Smp :=
  '(x, m) ← (if (i =? s_boot s)%nat then smp_round_access i x (s_mem s) else hart_main_access i x (s_mem s));
  Ret (mkSmp (s_boot s) m (<[i := x]> (s_harts s))).

(** Hart [i] makes its next access. *)
Definition smp_turn (present : nat -> bool) (i : nat) (s : Smp) : outcome Empty_set Smp :=
  match s_harts s !! i with
  | None => Ret s
  | Some x =>
    match h_pc x with
    | Start hid started =>
      let '(p, s) := smp_bringup_access present hid started s in
      Ret (mkSmp (s_boot s) (s_mem s) (<[i := mkHart (h_gen x) p]> (s_harts s)))
    | CheckIn started spins =>
      Ret (mkSmp (s_boot s) (s_mem s) (<[i := mkHart (h_gen x) (check_in_access started spins (s_mem s))]> (s_harts s)))
    | _ => hart_access i x s
    end
  end.

Fixpoint smp_turns (present : nat -> bool) (sched : list nat) (s : Smp) : outcome Empty_set Smp :=
  match sched with
  | [] => Ret s
  | i :: sched => s ← smp_turn present i s; smp_turns present sched s
  end.

(** The kernel before [smp_bringup(boot)], then [smp_report_boot]'s round. *)
Definition power_on (boot : nat) : Smp :=
  mkSmp boot mem_new (<[boot := mkHart 0 (Start 0 0)]> (replicate MAX_HARTS (mkHart 0 Off))).

(** What [smp_report_boot] prints of a round: COHERENT, MUTEX-OK, QUEUE-OK or
    their opposites. *)
Definition smp_report (r : SmpRound) : bool * bool * bool :=
  (r_counter r =? r_parts r * work, r_guarded r =? r_contributors r * lock_work,
   (r_jobs_done r =? Z.of_nat NJOBS) && r_each_once r).

(** The boot hart calls [smp_round] again. *)
Definition call_round (s : Smp) : Smp :=
  mkSmp (s_boot s) (s_mem s) (alter (fun x => mkHart (h_gen x) Begin) (s_boot s) (s_harts s)).
End Round.
