(* ===== verification/SmpSafe.v ===== *)
(** * What a parallel round reports, under every interleaving

    A round that opens with the secondaries waiting is exact: if the wait for
    the reports ends because they all arrived, the shared counter is
    participants times work, the plain counter under the lock lost no update,
    and every job of the run queue ran exactly once.  The proof is one
    invariant of the interleaving, in which every shared total is the sum of
    what each hart's program counter says it has contributed.  A hart that
    missed a generation is behind for ever, and every later round ends by the
    spin limit. *)

From Stdlib Require Import ZArith Lia.
From stdpp Require Import base option numbers list.
From S2P Require Import Prelude Runq Smp.

(** ** Sums over the harts *)

Definition total {A} (f : nat -> A -> Z) (l : list A) : Z := foldr Z.add 0 (imap f l).

Lemma total_cons {A} (f : nat -> A -> Z) a l : total f (a :: l) = f 0%nat a + total (fun i => f (S i)) l.
Proof. done. Qed.

Lemma total_insert {A} (f : nat -> A -> Z) l i x y : l !! i = Some x -> total f (<[i := y]> l) = total f l - f i x + f i y.
Proof.
  revert f i. induction l as [|a l IH]; intros f [|i] H; [done|done| |].
  - injection H as ->. cbn [insert list_insert]. rewrite !total_cons. lia.
  - change (<[S i := y]> (a :: l)) with (a :: <[i := y]> l). rewrite !total_cons, (IH (fun i => f (S i)) i H). lia.
Qed.

Lemma total_le {A} (f g : nat -> A -> Z) l : (forall i x, l !! i = Some x -> f i x <= g i x) -> total f l <= total g l.
Proof.
  revert f g. induction l as [|a l IH]; intros f g H; [done|]. rewrite !total_cons.
  pose proof (H 0%nat a eq_refl). specialize (IH (fun i => f (S i)) (fun i => g (S i)) (fun i x Hi => H (S i) x Hi)). lia.
Qed.

Lemma total_ext {A} (f g : nat -> A -> Z) l : (forall i x, l !! i = Some x -> f i x = g i x) -> total f l = total g l.
Proof. intros H. apply Z.le_antisymm; apply total_le; intros i x Hi; rewrite (H i x Hi); lia. Qed.

(** If one sum is below another term by term and not below it in total, no
    term is. *)
Lemma total_tight {A} (f g : nat -> A -> Z) l i x : (forall i x, l !! i = Some x -> f i x <= g i x) ->
  total g l <= total f l -> l !! i = Some x -> f i x = g i x.
Proof.
  revert f g i. induction l as [|a l IH]; intros f g [|i] Hle Ht Hi; [done|done| |]; rewrite !total_cons in Ht;
    pose proof (Hle 0%nat a eq_refl); pose proof (total_le (fun i => f (S i)) (fun i => g (S i)) l (fun i x Hi => Hle (S i) x Hi)).
  - injection Hi as ->. lia.
  - apply (IH (fun i => f (S i)) (fun i => g (S i)) i (fun i x Hi => Hle (S i) x Hi)); [lia|done].
Qed.

Lemma total_scale {A} (f : nat -> A -> Z) k l : total (fun i x => k * f i x) l = k * total f l.
Proof. revert f. induction l as [|a l IH]; intros f; [cbn; lia|]. rewrite !total_cons, (IH (fun i => f (S i))). lia. Qed.

Lemma total_linear {A} (f : nat -> A -> Z) k c b l : (b < length l)%nat ->
  total (fun i x => k * f i x + (if (i =? b)%nat then c else 0)) l = k * total f l + c.
Proof.
  revert f b. induction l as [|a l IH]; intros f [|b] Hb; cbn [length] in Hb; try lia; rewrite !total_cons.
  - pose proof (total_scale (fun i => f (S i)) k l) as E. cbn [Nat.eqb] in *.
    rewrite (total_ext (fun i x => k * f (S i) x + 0) (fun i x => k * f (S i) x)) by (intros; lia). lia.
  - specialize (IH (fun i => f (S i)) b). cbn [Nat.eqb] in *. rewrite IH by lia. lia.
Qed.

Lemma total_zero {A} (f : nat -> A -> Z) l : (forall i x, l !! i = Some x -> f i x = 0) -> total f l = 0.
Proof. intros H. rewrite (total_ext f (fun i x => 0 * f i x)), total_scale; [lia|]. intros i x Hi. rewrite (H i x Hi). lia. Qed.

Lemma total_point {A} (f g : nat -> A -> Z) l h y : l !! h = Some y -> (forall i x, i <> h -> f i x = g i x) ->
  total f l = total g l - g h y + f h y.
Proof.
  revert f g h. induction l as [|a l IH]; intros f g [|h] Hy H; [done|done| |]; rewrite !total_cons.
  - injection Hy as ->. rewrite (total_ext (fun i => f (S i)) (fun i => g (S i))) by (intros; by apply H). lia.
  - rewrite (IH (fun i => f (S i)) (fun i => g (S i)) h) by (done || (intros; apply H; lia)). rewrite (H 0%nat a) by done. lia.
Qed.

Lemma total_nonneg {A} (f : nat -> A -> Z) l : (forall i x, 0 <= f i x) -> 0 <= total f l.
Proof. intros H. rewrite <- (total_zero (fun _ (_ : A) => 0) l) at 1 by done. by apply total_le. Qed.

(** How often [id] waits. *)
Definition occurrences (id : Z) (l : list Z) : Z := total (fun _ v => if v =? id then 1 else 0) l.

Arguments total : simpl never.
Arguments occurrences : simpl never.

Section Round.
Context (work lock_work spin_limit : Z) (checks : bool).

(** [b] is the boot hart, [G] the generation before the round, [r0] the round
    counts then, [st] the harts started and [mq] a bound on the pushes made by
    the end of this round; [on] tells the harts that run from those parked. *)
Context (b : nat) (G : Z) (r0 : list Z) (st mq : Z) (on : nat -> Z).

(** ** What a hart has contributed, read off its program counter *)

Definition finished (x : Hart) : bool := match h_pc x with Wait => h_gen x =? G + 1 | _ => false end.
Definition c_fin (i : nat) (x : Hart) : Z := if (i =? b)%nat then 0 else if finished x then 1 else 0.
Definition c_on (i : nat) (x : Hart) : Z := if (i =? b)%nat then 0 else match h_pc x with Off => 0 | _ => 1 end.
(** Finished, and its report is one the boot hart recognises. *)
Definition c_seen (i : nat) (x : Hart) : Z := if r0 !!! i =? G then c_fin i x else 0.
Definition c_seen_below (h : nat) (i : nat) (x : Hart) : Z := if (i <? h)%nat then c_seen i x else 0.

Definition c_counter (i : nat) (x : Hart) : Z :=
  if (i =? b)%nat then 0 else
  match h_pc x with
  | Count n => n
  | Take _ | Read _ | Store _ _ | Unlock _ | Report => work
  | Wait => if finished x then work else 0
  | _ => 0
  end.

Definition c_guarded (i : nat) (x : Hart) : Z :=
  match h_pc x with
  | Take k | Read k | Store k _ => k
  | Unlock k => k + 1
  | Report => lock_work
  | Wait => if finished x then lock_work else 0
  | Scan _ _ _ | GetCounter _ | GetGuarded _ _ | Tally _ _ _ | GetDone _ _ | Verdict _ _ _ _ | Done _ _ => lock_work
  | _ => 0
  end.

(** A job popped and not yet counted done, or not yet counted run. *)
Definition c_hand (i : nat) (x : Hart) : Z := match h_pc x with MarkRun _ | MarkHart _ | MarkDone => 1 | _ => 0 end.
Definition c_mark (id : Z) (i : nat) (x : Hart) : Z := match h_pc x with MarkRun id' => if id' =? id then 1 else 0 | _ => 0 end.

Definition in_cs (p : Pc) : bool := match p with Read _ | Store _ _ | Unlock _ => true | _ => false end.
Definition drained (p : Pc) : bool :=
  match p with
  | Take _ | Read _ | Store _ _ | Unlock _ | Scan _ _ _ | GetCounter _ | GetGuarded _ _ | Tally _ _ _ | GetDone _ _ | Verdict _ _ _ _ | Done _ _ => true
  | _ => false
  end.

(** Where a hart may be while the round is open. *)
Definition local_ok (i : nat) (x : Hart) : Prop :=
  match h_pc x with
  | Off => i <> b
  | Wait => i <> b /\ (h_gen x = G \/ h_gen x = G + 1)
  | Load => i <> b /\ h_gen x = G
  | Pop | MarkDone => h_gen x = G + 1
  | MarkRun id | MarkHart id => h_gen x = G + 1 /\ 0 <= id < Z.of_nat NJOBS
  | Count n => i <> b /\ h_gen x = G + 1 /\ 0 <= n <= work
  | Take k => h_gen x = G + 1 /\ 0 <= k <= lock_work
  | Read k | Store k _ | Unlock k => h_gen x = G + 1 /\ 0 <= k < lock_work
  | Report => i <> b /\ h_gen x = G + 1
  | Scan spins h _ => i = b /\ h_gen x = G + 1 /\ 0 <= spins <= Z.max 0 spin_limit /\ (h <= MAX_HARTS)%nat
  | Tally _ _ h => i = b /\ h_gen x = G + 1 /\ (h <= MAX_HARTS)%nat
  | Verdict _ _ k _ => i = b /\ h_gen x = G + 1 /\ (k <= NJOBS)%nat
  | GetCounter _ | GetGuarded _ _ | GetDone _ _ | Done _ _ => i = b /\ h_gen x = G + 1
  | _ => False
  end.

(** Everybody reported. *)
Definition all_in (hs : list Hart) : Prop := st <= total c_seen hs.

Definition counts_ok (r : SmpRound) : Prop := r_counter r = st * work /\ r_guarded r = (st + 1) * lock_work.
Definition exact (r : SmpRound) : Prop :=
  counts_ok r /\ r_parts r = st /\ r_contributors r = st + 1 /\ r_jobs_done r = Z.of_nat NJOBS /\ r_each_once r = true.

(** What the boot hart has found out. *)
Definition boot_ok (p : Pc) (hs : list Hart) : Prop :=
  match p with
  | Scan _ h d => d <= total (c_seen_below h) hs
  | GetCounter t => t = true -> all_in hs
  | GetGuarded t r => t = true -> all_in hs /\ r_counter r = st * work
  | Tally t r h => t = true -> all_in hs /\ counts_ok r /\ r_each_once r = true /\ r_parts r = total (c_seen_below h) hs
  | GetDone t r => t = true -> all_in hs /\ counts_ok r /\ r_parts r = st
  | Verdict t r _ _ => t = true -> all_in hs /\ counts_ok r /\ r_parts r = st /\ r_jobs_done r = Z.of_nat NJOBS /\ r_each_once r = true
  | Done t r => t = true -> all_in hs /\ exact r
  | _ => True
  end.

(** ** The invariant of an open round *)

Record running (s : Smp) : Prop := {
  ru_boot : s_boot s = b;
  ru_len : length (s_harts s) = MAX_HARTS;
  ru_gen : m_gen (s_mem s) = G + 1;
  ru_st : m_started (s_mem s) = st;
  ru_on : total c_on (s_harts s) = st;
  ru_ons : forall i x, s_harts s !! i = Some x -> c_on i x = on i;
  ru_counter : m_counter (s_mem s) = total c_counter (s_harts s);
  ru_guarded : m_guarded (s_mem s) = total c_guarded (s_harts s);
  ru_lock : forall i, m_lock (s_mem s) = Some i <-> exists x, s_harts s !! i = Some x /\ in_cs (h_pc x) = true;
  ru_store : forall i x k v, s_harts s !! i = Some x -> h_pc x = Store k v -> v = m_guarded (s_mem s);
  ru_queue : rq_ok RUNQ_CAP mq (m_runq (s_mem s));
  ru_jobs : Forall (fun id => 0 <= id < Z.of_nat NJOBS) (waiting RUNQ_CAP (m_runq (s_mem s)));
  ru_runs : forall id, 0 <= id < Z.of_nat NJOBS ->
    exists n, m_runs (s_mem s) !! Z.to_nat id = Some n /\ 0 <= n /\
      occurrences id (waiting RUNQ_CAP (m_runq (s_mem s))) + total (c_mark id) (s_harts s) + n = 1;
  ru_lens : length (m_runs (s_mem s)) = NJOBS /\ length (m_jhart (s_mem s)) = NJOBS /\ length (m_rounds (s_mem s)) = MAX_HARTS;
  ru_done : zlen (waiting RUNQ_CAP (m_runq (s_mem s))) + total c_hand (s_harts s) + m_done (s_mem s) = Z.of_nat NJOBS /\ 0 <= m_done (s_mem s);
  ru_drained : forall x, s_harts s !! b = Some x -> drained (h_pc x) = true -> waiting RUNQ_CAP (m_runq (s_mem s)) = [];
  ru_rounds : forall i x, s_harts s !! i = Some x -> m_rounds (s_mem s) !! i = Some (r0 !!! i + c_fin i x);
  ru_local : forall i x, s_harts s !! i = Some x -> local_ok i x;
  ru_found : forall x, s_harts s !! b = Some x -> boot_ok (h_pc x) (s_harts s) }.

Hypotheses (Hwork : 0 <= work <= 2 ^ 32) (Hlw : 0 <= lock_work <= 2 ^ 32) (Hb : (b < MAX_HARTS)%nat)
  (HG : 0 <= G < 2 ^ 64 - 1) (Hmq : mq < 2 ^ 64) (Hr0 : forall i, (i < MAX_HARTS)%nat -> 0 <= r0 !!! i <= G).

Lemma seen_on i x : 0 <= c_seen i x <= c_on i x.
Proof. clear. unfold c_seen, c_fin, c_on, finished. destruct (h_pc x); repeat case_match; lia. Qed.

(** Once everybody reported, a hart that was started is finished. *)
Lemma all_in_finished hs i x : total c_on hs = st -> all_in hs -> hs !! i = Some x -> c_fin i x = c_on i x /\ c_seen i x = c_on i x.
Proof.
  clear Hwork Hlw Hb HG Hmq Hr0. intros Hon Hall Hi. unfold all_in in Hall.
  assert (E : c_seen i x = c_on i x) by (apply (total_tight c_seen c_on hs); [intros; apply seen_on|lia|done]).
  split; [|done]. clear -E. unfold c_seen, c_fin, c_on, finished in *. destruct (h_pc x); repeat case_match; lia.
Qed.

Lemma boot_ok_other s i x x' y : running s -> s_harts s !! i = Some x -> c_fin i x = 0 -> c_on i x = 1 ->
  boot_ok (h_pc y) (s_harts s) -> boot_ok (h_pc y) (<[i := x']> (s_harts s)).
Proof.
  intros Hs Hi Hf Ho Hok. assert (Hno : ~ all_in (s_harts s)).
  { intros Ha. destruct (all_in_finished _ i x (ru_on _ Hs) Ha Hi). lia. }
  destruct (h_pc y); cbn in *; try done; try (intros ->; exfalso; apply Hno; by apply Hok).
  rewrite (total_insert _ _ _ x) by done. pose proof (seen_on i x'). unfold c_seen_below in *.
  assert (c_seen i x = 0) by (unfold c_seen; case_match; lia). case_match; lia.
Qed.

Lemma running_move s i x x' m : running s -> s_harts s !! i = Some x ->
  m_gen m = m_gen (s_mem s) -> m_started m = m_started (s_mem s) -> c_on i x' = c_on i x ->
  m_counter m = m_counter (s_mem s) - c_counter i x + c_counter i x' ->
  m_guarded m = m_guarded (s_mem s) - c_guarded i x + c_guarded i x' ->
  (in_cs (h_pc x') = in_cs (h_pc x) /\ m_lock m = m_lock (s_mem s) \/
   m_lock (s_mem s) = None /\ m_lock m = Some i /\ in_cs (h_pc x') = true \/
   m_lock (s_mem s) = Some i /\ m_lock m = None /\ in_cs (h_pc x') = false) ->
  (m_guarded m = m_guarded (s_mem s) \/ m_lock (s_mem s) = Some i) ->
  (forall k v, h_pc x' = Store k v -> v = m_guarded m) ->
  rq_ok RUNQ_CAP mq (m_runq m) ->
  (forall id, id ∈ waiting RUNQ_CAP (m_runq m) -> id ∈ waiting RUNQ_CAP (m_runq (s_mem s))) ->
  (forall id n, 0 <= id < Z.of_nat NJOBS -> m_runs (s_mem s) !! Z.to_nat id = Some n -> 0 <= n <= 1 ->
    exists n', m_runs m !! Z.to_nat id = Some n' /\ 0 <= n' /\
      occurrences id (waiting RUNQ_CAP (m_runq m)) + c_mark id i x' + n' =
      occurrences id (waiting RUNQ_CAP (m_runq (s_mem s))) + c_mark id i x + n) ->
  (length (m_runs m) = NJOBS /\ length (m_jhart m) = NJOBS /\ length (m_rounds m) = MAX_HARTS) ->
  zlen (waiting RUNQ_CAP (m_runq m)) + c_hand i x' + m_done m =
    zlen (waiting RUNQ_CAP (m_runq (s_mem s))) + c_hand i x + m_done (s_mem s) -> m_done (s_mem s) <= m_done m ->
  (i = b -> drained (h_pc x') = true -> waiting RUNQ_CAP (m_runq m) = []) ->
  (forall j, m_rounds m !! j = (if (j =? i)%nat then Some (r0 !!! i + c_fin i x') else m_rounds (s_mem s) !! j)) ->
  local_ok i x' ->
  (i = b -> boot_ok (h_pc x') (<[i := x']> (s_harts s))) ->
  (i <> b -> c_fin i x = 0 /\ c_on i x = 1) ->
  running (mkSmp b m (<[i := x']> (s_harts s))).
Proof.
  intros Hs Hi Egen Est Eon Ec Eg Hlock Hgl Hst Hq Hw Hruns Hlen Hdone Hdone0 Hdr Hro Hloc Hboot Hother.
  assert (Hlt : (i < length (s_harts s))%nat) by (by eapply lookup_lt_Some).
  assert (Hbefore : forall j y, j <> i -> <[i := x']> (s_harts s) !! j = Some y -> s_harts s !! j = Some y)
    by (intros j y Hj Hy; by rewrite list_lookup_insert_ne in Hy).
  assert (Hself : forall y, <[i := x']> (s_harts s) !! i = Some y -> y = x')
    by (intros y Hy; rewrite list_lookup_insert_eq in Hy by done; congruence).
  assert (Htot : forall f, total f (<[i := x']> (s_harts s)) = total f (s_harts s) - f i x + f i x') by (intros; by apply total_insert).
  destruct Hs as [H1 H2 H3 H4 H5 H5b H6 H7 H8 H9 H10 H11 H12 H13 H14 H15 H16 H17 H18].
  split; cbn [s_boot s_mem s_harts]; rewrite ?Htot; try done; try lia; try congruence.
  - by rewrite length_insert.
  - intros j y Hy. destruct (decide (j = i)) as [->|Hji]; [apply Hself in Hy as ->; rewrite Eon; by apply H5b|]. apply H5b. by apply Hbefore.
  - intros j. destruct (decide (j = i)) as [->|Hji].
    + rewrite list_lookup_insert_eq by done. split; intros Hx.
      * exists x'. split; [done|]. destruct Hlock as [[-> E]|[(? & ? & ?)|(? & ? & ?)]]; [|done|congruence].
        rewrite E in Hx. apply H8 in Hx as (y & Hy & ?). congruence.
      * destruct Hx as (y & [= <-] & Hcs). destruct Hlock as [[E ->]|[(? & ? & ?)|(? & ? & ?)]]; [|done|congruence].
        apply H8. exists x. split; [done|congruence].
    + rewrite list_lookup_insert_ne by done. rewrite <- H8. destruct Hlock as [[_ ->]|[(-> & -> & _)|(-> & -> & _)]]; [done| |];
        split; congruence.
  - intros j y k v Hy Epc. destruct (decide (j = i)) as [->|Hji]; [apply Hself in Hy as ->; by eapply Hst|].
    apply Hbefore in Hy; [|done]. destruct Hgl as [->|Hl]; [by eapply H9|].
    assert (m_lock (s_mem s) = Some j) by (apply H8; exists y; by rewrite Epc). congruence.
  - apply Forall_forall. intros id Hid. rewrite Forall_forall in H11. by apply H11, Hw.
  - intros id Hid. rewrite Htot. destruct (H12 id Hid) as (n & En & Hn & Hsum).
    assert (0 <= total (c_mark id) (s_harts s)) by (apply total_nonneg; intros; unfold c_mark; repeat case_match; lia).
    assert (0 <= occurrences id (waiting RUNQ_CAP (m_runq (s_mem s)))) by (apply total_nonneg; intros; case_match; lia).
    destruct (Hruns id n Hid En) as (n' & En' & Hn' & Hsum'); [lia|]. exists n'. split; [done|]. split; [done|]. lia.
  - intros y Hy Hd. destruct (decide (b = i)) as [<-|Hbi]; [apply Hself in Hy as ->; by apply Hdr|].
    apply Hbefore in Hy; [|done]. pose proof (H15 _ Hy Hd) as E. rewrite E in Hw.
    destruct (waiting RUNQ_CAP (m_runq m)) as [|v l]; [done|]. specialize (Hw v ltac:(left)). by apply not_elem_of_nil in Hw.
  - intros j y Hy. rewrite Hro. destruct (Nat.eqb_spec j i) as [->|Hji]; [by apply Hself in Hy as ->|]. apply H16. by apply Hbefore.
  - intros j y Hy. destruct (decide (j = i)) as [->|Hji]; [by apply Hself in Hy as ->|]. apply H17. by apply Hbefore.
  - intros y Hy. destruct (decide (b = i)) as [<-|Hbi]; [apply Hself in Hy as ->; by apply Hboot|].
    apply Hbefore in Hy; [|done]. destruct Hother; [done|]. eapply (boot_ok_other s); try done. by apply H18.
Qed.

(** ** The steps *)

Lemma total_bound {A} (f : nat -> A -> Z) k l : (forall i x, l !! i = Some x -> f i x <= k) -> total f l <= zlen l * k.
Proof.
  revert f. induction l as [|a l IH]; intros f H; [unfold zlen, total; cbn; lia|]. rewrite total_cons. pose proof (H 0%nat a eq_refl).
  specialize (IH (fun i => f (S i)) (fun i x Hi => H (S i) x Hi)). unfold zlen in *. cbn [length]. lia.
Qed.

Lemma running_bounds s : running s ->
  0 <= m_counter (s_mem s) < 2 ^ 64 - 1 /\ 0 <= m_guarded (s_mem s) < 2 ^ 64 - 1 /\ 0 <= m_done (s_mem s) <= 48.
Proof.
  intros Hs. rewrite (ru_counter _ Hs), (ru_guarded _ Hs).
  assert (Hl : zlen (s_harts s) = 8) by (unfold zlen; by rewrite (ru_len _ Hs)).
  assert (Hc : forall i x, s_harts s !! i = Some x -> 0 <= c_counter i x <= 2 ^ 32 /\ 0 <= c_guarded i x <= 2 ^ 32 + 1).
  { intros i x Hi. pose proof (ru_local _ Hs i x Hi) as Hx. unfold local_ok, c_counter, c_guarded, finished in *.
    destruct (h_pc x); try done; repeat case_match; try lia. }
  assert (H1 := total_bound c_counter (2 ^ 32) (s_harts s) ltac:(intros i x Hi; apply (Hc i x Hi))).
  assert (H2 := total_bound c_guarded (2 ^ 32 + 1) (s_harts s) ltac:(intros i x Hi; apply (Hc i x Hi))).
  assert (H3 := total_le (fun _ _ => 0) c_counter (s_harts s) ltac:(intros i x Hi; apply (Hc i x Hi))).
  assert (H4 := total_le (fun _ _ => 0) c_guarded (s_harts s) ltac:(intros i x Hi; apply (Hc i x Hi))).
  rewrite (total_zero (fun _ _ => 0)) in H3, H4 by done. pose proof (ru_done _ Hs) as [Hd Hd0].
  assert (0 <= total c_hand (s_harts s)) by (apply total_nonneg; intros; unfold c_hand; case_match; lia).
  pose proof (zlen_nonneg (waiting RUNQ_CAP (m_runq (s_mem s)))). unfold NJOBS in Hd. lia.
Qed.

(** A move that leaves the queue, the jobs and the round counts alone. *)
Lemma running_work s i x x' m : running s -> s_harts s !! i = Some x ->
  m_gen m = m_gen (s_mem s) -> m_started m = m_started (s_mem s) -> m_runq m = m_runq (s_mem s) -> m_runs m = m_runs (s_mem s) ->
  m_jhart m = m_jhart (s_mem s) -> m_done m = m_done (s_mem s) -> m_rounds m = m_rounds (s_mem s) ->
  c_on i x' = c_on i x -> c_hand i x' = c_hand i x -> (forall id, c_mark id i x' = c_mark id i x) -> c_fin i x' = c_fin i x ->
  m_counter m = m_counter (s_mem s) - c_counter i x + c_counter i x' ->
  m_guarded m = m_guarded (s_mem s) - c_guarded i x + c_guarded i x' ->
  (in_cs (h_pc x') = in_cs (h_pc x) /\ m_lock m = m_lock (s_mem s) \/
   m_lock (s_mem s) = None /\ m_lock m = Some i /\ in_cs (h_pc x') = true \/
   m_lock (s_mem s) = Some i /\ m_lock m = None /\ in_cs (h_pc x') = false) ->
  (m_guarded m = m_guarded (s_mem s) \/ m_lock (s_mem s) = Some i) ->
  (forall k v, h_pc x' = Store k v -> v = m_guarded m) ->
  (i = b -> drained (h_pc x') = true -> drained (h_pc x) = true) ->
  local_ok i x' ->
  (i = b -> boot_ok (h_pc x') (<[i := x']> (s_harts s))) ->
  (i <> b -> c_fin i x = 0 /\ c_on i x = 1) ->
  running (mkSmp b m (<[i := x']> (s_harts s))).
Proof.
  intros Hs Hi E1 E2 E3 E4 E5 E6 E7 E8 E9 E10 E11 E12 E13 Hl Hg Hst Hd Hloc Hboot Ho.
  eapply running_move; try done; rewrite ?E3, ?E4, ?E5, ?E6, ?E7.
  - apply Hs.
  - done.
  - intros id n Hid En Hn. exists n. rewrite E10. split_and!; [done|lia|lia].
  - apply Hs.
  - lia.
  - lia.
  - intros -> Hx. eapply (ru_drained _ Hs); [done|]. by apply Hd.
  - intros j. destruct (Nat.eqb_spec j i) as [->|]; [|done]. rewrite E11. by apply Hs.
Qed.

(** The side conditions of a move: what the two program counters say. *)
Ltac side :=
  unfold c_fin, c_on, c_counter, c_guarded, c_hand, c_mark, local_ok, finished, in_cs, drained; cbn;
  repeat match goal with |- context [(?i =? ?j)%nat] => destruct (Nat.eqb_spec i j) end;
  repeat case_match; intros; simplify_eq/=; try done; try lia; auto 6 with lia.

Lemma locked_running s i x after r : running s -> s_harts s !! i = Some x ->
  locked_access lock_work checks i after (h_pc x) (s_mem s) = Some r -> after = (if (i =? b)%nat then Scan 0 0 0 else Report) ->
  exists p m, r = Ret (p, m) /\ running (mkSmp b m (<[i := mkHart (h_gen x) p]> (s_harts s))).
Proof.
  intros Hs Hi Er ->. pose proof (ru_local _ Hs i x Hi) as Hx. pose proof (running_bounds _ Hs) as (_ & Hgd & _).
  destruct x as [g p]. cbn [h_pc h_gen] in *. unfold local_ok in Hx. cbn [h_pc h_gen] in Hx.
  destruct p as [| | | | | | | | | | |k|k|k v|k| | | | | | | | | | | | | | | | | |]; try done; cbn [locked_access] in Er; injection Er as <-;
    destruct Hx as [-> Hk].
  - destruct (Z.ltb_spec k lock_work) as [Hlt|Hge]; [destruct (m_lock (s_mem s)) as [j|] eqn:El|].
    + eexists _, _. split; [done|]. rewrite list_insert_id by done. pose proof (ru_boot _ Hs) as <-. by destruct s.
    + eexists _, _. split; [done|]. eapply running_work; [exact Hs|exact Hi|..]; side.
    + assert (k = lock_work) as -> by lia. eexists _, _. split; [done|].
      eapply running_work; [exact Hs|exact Hi|..]; side.
      apply total_nonneg. intros j y. unfold c_seen_below. case_match; [apply seen_on|lia].
  - eexists _, _. split; [done|]. eapply running_work; [exact Hs|exact Hi|..]; side.
  - assert (v = m_guarded (s_mem s)) as -> by (eapply (ru_store _ Hs); [exact Hi|done]).
    rewrite uadd_small by lia. cbn. eexists _, _. split; [done|].
    assert (m_lock (s_mem s) = Some i) by (apply (ru_lock _ Hs); by eexists).
    eapply running_work; [exact Hs|exact Hi|..]; side.
  - eexists _, _. split; [done|].
    assert (m_lock (s_mem s) = Some i) by (apply (ru_lock _ Hs); by eexists).
    eapply running_work; [exact Hs|exact Hi|..]; side.
Qed.

(** A move that marks or counts a job. *)
Lemma running_job s i x x' m : running s -> s_harts s !! i = Some x ->
  m_gen m = m_gen (s_mem s) -> m_started m = m_started (s_mem s) -> m_counter m = m_counter (s_mem s) ->
  m_guarded m = m_guarded (s_mem s) -> m_lock m = m_lock (s_mem s) -> m_rounds m = m_rounds (s_mem s) ->
  length (m_runs m) = length (m_runs (s_mem s)) -> length (m_jhart m) = length (m_jhart (s_mem s)) ->
  rq_ok RUNQ_CAP mq (m_runq m) ->
  (forall id, id ∈ waiting RUNQ_CAP (m_runq m) -> id ∈ waiting RUNQ_CAP (m_runq (s_mem s))) ->
  (forall id n, 0 <= id < Z.of_nat NJOBS -> m_runs (s_mem s) !! Z.to_nat id = Some n -> 0 <= n <= 1 ->
    exists n', m_runs m !! Z.to_nat id = Some n' /\ 0 <= n' /\
      occurrences id (waiting RUNQ_CAP (m_runq m)) + c_mark id i x' + n' =
      occurrences id (waiting RUNQ_CAP (m_runq (s_mem s))) + c_mark id i x + n) ->
  zlen (waiting RUNQ_CAP (m_runq m)) + c_hand i x' + m_done m =
    zlen (waiting RUNQ_CAP (m_runq (s_mem s))) + c_hand i x + m_done (s_mem s) -> m_done (s_mem s) <= m_done m ->
  c_on i x = c_on i x' -> c_counter i x = c_counter i x' -> c_guarded i x = c_guarded i x' -> c_fin i x = c_fin i x' ->
  in_cs (h_pc x) = in_cs (h_pc x') -> (forall k v, h_pc x' <> Store k v) ->
  (i = b -> drained (h_pc x') = true -> waiting RUNQ_CAP (m_runq m) = []) ->
  (forall hs, boot_ok (h_pc x') hs) ->
  local_ok i x' ->
  (i <> b -> c_fin i x = 0 /\ c_on i x = 1) ->
  running (mkSmp b m (<[i := x']> (s_harts s))).
Proof.
  intros Hs Hi E1 E2 E3 E4 E5 E6 E7 E8 Hq Hw Hr Hd Hd0 F1 F2 F3 F4 F5 Hst Hdr Hbo Hl Ho.
  eapply running_move; [exact Hs|exact Hi|..]; try done; try lia; try (left; done).
  - intros k v E. by apply Hst in E.
  - rewrite E6, E7, E8. apply Hs.
  - intros j. rewrite E6. destruct (Nat.eqb_spec j i) as [->|]; [|done]. rewrite <- F4. by apply Hs.
Qed.

Lemma occurrences_cons id v l : occurrences id (v :: l) = (if v =? id then 1 else 0) + occurrences id l.
Proof. done. Qed.

Lemma drain_running s i x after r : running s -> s_harts s !! i = Some x ->
  drain_access checks i after (h_pc x) (s_mem s) = Some r -> after = (if (i =? b)%nat then Take 0 else Count 0) ->
  exists p m, r = Ret (p, m) /\ running (mkSmp b m (<[i := mkHart (h_gen x) p]> (s_harts s))).
Proof.
  intros Hs Hi Er ->. pose proof (ru_local _ Hs i x Hi) as Hx. pose proof (running_bounds _ Hs) as (_ & _ & Hdn).
  destruct x as [g p]. cbn [h_pc h_gen] in *. unfold local_ok in Hx. cbn [h_pc h_gen] in Hx.
  destruct p as [| | | | | | |id|id| | | | | | | | | | | | | | | | | | | | | | | |]; try done; cbn [drain_access] in Er; injection Er as <-.
  - subst g. destruct (rq_pop_refines RUNQ_CAP checks mq _ (ru_queue _ Hs) Hmq) as (q & -> & Hq & Hw). cbn [mbind outcome_bind].
    pose proof (ru_jobs _ Hs) as Hj. destruct (waiting RUNQ_CAP (m_runq (s_mem s))) as [|id l] eqn:Ew; cbn [head tail] in *.
    + eexists _, _. split; [done|]. eapply running_job; [exact Hs|exact Hi|..]; cbn [m_runq with_runq with_runs m_runs m_done]; rewrite ?Hw, ?Ew; side.
      all: try (eexists; split; [done|lia]).
    + apply Forall_cons in Hj as [Hid Hj]. rewrite (proj2 (Z.ltb_lt _ _)) by lia. eexists _, _. split; [done|].
      eapply running_job; [exact Hs|exact Hi|..]; cbn [m_runq with_runq with_runs m_runs m_done]; rewrite ?Hw, ?Ew; side.
      all: rewrite ?occurrences_cons; try (eexists; split; [done|]); repeat case_match; try lia.
      all: try (by right). all: unfold zlen; cbn [length]; lia.
  - destruct Hx as [-> Hid]. eexists _, _. split; [done|].
    eapply running_job; [exact Hs|exact Hi|..]; cbn [m_runq with_runq with_runs m_runs m_done]; rewrite ?length_alter; try exact (ru_queue _ Hs); side.
    destruct (Z.eqb_spec id id0) as [->|Hne].
    + eexists. rewrite list_lookup_alter_eq, H0. cbn. split; [done|]. rewrite wrap_small by (unfold fits; lia). lia.
    + exists n. rewrite list_lookup_alter_ne by lia. split_and!; [done|lia|lia].
  - destruct Hx as [-> Hid]. eexists _, _. split; [done|].
    eapply running_job; [exact Hs|exact Hi|..]; cbn [m_runq with_jhart m_jhart with_runs m_runs m_done]; rewrite ?length_insert; try exact (ru_queue _ Hs); side.
    all: eexists; split; [done|lia].
  - subst g. eexists _, _. split; [done|].
    eapply running_job; [exact Hs|exact Hi|..]; cbn [m_runq with_done m_done m_runs]; rewrite ?wrap_small by (unfold fits; lia); try exact (ru_queue _ Hs); side.
    all: eexists; split; [done|lia].
Qed.

Lemma running_same s i x : running s -> s_harts s !! i = Some x -> running (mkSmp b (s_mem s) (<[i := x]> (s_harts s))).
Proof. intros Hs Hi. rewrite list_insert_id by done. pose proof (ru_boot _ Hs) as <-. by destruct s. Qed.

Lemma hart_main_running s i x : running s -> s_harts s !! i = Some x -> i <> b ->
  exists x' m, hart_main_access work lock_work checks i x (s_mem s) = Ret (x', m) /\ running (mkSmp b m (<[i := x']> (s_harts s))).
Proof.
  intros Hs Hi Hne. pose proof (ru_local _ Hs i x Hi) as Hx. pose proof (running_bounds _ Hs) as (Hc & _ & _).
  unfold hart_main_access. destruct (drain_access checks i (Count 0) (h_pc x) (s_mem s)) as [r|] eqn:Ed.
  { destruct (drain_running s i x _ r Hs Hi Ed) as (p & m & -> & Hr); [by rewrite (proj2 (Nat.eqb_neq _ _) Hne)|]. cbn. by eexists _, _. }
  destruct (locked_access lock_work checks i Report (h_pc x) (s_mem s)) as [r|] eqn:El.
  { destruct (locked_running s i x _ r Hs Hi El) as (p & m & -> & Hr); [by rewrite (proj2 (Nat.eqb_neq _ _) Hne)|]. cbn. by eexists _, _. }
  pose proof (running_same s i x Hs Hi) as Hsame. pose proof (ru_gen _ Hs) as Hg.
  destruct x as [g p]. unfold local_ok in Hx. cbn [h_pc h_gen] in *.
  destruct p; try done; try (by eexists _, _); try (exfalso; by destruct Hx).
  - rewrite Hg. destruct Hx as [_ [->| ->]].
    + rewrite (proj2 (Z.eqb_neq _ _)) by lia. eexists _, _. split; [done|].
      eapply running_work; [exact Hs|exact Hi|..]; side.
    + rewrite Z.eqb_refl. by eexists _, _.
  - destruct Hx as [_ ->]. rewrite Hg. eexists _, _. split; [done|]. eapply running_work; [exact Hs|exact Hi|..]; side.
  - destruct Hx as (_ & -> & Hn). destruct (Z.ltb_spec n work) as [Hlt|Hge]; eexists _, _; (split; [done|]);
      (eapply running_work; [exact Hs|exact Hi|..]; side). rewrite wrap_small by (unfold fits; lia). lia.
  - destruct Hx as (_ & ->). eexists _, _. split; [done|]. pose proof (ru_rounds _ Hs i _ Hi) as Hr.
    assert (Hi8 : (i < MAX_HARTS)%nat) by (rewrite <- (ru_len _ Hs); by eapply lookup_lt_Some).
    rewrite (proj2 (Nat.ltb_lt _ _) Hi8). pose proof (Hr0 i Hi8).
    eapply running_move; [exact Hs|exact Hi|..]; cbn [m_runq with_rounds m_rounds]; try exact (ru_queue _ Hs); side.
    + eexists. split; [done|lia].
    + rewrite length_alter. apply Hs.
    + unfold c_fin, finished in Hr. cbn in Hr. destruct (Nat.eqb_spec j i) as [->|]; [|by rewrite list_lookup_alter_ne].
      rewrite list_lookup_alter_eq, Hr. cbn. rewrite (proj2 (Nat.eqb_neq _ _) Hne).
      rewrite wrap_small by (unfold fits; lia). f_equal. lia.
Qed.

Definition late (p : Pc) : bool :=
  match p with Scan _ _ _ | GetCounter _ | GetGuarded _ _ | Tally _ _ _ | GetDone _ _ | Verdict _ _ _ _ | Done _ _ => true | _ => false end.

(** The boot hart's own entry is in none of the sums it looks at. *)
Lemma boot_ok_self p hs x x' : hs !! b = Some x -> boot_ok p hs -> boot_ok p (<[b := x']> hs).
Proof.
  intros Hx. assert (E : forall h, total (c_seen_below h) (<[b := x']> hs) = total (c_seen_below h) hs).
  { intros h. rewrite (total_insert _ _ _ x) by done. unfold c_seen_below, c_seen, c_fin. rewrite Nat.eqb_refl. repeat case_match; lia. }
  assert (E2 : total c_seen (<[b := x']> hs) = total c_seen hs).
  { rewrite (total_insert _ _ _ x) by done. unfold c_seen, c_fin. rewrite Nat.eqb_refl. repeat case_match; lia. }
  unfold boot_ok, all_in. by destruct p; rewrite ?E, ?E2.
Qed.

Lemma boot_move s p p' : running s -> s_harts s !! b = Some (mkHart (G + 1) p) -> late p = true -> late p' = true ->
  local_ok b (mkHart (G + 1) p') -> boot_ok p' (s_harts s) -> running (mkSmp b (s_mem s) (<[b := mkHart (G + 1) p']> (s_harts s))).
Proof.
  intros Hs Hi Hp Hp' Hl Hok.
  eapply running_work; [exact Hs|exact Hi|..]; try exact Hl; try done; try (intros _; by eapply boot_ok_self);
    destruct p; try done; destruct p'; try done; clear Hok Hl; side.
Qed.

(** When everybody reported, the totals are what they should be. *)
Lemma all_in_totals s p : running s -> all_in (s_harts s) -> s_harts s !! b = Some (mkHart (G + 1) p) -> late p = true ->
  m_counter (s_mem s) = st * work /\ m_guarded (s_mem s) = (st + 1) * lock_work /\ m_done (s_mem s) = Z.of_nat NJOBS /\
  (forall i, (i < NJOBS)%nat -> m_runs (s_mem s) !! i = Some 1) /\ total c_fin (s_harts s) = st /\ total c_seen (s_harts s) = st.
Proof.
  intros Hs Hall Hp Hlate. pose proof (ru_on _ Hs) as Hon.
  assert (Hfin : forall i x, s_harts s !! i = Some x -> c_fin i x = c_on i x) by (intros; by eapply all_in_finished).
  assert (Hseen : forall i x, s_harts s !! i = Some x -> c_seen i x = c_on i x) by (intros; by eapply all_in_finished).
  assert (Hlen : (b < length (s_harts s))%nat) by (rewrite (ru_len _ Hs); done).
  assert (Hwait : waiting RUNQ_CAP (m_runq (s_mem s)) = []) by (eapply (ru_drained _ Hs); [exact Hp|]; by destruct p).
  assert (Hpcs : forall i x, s_harts s !! i = Some x -> c_counter i x = work * c_on i x /\
    c_guarded i x = lock_work * c_on i x + (if (i =? b)%nat then lock_work else 0) /\ c_hand i x = 0 /\ forall id, c_mark id i x = 0).
  { intros i x Hi. pose proof (Hfin i x Hi) as E. unfold c_counter, c_guarded, c_hand, c_mark. rewrite <- E. unfold c_fin, c_on in *.
    destruct (Nat.eqb_spec i b) as [->|Hne].
    - rewrite Hp in Hi. injection Hi as <-. cbn. destruct p; try done; cbn; split_and!; (done || lia).
    - unfold finished in *. pose proof (ru_local _ Hs i x Hi) as Hx. unfold local_ok in Hx.
      destruct (h_pc x); try done; try case_match; cbn; split_and!; (done || lia). }
  split_and!.
  - rewrite (ru_counter _ Hs), (total_ext _ (fun i x => work * c_on i x)), total_scale, Hon by (intros; by apply Hpcs). lia.
  - rewrite (ru_guarded _ Hs), (total_ext _ (fun i x => lock_work * c_on i x + (if (i =? b)%nat then lock_work else 0))) by (intros; by apply Hpcs).
    rewrite total_linear by done. rewrite Hon. lia.
  - destruct (ru_done _ Hs) as [Hd _]. rewrite Hwait, (total_zero c_hand) in Hd by (intros; by apply Hpcs). unfold zlen in Hd. cbn in Hd. lia.
  - intros i Hi. destruct (ru_runs _ Hs (Z.of_nat i)) as (n & En & _ & Hn); [lia|]. rewrite Nat2Z.id in En.
    rewrite Hwait, (total_zero (c_mark _)) in Hn by (intros; by apply Hpcs). unfold occurrences, total in Hn. cbn in Hn. rewrite En. f_equal. lia.
  - rewrite <- Hon. by apply total_ext.
  - rewrite <- Hon. by apply total_ext.
Qed.

Lemma seen_below_S hs h y : hs !! h = Some y -> total (c_seen_below (S h)) hs = total (c_seen_below h) hs + c_seen h y.
Proof.
  intros Hy. rewrite (total_point _ (c_seen_below h) hs h y Hy).
  - unfold c_seen_below. rewrite Nat.ltb_irrefl, (proj2 (Nat.ltb_lt h (S h))) by lia. lia.
  - intros i x Hi. unfold c_seen_below. destruct (Nat.ltb_spec i (S h)), (Nat.ltb_spec i h); (done || lia).
Qed.

Lemma seen_below_all hs h : (length hs <= h)%nat -> total (c_seen_below h) hs = total c_seen hs.
Proof.
  intros Hl. apply total_ext. intros i x Hi. apply lookup_lt_Some in Hi. unfold c_seen_below. by rewrite (proj2 (Nat.ltb_lt _ _)) by lia.
Qed.

(** A report the boot hart recognises in [HART_ROUNDS]. *)
Lemma rounds_seen s h y : running s -> s_harts s !! h = Some y ->
  exists n, m_rounds (s_mem s) !! h = Some n /\ (G + 1 <=? n) = (c_seen h y =? 1).
Proof.
  intros Hs Hy. exists (r0 !!! h + c_fin h y). split; [by apply Hs|].
  assert (Hh8 : (h < MAX_HARTS)%nat) by (rewrite <- (ru_len _ Hs); by eapply lookup_lt_Some). pose proof (Hr0 h Hh8). unfold c_seen, c_fin.
  repeat case_match; (destruct (Z.leb_spec (G + 1) (r0 !!! h + 0)) || destruct (Z.leb_spec (G + 1) (r0 !!! h + 1))); cbn; try done; lia.
Qed.

Lemma c_seen_01 i x : c_seen i x = 0 \/ c_seen i x = 1.
Proof. unfold c_seen, c_fin. repeat case_match; lia. Qed.

Lemma scan_running s spins h d : running s -> s_harts s !! b = Some (mkHart (G + 1) (Scan spins h d)) ->
  running (mkSmp b (s_mem s) (<[b := mkHart (G + 1) (scan_access spin_limit (G + 1) spins h d (s_mem s))]> (s_harts s))).
Proof.
  intros Hs Hi. pose proof (ru_local _ Hs b _ Hi) as (_ & _ & Hsp & Hh). cbn in Hsp, Hh.
  pose proof (ru_found _ Hs _ Hi) as Hd. cbn in Hd. pose proof (ru_len _ Hs) as Hlen. unfold scan_access. rewrite (ru_st _ Hs).
  destruct (Nat.lt_ge_cases h MAX_HARTS) as [Hlt|Hge].
  - destruct (lookup_lt_is_Some_2 (s_harts s) h) as [y Hy]; [lia|]. destruct (rounds_seen s h y Hs Hy) as (n & -> & ->).
    apply (boot_move s _ _ Hs Hi); try done; try (cbn; split_and!; (done || lia)). cbn. rewrite (seen_below_S _ _ y Hy).
    destruct (c_seen_01 h y) as [-> | ->]; cbn; lia.
  - rewrite lookup_ge_None_2 by (destruct (ru_lens _ Hs) as (_ & _ & ->); lia). rewrite seen_below_all in Hd by lia.
    destruct ((st <=? d) || (spin_limit <=? spins)) eqn:E; apply (boot_move s _ _ Hs Hi); try done.
    + cbn. intros E2%Z.leb_le. unfold all_in. lia.
    + apply orb_false_iff in E as [_ E%Z.leb_gt]. split_and!; cbn; (done || lia).
    + cbn. apply total_nonneg. intros i x. unfold c_seen_below. case_match; [apply seen_on|lia].
Qed.

Lemma verdict_running s p : running s -> s_harts s !! b = Some (mkHart (G + 1) p) -> late p = true -> (forall a h d, p <> Scan a h d) ->
  running (mkSmp b (s_mem s) (<[b := mkHart (G + 1) (verdict_access (G + 1) p (s_mem s))]> (s_harts s))).
Proof.
  intros Hs Hi Hp Hns. pose proof (ru_local _ Hs b _ Hi) as Hl. pose proof (ru_found _ Hs _ Hi) as Hok. cbn [h_pc] in Hok.
  pose proof (all_in_totals s p Hs) as Htot. pose proof (ru_len _ Hs) as Hlen. destruct (ru_lens _ Hs) as (L1 & L2 & L3).
  destruct p as [| | | | | | | | | | | | | | | | | | | | | | | | | |sp h d|t|t r|t r h|t r|t r k seen|t r]; try done; cbn [verdict_access boot_ok] in *; unfold local_ok in Hl; cbn [h_pc h_gen] in Hl.
  - by destruct (Hns sp h d).
  - apply (boot_move s _ _ Hs Hi); try done. cbn. intros Ht. specialize (Hok Ht). split; [done|]. by apply Htot.
  - apply (boot_move s _ _ Hs Hi); try done; try (cbn; split_and!; (done || lia)). cbn. intros Ht. destruct (Hok Ht) as [Ha E]. split; [done|].
    split; [split; [done|by apply Htot]|]. split; [done|]. symmetry. apply total_zero. intros. by unfold c_seen_below.
  - destruct (Nat.lt_ge_cases h MAX_HARTS) as [Hlt|Hge].
    + destruct (lookup_lt_is_Some_2 (s_harts s) h) as [y Hy]; [lia|]. destruct (rounds_seen s h y Hs Hy) as (n & -> & ->).
      apply (boot_move s _ _ Hs Hi); try done; try (cbn; split_and!; (done || lia)). cbn. intros Ht. destruct (Hok Ht) as (Ha & Hc & Ho & Hpa).
      split; [done|]. rewrite (seen_below_S _ _ y Hy). destruct (c_seen_01 h y) as [-> | ->]; cbn; (split; [done|]); (split; [done|lia]).
    + rewrite lookup_ge_None_2 by lia. apply (boot_move s _ _ Hs Hi); try done; try (cbn; by destruct Hl as (? & ? & _)).
      cbn. intros Ht. destruct (Hok Ht) as (Ha & Hc & Ho & Hpa). split; [done|]. split; [done|]. rewrite Hpa, seen_below_all by lia. by apply Htot.
  - apply (boot_move s _ _ Hs Hi); try done; try (cbn; split_and!; (done || lia)). cbn. intros Ht. destruct (Hok Ht) as (Ha & Hc & Hpa).
    destruct (Htot Ha Hi Hp) as (_ & _ & E & _). by split_and!.
  - destruct (Nat.lt_ge_cases k NJOBS) as [Hlt|Hge].
    + destruct (lookup_lt_is_Some_2 (m_runs (s_mem s)) k) as [n Hn]; [lia|]. destruct (lookup_lt_is_Some_2 (m_jhart (s_mem s)) k) as [h Hh]; [lia|].
      rewrite Hn, Hh. apply (boot_move s _ _ Hs Hi); try done; try (cbn; split_and!; (done || lia)). cbn. intros Ht.
      destruct (Hok Ht) as (Ha & Hc & Hpa & Hd & Ho). destruct (Htot Ha Hi Hp) as (_ & _ & _ & E & _). rewrite (E k Hlt) in Hn.
      injection Hn as <-. split_and!; try done. by rewrite Ho.
    + rewrite lookup_ge_None_2 by lia. apply (boot_move s _ _ Hs Hi); try done; try (cbn; by destruct Hl as (? & ? & _)). cbn. intros Ht.
      destruct (Hok Ht) as (Ha & Hc & Hpa & Hd & Ho). unfold exact. cbn. split_and!; try done; try apply Hc. lia.
  - apply (boot_move s _ _ Hs Hi); try done.
Qed.

Lemma turn_running present s i : running s -> exists s', smp_turn work lock_work spin_limit checks present i s = Ret s' /\ running s'.
Proof.
  intros Hs. unfold smp_turn. destruct (s_harts s !! i) as [x|] eqn:Hi; [|by exists s].
  pose proof (ru_local _ Hs i x Hi) as Hx. cut (exists s', hart_access work lock_work spin_limit checks i x s = Ret s' /\ running s').
  { unfold local_ok in Hx. by destruct (h_pc x). }
  unfold hart_access. rewrite (ru_boot _ Hs). destruct (Nat.eqb_spec i b) as [->|Hne].
  2: { destruct (hart_main_running s i x Hs Hi Hne) as (x' & m & -> & Hr). cbn. by eexists. }
  cut (exists x' m, smp_round_access lock_work spin_limit checks b x (s_mem s) = Ret (x', m) /\ running (mkSmp b m (<[b := x']> (s_harts s)))).
  { intros (x' & m & -> & Hr). cbn. by eexists. }
  unfold smp_round_access. destruct (drain_access checks b (Take 0) (h_pc x) (s_mem s)) as [r|] eqn:Ed.
  { destruct (drain_running s b x _ r Hs Hi Ed) as (p & m & -> & Hr); [by rewrite Nat.eqb_refl|]. cbn. by eexists _, _. }
  destruct (locked_access lock_work checks b (Scan 0 0 0) (h_pc x) (s_mem s)) as [r|] eqn:El.
  { destruct (locked_running s b x _ r Hs Hi El) as (p & m & -> & Hr); [by rewrite Nat.eqb_refl|]. cbn. by eexists _, _. }
  assert (h_gen x = G + 1) as Eg by (unfold local_ok in Hx; destruct (h_pc x); try done; destruct Hx as [Hx1 Hx2]; first [done|by destruct Hx1|apply Hx2]).
  destruct x as [g p]. cbn [h_gen h_pc] in *. subst g. unfold local_ok in Hx. cbn [h_gen h_pc] in Hx.
  destruct p; try done; try (by destruct Hx as [[] _]); eexists _, _; (split; [done|]).
  1: by apply scan_running. all: by apply (verdict_running s _ Hs Hi).
Qed.

Lemma turns_running present sched : forall s, running s ->
  exists s', smp_turns work lock_work spin_limit checks present sched s = Ret s' /\ running s'.
Proof.
  induction sched as [|i sched IH]; intros s Hs; cbn [smp_turns]; [by exists s|].
  destruct (turn_running present s i Hs) as (s1 & -> & H1). cbn. by apply IH.
Qed.

(** ** Before the generation moves: only the boot hart acts *)

Definition jobs (n : nat) : list Z := Z.of_nat <$> seq 0 n.

Arguments jobs : simpl never.

Definition opening_ok (p : Pc) (m : Mem) : Prop :=
  let empty := rq_ok RUNQ_CAP (mq - Z.of_nat NJOBS) (m_runq m) /\ waiting RUNQ_CAP (m_runq m) = [] in
  let cleared := m_counter m = 0 /\ m_guarded m = 0 /\ m_done m = 0 in
  match p with
  | Begin | Clear => empty
  | ClearGuarded => empty /\ m_counter m = 0
  | ClearDone => empty /\ m_counter m = 0 /\ m_guarded m = 0
  | ClearRuns k => empty /\ cleared /\ (k <= NJOBS)%nat /\ forall j, (j < k)%nat -> m_runs m !! j = Some 0
  | ClearHart k => empty /\ cleared /\ (k < NJOBS)%nat /\ forall j, (j <= k)%nat -> m_runs m !! j = Some 0
  | Push k => cleared /\ (forall j, (j < NJOBS)%nat -> m_runs m !! j = Some 0) /\ (k <= NJOBS)%nat /\
      rq_ok RUNQ_CAP (mq - Z.of_nat NJOBS + Z.of_nat k) (m_runq m) /\ waiting RUNQ_CAP (m_runq m) = jobs k
  | Open => cleared /\ (forall j, (j < NJOBS)%nat -> m_runs m !! j = Some 0) /\
      rq_ok RUNQ_CAP mq (m_runq m) /\ waiting RUNQ_CAP (m_runq m) = jobs NJOBS
  | _ => False
  end.

Record opening (s : Smp) : Prop := {
  op_boot : s_boot s = b;
  op_len : length (s_harts s) = MAX_HARTS;
  op_gen : m_gen (s_mem s) = G;
  op_st : m_started (s_mem s) = st;
  op_on : total c_on (s_harts s) = st;
  op_ons : forall i x, s_harts s !! i = Some x -> c_on i x = on i;
  op_lock : m_lock (s_mem s) = None;
  op_others : forall i x, i <> b -> s_harts s !! i = Some x -> h_pc x = Off \/ x = mkHart G Wait;
  op_lens : length (m_runs (s_mem s)) = NJOBS /\ length (m_jhart (s_mem s)) = NJOBS /\ length (m_rounds (s_mem s)) = MAX_HARTS;
  op_rounds : m_rounds (s_mem s) = r0;
  op_pc : exists x, s_harts s !! b = Some x /\ opening_ok (h_pc x) (s_mem s) }.

Lemma occurrences_jobs id a n : occurrences id (Z.of_nat <$> seq a n) = if (Z.of_nat a <=? id) && (id <? Z.of_nat (a + n)) then 1 else 0.
Proof.
  revert a. induction n as [|n IH]; intros a; cbn [seq fmap list_fmap].
  - unfold occurrences, total. cbn. destruct (Z.leb_spec (Z.of_nat a) id), (Z.ltb_spec id (Z.of_nat (a + 0))); (done || lia).
  - rewrite occurrences_cons. change (list_fmap nat Z Z.of_nat (seq (S a) n)) with (Z.of_nat <$> seq (S a) n). rewrite IH.
    destruct (Z.eqb_spec (Z.of_nat a) id), (Z.leb_spec (Z.of_nat a) id), (Z.ltb_spec id (Z.of_nat (a + S n))),
      (Z.leb_spec (Z.of_nat (S a)) id), (Z.ltb_spec id (Z.of_nat (S a + n))); (done || lia).
Qed.

(** The new generation: the round is open. *)
Lemma opens s g : opening s -> s_harts s !! b = Some (mkHart g Open) ->
  running (mkSmp b (with_gen (G + 1) (s_mem s)) (<[b := mkHart (G + 1) Pop]> (s_harts s))).
Proof.
  intros Hs Hi. destruct Hs as [E1 E2 E3 E4 E5 E5b E6 Ho (L1 & L2 & L3) Er (x & Hx & Hpc)].
  rewrite Hi in Hx. injection Hx as <-. cbn in Hpc. destruct Hpc as ((Ec & Eg & Ed) & Hz & Hq & Hw).
  assert (Hb8 : (b < length (s_harts s))%nat) by lia. set (hs := <[b := _]> _).
  assert (Hall : forall i x, hs !! i = Some x -> i = b /\ x = mkHart (G + 1) Pop \/ i <> b /\ (h_pc x = Off \/ x = mkHart G Wait)).
  { intros i x Hx. subst hs. destruct (decide (i = b)) as [->|Hne].
    - rewrite list_lookup_insert_eq in Hx by done. left. split; [done|congruence].
    - rewrite list_lookup_insert_ne in Hx by done. right. split; [done|]. by eapply Ho. }
  assert (Hnf : (G =? G + 1) = false) by (apply Z.eqb_neq; lia).
  assert (H0 : forall i x, hs !! i = Some x -> c_counter i x = 0 /\ c_guarded i x = 0 /\ c_hand i x = 0 /\ c_fin i x = 0 /\
    in_cs (h_pc x) = false /\ (forall id, c_mark id i x = 0)).
  { intros i x Hx. unfold c_counter, c_guarded, c_hand, c_fin, c_mark, finished.
    destruct (Hall i x Hx) as [[-> ->]|[Hne [E| ->]]]; rewrite ?E; cbn; rewrite ?Hnf; by repeat case_match. }
  split; cbn [s_boot s_mem s_harts m_gen m_started m_counter m_guarded m_lock m_runq m_runs m_jhart m_done m_rounds with_gen]; try done.
  - subst hs. by rewrite length_insert.
  - subst hs. rewrite (total_insert _ _ _ _ _ Hi), E5. unfold c_on. rewrite Nat.eqb_refl. lia.
  - intros i x Hx. subst hs. destruct (decide (i = b)) as [->|Hne]; [|apply E5b; by rewrite list_lookup_insert_ne in Hx].
    rewrite <- (E5b b _ Hi). unfold c_on. by rewrite Nat.eqb_refl.
  - rewrite Ec, total_zero; [done|]. intros. by apply H0.
  - rewrite Eg, total_zero; [done|]. intros. by apply H0.
  - intros i. rewrite E6. split; [done|]. intros (x & Hx & Hcs). destruct (H0 i x Hx) as (_ & _ & _ & _ & ? & _). congruence.
  - intros i x k v Hx E. destruct (H0 i x Hx) as (_ & _ & _ & _ & Hcs & _). by rewrite E in Hcs.
  - rewrite Hw. apply Forall_forall. intros v Hv. unfold jobs in Hv. apply list_elem_of_fmap in Hv as (k & -> & Hk%elem_of_seq). lia.
  - intros id Hid. exists 0. rewrite Hz by lia. split; [done|]. split; [done|]. rewrite Hw, total_zero by (intros; by apply H0).
    unfold jobs. rewrite occurrences_jobs, (proj2 (Z.leb_le _ _)), (proj2 (Z.ltb_lt _ _)) by lia. done.
  - rewrite Hw, Ed, total_zero by (intros; by apply H0). split; [|done]. by vm_compute.
  - intros x Hx. destruct (Hall b x Hx) as [[_ ->]|[? _]]; done.
  - intros i x Hx. destruct (H0 i x Hx) as (_ & _ & _ & -> & _). rewrite Er, Z.add_0_r.
    apply list_lookup_lookup_total_lt. apply lookup_lt_Some in Hx. subst hs. rewrite length_insert in Hx. rewrite <- Er. lia.
  - intros i x Hx. unfold local_ok. destruct (Hall i x Hx) as [[-> ->]|[Hne [-> | ->]]]; cbn; auto.
  - intros x Hx. destruct (Hall b x Hx) as [[_ ->]|[? _]]; done.
Qed.

Lemma opening_move s x x' m : opening s -> s_harts s !! b = Some x ->
  m_gen m = m_gen (s_mem s) -> m_started m = m_started (s_mem s) -> m_lock m = m_lock (s_mem s) -> m_rounds m = m_rounds (s_mem s) ->
  length (m_runs m) = length (m_runs (s_mem s)) -> length (m_jhart m) = length (m_jhart (s_mem s)) ->
  opening_ok (h_pc x') m -> opening (mkSmp b m (<[b := x']> (s_harts s))).
Proof.
  intros [E1 E2 E3 E4 E5 E5b E6 Ho (L1 & L2 & L3) Er _] Hi F1 F2 F3 F4 F5 F6 Hok.
  split; cbn [s_boot s_mem s_harts]; try congruence.
  - by rewrite length_insert.
  - rewrite (total_insert _ _ _ _ _ Hi), E5. unfold c_on. rewrite Nat.eqb_refl. lia.
  - intros i y Hy. destruct (decide (i = b)) as [->|Hne]; [|apply E5b; by rewrite list_lookup_insert_ne in Hy].
    rewrite <- (E5b b _ Hi). unfold c_on. by rewrite Nat.eqb_refl.
  - intros i y Hne Hy. rewrite list_lookup_insert_ne in Hy by done. by eapply Ho.
  - rewrite F4, F5, F6. done.
  - exists x'. split; [|done]. apply list_lookup_insert_eq. by eapply lookup_lt_Some.
Qed.

Lemma jobs_S k : jobs (S k) = jobs k ++ [Z.of_nat k].
Proof. unfold jobs. by rewrite seq_S, fmap_app. Qed.

Lemma zlen_jobs k : zlen (jobs k) = Z.of_nat k.
Proof. unfold zlen, jobs. by rewrite length_fmap, length_seq. Qed.

Lemma boot_opening s x : opening s -> st <> 0 -> s_harts s !! b = Some x ->
  exists x' m, smp_round_access lock_work spin_limit checks b x (s_mem s) = Ret (x', m) /\
    (opening (mkSmp b m (<[b := x']> (s_harts s))) \/ running (mkSmp b m (<[b := x']> (s_harts s)))).
Proof.
  intros Hs Hst Hi. destruct (op_pc _ Hs) as (y & Hy & Hpc). rewrite Hi in Hy. injection Hy as <-.
  destruct (op_lens _ Hs) as (L1 & L2 & L3). destruct x as [g p]. cbn [h_pc] in Hpc.
  destruct p; try done; unfold opening_ok in Hpc; cbn [smp_round_access drain_access locked_access h_pc h_gen].
  - rewrite (op_st _ Hs), (proj2 (Z.eqb_neq _ _) Hst). eexists _, _. split; [done|]. left. by eapply opening_move.
  - eexists _, _. split; [done|]. left. by eapply opening_move.
  - eexists _, _. split; [done|]. left. eapply opening_move; try done. cbn. split_and!; try apply Hpc; (done || lia).
  - eexists _, _. split; [done|]. left. eapply opening_move; try done. cbn. split_and!; try apply Hpc; (done || lia).
  - destruct Hpc as (He & Hc & Hk & Hz). destruct (Nat.ltb_spec i NJOBS) as [Hlt|Hge]; eexists _, _; (split; [done|]); left.
    + eapply opening_move; try done; cbn; [by rewrite length_insert|]. split_and!; try apply He; try apply Hc; try done.
      intros j Hj. destruct (decide (j = i)) as [->|Hne]; [rewrite list_lookup_insert_eq by lia; done|].
      rewrite list_lookup_insert_ne by done. apply Hz. lia.
    + eapply opening_move; try done. cbn. rewrite Z.add_0_r. split_and!; try apply He; try apply Hc; try lia. intros j Hj. apply Hz. lia.
  - destruct Hpc as (He & Hc & Hk & Hz). eexists _, _. split; [done|]. left.
    eapply opening_move; try done; cbn; [by rewrite length_insert|]. split_and!; try apply He; try apply Hc; try lia. intros j Hj. apply Hz. lia.
  - destruct Hpc as (Hc & Hz & Hk & Hq & Hw). destruct (Nat.ltb_spec i NJOBS) as [Hlt|Hge].
    + destruct (rq_push_refines RUNQ_CAP checks _ _ (Z.of_nat i) Hq) as (q & -> & Hq' & Hw').
      { unfold NJOBS in *. lia. } { rewrite Hw, zlen_jobs. unfold NJOBS, RUNQ_CAP in *. lia. }
      cbn. eexists _, _. split; [done|]. left. eapply opening_move; try done. cbn. split_and!; try apply Hc; try done; try lia.
      * replace (mq - Z.of_nat NJOBS + Z.of_nat (S i)) with (mq - Z.of_nat NJOBS + Z.of_nat i + 1) by lia. done.
      * by rewrite Hw', Hw, jobs_S.
    + assert (i = NJOBS) as -> by lia. eexists _, _. split; [done|]. left. eapply opening_move; try done. cbn.
      replace (mq - Z.of_nat NJOBS + Z.of_nat NJOBS) with mq in Hq by lia. split_and!; try apply Hc; done.
  - rewrite (op_gen _ Hs), uadd_small by lia. cbn. eexists _, _. split; [done|]. right.
    rewrite wrap_small by (unfold fits; lia). by eapply opens.
Qed.

Lemma turn_opening present s i : opening s -> st <> 0 ->
  exists s', smp_turn work lock_work spin_limit checks present i s = Ret s' /\ (opening s' \/ running s').
Proof.
  intros Hs Hst. unfold smp_turn. destruct (s_harts s !! i) as [x|] eqn:Hi; [|exists s; auto].
  unfold hart_access. rewrite (op_boot _ Hs). destruct (Nat.eqb_spec i b) as [->|Hne].
  - destruct (boot_opening s x Hs Hst Hi) as (x' & m & E & Hr). rewrite E. cbn [mbind outcome_bind].
    destruct (op_pc _ Hs) as (y & Hy & Hpc). rewrite Hi in Hy. injection Hy as <-. destruct (h_pc x); try done; by eexists.
  - assert (Hsame : mkSmp b (s_mem s) (<[i := x]> (s_harts s)) = s) by (rewrite list_insert_id by done; rewrite <- (op_boot _ Hs); by destruct s).
    destruct (op_others _ Hs i x Hne Hi) as [E| ->].
    + destruct x as [g p]. cbn in E. subst p. cbn. rewrite Hsame. eauto.
    + cbn. rewrite (op_gen _ Hs), Z.eqb_refl. cbn. rewrite Hsame. eauto.
Qed.

Lemma turns_opening present sched : forall s, opening s -> st <> 0 ->
  exists s', smp_turns work lock_work spin_limit checks present sched s = Ret s' /\ (opening s' \/ running s').
Proof.
  induction sched as [|i sched IH]; intros s Hs Hst; cbn [smp_turns]; [eauto|].
  destruct (turn_opening present s i Hs Hst) as (s1 & -> & [H1|H1]); cbn [mbind outcome_bind]; [by apply IH|].
  destruct (turns_running present sched s1 H1) as (s2 & -> & H2). eauto.
Qed.
End Round.

(** ** The round, from outside *)

(** Secondaries that run [hart_main]. *)
Definition online (s : Smp) : Z := total (c_on (s_boot s)) (s_harts s).

(** The boot hart is about to call [smp_round], the secondaries wait for the
    next generation. *)
Record ready (s : Smp) : Prop := {
  rd_boot : (s_boot s < MAX_HARTS)%nat;
  rd_begin : exists g, s_harts s !! s_boot s = Some (mkHart g Begin);
  rd_len : length (s_harts s) = MAX_HARTS;
  rd_others : forall i x, i <> s_boot s -> s_harts s !! i = Some x -> h_pc x = Off \/ x = mkHart (m_gen (s_mem s)) Wait;
  rd_started : m_started (s_mem s) = online s /\ online s <> 0;
  rd_lock : m_lock (s_mem s) = None;
  rd_lens : length (m_runs (s_mem s)) = NJOBS /\ length (m_jhart (s_mem s)) = NJOBS /\ length (m_rounds (s_mem s)) = MAX_HARTS;
  rd_queue : rq_ok RUNQ_CAP (q_tail (m_runq (s_mem s))) (m_runq (s_mem s)) /\ waiting RUNQ_CAP (m_runq (s_mem s)) = [];
  rd_rounds : forall i n, m_rounds (s_mem s) !! i = Some n -> 0 <= n <= m_gen (s_mem s) }.

(** The 64-bit generation and the queue's counters have room for one more
    round. *)
Definition room (s : Smp) : Prop := 0 <= m_gen (s_mem s) < 2 ^ 64 - 1 /\ q_tail (m_runq (s_mem s)) + Z.of_nat NJOBS < 2 ^ 64.

(** Which harts run. *)
Definition ons (s : Smp) (i : nat) : Z := match s_harts s !! i with Some x => c_on (s_boot s) i x | None => 0 end.

Section Outside.
Context (work lock_work spin_limit : Z) (checks : bool).
Hypotheses (Hwork : 0 <= work <= 2 ^ 32) (Hlw : 0 <= lock_work <= 2 ^ 32).

Lemma ready_opening s : ready s ->
  opening (s_boot s) (m_gen (s_mem s)) (m_rounds (s_mem s)) (online s) (q_tail (m_runq (s_mem s)) + Z.of_nat NJOBS) (ons s) s.
Proof.
  intros [H1 (g & H2) H3 H4 [H5 _] H6 H7 [H8 H9] H10]. split; try done.
  { intros i x Hx. unfold ons. by rewrite Hx. }
  exists (mkHart g Begin). split; [done|]. cbn. split; [|done]. by rewrite Z.add_simpl_r.
Qed.

Lemma ready_rounds s i : ready s -> (i < MAX_HARTS)%nat -> 0 <= m_rounds (s_mem s) !!! i <= m_gen (s_mem s).
Proof.
  intros Hs Hi. eapply (rd_rounds _ Hs i), list_lookup_lookup_total_lt. by destruct (rd_lens _ Hs) as (_ & _ & ->).
Qed.

Lemma round_runs present sched s : ready s -> room s ->
  exists s', smp_turns work lock_work spin_limit checks present sched s = Ret s' /\
    let mq := q_tail (m_runq (s_mem s)) + Z.of_nat NJOBS in
    (opening (s_boot s) (m_gen (s_mem s)) (m_rounds (s_mem s)) (online s) mq (ons s) s' \/
     running work lock_work spin_limit (s_boot s) (m_gen (s_mem s)) (m_rounds (s_mem s)) (online s) mq (ons s) s').
Proof.
  intros Hs Hr. destruct Hr as [Hg Hq] eqn:E. apply turns_opening; try done; [apply Hs|intros i; by apply (ready_rounds s i)|by apply ready_opening|apply (rd_started _ Hs)].
Qed.

Lemma alter_insert {A} (f : A -> A) (l : list A) (i : nat) x : l !! i = Some x -> alter f i l = <[i := f x]> l.
Proof.
  intros Hx. apply list_eq. intros j. destruct (decide (j = i)) as [->|Hne].
  - rewrite list_lookup_alter_eq, Hx, list_lookup_insert_eq by (by eapply lookup_lt_Some). done.
  - by rewrite list_lookup_alter_ne, list_lookup_insert_ne.
Qed.

(** A finished round leaves the machine ready for the next. *)
Lemma done_ready b G r0 st mq on s r : (b < MAX_HARTS)%nat -> st <> 0 -> (forall i, (i < MAX_HARTS)%nat -> 0 <= r0 !!! i <= G) ->
  running work lock_work spin_limit b G r0 st mq on s -> s_harts s !! b = Some (mkHart (G + 1) (Done true r)) -> all_in b G r0 st (s_harts s) ->
  ready (call_round s).
Proof.
  intros Hb Hst Hr0 Hs Hi Hall. pose proof (ru_on _ _ _ _ _ _ _ _ _ _ Hs) as Hon. pose proof (ru_boot _ _ _ _ _ _ _ _ _ _ Hs) as Eb.
  assert (Hsec : forall i x, i <> b -> s_harts s !! i = Some x -> h_pc x = Off \/ x = mkHart (G + 1) Wait).
  { intros i x Hne Hx. edestruct all_in_finished as [E _]; [exact Hon|exact Hall|exact Hx|]. unfold c_fin, c_on, finished in E.
    rewrite (proj2 (Nat.eqb_neq _ _) Hne) in E. destruct x as [g p]. cbn in *. destruct p; auto; try done.
    destruct (Z.eqb_spec g (G + 1)) as [->|]; [by right|done]. }
  pose proof (ru_queue _ _ _ _ _ _ _ _ _ _ Hs) as [Q1 Q2 Q3 Q4].
  split; cbn [call_round s_boot s_mem s_harts]; rewrite ?Eb.
  - done.
  - rewrite list_lookup_alter_eq, Hi. by eexists.
  - rewrite length_alter. by apply Hs.
  - intros i x Hne Hx. rewrite list_lookup_alter_ne in Hx by done. rewrite (ru_gen _ _ _ _ _ _ _ _ _ _ Hs). by eapply Hsec.
  - assert (E : online (call_round s) = st); [|split; [by rewrite (ru_st _ _ _ _ _ _ _ _ _ _ Hs)|by rewrite E]].
    unfold online, call_round. cbn [s_boot s_harts]. rewrite Eb, <- Hon, (alter_insert _ _ _ _ Hi), (total_insert _ _ _ _ _ Hi).
    unfold c_on. rewrite Nat.eqb_refl. lia.
  - destruct (m_lock (s_mem s)) as [i|] eqn:El; [|done]. apply (ru_lock _ _ _ _ _ _ _ _ _ _ Hs) in El as (x & Hx & Hcs).
    destruct (decide (i = b)) as [->|Hne]; [rewrite Hi in Hx; by injection Hx as <-|].
    by destruct (Hsec i x Hne Hx) as [E| ->]; [rewrite E in Hcs|].
  - by apply Hs.
  - split; [split; (done || lia)|]. by eapply (ru_drained _ _ _ _ _ _ _ _ _ _ Hs).
  - intros i n Hn. assert (Hi8 : (i < MAX_HARTS)%nat) by (destruct (ru_lens _ _ _ _ _ _ _ _ _ _ Hs) as (_ & _ & <-); by eapply lookup_lt_Some).
    destruct (lookup_lt_is_Some_2 (s_harts s) i) as [x Hx]; [by rewrite (ru_len _ _ _ _ _ _ _ _ _ _ Hs)|].
    rewrite (ru_rounds _ _ _ _ _ _ _ _ _ _ Hs i x Hx) in Hn. injection Hn as <-.
    rewrite (ru_gen _ _ _ _ _ _ _ _ _ _ Hs). pose proof (Hr0 i Hi8). unfold c_fin. repeat case_match; lia.
Qed.

(** The boot hart's wait only ends in time if every hart that was started had
    served every generation before. *)
Lemma in_time_up_to_date present sched s s' g r i x n : ready s -> room s ->
  smp_turns work lock_work spin_limit checks present sched s = Ret s' -> s_harts s' !! s_boot s = Some (mkHart g (Done true r)) ->
  s_harts s !! i = Some x -> i <> s_boot s -> h_pc x <> Off -> m_rounds (s_mem s) !! i = Some n -> n = m_gen (s_mem s).
Proof.
  intros Hs Hr Et Hd Hx Hne Hoff Hn. destruct (round_runs present sched s Hs Hr) as (s1 & E1 & H1).
  rewrite Et in E1. injection E1 as <-. destruct H1 as [Hc|Hc].
  { destruct (op_pc _ _ _ _ _ _ _ Hc) as (y & Hy & Hpc). rewrite Hd in Hy. by injection Hy as <-. }
  destruct (ru_found _ _ _ _ _ _ _ _ _ _ Hc _ Hd eq_refl) as [Ha _].
  destruct (lookup_lt_is_Some_2 (s_harts s') i) as [y Hy].
  { rewrite (ru_len _ _ _ _ _ _ _ _ _ _ Hc), <- (rd_len _ Hs). by eapply lookup_lt_Some. }
  edestruct all_in_finished as [_ E]; [exact (ru_on _ _ _ _ _ _ _ _ _ _ Hc)|exact Ha|exact Hy|].
  rewrite (ru_ons _ _ _ _ _ _ _ _ _ _ Hc i y Hy) in E. unfold ons, c_on in E. rewrite Hx, (proj2 (Nat.eqb_neq _ _) Hne) in E.
  unfold c_seen in E. rewrite (list_lookup_total_correct _ _ _ Hn) in E.
  destruct (Z.eqb_spec n (m_gen (s_mem s))) as [|Hlt]; [done|]. by destruct (h_pc x).
Qed.
End Outside.

(** C17: Under every interleaving of the boot hart's parallel round with the secondaries, started with
    the secondaries waiting, nothing panics, and if the wait ends because every hart reported, then
    every started hart took part, the atomic counter is participants times work, the plain counter lost
    no update under the lock, every job of the run queue ran exactly once, the three printed verdicts
    are the good ones, and the machine is ready for the next round. *)
Theorem a_parallel_round_is_exact work lock_work spin_limit checks present sched s :
  0 <= work <= 2 ^ 32 -> 0 <= lock_work <= 2 ^ 32 -> ready s -> room s ->
  exists s', smp_turns work lock_work spin_limit checks present sched s = Ret s' /\
    forall g r, s_harts s' !! s_boot s = Some (mkHart g (Done true r)) ->
      r_parts r = online s /\ r_counter r = r_parts r * work /\
      r_guarded r = r_contributors r * lock_work /\ r_contributors r = r_parts r + 1 /\
      r_jobs_done r = Z.of_nat NJOBS /\ r_each_once r = true /\
      smp_report work lock_work r = (true, true, true) /\ ready (call_round s').
Proof.
  intros Hw Hl Hs Hr. destruct (round_runs work lock_work spin_limit checks Hw Hl present sched s Hs Hr) as (s' & E & Hc).
  exists s'. split; [done|]. intros g r Hd. destruct Hc as [Hc|Hc].
  { destruct (op_pc _ _ _ _ _ _ _ Hc) as (x & Hx & Hpc). rewrite Hd in Hx. by injection Hx as <-. }
  destruct (ru_local _ _ _ _ _ _ _ _ _ _ Hc _ _ Hd) as [_ Eg]. cbn in Eg. subst g.
  destruct (ru_found _ _ _ _ _ _ _ _ _ _ Hc _ Hd eq_refl) as (Ha & (C1 & C2) & C3 & C4 & C5 & C6).
  assert (C1' : r_counter r = r_parts r * work) by congruence. assert (C2' : r_guarded r = r_contributors r * lock_work) by congruence.
  split_and!; try done; try congruence; [unfold smp_report; by rewrite <- C1', <- C2', C5, C6, !Z.eqb_refl|]. eapply done_ready; try done; [apply Hs|apply (rd_started _ Hs)|]. intros i. by apply ready_rounds.
Qed.

(** ** The machine is ready: a test *)

Definition waiting_hart (boot : nat) (gen : Z) (i : nat) (x : Hart) : bool :=
  (i =? boot)%nat || match h_pc x with Off => true | Wait => h_gen x =? gen | _ => false end.

Definition readyb (s : Smp) : bool :=
  let m := s_mem s in let q := m_runq m in
  (s_boot s <? MAX_HARTS)%nat && match s_harts s !! s_boot s with Some (mkHart _ Begin) => true | _ => false end &&
  (length (s_harts s) =? MAX_HARTS)%nat && forallb id (imap (waiting_hart (s_boot s) (m_gen m)) (s_harts s)) &&
  ((m_started m =? online s) && negb (online s =? 0)) && match m_lock m with None => true | _ => false end &&
  ((length (m_runs m) =? NJOBS)%nat && ((length (m_jhart m) =? NJOBS)%nat && (length (m_rounds m) =? MAX_HARTS)%nat)) &&
  ((zlen (q_buf q) =? RUNQ_CAP) && (0 <=? q_head q) && (q_head q =? q_tail q)) &&
  forallb (fun n => (0 <=? n) && (n <=? m_gen m)) (m_rounds m).

Lemma readyb_ready s : readyb s = true -> ready s.
Proof.
  unfold readyb. cbn zeta. rewrite !andb_true_iff, !Nat.eqb_eq, !Z.eqb_eq, negb_true_iff, Z.eqb_neq, Nat.ltb_lt, Z.leb_le.
  intros ((((((((H1 & H2) & H3) & H4) & H5) & H6) & H7) & ((H8 & H8') & H8'')) & H9). split; try done.
  - destruct (s_harts s !! s_boot s) as [[g []]|]; try done. by exists g.
  - intros i x Hne Hx. rewrite forallb_forall in H4. specialize (H4 (waiting_hart (s_boot s) (m_gen (s_mem s)) i x)).
    assert (Hin : waiting_hart (s_boot s) (m_gen (s_mem s)) i x = true).
    { apply H4, list_elem_of_In, list_elem_of_lookup. exists i. by rewrite list_lookup_imap, Hx. }
    unfold waiting_hart in Hin. rewrite (proj2 (Nat.eqb_neq _ _) Hne) in Hin. destruct x as [g []]; cbn in *; try done; [by left|].
    apply Z.eqb_eq in Hin as ->. by right.
  - by destruct (m_lock (s_mem s)).
  - split; [split; unfold RUNQ_CAP in *; (done || lia)|]. unfold waiting. by rewrite H8'', Z.sub_diag.
  - intros i n Hn. rewrite forallb_forall in H9. specialize (H9 n). rewrite andb_true_iff, !Z.leb_le in H9. apply H9.
    apply list_elem_of_In. by eapply list_elem_of_lookup_2.
Qed.

(** The machine after [smp_bringup] with one secondary: both come up, in turn. *)
Definition present_1 (hid : nat) : bool := (hid =? 1)%nat.
Definition outcome_or {A} (o : outcome Empty_set A) (d : A) : A := match o with Ret a => a | _ => d end.
Definition brought_up : Smp :=
  outcome_or (smp_turns 2 1 9 true present_1 (concat (replicate 10 [0; 1]%nat)) (power_on 0)) (power_on 0).

Definition boot_pc (s : Smp) : Pc := match s_harts s !! s_boot s with Some x => h_pc x | None => Off end.

(** What the boot hart's call of [smp_round] gave, if it returned. *)
Definition verdict (s : Smp) : option (bool * SmpRound) := match boot_pc s with Done t r => Some (t, r) | _ => None end.

Lemma a_parallel_round_is_exact_witness :
  (exists s', smp_turns 2 1 9 true present_1 (concat (replicate 500 [0; 1]%nat)) brought_up = Ret s' /\
    forall g r, s_harts s' !! s_boot brought_up = Some (mkHart g (Done true r)) ->
      r_parts r = online brought_up /\ r_counter r = r_parts r * 2 /\
      r_guarded r = r_contributors r * 1 /\ r_contributors r = r_parts r + 1 /\
      r_jobs_done r = Z.of_nat NJOBS /\ r_each_once r = true /\
      smp_report 2 1 r = (true, true, true) /\ ready (call_round s')) /\
  verdict (outcome_or (smp_turns 2 1 9 true present_1 (concat (replicate 500 [0; 1]%nat)) brought_up) brought_up) =
    Some (true, mkSmpRound 1 2 2 2 2 48 true 2).
Proof.
  split; [|by vm_compute]. apply (a_parallel_round_is_exact 2 1 9 true present_1 (concat (replicate 500 [0; 1]%nat)) brought_up); [lia|lia| |].
  - apply readyb_ready. by vm_compute.
  - by vm_compute.
Defined.

(** ** A generation missed is missed for ever *)

(** A started hart whose round count is behind the generation keeps every later
    round from ending in time: the boot hart waits for the spin limit each time. *)
Theorem a_missed_generation_times_every_round_out work lock_work spin_limit checks present sched s s' i x n g t r :
  0 <= work <= 2 ^ 32 -> 0 <= lock_work <= 2 ^ 32 -> ready s -> room s ->
  s_harts s !! i = Some x -> i <> s_boot s -> h_pc x <> Off -> m_rounds (s_mem s) !! i = Some n -> n < m_gen (s_mem s) ->
  smp_turns work lock_work spin_limit checks present sched s = Ret s' -> s_harts s' !! s_boot s = Some (mkHart g (Done t r)) ->
  t = false.
Proof.
  intros Hw Hl Hs Hr Hx Hne Hoff Hn Hlt Et Hd. destruct t; [|done].
  pose proof (in_time_up_to_date work lock_work spin_limit checks Hw Hl present sched s s' g r i x n Hs Hr Et Hd Hx Hne Hoff Hn). lia.
Qed.

(** The boot hart counts a secondary as online when it has added itself to
    [HARTS_ONLINE], one access before it loads [SMP_GEN].  A round opened in
    between is the generation the secondary takes for already served: it
    sleeps through the round, and its count stays one behind. *)
Definition missed_schedule : list nat := replicate 9 0%nat ++ [1; 1]%nat ++ replicate 152 0%nat ++ [1]%nat ++ replicate 700 0%nat.

Definition missed : Smp := outcome_or (smp_turns 2 1 9 true present_1 missed_schedule (power_on 0)) (power_on 0).

Theorem the_first_round_can_be_missed :
  verdict missed = Some (false, mkSmpRound 0 0 1 1 0 48 true 1) /\
  s_harts missed !! 1%nat = Some (mkHart 1 Wait) /\ m_rounds (s_mem missed) !! 1%nat = Some 0 /\ m_gen (s_mem missed) = 1 /\
  ready (call_round missed).
Proof. split_and!; try by vm_compute. apply readyb_ready. by vm_compute. Qed.

(** The next round, with fair turns. *)
Definition next_schedule : list nat := concat (replicate 500 [0; 1]%nat).
Definition next_round : Smp := outcome_or (smp_turns 2 1 9 true present_1 next_schedule (call_round missed)) missed.

Lemma next_round_runs : smp_turns 2 1 9 true present_1 next_schedule (call_round missed) = Ret next_round.
Proof. by vm_compute. Qed.

Lemma a_missed_generation_witness :
  verdict next_round = Some (false, mkSmpRound 0 2 2 1 0 48 true 2) /\
  smp_report 2 1 (mkSmpRound 0 2 2 1 0 48 true 2) = (false, false, true) /\
  (forall g t r, s_harts next_round !! s_boot (call_round missed) = Some (mkHart g (Done t r)) -> t = false).
Proof.
  split; [by vm_compute|]. split; [by vm_compute|]. intros g t r.
  apply (a_missed_generation_times_every_round_out 2 1 9 true present_1 next_schedule (call_round missed) next_round 1 (mkHart 1 Wait) 0 g t r);
    [lia|lia|apply readyb_ready; by vm_compute|by vm_compute|by vm_compute|by vm_compute|done|by vm_compute|by vm_compute|apply next_round_runs].
Defined.
