(* ===== verification/SmpFair.v ===== *)
(** * A parallel round ends

    Under every schedule that keeps giving each hart a turn, [smp_round]
    returns, whatever the secondaries do: the drain and the guarded work end
    because each turn either changes nothing or brings the machine closer to
    the end, a hart that finds the lock held waits for one that can move, and
    the wait for the reports is bounded by the spin limit. *)

From Stdlib Require Import ZArith Lia.
From stdpp Require Import base option numbers list.
From S2P Require Import Prelude Runq Smp SmpSafe.

Section Potential.
Context (work lock_work spin_limit : Z) (checks : bool).
Context (b : nat) (G : Z) (r0 : list Z) (st mq : Z) (on : nat -> Z).
Hypotheses (Hwork : 0 <= work <= 2 ^ 32) (Hlw : 0 <= lock_work <= 2 ^ 32) (Hb : (b < MAX_HARTS)%nat)
  (HG : 0 <= G < 2 ^ 64 - 1) (Hmq : mq < 2 ^ 64) (Hr0 : forall i, (i < MAX_HARTS)%nat -> 0 <= r0 !!! i <= G).

(** ** How far a hart is from its end *)

(** The boot hart, from its first look at the reports. *)
Definition scan_rank : Z := 10 * Z.max 0 spin_limit + 70.

(** What follows the locked work, and what follows the drain. *)
Definition after_lock (i : nat) : Z := if (i =? b)%nat then scan_rank else 1.
Definition after_drain (i : nat) : Z := after_lock i + 4 * lock_work + 3 + (if (i =? b)%nat then 0 else work + 1).

Definition opening_rank : Z := after_drain b + 2 + 6 * Z.of_nat NJOBS.

Definition rank (i : nat) (x : Hart) : Z :=
  match h_pc x with
  | Wait => if h_gen x =? G + 1 then 0 else after_drain i + 3
  | Load => after_drain i + 2
  | Pop => after_drain i + 1
  | MarkDone => after_drain i + 2
  | MarkHart _ => after_drain i + 3
  | MarkRun _ => after_drain i + 4
  | Count n => after_lock i + 4 * lock_work + 3 + (work - n)
  | Take k => after_lock i + 4 * (lock_work - k) + 2
  | Read k => after_lock i + 4 * (lock_work - k) + 1
  | Store k _ => after_lock i + 4 * (lock_work - k)
  | Unlock k => after_lock i + 4 * (lock_work - k) - 1
  | Report => after_lock i
  | Begin => opening_rank + 2 * Z.of_nat NJOBS + 6
  | Clear => opening_rank + 2 * Z.of_nat NJOBS + 5
  | ClearGuarded => opening_rank + 2 * Z.of_nat NJOBS + 4
  | ClearDone => opening_rank + 2 * Z.of_nat NJOBS + 3
  | ClearRuns k => opening_rank + 2 * (Z.of_nat NJOBS - Z.of_nat k) + 2
  | ClearHart k => opening_rank + 2 * (Z.of_nat NJOBS - Z.of_nat k) + 1
  | Push k => after_drain b + 3 + 6 * (Z.of_nat NJOBS - Z.of_nat k)
  | Open => after_drain b + 2
  | Scan spins h _ => 10 * (Z.max 0 spin_limit - spins) + (8 - Z.of_nat h) + 62
  | GetCounter _ => 61
  | GetGuarded _ _ => 60
  | Tally _ _ h => 51 + (8 - Z.of_nat h)
  | GetDone _ _ => 50
  | Verdict _ _ k _ => 1 + (48 - Z.of_nat k)
  | _ => 0
  end.

Definition queue_rank (m : Mem) : Z := 5 * zlen (waiting RUNQ_CAP (m_runq m)).
Definition potential (s : Smp) : Z := queue_rank (s_mem s) + total rank (s_harts s).

Abbreviation running := (running work lock_work spin_limit b G r0 st mq on).
Abbreviation opening := (opening b G r0 st mq on).

(** ** Every turn stutters or makes progress *)

(** An access from [(x, m)] to [(x', m')] of hart [i]. *)
Definition progress (i : nat) (x x' : Hart) (m m' : Mem) : Prop := queue_rank m' + rank i x' < queue_rank m + rank i x.

Ltac ranks := unfold progress, rank, opening_rank, after_drain, after_lock, scan_rank, queue_rank, NJOBS in *; cbn -[Z.mul Z.add Z.sub Z.of_nat] in *.

Lemma drain_progress s i x after r p m : running s -> s_harts s !! i = Some x ->
  drain_access checks i after (h_pc x) (s_mem s) = Some r -> r = Ret (p, m) -> after = (if (i =? b)%nat then Take 0 else Count 0) ->
  progress i x (mkHart (h_gen x) p) (s_mem s) m.
Proof.
  intros Hs Hi Er -> ->. destruct x as [g q]. cbn [h_pc h_gen] in *.
  destruct q; try done; cbn [drain_access] in Er; injection Er as Er; [|simplify_eq; ranks; lia..].
  destruct (rq_pop_refines RUNQ_CAP checks mq _ (ru_queue _ _ _ _ _ _ _ _ _ _ Hs) Hmq) as (q & E & Hq & Hw). rewrite E in Er. cbn [mbind outcome_bind] in Er.
  destruct (waiting RUNQ_CAP (m_runq (s_mem s))) as [|id l] eqn:Ew; cbn [head tail] in *; injection Er as <- <-.
  - destruct (i =? b)%nat eqn:Eib; ranks; rewrite Eib, Hw, Ew; lia.
  - case_match; ranks; rewrite Hw, Ew; unfold zlen; cbn [length]; lia.
Qed.

Lemma locked_progress s i x after r p m : running s -> s_harts s !! i = Some x ->
  locked_access lock_work checks i after (h_pc x) (s_mem s) = Some r -> r = Ret (p, m) -> after = (if (i =? b)%nat then Scan 0 0 0 else Report) ->
  (mkHart (h_gen x) p = x /\ m = s_mem s /\ exists j, m_lock (s_mem s) = Some j) \/ progress i x (mkHart (h_gen x) p) (s_mem s) m.
Proof.
  intros Hs Hi Er -> ->. pose proof (ru_local _ _ _ _ _ _ _ _ _ _ Hs i x Hi) as Hx. destruct x as [g q]. unfold local_ok in Hx. cbn [h_pc h_gen] in *.
  destruct q; try done; cbn [locked_access] in Er; injection Er as Er.
  - destruct (Z.ltb_spec m0 lock_work) as [Hlt|Hge]; [destruct (m_lock (s_mem s)) as [j|] eqn:El|]; simplify_eq.
    + left. eauto.
    + right. ranks. lia.
    + right. destruct (i =? b)%nat eqn:Eib; ranks; rewrite Eib; lia.
  - simplify_eq. right. ranks. lia.
  - destruct (uadd 64 checks v 1); simplify_eq/=. right. ranks. lia.
  - simplify_eq. right. ranks. lia.
Qed.

Lemma hart_main_progress s i x x' m : running s -> s_harts s !! i = Some x -> i <> b ->
  hart_main_access work lock_work checks i x (s_mem s) = Ret (x', m) -> (x' = x /\ m = s_mem s) \/ progress i x x' (s_mem s) m.
Proof.
  intros Hs Hi Hne. pose proof (ru_local _ _ _ _ _ _ _ _ _ _ Hs i x Hi) as Hx. pose proof (proj2 (Nat.eqb_neq _ _) Hne) as Eib.
  unfold hart_main_access. destruct (drain_access checks i (Count 0) (h_pc x) (s_mem s)) as [r|] eqn:Ed.
  { destruct r as [[p m1]| |]; cbn; try done. intros [= <- <-]. right. eapply drain_progress; try done. by rewrite Eib. }
  destruct (locked_access lock_work checks i Report (h_pc x) (s_mem s)) as [r|] eqn:El.
  { destruct r as [[p m1]| |]; cbn; try done. intros [= <- <-].
    destruct (locked_progress s i x _ _ p m1 Hs Hi El eq_refl) as [(-> & -> & _)|?]; rewrite ?Eib; auto. }
  pose proof (ru_gen _ _ _ _ _ _ _ _ _ _ Hs) as Hg. destruct x as [g p]. unfold local_ok in Hx. cbn [h_pc h_gen] in *.
  destruct p; try done; try (intros [= <- <-]; by left).
  - destruct (Z.eqb_spec (m_gen (s_mem s)) g) as [|Hgn]; intros [= <- <-]; [by left|right]. ranks.
    rewrite (proj2 (Z.eqb_neq g (G + 1))) by lia. lia.
  - intros [= <- <-]. right. ranks. lia.
  - destruct (Z.ltb_spec n work); intros [= <- <-]; right; ranks; lia.
  - intros [= <- <-]. right. destruct Hx as [_ ->]. ranks. rewrite Z.eqb_refl, Eib. case_match; cbn; lia.
Qed.

Lemma boot_progress s x x' m : running s -> s_harts s !! b = Some x ->
  smp_round_access lock_work spin_limit checks b x (s_mem s) = Ret (x', m) ->
  (x' = x /\ m = s_mem s /\ ((exists t r, h_pc x = Done t r) \/ exists j, m_lock (s_mem s) = Some j /\ in_cs (h_pc x) = false)) \/
  progress b x x' (s_mem s) m.
Proof.
  intros Hs Hi. pose proof (ru_local _ _ _ _ _ _ _ _ _ _ Hs b x Hi) as Hx. destruct (ru_lens _ _ _ _ _ _ _ _ _ _ Hs) as (L1 & L2 & L3).
  unfold smp_round_access. destruct (drain_access checks b (Take 0) (h_pc x) (s_mem s)) as [r|] eqn:Ed.
  { destruct r as [[p m1]| |]; cbn; try done. intros [= <- <-]. right. eapply drain_progress; try done. by rewrite Nat.eqb_refl. }
  destruct (locked_access lock_work checks b (Scan 0 0 0) (h_pc x) (s_mem s)) as [r|] eqn:El.
  { destruct r as [[p m1]| |]; cbn; try done. intros [= <- <-].
    destruct (locked_progress s b x _ _ p m1 Hs Hi El eq_refl) as [(E & -> & j & Hj)|?]; rewrite ?Nat.eqb_refl; auto.
    left. split_and!; try done. right. exists j. split; [done|]. rewrite <- E. clear -El E. destruct x as [g q]. cbn in *.
    injection E as ->. destruct q; try done. cbn in El. by destruct (uadd 64 checks v 1). }
  destruct x as [g p]. unfold local_ok in Hx. cbn [h_pc h_gen] in *.
  destruct p; try done; try (by destruct Hx as [[] _]); intros [= <- <-]; try (right; ranks; lia).
  - right. destruct Hx as (_ & -> & Hsp & Hh). unfold scan_access. destruct (m_rounds (s_mem s) !! h) eqn:E.
    + ranks. lia.
    + apply lookup_ge_None in E. rewrite L3 in E. unfold MAX_HARTS in *. case_match eqn:E2; ranks; [lia|].
      apply orb_false_iff in E2 as [_ E2%Z.leb_gt]. lia.
  - right. cbn [verdict_access]. destruct (m_rounds (s_mem s) !! h) eqn:E; ranks; [lia|].
    apply lookup_ge_None in E. unfold MAX_HARTS in *. lia.
  - right. cbn [verdict_access]. destruct (m_runs (s_mem s) !! i) eqn:E, (m_jhart (s_mem s) !! i); ranks; unfold NJOBS in *; lia.
  - left. split_and!; try done. left. eauto.
Qed.

Lemma opening_progress s x x' m : opening s -> st <> 0 -> s_harts s !! b = Some x ->
  smp_round_access lock_work spin_limit checks b x (s_mem s) = Ret (x', m) -> progress b x x' (s_mem s) m.
Proof.
  intros Hs Hst Hi. destruct (op_pc _ _ _ _ _ _ _ Hs) as (y & Hy & Hpc). rewrite Hi in Hy. injection Hy as <-.
  destruct x as [g p]. cbn [h_pc] in Hpc. destruct p; try done; unfold opening_ok in Hpc; cbn [smp_round_access drain_access locked_access h_pc h_gen].
  - rewrite (op_st _ _ _ _ _ _ _ Hs), (proj2 (Z.eqb_neq _ _) Hst). intros [= <- <-]. ranks. lia.
  - intros [= <- <-]. ranks. lia.
  - intros [= <- <-]. ranks. lia.
  - intros [= <- <-]. ranks. lia.
  - destruct (Nat.ltb_spec i NJOBS); intros [= <- <-]; ranks; lia.
  - intros [= <- <-]. ranks. lia.
  - destruct Hpc as (Hc & Hz & Hk & Hq & Hw). destruct (Nat.ltb_spec i NJOBS) as [Hlt|Hge].
    + destruct (rq_push_refines RUNQ_CAP checks _ _ (Z.of_nat i) Hq) as (q & -> & Hq' & Hw').
      { unfold NJOBS in *. lia. } { rewrite Hw, zlen_jobs. unfold NJOBS, RUNQ_CAP in *. lia. }
      cbn [mbind outcome_bind]. intros [= <- <-]. ranks. rewrite Hw', Hw, zlen_app. unfold zlen at 2. cbn [length]. lia.
    + intros [= <- <-]. ranks. lia.
  - rewrite (op_gen _ _ _ _ _ _ _ Hs), uadd_small by lia. cbn [mbind outcome_bind]. intros [= <- <-]. ranks. lia.
Qed.

Definition underway (s : Smp) : Prop := opening s \/ running s.

Lemma underway_turn present s i : underway s -> st <> 0 ->
  exists s', smp_turn work lock_work spin_limit checks present i s = Ret s' /\ underway s'.
Proof.
  intros [Hs|Hs] Hst; [by apply turn_opening|]. edestruct turn_running as (s' & E & Hr); [..|exact Hs|]; try done.
  exists s'. split; [exact E|by right].
Qed.

Lemma underway_boot s : underway s -> s_boot s = b.
Proof. intros [Hs|Hs]; [by apply Hs|by eapply ru_boot]. Qed.

(** A turn is an access of the hart it is given to. *)
Lemma turn_access present s i x : underway s -> s_harts s !! i = Some x ->
  smp_turn work lock_work spin_limit checks present i s = hart_access work lock_work spin_limit checks i x s.
Proof.
  intros Hs Hi. unfold smp_turn. rewrite Hi. destruct Hs as [Hs|Hs].
  - destruct (decide (i = b)) as [->|Hne].
    + destruct (op_pc _ _ _ _ _ _ _ Hs) as (y & Hy & Hpc). rewrite Hi in Hy. injection Hy as <-. by destruct (h_pc x).
    + by destruct (op_others _ _ _ _ _ _ _ Hs i x Hne Hi) as [-> | ->].
  - pose proof (ru_local _ _ _ _ _ _ _ _ _ _ Hs i x Hi) as Hx. unfold local_ok in Hx. by destruct (h_pc x).
Qed.

Lemma same_state s i x : underway s -> s_harts s !! i = Some x -> mkSmp b (s_mem s) (<[i := x]> (s_harts s)) = s.
Proof. intros Hs Hi. rewrite list_insert_id, <- (underway_boot s Hs) by done. by destruct s. Qed.

Lemma progress_potential s i x x' m : s_harts s !! i = Some x -> progress i x x' (s_mem s) m ->
  potential (mkSmp b m (<[i := x']> (s_harts s))) < potential s.
Proof. intros Hi Hp. unfold potential, progress in *. cbn [s_mem s_harts]. rewrite (total_insert _ _ _ _ _ Hi). lia. Qed.

Lemma smp_turn_progress present s i s' : underway s -> st <> 0 ->
  smp_turn work lock_work spin_limit checks present i s = Ret s' -> s' = s \/ potential s' < potential s.
Proof.
  intros Hs Hst. destruct (s_harts s !! i) as [x|] eqn:Hi; [|unfold smp_turn; rewrite Hi; intros [= <-]; by left].
  rewrite (turn_access present s i x Hs Hi). unfold hart_access. rewrite (underway_boot s Hs). destruct (Nat.eqb_spec i b) as [->|Hne].
  - destruct (smp_round_access _ _ _ b x (s_mem s)) as [[x' m]| |] eqn:E; cbn; try done. intros [= <-]. pose proof Hs as Hu.
    destruct Hs as [Hs|Hs].
    + right. apply (progress_potential s b x); [done|]. by eapply opening_progress.
    + destruct (boot_progress s x x' m Hs Hi E) as [(-> & -> & _)|Hp]; [left; by apply same_state|right; by apply (progress_potential s b x)].
  - destruct (hart_main_access _ _ _ i x (s_mem s)) as [[x' m]| |] eqn:E; cbn; try done. intros [= <-]. pose proof Hs as Hu.
    assert (Hst' : (x' = x /\ m = s_mem s) \/ progress i x x' (s_mem s) m).
    { destruct Hs as [Hs|Hs]; [|by eapply hart_main_progress]. left. destruct x as [g p].
      destruct (op_others _ _ _ _ _ _ _ Hs i _ Hne Hi) as [Ep|[= -> ->]].
      - cbn in Ep. subst p. cbn in E. by injection E as <- <-.
      - cbn in E. rewrite (op_gen _ _ _ _ _ _ _ Hs), Z.eqb_refl in E. by injection E as <- <-. }
    destruct Hst' as [[-> ->]|Hp]; [left; by apply same_state|right; by apply (progress_potential s i x)].
Qed.

(** ** Somebody can always move *)

(** The holder of the lock is never stuck. *)
Lemma holder_moves present s j : running s -> st <> 0 -> m_lock (s_mem s) = Some j ->
  smp_turn work lock_work spin_limit checks present j s <> Ret s.
Proof.
  intros Hs Hst Hl. apply (ru_lock _ _ _ _ _ _ _ _ _ _ Hs) in Hl as (x & Hx & Hcs).
  rewrite (turn_access present s j x (or_intror Hs) Hx). unfold hart_access. intros E.
  assert (Hj : (j < length (s_harts s))%nat) by (by eapply lookup_lt_Some).
  assert (Hpc : exists p m, (if (j =? s_boot s)%nat then smp_round_access lock_work spin_limit checks j x (s_mem s)
    else hart_main_access work lock_work checks j x (s_mem s)) = Ret (mkHart (h_gen x) p, m) /\ p <> h_pc x).
  { destruct x as [g p]. cbn [h_pc h_gen] in *. destruct p; try done; unfold smp_round_access, hart_main_access; cbn.
    - case_match; by eexists _, _.
    - rewrite (ru_store _ _ _ _ _ _ _ _ _ _ Hs j _ _ _ Hx eq_refl). edestruct running_bounds as (_ & Hgd & _); [..|exact Hs|]; try done.
      rewrite uadd_small by lia. cbn. case_match; by eexists _, _.
    - case_match; by eexists _, _. }
  destruct Hpc as (p & m & Ep & Hne). rewrite Ep in E. cbn in E. injection E as E.
  assert (E2 : s_harts s !! j = Some (mkHart (h_gen x) p)) by (rewrite <- E; cbn; by rewrite list_lookup_insert_eq).
  rewrite Hx in E2. injection E2 as E2. apply Hne. by rewrite E2.
Qed.

Lemma boot_stuck present s x : underway s -> st <> 0 -> s_harts s !! b = Some x ->
  smp_turn work lock_work spin_limit checks present b s = Ret s ->
  running s /\ ((exists t r, h_pc x = Done t r) \/ exists j, m_lock (s_mem s) = Some j).
Proof.
  intros Hs Hst Hi E. rewrite (turn_access present s b x Hs Hi) in E. unfold hart_access in E.
  rewrite (underway_boot s Hs), Nat.eqb_refl in E.
  destruct (smp_round_access _ _ _ b x (s_mem s)) as [[x' m]| |] eqn:Er; cbn in E; try done. injection E as E.
  assert (Hno : ~ progress b x x' (s_mem s) m).
  { intros Hp. pose proof (progress_potential s b x x' m Hi Hp) as Hlt. rewrite E in Hlt. lia. }
  destruct Hs as [Hs|Hs]; [exfalso; apply Hno; by eapply opening_progress|]. split; [done|].
  destruct (boot_progress s x x' m Hs Hi Er) as [(_ & _ & [?|(j & ? & _)])|]; [by left|right; by exists j|done].
Qed.

Lemma turns_progress present sched : forall s s', underway s -> st <> 0 ->
  smp_turns work lock_work spin_limit checks present sched s = Ret s' ->
  underway s' /\ (potential s' < potential s \/
    s' = s /\ forall i, i ∈ sched -> smp_turn work lock_work spin_limit checks present i s = Ret s).
Proof.
  induction sched as [|i sched IH]; intros s s' Hs Hst E; cbn [smp_turns] in E.
  { injection E as <-. split; [done|]. right. split; [done|]. intros j Hj. by apply not_elem_of_nil in Hj. }
  destruct (underway_turn present s i Hs Hst) as (s1 & E1 & H1). rewrite E1 in E. cbn [mbind outcome_bind] in E.
  destruct (IH s1 s' H1 Hst E) as [Hs' Hc]. split; [done|].
  destruct (smp_turn_progress present s i s1 Hs Hst E1) as [->|Hlt], Hc as [Hlt2|[-> Hall]]; try (left; lia).
  right. split; [done|]. intros j [->|Hj]%elem_of_cons; [done|by apply Hall].
Qed.

(** A stretch of schedule in which every hart has a turn. *)
Definition fair (round : list nat) : Prop := forall i, (i < MAX_HARTS)%nat -> i ∈ round.

Definition returned (s : Smp) : Prop := exists g t r, s_harts s !! b = Some (mkHart g (Done t r)).

Lemma fair_progress present round s s' : underway s -> st <> 0 -> fair round ->
  smp_turns work lock_work spin_limit checks present round s = Ret s' -> potential s' < potential s \/ returned s'.
Proof.
  intros Hs Hst Hf E. destruct (turns_progress present round s s' Hs Hst E) as [_ [Hlt|[-> Hall]]]; [by left|right].
  assert (Hlen : length (s_harts s) = MAX_HARTS) by (destruct Hs as [Hs|Hs]; [apply Hs|by eapply ru_len]).
  destruct (lookup_lt_is_Some_2 (s_harts s) b) as [x Hx]; [lia|].
  destruct (boot_stuck present s x Hs Hst Hx) as [Hr [(t & r & Hd)|(j & Hj)]]; [by apply Hall, Hf| |].
  - exists (h_gen x), t, r. rewrite Hx. destruct x. cbn in *. congruence.
  - exfalso. apply (holder_moves present s j Hr Hst Hj). apply Hall, Hf.
    apply (ru_lock _ _ _ _ _ _ _ _ _ _ Hr) in Hj as (y & Hy & _). rewrite <- Hlen. by eapply lookup_lt_Some.
Qed.

Lemma returned_turn present s i s' : underway s -> smp_turn work lock_work spin_limit checks present i s = Ret s' -> returned s -> returned s'.
Proof.
  intros Hs E (g & t & r & Hd). destruct (s_harts s !! i) as [x|] eqn:Hi; [|unfold smp_turn in E; rewrite Hi in E; injection E as <-; by exists g, t, r].
  rewrite (turn_access present s i x Hs Hi) in E. unfold hart_access in E. rewrite (underway_boot s Hs) in E.
  destruct (Nat.eqb_spec i b) as [->|Hne].
  - rewrite Hd in Hi. injection Hi as <-. cbn in E. injection E as <-. exists g, t, r. cbn.
    apply list_lookup_insert_eq. eapply lookup_lt_Some. exact Hd.
  - destruct (hart_main_access _ _ _ i x (s_mem s)) as [[x' m]| |]; cbn in E; try done. injection E as <-.
    exists g, t, r. cbn. by rewrite list_lookup_insert_ne.
Qed.

Lemma returned_turns present sched : forall s s', underway s -> st <> 0 ->
  smp_turns work lock_work spin_limit checks present sched s = Ret s' -> returned s -> returned s'.
Proof.
  induction sched as [|i sched IH]; intros s s' Hs Hst E Hd; cbn [smp_turns] in E; [by injection E as <-|].
  destruct (underway_turn present s i Hs Hst) as (s1 & E1 & H1). rewrite E1 in E. cbn [mbind outcome_bind] in E.
  eapply IH; [exact H1|done|exact E|]. eapply returned_turn; [exact Hs|exact E1|exact Hd].
Qed.

Lemma potential_nonneg s : underway s -> 0 <= potential s.
Proof.
  intros Hs. unfold potential, queue_rank. pose proof (zlen_nonneg (waiting RUNQ_CAP (m_runq (s_mem s)))).
  assert (0 <= total rank (s_harts s)); [|lia]. rewrite <- (total_zero (fun _ (_ : Hart) => 0) (s_harts s)) at 1 by done. apply total_le.
  intros i x Hi. assert (Ha : 0 <= after_lock i <= after_drain i) by (unfold after_drain, after_lock, scan_rank; case_match; lia).
  assert (Hc : 0 <= after_drain b) by (unfold after_drain, after_lock, scan_rank; case_match; lia). unfold rank, opening_rank, NJOBS.
  destruct Hs as [Hs|Hs].
  - destruct (decide (i = b)) as [->|Hne].
    + destruct (op_pc _ _ _ _ _ _ _ Hs) as (y & Hy & Hpc). rewrite Hi in Hy. injection Hy as <-. unfold opening_ok, NJOBS in Hpc.
      destruct (h_pc x); try done; lia.
    + destruct (op_others _ _ _ _ _ _ _ Hs i x Hne Hi) as [-> | ->]; [done|]. cbn. case_match; lia.
  - pose proof (ru_local _ _ _ _ _ _ _ _ _ _ Hs i x Hi) as Hx. unfold local_ok, MAX_HARTS, NJOBS in Hx.
    destruct (h_pc x); try done; try case_match; lia.
Qed.

Lemma smp_turns_app present a c s : smp_turns work lock_work spin_limit checks present (a ++ c) s =
  (s ← smp_turns work lock_work spin_limit checks present a s; smp_turns work lock_work spin_limit checks present c s).
Proof.
  revert s. induction a as [|i a IH]; intros s; [done|]. cbn. destruct (smp_turn _ _ _ _ _ i s); cbn; [apply IH|done|done].
Qed.

Lemma fair_rounds_return present : forall rounds s, underway s -> st <> 0 -> Forall fair rounds -> potential s < zlen rounds ->
  exists s', smp_turns work lock_work spin_limit checks present (concat rounds) s = Ret s' /\ underway s' /\ returned s'.
Proof.
  induction rounds as [|round rounds IH]; intros s Hs Hst Hf Hp; [pose proof (potential_nonneg s Hs); unfold zlen in Hp; cbn in Hp; lia|].
  apply Forall_cons in Hf as [Hf1 Hf]. cbn [concat]. rewrite smp_turns_app.
  assert (Hex : forall sched s, underway s -> exists s', smp_turns work lock_work spin_limit checks present sched s = Ret s').
  { clear -Hwork Hlw Hb HG Hmq Hr0 Hst. induction sched as [|i sched IH]; intros s Hs; [by exists s|]. cbn.
    destruct (underway_turn present s i Hs Hst) as (s1 & -> & H1). cbn. by apply IH. }
  destruct (Hex round s Hs) as (s1 & E1). rewrite E1. cbn [mbind outcome_bind].
  destruct (turns_progress present round s s1 Hs Hst E1) as [H1 _].
  destruct (fair_progress present round s s1 Hs Hst Hf1 E1) as [Hlt|Hd].
  - apply IH; try done. unfold zlen in *. cbn [length] in Hp. lia.
  - destruct (Hex (concat rounds) s1 H1) as (s2 & E2). exists s2. split; [done|].
    split; [by eapply turns_progress|by eapply returned_turns].
Qed.
End Potential.

(** ** The round returns *)

(** Turns of each hart that are enough. *)
Definition round_bound (work lock_work spin_limit : Z) : Z := 7 * work + 32 * lock_work + 10 * Z.max 0 spin_limit + 521.

Lemma total_ones {A} (l : list A) : total (fun _ _ => 1) l = zlen l.
Proof. induction l as [|a l IH]; [done|]. rewrite total_cons, IH. unfold zlen. cbn [length]. lia. Qed.

Lemma ready_potential work lock_work spin_limit s : 0 <= work -> 0 <= lock_work -> ready s ->
  potential work lock_work spin_limit (s_boot s) (m_gen (s_mem s)) s <= round_bound work lock_work spin_limit.
Proof.
  intros Hw Hl Hs. unfold potential, queue_rank. destruct (rd_queue _ Hs) as [_ ->]. set (K := 4 * lock_work + work + 8).
  set (B := 10 * Z.max 0 spin_limit + 4 * lock_work + 465).
  assert (Hle : total (rank work lock_work spin_limit (s_boot s) (m_gen (s_mem s))) (s_harts s) <=
    total (fun i (x : Hart) => K * 1 + (if (i =? s_boot s)%nat then B - K else 0)) (s_harts s)).
  { apply total_le. intros i x Hi. destruct (Nat.eqb_spec i (s_boot s)) as [->|Hne].
    - destruct (rd_begin _ Hs) as (g & Hg). rewrite Hg in Hi. injection Hi as <-.
      unfold rank, opening_rank, after_drain, after_lock, scan_rank, NJOBS. cbn [h_pc]. rewrite Nat.eqb_refl. lia.
    - destruct (rd_others _ Hs i x Hne Hi) as [E| ->]; unfold rank; [rewrite E; lia|]. cbn [h_pc h_gen].
      rewrite (proj2 (Z.eqb_neq _ _)) by lia. unfold after_drain, after_lock. rewrite (proj2 (Nat.eqb_neq _ _) Hne). lia. }
  rewrite (total_linear (fun _ _ => 1)), total_ones in Hle by (rewrite (rd_len _ Hs); apply Hs).
  assert (zlen (s_harts s) = 8) as E8 by (unfold zlen; by rewrite (rd_len _ Hs)). rewrite E8 in Hle.
  unfold round_bound, zlen. cbn [length]. lia.
Qed.

(** C18: smp_round, started with every other hart off or waiting at the current generation, at least one
    hart started, the lock free, the queue empty and 64-bit counters not exhausted, returns under every
    schedule that keeps giving each hart a turn, for work and lock_work up to 2^32: after more than 7
    work + 32 lock_work + 10 spin_limit + 521 stretches of schedule in which every hart has at least one
    turn, in any order, the boot hart has its verdict. *)
Theorem a_parallel_round_returns work lock_work spin_limit checks present rounds s :
  0 <= work <= 2 ^ 32 -> 0 <= lock_work <= 2 ^ 32 -> ready s -> room s ->
  Forall fair rounds -> round_bound work lock_work spin_limit < zlen rounds ->
  exists s' t r, smp_turns work lock_work spin_limit checks present (concat rounds) s = Ret s' /\ verdict s' = Some (t, r).
Proof.
  intros Hw Hl Hs [Hg Hq] Hf Hn. pose proof (ready_potential work lock_work spin_limit s ltac:(lia) ltac:(lia) Hs) as Hp.
  edestruct (fair_rounds_return work lock_work spin_limit checks (s_boot s) (m_gen (s_mem s)) (m_rounds (s_mem s)) (online s)
    (q_tail (m_runq (s_mem s)) + Z.of_nat NJOBS) (ons s)) as (s' & E & Hu & (g & t & r & Hd)); try done.
  - apply Hs.
  - intros i. by apply ready_rounds.
  - left. by apply ready_opening.
  - apply (rd_started _ Hs).
  - lia.
  - exists s', t, r. split; [exact E|]. unfold verdict, boot_pc. erewrite underway_boot; [|exact Hu]. by rewrite Hd.
Qed.

Lemma a_parallel_round_returns_witness :
  exists s' t r, smp_turns 2 1 9 true present_1 (concat (replicate 700 (seq 0 8))) brought_up = Ret s' /\ verdict s' = Some (t, r).
Proof.
  apply (a_parallel_round_returns 2 1 9 true present_1 (replicate 700 (seq 0 8)) brought_up); [lia|lia| | | |].
  - apply readyb_ready. by vm_compute.
  - by vm_compute.
  - apply Forall_replicate. intros i Hi. apply elem_of_seq. unfold MAX_HARTS in Hi. lia.
  - by vm_compute.
Defined.
