(* ===== verification/ApSlots.v ===== *)
(** * Tasks on secondary harts: address spaces, traps, dispatch
    (dezh-boot/src/smp.rs)

    A task slot has a private copy of the kernel's two page tables in which only
    its own stack megapage carries the user bit.  The first part is the life of
    these copies over the frame allocator: in every reachable state a prepared
    slot reaches the shared code and its own stack, nothing else, whatever the
    tasks store, the console's scheduler switches and the other slots do.  The
    second part is the trap handler of a secondary hart and one task run through
    it.  The hardware's walk is [user_access] of file Paging. *)

From Stdlib Require Import ZArith Lia.
From stdpp Require Import base option numbers list sets.
From S2P Require Import Prelude Frames Sched Paging.

Definition AP_SLOTS : nat := MAX_TASKS.
Definition AP_MAX_HARTS : Z := 8.
Definition SCAUSE_TIMER : Z := 5.

(** ** Slots *)

Record Slot := mkSlot {
  sl_entry : Z; sl_arg : Z; sl_satp : Z; sl_runs : Z; sl_hart : Z; sl_exit : Z; sl_fault : bool;
  sl_root : Z; sl_l1 : Z }.

Definition slot_new : Slot := mkSlot 0 0 0 0 (2 ^ 32 - 1) (2 ^ 64 - 1) false 0 0.

Definition with_tables (root l1 : Z) (s : Slot) : Slot :=
  mkSlot (sl_entry s) (sl_arg s) (sl_satp s) (sl_runs s) (sl_hart s) (sl_exit s) (sl_fault s) root l1.
Definition with_task (entry arg satp : Z) (s : Slot) : Slot :=
  mkSlot entry arg satp 0 (2 ^ 32 - 1) (2 ^ 64 - 1) false (sl_root s) (sl_l1 s).
Definition with_satp (satp : Z) (s : Slot) : Slot :=
  mkSlot (sl_entry s) (sl_arg s) satp (sl_runs s) (sl_hart s) (sl_exit s) (sl_fault s) (sl_root s) (sl_l1 s).
Definition with_run (runs hart : Z) (s : Slot) : Slot :=
  mkSlot (sl_entry s) (sl_arg s) (sl_satp s) runs hart (sl_exit s) (sl_fault s) (sl_root s) (sl_l1 s).
Definition with_exit (code : Z) (s : Slot) : Slot :=
  mkSlot (sl_entry s) (sl_arg s) (sl_satp s) (sl_runs s) (sl_hart s) code (sl_fault s) (sl_root s) (sl_l1 s).
Definition with_fault (s : Slot) : Slot :=
  mkSlot (sl_entry s) (sl_arg s) (sl_satp s) (sl_runs s) (sl_hart s) (sl_exit s) true (sl_root s) (sl_l1 s).

(** The allocator with its memory, and the slot table. *)
Record Spaces := mkSpaces { sp_pool : Pool; sp_slots : list Slot }.

Section Kernel.
Context (us ue ROOT L1 : Z).

(** One turn of the copy loop. *)
Definition copy_entry (root_pa l1_pa : Z) (m : mem) (i : Z) : mem :=
  let m := st64 m (root_pa + 8 * i) (ld64 m (ROOT + 8 * i)) in
  st64 m (l1_pa + 8 * i) (ld64 m (L1 + 8 * i)).

(** Clearing the user bit of one stack region. *)
Definition close_stack (l1_pa : Z) (m : mem) (i : Z) : mem :=
  let idx := stack_region_l1_index ue i in
  st64 m (l1_pa + 8 * idx) (ld64 m (l1_pa + 8 * idx) & unot 64 PTE_U).

Definition private_tables (slot root_pa l1_pa : Z) (m : mem) : mem :=
  let m := foldl (copy_entry root_pa l1_pa) m (seqZ 0 512) in
  let m := foldl (close_stack l1_pa) m (seqZ 0 (Z.of_nat MAX_TASKS)) in
  let mine := stack_region_l1_index ue slot in
  let m := st64 m (l1_pa + 8 * mine) (ld64 m (l1_pa + 8 * mine) .| PTE_U) in
  st64 m (root_pa + 8 * 2) (table_entry l1_pa).

(** The space of a slot: its [satp], 0 when there are no two frames. *)
Definition build_ap_slot_space (slot : nat) (s : Spaces) : outcome Empty_set (Z * Spaces) :=
  let '(root_pa, p) := frame_alloc (sp_pool s) in
  let '(l1_pa, p) := frame_alloc p in
  if (root_pa =? 0) || (l1_pa =? 0) then Ret (0, mkSpaces p (sp_slots s)) else
  let p := with_mem (private_tables (Z.of_nat slot) root_pa l1_pa) p in
  if (slot <? length (sp_slots s))%nat then
    Ret (Z.shiftl 8 60 .| Z.shiftr root_pa 12, mkSpaces p (alter (with_tables root_pa l1_pa) slot (sp_slots s)))
  else Panic.

Definition ap_prepare_slot (slot : nat) (entry arg : Z) (s : Spaces) : outcome Empty_set (bool * Spaces) :=
  '(satp, s) ← build_ap_slot_space slot s;
  if satp =? 0 then Ret (false, s) else
  Ret (true, mkSpaces (sp_pool s) (alter (with_task entry arg satp) slot (sp_slots s))).

Definition ap_free_slot (slot : nat) (s : Spaces) : outcome Empty_set Spaces :=
  match sp_slots s !! slot with
  | None => Panic
  | Some sl =>
    let r := sl_root sl in let l := sl_l1 sl in
    let p := if r =? 0 then sp_pool s else frame_free r (sp_pool s) in
    let p := if l =? 0 then p else frame_free l p in
    Ret (mkSpaces p (alter (fun sl => with_satp 0 (with_tables 0 0 sl)) slot (sp_slots s)))
  end.

(** ** What happens to them: slots are prepared and freed, a task in a prepared
    slot stores a byte through its space, the console's scheduler switches the
    kernel's own tables to another task. *)
Inductive ApOp :=
| Prepare (slot : nat) (entry arg : Z)
| FreeSlot (slot : nat)
| TaskStore (slot : nat) (va v : Z)
| Switch (active : Z).

Definition task_store (slot : nat) (va v : Z) (s : Spaces) : Spaces :=
  match sp_slots s !! slot with
  | Some sl =>
    if sl_satp sl =? 0 then s else
    match user_access (p_mem (sp_pool s)) (sl_satp sl) va Store with
    | Some pa => mkSpaces (with_mem (fun m => st8 m pa v) (sp_pool s)) (sp_slots s)
    | None => s
    end
  | None => s
  end.

Definition ap_op (s : Spaces) (o : ApOp) : outcome Empty_set Spaces :=
  match o with
  | Prepare slot entry arg => '(_, s) ← ap_prepare_slot slot entry arg s; Ret s
  | FreeSlot slot => ap_free_slot slot s
  | TaskStore slot va v => Ret (task_store slot va v s)
  | Switch a =>
    m ← set_active_task_mem ue L1 a (p_mem (sp_pool s));
    Ret (mkSpaces (with_mem (fun _ => m) (sp_pool s)) (sp_slots s))
  end.

Fixpoint ap_ops (s : Spaces) (os : list ApOp) : outcome Empty_set Spaces :=
  match os with [] => Ret s | o :: os => s ← ap_op s o; ap_ops s os end.

Definition names_slot (o : ApOp) : Prop := match o with Prepare k _ _ | FreeSlot k => (k < AP_SLOTS)%nat | _ => True end.
End Kernel.

(** ** The private tables are the kernel's, with the slot's stack open *)

Section Proofs.
Context (us ue ROOT L1 : Z).

(** The linker script: the image with its tables lies below the task stacks,
    the stacks below the frame pool. *)
Record ap_layout : Prop := {
  al_layout : layout us ue ROOT L1;
  al_tables : ROOT + 4096 <= ue /\ L1 + 4096 <= ue;
  al_stacks : ue + Z.of_nat MAX_TASKS * MEGA <= FRAME_POOL_BASE }.

Context (Hal : ap_layout).

Lemma frame_above f : frame_ok f -> ROOT + 4096 <= f /\ L1 + 4096 <= f.
Proof.
  intros (H & _). destruct Hal as [_ [? ?] Hs]. unfold MEGA, MAX_TASKS, FRAME_POOL_BASE in *. lia.
Qed.

Lemma frames_apart f g : frame_ok f -> frame_ok g -> f <> g -> f + 4096 <= g \/ g + 4096 <= f.
Proof. unfold frame_ok, FRAME_SIZE. intros (_ & _ & Hf) (_ & _ & Hg) Hne. Z.to_euclidean_division_equations. lia. Qed.

Lemma copy_ok root l1 l m : frame_ok root -> frame_ok l1 -> root <> l1 -> NoDup l -> Forall (fun i => 0 <= i < 512) l ->
  (forall i, 0 <= i < 512 -> fits 64 (ld64 m (ROOT + 8 * i)) /\ fits 64 (ld64 m (L1 + 8 * i))) ->
  let m' := foldl (copy_entry ROOT L1 root l1) m l in
  (forall i, i ∈ l -> ld64 m' (root + 8 * i) = ld64 m (ROOT + 8 * i) /\ ld64 m' (l1 + 8 * i) = ld64 m (L1 + 8 * i)) /\
  (forall x, ~ in_frames [root; l1] x -> m' x = m x).
Proof.
  intros Hr Hl Hne. pose proof (frames_apart _ _ Hr Hl Hne) as Hap. pose proof (frame_above _ Hr) as Har. pose proof (frame_above _ Hl) as Hal1.
  revert m. induction l as [|i l IH] using rev_ind; intros m Hn Hf Hfit m'.
  { split; [by intros i Hi%elem_of_nil|done]. }
  apply NoDup_app in Hn as (Hn & Hni & _). apply Forall_app in Hf as [Hf Hi]. apply Forall_cons in Hi as [Hi _].
  destruct (IH m Hn Hf Hfit) as [H1 H2]. subst m'. rewrite foldl_app. cbn [foldl]. set (m1 := foldl _ m l) in *.
  assert (Hsrc : forall j, 0 <= j < 512 -> ld64 m1 (ROOT + 8 * j) = ld64 m (ROOT + 8 * j) /\ ld64 m1 (L1 + 8 * j) = ld64 m (L1 + 8 * j)).
  { intros j Hj. split; apply ld64_ext; intros x Hx; apply H2; intros (f & Hfin & Hfx); unfold in_frame, FRAME_SIZE in Hfx;
      (apply elem_of_cons in Hfin as [->|Hfin]; [|apply list_elem_of_singleton in Hfin as ->]; lia). }
  destruct (Hsrc i Hi) as [Es1 Es2]. destruct (Hfit i Hi) as [F1 F2].
  unfold copy_entry. rewrite (ld64_st64_other _ _ _ (L1 + 8 * i)) by lia. rewrite Es1, Es2. split.
  - intros j [Hj|Hj]%elem_of_app; [|apply list_elem_of_singleton in Hj as ->].
    + assert (j <> i) by (intros ->; by apply (Hni i Hj); apply list_elem_of_singleton).
      rewrite Forall_forall in Hf. pose proof (Hf j Hj). rewrite !ld64_st64_other by lia. by apply H1.
    + rewrite (ld64_st64_other _ (l1 + 8 * i)) by lia. by rewrite !ld64_st64.
  - intros x Hx. assert (Ho : ~ in_frame root x /\ ~ in_frame l1 x).
    { split; intros Hc; apply Hx; eexists; (split; [|exact Hc]); [by left|by right; left]. }
    unfold in_frame, FRAME_SIZE in Ho. rewrite !st64_other by lia. by apply H2.
Qed.

Lemma kernel_tables_ext root l1 a m m' : page_pa root -> page_pa l1 ->
  (forall x, root <= x < root + 4096 \/ l1 <= x < l1 + 4096 -> m' x = m x) ->
  kernel_tables us ue root l1 a m -> kernel_tables us ue root l1 a m'.
Proof.
  intros _ _ H [K1 K2]. split; intros i Hi; [rewrite <- K1 by done|rewrite <- K2 by done]; apply ld64_ext; intros x Hx; apply H; lia.
Qed.

(** Closing a stack is switching it to no task. *)
Lemma close_toggle l1 l m : Forall (fun i => 0 <= i < Z.of_nat MAX_TASKS) l ->
  foldl (fun r i => m ← r; toggle_stack ue l1 (-1) m i) (Ret m) l = Ret (foldl (close_stack ue l1) m l).
Proof.
  revert m. induction l as [|i l IH]; intros m Hl; [done|]. apply Forall_cons in Hl as [Hi Hl]. cbn [foldl].
  rewrite <- (IH _ Hl). f_equal. cbn [mbind outcome_bind]. unfold toggle_stack, close_stack.
  pose proof (stack_index_range _ _ _ _ (al_layout Hal) i Hi). rewrite (proj2 (Z.leb_le _ _)), (proj2 (Z.ltb_lt _ _)), (proj2 (Z.eqb_neq i (-1))) by lia.
  done.
Qed.

Lemma private_tables_ok slot root l1 a m : 0 <= slot < Z.of_nat MAX_TASKS -> frame_ok root -> frame_ok l1 -> root <> l1 ->
  kernel_tables us ue ROOT L1 a m ->
  kernel_tables us ue root l1 slot (private_tables ue ROOT L1 slot root l1 m) /\
  only_in [root; l1] m (private_tables ue ROOT L1 slot root l1 m).
Proof.
  intros Hslot Hr Hl Hne Hk. destruct Hal as [Hlay _ _].
  assert (Hlay' : layout us ue root l1).
  { destruct Hlay as [A1 A2 A3 A4 _ _ _]. split; try done; by apply frame_page. }
  pose proof (frames_apart _ _ Hr Hl Hne) as Hap.
  destruct (copy_ok root l1 (seqZ 0 512) m Hr Hl Hne) as [C1 C2].
  { apply NoDup_seqZ. } { apply Forall_forall. intros i Hi%elem_of_seqZ. lia. }
  { intros i Hi. split; [|by eapply kt_fits]. rewrite (kt_root _ _ _ _ _ _ Hk) by done.
    repeat case_match; [by apply fitsb_spec| |by apply fitsb_spec]. apply table_entry_fits, Hlay. }
  remember (foldl (copy_entry ROOT L1 root l1) m (seqZ 0 512)) as m1 eqn:Em1.
  assert (Hts : Forall (fun i => 0 <= i < Z.of_nat MAX_TASKS) (seqZ 0 (Z.of_nat MAX_TASKS))) by (apply Forall_forall; intros i Hi%elem_of_seqZ; lia).
  assert (H1l : forall i, 0 <= i < 512 -> ld64 m1 (l1 + 8 * i) = pte (RAM_BASE + i * MEGA) (view_flags us ue a i)).
  { intros i Hi. rewrite <- (kt_l1 _ _ _ _ _ _ Hk) by done. apply C1, elem_of_seqZ. lia. }
  destruct (toggle_stacks us ue root l1 Hlay' (seqZ 0 (Z.of_nat MAX_TASKS)) m1 a (-1)) as (m2 & E & T1 & T2 & T3).
  { apply NoDup_seqZ. } { done. } { intros i Hi%elem_of_seqZ. apply H1l, (stack_index_range _ _ _ _ Hlay'). lia. }
  rewrite close_toggle in E by done. assert (E2 : foldl (close_stack ue l1) m1 (seqZ 0 (Z.of_nat MAX_TASKS)) = m2) by congruence.
  unfold private_tables. rewrite <- Em1, E2. clear E E2 Em1.
  pose proof (stack_index_range _ _ _ _ Hlay' slot Hslot) as Hidx. set (idx := stack_region_l1_index ue slot) in *.
  assert (Hmine : ld64 m2 (l1 + 8 * idx) .| PTE_U = pte (RAM_BASE + idx * MEGA) (view_flags us ue slot idx)).
  { subst idx. rewrite T1 by (apply elem_of_seqZ; lia). rewrite <- (toggle_flags _ _ _ _ Hlay' (-1) slot slot Hslot). by rewrite Z.eqb_refl. }
  rewrite Hmine. assert (Hfit : fits 64 (pte (RAM_BASE + idx * MEGA) (view_flags us ue slot idx)))
    by (apply pte_fits; [by apply (view_flags_fits us ue)|by apply mega_page]).
  assert (Hroot : forall i, 0 <= i < 512 -> ld64 m2 (root + 8 * i) = ld64 m (ROOT + 8 * i)).
  { intros i Hi. transitivity (ld64 m1 (root + 8 * i)); [|apply C1, elem_of_seqZ; lia]. apply ld64_ext. intros x Hx. apply T3. unfold in_l1. lia. }
  split; [split; intros i Hi|].
  - destruct (decide (i = 2)) as [->|N2]; [by rewrite ld64_st64 by (apply table_entry_fits, frame_page; done)|].
    rewrite !ld64_st64_other by lia. rewrite Hroot, (kt_root _ _ _ _ _ _ Hk), (proj2 (Z.eqb_neq i 2)) by done. done.
  - rewrite (ld64_st64_other _ (root + 8 * 2)) by lia. destruct (decide (i = idx)) as [->|Hni]; [by rewrite ld64_st64|].
    rewrite ld64_st64_other by lia.
    destruct (decide (Exists (fun t => i = stack_region_l1_index ue t) (seqZ 0 (Z.of_nat MAX_TASKS)))) as [Hx|Hx].
    + apply Exists_exists in Hx as (t & Ht & ->). rewrite T1 by done. f_equal. unfold view_flags. f_equal.
      cbn [andb Z.leb]. rewrite (proj2 (Z.eqb_neq (stack_region_l1_index ue t) (stack_region_l1_index ue slot)) Hni).
      by rewrite andb_false_r.
    + assert (Hd : forall t, t ∈ seqZ 0 (Z.of_nat MAX_TASKS) -> i <> stack_region_l1_index ue t).
      { intros t Ht E'. apply Hx, Exists_exists. eauto. }
      rewrite T2, H1l, !view_flags_other by done. done.
  - intros x Hx. assert (Ho : ~ in_frame root x /\ ~ in_frame l1 x).
    { split; intros Hc; apply Hx; eexists; (split; [|exact Hc]); [by left|by right; left]. }
    unfold in_frame, FRAME_SIZE in Ho. rewrite !st64_other by lia. rewrite T3 by (unfold in_l1; lia). by apply C2.
Qed.

(** ** The invariant *)

Definition slot_frames (sl : Slot) : list Z := if sl_satp sl =? 0 then [] else [sl_root sl; sl_l1 sl].

(** A prepared slot owns its two frames, and they hold its tables. *)
Record live (fl : list Z) (m : mem) (k : nat) (sl : Slot) : Prop := {
  lv_frames : frame_ok (sl_root sl) /\ frame_ok (sl_l1 sl) /\ sl_root sl <> sl_l1 sl;
  lv_owned : (sl_root sl ∉ fl) /\ (sl_l1 sl ∉ fl);
  lv_satp : sl_satp sl = kernel_satp (sl_root sl);
  lv_tables : kernel_tables us ue (sl_root sl) (sl_l1 sl) (Z.of_nat k) m }.

Definition empty_slot (sl : Slot) : Prop := sl_satp sl = 0 /\ sl_root sl = 0 /\ sl_l1 sl = 0.

Record ap_inv (a : Z) (fl : list Z) (s : Spaces) : Prop := {
  ai_pool : pool (sp_pool s) fl;
  ai_kernel : kernel_tables us ue ROOT L1 a (p_mem (sp_pool s));
  ai_len : length (sp_slots s) = AP_SLOTS;
  ai_slot : forall k sl, sp_slots s !! k = Some sl -> empty_slot sl \/ live fl (p_mem (sp_pool s)) k sl;
  ai_apart : forall j k sj sk f, sp_slots s !! j = Some sj -> sp_slots s !! k = Some sk ->
    f ∈ slot_frames sj -> f ∈ slot_frames sk -> j = k }.

Lemma kernel_satp_nonzero root : kernel_satp root <> 0.
Proof. unfold kernel_satp. intros E. apply Z.lor_eq_0_iff in E as [E _]. done. Qed.

Lemma live_frames fl m k sl : live fl m k sl -> slot_frames sl = [sl_root sl; sl_l1 sl].
Proof. intros H. unfold slot_frames. rewrite (lv_satp _ _ _ _ H), (proj2 (Z.eqb_neq _ _)); [done|apply kernel_satp_nonzero]. Qed.

Lemma empty_frames sl : empty_slot sl -> slot_frames sl = [].
Proof. intros [E _]. unfold slot_frames. by rewrite E. Qed.

Lemma two_frames f g : frame_ok f -> frame_ok g -> Forall frame_ok [f; g].
Proof. intros Hf Hg. apply Forall_cons. split; [done|]. apply Forall_cons. by split. Qed.

(** A live slot survives what touches neither its frames nor their ownership. *)
Lemma live_keeps fl fl' m m' k sl : live fl m k sl -> (forall f, f ∈ slot_frames sl -> f ∉ fl') ->
  (forall f x, f ∈ slot_frames sl -> in_frame f x -> m' x = m x) -> live fl' m' k sl.
Proof.
  intros H Ho Hm. pose proof (live_frames _ _ _ _ H) as E. rewrite E in Ho, Hm. destruct H as [H1 H2 H3 H4]. split; try done.
  - split; apply Ho; [by left|by right; left].
  - destruct H1 as (F1 & F2 & _). eapply kernel_tables_ext; [by apply frame_page|by apply frame_page| |exact H4].
    intros x [Hx|Hx]; [apply (Hm (sl_root sl) x)|apply (Hm (sl_l1 sl) x)]; unfold in_frame, FRAME_SIZE; (by left || (right; by left) || lia).
Qed.

Lemma frames_keep fs m m' f x : only_in fs m m' -> Forall frame_ok fs -> frame_ok f -> f ∉ fs -> in_frame f x -> m' x = m x.
Proof. intros Ho Hfs Hf Hni Hx. apply Ho. intros Hin. apply Hni. by eapply in_frames_elem. Qed.

Lemma kernel_keeps fs a m m' : only_in fs m m' -> Forall frame_ok fs -> kernel_tables us ue ROOT L1 a m -> kernel_tables us ue ROOT L1 a m'.
Proof.
  intros Ho Hfs. destruct Hal as [Hlay _ _]. apply kernel_tables_ext; [apply Hlay|apply Hlay|]. intros x Hx. apply Ho. intros (f & Hf & Hfx).
  rewrite Forall_forall in Hfs. pose proof (frame_above f (Hfs f Hf)). unfold in_frame in Hfx. lia.
Qed.

Lemma live_owned_ok a fl s k sl f : ap_inv a fl s -> sp_slots s !! k = Some sl -> f ∈ slot_frames sl -> frame_ok f /\ (f ∉ fl).
Proof.
  intros Hs Hk Hf. destruct (ai_slot _ _ _ Hs k sl Hk) as [He|Hl]; [by rewrite empty_frames in Hf by done; apply elem_of_nil in Hf|].
  rewrite (live_frames _ _ _ _ Hl) in Hf. destruct (lv_frames _ _ _ _ Hl) as (F1 & F2 & _), (lv_owned _ _ _ _ Hl) as [O1 O2].
  apply elem_of_cons in Hf as [->|Hf]; [done|]. apply list_elem_of_singleton in Hf as ->. done.
Qed.

(** Memory written only in frames taken from the free list. *)
Lemma inv_taken a fl fl' fs s p : ap_inv a fl s -> pool p fl' -> fl' ⊆ fl -> fs ⊆ fl -> only_in fs (p_mem (sp_pool s)) (p_mem p) ->
  ap_inv a fl' (mkSpaces p (sp_slots s)).
Proof.
  intros Hs Hp Hfl Hfs Ho. pose proof Hs as [I1 I2 I3 I4 I5]. pose proof (pool_frames _ _ I1) as Hok.
  assert (Hfo : Forall frame_ok fs) by (rewrite Forall_forall in *; auto).
  split; cbn [sp_pool sp_slots]; try done.
  - by eapply kernel_keeps.
  - intros k sl Hk. destruct (I4 k sl Hk) as [He|Hl]; [by left|right]. eapply live_keeps; [exact Hl| |].
    + intros f Hf Hc. apply (live_owned_ok a fl s k sl f Hs Hk Hf). by apply Hfl.
    + intros f x Hf Hx. destruct (live_owned_ok a fl s k sl f Hs Hk Hf) as [F1 F2]. eapply frames_keep; try done. intros Hc. by apply F2, Hfs.
Qed.

(** Setting one slot. *)
Lemma inv_set a fl s k sl sl' : ap_inv a fl s -> sp_slots s !! k = Some sl ->
  empty_slot sl' \/ live fl (p_mem (sp_pool s)) k sl' ->
  (forall j sj f, j <> k -> sp_slots s !! j = Some sj -> f ∈ slot_frames sj -> f ∉ slot_frames sl') ->
  ap_inv a fl (mkSpaces (sp_pool s) (<[k := sl']> (sp_slots s))).
Proof.
  intros [I1 I2 I3 I4 I5] Hk Hl Hd. assert (Hlt : (k < length (sp_slots s))%nat) by (by eapply lookup_lt_Some).
  split; cbn [sp_pool sp_slots]; try done; [by rewrite length_insert|intros j sj Hj|].
  - destruct (decide (j = k)) as [->|Hne]; [rewrite list_lookup_insert_eq in Hj by done; by injection Hj as <-|].
    rewrite list_lookup_insert_ne in Hj by done. by apply I4.
  - intros i j si sj f Hi Hj Hfi Hfj. destruct (decide (i = k)) as [->|Hik], (decide (j = k)) as [->|Hjk]; [done|..].
    + rewrite list_lookup_insert_eq in Hi by done. rewrite list_lookup_insert_ne in Hj by done. injection Hi as <-. exfalso. by apply (Hd j sj f).
    + rewrite list_lookup_insert_eq in Hj by done. rewrite list_lookup_insert_ne in Hi by done. injection Hj as <-. exfalso. by apply (Hd i si f).
    + rewrite list_lookup_insert_ne in Hi, Hj by done. by apply (I5 i j si sj f).
Qed.

Lemma alter_insert_at {A} (f : A -> A) (l : list A) (i : nat) x : l !! i = Some x -> alter f i l = <[i := f x]> l.
Proof.
  intros Hx. apply list_eq. intros j. destruct (decide (j = i)) as [->|Hne].
  - rewrite list_lookup_alter_eq, Hx, list_lookup_insert_eq by (by eapply lookup_lt_Some). done.
  - by rewrite list_lookup_alter_ne, list_lookup_insert_ne.
Qed.

Lemma prepare_ok a fl s k entry arg : ap_inv a fl s -> (k < AP_SLOTS)%nat ->
  exists ok s' fl', ap_prepare_slot ue ROOT L1 k entry arg s = Ret (ok, s') /\ ap_inv a fl' s' /\
    (ok = true -> exists sl, sp_slots s' !! k = Some sl /\ sl_satp sl <> 0) /\ ((2 <= length fl)%nat -> ok = true).
Proof.
  intros Hs Hk. pose proof Hs as [I1 I2 I3 I4 I5]. unfold ap_prepare_slot, build_ap_slot_space. destruct fl as [|f [|g fl]].
  - rewrite (pool_alloc_nil _ I1), (pool_alloc_nil _ I1). cbn. exists false. eexists _, []. split; [done|]. split; [by destruct s|]. split; [done|cbn; lia].
  - destruct (pool_alloc _ _ _ I1) as (p1 & -> & P1 & O1 & _). rewrite (pool_alloc_nil _ P1), orb_true_r. cbn [mbind outcome_bind].
    exists false. eexists _, []. split; [done|]. split; [|split; [done|cbn; lia]].
    apply (inv_taken a [f] [] [f] s p1); try done. intros x Hx. by apply elem_of_nil in Hx.
  - destruct (pool_alloc _ _ _ I1) as (p1 & -> & P1 & O1 & _). destruct (pool_alloc _ _ _ P1) as (p2 & -> & P2 & O2 & _).
    pose proof (pool_frames _ _ I1) as Hfr. apply Forall_cons in Hfr as [Ff Hfr]. apply Forall_cons in Hfr as [Fg Hfr].
    pose proof (pool_nodup _ _ I1) as Hnd. apply NoDup_cons in Hnd as [Nf Hnd]. apply NoDup_cons in Hnd as [Ng Hnd].
    assert (Hfg : f <> g) by (intros ->; apply Nf; by left).
    rewrite !(proj2 (Z.eqb_neq _ _)) by (by apply frame_ok_nonzero). cbn [orb]. rewrite (proj2 (Nat.ltb_lt _ _)) by (rewrite I3; done).
    cbn [mbind outcome_bind sp_pool sp_slots]. change (Z.shiftl 8 60 .| Z.shiftr f 12) with (kernel_satp f).
    rewrite (proj2 (Z.eqb_neq _ _)) by apply kernel_satp_nonzero.
    set (p3 := with_mem (private_tables ue ROOT L1 (Z.of_nat k) f g) p2).
    pose proof (two_frames f g Ff Fg) as Hfs.
    assert (O12 : only_in [f; g] (p_mem (sp_pool s)) (p_mem p2)).
    { eapply only_in_trans; eapply only_in_mono; [|exact O1| |exact O2]; set_solver. }
    destruct (private_tables_ok (Z.of_nat k) f g a (p_mem p2)) as [T1 T2]; try done; [unfold AP_SLOTS in Hk; lia|by eapply kernel_keeps|].
    assert (P3 : pool p3 fl).
    { eapply pool_write; [exact P2|exact T2|done|]. intros x Hx Hc. apply elem_of_cons in Hx as [->|Hx]; [apply Nf; by right|].
      apply list_elem_of_singleton in Hx as ->. done. }
    assert (H3 : ap_inv a fl (mkSpaces p3 (sp_slots s))).
    { apply (inv_taken a (f :: g :: fl) fl [f; g]); try done; [intros x Hx; by right; right|set_solver|].
      by eapply only_in_trans. }
    destruct (lookup_lt_is_Some_2 (sp_slots s) k) as [sl Hsl]; [by rewrite I3|].
    rewrite (alter_insert_at _ _ _ _ Hsl), (alter_insert_at _ _ k (with_tables f g sl)) by (apply list_lookup_insert_eq; by eapply lookup_lt_Some).
    rewrite list_insert_insert_eq. exists true. eexists _, fl. split; [done|]. split.
    2: { split; [|done]. intros _. eexists. cbn [sp_slots]. rewrite list_lookup_insert_eq by (by eapply lookup_lt_Some). split; [done|]. apply kernel_satp_nonzero. }
    set (sl' := with_task entry arg (kernel_satp f) (with_tables f g sl)).
    assert (Hl' : live fl (p_mem p3) k sl') by (split; cbn; try done; split; [intros Hc; apply Nf; by right|done]).
    apply (inv_set a fl (mkSpaces p3 (sp_slots s)) k sl sl'); try done; [by right|].
    intros j sj x Hne Hj Hx Hx'. rewrite (live_frames _ _ _ _ Hl') in Hx'. destruct (live_owned_ok a _ s j sj x Hs Hj Hx) as [_ Hni].
    apply Hni. apply elem_of_cons in Hx' as [->|Hx']; [by left|]. apply list_elem_of_singleton in Hx' as ->. right. by left.
Qed.

Lemma free_ok a fl s k : ap_inv a fl s -> (k < AP_SLOTS)%nat -> exists s' fl', ap_free_slot k s = Ret s' /\ ap_inv a fl' s'.
Proof.
  intros Hs Hk. pose proof Hs as [I1 I2 I3 I4 I5]. destruct (lookup_lt_is_Some_2 (sp_slots s) k) as [sl Hsl]; [by rewrite I3|].
  unfold ap_free_slot. rewrite Hsl, (alter_insert_at _ _ _ _ Hsl). set (sl' := with_satp 0 (with_tables 0 0 sl)).
  assert (He' : empty_slot sl') by done.
  destruct (I4 k sl Hsl) as [(E1 & E2 & E3)|Hl].
  - rewrite E2, E3. eexists _, fl. split; [done|]. eapply inv_set; try done; [by left|]. intros j sj f _ _ _. rewrite empty_frames by done. apply not_elem_of_nil.
  - destruct (lv_frames _ _ _ _ Hl) as (F1 & F2 & F3), (lv_owned _ _ _ _ Hl) as [O1 O2].
    rewrite !(proj2 (Z.eqb_neq _ _)) by (by apply frame_ok_nonzero).
    destruct (pool_free _ _ _ I1 F1 O1) as [P1 W1].
    assert (O2' : sl_l1 sl ∉ sl_root sl :: fl) by (intros [?|?]%elem_of_cons; [by apply F3|done]).
    destruct (pool_free _ _ _ P1 F2 O2') as [P2 W2]. set (p2 := frame_free (sl_l1 sl) (frame_free (sl_root sl) (sp_pool s))) in *.
    eexists _, (sl_l1 sl :: sl_root sl :: fl). split; [done|].
    assert (W : only_in [sl_root sl; sl_l1 sl] (p_mem (sp_pool s)) (p_mem p2)).
    { eapply only_in_trans; eapply only_in_mono; [|exact W1| |exact W2]; set_solver. }
    assert (Hmine : forall f, f ∈ [sl_root sl; sl_l1 sl] <-> f ∈ slot_frames sl) by (intros f; by rewrite (live_frames _ _ _ _ Hl)).
    split; cbn [sp_pool sp_slots]; [done|by eapply kernel_keeps; [exact W|apply two_frames|]|by rewrite length_insert|intros j sj Hj|].
    + destruct (decide (j = k)) as [->|Hne]; [rewrite list_lookup_insert_eq in Hj by (by eapply lookup_lt_Some); injection Hj as <-; by left|].
      rewrite list_lookup_insert_ne in Hj by done. destruct (I4 j sj Hj) as [?|Hlj]; [by left|right].
      assert (Hnot : forall f, f ∈ slot_frames sj -> f ∉ [sl_root sl; sl_l1 sl]) by (intros f Hf Hc; apply Hne; apply Hmine in Hc; by apply (I5 j k sj sl f)).
      eapply live_keeps; [exact Hlj| |].
      * intros f Hf Hc. specialize (Hnot f Hf). apply (live_owned_ok a fl s j sj f Hs Hj Hf).
        rewrite !elem_of_cons in Hc. rewrite !elem_of_cons in Hnot. tauto.
      * intros f x Hf Hx. destruct (live_owned_ok a fl s j sj f Hs Hj Hf) as [Ff _].
        eapply frames_keep; [exact W|by apply two_frames|exact Ff|by apply Hnot|done].
    + intros i j si sj f Hi Hj Hfi Hfj. destruct (decide (i = k)) as [->|Hik].
      { rewrite list_lookup_insert_eq in Hi by (by eapply lookup_lt_Some). injection Hi as <-. by apply elem_of_nil in Hfi. }
      destruct (decide (j = k)) as [->|Hjk].
      { rewrite list_lookup_insert_eq in Hj by (by eapply lookup_lt_Some). injection Hj as <-. by apply elem_of_nil in Hfj. }
      rewrite list_lookup_insert_ne in Hi, Hj by done. by apply (I5 i j si sj f).
Qed.

(** A prepared slot reaches the shared code and its own stack. *)
Lemma live_reach fl m k sl va acc : live fl m k sl -> user_access m (sl_satp sl) va acc = baked_reach us ue (Z.of_nat k) va acc.
Proof.
  intros Hl. destruct Hal as [[A1 A2 A3 A4 _ _ _] _ _]. destruct (lv_frames _ _ _ _ Hl) as (F1 & F2 & F3).
  rewrite (lv_satp _ _ _ _ Hl). eapply kernel_tables_reach; [|apply Hl]. split; try done; by apply frame_page.
Qed.

(** Memory written below the frame pool, the kernel's tables kept. *)
Lemma inv_below a b fl s m : ap_inv a fl s -> (forall x, FRAME_POOL_BASE <= x -> m x = p_mem (sp_pool s) x) ->
  kernel_tables us ue ROOT L1 b m -> ap_inv b fl (mkSpaces (with_mem (fun _ => m) (sp_pool s)) (sp_slots s)).
Proof.
  intros Hs Hm Hk. pose proof Hs as [I1 I2 I3 I4 I5]. split; cbn [sp_pool sp_slots]; try done.
  - destruct I1 as [C1 C2 C3 C4]. split; cbn; try done. eapply free_chain_ext; [|exact C1]. intros f Hf. apply ld64_ext. intros x Hx. apply Hm.
    rewrite Forall_forall in C3. destruct (C3 f Hf) as [? _]. lia.
  - intros k sl Hsl. destruct (I4 k sl Hsl) as [?|Hl]; [by left|right]. eapply live_keeps; [exact Hl| |].
    + intros f Hf. by eapply live_owned_ok.
    + intros f x Hf Hx. apply Hm. destruct (live_owned_ok a fl s k sl f Hs Hsl Hf) as [[? _] _]. unfold in_frame in Hx. lia.
Qed.

Lemma store_ok a fl s k va v : ap_inv a fl s -> ap_inv a fl (task_store k va v s).
Proof.
  intros Hs. unfold task_store. destruct (sp_slots s !! k) as [sl|] eqn:Hk; [|done]. destruct (Z.eqb_spec (sl_satp sl) 0) as [|Hn]; [done|].
  destruct (ai_slot _ _ _ Hs k sl Hk) as [[? _]|Hl]; [done|]. rewrite (live_reach _ _ _ _ _ _ Hl).
  destruct (baked_reach us ue (Z.of_nat k) va Store) as [pa|] eqn:Er; [|done].
  assert (Hpa : ue <= pa < ue + Z.of_nat MAX_TASKS * MEGA).
  { unfold baked_reach in Er. destruct ((us <=? va) && (va <? ue)); [done|].
    destruct (_ && _ && _ && _) eqn:Eb in Er; [|done]. injection Er as <-. bool_to_prop. unfold MEGA in *. lia. }
  destruct Hal as [Hlay [T1 T2] T3]. apply (inv_below a a fl s (st8 (p_mem (sp_pool s)) pa v)); [done| |].
  - intros x Hx. unfold st8. destruct (Z.eqb_spec x pa); [lia|done].
  - eapply kernel_tables_ext; [apply Hlay|apply Hlay| |apply Hs]. intros x Hx. unfold st8. destruct (Z.eqb_spec x pa); [lia|done].
Qed.

Lemma op_ok a fl s o : ap_inv a fl s -> names_slot o -> exists s' a' fl', ap_op ue ROOT L1 s o = Ret s' /\ ap_inv a' fl' s'.
Proof.
  intros Hs Hn. destruct o as [k entry arg|k|k va v|c]; cbn [ap_op names_slot] in *.
  - destruct (prepare_ok a fl s k entry arg Hs Hn) as (ok & s' & fl' & -> & H & _). cbn. by eexists _, _, _.
  - destruct (free_ok a fl s k Hs Hn) as (s' & fl' & -> & H). by eexists _, _, _.
  - eexists _, _, _. split; [done|]. by apply store_ok.
  - destruct Hal as [Hlay [T1 T2] T3]. destruct (set_active_ok us ue ROOT L1 Hlay a c _ (ai_kernel _ _ _ Hs)) as (m & -> & Hk & Hm).
    cbn [mbind outcome_bind]. eexists _, c, fl. split; [done|]. apply (inv_below a c fl s m); [done| |done].
    intros x Hx. apply Hm. unfold in_l1, MEGA, MAX_TASKS in *. lia.
Qed.

Lemma ops_ok os : forall a fl s, ap_inv a fl s -> Forall names_slot os -> exists s' a' fl', ap_ops ue ROOT L1 s os = Ret s' /\ ap_inv a' fl' s'.
Proof.
  induction os as [|o os IH]; intros a fl s Hs Hn; cbn [ap_ops]; [by eexists _, _, _|]. apply Forall_cons in Hn as [Ho Hn].
  destruct (op_ok a fl s o Hs Ho) as (s1 & a1 & fl1 & -> & H1). cbn [mbind outcome_bind]. by eapply IH.
Qed.

(** The kernel after [build_page_tables] and [frames_init], no slot in use. *)
Definition ap_booted (m : mem) : Spaces :=
  mkSpaces (frames_init (mkPool (build_page_tables us ue ROOT L1 m) 0 0 0)) (replicate AP_SLOTS slot_new).

Lemma ap_booted_ok m : (forall i, 0 <= i < 512 -> ld64 m (ROOT + 8 * i) = 0) ->
  exists fl, ap_inv (-1) fl (ap_booted m) /\ (2 <= length fl)%nat.
Proof.
  intros H0. destruct Hal as [Hlay _ _]. exists (reverse (frames_between FRAME_POOL_BASE FRAME_POOL_END)).
  split; [|rewrite length_reverse; unfold frames_between; rewrite length_fmap, length_seqZ].
  2: { change ((FRAME_POOL_END - FRAME_POOL_BASE) / FRAME_SIZE) with 28672. lia. }
  split; cbn [ap_booted sp_pool sp_slots].
  - apply frames_init_pool.
  - eapply kernel_keeps; [apply frames_init_only| |apply build_page_tables_ok; [done|done|lia]].
    apply Forall_forall. intros f Hf. apply frames_between_ok in Hf; done.
  - done.
  - intros k sl Hk. apply lookup_replicate in Hk as [-> _]. by left.
  - intros j k sj sk f Hj _ Hf. apply lookup_replicate in Hj as [-> _]. by apply elem_of_nil in Hf.
Qed.
End Proofs.

(** C19: After every sequence of slots prepared and freed, stores made by the tasks in them and task
    switches of the console's scheduler, a user access through the private space of a prepared slot
    reaches exactly the shared code (not to write) and the slot's own stack megapage (not to execute);
    none of these operations panics. *)
Theorem ap_tasks_reach_only_their_stack us ue ROOT L1 m ops :
  ap_layout us ue ROOT L1 -> (forall i, 0 <= i < 512 -> ld64 m (ROOT + 8 * i) = 0) -> Forall names_slot ops ->
  exists s, ap_ops ue ROOT L1 (ap_booted us ue ROOT L1 m) ops = Ret s /\
    forall k sl va acc, sp_slots s !! k = Some sl -> sl_satp sl <> 0 ->
      user_access (p_mem (sp_pool s)) (sl_satp sl) va acc = baked_reach us ue (Z.of_nat k) va acc.
Proof.
  intros Hal H0 Hn. destruct (ap_booted_ok us ue ROOT L1 Hal m H0) as (fl & Hb & _).
  destruct (ops_ok us ue ROOT L1 Hal ops _ _ _ Hb Hn) as (s & a & fl' & E & Hs). exists s. split; [done|].
  intros k sl va acc Hk Hne. destruct (ai_slot _ _ _ _ _ _ _ Hs k sl Hk) as [[? _]|Hl]; [done|]. by eapply live_reach.
Qed.

Lemma ops_prepare ue ROOT L1 s0 k entry arg ok s : ap_prepare_slot ue ROOT L1 k entry arg s0 = Ret (ok, s) ->
  ap_ops ue ROOT L1 s0 [Prepare k entry arg] = Ret s.
Proof. intros E. cbn [ap_ops ap_op]. by rewrite E. Qed.

(** From boot, a slot is prepared. *)
Lemma first_slot_prepared us ue ROOT L1 m k entry arg : ap_layout us ue ROOT L1 ->
  (forall i, 0 <= i < 512 -> ld64 m (ROOT + 8 * i) = 0) -> (k < AP_SLOTS)%nat ->
  exists s sl, ap_ops ue ROOT L1 (ap_booted us ue ROOT L1 m) [Prepare k entry arg] = Ret s /\ sp_slots s !! k = Some sl /\ sl_satp sl <> 0.
Proof.
  intros Hal H0 Hk. destruct (ap_booted_ok us ue ROOT L1 Hal m H0) as (fl & Hb & Hl).
  destruct (prepare_ok us ue ROOT L1 Hal _ _ _ k entry arg Hb Hk) as (ok & s & fl' & E & _ & Hok & H2). rewrite H2 in Hok by done.
  destruct (Hok eq_refl) as (sl & Hsl & Hs). exists s, sl. split; [exact (ops_prepare _ _ _ _ _ _ _ _ _ E)|]. split; [exact Hsl|exact Hs].
Qed.

Lemma demo_ap_layout : ap_layout 0x80400000 0x80600000 0x80300000 0x80301000.
Proof. split; [apply demo_layout|lia|unfold MEGA, MAX_TASKS, FRAME_POOL_BASE; lia]. Qed.

(** [smp-isolate]: a task in slot 1 that stores into the stack of slot 0
    faults; its own stack it can write. *)
Lemma ap_tasks_reach_only_their_stack_witness :
  exists s sl, ap_ops 0x80600000 0x80300000 0x80301000 (ap_booted 0x80400000 0x80600000 0x80300000 0x80301000 (fun _ => 0)) [Prepare 1 0 0] = Ret s /\
    sp_slots s !! 1%nat = Some sl /\
    user_access (p_mem (sp_pool s)) (sl_satp sl) (task_stack_top 0x80600000 0 - 64) Store = None /\
    user_access (p_mem (sp_pool s)) (sl_satp sl) (task_stack_top 0x80600000 1 - 64) Store = Some (task_stack_top 0x80600000 1 - 64).
Proof.
  destruct (first_slot_prepared 0x80400000 0x80600000 0x80300000 0x80301000 (fun _ => 0) 1 0 0) as (s & sl & E & Hk & Hn);
    [apply demo_ap_layout|intros; by vm_compute|unfold AP_SLOTS, MAX_TASKS; lia|].
  destruct (ap_tasks_reach_only_their_stack 0x80400000 0x80600000 0x80300000 0x80301000 (fun _ => 0) [Prepare 1 0 0]) as (s' & E' & H);
    [apply demo_ap_layout|intros; by vm_compute|repeat constructor|].
  rewrite E in E'. injection E' as <-. exists s, sl. split; [exact E|]. split; [exact Hk|].
  rewrite (H 1%nat sl (task_stack_top 0x80600000 0 - 64) Store Hk Hn), (H 1%nat sl (task_stack_top 0x80600000 1 - 64) Store Hk Hn).
  clear. split; vm_compute; reflexivity.
Defined.

(** ** What the allocator loses *)

(** With a single frame left, the root is taken and never given back: the
    slot was not prepared, and no slot names the frame. *)
Theorem a_failed_space_keeps_its_root us ue ROOT L1 a f s k entry arg :
  ap_layout us ue ROOT L1 -> ap_inv us ue ROOT L1 a [f] s -> (k < AP_SLOTS)%nat ->
  exists s', ap_prepare_slot ue ROOT L1 k entry arg s = Ret (false, s') /\ pool (sp_pool s') [] /\ sp_slots s' = sp_slots s.
Proof.
  intros Hal Hs Hk. unfold ap_prepare_slot, build_ap_slot_space.
  destruct (pool_alloc _ _ _ (ai_pool _ _ _ _ _ _ _ Hs)) as (p1 & -> & P1 & _). rewrite (pool_alloc_nil _ P1), orb_true_r. cbn.
  by eexists.
Qed.

(** A freed slot's level-1 table is the next frame handed out, whether or not a
    hart still runs on it. *)
Theorem a_freed_table_is_handed_out_next us ue ROOT L1 a fl s k sl :
  ap_layout us ue ROOT L1 -> ap_inv us ue ROOT L1 a fl s -> sp_slots s !! k = Some sl -> sl_satp sl <> 0 ->
  exists s' p, ap_free_slot k s = Ret s' /\ frame_alloc (sp_pool s') = (sl_l1 sl, p).
Proof.
  intros Hal Hs Hk Hn. destruct (ai_slot _ _ _ _ _ _ _ Hs k sl Hk) as [[? _]|Hl]; [done|].
  destruct (lv_frames _ _ _ _ _ _ Hl) as (F1 & F2 & F3). unfold ap_free_slot. rewrite Hk, !(proj2 (Z.eqb_neq _ _)) by (by apply frame_ok_nonzero).
  eexists _, _. split; [done|]. cbn [sp_pool]. unfold frame_alloc. cbn [frame_free p_head]. by rewrite (proj2 (Z.eqb_neq _ _)) by (by apply frame_ok_nonzero).
Qed.
