(* ===== verification/ApRun.v ===== *)
(** * A task on a secondary hart (dezh-boot/src/smp.rs)

    The trap handler of the secondary harts, one task run from its entry to its
    end, and the dispatch of a batch through the shared task queue.  What the
    task does between two traps is a parameter: the list of traps it takes, each
    with the cause, the time and the registers it left.  A task that takes no
    further trap never ends and its run is [None].  Dispatches are taken one
    after the other; how far tasks of different harts overlap in time, which
    [AP_LIVE] measures, is not modelled. *)

From Stdlib Require Import ZArith Lia.
From stdpp Require Import base option numbers list.
From S2P Require Import Prelude Runq Sched ApSlots.

Definition AP_QUANTUM : Z := 50000.
Definition AP_RUNQ_CAP : Z := 64.

(** The slots, [HART_TICKS], the counters and the queue the harts share. *)
Record ApShared := mkApShared {
  ax_slots : list Slot; ax_ticks : list Z; ax_live : Z; ax_live_max : Z; ax_done : Z; ax_queue : RunQueue }.

Definition set_slots (f : list Slot -> list Slot) (s : ApShared) : ApShared :=
  mkApShared (f (ax_slots s)) (ax_ticks s) (ax_live s) (ax_live_max s) (ax_done s) (ax_queue s).
Definition set_ticks (f : list Z -> list Z) (s : ApShared) : ApShared :=
  mkApShared (ax_slots s) (f (ax_ticks s)) (ax_live s) (ax_live_max s) (ax_done s) (ax_queue s).
Definition set_live (live live_max done : Z) (s : ApShared) : ApShared :=
  mkApShared (ax_slots s) (ax_ticks s) live live_max done (ax_queue s).
Definition set_queue (q : RunQueue) (s : ApShared) : ApShared :=
  mkApShared (ax_slots s) (ax_ticks s) (ax_live s) (ax_live_max s) (ax_done s) q.

(** A trap: [scause], [rdtime], and the frame saved on entry. *)
Record ApTrap := mkApTrap { tr_scause : Z; tr_now : Z; tr_frame : list Z }.

(** What the handler does besides: bytes at a pointer sent to the UART, the
    hart's timer armed. *)
Inductive ApEvent := Uart (ptr len : Z) | Timer (deadline : Z).

Inductive ApNext := ResumeAt (frame : list Z) | BackToKernel.

Section Handler.
Context (checks : bool).

Definition frame_reg (f : list Z) (r : nat) : Z := nth r f 0.

(** [slot] is what [ApCtx] holds, [usize::MAX] before a task ran. *)
Definition ap_trap_handler (slot : Z) (tr : ApTrap) (s : ApShared) : outcome Empty_set (ApNext * ApShared * list ApEvent) :=
  let interrupt := Z.shiftr (tr_scause tr) 63 =? 1 in
  let code := tr_scause tr & (2 ^ 63 - 1) in
  let f := tr_frame tr in
  let slot_ok := slot <? Z.of_nat AP_SLOTS in
  if interrupt then
    if code =? SCAUSE_TIMER then
      let s := if slot_ok then
          match ax_slots s !! Z.to_nat slot with
          | Some sl => if sl_hart sl <? AP_MAX_HARTS then set_ticks (alter (fun n => wrap 64 (n + 1)) (Z.to_nat (sl_hart sl))) s else s
          | None => s
          end
        else s in
      deadline ← uadd 64 checks (tr_now tr) AP_QUANTUM;
      Ret (ResumeAt f, s, [Timer deadline])
    else Ret (ResumeAt f, s, [])
  else if code =? 8 then
    sepc ← uadd 64 checks (frame_reg f F_SEPC) 4;
    let f := <[F_SEPC := sepc]> f in
    if frame_reg f F_A7 =? SYS_PRINT then
      Ret (ResumeAt (<[F_A0 := 0]> f), s, [Uart (frame_reg f F_A0) (frame_reg f F_A1)])
    else if frame_reg f F_A7 =? SYS_EXIT then
      Ret (BackToKernel, if slot_ok then set_slots (alter (with_exit (frame_reg f F_A0)) (Z.to_nat slot)) s else s, [])
    else Ret (ResumeAt (<[F_A0 := SYS_REFUSED]> f), s, [])
  else Ret (BackToKernel, if slot_ok then set_slots (alter with_fault (Z.to_nat slot)) s else s, []).

(** A task from [ap_run] to [ap_return]: the frames it is resumed with, what
    the kernel did, and the shared state; [None] if it never came back. *)
Fixpoint ap_run (slot : Z) (trs : list ApTrap) (s : ApShared) : outcome Empty_set (option (list (list Z) * list ApEvent * ApShared)) :=
  match trs with
  | [] => Ret None
  | tr :: trs =>
    '(next, s, ev) ← ap_trap_handler slot tr s;
    match next with
    | BackToKernel => Ret (Some ([], ev, s))
    | ResumeAt f =>
      r ← ap_run slot trs s;
      Ret (match r with Some (fs, evs, s) => Some (f :: fs, ev ++ evs, s) | None => None end)
    end
  end.

(** The frame a task starts with. *)
Definition entry_frame (stack_top : Z) (slot : nat) (sl : Slot) : list Z :=
  <[F_A1 := sl_arg sl]> (<[F_A0 := Z.of_nat slot]> (<[F_SP := stack_top]> (<[F_SEPC := sl_entry sl]> (replicate 32 0)))).

(** [ap_execute] of a slot the queue gave; an index past the table panics. *)
Definition ap_execute (hartid slot : nat) (trs : list ApTrap) (s : ApShared) : outcome Empty_set (option (list (list Z) * list ApEvent * ApShared)) :=
  match ax_slots s !! slot with
  | None => Panic
  | Some sl =>
    let s := set_slots (alter (fun sl => with_run (wrap 32 (sl_runs sl + 1)) (wrap 32 (Z.of_nat hartid)) sl) slot) s in
    live ← uadd 64 checks (ax_live s) 1;
    let s := set_live (wrap 64 (ax_live s + 1)) (Z.max (ax_live_max s) live) (ax_done s) s in
    r ← ap_run (Z.of_nat slot) trs s;
    Ret (match r with
         | Some (fs, evs, s) => Some (fs, evs, set_live (wrap 64 (ax_live s - 1)) (ax_live_max s) (wrap 64 (ax_done s + 1)) s)
         | None => None
         end)
  end.

(** One turn of [ap_schedule] on a hart: the next slot of the queue, if any. *)
Definition ap_dispatch (hartid : nat) (tasks : nat -> list ApTrap) (s : ApShared) : outcome Empty_set (option ApShared) :=
  '(v, q) ← rq_pop AP_RUNQ_CAP checks (ax_queue s);
  let s := set_queue q s in
  match v with
  | None => Ret (Some s)
  | Some slot =>
    r ← ap_execute hartid (Z.to_nat slot) (tasks (Z.to_nat slot)) s;
    Ret (match r with Some (_, _, s) => Some s | None => None end)
  end.

Fixpoint ap_dispatches (harts : list nat) (tasks : nat -> list ApTrap) (s : ApShared) : outcome Empty_set (option ApShared) :=
  match harts with
  | [] => Ret (Some s)
  | h :: harts => r ← ap_dispatch h tasks s; match r with Some s => ap_dispatches harts tasks s | None => Ret None end
  end.

(** The first half of [ap_run_batch]: counters cleared, slots queued. *)
Fixpoint push_slots (k n : nat) (s : ApShared) : outcome Empty_set ApShared :=
  match n with
  | O => Ret s
  | S n => '(ok, q) ← rq_push AP_RUNQ_CAP checks (Z.of_nat k) (ax_queue s);
           if ok : bool then push_slots (S k) n (set_queue q s) else Ret (set_queue q s)
  end.

Definition post_batch (n : nat) (s : ApShared) : outcome Empty_set ApShared := push_slots 0 n (set_live 0 0 0 s).

(** Its answer: [true] unless the wait timed out. *)
Definition batch_done (n : nat) (s : ApShared) : bool := Z.of_nat n <=? ax_done s.
End Handler.

(** ** A run, trap by trap *)

Definition is_interrupt (tr : ApTrap) : bool := Z.shiftr (tr_scause tr) 63 =? 1.
Definition trap_code (tr : ApTrap) : Z := tr_scause tr & (2 ^ 63 - 1).
Definition is_timer (tr : ApTrap) : bool := is_interrupt tr && (trap_code tr =? SCAUSE_TIMER).
Definition is_call (nr : Z) (tr : ApTrap) : bool := negb (is_interrupt tr) && (trap_code tr =? 8) && (frame_reg (tr_frame tr) F_A7 =? nr).

(** The traps a task does not come back from: its exit, and every exception but
    the system call. *)
Definition ends_task (tr : ApTrap) : bool := is_call SYS_EXIT tr || (negb (is_interrupt tr) && negb (trap_code tr =? 8)).

(** No counter of the trap is at the end of its 64 bits. *)
Definition trap_fits (tr : ApTrap) : Prop := tr_now tr + AP_QUANTUM < 2 ^ 64 /\ frame_reg (tr_frame tr) F_SEPC + 4 < 2 ^ 64.

(** What the task finds in its registers when it runs on. *)
Definition resumed_with (tr : ApTrap) : list Z :=
  if is_interrupt tr then tr_frame tr else
  <[F_A0 := if is_call SYS_PRINT tr then 0 else SYS_REFUSED]> (<[F_SEPC := frame_reg (tr_frame tr) F_SEPC + 4]> (tr_frame tr)).

(** What the kernel did at a trap that resumed the task: a string printed, or
    the timer armed again. *)
Definition served (tr : ApTrap) : list ApEvent :=
  if is_timer tr then [Timer (tr_now tr + AP_QUANTUM)]
  else if is_call SYS_PRINT tr then [Uart (frame_reg (tr_frame tr) F_A0) (frame_reg (tr_frame tr) F_A1)] else [].

(** What its end leaves in the slot. *)
Definition ended_by (tr : ApTrap) (sl : Slot) : Slot := if is_call SYS_EXIT tr then with_exit (frame_reg (tr_frame tr) F_A0) sl else with_fault sl.

Definition tick : Z -> Z := fun n => wrap 64 (n + 1).
Definition timers (trs : list ApTrap) : nat := length (filter (fun tr => is_timer tr = true) trs).

Lemma frame_reg_other f r r' v : r <> r' -> frame_reg (<[r := v]> f) r' = frame_reg f r'.
Proof. intros Hne. unfold frame_reg. rewrite !nth_lookup. by rewrite list_lookup_insert_ne. Qed.

Section Runs.
Context (checks : bool) (slot : nat) (h : nat) (Hslot : (slot < AP_SLOTS)%nat) (Hh : Z.of_nat h < AP_MAX_HARTS).

(** The slot is known, and it says which hart it runs on. *)
Definition placed (s : ApShared) : Prop := exists sl, ax_slots s !! slot = Some sl /\ sl_hart sl = Z.of_nat h.

Lemma handler_resumes tr s : placed s -> trap_fits tr -> ends_task tr = false ->
  ap_trap_handler checks (Z.of_nat slot) tr s =
    Ret (ResumeAt (resumed_with tr), if is_timer tr then set_ticks (alter tick h) s else s, served tr).
Proof.
  intros (sl & Hsl & Eh) [F1 F2] He. unfold ends_task, is_call in He. unfold ap_trap_handler, resumed_with, served, is_timer, is_call.
  fold (is_interrupt tr) (trap_code tr) in *. destruct (is_interrupt tr); cbn [andb negb orb] in *.
  - destruct (trap_code tr =? SCAUSE_TIMER); [|done]. rewrite (proj2 (Z.ltb_lt _ _)) by lia. rewrite Nat2Z.id, Hsl, Eh, (proj2 (Z.ltb_lt _ _) Hh), Nat2Z.id.
    rewrite uadd_small by lia. done.
  - destruct (trap_code tr =? 8); [|done]. rewrite uadd_small by lia. cbn [mbind outcome_bind andb orb negb] in *.
    rewrite !(frame_reg_other _ F_SEPC) by done. destruct (Z.eqb_spec (frame_reg (tr_frame tr) F_A7) SYS_PRINT) as [E|N1]; [done|].
    destruct (frame_reg (tr_frame tr) F_A7 =? SYS_EXIT); done.
Qed.

Lemma handler_ends tr s : trap_fits tr -> ends_task tr = true ->
  ap_trap_handler checks (Z.of_nat slot) tr s = Ret (BackToKernel, set_slots (alter (ended_by tr) slot) s, []).
Proof.
  intros [F1 F2] He. unfold ends_task, is_call in He. unfold ap_trap_handler, ended_by, is_call.
  fold (is_interrupt tr) (trap_code tr) in *. destruct (is_interrupt tr); cbn [andb negb orb] in *; [done|].
  rewrite (proj2 (Z.ltb_lt (Z.of_nat slot) _)), Nat2Z.id by lia.
  destruct (trap_code tr =? 8); cbn [andb negb orb] in *; [|done]. rewrite uadd_small by lia. cbn [mbind outcome_bind].
  rewrite !(frame_reg_other _ F_SEPC) by done. rewrite orb_false_r in He. apply Z.eqb_eq in He. by rewrite He.
Qed.

Lemma run_ok pre last rest : forall s, placed s -> Forall (fun tr => trap_fits tr /\ ends_task tr = false) pre -> trap_fits last -> ends_task last = true ->
  ap_run checks (Z.of_nat slot) (pre ++ last :: rest) s =
    Ret (Some (resumed_with <$> pre, mjoin (served <$> pre),
      set_slots (alter (ended_by last) slot) (set_ticks (Nat.iter (timers pre) (alter tick h)) s))).
Proof.
  induction pre as [|tr pre IH]; intros s Hs Hp Hf He; cbn [app ap_run].
  - rewrite handler_ends by done. cbn. by destruct s.
  - apply Forall_cons in Hp as [[Hft Het] Hp]. rewrite handler_resumes by done. cbn [mbind outcome_bind].
    rewrite IH; try done; [|by destruct (is_timer tr)]. cbn [mbind outcome_bind fmap list_fmap mjoin list_join]. do 3 f_equal.
    unfold timers. rewrite filter_cons. destruct (is_timer tr) eqn:Et.
    + rewrite decide_True by done. cbn [length]. destruct s as [sls tks l lm d q]. unfold set_slots, set_ticks. cbn. f_equal.
      apply (Nat.iter_swap (timers pre) (list Z) (alter tick h) tks).
    + rewrite decide_False by congruence. done.
Qed.
End Runs.

(** ** One task, from the queue to its end *)

(** The traps of a task that ends. *)
Definition task_ends (trs : list ApTrap) : Prop := exists pre last rest,
  trs = pre ++ last :: rest /\ Forall (fun tr => trap_fits tr /\ ends_task tr = false) pre /\ trap_fits last /\ ends_task last = true.

(** A task on a secondary hart runs to its exit or its first exception; until
    then it is resumed after every trap, with its registers untouched by a timer
    interrupt and the answer in [a0] of a system call, of which only printing is
    served.  Its slot records hart and end, its hart one tick per timer
    interrupt, and no other slot or hart changes. *)
Theorem a_task_runs_to_its_exit_or_fault checks h slot pre last rest s sl :
  (slot < AP_SLOTS)%nat -> Z.of_nat h < AP_MAX_HARTS -> ax_slots s !! slot = Some sl -> 0 <= ax_live s < 2 ^ 64 - 1 ->
  Forall (fun tr => trap_fits tr /\ ends_task tr = false) pre -> trap_fits last -> ends_task last = true ->
  ap_execute checks h slot (pre ++ last :: rest) s =
    Ret (Some (resumed_with <$> pre, mjoin (served <$> pre),
      mkApShared (<[slot := ended_by last (with_run (wrap 32 (sl_runs sl + 1)) (Z.of_nat h) sl)]> (ax_slots s))
        (Nat.iter (timers pre) (alter tick h) (ax_ticks s))
        (ax_live s) (Z.max (ax_live_max s) (ax_live s + 1)) (wrap 64 (ax_done s + 1)) (ax_queue s))).
Proof.
  intros Hslot Hh Hsl Hlive Hp Hf He. unfold ap_execute, set_slots. rewrite Hsl. cbn [ax_live].
  rewrite uadd_small by lia. cbn [mbind outcome_bind]. rewrite (wrap_small 64) by (unfold fits; lia).
  rewrite (wrap_small 32 (Z.of_nat h)) by (unfold fits, AP_MAX_HARTS in *; lia).
  rewrite (alter_insert_at _ _ _ _ Hsl). assert (Hlt : (slot < length (ax_slots s))%nat) by (by eapply lookup_lt_Some).
  erewrite (run_ok checks slot h Hslot Hh); try done.
  - unfold set_live, set_slots, set_ticks. cbn [mbind outcome_bind ax_slots ax_ticks ax_live ax_live_max ax_done ax_queue].
    rewrite (alter_insert_at _ _ _ _ (list_lookup_insert_eq _ _ _ Hlt)), list_insert_insert_eq, (wrap_small 64 (ax_live s + 1 - 1)) by (unfold fits; lia).
    do 5 f_equal. lia.
  - eexists. cbn [set_live set_slots ax_slots]. by rewrite list_lookup_insert_eq.
Qed.

(** ** A batch *)

(** The slots after [k] of the batch ran. *)
Definition ran_below (k : nat) (old new : list Slot) : Prop := length new = length old /\
  forall j sl, old !! j = Some sl -> exists sl', new !! j = Some sl' /\ sl_runs sl' = (if (j <? k)%nat then wrap 32 (sl_runs sl + 1) else sl_runs sl).

Definition queued_from (k n : nat) : list Z := Z.of_nat <$> seq k (n - k).

Record batch (old : list Slot) (m : Z) (k n : nat) (s : ApShared) : Prop := {
  ba_slots : ran_below k old (ax_slots s);
  ba_queue : rq_ok AP_RUNQ_CAP m (ax_queue s) /\ waiting AP_RUNQ_CAP (ax_queue s) = queued_from k n;
  ba_done : ax_done s = Z.of_nat k;
  ba_live : ax_live s = 0 }.

Lemma push_slots_ok checks m old n : forall k s, rq_ok AP_RUNQ_CAP m (ax_queue s) -> m + Z.of_nat n < 2 ^ 64 ->
  waiting AP_RUNQ_CAP (ax_queue s) = queued_from 0 k -> (k + n <= AP_SLOTS)%nat -> ax_slots s = old -> ax_done s = 0 -> ax_live s = 0 ->
  exists s', push_slots checks k n s = Ret s' /\ batch old (m + Z.of_nat n) 0 (k + n) s'.
Proof.
  revert m. induction n as [|n IH]; intros m k s Hq Hm Hw Hk Eo Ed El; cbn [push_slots].
  - exists s. split; [done|]. rewrite Z.add_0_r, Nat.add_0_r. split; try done. split; [by rewrite Eo|].
    intros j sl Hj. rewrite Eo. by eexists.
  - assert (Hcap : zlen (waiting AP_RUNQ_CAP (ax_queue s)) < AP_RUNQ_CAP).
    { rewrite Hw. unfold queued_from, zlen, AP_RUNQ_CAP, AP_SLOTS, MAX_TASKS in *. rewrite length_fmap, length_seq. lia. }
    destruct (rq_push_refines AP_RUNQ_CAP checks m (ax_queue s) (Z.of_nat k) Hq) as (q & -> & Hq' & Hw'); [lia|done|]. cbn [mbind outcome_bind].
    destruct (IH (m + 1) (S k) (set_queue q s)) as (s' & -> & Hb); try done; try lia.
    + cbn [set_queue ax_queue]. rewrite Hw', Hw. unfold queued_from. rewrite !Nat.sub_0_r, seq_S, fmap_app. done.
    + exists s'. split; [done|]. replace (m + Z.of_nat (S n)) with (m + 1 + Z.of_nat n) by lia. by replace (k + S n)%nat with (S k + n)%nat by lia.
Qed.

Lemma dispatch_ok checks m old k n h tasks s : batch old m k n s -> m < 2 ^ 64 -> (n <= AP_SLOTS)%nat -> length old = AP_SLOTS ->
  Z.of_nat h < AP_MAX_HARTS -> (forall j, (j < n)%nat -> task_ends (tasks j)) ->
  exists s' k', ap_dispatch checks h tasks s = Ret (Some s') /\ batch old m k' n s' /\ (k' = S k /\ (k < n)%nat \/ k' = k /\ (n <= k)%nat).
Proof.
  intros [[L B1] [Hq Hw] Ed El] Hm Hn Hold Hh Ht. unfold ap_dispatch.
  destruct (rq_pop_refines AP_RUNQ_CAP checks m (ax_queue s) Hq Hm) as (q & -> & Hq' & Hw'). cbn [mbind outcome_bind]. rewrite Hw in *. destruct (Nat.lt_ge_cases k n) as [Hlt|Hge].
  - unfold queued_from in Hw'. unfold queued_from. destruct (n - k)%nat as [|d] eqn:Ek; [lia|]. cbn [seq fmap list_fmap head tail] in *. rewrite Nat2Z.id.
    destruct (Ht k Hlt) as (pre & last & rest & -> & Hp & Hf & He).
    destruct (lookup_lt_is_Some_2 (ax_slots s) k) as [slk Hslk]; [rewrite L, Hold; lia|].
    rewrite (a_task_runs_to_its_exit_or_fault checks h k pre last rest _ slk); try done; [|lia|cbn; rewrite El; lia].
    cbn [mbind outcome_bind set_queue ax_slots ax_ticks ax_live ax_live_max ax_done ax_queue].
    eexists _, (S k). split; [done|]. split; [|left; lia]. split; cbn [ax_slots ax_queue ax_done ax_live]; try done.
    + split; [by rewrite length_insert|]. intros j sl Hj. destruct (B1 j sl Hj) as (sl' & Hj' & Hr). destruct (decide (j = k)) as [->|Hne].
      * eexists. rewrite list_lookup_insert_eq by (rewrite L, Hold; lia). split; [done|]. rewrite Hslk in Hj'. injection Hj' as <-.
        rewrite (proj2 (Nat.ltb_lt k (S k))) by lia. rewrite Nat.ltb_irrefl in Hr. rewrite <- Hr. unfold ended_by. by destruct (is_call SYS_EXIT last).
      * exists sl'. rewrite list_lookup_insert_ne by done. split; [done|]. rewrite Hr.
        destruct (Nat.ltb_spec j k), (Nat.ltb_spec j (S k)); (done || lia).
    + split; [done|]. rewrite Hw'. unfold queued_from. replace (n - S k)%nat with d by lia. done.
    + rewrite Ed, wrap_small by (unfold fits, AP_SLOTS, MAX_TASKS in *; lia). lia.
  - unfold queued_from in *. replace (n - k)%nat with 0%nat in * by lia. cbn [seq fmap list_fmap head tail] in *.
    eexists _, k. split; [done|]. split; [|right; lia]. split; try done. cbn [set_queue ax_queue]. split; [done|].
    unfold queued_from. replace (n - k)%nat with 0%nat by lia. done.
Qed.

Lemma dispatches_ok checks m old n tasks harts : forall k s, batch old m k n s -> m < 2 ^ 64 -> (n <= AP_SLOTS)%nat -> length old = AP_SLOTS ->
  Forall (fun h => Z.of_nat h < AP_MAX_HARTS) harts -> (forall j, (j < n)%nat -> task_ends (tasks j)) -> (k <= n <= k + length harts)%nat ->
  exists s', ap_dispatches checks harts tasks s = Ret (Some s') /\ batch old m n n s'.
Proof.
  induction harts as [|h harts IH]; intros k s Hb Hm Hn Hold Hh Ht Hk; cbn [ap_dispatches length] in *.
  - exists s. split; [done|]. by replace n with k at 1 by lia.
  - apply Forall_cons in Hh as [Hh1 Hh]. destruct (dispatch_ok checks m old k n h tasks s) as (s1 & k1 & -> & Hb1 & Hk1); try done.
    cbn [mbind outcome_bind]. destruct Hk1 as [[-> ?]|[-> ?]].
    + by apply (IH (S k)); try lia.
    + by apply (IH k); try lia.
Qed.

(** Every slot of a batch is run exactly once, whichever harts pull from the
    queue and in whichever order, and the batch is reported done. *)
Theorem each_task_of_a_batch_runs_once checks n harts tasks m s :
  (n <= AP_SLOTS)%nat -> length (ax_slots s) = AP_SLOTS -> rq_ok AP_RUNQ_CAP m (ax_queue s) -> m + Z.of_nat n < 2 ^ 64 ->
  waiting AP_RUNQ_CAP (ax_queue s) = [] -> Forall (fun h => Z.of_nat h < AP_MAX_HARTS) harts -> (n <= length harts)%nat ->
  (forall j, (j < n)%nat -> task_ends (tasks j)) ->
  exists s1 s2, post_batch checks n s = Ret s1 /\ ap_dispatches checks harts tasks s1 = Ret (Some s2) /\
    batch_done n s2 = true /\ waiting AP_RUNQ_CAP (ax_queue s2) = [] /\ ran_below n (ax_slots s) (ax_slots s2).
Proof.
  intros Hn Hlen Hq Hm Hw Hh Hl Ht.
  destruct (push_slots_ok checks m (ax_slots s) n 0 (set_live 0 0 0 s)) as (s1 & E1 & Hb1); try done.
  destruct (dispatches_ok checks (m + Z.of_nat n) (ax_slots s) n tasks harts 0 s1) as (s2 & E2 & [B1 [B2 B3] B4 B5]); try done; [lia|].
  exists s1, s2. split; [exact E1|]. split; [exact E2|]. unfold batch_done. rewrite B4, Z.leb_refl. split; [done|]. split; [|done].
  rewrite B3. unfold queued_from. by rewrite Nat.sub_diag.
Qed.

(** Two tasks, one preempted once and exiting, one faulting, pulled by harts 2
    and 1; the kernel prints at an address the task names, with no check that
    it holds the print capability or owns the bytes. *)
Definition demo_frame (a7 a0 a1 : Z) : list Z := <[F_A7 := a7]> (<[F_A0 := a0]> (<[F_A1 := a1]> (replicate 32 0))).
Definition demo_tasks (j : nat) : list ApTrap :=
  if (j =? 0)%nat then [mkApTrap (2 ^ 63 + 5) 0 (demo_frame 0 0 0); mkApTrap 8 0 (demo_frame SYS_PRINT 0x80200000 64); mkApTrap 8 0 (demo_frame SYS_EXIT 7 0)]
  else [mkApTrap 15 0 (demo_frame 0 0 0)].
Definition demo_shared : ApShared := mkApShared (replicate AP_SLOTS slot_new) (replicate 8 0) 0 0 0 (rq_new AP_RUNQ_CAP).

Definition demo_batch : outcome Empty_set (option ApShared) :=
  s ← post_batch true 2 demo_shared; ap_dispatches true [2; 1; 1]%nat demo_tasks s.

Definition batch_view (s : ApShared) : list (Z * Z * Z * bool) * list Z * Z :=
  ((fun sl => (sl_runs sl, sl_hart sl, sl_exit sl, sl_fault sl)) <$> take 2 (ax_slots s), ax_ticks s, ax_done s).

Lemma a_batch_at_work :
  match demo_batch with Ret r => batch_view <$> r | _ => None end
  = Some ([(1, 2, 7, false); (1, 1, 2 ^ 64 - 1, true)], [0; 0; 1; 0; 0; 0; 0; 0], 2).
Proof. by vm_compute. Qed.

Theorem kernel_memory_is_printed_on_request slot s :
  ap_trap_handler true slot (mkApTrap 8 0 (demo_frame SYS_PRINT 0x80200000 64)) s =
    Ret (ResumeAt (<[F_A0 := 0]> (<[F_SEPC := 4]> (demo_frame SYS_PRINT 0x80200000 64))), s, [Uart 0x80200000 64]).
Proof. by vm_compute. Qed.
